(* ===== verification/_CoqProject ===== *)
-Q . S2P
Prelude.v
Path.v
PathCanon.v
PathFacts.v
PathRev.v
PathProps.v
IpcData.v
IpcOps.v
IpcSem.v
IpcInv.v
IpcWait.v
IpcRescan.v
IpcServe.v
IpcProps.v
Rewrite.v
RewriteIsa.v
RewriteScan.v
RewriteProps.v
Cred.v
CredProps.v
Publish.v
PublishProps.v
Unistd.v
Seccomp.v
SeccompFacts.v
SeccompProps.v
Page.v
Ownmap.v
OwnmapProps.v
Shm.v
ShmFacts.v
ShmReq.v
ShmProps.v
Rt.v
RtFacts.v
RtStr.v
RtProps.v
Fmt.v
FmtProps.v
Elf.v
ElfMap.v
ElfProps.v
ElfMem.v
Stack.v
StackProps.v
ProcStat.v
Procreg.v
ProcregFacts.v
ProcregProps.v
ProcregLock.v
Resolve.v
ResolveFacts.v
ResolveProps.v
ResolveRef.v
L2sName.v
L2s.v
L2sNameProps.v
L2sFacts.v
L2sGroup.v
L2sOps.v
L2sProps.v
L2sSafe.v
Dents.v
DentsFacts.v
DentsProps.v
DentsStream.v
Pin.v
PinProps.v
PinCalls.v
Dac.v
DacProps.v
Sun.v
SunProps.v
Netlink.v
NetlinkProps.v
NetlinkPeers.v
