(* ===== verification/Prelude.v ===== *)
(** * Verification of chroot-ng: overview

    chroot-ng runs an AArch64 Linux program inside a directory tree without
    privileges.  It loads the program into its own process, installs a seccomp
    filter that turns the system calls it must answer into SIGSYS, and answers
    them itself: paths are mapped onto the host's, identities can be faked, hard
    links emulated, directory listings edited; System V IPC and netlink sockets
    are kept by a broker daemon.  This library models its core from the C sources
    under src/ and proves what each part promises the others.

    ** The program's parts, and where they are modelled

    - The runtime (src/src/rt/rt.c): [Rt] has the memory and string routines loop
      by loop on a byte memory with unmapped addresses, [Fmt] the formatter and
      its buffered output.  [RtFacts], [RtCopy] and [RtStr] prove the loops;
      [RtProps] and [FmtProps] have the theorems.
    - The path core (src/src/path/path.c): [Path] has the view (rootfs, binds,
      cwd), canonicalisation, mount selection, translation and its reverse,
      read-only binds and chroot.  [PathCanon] is the reference walk over
      components; [PathFacts] and [PathRev] the lemmas; [PathProps] the theorems.
    - The path walk (src/src/monitor/dispatch.c, cng_resolve and what it calls):
      [Resolve] follows a guest path component by component through links, the
      names of /proc and /dev that stand for something else and the constraints of
      openat2, and hands the result to [Path].  [ResolveFacts] and [ResolveProps]
      prove it; [ResolveRef] is the reference resolution it refines.
    - Pinned paths (src/src/monitor/pin.c): [Pin] opens the directory a walk found
      and checks it is the one that was meant, [PinCalls] the calls made through
      such a descriptor, with [PinProps].
    - Fake root's lent modes (dispatch.c): [Dac] lends owner bits for one call and
      gives them back, with [DacProps].
    - Emulated hard links (src/src/monitor/l2s.c): [L2sName] has the marker names,
      [L2s] link, unlink, stat, rename's halves and the group lock, on a tree
      whose calls can fail.  [L2sNameProps], [L2sFacts], [L2sGroup] and [L2sOps]
      are the lemmas; [L2sProps] and [L2sSafe] the theorems.
    - Directory listings (dispatch.c, do_getdents64): [Dents] on the bytes of the
      batch, calling [L2s] for what an entry stands for; [DentsFacts] the lemmas,
      [DentsProps] and [DentsStream] the theorems on one call and on a stream.
    - Unix socket addresses (src/src/monitor/unixsock.c): [Sun], with [SunProps].
    - Netlink (src/src/monitor/netlink.c): [Netlink] is the daemon's side, from a
      request's bytes to the records sent, with [NetlinkProps]; [NetlinkPeers] its
      table of sockets, over every run of registrations, syncs and poll rounds.
    - The process registry (src/src/monitor/procreg.c): [Text] and [ProcStat] have
      the parsers of the host's /proc, [Procreg] the shared table's operations,
      [ProcregLock] the interleaved steps of an entry's lock, with [ProcregFacts]
      and [ProcregProps].
    - The fake identity (src/src/monitor/cred.c): [Cred], with [CredProps].
    - Publication (cred.c and path.c share the scheme): [Publish] is a step
      relation on two buffers, a sequence and an owner word, with readers,
      writers, forks and takeovers interleaved; [PublishProps] its invariant.
    - The filters (src/src/monitor/seccomp.c): [Seccomp] has the builders
      instruction by instruction and the BPF interpreter; [Unistd] the numbers;
      [SeccompFacts] decides one block at a time; [SeccompProps] the theorems.
    - The broker (src/src/monitor/ipcreg.c and broker.c): [IpcData] and [IpcOps]
      have semaphore sets, message queues, undo rows and parked waiters, one
      definition per C function, [Shm] the shared-memory segments.  [IpcSem],
      [IpcInv], [IpcWf], [IpcWait], [IpcRescan] and [ShmFacts], [ShmReq] are the
      invariants; [IpcServe] composes one turn of the daemon's loop; [IpcProps]
      and [ShmProps] have the theorems.
    - Rewriting and single-step (src/src/monitor/rewrite.c, ptstep.c): [Rewrite];
      [RewriteIsa] is the architecture's own meaning of a branch; [RewriteScan]
      the lemmas; [RewriteProps] the theorems.
    - The monitor's own mappings (src/src/monitor/ownmap.c, tab.c): [Ownmap],
      [OwnmapProps].
    - The loader (src/src/loader/elf.c, stack.c): [Page] is its page arithmetic,
      [Elf] the header and map passes, [Stack] the initial stack.  [ElfMap] has
      the lemmas; [ElfProps], [ElfProt], [ElfMem] and [StackProps] the theorems.
      The loader calls the rewriter of [Rewrite] and asks [Ownmap] what is the
      monitor's, as the C code does; the stack is built for what [Elf] reports.

    ** Conventions

    A C integer is a [Z] and a store into a [w]-bit type wraps ([wrapu],
    [wraps]); addresses wrap where the code's arithmetic can.  A C string is
    the list of its bytes before the terminator.  Fallible code returns an
    option, a sum or the C error number.  State is passed along; the kernel, the
    guest's memory and code outside src/ are parameters ([lhost], [shm_host],
    [kern], [host], [nlhost] and the like), and what a theorem needs of them is a
    named hypothesis.  Where the file system is written to, its calls can fail: a
    list of faults says which; where a path is only walked or opened, the tree may
    change between any two calls.  This file has the notation, the tactics and
    hint databases and the lemmas on lists, strings and machine integers the rest
    shares.

    ** What the theorems show

    - Paths: canonicalisation is the component walk; the longest bind answers;
      every translated name stays under its mount and speaks of no foreign
      process; translation and its reverse are inverse; updates keep the view
      well formed; chroot moves the root only, except for the one truncation
      it does not refuse ([chroot_overlong_root_is_host_root]).
    - The walk: it ends, whatever the links say; what it hands over is the view's
      translation of a guest name or a name the kernel resolves safely; on a tree
      without special names it is the reference resolution; a scope is not left.
      Calls made through a pinned directory act in the view though the tree
      changes under them.  Modes lent are given back on every path out of a call,
      save where the guest set the lent mode itself
      ([chmod_to_lent_mode_undone]).
    - Hard links: a group is one file with its count; a failed link leaves the
      names as they were; a marker is followed only to a place it owns.
    - Listings: every host entry the view shows appears once, the injected ones
      too, and nothing the view hides; a batch makes progress.
    - Socket addresses: a host name is tagged with the view it belongs to, and
      reads back as the guest's; with three limits of the record table
      ([reused_number_swept], [full_path_not_read_back], [older_record_wins]).
    - Netlink: every request is answered in the order it came, a dump with its
      terminator and all under the guest's port; the table of sockets stays
      consistent while ids last ([wrapped_id_meets_twin]); the link dump made up
      for the host parses back to the interfaces asked about.
    - Process registry: an entry read is an entry written, whole; a reused pid is
      not taken for the process that left; a reader under the lock's count never
      mixes two writes.
    - Broker: a semop vector is atomic; the registry's invariant holds in every
      state the loop reaches; a turn terminates and leaves no operation parked
      that could proceed; what is sent is received; a dead process's undo is
      paid; the segments' ids, rows and counts stay consistent, except where a
      pid came back ([shm_reused_pid_attach_uncounted]).
    - Identity: a dropped root stays dropped; exec closes the saved ids; a call
      changes the set whole or not at all; reports equal what was installed.
    - Publication: a read that passes its check saw one committed structure; a
      lone reader and a lone writer finish, a dead writer's lock included.
    - Filters: the base filter is its policy, lets nothing that names a path or
      a System V object reach the host, fits its arrays, and the monitor's
      prediction of a trap is the kernel's decision.
    - Rewriting: only [svc #0] words and the pool change, each site branches to
      its own trampoline and back; the code map is the executable sections;
      encoder, decoder and architecture agree.
    - Own mappings: while the registry answers ready, a range hits it exactly
      where the floor, a recorded range or its own pages are.
    - Loader: a load comes to an end and acts nowhere but in the reservation it
      made, never on the monitor, and leaves the one it reports or none; pages
      get the union of the protections of their segments; the image's bytes are
      the file's and zeros, by either strategy; the initial stack reads back.
    - Runtime: the word-at-a-time routines mean what C says, reading nothing
      unmapped; formatted output is exact for every buffer size and every
      pattern of short writes.

    ** Fuel

    Loops that the C code bounds by a counter or a table recurse on that, the id
    searches of the registries with the bound the code itself has.  Fuel stands
    where the bound is an argument: the rewriter's scan has one step per byte of
    the segment and takes a word each, the rescan one more pass than there are
    waiter slots and one more visit per pass, each pass but the last waking a
    waiter, the section header reader one chunk per header, the string scans the
    length of the string the theorem is about, a write one step per byte and per
    answer left, the formatter the length of the format and 64 digits for a
    64-bit number.  The path walk has 41 * 4096 turns ([walk_fuel]): forty links
    may be followed and the text left to walk, under 4096 bytes, shrinks in every
    turn between two; the reference has a turn more per link ([ref_fuel]).  The
    opening of a pinned path takes a step per byte of it, a directory listing's
    rounds one per record the stream has left, the walks over netlink messages
    and attributes one per byte of the buffer, each taking four at least.  Where
    the loop can run out the result is [None], and the theorems prove a result,
    not only its correctness.

    ** Not modelled

    The handlers of the single system calls beyond those named above, in-process
    exec, signal and ptrace handling, the synthesised /proc files, the guest's
    side of the netlink sockets and the client sides of the broker protocol: for
    the most part calls handed on to the kernel with translated arguments, signal
    frames and assembler.  The races of the growing tables: [Ownmap] is the
    one-thread model.  Memory ordering weaker than sequential consistency in
    [Publish] and [ProcregLock].  Assembler sources (entry points, trampoline
    template) are parameters.  Command line, start-up, self-tests and debugging
    output. *)

From stdpp Require Import base list strings gmap numbers.
From Stdlib Require Import ZArith Ascii Lia.

Open Scope Z_scope.

Declare Scope cng_scope.
Delimit Scope cng_scope with cng.

(** ** C strings

    A C string is the list of its bytes before the terminator, so a lookup
    [s !! i] past the end is the read of the terminator. *)

Abbreviation cstr := (list ascii).

Definition NUL : ascii := "000"%char.
Definition SLASH : ascii := "/"%char.
Definition DOT : ascii := "."%char.

Definition cs (s : string) : cstr := String.list_ascii_of_string s.

Arguments cs : simpl never.

(** [strncmp(a, b, n) == 0] on C strings. *)
Definition strneq (a b : cstr) (n : nat) : bool :=
  bool_decide (take n a = take n b).

(** [strcmp(a, b) == 0] on C strings. *)
Definition streq (a b : cstr) : bool := bool_decide (a = b).

(** [s[i] == c], [s[i] == '\0'] and the test of a component boundary,
    [s[i] == '/' || s[i] == '\0']. *)
Definition char_is (s : cstr) (i : nat) (c : ascii) : bool :=
  bool_decide (s !! i = Some c).
Definition at_end (s : cstr) (i : nat) : bool := bool_decide (s !! i = None).
Definition at_boundary (s : cstr) (i : nat) : bool :=
  char_is s i SLASH || at_end s i.

(** [cng_strlcpy(dst, src, size)]: what lands in [dst] (the bytes before its
    terminator) and the return value, the length of the source.
*)
Definition strlcpy (src : cstr) (size : nat) : cstr * nat :=
  (take (pred size) src, length src).

(** ** Machine integers

    A [w]-bit unsigned integer is a [Z] in [0, 2^w); a store into a narrower
    or signed type wraps as the C conversion does on AArch64. *)

Definition wrapu (w : Z) (x : Z) : Z := x mod 2 ^ w.
Definition wraps (w : Z) (x : Z) : Z :=
  (x + 2 ^ (w - 1)) mod 2 ^ w - 2 ^ (w - 1).

Abbreviation u8 := (wrapu 8).
Abbreviation u16 := (wrapu 16).
Abbreviation u32 := (wrapu 32).
Abbreviation u64 := (wrapu 64).
Abbreviation s16 := (wraps 16).
Abbreviation s32 := (wraps 32).
Abbreviation s64 := (wraps 64).

Lemma wrapu_small w x : 0 <= x < 2 ^ w -> wrapu w x = x.
Proof. apply Z.mod_small. Qed.

Lemma wrapu_range w x : 0 <= w -> 0 <= wrapu w x < 2 ^ w.
Proof. intros. apply Z.mod_pos_bound. apply Z.pow_pos_nonneg; lia. Qed.

Lemma wraps_small w x :
  0 < w -> - 2 ^ (w - 1) <= x < 2 ^ (w - 1) -> wraps w x = x.
Proof.
  intros Hw H. unfold wraps.
  assert (E : 2 ^ w = 2 * 2 ^ (w - 1)).
  { rewrite <-Z.pow_succ_r by lia. f_equal. lia. }
  rewrite Z.mod_small; lia.
Qed.

Lemma wrapu_wrapu w x : 0 <= w -> wrapu w (wrapu w x) = wrapu w x.
Proof. intros. apply wrapu_small. by apply wrapu_range. Qed.

Lemma wrapu_sub_l w x y : 0 <= w -> wrapu w (wrapu w x - y) = wrapu w (x - y).
Proof. intros. unfold wrapu. by rewrite Zminus_mod_idemp_l. Qed.

Lemma wrapu_add_l w x y : 0 <= w -> wrapu w (wrapu w x + y) = wrapu w (x + y).
Proof. intros. unfold wrapu. by rewrite Zplus_mod_idemp_l. Qed.

Lemma wraps_add_l w x y : wraps w (wraps w x + y) = wraps w (x + y).
Proof.
  unfold wraps. f_equal.
  replace (_ - 2 ^ (w - 1) + y + 2 ^ (w - 1))
    with ((x + 2 ^ (w - 1)) mod 2 ^ w + y) by lia.
  rewrite Zplus_mod_idemp_l. f_equal. lia.
Qed.

(** ** Hint databases and tactics *)

Create HintDb cng discriminated.
Create HintDb cngb.

#[export] Hint Rewrite andb_true_iff orb_true_iff negb_true_iff andb_false_iff
  orb_false_iff negb_false_iff Z.eqb_eq Z.eqb_neq Z.ltb_lt Z.ltb_ge Z.leb_le
  Z.leb_gt Nat.eqb_eq Nat.eqb_neq Nat.ltb_lt Nat.ltb_ge Nat.leb_le
  Nat.leb_gt bool_decide_eq_true bool_decide_eq_false : cngb.

(** Turn boolean hypotheses and goals into the propositions they decide. *)
Ltac bprop := repeat (autorewrite with cngb in * ).

(** Split on the condition of the first [if] of the goal. *)
Ltac case_if :=
  match goal with
  | |- context [if ?b then _ else _] =>
      lazymatch type of b with
      | bool => let E := fresh "Eif" in destruct b eqn:E
      | _ => let E := fresh "Eif" in destruct b as [E|E]
      end
  end.

(** The same on a hypothesis. *)
Ltac case_if_in H :=
  match type of H with
  | context [if ?b then _ else _] =>
      lazymatch type of b with
      | bool => let E := fresh "Eif" in destruct b eqn:E
      | _ => let E := fresh "Eif" in destruct b as [E|E]
      end
  end.

(** Split on the scrutinee of the first [match] on an option of [H]. *)
Ltac case_match_in H :=
  match type of H with
  | context [match ?x with _ => _ end] =>
      let E := fresh "Em" in destruct x eqn:E
  end.

(** ** Lists *)

Section Lists.
Context {A : Type}.

(** The longest prefix whose elements satisfy [p], and what follows it. *)
Fixpoint take_while (p : A -> bool) (l : list A) : list A :=
  match l with
  | [] => []
  | x :: l' => if p x then x :: take_while p l' else []
  end.

Fixpoint drop_while (p : A -> bool) (l : list A) : list A :=
  match l with
  | [] => []
  | x :: l' => if p x then drop_while p l' else l
  end.

Lemma take_drop_while p l : take_while p l ++ drop_while p l = l.
Proof. induction l as [|x l IH]; simpl; [done|]. case_if; simpl; congruence. Qed.

Lemma drop_while_length p l : (length (drop_while p l) <= length l)%nat.
Proof. induction l as [|x l IH]; simpl; [lia|]. case_if; simpl; lia. Qed.

Lemma take_while_Forall p l : Forall (fun x => p x = true) (take_while p l).
Proof. induction l as [|x l IH]; simpl; [constructor|]. case_if; auto. Qed.

Lemma take_while_app p l1 l2 :
  Forall (fun x => p x = true) l1 ->
  take_while p (l1 ++ l2) = l1 ++ take_while p l2.
Proof. induction 1 as [|x l Hx _ IH]; simpl; [done|]. by rewrite Hx, IH. Qed.

Lemma drop_while_app p l1 l2 :
  Forall (fun x => p x = true) l1 ->
  drop_while p (l1 ++ l2) = drop_while p l2.
Proof. induction 1 as [|x l Hx _ IH]; simpl; [done|]. by rewrite Hx. Qed.

Lemma drop_while_head p l x l' : drop_while p l = x :: l' -> p x = false.
Proof.
  induction l as [|y l IH]; simpl; [done|]. case_if; [done|].
  intros [= -> ->]. done.
Qed.

Lemma take_while_none p x (l : list A) :
  p x = false -> take_while p (x :: l) = [].
Proof. simpl. by intros ->. Qed.

Lemma prefix_take (l k : list A) : l `prefix_of` k <-> take (length l) k = l.
Proof.
  split.
  - intros [r ->]. by rewrite take_app_length.
  - intros <-. exists (drop (length l) k). by rewrite take_drop.
Qed.
End Lists.

(** ** Strings *)

Lemma streq_true a b : streq a b = true <-> a = b.
Proof. apply bool_decide_eq_true. Qed.

Lemma strneq_prefix (a b : cstr) :
  strneq a b (length b) = true <-> b `prefix_of` a.
Proof.
  unfold strneq. rewrite bool_decide_eq_true, (take_ge b) by lia.
  symmetry. apply prefix_take.
Qed.

(** [pfx] is a prefix of [s] that ends at a component boundary of [s]. *)
Definition path_under (s pfx : cstr) : Prop :=
  exists rest, s = pfx ++ rest /\ (rest = [] \/ exists r, rest = SLASH :: r).

Lemma at_boundary_app (a b : cstr) :
  at_boundary (a ++ b) (length a) = true <->
  b = [] \/ exists r, b = SLASH :: r.
Proof.
  unfold at_boundary, char_is, at_end.
  rewrite lookup_app_r, Nat.sub_diag by lia.
  rewrite orb_true_iff, !bool_decide_eq_true. destruct b as [|c b]; simpl.
  - naive_solver.
  - naive_solver.
Qed.

Lemma under_spec (s pfx : cstr) :
  strneq s pfx (length pfx) && at_boundary s (length pfx) = true <->
  path_under s pfx.
Proof.
  rewrite andb_true_iff, strneq_prefix. split.
  - intros [[r ->] H]. exists r. split; [done|]. by rewrite at_boundary_app in H.
  - intros (r & -> & H). split; [by exists r|]. by rewrite at_boundary_app.
Qed.
