(* ===== verification/Path.v ===== *)
(** * The path virtualisation core (src/src/path/path.c)

    Guest paths are mapped onto host paths with a rootfs and a table of bind
    mounts, plus the /proc passthrough and the /dev whitelist.  This file has
    the data model of include/cng/path.h and every pure operation of path.c:
    canonicalisation, mount selection, translation, the reverse translation,
    read-only binds and chroot.  [PathFacts] proves what they promise. *)

From stdpp Require Import base list strings gmap numbers.
From Stdlib Require Import ZArith Ascii Lia.
From S2P Require Import Prelude.

Open Scope nat_scope.

Definition CNG_PATH_MAX : nat := 4096.
Definition CNG_MAX_BINDS : nat := 64.
Definition GUEST_SZ : nat := 256. (* sizeof cng_bind.guest *)
Definition HOST_SZ : nat := 512.  (* sizeof cng_bind.host, cng_fs.rootfs *)

Record cng_bind := CngBind {
  b_guest : cstr;
  b_host : cstr;
  b_glen : nat;
  b_hlen : nat;
  b_base : nat;
  b_ro : bool }.

(** [binds] holds the first [nbinds] entries of the array. *)
Record cng_fs := CngFs {
  f_rootfs : cstr;
  f_rlen : nat;
  f_binds : list cng_bind;
  f_has_ro : bool;
  f_cwd : cstr }.

(** The process-wide settings and registries the path core consults: the
    --no-proc and --no-dev switches, where /dev/shm and /dev/pts live on the
    host, and the guest process registry ([cng_procreg_has]). *)
Record genv := GEnv {
  g_no_proc : bool;
  g_no_dev : bool;
  g_shm_host : cstr;
  g_pts_host : cstr;
  g_procreg_has : Z -> bool }.

(** The host kernel as the prefixes are resolved against it: the descriptor an
    O_PATH open of a path gives, the readback of its fd link (what readlinkat
    returned, cut at the buffer's size), and whether a descriptor still names
    the file at a path ([fd_names], an inode comparison). *)
Record host := Host {
  h_open_path : cstr -> option Z;
  h_fd_link : Z -> cstr;
  h_fd_names : Z -> cstr -> bool }.

(** ** Lexical canonicalisation *)

Definition is_slash (c : ascii) : bool := Ascii.eqb c SLASH.
Definition not_slash (c : ascii) : bool := negb (is_slash c).

(** [while (olen > 0 && out[olen - 1] != '/') olen--; if (olen > 0) olen--;] *)
Definition drop_last_comp (out : cstr) : cstr :=
  reverse (tail (drop_while not_slash (reverse out))).

(** One turn of the loop of [cng_path_canon] per unit of fuel; [out] is what
    has been written so far. *)
Fixpoint canon_loop (fuel : nat) (p out : cstr) (outsz : nat) : option cstr :=
  match fuel with
  | O => None
  | S fuel =>
      let p := drop_while is_slash p in
      match p with
      | [] => Some out
      | _ :: _ =>
          let comp := take_while not_slash p in
          let p := drop_while not_slash p in
          if streq comp [DOT] then canon_loop fuel p out outsz
          else if streq comp [DOT; DOT]
          then canon_loop fuel p (drop_last_comp out) outsz
          else if outsz <=? length out + 1 + length comp then None
          else canon_loop fuel p (out ++ SLASH :: comp) outsz
      end
  end.

Definition cng_path_canon (abs : cstr) (outsz : nat) : option cstr :=
  out ← canon_loop (S (length abs)) abs [] outsz;
  Some (if length out =? 0 then [SLASH] else out).

(** The backward scan, on the reversed spelling. *)
Fixpoint wants_dir_rev (r : cstr) (want : bool) : bool :=
  match r with
  | [] => want
  | c :: r' =>
      if is_slash c then wants_dir_rev r' true
      else if Ascii.eqb c DOT
              && match r' with [] => true | c' :: _ => is_slash c' end
      then wants_dir_rev r' true
      else want
  end.

Definition cng_path_wants_dir (path : cstr) : bool :=
  wants_dir_rev (reverse path) false.

Definition abscanon_1 (fs : cng_fs) (path : cstr) (outsz : nat) : option cstr :=
  tmp ← (if char_is path 0 SLASH
         then let '(tmp, n) := strlcpy path CNG_PATH_MAX in
              if CNG_PATH_MAX <=? n then None else Some tmp
         else
           let '(tmp, n) := strlcpy (f_cwd fs) CNG_PATH_MAX in
           if CNG_PATH_MAX <=? n then None
           else
             sep ← (if negb (n =? 0) && negb (char_is tmp (n - 1) SLASH)
                    then if CNG_PATH_MAX <=? n + 1 then None
                         else Some (tmp ++ [SLASH])
                    else Some tmp);
             let '(t, m) := strlcpy path (CNG_PATH_MAX - length sep) in
             if CNG_PATH_MAX - length sep <=? m then None
             else Some (sep ++ t));
  cng_path_canon tmp outsz.

(** ** The zones *)

Definition proc_zone (G : genv) (canon : cstr) : bool :=
  negb (g_no_proc G) && strneq canon (cs "/proc") 5 && at_boundary canon 5.

Definition cng_dev_nodes (G : genv) : list (cstr * cstr) :=
  [ (cs "null", cs "/dev/null"); (cs "zero", cs "/dev/zero");
    (cs "full", cs "/dev/full"); (cs "random", cs "/dev/random");
    (cs "urandom", cs "/dev/urandom"); (cs "tty", cs "/dev/tty");
    (cs "ptmx", cs "/dev/ptmx"); (cs "console", cs "/dev/tty");
    (cs "pts", g_pts_host G); (cs "shm", g_shm_host G);
    (cs "fd", cs "/proc/self/fd"); (cs "stdin", cs "/proc/self/fd/0");
    (cs "stdout", cs "/proc/self/fd/1"); (cs "stderr", cs "/proc/self/fd/2") ].

(** The first node of the table that the leaf names, itself or by a subpath;
    the result is its host path and the rest. *)
Fixpoint dev_scan (nodes : list (cstr * cstr)) (leaf : cstr)
    : option (cstr * cstr) :=
  match nodes with
  | [] => None
  | (name, host) :: nodes' =>
      let nl := length name in
      if strneq leaf name nl && at_boundary leaf nl
      then Some (host, drop nl leaf)
      else dev_scan nodes' leaf
  end.

Definition dev_zone_node (G : genv) (canon : cstr) : option (cstr * cstr) :=
  if g_no_dev G then None
  else if negb (strneq canon (cs "/dev") 4) || negb (at_boundary canon 4)
  then None
  else if at_end canon 4 then None
  else dev_scan (cng_dev_nodes G) (drop 5 canon).

(** The three answers of [dev_zone]: 0 (not the zone's), 1 (filled), -1. *)
Inductive zone_fill := ZNone | ZFill (out : cstr) | ZTrunc.

Definition dev_zone (G : genv) (canon : cstr) (outsz : nat) : zone_fill :=
  match dev_zone_node G canon with
  | None => ZNone
  | Some (h, []) => ZFill (fst (strlcpy h outsz))
  | Some (h, rest) =>
      let '(out, n) := strlcpy h outsz in
      if outsz <=? n then ZTrunc
      else let '(t, m) := strlcpy rest (outsz - n) in
           if outsz - n <=? m then ZTrunc else ZFill (out ++ t)
  end.

Definition is_digit (c : ascii) : bool :=
  ((48 <=? N_of_ascii c) && (N_of_ascii c <=? 57))%N.
Definition digit_val (c : ascii) : Z := (Z.of_N (N_of_ascii c) - 48)%Z.

(** The pid of a [/proc/] entry's digits; [None] where the loop of
    [host_proc_hidden] returns 0. *)
Fixpoint pid_scan (p : cstr) (pid : Z) : option Z :=
  match p with
  | [] => Some pid
  | c :: p' =>
      if is_slash c then Some pid
      else if negb (is_digit c) then None
      else let pid := (pid * 10 + digit_val c)%Z in
           if (0x7fffffff <? pid)%Z then None else pid_scan p' pid
  end.

Definition host_proc_hidden (G : genv) (host : cstr) : bool :=
  if g_no_proc G || negb (strneq host (cs "/proc/") 6) then false
  else
    let p := drop 6 host in
    match p with
    | c :: _ =>
        if negb (is_digit c) then false
        else match pid_scan p 0 with
             | None => false
             | Some pid => negb (g_procreg_has G pid)
             end
    | [] => false
    end.

Definition hide_proc_pid (out : cstr) (outsz : nat) : cstr :=
  let rest := drop_while not_slash (drop 6 out) in
  let '(tmp, n) := strlcpy (cs "/proc/0") CNG_PATH_MAX in
  let tmp := tmp ++ fst (strlcpy rest (CNG_PATH_MAX - n)) in
  fst (strlcpy tmp outsz).

(** ** The host prefixes *)

(** [while (n > 1 && dst[n - 1] == '/') dst[--n] = '\0';], on the reversed
    string. *)
Fixpoint trim_rev (r : cstr) : cstr :=
  match r with
  | c :: (_ :: _) as r' => if is_slash c then trim_rev r' else r
  | _ => r
  end.

Definition normalize_root (dstsz : nat) (src : cstr) : option cstr :=
  let '(dst, n) := strlcpy src dstsz in
  if dstsz <=? n then None
  else let dst := reverse (trim_rev (reverse dst)) in
       Some (if streq dst [SLASH] then [] else dst).

Definition canon_host_root (H : host) (dstsz : nat) (src : cstr)
    : option cstr :=
  match h_open_path H src with
  | Some fd =>
      let real := h_fd_link H fd in
      let n := length real in
      if negb (n =? 0) && (n <? CNG_PATH_MAX) && char_is real 0 SLASH
         && h_fd_names H fd real
      then normalize_root dstsz real
      else normalize_root dstsz src
  | None => normalize_root dstsz src
  end.

Definition cng_fs_init (H : host) (rootfs : option cstr) : option cng_fs :=
  r ← canon_host_root H HOST_SZ (default [SLASH] rootfs);
  Some (CngFs r (length r) [] false [SLASH]).

(** The offset of the last component: past the last slash of the prefix. *)
Fixpoint base_scan (g : cstr) (i base : nat) : nat :=
  match g with
  | [] => base
  | c :: g' => base_scan g' (S i) (if is_slash c then S i else base)
  end.

Definition bind_measure (guest host : cstr) (ro : bool) : cng_bind :=
  CngBind guest host (length guest) (length host) (base_scan guest 0 0) ro.

Definition cng_fs_add_bind (H : host) (fs : cng_fs) (guest hostp : cstr)
    (ro : bool) : option cng_fs :=
  if CNG_MAX_BINDS <=? length (f_binds fs) then None
  else if negb (char_is guest 0 SLASH) then None
  else
    canon ← cng_path_canon guest CNG_PATH_MAX;
    let '(g, n) := strlcpy canon GUEST_SZ in
    if GUEST_SZ <=? n then None
    else
      h ← canon_host_root H HOST_SZ hostp;
      Some (CngFs (f_rootfs fs) (f_rlen fs)
                  (f_binds fs ++ [bind_measure g h ro])
                  (if ro then true else f_has_ro fs) (f_cwd fs)).

(** ** Mount selection *)

Inductive mount := MBind (i : nat) | MRootfs | MProc | MDev.

(** The loop over the binds: [best] and [blen] so far, from index [i]. *)
Fixpoint best_guest (canon : cstr) (bs : list cng_bind) (i : nat)
    (best : option nat) (blen : nat) : option nat :=
  match bs with
  | [] => best
  | b :: bs' =>
      if strneq canon (b_guest b) (b_glen b) && at_boundary canon (b_glen b)
         && (blen <? b_glen b)
      then best_guest canon bs' (S i) (Some i) (b_glen b)
      else best_guest canon bs' (S i) best blen
  end.

Definition mount_of_1 (G : genv) (fs : cng_fs) (canon : cstr) : mount :=
  match best_guest canon (f_binds fs) 0 None 0 with
  | Some i => MBind i
  | None =>
      if proc_zone G canon then MProc
      else match dev_zone_node G canon with
           | Some _ => MDev
           | None => MRootfs
           end
  end.

(** The join of a prefix and what follows it in a buffer of [outsz] bytes. *)
Definition join_checked (a b : cstr) (outsz : nat) : option cstr :=
  let '(out, n) := strlcpy a outsz in
  if outsz <=? n then None
  else let '(t, m) := strlcpy b (outsz - n) in
       if outsz - n <=? m then None else Some (out ++ t).

Definition translate_mnt_1 (G : genv) (fs : cng_fs) (path : cstr)
    (outsz : nat) : option (cstr * mount) :=
  canon ← abscanon_1 fs path CNG_PATH_MAX;
  let m := mount_of_1 G fs canon in
  out ← (match m with
         | MBind i =>
             b ← f_binds fs !! i;
             join_checked (b_host b) (drop (b_glen b) canon) outsz
         | MProc =>
             let '(out, n) := strlcpy canon outsz in
             if outsz <=? n then None else Some out
         | MDev =>
             match dev_zone G canon outsz with
             | ZFill out => Some out
             | ZTrunc => None
             | ZNone => Some [] (* [mount_of_1] has found a node *)
             end
         | MRootfs => join_checked (f_rootfs fs) canon outsz
         end);
  let out := if host_proc_hidden G out then hide_proc_pid out outsz else out in
  if cng_path_wants_dir path then
    let n := length out in
    if negb (n =? 0) && negb (char_is out (n - 1) SLASH)
    then if outsz <? n + 2 then None else Some (out ++ [SLASH], m)
    else Some (out, m)
  else Some (out, m).

(** ** The reverse translation *)

Definition host_under (host pfx : cstr) (len : nat) : bool :=
  (len =? 0) || (strneq host pfx len && at_boundary host len).

Inductive rev_best := RNone | RRootfs | RBind (i : nat).

Fixpoint best_host (host : cstr) (bs : list cng_bind) (i : nat)
    (best : rev_best) (blen : nat) : rev_best * nat :=
  match bs with
  | [] => (best, blen)
  | b :: bs' =>
      if (blen <? b_hlen b) && host_under host (b_host b) (b_hlen b)
      then best_host host bs' (S i) (RBind i) (b_hlen b)
      else best_host host bs' (S i) best blen
  end.

Definition untranslate_1 (fs : cng_fs) (host : cstr) (outsz : nat)
    : option cstr :=
  let start := if host_under host (f_rootfs fs) (f_rlen fs)
               then (RRootfs, f_rlen fs) else (RNone, 0) in
  let '(best, blen) := best_host host (f_binds fs) 0 start.1 start.2 in
  pfx ← (match best with
         | RNone => None
         | RRootfs => Some []
         | RBind i => b_guest <$> f_binds fs !! i
         end);
  out ← join_checked pfx (drop blen host) outsz;
  Some (if length out =? 0 then fst (strlcpy [SLASH] outsz) else out).

(** ** Read-only binds *)

Fixpoint best_ro (host : cstr) (bs : list cng_bind) (best : option cng_bind)
    (blen : nat) : option cng_bind :=
  match bs with
  | [] => best
  | b :: bs' =>
      if negb (b_hlen b =? 0) && strneq host (b_host b) (b_hlen b)
         && at_boundary host (b_hlen b) && (blen <? b_hlen b)
      then best_ro host bs' (Some b) (b_hlen b)
      else best_ro host bs' best blen
  end.

Definition host_ro_1 (fs : cng_fs) (host : cstr) : bool :=
  if negb (f_has_ro fs) then false
  else match best_ro host (f_binds fs) None 0 with
       | Some b => b_ro b
       | None => false
       end.

(** ** chroot and chdir *)

Definition rebase (dstsz : nat) (p root : cstr) (rlen : nat) : option cstr :=
  if rlen =? 0 then Some (fst (strlcpy p dstsz))
  else if negb (strneq p root rlen) || negb (at_boundary p rlen) then None
  else Some (fst (strlcpy (if at_end p rlen then [SLASH] else drop rlen p)
                          dstsz)).

(** The compaction loop over the binds. *)
Fixpoint rebase_binds (root : cstr) (rlen : nat) (bs : list cng_bind)
    : list cng_bind :=
  match bs with
  | [] => []
  | b :: bs' =>
      match rebase GUEST_SZ (b_guest b) root rlen with
      | Some g =>
          if streq g [SLASH] then rebase_binds root rlen bs'
          else bind_measure (fst (strlcpy g GUEST_SZ)) (b_host b) (b_ro b)
                 :: rebase_binds root rlen bs'
      | None => rebase_binds root rlen bs'
      end
  end.

Definition chroot_1 (fs : cng_fs) (guest_root host_root : cstr) : cng_fs :=
  match cng_path_canon guest_root CNG_PATH_MAX with
  | None => fs
  | Some root =>
      let rlen := if length root =? 1 then 0 else length root in
      let bs := rebase_binds root rlen (f_binds fs) in
      let cwd := match rebase CNG_PATH_MAX (f_cwd fs) root rlen with
                 | Some c => c
                 | None => [SLASH]
                 end in
      let rootfs := default [] (normalize_root HOST_SZ host_root) in
      CngFs rootfs (length rootfs) bs (existsb b_ro bs)
            (fst (strlcpy cwd CNG_PATH_MAX))
  end.

Definition set_cwd_1 (fs : cng_fs) (guest_cwd : cstr) : cng_fs :=
  if char_is guest_cwd 0 SLASH
  then match cng_path_canon guest_cwd CNG_PATH_MAX with
       | Some canon =>
           CngFs (f_rootfs fs) (f_rlen fs) (f_binds fs) (f_has_ro fs)
                 (fst (strlcpy canon CNG_PATH_MAX))
       | None => fs
       end
  else fs.
