(* ===== verification/PathCanon.v ===== *)
(** * Canonicalisation: reference definition and refinement

    [cng_path_canon] works on bytes; its meaning is a walk over the components
    of the path with a stack.  [resolve] is that walk, [canonical] the form of
    its results, and the lemmas here say the byte loop computes it. *)

From stdpp Require Import base list strings gmap numbers.
From Stdlib Require Import ZArith Ascii Lia.
From S2P Require Import Prelude Path.

Open Scope nat_scope.

(** ** Components *)

Fixpoint split_slash (p : cstr) : list cstr :=
  match p with
  | [] => [[]]
  | c :: p' =>
      if is_slash c then [] :: split_slash p'
      else match split_slash p' with
           | [] => [[c]]
           | s :: ss => (c :: s) :: ss
           end
  end.

Definition render (comps : list cstr) : cstr :=
  concat (map (fun c => SLASH :: c) comps).

Definition DOTDOT : cstr := [DOT; DOT].

(** The reference semantics: a stack of components, "" and "." skipped, ".."
    popping (a no-op at the root), any other name pushed if it fits. *)
Fixpoint resolve (outsz : nat) (segs : list cstr) (st : list cstr)
    : option (list cstr) :=
  match segs with
  | [] => Some st
  | s :: segs' =>
      if bool_decide (s = [] \/ s = [DOT]) then resolve outsz segs' st
      else if bool_decide (s = DOTDOT)
      then resolve outsz segs' (take (length st - 1) st)
      else if outsz <=? length (render st) + 1 + length s then None
      else resolve outsz segs' (st ++ [s])
  end.

Definition name_of (st : list cstr) : cstr :=
  match st with [] => [SLASH] | _ => render st end.

Definition slash_free (c : cstr) : Prop := Forall (fun x => not_slash x = true) c.

Definition normal_comp (c : cstr) : Prop :=
  c <> [] /\ c <> [DOT] /\ c <> DOTDOT /\ slash_free c.

(** An absolute name with no empty, "." or ".." component. *)
Definition canonical (s : cstr) : Prop :=
  exists st, Forall normal_comp st /\ s = name_of st.

(** ** Lemmas on [render] and [split_slash] *)

Lemma is_slash_true c : is_slash c = true <-> c = SLASH.
Proof. apply Ascii.eqb_eq. Qed.

Lemma not_slash_SLASH : not_slash SLASH = false.
Proof. reflexivity. Qed.

Lemma render_app a b : render (a ++ b) = render a ++ render b.
Proof. unfold render. by rewrite map_app, concat_app. Qed.

Lemma render_snoc a c : render (a ++ [c]) = render a ++ SLASH :: c.
Proof. rewrite render_app. unfold render at 2. simpl. by rewrite app_nil_r. Qed.

Lemma render_nil_inv st : render st = [] -> st = [].
Proof. by destruct st. Qed.

Lemma length_render_app a b :
  length (render (a ++ b)) = length (render a) + length (render b).
Proof. by rewrite render_app, length_app. Qed.

Lemma drop_last_render st :
  Forall slash_free st -> drop_last_comp (render st) = render (take (length st - 1) st).
Proof.
  intros H. destruct st as [|c st _] using rev_ind; [done|].
  apply Forall_app in H as [_ [Hc _]%Forall_cons_1].
  rewrite render_snoc, length_app. simpl. rewrite Nat.add_sub.
  rewrite take_app_length. unfold drop_last_comp.
  rewrite reverse_app, reverse_cons.
  rewrite <-app_assoc, drop_while_app.
  - simpl. by rewrite reverse_involutive.
  - by apply Forall_reverse.
Qed.

Lemma split_slash_free c : slash_free c -> split_slash c = [c].
Proof.
  induction 1 as [|x c Hx _ IH]; simpl; [done|].
  unfold not_slash in Hx. apply negb_true_iff in Hx. by rewrite Hx, IH.
Qed.

Lemma split_slash_comp c p :
  slash_free c -> split_slash (c ++ SLASH :: p) = c :: split_slash p.
Proof.
  induction 1 as [|x c Hx _ IH]; simpl; [done|].
  unfold not_slash in Hx. apply negb_true_iff in Hx. by rewrite Hx, IH.
Qed.

Lemma split_render_nonempty st :
  Forall slash_free st -> st <> [] -> split_slash (render st) = [] :: st.
Proof.
  induction 1 as [|c st Hc Hst IH]; [done|]. intros _.
  unfold render. simpl. f_equal. fold (render st).
  destruct st as [|d st].
  - simpl. rewrite app_nil_r. by apply split_slash_free.
  - specialize (IH ltac:(done)). unfold render in *. simpl in *.
    injection IH as IH. rewrite split_slash_comp by done. by rewrite IH.
Qed.

(** ** The loop computes the reference walk *)

Lemma resolve_skip_slash outsz p st :
  resolve outsz (split_slash (SLASH :: p)) st = resolve outsz (split_slash p) st.
Proof. reflexivity. Qed.

Lemma resolve_drop_slashes outsz p st :
  resolve outsz (split_slash (drop_while is_slash p)) st =
  resolve outsz (split_slash p) st.
Proof.
  induction p as [|c p IH]; [done|]. simpl drop_while.
  destruct (is_slash c) eqn:E; [|done].
  apply is_slash_true in E as ->. by rewrite resolve_skip_slash.
Qed.

(** A non-empty component and what follows it. *)
Lemma split_span p :
  split_slash p = take_while not_slash p ::
    match drop_while not_slash p with [] => [] | _ :: r => split_slash r end.
Proof.
  rewrite <-(take_drop_while not_slash p) at 1.
  pose proof (take_while_Forall not_slash p) as Hf.
  destruct (drop_while not_slash p) as [|c r] eqn:E.
  - rewrite app_nil_r. by apply split_slash_free.
  - pose proof (drop_while_head _ _ _ _ E) as Hc.
    unfold not_slash in Hc. apply negb_false_iff, is_slash_true in Hc as ->.
    by apply split_slash_comp.
Qed.

Lemma resolve_rest outsz p st :
  resolve outsz
    (match drop_while not_slash p with [] => [] | _ :: r => split_slash r end) st =
  resolve outsz (split_slash (drop_while not_slash p)) st.
Proof.
  destruct (drop_while not_slash p) as [|c r] eqn:E; [done|].
  pose proof (drop_while_head _ _ _ _ E) as Hc.
  unfold not_slash in Hc. apply negb_false_iff, is_slash_true in Hc as ->.
  by rewrite resolve_skip_slash.
Qed.

Lemma take_slash_free n st : Forall slash_free st -> Forall slash_free (take n st).
Proof. apply Forall_take. Qed.

Lemma canon_loop_resolve fuel p st outsz :
  length p < fuel -> Forall slash_free st ->
  canon_loop fuel p (render st) outsz = render <$> resolve outsz (split_slash p) st.
Proof.
  revert p st. induction fuel as [|fuel IH]; [lia|]. intros p st Hlen Hst.
  simpl canon_loop. rewrite <-(resolve_drop_slashes outsz p).
  pose proof (drop_while_length is_slash p) as Hl.
  destruct (drop_while is_slash p) as [|c q] eqn:Eq; [done|].
  pose proof (drop_while_head _ _ _ _ Eq) as Hc.
  assert (Hnc : not_slash c = true) by (unfold not_slash; by rewrite Hc).
  set (cq := c :: q) in *. rewrite (split_span cq).
  assert (Hne : take_while not_slash cq <> []).
  { subst cq. simpl. by rewrite Hnc. }
  assert (Hr : length (drop_while not_slash cq) < fuel).
  { pose proof (drop_while_length not_slash q). subst cq.
    simpl. rewrite Hnc. simpl in Hl. lia. }
  pose proof (take_while_Forall not_slash cq) as Hf.
  clearbody cq. generalize dependent (take_while not_slash cq). intros comp Hne Hf.
  cbn [resolve]. unfold streq.
  destruct (decide (comp = [DOT])) as [->|Hd].
  { rewrite !bool_decide_eq_true_2 by auto. rewrite resolve_rest. by apply IH. }
  rewrite (bool_decide_eq_false_2 (comp = [DOT])) by done.
  rewrite (bool_decide_eq_false_2 (comp = [] \/ _)) by naive_solver.
  change [DOT; DOT] with DOTDOT. case_bool_decide as Edd.
  { rewrite resolve_rest, drop_last_render by done. apply IH; [done|].
    by apply take_slash_free. }
  case_if; [done|]. rewrite resolve_rest, <-render_snoc. apply IH; [done|].
  apply Forall_app. auto.
Qed.

(** [cng_path_canon] is the reference walk over the components, whatever the
    buffer: the loop's fuel is never what stops it. *)
Lemma canon_resolve p outsz :
  cng_path_canon p outsz = name_of <$> resolve outsz (split_slash p) [].
Proof.
  unfold cng_path_canon.
  change (canon_loop (S (length p)) p [] outsz)
    with (canon_loop (S (length p)) p (render []) outsz).
  rewrite canon_loop_resolve by (lia || constructor).
  destruct (resolve outsz (split_slash p) []) as [st|]; [|done].
  simpl. f_equal. destruct st as [|c st]; done.
Qed.

(** ** Results are canonical, and canonical names are fixed points *)

Lemma split_slash_Forall p : Forall slash_free (split_slash p).
Proof.
  induction p as [|c p IH]; simpl; [repeat constructor|].
  destruct (is_slash c) eqn:E; [repeat constructor; done|].
  destruct (split_slash p) as [|s ss].
  - repeat constructor. unfold not_slash. by rewrite E.
  - apply Forall_cons_1 in IH as [H1 H2]. constructor; [|done].
    constructor; [|done]. unfold not_slash. by rewrite E.
Qed.

Lemma resolve_normal outsz segs st st' :
  Forall slash_free segs -> Forall normal_comp st ->
  resolve outsz segs st = Some st' -> Forall normal_comp st'.
Proof.
  intros Hs. revert st. induction Hs as [|s segs Hs _ IH]; simpl; intros st Hst H.
  - by injection H as <-.
  - case_bool_decide as E1; [by eauto|]. case_bool_decide as E2.
    + eapply IH; [|exact H]. by apply Forall_take.
    + case_if_in H; [done|]. eapply IH; [|exact H].
      apply Forall_app. split; [done|]. constructor; [|done].
      unfold normal_comp. naive_solver.
Qed.

Lemma resolve_length outsz segs st st' :
  length (render st) < outsz -> resolve outsz segs st = Some st' ->
  length (render st') < outsz.
Proof.
  revert st. induction segs as [|s segs IH]; simpl; intros st Hst H.
  - by injection H as <-.
  - case_bool_decide as E1; [by eauto|]. case_bool_decide as E2.
    + eapply IH; [|exact H].
      pose proof (length_render_app (take (length st - 1) st)
                    (drop (length st - 1) st)) as L.
      rewrite take_drop in L. lia.
    + case_if_in H; [done|]. apply Nat.leb_gt in Eif. eapply IH; [|exact H].
      rewrite render_snoc, length_app. simpl. lia.
Qed.

Lemma canon_canonical p outsz s :
  cng_path_canon p outsz = Some s -> canonical s.
Proof.
  rewrite canon_resolve. intros (st & Hst & ->)%fmap_Some_1.
  exists st. split; [|done].
  eapply resolve_normal; [| |exact Hst]; [apply split_slash_Forall|constructor].
Qed.

Lemma canon_length p outsz s :
  2 <= outsz -> cng_path_canon p outsz = Some s -> length s < outsz.
Proof.
  intros Ho. rewrite canon_resolve. intros (st & Hst & ->)%fmap_Some_1.
  apply resolve_length in Hst; [|simpl; lia].
  destruct st; [simpl; lia|done].
Qed.

Lemma resolve_fixed outsz st0 st :
  Forall normal_comp st -> length (render (st0 ++ st)) < outsz ->
  resolve outsz st st0 = Some (st0 ++ st).
Proof.
  intros H. revert st0. induction H as [|c st Hc _ IH]; intros st0 Hl; simpl.
  - by rewrite app_nil_r.
  - destruct Hc as (H1 & H2 & H3 & _).
    rewrite !bool_decide_eq_false_2 by naive_solver.
    rewrite length_render_app in Hl. unfold render at 2 in Hl. simpl in Hl.
    rewrite length_app in Hl.
    rewrite (proj2 (Nat.leb_gt _ _)) by lia.
    rewrite IH, <-app_assoc by (rewrite <-app_assoc; simpl;
      rewrite length_render_app; unfold render at 2; simpl; rewrite length_app;
      fold (render st); unfold render in *; lia).
    done.
Qed.

Lemma normal_slash_free st : Forall normal_comp st -> Forall slash_free st.
Proof. apply Forall_impl. by intros c (_ & _ & _ & H). Qed.

Lemma canon_fixed s outsz :
  canonical s -> length s < outsz -> cng_path_canon s outsz = Some s.
Proof.
  intros (st & Hst & ->) Hl. rewrite canon_resolve.
  destruct st as [|c st]; [done|]. set (st' := c :: st) in *.
  simpl name_of in *. rewrite split_render_nonempty by
    (done || by apply normal_slash_free).
  change (resolve outsz ([] :: st') []) with (resolve outsz st' []).
  rewrite (resolve_fixed outsz [] st') by done. done.
Qed.

(** A canonical name is absolute. *)
Lemma canonical_absolute s : canonical s -> exists r, s = SLASH :: r.
Proof.
  intros (st & _ & ->). destruct st as [|c st]; [by exists []|].
  unfold name_of, render. simpl. eauto.
Qed.

Lemma canonical_nonempty s : canonical s -> 1 <= length s.
Proof. intros [r ->]%canonical_absolute. simpl. lia. Qed.

(** The components of a canonical name other than "/". *)
Lemma canonical_render s :
  canonical s -> s <> [SLASH] ->
  exists st, st <> [] /\ Forall normal_comp st /\ s = render st.
Proof.
  intros (st & Hst & ->) Hs. exists st. destruct st; [done|]. done.
Qed.

(** A canonical name does not end in a slash, unless it is "/". *)
Lemma canonical_last s :
  canonical s -> s <> [SLASH] -> char_is s (length s - 1) SLASH = false.
Proof.
  intros Hc Hs. destruct (canonical_render s Hc Hs) as (st & Hne & Hst & ->).
  destruct st as [|c st _] using rev_ind; [done|].
  apply Forall_app in Hst as [_ [(Hc1 & _ & _ & Hf) _]%Forall_cons_1].
  rewrite render_snoc. destruct c as [|x c _] using rev_ind; [done|].
  unfold char_is. apply bool_decide_eq_false. intros Hl.
  apply Forall_app in Hf as [_ [Hx _]%Forall_cons_1].
  rewrite length_app in Hl. simpl in Hl. rewrite length_app in Hl. simpl in Hl.
  rewrite lookup_app_r in Hl by lia.
  replace (length (render st) + S (length c + 1) - 1 - length (render st))
    with (S (length c)) in Hl by lia.
  simpl in Hl. rewrite lookup_app_r, Nat.sub_diag in Hl by lia.
  injection Hl as ->. by rewrite not_slash_SLASH in Hx.
Qed.
