(* ===== verification/PathFacts.v ===== *)
(** * Correctness of the path core

    The well-formed view and its preservation, the choice of the mount, the
    containment of every translated name, the reverse translation, read-only
    binds and chroot. *)

From stdpp Require Import base list strings gmap numbers.
From Stdlib Require Import ZArith Ascii Lia.
From S2P Require Import Prelude Path PathCanon.

Open Scope nat_scope.

(** ** Well-formed views *)

(** A host prefix as [normalize_root] leaves it: no trailing slash. *)
Definition normalized (h : cstr) : Prop :=
  char_is h (length h - 1) SLASH = false.

Record bind_wf (b : cng_bind) : Prop := BindWf {
  bw_guest : canonical (b_guest b);
  bw_glen : b_glen b = length (b_guest b);
  bw_gsz : length (b_guest b) < GUEST_SZ;
  bw_host : normalized (b_host b);
  bw_hlen : b_hlen b = length (b_host b);
  bw_hsz : length (b_host b) < HOST_SZ;
  bw_base : b_base b = base_scan (b_guest b) 0 0 }.

Record fs_wf (fs : cng_fs) : Prop := FsWf {
  fw_root : normalized (f_rootfs fs);
  fw_rsz : length (f_rootfs fs) < HOST_SZ;
  fw_rlen : f_rlen fs = length (f_rootfs fs);
  fw_binds : Forall bind_wf (f_binds fs);
  fw_n : length (f_binds fs) <= CNG_MAX_BINDS;
  fw_ro : f_has_ro fs = existsb b_ro (f_binds fs);
  fw_cwd : canonical (f_cwd fs);
  fw_cwdsz : length (f_cwd fs) < CNG_PATH_MAX }.

Lemma fs_wf_bind fs i b : fs_wf fs -> f_binds fs !! i = Some b -> bind_wf b.
Proof. intros H Hb. eapply Forall_lookup_1; [apply fw_binds, H|done]. Qed.

(** ** Copies that fit *)

Lemma strlcpy_fits s n : length s < n -> fst (strlcpy s n) = s.
Proof. intros. simpl. apply take_ge. lia. Qed.

Lemma join_checked_spec a b n :
  join_checked a b n =
  if (length a + length b <? n) then Some (a ++ b) else None.
Proof.
  unfold join_checked, strlcpy.
  destruct (n <=? length a) eqn:E1; bprop.
  - rewrite (proj2 (Nat.ltb_ge _ _)) by lia. done.
  - destruct (n - length a <=? length b) eqn:E2; bprop.
    + rewrite (proj2 (Nat.ltb_ge _ _)) by lia. done.
    + rewrite (proj2 (Nat.ltb_lt _ _)) by lia. rewrite !take_ge by lia. done.
Qed.

Lemma join_checked_Some a b n out :
  join_checked a b n = Some out <-> out = a ++ b /\ length a + length b < n.
Proof.
  rewrite join_checked_spec. destruct (Nat.ltb_spec (length a + length b) n);
    naive_solver lia.
Qed.

(** ** Boundaries *)

Definition boundary (r : cstr) : Prop := r = [] \/ exists r', r = SLASH :: r'.

Lemma path_under_drop s pfx :
  path_under s pfx -> s = pfx ++ drop (length pfx) s /\ boundary (drop (length pfx) s).
Proof. intros (r & -> & H). rewrite drop_app_length. auto. Qed.

Lemma path_under_refl s : path_under s s.
Proof. exists []. rewrite app_nil_r. auto. Qed.

Lemma boundary_nil : boundary [].
Proof. by left. Qed.

Lemma boundary_slash r : boundary (SLASH :: r).
Proof. right. eauto. Qed.

#[export] Hint Resolve path_under_refl boundary_nil boundary_slash : cng.

(** ** No ".." below a prefix *)

Lemma split_slash_nonempty p : split_slash p <> [].
Proof. destruct p; simpl; [done|]. destruct (is_slash a); [done|]. by destruct (split_slash p). Qed.

Lemma split_slash_app a b :
  split_slash (a ++ SLASH :: b) = split_slash a ++ split_slash b.
Proof.
  induction a as [|c a IH]; [done|]. simpl. destruct (is_slash c); [by rewrite IH|].
  rewrite IH. pose proof (split_slash_nonempty a). by destruct (split_slash a).
Qed.

Lemma render_split r : render (split_slash r) = SLASH :: r.
Proof.
  induction r as [|c r IH]; [done|]. simpl.
  destruct (is_slash c) eqn:E.
  - apply is_slash_true in E as ->. unfold render in *. simpl. by rewrite IH.
  - pose proof (split_slash_nonempty r). destruct (split_slash r) as [|s ss]; [done|].
    unfold render in *. simpl in *. by injection IH as ->.
Qed.

Lemma canonical_split_no_dotdot s : canonical s -> DOTDOT ∉ split_slash s.
Proof.
  intros Hc Hin. destruct (decide (s = [SLASH])) as [->|Hs].
  { simpl in Hin. set_solver. }
  destruct (canonical_render s Hc Hs) as (st & Hne & Hst & ->).
  rewrite split_render_nonempty in Hin by (done || by apply normal_slash_free).
  apply list_elem_of_In in Hin. destruct Hin as [Hin|Hin]; [done|].
  rewrite List.Forall_forall in Hst.
  destruct (Hst _ Hin) as (_ & _ & H & _). done.
Qed.

(** Names with no ".." component. *)
Definition no_dotdot (r : cstr) : Prop := DOTDOT ∉ split_slash r.

Lemma no_dotdot_suffix pfx r :
  no_dotdot (pfx ++ r) -> boundary r -> no_dotdot r.
Proof.
  intros H [->|[r' ->]]; [unfold no_dotdot; simpl; set_solver|].
  unfold no_dotdot in *. rewrite split_slash_app in H.
  change (DOTDOT ∉ [] :: split_slash r'). set_solver.
Qed.

Lemma no_dotdot_slash r : no_dotdot r -> no_dotdot (r ++ [SLASH]).
Proof.
  unfold no_dotdot. rewrite (split_slash_app r []). simpl. set_solver.
Qed.

(** ** The longest-prefix loops

    The three loops over the binds keep the first entry of the greatest
    length.  [pick] is that scheme once, with the key an entry is judged by. *)

Section Pick.
Context (key : cng_bind -> option nat).

Fixpoint pick (bs : list cng_bind) (i : nat) (best : option nat) (blen : nat)
    : option nat * nat :=
  match bs with
  | [] => (best, blen)
  | b :: bs' =>
      match key b with
      | Some l => if blen <? l then pick bs' (S i) (Some i) l
                  else pick bs' (S i) best blen
      | None => pick bs' (S i) best blen
      end
  end.

(** Entry [k] of [bs], of length [l], is the first of the longest. *)
Definition picked (bs : list cng_bind) (k l : nat) : Prop :=
  (exists b, bs !! k = Some b /\ key b = Some l) /\
  forall j b' l', bs !! j = Some b' -> key b' = Some l' ->
    l' <= l /\ (j < k -> l' < l).

Lemma pick_spec bs i best blen :
  (pick bs i best blen = (best, blen) /\
   forall b l, b ∈ bs -> key b = Some l -> l <= blen) \/
  (exists k l, pick bs i best blen = (Some (i + k), l) /\ blen < l /\
     picked bs k l).
Proof.
  revert i best blen. induction bs as [|b bs IH]; intros i best blen; simpl.
  { left. split; [done|]. intros b l Hb. by apply not_elem_of_nil in Hb. }
  destruct (key b) as [l|] eqn:Ek; [destruct (Nat.ltb_spec blen l) as [Hl|Hl]|].
  - right. destruct (IH (S i) (Some i) l) as [[-> Hm]|(k & l2 & -> & Hl2 & Hp)].
    + exists 0, l. rewrite Nat.add_0_r. split; [done|]. split; [done|].
      split; [by exists b|]. intros [|j] b' l' Hj Hk'; simpl in Hj.
      * simplify_eq. lia.
      * split; [|lia]. eapply Hm; [|done]. by eapply list_elem_of_lookup_2.
    + exists (S k), l2. split; [f_equal; f_equal; lia|]. split; [lia|].
      destruct Hp as [Hp1 Hp2]. split; [done|].
      intros [|j] b' l' Hj Hk'; simpl in Hj; [simplify_eq; lia|].
      destruct (Hp2 _ _ _ Hj Hk'). lia.
  - destruct (IH (S i) best blen) as [[-> Hm]|(k & l2 & -> & Hl2 & Hp)].
    + left. split; [done|]. intros b' l' [->|Hb']%elem_of_cons Hk'; [|by eauto].
      simplify_eq. lia.
    + right. exists (S k), l2. split; [f_equal; f_equal; lia|]. split; [lia|].
      destruct Hp as [Hp1 Hp2]. split; [done|].
      intros [|j] b' l' Hj Hk'; simpl in Hj; [simplify_eq; lia|].
      destruct (Hp2 _ _ _ Hj Hk'). lia.
  - destruct (IH (S i) best blen) as [[-> Hm]|(k & l2 & -> & Hl2 & Hp)].
    + left. split; [done|]. intros b' l' [->|Hb']%elem_of_cons Hk'; [|by eauto].
      congruence.
    + right. exists (S k), l2. split; [f_equal; f_equal; lia|]. split; [lia|].
      destruct Hp as [Hp1 Hp2]. split; [done|].
      intros [|j] b' l' Hj Hk'; simpl in Hj; [congruence|].
      destruct (Hp2 _ _ _ Hj Hk'). lia.
Qed.
End Pick.

Definition guest_key (canon : cstr) (b : cng_bind) : option nat :=
  if strneq canon (b_guest b) (b_glen b) && at_boundary canon (b_glen b)
  then Some (b_glen b) else None.

Definition host_key (host : cstr) (b : cng_bind) : option nat :=
  if host_under host (b_host b) (b_hlen b) then Some (b_hlen b) else None.

Lemma best_guest_pick canon bs i best blen :
  best_guest canon bs i best blen = (pick (guest_key canon) bs i best blen).1.
Proof.
  revert i best blen. induction bs as [|b bs IH]; intros; [done|]. simpl.
  unfold guest_key at 1.
  destruct (strneq canon (b_guest b) (b_glen b) && at_boundary canon (b_glen b));
    simpl; [|done]. by destruct (blen <? b_glen b).
Qed.

Lemma guest_key_Some canon b l :
  bind_wf b ->
  guest_key canon b = Some l <->
  path_under canon (b_guest b) /\ l = length (b_guest b).
Proof.
  intros Hb. unfold guest_key. rewrite (bw_glen b Hb).
  pose proof (under_spec canon (b_guest b)) as U.
  destruct (strneq _ _ _ && at_boundary _ _); naive_solver.
Qed.

(** ** The mount that answers *)

(** [b], at index [i], is the bind of the longest guest prefix of [canon], the
    first where several have it. *)
Definition longest_bind (fs : cng_fs) (canon : cstr) (i : nat) (b : cng_bind)
    : Prop :=
  f_binds fs !! i = Some b /\ path_under canon (b_guest b) /\
  forall j b', f_binds fs !! j = Some b' -> path_under canon (b_guest b') ->
    length (b_guest b') <= length (b_guest b) /\
    (j < i -> length (b_guest b') < length (b_guest b)).

Definition no_bind (fs : cng_fs) (canon : cstr) : Prop :=
  forall b, b ∈ f_binds fs -> ~ path_under canon (b_guest b).

Lemma best_guest_spec fs canon :
  fs_wf fs ->
  match best_guest canon (f_binds fs) 0 None 0 with
  | Some i => exists b, longest_bind fs canon i b
  | None => no_bind fs canon
  end.
Proof.
  intros Hwf. rewrite best_guest_pick.
  destruct (pick_spec (guest_key canon) (f_binds fs) 0 None 0)
    as [[-> Hm]|(k & l & -> & Hl & [(b & Hb & Hk) Hm])]; simpl.
  - intros b Hb Hu. pose proof Hb as [i Hi]%list_elem_of_lookup_1.
    pose proof (fs_wf_bind _ _ _ Hwf Hi) as Hbw.
    specialize (Hm b (length (b_guest b)) Hb).
    rewrite guest_key_Some in Hm by done. specialize (Hm (conj Hu eq_refl)).
    pose proof (canonical_nonempty _ (bw_guest b Hbw)). lia.
  - exists b. pose proof (fs_wf_bind _ _ _ Hwf Hb) as Hbw.
    rewrite guest_key_Some in Hk by done. destruct Hk as [Hu ->].
    split; [done|]. split; [done|]. intros j b' Hj Hu'.
    eapply Hm; [done|]. rewrite guest_key_Some; [done|]. by eapply fs_wf_bind.
Qed.

(** The mount table's precedence: the longest bind prefix, then /proc, then
    the /dev whitelist, then the rootfs. *)
Definition mount_spec (G : genv) (fs : cng_fs) (canon : cstr) (m : mount) : Prop :=
  match m with
  | MBind i => exists b, longest_bind fs canon i b
  | MProc => no_bind fs canon /\ g_no_proc G = false /\ path_under canon (cs "/proc")
  | MDev => no_bind fs canon /\ proc_zone G canon = false /\ g_no_dev G = false /\
            exists name host, (name, host) ∈ cng_dev_nodes G /\
              path_under canon (cs "/dev/" ++ name)
  | MRootfs => no_bind fs canon /\ proc_zone G canon = false /\
               dev_zone_node G canon = None
  end.

Lemma proc_zone_spec G canon :
  proc_zone G canon = true <-> g_no_proc G = false /\ path_under canon (cs "/proc").
Proof.
  unfold proc_zone. rewrite <-andb_assoc, andb_true_iff, negb_true_iff.
  by rewrite (under_spec canon (cs "/proc")).
Qed.

Lemma dev_scan_spec nodes leaf h rest :
  dev_scan nodes leaf = Some (h, rest) ->
  exists name, (name, h) ∈ nodes /\ leaf = name ++ rest /\ boundary rest.
Proof.
  induction nodes as [|[name h'] nodes IH]; [done|]. simpl.
  destruct (strneq _ _ _ && at_boundary _ _) eqn:E.
  - intros [= <- <-]. apply under_spec, path_under_drop in E as [E1 E2].
    exists name. split; [set_solver|done].
  - intros H. destruct (IH H) as (n & Hn & ?). exists n. split; [set_solver|done].
Qed.

Lemma dev_zone_node_spec G canon h rest :
  dev_zone_node G canon = Some (h, rest) ->
  g_no_dev G = false /\ exists name, (name, h) ∈ cng_dev_nodes G /\
    canon = cs "/dev/" ++ name ++ rest /\ boundary rest.
Proof.
  unfold dev_zone_node. destruct (g_no_dev G); [done|].
  destruct (negb _ || negb _) eqn:E; [done|].
  apply orb_false_iff in E as [E1 E2]. apply negb_false_iff in E1, E2.
  destruct (at_end canon 4) eqn:E3; [done|]. intros H.
  split; [done|]. apply dev_scan_spec in H as (name & Hn & Hl & Hb).
  exists name. split; [done|]. split; [|done]. rewrite <-Hl.
  apply (strneq_prefix canon (cs "/dev")) in E1 as [r ->].
  change 4 with (length (cs "/dev")) in E2, E3.
  apply at_boundary_app in E2 as [->|[r' ->]]; [|done].
  unfold at_end in E3. rewrite app_nil_r in E3. done.
Qed.

Lemma mount_of_correct G fs canon :
  fs_wf fs -> mount_spec G fs canon (mount_of_1 G fs canon).
Proof.
  intros Hwf. pose proof (best_guest_spec fs canon Hwf) as Hb.
  unfold mount_of_1. destruct (best_guest _ _ _ _ _); [done|].
  destruct (proc_zone G canon) eqn:Ep.
  { apply proc_zone_spec in Ep. done. }
  destruct (dev_zone_node G canon) as [[h rest]|] eqn:Ed; [|done].
  pose proof (dev_zone_node_spec _ _ _ _ Ed) as (Hn & name & Hin & Heq & Hbd).
  repeat (split; [done|]). exists name, h. split; [done|].
  exists rest. by rewrite <-app_assoc.
Qed.

(** ** Containment of translated names *)

Lemma abscanon_canonical fs path n c :
  abscanon_1 fs path n = Some c -> canonical c.
Proof.
  unfold abscanon_1. intros (tmp & _ & H)%bind_Some. by eapply canon_canonical.
Qed.

Lemma abscanon_length fs path n c :
  2 <= n -> abscanon_1 fs path n = Some c -> length c < n.
Proof.
  intros Hn. unfold abscanon_1. intros (tmp & _ & H)%bind_Some.
  by eapply canon_length.
Qed.

(** Where a host name produced by a mount may lie: below the rootfs, below the
    host side of the bind, in the host's /proc, below a whitelisted device
    node, or on [/proc/0], the name a hidden process is replaced by; and what
    follows the prefix has no ".." component in it. *)
Inductive contained (G : genv) (fs : cng_fs) : mount -> cstr -> Prop :=
  | in_rootfs rest : boundary rest -> no_dotdot rest ->
      contained G fs MRootfs (f_rootfs fs ++ rest)
  | in_bind i b rest : f_binds fs !! i = Some b -> boundary rest ->
      no_dotdot rest -> contained G fs (MBind i) (b_host b ++ rest)
  | in_proc rest : g_no_proc G = false -> boundary rest -> no_dotdot rest ->
      contained G fs MProc (cs "/proc" ++ rest)
  | in_dev name h rest : g_no_dev G = false -> (name, h) ∈ cng_dev_nodes G ->
      boundary rest -> no_dotdot rest -> contained G fs MDev (h ++ rest)
  | in_hidden m rest : g_no_proc G = false -> boundary rest ->
      no_dotdot rest -> contained G fs m (cs "/proc/0" ++ rest).

Lemma contained_slash G fs m out :
  contained G fs m out -> char_is out (length out - 1) SLASH = false ->
  contained G fs m (out ++ [SLASH]).
Proof.
  assert (Hb : forall r, boundary r -> boundary (r ++ [SLASH])).
  { intros r [->|[r' ->]]; simpl; eauto with cng. }
  pose proof no_dotdot_slash as Hd.
  destruct 1; intros _; rewrite <-app_assoc; econstructor; eauto.
Qed.

(** What the mount's own branch of [translate_mnt_1] writes. *)
Definition mount_fill (G : genv) (fs : cng_fs) (m : mount) (canon : cstr)
    (outsz : nat) : option cstr :=
  match m with
  | MBind i =>
      b ← f_binds fs !! i;
      join_checked (b_host b) (drop (b_glen b) canon) outsz
  | MProc =>
      let '(out, n) := strlcpy canon outsz in
      if outsz <=? n then None else Some out
  | MDev =>
      match dev_zone G canon outsz with
      | ZFill out => Some out
      | ZTrunc => None
      | ZNone => Some []
      end
  | MRootfs => join_checked (f_rootfs fs) canon outsz
  end.

Lemma translate_unfold G fs path outsz :
  translate_mnt_1 G fs path outsz =
  (canon ← abscanon_1 fs path CNG_PATH_MAX;
   let m := mount_of_1 G fs canon in
   out ← mount_fill G fs m canon outsz;
   let out := if host_proc_hidden G out then hide_proc_pid out outsz else out in
   if cng_path_wants_dir path then
     let n := length out in
     if negb (n =? 0) && negb (char_is out (n - 1) SLASH)
     then if outsz <? n + 2 then None else Some (out ++ [SLASH], m)
     else Some (out, m)
   else Some (out, m)).
Proof. reflexivity. Qed.

(** The device nodes' host paths fit any buffer a caller passes. *)
Definition dev_nodes_fit (G : genv) (outsz : nat) : Prop :=
  forall name h, (name, h) ∈ cng_dev_nodes G -> length h < outsz.

Lemma mount_fill_contained G fs canon outsz out :
  fs_wf fs -> canonical canon -> dev_nodes_fit G outsz ->
  mount_fill G fs (mount_of_1 G fs canon) canon outsz = Some out ->
  contained G fs (mount_of_1 G fs canon) out.
Proof.
  intros Hwf Hc Hdev.
  pose proof (mount_of_correct G fs canon Hwf) as Hm.
  pose proof (canonical_split_no_dotdot canon Hc) as Hnd.
  destruct (mount_of_1 G fs canon) as [i| | |] eqn:Em; simpl; simpl in Hm.
  - destruct Hm as (b & Hb & Hu & _). rewrite Hb. simpl.
    intros [-> _]%join_checked_Some.
    pose proof (fs_wf_bind _ _ _ Hwf Hb) as Hbw. rewrite (bw_glen b Hbw).
    apply path_under_drop in Hu as [E Hbd].
    eapply in_bind; [done|done|]. apply (no_dotdot_suffix (b_guest b)); [|done].
    by rewrite <-E.
  - intros [-> _]%join_checked_Some.
    constructor; [|done]. apply canonical_absolute in Hc as [r ->]. auto with cng.
  - destruct Hm as (_ & Hnp & Hu). apply path_under_drop in Hu as [E Hbd].
    destruct (Nat.leb_spec outsz (length canon)); [done|].
    intros [= <-]. rewrite take_ge by lia. rewrite E.
    constructor; [done..|]. apply (no_dotdot_suffix (cs "/proc")); [|done].
    by rewrite <-E.
  - unfold dev_zone. intros H. unfold mount_of_1 in Em.
    destruct (best_guest _ _ _ _ _); [done|].
    destruct (proc_zone G canon); [done|].
    destruct (dev_zone_node G canon) as [[h rest]|] eqn:Ed; [|done].
    apply dev_zone_node_spec in Ed as (Hn & name & Hin & E & Hbd).
    pose proof (Hdev _ _ Hin) as Hlt.
    assert (Hnr : no_dotdot rest).
    { apply (no_dotdot_suffix (cs "/dev/" ++ name)); [|done].
      rewrite <-app_assoc. by rewrite <-E. }
    assert (Eo : out = h ++ rest).
    { unfold strlcpy in H. destruct rest as [|x rest].
      - injection H as <-. simpl. rewrite app_nil_r. apply take_ge. lia.
      - destruct (outsz <=? length h); [done|].
        destruct (Nat.leb_spec (outsz - length h) (length (x :: rest)));
          [done|].
        injection H as <-. rewrite !take_ge by (simpl in *; lia). done. }
    rewrite Eo. by eapply in_dev.
Qed.

Lemma drop_while_boundary r : boundary (drop_while not_slash r).
Proof.
  destruct (drop_while not_slash r) as [|c r'] eqn:E; [auto with cng|].
  apply drop_while_head in E. unfold not_slash in E.
  apply negb_false_iff, is_slash_true in E as ->. auto with cng.
Qed.

Lemma host_proc_hidden_inv G out :
  host_proc_hidden G out = true ->
  g_no_proc G = false /\ exists c r, out = cs "/proc/" ++ c :: r /\ is_digit c = true.
Proof.
  unfold host_proc_hidden. destruct (g_no_proc G); [done|].
  destruct (strneq out (cs "/proc/") 6) eqn:E; [|done]. simpl.
  apply (strneq_prefix out (cs "/proc/")) in E as [r ->].
  change 6 with (length (cs "/proc/")). rewrite drop_app_length.
  destruct r as [|c r]; [done|]. destruct (is_digit c) eqn:Ed; [|done].
  intros _. split; [done|]. eauto.
Qed.

Lemma is_digit_not_slash c : is_digit c = true -> not_slash c = true.
Proof.
  unfold not_slash, is_slash. destruct (Ascii.eqb c SLASH) eqn:E; [|done].
  apply Ascii.eqb_eq in E as ->. done.
Qed.

(** The name left for a hidden process: [/proc/0] and what followed the pid. *)
Lemma hide_proc_pid_spec G out outsz :
  host_proc_hidden G out = true -> length out < outsz -> outsz <= CNG_PATH_MAX ->
  hide_proc_pid out outsz = cs "/proc/0" ++ drop_while not_slash (drop 6 out).
Proof.
  intros (_ & c & r & -> & Hd)%host_proc_hidden_inv H1 H2.
  unfold hide_proc_pid, strlcpy.
  change (drop 6 (cs "/proc/" ++ c :: r)) with (c :: r).
  rewrite length_app in H1. change (length (cs "/proc/")) with 6 in H1.
  simpl in H1. cbn [drop_while]. rewrite (is_digit_not_slash c Hd).
  pose proof (drop_while_length not_slash r) as Hl.
  change (length (cs "/proc/0")) with 7. cbn [fst].
  rewrite (take_ge (cs "/proc/0")) by (change (length (cs "/proc/0")) with 7;
    unfold CNG_PATH_MAX; lia).
  rewrite (take_ge (drop_while not_slash r)) by lia.
  apply take_ge. rewrite length_app. change (length (cs "/proc/0")) with 7. lia.
Qed.

(** Dropping a leading run of non-slashes does not add a "..". *)
Lemma no_dotdot_drop_while r : no_dotdot r -> no_dotdot (drop_while not_slash r).
Proof.
  intros H. apply (no_dotdot_suffix (take_while not_slash r)).
  - by rewrite take_drop_while.
  - apply drop_while_boundary.
Qed.

Lemma hidden_contained G fs m out outsz :
  host_proc_hidden G out = true -> length out < outsz -> outsz <= CNG_PATH_MAX ->
  no_dotdot out -> contained G fs m (hide_proc_pid out outsz).
Proof.
  intros Hh H1 H2 Hnd. rewrite (hide_proc_pid_spec G) by done.
  destruct (host_proc_hidden_inv _ _ Hh) as (Hn & c & r & -> & Hd).
  apply in_hidden; [done|apply drop_while_boundary|].
  apply no_dotdot_drop_while.
  change (drop 6 (cs "/proc/" ++ c :: r)) with (c :: r).
  unfold no_dotdot in *.
  change (cs "/proc/" ++ c :: r) with (cs "/proc" ++ SLASH :: (c :: r)) in Hnd.
  rewrite split_slash_app in Hnd. set_solver.
Qed.

(** The host prefixes as the kernel spells them: no ".." in any of them. *)
Record prefixes_clean (G : genv) (fs : cng_fs) : Prop := PrefixesClean {
  pc_root : no_dotdot (f_rootfs fs);
  pc_binds : forall b, b ∈ f_binds fs -> no_dotdot (b_host b);
  pc_dev : forall name h, (name, h) ∈ cng_dev_nodes G -> no_dotdot h }.

Lemma no_dotdot_app a b :
  no_dotdot a -> no_dotdot b -> boundary b -> no_dotdot (a ++ b).
Proof.
  intros Ha Hb [->|[r ->]]; [by rewrite app_nil_r|].
  unfold no_dotdot in *. rewrite split_slash_app.
  change (DOTDOT ∉ [] :: split_slash r) in Hb. set_solver.
Qed.

Lemma contained_no_dotdot G fs m out :
  prefixes_clean G fs -> contained G fs m out -> no_dotdot out.
Proof.
  intros [H1 H2 H3]. destruct 1; apply no_dotdot_app; try done;
    try (eapply H2; by eapply list_elem_of_lookup_2); try by eapply H3.
  - unfold no_dotdot. vm_compute. set_solver.
  - unfold no_dotdot. vm_compute. set_solver.
Qed.

Lemma mount_fill_length G fs m canon outsz out :
  0 < outsz -> mount_fill G fs m canon outsz = Some out -> length out < outsz.
Proof.
  intros Ho. destruct m; simpl.
  - intros (b & _ & [-> H]%join_checked_Some)%bind_Some. rewrite length_app. lia.
  - intros [-> H]%join_checked_Some. rewrite length_app. lia.
  - destruct (Nat.leb_spec outsz (length canon)); [done|]. intros [= <-].
    rewrite length_take. lia.
  - unfold dev_zone. destruct (dev_zone_node G canon) as [[h [|x rest]]|]; simpl.
    + intros [= <-]. rewrite length_take. lia.
    + destruct (Nat.leb_spec outsz (length h)); [done|].
      destruct (Nat.leb_spec (outsz - length h) (S (length rest))); [done|].
      intros [= <-]. rewrite length_app, !length_take. simpl. lia.
    + intros [= <-]. done.
Qed.

Lemma hide_proc_pid_length out outsz :
  0 < outsz -> length (hide_proc_pid out outsz) < outsz.
Proof. intros. unfold hide_proc_pid, strlcpy. simpl. rewrite length_take. lia. Qed.

Lemma translate_contained_len G fs path outsz out m :
  fs_wf fs -> prefixes_clean G fs -> dev_nodes_fit G outsz ->
  0 < outsz -> outsz <= CNG_PATH_MAX ->
  translate_mnt_1 G fs path outsz = Some (out, m) ->
  contained G fs m out /\ length out < outsz.
Proof.
  intros Hwf Hcl Hdev H0 Hmax. rewrite translate_unfold.
  intros (canon & Hc & H)%bind_Some. cbv zeta in H.
  apply bind_Some in H as (o & Ho & H).
  pose proof (mount_fill_length _ _ _ _ _ _ H0 Ho) as Hlen.
  apply mount_fill_contained in Ho; [|done|by eapply abscanon_canonical|done].
  remember (if host_proc_hidden G o then hide_proc_pid o outsz else o) as o' eqn:E.
  assert (Hc' : contained G fs (mount_of_1 G fs canon) o' /\ length o' < outsz).
  { subst o'. destruct (host_proc_hidden G o) eqn:Eh; [|done].
    split; [|by apply hide_proc_pid_length].
    apply hidden_contained; [done..|]. by eapply contained_no_dotdot. }
  clear E. destruct Hc' as [Hc' Hl'].
  destruct (cng_path_wants_dir path); [|by injection H as <- <-].
  destruct (negb (length o' =? 0) && negb (char_is o' (length o' - 1) SLASH)) eqn:E;
    [|by injection H as <- <-].
  destruct (Nat.ltb_spec outsz (length o' + 2)); [done|]. injection H as <- <-.
  apply andb_true_iff in E as [_ E%negb_true_iff].
  split; [by apply contained_slash|]. rewrite length_app. simpl. lia.
Qed.

(** ** Hidden processes *)

Lemma pid_scan_boundary p r pid :
  Forall (fun c => is_digit c = true) p -> boundary r ->
  pid_scan (p ++ r) pid = pid_scan p pid.
Proof.
  intros Hp Hr. revert pid. induction Hp as [|c p Hc _ IH]; intros pid; simpl.
  - destruct Hr as [->|[r' ->]]; done.
  - pose proof (is_digit_not_slash c Hc) as Hs. unfold not_slash in Hs.
    apply negb_true_iff in Hs. rewrite Hs, Hc. simpl. by case_if.
Qed.

(** The pid a host name under /proc speaks of, as the kernel reads it. *)
Definition names_pid (host : cstr) (pid : Z) : Prop :=
  exists c r, host = cs "/proc/" ++ c :: r /\ is_digit c = true /\
    pid_scan (c :: r) 0 = Some pid.

Lemma not_hidden_names G host pid :
  g_no_proc G = false -> host_proc_hidden G host = false ->
  names_pid host pid -> g_procreg_has G pid = true.
Proof.
  intros Hn Hh (c & r & -> & Hd & Hp). unfold host_proc_hidden in Hh.
  rewrite Hn in Hh.
  change (strneq (cs "/proc/" ++ c :: r) (cs "/proc/") 6) with
    (strneq (cs "/proc/" ++ c :: r) (cs "/proc/") (length (cs "/proc/"))) in Hh.
  rewrite (proj2 (strneq_prefix (cs "/proc/" ++ c :: r) (cs "/proc/"))) in Hh
    by by apply prefix_app_r.
  change (drop 6 (cs "/proc/" ++ c :: r)) with (c :: r) in Hh.
  cbn [orb negb] in Hh. rewrite Hd in Hh. cbn [negb] in Hh.
  rewrite Hp in Hh. by apply negb_false_iff in Hh.
Qed.

Lemma names_pid_slash host pid :
  names_pid (host ++ [SLASH]) pid -> names_pid host pid.
Proof.
  intros (c & r & E & Hd & Hp).
  destruct r as [|x r _] using rev_ind.
  { apply app_inj_2 in E as [-> E]; [|done]. injection E as <-. done. }
  rewrite app_comm_cons, app_assoc in E. apply app_inj_2 in E as [-> [= <-]]; [|done].
  exists c, r. split; [done|]. split; [done|].
  rewrite app_comm_cons in Hp. revert Hp. generalize (c :: r) at 1 2. clear.
  intros l. generalize 0%Z. induction l as [|y l IH]; intros z; simpl; [done|].
  case_if; [done|]. case_if; [done|]. case_if; [done|]. apply IH.
Qed.

Lemma translate_hides_len G fs path outsz out m pid :
  g_no_proc G = false -> outsz <= CNG_PATH_MAX -> 0 < outsz ->
  translate_mnt_1 G fs path outsz = Some (out, m) ->
  names_pid out pid -> pid = 0%Z \/ g_procreg_has G pid = true.
Proof.
  intros Hn Hmax H0. rewrite translate_unfold.
  intros (canon & _ & H)%bind_Some Hpid. cbv zeta in H.
  apply bind_Some in H as (o & Ho & H).
  pose proof (mount_fill_length _ _ _ _ _ _ H0 Ho) as Hlen.
  remember (if host_proc_hidden G o then hide_proc_pid o outsz else o) as o' eqn:E.
  assert (Hpid' : names_pid o' pid).
  { destruct (cng_path_wants_dir path); [|by injection H as <- <-].
    destruct (negb _ && negb _); [|by injection H as <- <-].
    destruct (outsz <? length o' + 2); [done|]. injection H as <- <-.
    by apply names_pid_slash. }
  destruct (host_proc_hidden G o) eqn:Eh; subst o'.
  - left. rewrite (hide_proc_pid_spec G) in Hpid' by done.
    destruct Hpid' as (c & r & E & Hd & Hp).
    change (cs "/proc/0" ++ drop_while not_slash (drop 6 o)) with
      (cs "/proc/" ++ "0"%char :: drop_while not_slash (drop 6 o)) in E.
    apply app_inj_1 in E as [_ [= <- <-]]; [|done].
    change ("0"%char :: drop_while not_slash (drop 6 o)) with
      (["0"%char] ++ drop_while not_slash (drop 6 o)) in Hp.
    rewrite pid_scan_boundary in Hp;
      [|by apply Forall_singleton|apply drop_while_boundary].
    by injection Hp as <-.
  - right. by eapply not_hidden_names.
Qed.
