(* ===== verification/PathRev.v ===== *)
(** * The reverse translation, read-only binds, view updates and chroot *)

From stdpp Require Import base list strings gmap numbers.
From Stdlib Require Import ZArith Ascii Lia.
From S2P Require Import Prelude Path PathCanon PathFacts.

Open Scope nat_scope.

(** ** untranslate *)

Lemma host_under_spec (host pfx : cstr) :
  host_under host pfx (length pfx) = true <-> pfx = [] \/ path_under host pfx.
Proof.
  unfold host_under. rewrite orb_true_iff, Nat.eqb_eq, length_zero_iff_nil.
  by rewrite under_spec.
Qed.

(** The scan is [pick], the start standing in for no bind. *)
Lemma best_host_pick host bs i best o blen :
  best_host host bs i (match o with Some k => RBind k | None => best end) blen =
  let p := pick (host_key host) bs i o blen in
  (match p.1 with Some k => RBind k | None => best end, p.2).
Proof.
  revert i o blen. induction bs as [|b bs IH]; intros i o blen; [done|]. simpl.
  assert (Ek : host_key host b = if host_under host (b_host b) (b_hlen b)
                                 then Some (b_hlen b) else None) by done.
  rewrite Ek. clear Ek. destruct (host_under host (b_host b) (b_hlen b)).
  - rewrite andb_true_r. destruct (blen <? b_hlen b); [|by apply IH].
    apply (IH (S i) (Some i)).
  - rewrite andb_false_r. apply IH.
Qed.

Lemma best_host_spec host bs i best blen :
  (best_host host bs i best blen = (best, blen) /\
   forall b l, b ∈ bs -> host_key host b = Some l -> l <= blen) \/
  (exists k l, best_host host bs i best blen = (RBind (i + k), l) /\ blen < l /\
     picked (host_key host) bs k l).
Proof.
  rewrite (best_host_pick host bs i best None).
  destruct (pick_spec (host_key host) bs i None blen)
    as [[-> H]|(k & l & -> & Hl & H)]; simpl; eauto 6.
Qed.

Lemma host_key_Some host b l :
  bind_wf b -> b_host b <> [] ->
  host_key host b = Some l <-> path_under host (b_host b) /\ l = length (b_host b).
Proof.
  intros Hb Hne. unfold host_key. rewrite (bw_hlen b Hb).
  pose proof (host_under_spec host (b_host b)).
  destruct (host_under _ _ _); naive_solver.
Qed.

Lemma host_key_nil host b l :
  bind_wf b -> b_host b = [] -> host_key host b = Some l -> l = 0.
Proof.
  intros Hb E. unfold host_key. rewrite (bw_hlen b Hb), E. simpl.
  by intros [= <-].
Qed.

(** No bind's host side is a longer prefix of [host] than [n]. *)
Definition no_longer_host (fs : cng_fs) (host : cstr) (n : nat) : Prop :=
  forall b, b ∈ f_binds fs -> path_under host (b_host b) -> length (b_host b) <= n.

Lemma host_key_bound fs host n b l :
  fs_wf fs -> no_longer_host fs host n -> b ∈ f_binds fs ->
  host_key host b = Some l -> l <= n.
Proof.
  intros Hwf Hn Hin Hk.
  assert (Hb : bind_wf b).
  { apply list_elem_of_lookup_1 in Hin as [i Hi]. by eapply fs_wf_bind. }
  destruct (decide (b_host b = [])) as [E|E].
  - rewrite (host_key_nil host b l) by done. lia.
  - apply host_key_Some in Hk as [Hu ->]; [|done..]. by apply Hn.
Qed.

(** A name below the rootfs that no bind's host side claims reads back as the
    guest name it was made from. *)
Lemma untranslate_rootfs fs canon outsz :
  fs_wf fs -> canonical canon -> length canon < outsz ->
  no_longer_host fs (f_rootfs fs ++ canon) (length (f_rootfs fs)) ->
  untranslate_1 fs (f_rootfs fs ++ canon) outsz = Some canon.
Proof.
  intros Hwf Hc Hl Hn. unfold untranslate_1. rewrite (fw_rlen fs Hwf).
  assert (Hu : host_under (f_rootfs fs ++ canon) (f_rootfs fs)
                 (length (f_rootfs fs)) = true).
  { apply host_under_spec. right. exists canon. split; [done|].
    apply canonical_absolute in Hc as [r ->]. eauto. }
  rewrite Hu. cbn [fst snd].
  destruct (best_host_spec (f_rootfs fs ++ canon) (f_binds fs) 0 RRootfs
              (length (f_rootfs fs)))
    as [[-> _]|(k & l & _ & Hkl & [(b & Hb & Hk) _])].
  2: { pose proof (host_key_bound _ _ _ _ _ Hwf Hn
         (list_elem_of_lookup_2 _ _ _ Hb) Hk). lia. }
  simpl. rewrite drop_app_length.
  rewrite (proj2 (join_checked_Some [] canon outsz canon)) by done.
  simpl. apply canonical_nonempty in Hc. destruct canon; [simpl in Hc; lia|done].
Qed.

(** [b] is what a host name under it reads back through: no other prefix is
    longer, and none before it as long. *)
Definition owns_host (fs : cng_fs) (host : cstr) (i : nat) (b : cng_bind) : Prop :=
  (path_under host (f_rootfs fs) -> length (f_rootfs fs) < length (b_host b)) /\
  forall j b', f_binds fs !! j = Some b' -> path_under host (b_host b') ->
    length (b_host b') <= length (b_host b) /\
    (j < i -> length (b_host b') < length (b_host b)).

Lemma untranslate_bind fs i b rest outsz :
  fs_wf fs -> f_binds fs !! i = Some b -> b_host b <> [] -> boundary rest ->
  length (b_guest b ++ rest) < outsz ->
  owns_host fs (b_host b ++ rest) i b ->
  untranslate_1 fs (b_host b ++ rest) outsz = Some (b_guest b ++ rest).
Proof.
  intros Hwf Hb Hne Hr Hl [Hroot Hown]. unfold untranslate_1.
  rewrite (fw_rlen fs Hwf).
  set (h := b_host b ++ rest) in *.
  pose proof (fs_wf_bind _ _ _ Hwf Hb) as Hbw.
  assert (Hu : path_under h (b_host b)) by (exists rest; auto).
  assert (Hkey : host_key h b = Some (length (b_host b)))
    by (by apply host_key_Some).
  assert (Hblen : forall st blen,
    (st, blen) = (if host_under h (f_rootfs fs) (length (f_rootfs fs))
                  then (RRootfs, length (f_rootfs fs)) else (RNone, 0)) ->
    blen < length (b_host b)).
  { intros st blen. destruct (host_under _ _ _) eqn:E; intros [= -> ->].
    - apply host_under_spec in E as [->|E]; [|by auto].
      destruct (b_host b); simpl; [done|lia].
    - destruct (b_host b); simpl; [done|lia]. }
  destruct (if host_under h _ _ then _ else _) as [st blen] eqn:Est.
  specialize (Hblen st blen eq_refl). cbn [fst snd].
  destruct (best_host_spec h (f_binds fs) 0 st blen)
    as [[-> Hm]|(k & l & -> & Hkl & [(b' & Hb' & Hk) Hm])].
  { specialize (Hm b _ (list_elem_of_lookup_2 _ _ _ Hb) Hkey). lia. }
  pose proof (fs_wf_bind _ _ _ Hwf Hb') as Hbw'.
  assert (Hne' : b_host b' <> []).
  { intros E. rewrite (host_key_nil _ _ _ Hbw' E Hk) in Hkl. lia. }
  apply host_key_Some in Hk as [Hu' ->]; [|done..].
  assert (k = i) as ->.
  { destruct (Hm _ _ _ Hb Hkey) as [H1 H2]. destruct (Hown _ _ Hb' Hu') as [H3 H4].
    destruct (Nat.lt_trichotomy k i) as [?|[?|?]]; [|done|]; lia. }
  simplify_eq. simpl. rewrite Hb. simpl. subst h. rewrite drop_app_length.
  rewrite (proj2 (join_checked_Some (b_guest b) rest outsz (b_guest b ++ rest)));
    [|split; [done|by rewrite length_app in Hl]].
  simpl. pose proof (canonical_nonempty _ (bw_guest b Hbw)) as Hcn.
  destruct (b_guest b) as [|x g]; [simpl in Hcn; lia|done].
Qed.

(** ** Read-only binds *)

Definition ro_key (host : cstr) (b : cng_bind) : option nat :=
  if strneq host (b_host b) (b_hlen b) && at_boundary host (b_hlen b)
  then Some (b_hlen b) else None.

Lemma best_ro_pick host L bs i o blen :
  L = take i L ++ bs -> length (take i L) = i ->
  best_ro host bs (o ≫= fun k => L !! k) blen =
  (pick (ro_key host) bs i o blen).1 ≫= fun k => L !! k.
Proof.
  revert i o blen. induction bs as [|b bs IH]; intros i o blen HL Hi; [done|].
  assert (Hb : L !! i = Some b).
  { rewrite HL, lookup_app_r, Hi, Nat.sub_diag by lia. done. }
  assert (HS : L = take (S i) L ++ bs).
  { rewrite (take_S_r _ _ _ Hb), <-app_assoc. done. }
  assert (Hlen : length (take (S i) L) = S i).
  { rewrite (take_S_r _ _ _ Hb), length_app, Hi. simpl. lia. }
  simpl. rewrite <-(andb_assoc (negb _)). unfold ro_key at 1.
  destruct (strneq host (b_host b) (b_hlen b) && at_boundary host (b_hlen b)).
  - rewrite andb_true_r. destruct (Nat.ltb_spec blen (b_hlen b)) as [Hl|Hl].
    + rewrite (proj2 (Nat.eqb_neq _ _)) by lia. simpl.
      rewrite <-(IH (S i) (Some i)) by done. simpl. by rewrite Hb.
    + rewrite andb_false_r. by apply IH.
  - rewrite andb_false_r. by apply IH.
Qed.

(** [b] is the bind of the longest non-empty host prefix of [host]. *)
Definition longest_host (fs : cng_fs) (host : cstr) (b : cng_bind) : Prop :=
  exists i, f_binds fs !! i = Some b /\ path_under host (b_host b) /\
    b_host b <> [] /\
    forall j b', f_binds fs !! j = Some b' -> path_under host (b_host b') ->
      length (b_host b') <= length (b_host b) /\
      (j < i -> length (b_host b') < length (b_host b)).

Lemma ro_key_Some host b l :
  bind_wf b ->
  ro_key host b = Some l <-> path_under host (b_host b) /\ l = length (b_host b).
Proof.
  intros Hb. unfold ro_key. rewrite (bw_hlen b Hb).
  pose proof (under_spec host (b_host b)) as U.
  destruct (strneq _ _ _ && at_boundary _ _); naive_solver.
Qed.

Lemma best_ro_spec fs host :
  fs_wf fs ->
  match best_ro host (f_binds fs) None 0 with
  | Some b => longest_host fs host b
  | None => forall b, b ∈ f_binds fs -> b_host b <> [] -> ~ path_under host (b_host b)
  end.
Proof.
  intros Hwf. change None with ((None : option nat) ≫= fun k => f_binds fs !! k).
  rewrite (best_ro_pick host (f_binds fs) (f_binds fs) 0) by done.
  destruct (pick_spec (ro_key host) (f_binds fs) 0 None 0)
    as [[-> Hm]|(k & l & -> & Hl & [(b & Hb & Hk) Hm])]; simpl.
  - intros b Hin Hne Hu. pose proof Hin as [i Hi]%list_elem_of_lookup_1.
    pose proof (fs_wf_bind _ _ _ Hwf Hi) as Hbw.
    specialize (Hm b (length (b_host b)) Hin).
    rewrite ro_key_Some in Hm by done. specialize (Hm (conj Hu eq_refl)).
    destruct (b_host b); simpl in *; [done|lia].
  - rewrite Hb. pose proof (fs_wf_bind _ _ _ Hwf Hb) as Hbw.
    apply ro_key_Some in Hk as [Hu ->]; [|done]. exists k.
    repeat split; try done; [intros E; rewrite E in Hl; simpl in Hl; lia|..];
      eapply Hm; eauto; apply ro_key_Some; auto; by eapply fs_wf_bind.
Qed.

(** ** The updates keep the view well formed *)

Lemma trim_rev_head c c' r : trim_rev (c :: c' :: r) =
  if is_slash c then trim_rev (c' :: r) else c :: c' :: r.
Proof. reflexivity. Qed.

Lemma trim_rev_spec r :
  (length (trim_rev r) <= length r) /\
  (trim_rev r = [SLASH] \/ head (trim_rev r) <> Some SLASH).
Proof.
  induction r as [|c [|c' r] IH]; [simpl; split; [lia|by right]| |].
  - split; [simpl; lia|]. destruct (decide (c = SLASH)) as [->|H]; [by left|].
    right. simpl. congruence.
  - rewrite trim_rev_head. destruct (is_slash c) eqn:E.
    + destruct IH as [H1 H2]. split; [simpl in *; lia|done].
    + split; [lia|]. right. simpl. intros [= ->]. done.
Qed.

Lemma trim_rev_id r : head r <> Some SLASH -> trim_rev r = r.
Proof.
  destruct r as [|c [|c' r]]; [done..|]. rewrite trim_rev_head.
  destruct (is_slash c) eqn:E; [|done]. apply is_slash_true in E as ->. done.
Qed.

Lemma normalized_reverse h : normalized h <-> head (reverse h) <> Some SLASH.
Proof.
  unfold normalized, char_is. rewrite bool_decide_eq_false.
  destruct h as [|c h _] using rev_ind; [done|].
  rewrite reverse_app. simpl. rewrite length_app. simpl.
  rewrite Nat.add_sub, lookup_app_r, Nat.sub_diag by lia. done.
Qed.

Lemma normalize_root_wf n src d :
  normalize_root n src = Some d -> normalized d /\ length d < n.
Proof.
  unfold normalize_root, strlcpy. destruct (Nat.leb_spec n (length src)); [done|].
  rewrite take_ge by lia. intros [= <-].
  destruct (trim_rev_spec (reverse src)) as [Hl Hh]. rewrite length_reverse in Hl.
  unfold streq. case_bool_decide as E; [split; [done|simpl; lia]|].
  rewrite normalized_reverse, reverse_involutive, length_reverse. split; [|lia].
  destruct Hh as [Hh|Hh]; [|done]. rewrite Hh in E. done.
Qed.

Lemma normalize_root_id n src :
  normalized src -> length src < n -> normalize_root n src = Some src.
Proof.
  intros Hn Hl. unfold normalize_root, strlcpy.
  rewrite (proj2 (Nat.leb_gt _ _)) by lia. rewrite take_ge by lia.
  apply normalized_reverse in Hn. rewrite trim_rev_id, reverse_involutive by done.
  unfold streq. case_bool_decide as E; [|done]. subst. done.
Qed.

Lemma canon_host_root_wf H n src d :
  canon_host_root H n src = Some d -> normalized d /\ length d < n.
Proof.
  unfold canon_host_root. destruct (h_open_path H src); [|apply normalize_root_wf].
  case_if; apply normalize_root_wf.
Qed.

Lemma cng_fs_init_wf H rootfs fs : cng_fs_init H rootfs = Some fs -> fs_wf fs.
Proof.
  unfold cng_fs_init. intros (r & Hr & [= <-])%bind_Some.
  apply canon_host_root_wf in Hr as [H1 H2].
  constructor; simpl; try done.
  - unfold CNG_MAX_BINDS. lia.
  - by exists [].
  - unfold CNG_PATH_MAX. lia.
Qed.

Lemma bind_measure_wf g h ro :
  canonical g -> length g < GUEST_SZ -> normalized h -> length h < HOST_SZ ->
  bind_wf (bind_measure g h ro).
Proof. intros. by constructor. Qed.

Lemma cng_fs_add_bind_wf H fs guest hostp ro fs' :
  fs_wf fs -> cng_fs_add_bind H fs guest hostp ro = Some fs' -> fs_wf fs'.
Proof.
  intros Hwf. unfold cng_fs_add_bind.
  destruct (Nat.leb_spec CNG_MAX_BINDS (length (f_binds fs))); [done|].
  destruct (negb (char_is guest 0 SLASH)); [done|].
  intros (c & Hc & Hh)%bind_Some. unfold strlcpy in Hh.
  destruct (Nat.leb_spec GUEST_SZ (length c)); [done|].
  apply bind_Some in Hh as (h & Hh & [= <-]).
  apply canon_host_root_wf in Hh as [Hn Hl]. destruct Hwf.
  constructor; simpl; try done.
  - apply Forall_app. split; [done|]. constructor; [|done].
    rewrite take_ge by (unfold GUEST_SZ in *; lia). apply bind_measure_wf; try done.
    by eapply canon_canonical.
  - rewrite length_app. unfold CNG_MAX_BINDS in *. simpl. lia.
  - rewrite fw_ro, existsb_app. simpl. destruct ro, (existsb b_ro (f_binds fs)); done.
Qed.

Lemma set_cwd_wf fs cwd : fs_wf fs -> fs_wf (set_cwd_1 fs cwd).
Proof.
  intros Hwf. unfold set_cwd_1. destruct (char_is cwd 0 SLASH); [|done].
  destruct (cng_path_canon cwd CNG_PATH_MAX) as [c|] eqn:E; [|done].
  assert (Hl : length c < CNG_PATH_MAX)
    by (eapply canon_length; [|done]; unfold CNG_PATH_MAX; lia).
  destruct Hwf. constructor; try done; cbn [f_cwd]; rewrite strlcpy_fits by done;
    [by eapply canon_canonical|done].
Qed.

(** ** chroot *)

(** The part of a canonical name below a canonical prefix is canonical. *)
Lemma canonical_suffix root g :
  canonical root -> root <> [SLASH] -> canonical (root ++ g) -> boundary g ->
  g <> [] -> canonical g /\ g <> [SLASH].
Proof.
  intros Hr Hne Hc Hb Hg. destruct Hb as [->|[r ->]]; [done|].
  destruct (canonical_render root Hr Hne) as (str & Hn1 & Hf1 & ->).
  assert (Hne2 : render str ++ SLASH :: r <> [SLASH]).
  { destruct str as [|x str]; [done|]. intros E. apply (f_equal length) in E.
    rewrite length_app in E. unfold render in E. simpl in E. lia. }
  destruct (canonical_render _ Hc Hne2) as (st & Hn & Hf & E).
  apply (f_equal split_slash) in E.
  rewrite split_slash_app, !split_render_nonempty in E
    by (done || by apply normal_slash_free).
  injection E as E. rewrite <-E in Hf. apply Forall_app in Hf as [_ Hf].
  split.
  - exists (split_slash r). split; [done|]. unfold name_of.
    pose proof (render_split r). pose proof (split_slash_nonempty r).
    by destruct (split_slash r).
  - intros [= ->]. simpl in Hf. apply Forall_cons_1 in Hf as [(Hx & _) _]. done.
Qed.

(** What [rebase] gives on a canonical name and root. *)
Lemma rebase_spec n p root :
  canonical root -> root <> [SLASH] -> canonical p -> length p < n ->
  match rebase n p root (length root) with
  | Some g => exists r, p = root ++ r /\
      ((r = [] /\ g = [SLASH]) \/
       (g = r /\ canonical g /\ g <> [SLASH] /\ exists r', g = SLASH :: r'))
  | None => ~ path_under p root
  end.
Proof.
  intros Hr Hne Hp Hl. unfold rebase.
  pose proof (canonical_nonempty root Hr) as Hrl.
  rewrite (proj2 (Nat.eqb_neq _ _)) by lia.
  pose proof (under_spec p root) as U.
  rewrite <-negb_andb. destruct (strneq _ _ _ && at_boundary _ _); simpl negb.
  2: { intros Hu. by apply U in Hu. }
  destruct (proj1 U eq_refl) as (r & -> & Hb). exists r. split; [done|].
  rewrite drop_app_length. unfold at_end.
  rewrite lookup_app_r, Nat.sub_diag by lia. rewrite length_app in Hl.
  destruct r as [|c r]; simpl lookup.
  - left. split; [done|]. rewrite bool_decide_eq_true_2 by done.
    rewrite strlcpy_fits; [done|simpl; lia].
  - right. rewrite bool_decide_eq_false_2 by done.
    rewrite strlcpy_fits by lia. split; [done|].
    destruct Hb as [Hb|[r' E]]; [done|].
    destruct (canonical_suffix root (c :: r) Hr Hne Hp) as [H1 H2]; [by right; eauto|done|].
    eauto.
Qed.

Lemma rebase_binds_wf root rlen bs :
  canonical root -> (rlen = 0 \/ (root <> [SLASH] /\ rlen = length root)) ->
  Forall bind_wf bs -> Forall bind_wf (rebase_binds root rlen bs) /\
    length (rebase_binds root rlen bs) <= length bs.
Proof.
  intros Hr Hrl. induction 1 as [|b bs Hb _ [IH1 IH2]]; [done|].
  cbn [rebase_binds length].
  assert (Hg : forall g, rebase GUEST_SZ (b_guest b) root rlen = Some g ->
            canonical g /\ length g < GUEST_SZ).
  { intros g. destruct Hrl as [->|[Hne ->]].
    - simpl. intros [= <-]. rewrite take_ge by (pose proof (bw_gsz b Hb); unfold GUEST_SZ in *; lia).
      split; [apply Hb|apply Hb].
    - intros E. pose proof (rebase_spec GUEST_SZ (b_guest b) root Hr Hne
        (bw_guest b Hb) (bw_gsz b Hb)) as S. rewrite E in S.
      pose proof (bw_gsz b Hb) as Hsz.
      destruct S as (r & Eg & [[-> ->]|(-> & Hc & _)]).
      + split; [by exists []|]. unfold GUEST_SZ. simpl. lia.
      + rewrite Eg, length_app in Hsz. split; [done|lia]. }
  destruct (rebase GUEST_SZ (b_guest b) root rlen) as [g|]; [|split; [done|lia]].
  destruct (Hg g eq_refl) as [Hc Hl]. case_if; [split; [done|lia]|].
  split; [|simpl; lia]. constructor; [|done].
  rewrite strlcpy_fits by done. apply bind_measure_wf; [done..| |]; apply Hb.
Qed.

Lemma chroot_wf fs guest_root host_root :
  fs_wf fs -> fs_wf (chroot_1 fs guest_root host_root).
Proof.
  intros Hwf. unfold chroot_1.
  destruct (cng_path_canon guest_root CNG_PATH_MAX) as [root|] eqn:Er; [|done].
  assert (Hr : canonical root) by by eapply canon_canonical.
  set (rlen := if length root =? 1 then 0 else length root).
  assert (Hrl : rlen = 0 \/ (root <> [SLASH] /\ rlen = length root)).
  { subst rlen. destruct (Nat.eqb_spec (length root) 1) as [E|E]; [by left|].
    right. split; [|done]. by intros ->. }
  destruct (rebase_binds_wf root rlen (f_binds fs) Hr Hrl (fw_binds fs Hwf)) as [HB HL].
  pose proof (fw_n fs Hwf). pose proof (fw_cwdsz fs Hwf) as Hcl.
  assert (Hcwd : forall c, rebase CNG_PATH_MAX (f_cwd fs) root rlen = Some c ->
            canonical c /\ length c < CNG_PATH_MAX).
  { intros c. destruct Hrl as [->|[Hne ->]].
    - unfold rebase. rewrite Nat.eqb_refl. rewrite strlcpy_fits by done.
      intros [= <-]. split; [apply Hwf|done].
    - intros E. pose proof (rebase_spec CNG_PATH_MAX (f_cwd fs) root Hr Hne
        (fw_cwd fs Hwf) Hcl) as S. rewrite E in S.
      destruct S as (r & Eg & [[-> ->]|(-> & Hc & _)]).
      + split; [by exists []|]. unfold CNG_PATH_MAX. simpl. lia.
      + rewrite Eg, length_app in Hcl. split; [done|lia]. }
  assert (Hroot : normalized (default [] (normalize_root HOST_SZ host_root)) /\
            length (default [] (normalize_root HOST_SZ host_root)) < HOST_SZ).
  { destruct (normalize_root HOST_SZ host_root) as [d|] eqn:E; simpl.
    - by eapply normalize_root_wf.
    - split; [done|]. unfold HOST_SZ. lia. }
  assert (Hc2 : canonical (match rebase CNG_PATH_MAX (f_cwd fs) root rlen with
                  | Some c => c | None => [SLASH] end) /\
            length (match rebase CNG_PATH_MAX (f_cwd fs) root rlen with
                  | Some c => c | None => [SLASH] end) < CNG_PATH_MAX).
  { destruct (rebase CNG_PATH_MAX (f_cwd fs) root rlen); [by apply Hcwd|].
    split; [by exists []|]. unfold CNG_PATH_MAX. simpl. lia. }
  destruct Hroot, Hc2 as [Hc21 Hc22].
  constructor; cbn [f_rootfs f_rlen f_binds f_has_ro f_cwd]; try done; [lia|..];
    rewrite strlcpy_fits by done; done.
Qed.

(** The host name a mount gives a canonical guest name, before any of the
    rewrites of [translate_mnt_1]. *)
Definition mount_path (fs : cng_fs) (m : mount) (canon : cstr) : option cstr :=
  match m with
  | MBind i => b ← f_binds fs !! i; Some (b_host b ++ drop (b_glen b) canon)
  | MRootfs => Some (f_rootfs fs ++ canon)
  | MProc | MDev => None
  end.

(** The bind chosen, rather than its index. *)
Definition best_bind (fs : cng_fs) (canon : cstr) : option cng_bind :=
  best_guest canon (f_binds fs) 0 None 0 ≫= fun i => f_binds fs !! i.

Section ChrootScan.
Context (root p : cstr) (Hroot : canonical root) (Hne : root <> [SLASH])
        (Hp : canonical p).

Definition match_guest (c : cstr) (b : cng_bind) : bool :=
  strneq c (b_guest b) (b_glen b) && at_boundary c (b_glen b).

(** The scan with the chosen entry itself as the accumulator. *)
Fixpoint scan (c : cstr) (bs : list cng_bind) (acc : option cng_bind)
    (blen : nat) : option cng_bind :=
  match bs with
  | [] => acc
  | b :: bs' =>
      if match_guest c b && (blen <? b_glen b) then scan c bs' (Some b) (b_glen b)
      else scan c bs' acc blen
  end.

Lemma best_guest_scan c L bs i o blen :
  L = take i L ++ bs -> length (take i L) = i ->
  (best_guest c bs i o blen ≫= fun k => L !! k) =
  scan c bs (o ≫= fun k => L !! k) blen.
Proof.
  revert i o blen. induction bs as [|b bs IH]; intros i o blen HL Hi; [done|].
  assert (Hb : L !! i = Some b).
  { rewrite HL, lookup_app_r, Hi, Nat.sub_diag by lia. done. }
  assert (HS : L = take (S i) L ++ bs).
  { rewrite (take_S_r _ _ _ Hb), <-app_assoc. done. }
  assert (Hlen : length (take (S i) L) = S i).
  { rewrite (take_S_r _ _ _ Hb), length_app, Hi. simpl. lia. }
  simpl. fold (match_guest c b). destruct (match_guest c b && (blen <? b_glen b)).
  - rewrite (IH (S i) (Some i)) by done. simpl. by rewrite Hb.
  - by apply IH.
Qed.

Lemma match_guest_spec c b :
  bind_wf b -> match_guest c b = true <-> path_under c (b_guest b).
Proof. intros Hb. unfold match_guest. rewrite (bw_glen b Hb). apply under_spec. Qed.

(** A bind strictly below the root matches [root ++ p] exactly when its
    rebased form matches [p], and never matches the root itself. *)
Lemma match_below g : boundary g ->
  path_under (root ++ p) (root ++ g) <-> path_under p g.
Proof.
  intros _. split.
  - intros (r & E & Hr). exists r. split; [|done]. rewrite <-app_assoc in E.
    by apply app_inv_head in E.
  - intros (r & -> & Hr). exists r. by rewrite app_assoc.
Qed.

Lemma no_match_root g : g <> [] -> ~ path_under root (root ++ g).
Proof.
  intros Hg (r & E & _). apply (f_equal length) in E. rewrite !length_app in E.
  destruct g; simpl in *; [done|lia].
Qed.

(** Any other bind matches [root ++ p] exactly when it matches the root. *)
Lemma match_above gst :
  (gst = root \/ ~ path_under gst root) ->
  path_under (root ++ p) gst <-> path_under root gst.
Proof.
  destruct (canonical_absolute p Hp) as [p' ->]. intros Hg. split.
  - intros (r & E & Hr). destruct Hg as [->|Hg]; [apply path_under_refl|].
    destruct (decide (length gst <= length root)) as [Hl|Hl].
    + exists (drop (length gst) root).
      assert (Er : root = gst ++ drop (length gst) root).
      { rewrite <-(take_drop (length gst) root) at 1. f_equal.
        apply (f_equal (take (length gst))) in E.
        rewrite take_app_le, take_app_length in E by done. done. }
      split; [done|]. rewrite Er, <-app_assoc in E at 1. apply app_inv_head in E.
      destruct (drop (length gst) root) as [|c d]; [by left|].
      destruct Hr as [->|[r' ->]]; [done|]. injection E as <- _. eauto.
    + exfalso. apply Hg. exists (drop (length root) gst).
      assert (Er : gst = root ++ drop (length root) gst).
      { rewrite <-(take_drop (length root) gst) at 1. f_equal.
        apply (f_equal (take (length root))) in E.
        rewrite take_app_length, take_app_le in E by lia. done. }
      split; [done|]. rewrite Er, <-app_assoc in E. apply app_inv_head in E.
      destruct (drop (length root) gst) as [|c d]; [by left|].
      injection E as <- _. eauto.
  - intros (r & E & Hr). exists (r ++ SLASH :: p'). rewrite E, <-app_assoc.
    split; [done|]. destruct Hr as [->|[r' ->]]; simpl; eauto.
Qed.

(** The rebased form of a bind. *)
Definition rebased (b : cng_bind) : cng_bind :=
  bind_measure (drop (length root) (b_guest b)) (b_host b) (b_ro b).

(** The three scans side by side: over all binds for [root ++ p], over the
    rebased binds for [p], and over all binds for the root. *)
Definition scans_agree (acc acc' acc'' : option cng_bind) (bl bl' bl'' : nat) : Prop :=
  (acc' = None /\ bl' = 0 /\ acc = acc'' /\ bl = bl'' /\ bl <= length root) \/
  (exists b g, acc = Some b /\ acc' = Some (rebased b) /\
     bl = length root + bl' /\ 0 < bl' /\ bind_wf b /\ b_guest b = root ++ g).

Lemma scan_chroot bs acc acc' acc'' bl bl' bl'' :
  Forall bind_wf bs -> scans_agree acc acc' acc'' bl bl' bl'' ->
  exists x y z, scans_agree
    (scan (root ++ p) bs acc bl)
    (scan p (rebase_binds root (length root) bs) acc' bl')
    (scan root bs acc'' bl'') x y z.
Proof.
  intros Hbs. revert acc acc' acc'' bl bl' bl''.
  induction Hbs as [|b bs Hb _ IH]; intros acc acc' acc'' bl bl' bl'' R.
  { by exists bl, bl', bl''. }
  cbn [scan rebase_binds].
  pose proof (rebase_spec GUEST_SZ (b_guest b) root Hroot Hne
    (bw_guest b Hb) (bw_gsz b Hb)) as S.
  pose proof (match_guest_spec (root ++ p) b Hb) as M1.
  pose proof (match_guest_spec root b Hb) as M2.
  assert (Above : b_guest b = root \/ ~ path_under (b_guest b) root ->
    exists x y z, scans_agree
      (if match_guest (root ++ p) b && (bl <? b_glen b)
       then scan (root ++ p) bs (Some b) (b_glen b)
       else scan (root ++ p) bs acc bl)
      (scan p (rebase_binds root (length root) bs) acc' bl')
      (if match_guest root b && (bl'' <? b_glen b)
       then scan root bs (Some b) (b_glen b)
       else scan root bs acc'' bl'') x y z).
  { intros Hg. pose proof (match_above _ Hg) as MA. rewrite <-M1, <-M2 in MA.
    assert (Hlen : match_guest root b = true -> b_glen b <= length root).
    { intros Hm%M2. destruct Hm as (r & E & _). rewrite (bw_glen b Hb), E, length_app.
      lia. }
    assert (E : match_guest (root ++ p) b = match_guest root b).
    { destruct (match_guest (root ++ p) b), (match_guest root b); naive_solver. }
    rewrite E. clear E MA M1 M2.
    destruct R as [(-> & -> & -> & -> & Hle)|(b0 & g0 & -> & -> & -> & Hpos & Hw0 & Eg0)].
    - destruct (match_guest root b) eqn:Em; simpl; [|apply IH; left; auto].
      destruct (bl'' <? b_glen b); apply IH; left; auto 6.
    - destruct (match_guest root b) eqn:Em; simpl.
      + rewrite (proj2 (Nat.ltb_ge _ _)) by (specialize (Hlen eq_refl); lia).
        destruct (bl'' <? b_glen b); apply IH; right; eauto 10.
      + apply IH. right. eauto 10. }
  destruct (rebase GUEST_SZ (b_guest b) root (length root)) as [g|]; [|by eauto].
  destruct S as (r & Eg & [[-> ->]|(-> & Hcg & Hgs & r' & Er)]).
  { rewrite app_nil_r in Eg. simpl. by apply Above; left. }
  clear Above. unfold streq. rewrite bool_decide_eq_false_2 by done.
  assert (Hszr : length r < GUEST_SZ).
  { pose proof (bw_gsz b Hb) as Hz. rewrite Eg, length_app in Hz. lia. }
  rewrite strlcpy_fits by done.
  assert (Erb : bind_measure r (b_host b) (b_ro b) = rebased b).
  { unfold rebased. by rewrite Eg, drop_app_length. }
  rewrite Erb. cbn [scan].
  assert (E2 : match_guest root b = false).
  { destruct (match_guest root b); [|done]. exfalso.
    apply (no_match_root r); [by subst|]. rewrite <-Eg. by apply M2. }
  rewrite E2. cbn [andb].
  assert (E1 : match_guest (root ++ p) b = match_guest p (rebased b)).
  { rewrite Eg in M1. rewrite (match_below r) in M1 by (subst; right; eauto).
    assert (Hbr : bind_wf (rebased b)).
    { rewrite <-Erb. apply bind_measure_wf; try done; apply Hb. }
    pose proof (match_guest_spec p (rebased b) Hbr) as M3.
    replace (b_guest (rebased b)) with r in M3 by (by rewrite <-Erb).
    destruct (match_guest (root ++ p) b), (match_guest p (rebased b)); naive_solver. }
  rewrite E1. assert (Eglr : b_glen (rebased b) = length r) by (by rewrite <-Erb).
  assert (Egl : b_glen b = length root + length r).
  { by rewrite (bw_glen b Hb), Eg, length_app. }
  rewrite Eglr, Egl. assert (0 < length r) by (subst r; simpl; lia).
  destruct (match_guest p (rebased b)); cbn [andb]; [|by apply IH].
  destruct R as [(-> & -> & -> & -> & Hle)|(b0 & g0 & -> & -> & -> & Hpos & Hw0 & Eg0)].
  - rewrite !(proj2 (Nat.ltb_lt _ _)) by lia. apply IH. right. exists b, r. auto 6.
  - destruct (Nat.ltb_spec bl' (length r)).
    + rewrite (proj2 (Nat.ltb_lt _ _)) by lia. apply IH. right. exists b, r. auto 6.
    + rewrite (proj2 (Nat.ltb_ge _ _)) by lia. apply IH. right. exists b0, g0. auto 6.
Qed.
End ChrootScan.

Lemma best_bind_scan fs c : best_bind fs c = scan c (f_binds fs) None 0.
Proof. unfold best_bind. by rewrite (best_guest_scan c (f_binds fs)). Qed.

(** Outside the zones, a mount's host name is the chosen bind's or the
    rootfs's. *)
Definition plain_mount (m : mount) : Prop := m <> MProc /\ m <> MDev.

Lemma mount_path_best G fs c :
  plain_mount (mount_of_1 G fs c) ->
  mount_path fs (mount_of_1 G fs c) c =
  Some (match best_bind fs c with
        | Some b => b_host b ++ drop (b_glen b) c
        | None => f_rootfs fs ++ c
        end).
Proof.
  unfold best_bind, mount_of_1, plain_mount.
  destruct (best_guest c (f_binds fs) 0 None 0) as [i|] eqn:E.
  - intros _. simpl.
    assert (Hi : is_Some (f_binds fs !! i)).
    { rewrite best_guest_pick in E.
      destruct (pick_spec (guest_key c) (f_binds fs) 0 None 0)
        as [[Ep _]|(k & l & Ep & _ & [(b & Hb & _) _])]; rewrite Ep in E; simpl in E.
      - done.
      - injection E as <-. by rewrite Hb. }
    destruct Hi as [b ->]. done.
  - destruct (proc_zone G c); [naive_solver|].
    destruct (dev_zone_node G c); [naive_solver|]. done.
Qed.

(** The choice is a bind of the view that covers the name. *)
Lemma best_bind_under fs c b :
  fs_wf fs -> best_bind fs c = Some b -> bind_wf b /\ path_under c (b_guest b).
Proof.
  intros Hwf. unfold best_bind. pose proof (best_guest_spec fs c Hwf) as Hbs.
  destruct (best_guest c (f_binds fs) 0 None 0) as [i|]; [|done].
  destruct Hbs as (b' & Hb' & Hu & _). simpl. intros Hb. simplify_eq.
  split; [by eapply fs_wf_bind|done].
Qed.

Lemma normalized_app q suf :
  suf <> [] -> normalized suf -> normalized (q ++ suf).
Proof.
  intros Hs. rewrite !normalized_reverse, reverse_app.
  destruct (reverse suf) as [|c l] eqn:Es; [|done].
  apply (f_equal reverse) in Es. by rewrite reverse_involutive in Es.
Qed.

Lemma normalized_suffix pre suf : normalized (pre ++ suf) -> suf <> [] -> normalized suf.
Proof.
  rewrite !normalized_reverse, reverse_app. intros H Hs.
  destruct (reverse suf) as [|c l] eqn:Es; [|done].
  apply (f_equal reverse) in Es. by rewrite reverse_involutive in Es.
Qed.

(** The host name of a canonical name other than "/" has no trailing slash. *)
Lemma best_bind_normalized fs c :
  fs_wf fs -> canonical c -> c <> [SLASH] ->
  normalized (match best_bind fs c with
              | Some b => b_host b ++ drop (b_glen b) c
              | None => f_rootfs fs ++ c
              end).
Proof.
  intros Hwf Hc Hne. pose proof (canonical_last c Hc Hne) as Hlast.
  destruct (best_bind fs c) as [b|] eqn:E.
  - destruct (best_bind_under _ _ _ Hwf E) as [Hbw Hu].
    rewrite (bw_glen b Hbw). apply path_under_drop in Hu as [Eu _].
    destruct (drop (length (b_guest b)) c) as [|x d] eqn:Ed.
    + rewrite app_nil_r. apply Hbw.
    + apply normalized_app; [done|]. apply (normalized_suffix (b_guest b)); [|done].
      by rewrite <-Eu.
  - apply normalized_app; [|done]. by apply canonical_absolute in Hc as [? ->].
Qed.

Lemma chroot_binds fs root hr :
  canonical root -> root <> [SLASH] -> length root < CNG_PATH_MAX ->
  f_binds (chroot_1 fs root hr) = rebase_binds root (length root) (f_binds fs).
Proof.
  intros Hr Hne Hl. unfold chroot_1. rewrite (canon_fixed root) by done.
  assert (Hrn : length root =? 1 = false).
  { apply Nat.eqb_neq. intros E. destruct (canonical_absolute root Hr) as [r ->].
    destruct r; done. }
  by rewrite Hrn.
Qed.

Lemma chroot_rootfs fs root hr :
  canonical root -> length root < CNG_PATH_MAX -> normalized hr ->
  length hr < HOST_SZ -> f_rootfs (chroot_1 fs root hr) = hr.
Proof.
  intros Hr Hl Hn Hh. unfold chroot_1. rewrite (canon_fixed root) by done.
  cbn [f_rootfs]. by rewrite normalize_root_id.
Qed.

Lemma chroot_mount_path G fs root p hr :
  fs_wf fs -> canonical root -> root <> [SLASH] -> length root < CNG_PATH_MAX ->
  canonical p ->
  mount_path fs (mount_of_1 G fs root) root = Some hr -> length hr < HOST_SZ ->
  plain_mount (mount_of_1 G fs (root ++ p)) ->
  plain_mount (mount_of_1 G (chroot_1 fs root hr) p) ->
  mount_path (chroot_1 fs root hr) (mount_of_1 G (chroot_1 fs root hr) p) p =
  mount_path fs (mount_of_1 G fs (root ++ p)) (root ++ p).
Proof.
  intros Hwf Hr Hne Hrl Hp Hhr Hsz Hm1 Hm2.
  rewrite !mount_path_best by done.
  rewrite mount_path_best in Hhr by (split; intros E; by rewrite E in Hhr).
  injection Hhr as Hhr.
  pose proof (best_bind_normalized fs root Hwf Hr Hne) as Hnorm. rewrite Hhr in Hnorm.
  rewrite (chroot_rootfs fs root hr) by done.
  rewrite (best_bind_scan (chroot_1 fs root hr)), chroot_binds by done.
  destruct (scan_chroot root p Hr Hne Hp (f_binds fs) None None None 0 0 0
    (fw_binds fs Hwf)) as (x & y & z & R); [left; auto with lia|].
  rewrite <-!best_bind_scan in R. f_equal.
  destruct R as [(-> & _ & -> & _ & Hle)|(b & g & -> & -> & _ & _ & Hbw & Eg)].
  - rewrite <-Hhr. destruct (best_bind fs root) as [b|] eqn:Es;
      [|by rewrite app_assoc].
    destruct (best_bind_under _ _ _ Hwf Es) as [Hbw (r & Er & _)].
    rewrite (bw_glen b Hbw), Er.
    rewrite <-!app_assoc, !drop_app_length. by rewrite app_assoc.
  - unfold rebased, bind_measure. cbn [b_host b_glen]. f_equal.
    rewrite (bw_glen b Hbw), Eg, drop_app_length, length_app.
    by rewrite drop_app_add.
Qed.
