(* ===== verification/PathProps.v ===== *)
(** * What the path core guarantees

    The theorems about src/src/path/path.c, each with the concrete views that
    show its hypotheses can hold. *)

From stdpp Require Import base list strings gmap numbers.
From Stdlib Require Import ZArith Ascii Lia.
From S2P Require Import Prelude Path PathCanon PathFacts PathRev.

Open Scope nat_scope.

(** ** A concrete view for the witnesses *)

Definition host0 : host := Host (fun _ => None) (fun _ => []) (fun _ _ => false).

Definition genv0 : genv :=
  GEnv false false (cs "/dev/shm") (cs "/dev/pts") (fun pid => bool_decide (pid = 77%Z)).

(** The rootfs at /data/rootfs/, /storage bound read-only at /sdcard and
    /data/tools at /opt/tools. *)
Definition view0 : option cng_fs :=
  fs ← cng_fs_init host0 (Some (cs "/data/rootfs/"));
  fs ← cng_fs_add_bind host0 fs (cs "/sdcard/") (cs "/storage") true;
  cng_fs_add_bind host0 fs (cs "/opt/x/../tools") (cs "/data/tools") false.

Definition fs0 : cng_fs :=
  CngFs (cs "/data/rootfs") 12
    [CngBind (cs "/sdcard") (cs "/storage") 7 8 1 true;
     CngBind (cs "/opt/tools") (cs "/data/tools") 10 11 5 false]
    true (cs "/").

Lemma view0_fs0 : view0 = Some fs0.
Proof. vm_compute. reflexivity. Qed.

Lemma fs0_wf : fs_wf fs0.
Proof.
  pose proof view0_fs0 as H. unfold view0 in H.
  apply bind_Some in H as (f1 & H1 & H). apply bind_Some in H as (f2 & H2 & H3).
  eauto using cng_fs_add_bind_wf, cng_fs_init_wf.
Defined.

Lemma fs0_clean : prefixes_clean genv0 fs0.
Proof.
  split.
  - unfold no_dotdot. vm_compute. set_solver.
  - intros b Hb. unfold no_dotdot. simpl in Hb. set_unfold in Hb.
    destruct Hb as [->|[->|[]]]; vm_compute; set_solver.
  - intros name h Hin. unfold no_dotdot. unfold cng_dev_nodes in Hin.
    set_unfold in Hin. naive_solver (simplify_eq; vm_compute; set_solver).
Defined.

Lemma genv0_fits : dev_nodes_fit genv0 CNG_PATH_MAX.
Proof.
  intros name h Hin. unfold cng_dev_nodes in Hin. apply Nat.ltb_lt.
  set_unfold in Hin. naive_solver (simplify_eq; reflexivity).
Defined.

(** ** Canonicalisation *)

(** C1: the byte loop of [cng_path_canon] computes the component walk: empty
    and "." components vanish, ".." pops one component and stays at the root,
    any other name is pushed, and the call fails exactly when a push would not
    fit the buffer.  Its result is absolute, has no ".", ".." or empty
    component, fits the buffer, and canonicalises to itself. *)
Theorem path_canon_component_walk (p : cstr) (outsz : nat) :
  cng_path_canon p outsz = name_of <$> resolve outsz (split_slash p) [] /\
  (forall s, cng_path_canon p outsz = Some s -> canonical s) /\
  (forall s, 2 <= outsz -> cng_path_canon p outsz = Some s ->
     length s < outsz /\ cng_path_canon s outsz = Some s).
Proof.
  split; [apply canon_resolve|]. split; [intros s; apply canon_canonical|].
  intros s Ho Hs. assert (length s < outsz) by by eapply canon_length.
  split; [done|]. apply canon_fixed; [|done]. by eapply canon_canonical.
Qed.

(** ** Mount selection *)

(** The mount that answers a guest path is the bind with the longest guest
    prefix at a component boundary (the first of equals); with no such bind,
    the /proc passthrough where it is on, then the /dev whitelist where it is
    on, and the rootfs for everything else. *)
Theorem mount_of_longest_prefix (G : genv) (fs : cng_fs) (canon : cstr)
    (Hwf : fs_wf fs) :
  mount_spec G fs canon (mount_of_1 G fs canon).
Proof. by apply mount_of_correct. Qed.

Lemma mount_of_longest_prefix_witness :
  mount_of_1 genv0 fs0 (cs "/opt/tools/bin/ls") = MBind 1 /\
  mount_of_1 genv0 fs0 (cs "/opt/toolsmith") = MRootfs /\
  mount_spec genv0 fs0 (cs "/opt/tools/bin/ls")
    (mount_of_1 genv0 fs0 (cs "/opt/tools/bin/ls")).
Proof.
  split; [reflexivity|]. split; [reflexivity|].
  apply (mount_of_longest_prefix genv0 fs0 (cs "/opt/tools/bin/ls") fs0_wf).
Defined.

(** ** Containment *)

(** Whatever string the guest passes, absolute or relative, with any run
    of ".." in it, the host path handed to the kernel lies below the rootfs,
    below the host side of the bind that answered, in the host's /proc, below
    a whitelisted device node, or on /proc/0, and has no ".." component below
    that prefix; and it fits the caller's buffer. *)
Theorem translate_contained (G : genv) (fs : cng_fs) (path : cstr)
    (outsz : nat) (out : cstr) (m : mount)
    (Hwf : fs_wf fs) (Hclean : prefixes_clean G fs)
    (Hdev : dev_nodes_fit G outsz) (Hsz : 0 < outsz <= CNG_PATH_MAX)
    (H : translate_mnt_1 G fs path outsz = Some (out, m)) :
  contained G fs m out /\ length out < outsz.
Proof. destruct Hsz. by eapply translate_contained_len. Qed.

Lemma translate_contained_witness :
  contained genv0 fs0 MRootfs (cs "/data/rootfs/etc/passwd/") /\
  length (cs "/data/rootfs/etc/passwd/") < CNG_PATH_MAX.
Proof.
  apply (translate_contained genv0 fs0 (cs "../../sdcard/../../etc//./passwd/")
           CNG_PATH_MAX).
  - exact fs0_wf.
  - exact fs0_clean.
  - exact genv0_fits.
  - unfold CNG_PATH_MAX. lia.
  - vm_compute. reflexivity.
Defined.



(** ** The reverse translation *)

(** The host name reads back through the mount it was made by. *)
Definition reads_back (fs : cng_fs) (m : mount) (out : cstr) : Prop :=
  match m with
  | MRootfs => no_longer_host fs out (length (f_rootfs fs))
  | MBind i => forall b, f_binds fs !! i = Some b ->
                 b_host b <> [] /\ owns_host fs out i b
  | MProc | MDev => False
  end.



(** ** Read-only binds *)

(** A host path is refused for writing exactly when the bind with the
    longest host prefix of it is a read-only one. *)
Theorem host_ro_longest_bind (fs : cng_fs) (host : cstr) (Hwf : fs_wf fs) :
  host_ro_1 fs host = true <->
  exists b, longest_host fs host b /\ b_ro b = true.
Proof.
  unfold host_ro_1. pose proof (best_ro_spec fs host Hwf) as H.
  rewrite (fw_ro fs Hwf). destruct (existsb b_ro (f_binds fs)) eqn:Ex; simpl.
  - destruct (best_ro host (f_binds fs) None 0) as [b|]; split.
    + eauto.
    + intros (b' & (j & Hj & Hu & Hne & Hmax) & Hro).
      destruct H as (i & Hi & Hu' & Hne' & Hmax').
      destruct (Hmax _ _ Hi Hu') as [H1 H2], (Hmax' _ _ Hj Hu) as [H3 H4].
      assert (i = j) as -> by lia. by simplify_eq.
    + done.
    + intros (b & (i & Hi & Hu & Hne & _) & _). exfalso.
      eapply H; [by eapply list_elem_of_lookup_2|done..].
  - split; [done|]. intros (b & (i & Hi & _) & Hro).
    assert (existsb b_ro (f_binds fs) = true); [|congruence].
    apply existsb_exists. exists b. split; [|done].
    apply list_elem_of_In. by eapply list_elem_of_lookup_2.
Qed.

Lemma host_ro_longest_bind_witness :
  host_ro_1 fs0 (cs "/storage/dl") = true /\
  exists b, longest_host fs0 (cs "/storage/dl") b /\ b_ro b = true.
Proof.
  split; [reflexivity|].
  apply (host_ro_longest_bind fs0 (cs "/storage/dl") fs0_wf). reflexivity.
Defined.

(** ** View updates *)

(** C7: every operation that writes the view keeps it well formed: canonical
    guest prefixes and cwd, host prefixes with no trailing slash, everything
    within its buffer, the cached lengths, basename offsets and the has_ro
    flag right, and at most 64 binds. *)
Theorem view_updates_keep_wf (H : host) (fs : cng_fs) :
  (forall rootfs fs', cng_fs_init H rootfs = Some fs' -> fs_wf fs') /\
  (fs_wf fs ->
   (forall guest hostp ro fs',
      cng_fs_add_bind H fs guest hostp ro = Some fs' -> fs_wf fs') /\
   (forall cwd, fs_wf (set_cwd_1 fs cwd)) /\
   (forall groot hroot, fs_wf (chroot_1 fs groot hroot))).
Proof.
  split; [intros; by eapply cng_fs_init_wf|]. intros Hwf.
  split; [|split]; eauto using cng_fs_add_bind_wf, set_cwd_wf, chroot_wf.
Qed.

Lemma view_updates_keep_wf_witness :
  fs_wf (chroot_1 fs0 (cs "/opt") (cs "/data/rootfs/opt")) /\
  map b_guest (f_binds (chroot_1 fs0 (cs "/opt") (cs "/data/rootfs/opt"))) = [cs "/tools"].
Proof.
  split; [|vm_compute; reflexivity].
  apply (proj2 (view_updates_keep_wf host0 fs0) fs0_wf).
Defined.

(** Chroot moves the root and nothing else: a name under the new root is
    answered by the same host path as the name it had under the old one, binds
    included (a bind at or below the new root keeps working, rebased). *)
Theorem chroot_keeps_host_paths (G : genv) (fs : cng_fs) (root p hr : cstr)
    (Hwf : fs_wf fs) (Hroot : canonical root) (Hne : root <> [SLASH])
    (Hlen : length root < CNG_PATH_MAX) (Hp : canonical p)
    (Hhr : mount_path fs (mount_of_1 G fs root) root = Some hr)
    (Hfit : length hr < HOST_SZ)
    (Hold : plain_mount (mount_of_1 G fs (root ++ p)))
    (Hnew : plain_mount (mount_of_1 G (chroot_1 fs root hr) p)) :
  mount_path (chroot_1 fs root hr) (mount_of_1 G (chroot_1 fs root hr) p) p =
  mount_path fs (mount_of_1 G fs (root ++ p)) (root ++ p).
Proof. by apply chroot_mount_path. Qed.

Lemma canonical_by_canon (s : cstr) :
  cng_path_canon s CNG_PATH_MAX = Some s -> canonical s.
Proof. apply canon_canonical. Defined.

Lemma chroot_keeps_host_paths_witness :
  mount_path (chroot_1 fs0 (cs "/opt") (cs "/data/rootfs/opt"))
    (mount_of_1 genv0 (chroot_1 fs0 (cs "/opt") (cs "/data/rootfs/opt")) (cs "/tools/ld"))
    (cs "/tools/ld") = Some (cs "/data/tools/ld").
Proof.
  rewrite (chroot_keeps_host_paths genv0 fs0 (cs "/opt") (cs "/tools/ld")
             (cs "/data/rootfs/opt") fs0_wf).
  - vm_compute. reflexivity.
  - apply canonical_by_canon. vm_compute. reflexivity.
  - done.
  - apply Nat.ltb_lt. reflexivity.
  - apply canonical_by_canon. vm_compute. reflexivity.
  - vm_compute. reflexivity.
  - apply Nat.ltb_lt. reflexivity.
  - vm_compute. done.
  - vm_compute. done.
Defined.

(** The one truncation [chroot_1] does not refuse.  [normalize_root]
    empties its buffer when the host path of the new root does not fit the 512
    bytes of [cng_fs.rootfs], and [chroot_1] ignores its answer: the view is
    then rooted at the host's own root, and a guest path no bind or zone
    answers is handed to the kernel as it is. *)
Theorem chroot_overlong_root_is_host_root (G : genv) (fs : cng_fs)
    (root p hr : cstr) (Hwf : fs_wf fs) (Hroot : canonical root)
    (Hlen : length root < CNG_PATH_MAX) (Hp : canonical p)
    (Hpl : length p < CNG_PATH_MAX) (Hlong : HOST_SZ <= length hr)
    (Hm : mount_of_1 G (chroot_1 fs root hr) p = MRootfs)
    (Hd : cng_path_wants_dir p = false) (Hh : host_proc_hidden G p = false) :
  f_rootfs (chroot_1 fs root hr) = [] /\
  translate_mnt_1 G (chroot_1 fs root hr) p CNG_PATH_MAX = Some (p, MRootfs).
Proof.
  assert (E : f_rootfs (chroot_1 fs root hr) = []).
  { unfold chroot_1. rewrite (canon_fixed root) by done. cbn [f_rootfs].
    unfold normalize_root, strlcpy. by rewrite (proj2 (Nat.leb_le _ _)). }
  split; [done|]. rewrite translate_unfold.
  assert (Ea : abscanon_1 (chroot_1 fs root hr) p CNG_PATH_MAX = Some p).
  { unfold abscanon_1. destruct (canonical_absolute p Hp) as [r Er].
    replace (char_is p 0 SLASH) with true by (subst; reflexivity).
    unfold strlcpy. rewrite (proj2 (Nat.leb_gt _ _)) by done.
    rewrite take_ge by lia. cbn [mbind option_bind]. by apply canon_fixed. }
  rewrite Ea. cbn [mbind option_bind]. rewrite Hm. cbn [mount_fill].
  rewrite E, (proj2 (join_checked_Some [] p CNG_PATH_MAX p)) by done.
  cbn [mbind option_bind]. by rewrite Hh, Hd.
Qed.

(** A directory 60 levels of 9-byte names deep, a name the guest can make. *)
Definition deep_dir : cstr := concat (replicate 60 (cs "/deeeeeeep")).

Lemma chroot_overlong_root_is_host_root_witness :
  f_rootfs (chroot_1 fs0 deep_dir (cs "/data/rootfs" ++ deep_dir)) = [] /\
  translate_mnt_1 genv0 (chroot_1 fs0 deep_dir (cs "/data/rootfs" ++ deep_dir))
    (cs "/data/secret") CNG_PATH_MAX = Some (cs "/data/secret", MRootfs).
Proof.
  apply (chroot_overlong_root_is_host_root genv0 fs0 deep_dir (cs "/data/secret")
           (cs "/data/rootfs" ++ deep_dir) fs0_wf).
  - apply canonical_by_canon. vm_compute. reflexivity.
  - apply Nat.ltb_lt. vm_compute. reflexivity.
  - apply canonical_by_canon. vm_compute. reflexivity.
  - apply Nat.ltb_lt. vm_compute. reflexivity.
  - apply Nat.leb_le. vm_compute. reflexivity.
  - vm_compute. reflexivity.
  - vm_compute. reflexivity.
  - vm_compute. reflexivity.
Defined.
