(* ===== verification/IpcData.v ===== *)
(** * The System V IPC registry: data (src/src/monitor/ipcreg.c)

    The broker daemon's semaphore sets, SEM_UNDO rows, message queues and
    parked waiters, as one record the operations of [IpcOps] pass along.  The
    tables are arrays of slots, [None] where the C slot's [used] is 0; a loop
    over a table's indices is a recursion over its list.  Vectors and messages
    the C code takes from the arena are values here, and what the host answers
    to an allocation is [i_mem]: one entry per allocation, used up in order,
    with every allocation after the last one granted. *)

From stdpp Require Import base list strings gmap numbers.
From Stdlib Require Import ZArith Lia.
From S2P Require Import Prelude.

Open Scope Z_scope.

Definition EPERM := 1.
Definition ENOENT := 2.
Definition EINTR := 4.
Definition E2BIG := 7.
Definition EAGAIN := 11.
Definition ENOMEM := 12.
Definition EACCES := 13.
Definition EFAULT := 14.
Definition EEXIST := 17.
Definition EINVAL := 22.
Definition EFBIG := 27.
Definition ENOSPC := 28.
Definition ERANGE := 34.
Definition ENOSYS := 38.
Definition ENOMSG := 42.
Definition EIDRM := 43.

Definition CNG_IPC_CREAT := 512.   (* 01000 *)
Definition CNG_IPC_EXCL := 1024.   (* 02000 *)
Definition CNG_IPC_NOWAIT := 2048. (* 04000 *)
Definition CNG_SEM_UNDO := 4096.   (* 0x1000 *)
Definition CNG_MSG_NOERROR := 4096. (* 010000 *)
Definition CNG_MSG_EXCEPT := 8192.  (* 020000 *)
Definition CNG_SEMVMX := 32767.
Definition CNG_SEMAEM := 32767.
Definition CNG_SEMMSL := 32000.
Definition CNG_SEMOPM := 500.
Definition CNG_MSGMAX := 8192.
Definition CNG_MSGMNB := 16384.
Definition SEM_SET_MAX : nat := 1024.
Definition MSG_QUEUE_MAX : nat := 1024.
Definition SEM_UNDO_MAX : nat := 4096.
Definition IPC_WAITER_MAX : nat := 512.

Definition CNG_IPC_RMID := 0.
Definition CNG_IPC_SET := 1.
Definition CNG_IPC_STAT := 2.
Definition CNG_IPC_INFO := 3.
Definition CNG_GETPID := 11.
Definition CNG_GETVAL := 12.
Definition CNG_GETALL := 13.
Definition CNG_GETNCNT := 14.
Definition CNG_GETZCNT := 15.
Definition CNG_SETVAL := 16.
Definition CNG_SETALL := 17.
Definition CNG_SEM_STAT := 18.
Definition CNG_SEM_INFO := 19.
Definition CNG_SEM_STAT_ANY := 20.
Definition BROKER_SEMNSEMS := -100.
Definition CNG_MSG_STAT := 11.
Definition CNG_MSG_INFO := 12.
Definition CNG_MSG_STAT_ANY := 13.

(** [x & flag], as a condition. *)
Definition has_flag (x flag : Z) : bool := negb (Z.land x flag =? 0).

Record sem_set := SemSet {
  ss_semid : Z; ss_key : Z;
  ss_nsems : nat;
  ss_mode : Z;
  ss_uid : Z; ss_gid : Z; ss_cuid : Z; ss_cgid : Z;
  ss_otime : Z; ss_ctime : Z;
  ss_val : list Z;
  ss_lpid : list Z;
  ss_cpid : Z; ss_tpid : Z }.

Record sem_undo := SemUndo {
  u_pid : Z;
  u_start : Z;
  u_semid : Z;
  u_adj : list Z }.

Record gmsg := GMsg { m_type : Z; m_size : Z; m_data : list Z }.

(** [q_msgs] is the list from [head] to [tail]. *)
Record msg_q := MsgQ {
  q_msqid : Z; q_key : Z;
  q_mode : Z;
  q_uid : Z; q_gid : Z; q_cuid : Z; q_cgid : Z;
  q_stime : Z; q_rtime : Z; q_ctime : Z;
  q_cbytes : Z; q_qnum : Z; q_qbytes : Z;
  q_lspid : Z; q_lrpid : Z;
  q_cpid : Z; q_tpid : Z;
  q_msgs : list gmsg }.

Record cng_sembuf := Sembuf { sem_num : Z; sem_op : Z; sem_flg : Z }.

(** The requests [cng_ipc_serve] knows; any other number is [REQ_OTHER]. *)
Inductive req :=
  | REQ_SEMGET | REQ_SEMOP | REQ_SEMCTL
  | REQ_MSGGET | REQ_MSGSND | REQ_MSGRCV | REQ_MSGCTL | REQ_OTHER.

Definition req_eqb (a b : req) : bool :=
  match a, b with
  | REQ_SEMGET, REQ_SEMGET | REQ_SEMOP, REQ_SEMOP | REQ_SEMCTL, REQ_SEMCTL
  | REQ_MSGGET, REQ_MSGGET | REQ_MSGSND, REQ_MSGSND | REQ_MSGRCV, REQ_MSGRCV
  | REQ_MSGCTL, REQ_MSGCTL | REQ_OTHER, REQ_OTHER => true
  | _, _ => false
  end.

Record waiter := Waiter {
  w_cfd : Z;
  w_op : req;
  w_id : Z;
  w_pid : Z;
  w_start : Z;
  w_seq : Z;
  w_deadline_ms : Z;
  w_sops : list cng_sembuf; (* [w_nsops] is its length *)
  w_blk : nat;
  w_msg : option gmsg;
  w_msgtyp : Z;
  w_msgsz : Z;
  w_msgflg : Z }.

Record cng_breq := BReq {
  rq_op : req; rq_key : Z; rq_size : Z; rq_id : Z; rq_arg : Z; rq_pid : Z;
  rq_uid : Z; rq_gid : Z; rq_set_mode : Z; rq_set_uid : Z; rq_set_gid : Z;
  rq_semnum : Z; rq_val : Z; rq_mtype : Z; rq_timeout_ns : Z }.

Record cng_bresp := BResp {
  r_ret : Z; r_key : Z; r_size : Z; r_nattch : Z;
  r_mode : Z; r_uid : Z; r_gid : Z; r_cuid : Z; r_cgid : Z;
  r_cpid : Z; r_lpid : Z; r_atime : Z; r_dtime : Z; r_ctime : Z;
  r_info_used : Z; r_info_tot : Z; r_cbytes : Z; r_mtype : Z }.

Definition resp0 : cng_bresp := BResp 0 0 0 0 0 0 0 0 0 0 0 0 0 0 0 0 0 0.
Definition resp_ret (z : Z) (r : cng_bresp) : cng_bresp :=
  BResp z (r_key r) (r_size r) (r_nattch r) (r_mode r) (r_uid r) (r_gid r)
    (r_cuid r) (r_cgid r) (r_cpid r) (r_lpid r) (r_atime r) (r_dtime r)
    (r_ctime r) (r_info_used r) (r_info_tot r) (r_cbytes r) (r_mtype r).
Definition resp_msg (n mtype : Z) : cng_bresp :=
  BResp n 0 0 0 0 0 0 0 0 0 0 0 0 0 0 0 0 mtype.

(** What the daemon sends on a connection: a reply with the payload that
    follows it, or the close of the connection. *)
Inductive event :=
  | EReply (cfd : Z) (r : cng_bresp) (payload : list Z)
  | EClose (cfd : Z).

(** The daemon's surroundings at one turn: the two clocks, the start time of a
    pid (0 where there is none) and its zombie verdict, and whether a send on a
    connection goes through. *)
Record env := Env {
  e_now_sec : Z;
  e_mono_ms : Z;
  e_start : Z -> Z;
  e_zombie : Z -> bool;
  e_send_ok : Z -> bool }.

Record ipc := Ipc {
  i_tab : bool; (* the tables are mapped *)
  i_sem : list (option sem_set);
  i_undo : list (option sem_undo);
  i_msq : list (option msg_q);
  i_wait : list (option waiter);
  i_next_semid : Z;
  i_next_msqid : Z;
  i_wait_seq : Z;
  i_nwait : Z;
  i_nundo : Z;
  i_mem : list bool;
  i_out : list event }.

Definition ipc0 (mem : list bool) : ipc :=
  Ipc false [] [] [] [] 1 1 1 0 0 mem [].

(** ** Field updates *)

Definition set_sem (x : list (option sem_set)) (s : ipc) : ipc :=
  Ipc (i_tab s) x (i_undo s) (i_msq s) (i_wait s) (i_next_semid s)
    (i_next_msqid s) (i_wait_seq s) (i_nwait s) (i_nundo s) (i_mem s) (i_out s).
Definition set_undo (x : list (option sem_undo)) (n : Z) (s : ipc) : ipc :=
  Ipc (i_tab s) (i_sem s) x (i_msq s) (i_wait s) (i_next_semid s)
    (i_next_msqid s) (i_wait_seq s) (i_nwait s) n (i_mem s) (i_out s).
Definition set_msq (x : list (option msg_q)) (s : ipc) : ipc :=
  Ipc (i_tab s) (i_sem s) (i_undo s) x (i_wait s) (i_next_semid s)
    (i_next_msqid s) (i_wait_seq s) (i_nwait s) (i_nundo s) (i_mem s) (i_out s).
Definition set_wait (x : list (option waiter)) (n : Z) (s : ipc) : ipc :=
  Ipc (i_tab s) (i_sem s) (i_undo s) (i_msq s) x (i_next_semid s)
    (i_next_msqid s) (i_wait_seq s) n (i_nundo s) (i_mem s) (i_out s).
Definition set_next_semid (x : Z) (s : ipc) : ipc :=
  Ipc (i_tab s) (i_sem s) (i_undo s) (i_msq s) (i_wait s) x
    (i_next_msqid s) (i_wait_seq s) (i_nwait s) (i_nundo s) (i_mem s) (i_out s).
Definition set_next_msqid (x : Z) (s : ipc) : ipc :=
  Ipc (i_tab s) (i_sem s) (i_undo s) (i_msq s) (i_wait s) (i_next_semid s)
    x (i_wait_seq s) (i_nwait s) (i_nundo s) (i_mem s) (i_out s).
Definition set_wait_seq (x : Z) (s : ipc) : ipc :=
  Ipc (i_tab s) (i_sem s) (i_undo s) (i_msq s) (i_wait s) (i_next_semid s)
    (i_next_msqid s) x (i_nwait s) (i_nundo s) (i_mem s) (i_out s).
Definition set_mem (x : list bool) (s : ipc) : ipc :=
  Ipc (i_tab s) (i_sem s) (i_undo s) (i_msq s) (i_wait s) (i_next_semid s)
    (i_next_msqid s) (i_wait_seq s) (i_nwait s) (i_nundo s) x (i_out s).
Definition emit (e : event) (s : ipc) : ipc :=
  Ipc (i_tab s) (i_sem s) (i_undo s) (i_msq s) (i_wait s) (i_next_semid s)
    (i_next_msqid s) (i_wait_seq s) (i_nwait s) (i_nundo s) (i_mem s)
    (i_out s ++ [e]).

(** ** Slots *)

Section Slots.
Context {A : Type}.
Implicit Types (l : list (option A)) (p : A -> bool).

(** The first used slot that satisfies [p]. *)
Fixpoint find_used p l : option (nat * A) :=
  match l with
  | [] => None
  | Some x :: l' =>
      if p x then Some (O, x)
      else match find_used p l' with
           | Some (k, y) => Some (S k, y) | None => None end
  | None :: l' =>
      match find_used p l' with
      | Some (k, y) => Some (S k, y) | None => None end
  end.

(** The first free slot. *)
Fixpoint find_free l : option nat :=
  match l with
  | [] => None
  | None :: _ => Some O
  | Some _ :: l' => S <$> find_free l'
  end.

(** How many slots are used. *)
Fixpoint count_used l : nat :=
  match l with
  | [] => O
  | Some _ :: l' => S (count_used l')
  | None :: l' => count_used l'
  end.

Lemma find_used_Some p l k x :
  find_used p l = Some (k, x) ->
  l !! k = Some (Some x) /\ p x = true /\
  forall j y, (j < k)%nat -> l !! j = Some (Some y) -> p y = false.
Proof.
  revert k. induction l as [|[z|] l IH]; intros k; simpl; [done| |].
  - destruct (p z) eqn:Ep.
    + intros [= <- <-]. split; [done|]. split; [done|]. intros; lia.
    + destruct (find_used p l) as [[k' y']|]; [|done].
      intros [= <- <-]. destruct (IH k' eq_refl) as (H1 & H2 & H3).
      split; [done|]. split; [done|]. intros [|j] y Hj Hl; [|by eapply H3; [|done]; lia].
      simpl in Hl. congruence.
  - destruct (find_used p l) as [[k' y']|]; [|done].
    intros [= <- <-]. destruct (IH k' eq_refl) as (H1 & H2 & H3).
    split; [done|]. split; [done|]. intros [|j] y Hj Hl; [done|].
    eapply H3; [|done]. lia.
Qed.

Lemma find_used_None p l k x :
  find_used p l = None -> l !! k = Some (Some x) -> p x = false.
Proof.
  revert k. induction l as [|[z|] l IH]; intros k; simpl; [done| |].
  - destruct (p z) eqn:Ep; [done|].
    destruct (find_used p l) as [[k' y']|] eqn:E; [done|]. intros _.
    destruct k; simpl; [intros; simplify_eq; done|]. by apply IH.
  - destruct (find_used p l) as [[k' y']|] eqn:E; [done|]. intros _.
    destruct k; simpl; [done|]. by apply IH.
Qed.

Lemma find_free_Some l k :
  find_free l = Some k -> l !! k = Some None.
Proof.
  revert k. induction l as [|[z|] l IH]; intros k; simpl; [done| |].
  - destruct (find_free l) as [k'|]; simpl; [|done]. intros [= <-]. by apply IH.
  - by intros [= <-].
Qed.

Lemma find_free_None l k : find_free l = None -> l !! k <> Some None.
Proof.
  revert k. induction l as [|[z|] l IH]; intros k; simpl; [done| |done].
  destruct (find_free l) as [k'|]; simpl; [done|]. intros _.
  destruct k; simpl; [done|]. by apply IH.
Qed.

Lemma find_free_count l :
  (count_used l < length l)%nat <-> is_Some (find_free l).
Proof.
  induction l as [|[z|] l IH]; simpl.
  - split; [lia|]. by intros [? ?].
  - rewrite fmap_is_Some, <-IH. lia.
  - split; [by eauto|]. intros _. clear. induction l as [|[]]; simpl in *; lia.
Qed.

Lemma count_used_le l : (count_used l <= length l)%nat.
Proof. induction l as [|[z|] l IH]; simpl; lia. Qed.

(** A write to a slot that [p] does not hold of before or after. *)
Lemma find_used_write_other p l k o o' :
  l !! k = Some o -> (forall y, o = Some y -> p y = false) ->
  (forall y, o' = Some y -> p y = false) ->
  find_used p (<[k := o']> l) = find_used p l.
Proof.
  intros H Ho Ho'. revert k H.
  induction l as [|c l IH]; intros [|k]; simpl; intros H; simplify_eq.
  - destruct o as [y|], o' as [y'|]; simpl;
      try rewrite (Ho _ eq_refl); try rewrite (Ho' _ eq_refl); done.
  - specialize (IH k H). destruct c as [z|]; [destruct (p z)|]; simpl; by rewrite ?IH.
Qed.

(** A write of the first slot that [p] holds of. *)
Lemma find_used_write_here p l k x :
  p x = true -> (k < length l)%nat ->
  (forall j y, (j < k)%nat -> l !! j = Some (Some y) -> p y = false) ->
  find_used p (<[k := Some x]> l) = Some (k, x).
Proof.
  intros Hx. revert k. induction l as [|c l IH]; intros k Hk Hj; simpl in *; [lia|].
  destruct k as [|k]; simpl; [by rewrite Hx|]. rewrite IH; [|lia|].
  - destruct c as [z|]; [|done]. by rewrite (Hj 0%nat z) by (lia || done).
  - intros j y Hjk Hl. apply (Hj (S j)); [lia|done].
Qed.

Lemma find_used_unique p l k x :
  l !! k = Some (Some x) -> p x = true ->
  (forall j y, l !! j = Some (Some y) -> p y = true -> j = k) ->
  find_used p l = Some (k, x).
Proof.
  intros Hk Hp Hu. destruct (find_used p l) as [[j y]|] eqn:E.
  - apply find_used_Some in E as (Hj & Hy & _).
    pose proof (Hu j y Hj Hy). subst j. congruence.
  - by rewrite (find_used_None _ _ _ _ E Hk) in Hp.
Qed.

(** Filling a free slot, and emptying a used one. *)
Lemma count_used_fill l k x :
  l !! k = Some None -> count_used (<[k := Some x]> l) = S (count_used l).
Proof.
  revert k. induction l as [|[z|] l IH]; intros [|k]; simpl; intros H;
    simplify_eq; auto.
Qed.

Lemma count_used_clear l k x :
  l !! k = Some (Some x) -> S (count_used (<[k := None]> l)) = count_used l.
Proof.
  revert k. induction l as [|[z|] l IH]; intros [|k]; simpl; intros H;
    simplify_eq; auto.
Qed.

Lemma count_used_replace l k x y :
  l !! k = Some (Some x) -> count_used (<[k := Some y]> l) = count_used l.
Proof.
  revert k. induction l as [|[z|] l IH]; intros [|k]; simpl; intros H;
    simplify_eq; auto.
Qed.
End Slots.
