(* ===== verification/IpcOps.v ===== *)
(** * The System V IPC registry: operations (src/src/monitor/ipcreg.c)

    One definition per function of ipcreg.c, composed as the C code composes
    them.  [E] is what the daemon sees of its surroundings during one turn of
    the poll loop. *)

From stdpp Require Import base list strings gmap numbers.
From Stdlib Require Import ZArith Lia.
From S2P Require Import Prelude IpcData.

Open Scope Z_scope.

(** ** State passing *)

Definition M (A : Type) : Type := ipc -> A * ipc.

#[export] Instance M_ret : MRet M := fun A a s => (a, s).
#[export] Instance M_bind : MBind M :=
  fun A B f m s => let '(a, s') := m s in f a s'.

Definition get {A} (f : ipc -> A) : M A := fun s => (f s, s).
Definition modify (f : ipc -> ipc) : M unit := fun s => (tt, f s).

Section Ops.
Context (E : env).

(** The host's answer to one allocation. *)
Definition arena_alloc : M bool := fun s =>
  match i_mem s with
  | [] => (true, s)
  | b :: mem => (b, set_mem mem s)
  end.

Definition tables : M bool := fun s =>
  if i_tab s then (true, s)
  else
    let '(ok, s) := arena_alloc s in
    if ok then
      (true, Ipc true (replicate SEM_SET_MAX None) (replicate SEM_UNDO_MAX None)
               (replicate MSG_QUEUE_MAX None) (replicate IPC_WAITER_MAX None)
               (i_next_semid s) (i_next_msqid s) (i_wait_seq s) (i_nwait s)
               (i_nundo s) (i_mem s) (i_out s))
    else (false, s).

(** ** Lookup and permissions *)

Definition sem_find (s : ipc) (semid : Z) : option (nat * sem_set) :=
  if (semid <=? 0) || negb (i_tab s) then None
  else find_used (fun x => ss_semid x =? semid) (i_sem s).

Definition msg_find (s : ipc) (msqid : Z) : option (nat * msg_q) :=
  if (msqid <=? 0) || negb (i_tab s) then None
  else find_used (fun x => q_msqid x =? msqid) (i_msq s).

Definition ipc_access (mode ouid cuid ogid cgid uid gid need : Z) : bool :=
  if uid =? 0 then true
  else
    let m := if (uid =? ouid) || (uid =? cuid) then Z.shiftr mode 6
             else if (gid =? ogid) || (gid =? cgid) then Z.shiftr mode 3
             else mode in
    Z.land (Z.land m need) 7 =? need.

Definition ipc_owner (ouid cuid uid : Z) : bool :=
  (uid =? 0) || (uid =? ouid) || (uid =? cuid).

Definition sem_access (x : sem_set) (q : cng_breq) (need : Z) : bool :=
  ipc_access (ss_mode x) (ss_uid x) (ss_cuid x) (ss_gid x) (ss_cgid x)
    (rq_uid q) (rq_gid q) need.

Definition msg_access (x : msg_q) (q : cng_breq) (need : Z) : bool :=
  ipc_access (q_mode x) (q_uid x) (q_cuid x) (q_gid x) (q_cgid x)
    (rq_uid q) (rq_gid q) need.

(** The id loop of [sem_alloc_id] and [msg_alloc_id]: the id and the next
    value of the counter. *)
Fixpoint alloc_id_loop (taken : Z -> bool) (tries : nat) (next : Z) : Z * Z :=
  match tries with
  | O => (-1, next)
  | S tries =>
      let id := next in
      let nx := s32 (next + 1) in
      let nx := if nx <=? 0 then 1 else nx in
      if (0 <? id) && negb (taken id) then (id, nx)
      else alloc_id_loop taken tries nx
  end.

Definition sem_alloc_id : M Z := fun s =>
  let '(id, nx) := alloc_id_loop (fun id => bool_decide (is_Some (sem_find s id)))
                     (SEM_SET_MAX * 4) (i_next_semid s) in
  (id, set_next_semid nx s).

Definition msg_alloc_id : M Z := fun s =>
  let '(id, nx) := alloc_id_loop (fun id => bool_decide (is_Some (msg_find s id)))
                     (MSG_QUEUE_MAX * 4) (i_next_msqid s) in
  (id, set_next_msqid nx s).

(** ** SEM_UNDO *)

Definition undo_is (pid semid : Z) (u : sem_undo) : bool :=
  (u_pid u =? pid) && (u_semid u =? semid).

(** The row of (pid, set) and its vector, made on demand. *)
Definition sem_undo_find (pid semid : Z) (nsems : nat) (create : bool)
    : M (option (nat * list Z)) := fun s =>
  match find_used (undo_is pid semid) (i_undo s) with
  | Some (k, u) => (Some (k, u_adj u), s)
  | None =>
      match find_free (i_undo s) with
      | Some slot =>
          if create then
            let '(ok, s) := arena_alloc s in
            if ok then
              let adj := replicate nsems 0 in
              (Some (slot, adj),
               set_undo (<[slot := Some (SemUndo pid (e_start E pid) semid adj)]>
                           (i_undo s)) (i_nundo s + 1) s)
            else (None, s)
          else (None, s)
      | None => (None, s)
      end
  end.

Definition sem_undo_free (k : nat) : M unit :=
  modify (fun s => set_undo (<[k := None]> (i_undo s)) (i_nundo s - 1) s).

Definition clear_row (nsems : nat) (semid semnum : Z) (o : option sem_undo)
    : option sem_undo :=
  match o with
  | Some u =>
      if u_semid u =? semid then
        if semnum <? 0
        then Some (SemUndo (u_pid u) (u_start u) (u_semid u)
                     (replicate nsems 0 ++ drop nsems (u_adj u)))
        else if semnum <? Z.of_nat nsems
        then Some (SemUndo (u_pid u) (u_start u) (u_semid u)
                     (<[Z.to_nat semnum := 0]> (u_adj u)))
        else o
      else o
  | None => None
  end.

Definition sem_undo_clear (semid semnum : Z) : M unit :=
  modify (fun s =>
    match sem_find s semid with
    | Some (_, x) =>
        set_undo (map (clear_row (ss_nsems x) semid semnum) (i_undo s))
          (i_nundo s) s
    | None => s
    end).

(** The values, the pids and whether any was touched. *)
Fixpoint apply_adj (val lpid adj : list Z) (pid : Z)
    : list Z * list Z * bool :=
  match val, lpid, adj with
  | v :: val', l :: lpid', a :: adj' =>
      let '(vs, ls, t) := apply_adj val' lpid' adj' pid in
      if a =? 0 then (v :: vs, l :: ls, t)
      else
        let v := v + a in
        let v := if v <? 0 then 0 else v in
        let v := if CNG_SEMVMX <? v then CNG_SEMVMX else v in
        (u16 v :: vs, pid :: ls, true)
  | _, _, _ => (val, lpid, false)
  end.

Definition set_vals (x : sem_set) (val lpid : list Z) (otime ctime tpid : Z)
    : sem_set :=
  SemSet (ss_semid x) (ss_key x) (ss_nsems x) (ss_mode x) (ss_uid x) (ss_gid x)
    (ss_cuid x) (ss_cgid x) otime ctime val lpid (ss_cpid x) tpid.

Definition put_sem (k : nat) (x : sem_set) (s : ipc) : ipc :=
  set_sem (<[k := Some x]> (i_sem s)) s.

Definition sem_undo_apply (k : nat) (u : sem_undo) : M unit := fun s =>
  let s :=
    match sem_find s (u_semid u) with
    | Some (j, x) =>
        let '(val, lpid, touched) := apply_adj (ss_val x) (ss_lpid x) (u_adj u) (u_pid u) in
        put_sem j (set_vals x val lpid
                     (if touched then e_now_sec E else ss_otime x)
                     (ss_ctime x) (ss_tpid x)) s
    | None => s
    end in
  sem_undo_free k s.

(** The holder of a row is gone: another incarnation, or a zombie. *)
Definition dead (pid start : Z) : bool :=
  negb (e_start E pid =? start) || e_zombie E pid.

(** The loop of [sem_reclaim_set] ([only = Some semid]) and of
    [cng_ipc_reclaim] ([None]) over the rows, from index [i]: each iteration
    writes its own row and the sets, so the rows ahead are those of the start.
    The result says whether any row was applied. *)
Fixpoint reclaim_rows (only : option Z) (rows : list (option sem_undo))
    (i : nat) (applied : bool) : M bool :=
  match rows with
  | [] => mret applied
  | Some u :: rows' =>
      if match only with Some semid => u_semid u =? semid | None => true end
         && dead (u_pid u) (u_start u)
      then _ ← sem_undo_apply i u; reclaim_rows only rows' (S i) true
      else reclaim_rows only rows' (S i) applied
  | None :: rows' => reclaim_rows only rows' (S i) applied
  end.

Definition sem_reclaim_set (x : sem_set) : M unit := fun s =>
  if i_nundo s =? 0 then (tt, s)
  else (tt, (reclaim_rows (Some (ss_semid x)) (i_undo s) 0 false s).2).

(** The rows of one set are freed in one pass. *)
Fixpoint free_rows (semid : Z) (rows : list (option sem_undo)) (n : Z)
    : list (option sem_undo) * Z :=
  match rows with
  | [] => ([], n)
  | Some u :: rows' =>
      if u_semid u =? semid
      then let '(r, n) := free_rows semid rows' (n - 1) in (None :: r, n)
      else let '(r, n) := free_rows semid rows' n in (Some u :: r, n)
  | None :: rows' =>
      let '(r, n) := free_rows semid rows' n in (None :: r, n)
  end.

Definition sem_free_set (k : nat) (x : sem_set) : M unit :=
  modify (fun s =>
    let '(rows, n) := free_rows (ss_semid x) (i_undo s) (i_nundo s) in
    set_sem (<[k := None]> (i_sem s)) (set_undo rows n s)).

Definition msg_free_queue (k : nat) : M unit :=
  modify (fun s => set_msq (<[k := None]> (i_msq s)) s).

(** ** The semop core *)

Record try_state := TryState {
  t_res : Z;    (* 0, 1 (would block) or -errno *)
  t_i : nat;    (* where the loop stopped *)
  t_val : list Z;
  t_u : option (nat * list Z); (* the undo row in use, and its vector *)
  t_st : ipc }.

Fixpoint try_loop (pid semid : Z) (nsems : nat) (ops : list cng_sembuf)
    (i : nat) (val : list Z) (u : option (nat * list Z)) (s : ipc) : try_state :=
  match ops with
  | [] => TryState 0 i val u s
  | op :: ops' =>
      let n := Z.to_nat (sem_num op) in
      let v := val !!! n + sem_op op in
      if ((sem_op op =? 0) && negb (val !!! n =? 0)) || (v <? 0) then
        TryState (if has_flag (sem_flg op) CNG_IPC_NOWAIT then - EAGAIN else 1)
          i val u s
      else if CNG_SEMVMX <? v then TryState (- ERANGE) i val u s
      else if has_flag (sem_flg op) CNG_SEM_UNDO then
        let '(u, s) := match u with
                       | Some _ => (u, s)
                       | None => sem_undo_find pid semid nsems true s
                       end in
        match u with
        | None => TryState (- ENOMEM) i val None s
        | Some (k, adj) =>
            let a := adj !!! n - sem_op op in
            if (a <? - CNG_SEMAEM - 1) || (CNG_SEMAEM <? a)
            then TryState (- ERANGE) i val u s
            else try_loop pid semid nsems ops' (S i) (<[n := u16 v]> val)
                   (Some (k, <[n := s16 a]> adj)) s
        end
      else try_loop pid semid nsems ops' (S i) (<[n := u16 v]> val) u s
  end.

(** [while (i--)]: the applied prefix, last operation first. *)
Fixpoint rollback (rops : list cng_sembuf) (val : list Z)
    (u : option (nat * list Z)) : list Z * option (nat * list Z) :=
  match rops with
  | [] => (val, u)
  | op :: rops' =>
      let n := Z.to_nat (sem_num op) in
      let val := <[n := u16 (val !!! n - sem_op op)]> val in
      let u := match u with
               | Some (k, adj) =>
                   if has_flag (sem_flg op) CNG_SEM_UNDO
                   then Some (k, <[n := s16 (adj !!! n + sem_op op)]> adj)
                   else u
               | None => None
               end in
      rollback rops' val u
  end.

(** The row in use, written back. *)
Definition put_adj (u : option (nat * list Z)) (s : ipc) : ipc :=
  match u with
  | Some (k, adj) =>
      match i_undo s !! k with
      | Some (Some r) =>
          set_undo (<[k := Some (SemUndo (u_pid r) (u_start r) (u_semid r) adj)]>
                      (i_undo s)) (i_nundo s) s
      | _ => s
      end
  | None => s
  end.

Definition stamp (pid : Z) (ops : list cng_sembuf) (lpid : list Z) : list Z :=
  fold_left (fun l op => <[Z.to_nat (sem_num op) := pid]> l) ops lpid.

(** The answer and the index that blocked ([blk] where none did); [k] is the
    slot of the set [x]. *)
Definition sem_try_op (k : nat) (x : sem_set) (sops : list cng_sembuf)
    (pid : Z) (blk : nat) : M (Z * nat) := fun s =>
  if existsb (fun op => Z.of_nat (ss_nsems x) <=? sem_num op) sops
  then ((- EFBIG, blk), s)
  else
    let t := try_loop pid (ss_semid x) (ss_nsems x) sops 0 (ss_val x) None s in
    if negb (t_res t =? 0) then
      let '(val, u) := rollback (rev (take (t_i t) sops)) (t_val t) (t_u t) in
      ((t_res t, if t_res t =? 1 then t_i t else blk),
       put_sem k (set_vals x val (ss_lpid x) (ss_otime x) (ss_ctime x) (ss_tpid x))
         (put_adj u (t_st t)))
    else
      ((0, blk),
       put_sem k (set_vals x (t_val t) (stamp pid sops (ss_lpid x))
                    (e_now_sec E) (ss_ctime x) pid)
         (put_adj (t_u t) (t_st t))).

(** ** get *)

Definition sem_do_get (q : cng_breq) : M Z := fun s =>
  let nsems := rq_size q in
  let create s :=
    if (nsems =? 0) || (CNG_SEMMSL <? nsems) then (- EINVAL, s)
    else match find_free (i_sem s) with
    | None => (- ENOSPC, s)
    | Some slot =>
        let '(id, s) := sem_alloc_id s in
        if id <? 0 then (- ENOSPC, s)
        else
          let '(ok1, s) := arena_alloc s in
          let '(ok2, s) := arena_alloc s in
          if negb (ok1 && ok2) then (- ENOMEM, s)
          else
            let n := Z.to_nat nsems in
            (id, put_sem slot
                   (SemSet id (rq_key q) n (Z.land (rq_arg q) 511)
                      (rq_uid q) (rq_gid q) (rq_uid q) (rq_gid q) 0 (e_now_sec E)
                      (replicate n 0) (replicate n 0) (rq_pid q) (rq_pid q)) s)
    end in
  if negb (rq_key q =? 0) then
    match find_used (fun x => ss_key x =? rq_key q) (i_sem s) with
    | Some (k, x) =>
        if has_flag (rq_arg q) CNG_IPC_CREAT && has_flag (rq_arg q) CNG_IPC_EXCL
        then (- EEXIST, s)
        else if negb (nsems =? 0) && (Z.of_nat (ss_nsems x) <? nsems)
        then (- EINVAL, s)
        else if negb (sem_access x q 4) then (- EACCES, s)
        else (ss_semid x,
              put_sem k (set_vals x (ss_val x) (ss_lpid x) (ss_otime x)
                           (ss_ctime x) (rq_pid q)) s)
    | None =>
        if negb (has_flag (rq_arg q) CNG_IPC_CREAT) then (- ENOENT, s)
        else create s
    end
  else create s.

Definition put_msq (k : nat) (x : msg_q) (s : ipc) : ipc :=
  set_msq (<[k := Some x]> (i_msq s)) s.

Definition set_queue (x : msg_q) (msgs : list gmsg) (cbytes qnum : Z)
    (stime rtime lspid lrpid tpid : Z) : msg_q :=
  MsgQ (q_msqid x) (q_key x) (q_mode x) (q_uid x) (q_gid x) (q_cuid x)
    (q_cgid x) stime rtime (q_ctime x) cbytes qnum (q_qbytes x) lspid lrpid
    (q_cpid x) tpid msgs.

Definition msg_do_get (q : cng_breq) : M Z := fun s =>
  let create s :=
    match find_free (i_msq s) with
    | None => (- ENOSPC, s)
    | Some slot =>
        let '(id, s) := msg_alloc_id s in
        if id <? 0 then (- ENOSPC, s)
        else (id, put_msq slot
                    (MsgQ id (rq_key q) (Z.land (rq_arg q) 511)
                       (rq_uid q) (rq_gid q) (rq_uid q) (rq_gid q) 0 0
                       (e_now_sec E) 0 0 CNG_MSGMNB 0 0 (rq_pid q) (rq_pid q) []) s)
    end in
  if negb (rq_key q =? 0) then
    match find_used (fun x => q_key x =? rq_key q) (i_msq s) with
    | Some (k, x) =>
        if has_flag (rq_arg q) CNG_IPC_CREAT && has_flag (rq_arg q) CNG_IPC_EXCL
        then (- EEXIST, s)
        else if negb (msg_access x q 4) then (- EACCES, s)
        else (q_msqid x,
              put_msq k (set_queue x (q_msgs x) (q_cbytes x) (q_qnum x)
                           (q_stime x) (q_rtime x) (q_lspid x) (q_lrpid x)
                           (rq_pid q)) s)
    | None =>
        if negb (has_flag (rq_arg q) CNG_IPC_CREAT) then (- ENOENT, s)
        else create s
    end
  else create s.

(** ** The message queue *)

Definition LONG_MIN := - 2 ^ 63.
Definition LONG_MAX := 2 ^ 63 - 1.

Definition msg_matches (m : gmsg) (msgtyp msgflg : Z) : bool :=
  if msgtyp =? 0 then true
  else if 0 <? msgtyp then
    if has_flag msgflg CNG_MSG_EXCEPT then negb (m_type m =? msgtyp)
    else m_type m =? msgtyp
  else
    let limit := if msgtyp =? LONG_MIN then LONG_MAX else - msgtyp in
    m_type m <=? limit.

(** The walk from the head: [i] is the position, [best] the choice so far. *)
Fixpoint msg_pick_loop (ms : list gmsg) (i : nat) (msgtyp msgflg : Z)
    (best : option (nat * gmsg)) : option (nat * gmsg) :=
  match ms with
  | [] => best
  | m :: ms' =>
      if negb (msg_matches m msgtyp msgflg)
      then msg_pick_loop ms' (S i) msgtyp msgflg best
      else if 0 <=? msgtyp then Some (i, m)
      else match best with
           | Some (_, b) =>
               msg_pick_loop ms' (S i) msgtyp msgflg
                 (if m_type m <? m_type b then Some (i, m) else best)
           | None => msg_pick_loop ms' (S i) msgtyp msgflg (Some (i, m))
           end
  end.

Definition msg_pick (x : msg_q) (msgtyp msgflg : Z) : option (nat * gmsg) :=
  msg_pick_loop (q_msgs x) 0 msgtyp msgflg None.

(** [msg_unlink] with the three stamps its callers make next. *)
Definition msg_unlink (x : msg_q) (i : nat) (m : gmsg) (pid : Z) : msg_q :=
  set_queue x (delete i (q_msgs x)) (u64 (q_cbytes x - m_size m))
    (u64 (q_qnum x - 1)) (q_stime x) (e_now_sec E) (q_lspid x) pid pid.

Definition msg_fits (x : msg_q) (size : Z) : bool :=
  (u64 (q_cbytes x + size) <=? q_qbytes x) && (u64 (q_qnum x + 1) <=? q_qbytes x).

Definition msg_enqueue (x : msg_q) (m : gmsg) (pid : Z) : msg_q :=
  set_queue x (q_msgs x ++ [m]) (u64 (q_cbytes x + m_size m))
    (u64 (q_qnum x + 1)) (e_now_sec E) (q_rtime x) pid (q_lrpid x) pid.

(** ** Parked waiters *)

Definition broker_send (cfd : Z) (r : cng_bresp) (payload : list Z) : M unit :=
  modify (fun s => if e_send_ok E cfd then emit (EReply cfd r payload) s else s).

Definition waiter_free (k : nat) (w : waiter) : M unit :=
  modify (fun s =>
    let s := if 0 <=? w_cfd w then emit (EClose (w_cfd w)) s else s in
    set_wait (<[k := None]> (i_wait s)) (i_nwait s - 1) s).

Definition waiter_reply (k : nat) (w : waiter) (r : cng_bresp)
    (payload : list Z) : M unit :=
  _ ← broker_send (w_cfd w) r payload; waiter_free k w.

Definition park_deadline (timeout_ns : Z) : Z :=
  if 0 <=? timeout_ns then
    let t := if LONG_MAX - 1000000 <? timeout_ns then LONG_MAX - 1000000
             else timeout_ns in
    s64 (e_mono_ms E + (t + 999999) / 1000000)
  else -1.

Definition waiter_park (cfd : Z) (q : cng_breq) (sops : list cng_sembuf)
    (blk : nat) (msg : option gmsg) : M bool := fun s =>
  match find_free (i_wait s) with
  | None => (false, s)
  | Some k =>
      let w := Waiter cfd (rq_op q) (rq_id q) (rq_pid q) (e_start E (rq_pid q))
                 (i_wait_seq s) (park_deadline (rq_timeout_ns q)) sops blk msg
                 (rq_mtype q) (rq_size q) (rq_arg q) in
      (true, set_wait_seq (u64 (i_wait_seq s + 1))
               (set_wait (<[k := Some w]> (i_wait s)) (i_nwait s + 1) s))
  end.

Definition counts_waiter (semid : Z) (semnum : Z) (zero : bool)
    (o : option waiter) : bool :=
  match o with
  | Some w =>
      req_eqb (w_op w) REQ_SEMOP && (w_id w =? semid)
      && match w_sops w !! w_blk w with
         | Some b => (sem_num b =? semnum)
                     && (if zero then sem_op b =? 0 else sem_op b <? 0)
         | None => false
         end
  | None => false
  end.

Definition sem_count_waiters (s : ipc) (semid semnum : Z) (zero : bool) : Z :=
  Z.of_nat (length (List.filter (counts_waiter semid semnum zero) (i_wait s))).

(** The slots of a walk that frees only the slot it is at are those of its
    start: [ws] from index [i]. *)
Fixpoint waiters_eidrm_loop (ws : list (option waiter)) (i : nat) (id : Z)
    (sem : bool) : M unit :=
  match ws with
  | [] => mret tt
  | Some w :: ws' =>
      if (w_id w =? id)
         && (if sem then req_eqb (w_op w) REQ_SEMOP
             else req_eqb (w_op w) REQ_MSGSND || req_eqb (w_op w) REQ_MSGRCV)
      then _ ← waiter_reply i w (resp_ret (- EIDRM) resp0) [];
           waiters_eidrm_loop ws' (S i) id sem
      else waiters_eidrm_loop ws' (S i) id sem
  | None :: ws' => waiters_eidrm_loop ws' (S i) id sem
  end.

Definition waiters_eidrm (id : Z) (sem : bool) : M unit := fun s =>
  waiters_eidrm_loop (i_wait s) 0 id sem s.

Definition min_size (m : gmsg) (room : Z) : Z :=
  if m_size m <=? room then m_size m else room.

Definition msg_grant_rcv (k : nat) (w : waiter) (m : gmsg) : M unit :=
  let n := min_size m (w_msgsz w) in
  waiter_reply k w (resp_msg n (m_type m)) (take (Z.to_nat n) (m_data m)).

(** ** Rescan *)

(** The earliest arrival past [last]: the loop over the slots from index [i]. *)
Fixpoint earliest (last : Z) (ws : list (option waiter)) (i : nat)
    (best : option (nat * waiter)) : option (nat * waiter) :=
  match ws with
  | [] => best
  | Some w :: ws' =>
      let take_it := (last <? w_seq w)
                     && match best with
                        | Some (_, b) => w_seq w <? w_seq b
                        | None => true
                        end in
      earliest last ws' (S i) (if take_it then Some (i, w) else best)
  | None :: ws' => earliest last ws' (S i) best
  end.

Definition set_blk (w : waiter) (blk : nat) : waiter :=
  Waiter (w_cfd w) (w_op w) (w_id w) (w_pid w) (w_start w) (w_seq w)
    (w_deadline_ms w) (w_sops w) blk (w_msg w) (w_msgtyp w) (w_msgsz w)
    (w_msgflg w).

(** One visit: whether it made progress. *)
Definition rescan_visit (k : nat) (w : waiter) : M bool := fun s =>
  match w_op w with
  | REQ_SEMOP =>
      match sem_find s (w_id w) with
      | None =>
          let '(_, s) := waiter_reply k w (resp_ret (- EIDRM) resp0) [] s in
          (true, s)
      | Some (j, x) =>
          let '((t, blk), s) := sem_try_op j x (w_sops w) (w_pid w) (w_blk w) s in
          let w := set_blk w blk in
          let s := set_wait (<[k := Some w]> (i_wait s)) (i_nwait s) s in
          if t =? 1 then (false, s)
          else let '(_, s) := waiter_reply k w (resp_ret t resp0) [] s in (true, s)
      end
  | REQ_MSGSND =>
      match msg_find s (w_id w), w_msg w with
      | None, _ =>
          let '(_, s) := waiter_reply k w (resp_ret (- EIDRM) resp0) [] s in
          (true, s)
      | Some (j, x), Some m =>
          if negb (msg_fits x (m_size m)) then (false, s)
          else
            let s := put_msq j (msg_enqueue x m (w_pid w)) s in
            let '(_, s) := waiter_reply k w resp0 [] s in (true, s)
      | Some _, None => (false, s) (* a parked sender holds its message *)
      end
  | _ => (* REQ_MSGRCV *)
      match msg_find s (w_id w) with
      | None =>
          let '(_, s) := waiter_reply k w (resp_ret (- EIDRM) resp0) [] s in
          (true, s)
      | Some (j, x) =>
          match msg_pick x (w_msgtyp w) (w_msgflg w) with
          | None => (false, s)
          | Some (i, m) =>
              if (w_msgsz w <? m_size m)
                 && negb (has_flag (w_msgflg w) CNG_MSG_NOERROR)
              then let '(_, s) := waiter_reply k w (resp_ret (- E2BIG) resp0) [] s in
                   (true, s)
              else
                let s := put_msq j (msg_unlink x i m (w_pid w)) s in
                let '(_, s) := msg_grant_rcv k w m s in (true, s)
          end
      end
  end.

(** One pass of the inner loop, a visit per unit of fuel; [None] is fuel
    running out. *)
Fixpoint rescan_pass (fuel : nat) (last : Z) (progress : bool) (s : ipc)
    : option (bool * ipc) :=
  match fuel with
  | O => None
  | S fuel =>
      match earliest last (i_wait s) 0 None with
      | None => Some (progress, s)
      | Some (k, w) =>
          let '(p, s) := rescan_visit k w s in
          rescan_pass fuel (w_seq w) (progress || p) s
      end
  end.

(** The outer loop: [progress] is what the last pass reported. *)
Fixpoint rescan_loop (fuel : nat) (progress : bool) (s : ipc) : option ipc :=
  if progress && negb (i_nwait s =? 0) then
    match fuel with
    | O => None
    | S fuel =>
        '(p, s) ← rescan_pass (S (length (i_wait s))) 0 false s;
        rescan_loop fuel p s
    end
  else Some s.

Definition cng_ipc_rescan (s : ipc) : option ipc :=
  if negb (i_tab s) then Some s
  else rescan_loop (S (length (i_wait s))) true s.

Fixpoint expire_loop (ws : list (option waiter)) (i : nat) (now_ms : Z) : M unit :=
  match ws with
  | [] => mret tt
  | Some w :: ws' =>
      if (w_deadline_ms w <? 0) || (now_ms <? w_deadline_ms w)
      then expire_loop ws' (S i) now_ms
      else _ ← waiter_reply i w (resp_ret (- EAGAIN) resp0) [];
           expire_loop ws' (S i) now_ms
  | None :: ws' => expire_loop ws' (S i) now_ms
  end.

Definition cng_ipc_expire (now_ms : Z) : M unit := fun s =>
  expire_loop (i_wait s) 0 now_ms s.

(** ** semctl and msgctl *)

Definition sem_fill_stat (r : cng_bresp) (x : sem_set) : cng_bresp :=
  BResp (r_ret r) (ss_key x) (Z.of_nat (ss_nsems x)) (r_nattch r) (ss_mode x)
    (ss_uid x) (ss_gid x) (ss_cuid x) (ss_cgid x) (r_cpid r) (r_lpid r)
    (ss_otime x) (r_dtime r) (ss_ctime x) (r_info_used r) (r_info_tot r)
    (r_cbytes r) (r_mtype r).

Definition resp_info (r : cng_bresp) (used tot bytes : Z) : cng_bresp :=
  BResp (r_ret r) (r_key r) (r_size r) (r_nattch r) (r_mode r) (r_uid r)
    (r_gid r) (r_cuid r) (r_cgid r) (r_cpid r) (r_lpid r) (r_atime r)
    (r_dtime r) (r_ctime r) used tot bytes (r_mtype r).

(** Used slots, the highest used index (-1 for none) and a sum over them. *)
Fixpoint info_loop {A} (f : A -> Z) (l : list (option A)) (i : Z)
    (used maxidx tot : Z) : Z * Z * Z :=
  match l with
  | [] => (used, maxidx, tot)
  | Some x :: l' => info_loop f l' (i + 1) (used + 1) i (u64 (tot + f x))
  | None :: l' => info_loop f l' (i + 1) used maxidx tot
  end.

Definition set_perm_sem (x : sem_set) (q : cng_breq) : sem_set :=
  SemSet (ss_semid x) (ss_key x) (ss_nsems x)
    (Z.lor (Z.ldiff (ss_mode x) 511) (Z.land (rq_set_mode q) 511))
    (rq_set_uid q) (rq_set_gid q) (ss_cuid x) (ss_cgid x) (ss_otime x)
    (e_now_sec E) (ss_val x) (ss_lpid x) (ss_cpid x) (ss_tpid x).

(** The per-semaphore commands, once the set is found and reclaimed. *)
Definition sem_ctl_one (k : nat) (x : sem_set) (q : cng_breq) : M Z := fun s =>
  let in_range := (0 <=? rq_semnum q) && (rq_semnum q <? Z.of_nat (ss_nsems x)) in
  let refused :=
    if rq_arg q =? CNG_SETVAL then
      if negb in_range then Some (- EINVAL)
      else if negb (sem_access x q 2) then Some (- EACCES) else None
    else
      if negb (sem_access x q 4) then Some (- EACCES)
      else if negb in_range then Some (- EINVAL) else None in
  match refused with
  | Some e => (e, s)
  | None =>
      let n := Z.to_nat (rq_semnum q) in
      if rq_arg q =? CNG_GETVAL then (ss_val x !!! n, s)
      else if rq_arg q =? CNG_GETPID then (ss_lpid x !!! n, s)
      else if rq_arg q =? CNG_GETNCNT
      then (sem_count_waiters s (ss_semid x) (rq_semnum q) false, s)
      else if rq_arg q =? CNG_GETZCNT
      then (sem_count_waiters s (ss_semid x) (rq_semnum q) true, s)
      else if rq_arg q =? CNG_SETVAL then
        let s := put_sem k (set_vals x (<[n := u16 (rq_val q)]> (ss_val x))
                              (<[n := rq_pid q]> (ss_lpid x)) (ss_otime x)
                              (e_now_sec E) (rq_pid q)) s in
        let '(_, s) := sem_undo_clear (ss_semid x) (rq_semnum q) s in
        (0, s)
      else (- EINVAL, s)
  end.

(** Everything but GETALL and SETALL: the return value and the reply. *)
Definition sem_do_ctl (q : cng_breq) (r : cng_bresp) : M (Z * cng_bresp) := fun s =>
  if (rq_arg q =? CNG_SETVAL)
     && ((rq_val q <? 0) || (CNG_SEMVMX <? rq_val q))
  then ((- ERANGE, r), s)
  else if (rq_arg q =? CNG_IPC_INFO) || (rq_arg q =? CNG_SEM_INFO) then
    let '(used, maxidx, tot) :=
      info_loop (fun x => Z.of_nat (ss_nsems x)) (i_sem s) 0 0 (-1) 0 in
    ((maxidx, resp_info r used tot (r_cbytes r)), s)
  else if (rq_arg q =? CNG_SEM_STAT) || (rq_arg q =? CNG_SEM_STAT_ANY) then
    if rq_id q <? 0 then ((- EINVAL, r), s)
    else match i_sem s !! Z.to_nat (rq_id q) with
    | Some (Some x) =>
        if (rq_arg q =? CNG_SEM_STAT) && negb (sem_access x q 4)
        then ((- EACCES, r), s)
        else
          let '(_, s) := sem_reclaim_set x s in
          match i_sem s !! Z.to_nat (rq_id q) with
          | Some (Some x) => ((ss_semid x, sem_fill_stat r x), s)
          | _ => ((- EINVAL, r), s) (* the slot is still used *)
          end
    | _ => ((- EINVAL, r), s)
    end
  else match sem_find s (rq_id q) with
  | None => ((- EINVAL, r), s)
  | Some (k, x0) =>
      let '(_, s) := sem_reclaim_set x0 s in
      match i_sem s !! k with
      | Some (Some x) =>
          if rq_arg q =? BROKER_SEMNSEMS then ((Z.of_nat (ss_nsems x), r), s)
          else if rq_arg q =? CNG_IPC_STAT then
            if negb (sem_access x q 4) then ((- EACCES, r), s)
            else ((0, sem_fill_stat r x), s)
          else if rq_arg q =? CNG_IPC_SET then
            if negb (ipc_owner (ss_uid x) (ss_cuid x) (rq_uid q))
            then ((- EPERM, r), s)
            else ((0, r), put_sem k (set_perm_sem x q) s)
          else if rq_arg q =? CNG_IPC_RMID then
            if negb (ipc_owner (ss_uid x) (ss_cuid x) (rq_uid q))
            then ((- EPERM, r), s)
            else
              let '(_, s) := waiters_eidrm (ss_semid x) true s in
              let '(_, s) := sem_free_set k x s in
              ((0, r), s)
          else let '(z, s) := sem_ctl_one k x q s in ((z, r), s)
      | _ => ((- EINVAL, r), s) (* the slot is still used *)
      end
  end.

Definition msg_fill_stat (r : cng_bresp) (x : msg_q) : cng_bresp :=
  BResp (r_ret r) (q_key x) (q_qbytes x) (q_qnum x) (q_mode x) (q_uid x)
    (q_gid x) (q_cuid x) (q_cgid x) (q_lspid x) (q_lrpid x) (q_stime x)
    (q_rtime x) (q_ctime x) (r_info_used r) (r_info_tot r) (q_cbytes x)
    (r_mtype r).

Definition set_perm_msq (x : msg_q) (q : cng_breq) : msg_q :=
  MsgQ (q_msqid x) (q_key x)
    (Z.lor (Z.ldiff (q_mode x) 511) (Z.land (rq_set_mode q) 511))
    (rq_set_uid q) (rq_set_gid q) (q_cuid x) (q_cgid x) (q_stime x) (q_rtime x)
    (e_now_sec E) (q_cbytes x) (q_qnum x) (rq_size q) (q_lspid x) (q_lrpid x)
    (q_cpid x) (rq_pid q) (q_msgs x).

Definition msg_do_ctl (q : cng_breq) (r : cng_bresp) : M (Z * cng_bresp) := fun s =>
  if (rq_arg q =? CNG_IPC_INFO) || (rq_arg q =? CNG_MSG_INFO) then
    let '(used, maxidx, tot) := info_loop q_qnum (i_msq s) 0 0 (-1) 0 in
    let '(_, _, bytes) := info_loop q_cbytes (i_msq s) 0 0 (-1) 0 in
    ((maxidx, resp_info r used tot bytes), s)
  else if (rq_arg q =? CNG_MSG_STAT) || (rq_arg q =? CNG_MSG_STAT_ANY) then
    if rq_id q <? 0 then ((- EINVAL, r), s)
    else match i_msq s !! Z.to_nat (rq_id q) with
    | Some (Some x) =>
        if (rq_arg q =? CNG_MSG_STAT) && negb (msg_access x q 4)
        then ((- EACCES, r), s)
        else ((q_msqid x, msg_fill_stat r x), s)
    | _ => ((- EINVAL, r), s)
    end
  else match msg_find s (rq_id q) with
  | None => ((- EINVAL, r), s)
  | Some (k, x) =>
      if rq_arg q =? CNG_IPC_STAT then
        if negb (msg_access x q 4) then ((- EACCES, r), s)
        else ((0, msg_fill_stat r x), s)
      else if rq_arg q =? CNG_IPC_SET then
        if negb (ipc_owner (q_uid x) (q_cuid x) (rq_uid q)) then ((- EPERM, r), s)
        else if (CNG_MSGMNB <? rq_size q) && negb (rq_uid q =? 0)
        then ((- EPERM, r), s)
        else ((0, r), put_msq k (set_perm_msq x q) s)
      else if rq_arg q =? CNG_IPC_RMID then
        if negb (ipc_owner (q_uid x) (q_cuid x) (rq_uid q)) then ((- EPERM, r), s)
        else
          let '(_, s) := waiters_eidrm (q_msqid x) false s in
          let '(_, s) := msg_free_queue k s in
          ((0, r), s)
      else ((- EINVAL, r), s)
  end.

(** ** Serving *)

(** What streams behind a request; a read of a payload of another length or
    kind is the peer vanishing mid-request. *)
Inductive payload :=
  | PNone | PSops (l : list cng_sembuf) | PVals (l : list Z) | PData (l : list Z).

Definition read_sops (p : payload) (n : nat) : option (list cng_sembuf) :=
  match p with PSops l => if (length l =? n)%nat then Some l else None | _ => None end.
Definition read_vals (p : payload) (n : nat) : option (list Z) :=
  match p with PVals l => if (length l =? n)%nat then Some l else None | _ => None end.
Definition read_data (p : payload) (n : nat) : option (list Z) :=
  match p with
  | PData l => if (length l =? n)%nat then Some l else None
  | _ => if (n =? 0)%nat then Some [] else None
  end.

(** The four answers of a [serve_*] function: 0 (reply with [r]), 1 (parked),
    2 (already replied), -1 (drop the peer). *)
Inductive served := SReply (r : cng_bresp) | SParked | SReplied | SDrop.

Definition reply (z : Z) : served := SReply (resp_ret z resp0).

Definition serve_semop (cfd : Z) (q : cng_breq) (p : payload) : M served := fun s =>
  let nsops := u32 (rq_arg q) in
  if (nsops =? 0) || (CNG_SEMOPM <? nsops)
  then (reply (if nsops =? 0 then - EINVAL else - E2BIG), s)
  else
    let '(ok, s) := arena_alloc s in
    if negb ok then (reply (- ENOMEM), s)
    else match read_sops p (Z.to_nat nsops) with
    | None => (SDrop, s)
    | Some sops =>
        match sem_find s (rq_id q) with
        | None => (reply (- EINVAL), s)
        | Some (k, x0) =>
            let '(_, s) := sem_reclaim_set x0 s in
            match i_sem s !! k with
            | Some (Some x) =>
                let alter := existsb (fun op => negb (sem_op op =? 0)) sops in
                let efbig :=
                  existsb (fun op => Z.of_nat (ss_nsems x) <=? sem_num op) sops in
                if efbig then (reply (- EFBIG), s)
                else if negb (sem_access x q (if alter then 2 else 4))
                then (reply (- EACCES), s)
                else
                  let '((t, blk), s) := sem_try_op k x sops (rq_pid q) 0 s in
                  if t =? 1 then
                    let '(parked, s) := waiter_park cfd q sops blk None s in
                    if parked then (SParked, s) else (reply (- EAGAIN), s)
                  else (reply t, s)
            | _ => (reply (- EINVAL), s) (* the slot is still used *)
            end
        end
    end.

Definition serve_semctl (cfd : Z) (q : cng_breq) (p : payload) : M served := fun s =>
  if rq_arg q =? CNG_SETALL then
    let n := rq_size q in
    if (n =? 0) || (CNG_SEMMSL <? n) then (SDrop, s)
    else
      let '(ok, s) := arena_alloc s in
      if negb ok then (SDrop, s)
      else match read_vals p (Z.to_nat n) with
      | None => (SDrop, s)
      | Some vals =>
          match sem_find s (rq_id q) with
          | None => (reply (- EINVAL), s)
          | Some (k, x) =>
              if negb (n =? Z.of_nat (ss_nsems x)) then (reply (- EINVAL), s)
              else if negb (sem_access x q 2) then (reply (- EACCES), s)
              else if existsb (fun v => CNG_SEMVMX <? v) vals
              then (reply (- ERANGE), s)
              else
                let s := put_sem k (set_vals x vals (replicate (Z.to_nat n) (rq_pid q))
                                      (ss_otime x) (e_now_sec E) (rq_pid q)) s in
                let '(_, s) := sem_undo_clear (ss_semid x) (-1) s in
                (reply 0, s)
          end
      end
  else if rq_arg q =? CNG_GETALL then
    match sem_find s (rq_id q) with
    | None => (reply (- EINVAL), s)
    | Some (k, x0) =>
        let '(_, s) := sem_reclaim_set x0 s in
        match i_sem s !! k with
        | Some (Some x) =>
            if negb (sem_access x q 4) then (reply (- EACCES), s)
            else
              let '(_, s) := broker_send cfd
                (resp_ret (Z.of_nat (ss_nsems x)) resp0) (ss_val x) s in
              (SReplied, s)
        | _ => (reply (- EINVAL), s) (* the slot is still used *)
        end
    end
  else
    let '((z, r), s) := sem_do_ctl q resp0 s in (SReply (resp_ret z r), s).

Definition serve_msgsnd (cfd : Z) (q : cng_breq) (p : payload) : M served := fun s =>
  let sz := rq_size q in
  if (CNG_MSGMAX <? sz) || (rq_mtype q <=? 0) then (SDrop, s)
  else
    let '(ok, s) := arena_alloc s in
    if negb ok then (SDrop, s)
    else match read_data p (Z.to_nat sz) with
    | None => (SDrop, s)
    | Some data =>
        let m := GMsg (rq_mtype q) sz data in
        match msg_find s (rq_id q) with
        | None => (reply (- EINVAL), s)
        | Some (k, x) =>
            if negb (msg_access x q 2) then (reply (- EACCES), s)
            else if msg_fits x sz
            then (reply 0, put_msq k (msg_enqueue x m (rq_pid q)) s)
            else if has_flag (rq_arg q) CNG_IPC_NOWAIT then (reply (- EAGAIN), s)
            else
              let '(parked, s) := waiter_park cfd q [] 0 (Some m) s in
              if parked then (SParked, s) else (reply (- EAGAIN), s)
        end
    end.

Definition serve_msgrcv (cfd : Z) (q : cng_breq) : M served := fun s =>
  match msg_find s (rq_id q) with
  | None => (reply (- EINVAL), s)
  | Some (k, x) =>
      if negb (msg_access x q 4) then (reply (- EACCES), s)
      else match msg_pick x (rq_mtype q) (rq_arg q) with
      | Some (i, m) =>
          if (rq_size q <? m_size m) && negb (has_flag (rq_arg q) CNG_MSG_NOERROR)
          then (reply (- E2BIG), s)
          else
            let s := put_msq k (msg_unlink x i m (rq_pid q)) s in
            let n := min_size m (rq_size q) in
            let '(_, s) := broker_send cfd (resp_msg n (m_type m))
                             (take (Z.to_nat n) (m_data m)) s in
            (SReplied, s)
      | None =>
          if has_flag (rq_arg q) CNG_IPC_NOWAIT then (reply (- ENOMSG), s)
          else
            let '(parked, s) := waiter_park cfd q [] 0 None s in
            if parked then (SParked, s) else (reply (- ENOMSG), s)
      end
  end.

(** 1 (parked, [true]) or 0. *)
Definition cng_ipc_serve (cfd : Z) (q : cng_breq) (p : payload) : M bool := fun s =>
  let '(ok, s) := tables s in
  if negb ok then
    let '(_, s) := broker_send cfd (resp_ret (- ENOSPC) resp0) [] s in (false, s)
  else
    let '(st, s) :=
      match rq_op q with
      | REQ_SEMGET => let '(z, s) := sem_do_get q s in (reply z, s)
      | REQ_SEMOP => serve_semop cfd q p s
      | REQ_SEMCTL => serve_semctl cfd q p s
      | REQ_MSGGET => let '(z, s) := msg_do_get q s in (reply z, s)
      | REQ_MSGSND => serve_msgsnd cfd q p s
      | REQ_MSGRCV => serve_msgrcv cfd q s
      | REQ_MSGCTL =>
          let '((z, r), s) := msg_do_ctl q resp0 s in (SReply (resp_ret z r), s)
      | REQ_OTHER => (reply (- EINVAL), s)
      end in
    match st with
    | SParked => (true, s)
    | SReply r => let '(_, s) := broker_send cfd r [] s in (false, s)
    | SReplied | SDrop => (false, s)
    end.

(** ** Liveness *)

Fixpoint reclaim_waiters (ws : list (option waiter)) (i : nat) : M unit :=
  match ws with
  | [] => mret tt
  | Some w :: ws' =>
      if dead (w_pid w) (w_start w)
      then _ ← waiter_free i w; reclaim_waiters ws' (S i)
      else reclaim_waiters ws' (S i)
  | None :: ws' => reclaim_waiters ws' (S i)
  end.

Definition cng_ipc_reclaim (s : ipc) : option ipc :=
  if negb (i_tab s) then Some s
  else
    let '(_, s) := reclaim_waiters (i_wait s) 0 s in
    let '(applied, s) := reclaim_rows None (i_undo s) 0 false s in
    if applied then cng_ipc_rescan s else Some s.

Definition anchored (tpid : Z) : bool :=
  (0 <? tpid) && negb (e_start E tpid =? 0).

Definition cng_ipc_any_live (s : ipc) : bool :=
  if negb (i_tab s) then false
  else if negb (i_nwait s =? 0) || negb (i_nundo s =? 0) then true
  else existsb (fun o => match o with Some x => anchored (ss_tpid x) | None => false end)
         (i_sem s)
       || existsb (fun o => match o with Some x => anchored (q_tpid x) | None => false end)
            (i_msq s).

Definition cng_ipc_pending (s : ipc) : bool :=
  negb (i_nwait s =? 0) || negb (i_nundo s =? 0).

(** The descriptors added to the poll set, up to [room] of them, and the
    nearest deadline. *)
Fixpoint poll_add_loop (ws : list (option waiter)) (room : nat) (now next : Z)
    : list Z * Z :=
  match ws, room with
  | [], _ | _, O => ([], next)
  | Some w :: ws', S room =>
      let next := if (0 <=? w_deadline_ms w) && (w_deadline_ms w - now <? next)
                  then w_deadline_ms w - now else next in
      let '(fds, next) := poll_add_loop ws' room now next in
      (w_cfd w :: fds, next)
  | None :: ws', S _ => poll_add_loop ws' room now next
  end.

Definition cng_ipc_poll_add (s : ipc) (room : nat) (now next : Z) : list Z * Z :=
  if negb (i_tab s) || (i_nwait s =? 0) then ([], next)
  else poll_add_loop (i_wait s) room now next.

(** What the read of a ready parked connection gave: a cancel request, nothing
    yet (EAGAIN), or anything else (EOF, an error, garbage). *)
Inductive wait_read := RCancel | RAgain | RGone.

Fixpoint cng_ipc_poll_ready (ready : list (Z * wait_read)) : M unit :=
  match ready with
  | [] => mret tt
  | (fd, rd) :: ready' => fun s =>
      let s :=
        match find_used (fun w => w_cfd w =? fd) (i_wait s) with
        | None => s
        | Some (k, w) =>
            match rd with
            | RCancel => (waiter_reply k w (resp_ret (- EINTR) resp0) [] s).2
            | RAgain => s
            | RGone => (waiter_free k w s).2
            end
        end in
      cng_ipc_poll_ready ready' s
  end.

Fixpoint free_waiters (ws : list (option waiter)) (i : nat) : M unit :=
  match ws with
  | [] => mret tt
  | Some w :: ws' => _ ← waiter_free i w; free_waiters ws' (S i)
  | None :: ws' => free_waiters ws' (S i)
  end.

Fixpoint free_sets (l : list (option sem_set)) (i : nat) : M unit :=
  match l with
  | [] => mret tt
  | Some x :: l' => _ ← sem_free_set i x; free_sets l' (S i)
  | None :: l' => free_sets l' (S i)
  end.

Fixpoint free_queues (l : list (option msg_q)) (i : nat) : M unit :=
  match l with
  | [] => mret tt
  | Some _ :: l' => _ ← msg_free_queue i; free_queues l' (S i)
  | None :: l' => free_queues l' (S i)
  end.

Definition cng_ipc_free_all : M unit := fun s =>
  if negb (i_tab s) then (tt, s)
  else
    let '(_, s) := free_waiters (i_wait s) 0 s in
    let '(_, s) := free_sets (i_sem s) 0 s in
    free_queues (i_msq s) 0 s.

End Ops.
