(* ===== verification/IpcSem.v ===== *)
(** * semop: what a vector of operations does (src/src/monitor/ipcreg.c)

    [sem_try_op] applies a vector operation by operation to the live values and
    the process's undo row, and rolls back when one cannot proceed.  Here the
    vector has a meaning of its own, sums over unbounded integers, and the loop
    is related to it: what the values and the adjustments are after any prefix,
    where the loop stops, and what the rollback leaves. *)

From stdpp Require Import base list strings gmap numbers.
From Stdlib Require Import ZArith Lia.
From S2P Require Import Prelude IpcData IpcOps.

Open Scope Z_scope.

(** ** The meaning of a vector *)

Definition op_num (op : cng_sembuf) : nat := Z.to_nat (sem_num op).
Definition op_undo (op : cng_sembuf) : bool := has_flag (sem_flg op) CNG_SEM_UNDO.
Definition op_nowait (op : cng_sembuf) : bool :=
  has_flag (sem_flg op) CNG_IPC_NOWAIT.

(** What the operations of [ops] add to semaphore [n], and what those with
    SEM_UNDO do. *)
Definition delta (ops : list cng_sembuf) (n : nat) : Z :=
  foldr (fun op z => (if decide (op_num op = n) then sem_op op else 0) + z) 0 ops.
Definition udelta (ops : list cng_sembuf) (n : nat) : Z :=
  delta (List.filter op_undo ops) n.

Lemma delta_app a b n : delta (a ++ b) n = delta a n + delta b n.
Proof. unfold delta. induction a as [|op a IH]; simpl in *; lia. Qed.

Lemma udelta_app a b n : udelta (a ++ b) n = udelta a n + udelta b n.
Proof. unfold udelta. by rewrite List.filter_app, delta_app. Qed.

Lemma delta_single op n :
  delta [op] n = if decide (op_num op = n) then sem_op op else 0.
Proof. unfold delta. simpl. lia. Qed.

Lemma udelta_single op n :
  udelta [op] n =
  if op_undo op then if decide (op_num op = n) then sem_op op else 0 else 0.
Proof. unfold udelta. simpl. destruct (op_undo op); [apply delta_single|done]. Qed.

(** The wire types of one operation. *)
Definition op_ok (op : cng_sembuf) : Prop :=
  0 <= sem_num op < 2 ^ 16 /\ - 2 ^ 15 <= sem_op op < 2 ^ 15.

(** What stops an operation whose semaphore holds [v] and whose adjustment is
    [a]: [None] where it proceeds, else the result of the whole call (1 to
    block).  [row] says whether the process can have an undo row. *)
Definition op_stop (row : bool) (v a : Z) (op : cng_sembuf) : option Z :=
  if ((sem_op op =? 0) && negb (v =? 0)) || (v + sem_op op <? 0)
  then Some (if op_nowait op then - EAGAIN else 1)
  else if CNG_SEMVMX <? v + sem_op op then Some (- ERANGE)
  else if op_undo op then
    if negb row then Some (- ENOMEM)
    else if (a - sem_op op <? - CNG_SEMAEM - 1) || (CNG_SEMAEM <? a - sem_op op)
    then Some (- ERANGE) else None
  else None.

(** The vector's outcome from values [val] and adjustments [adj]: how many
    operations proceed, each seeing what its predecessors left, and what stops
    the next one. *)
Fixpoint vector_stop (row : bool) (val adj : nat -> Z)
    (pre ops : list cng_sembuf) : nat * option Z :=
  match ops with
  | [] => (length pre, None)
  | op :: ops' =>
      let n := op_num op in
      match op_stop row (val n + delta pre n) (adj n - udelta pre n) op with
      | Some r => (length pre, Some r)
      | None => vector_stop row val adj (pre ++ [op]) ops'
      end
  end.

(** ** Vectors as functions *)

Definition at0 (l : list Z) (n : nat) : Z := default 0 (l !! n).

Lemma total_at0 (l : list Z) n : (n < length l)%nat -> l !!! n = at0 l n.
Proof.
  intros H. unfold at0. destruct (lookup_lt_is_Some_2 l n H) as [x Hx].
  by rewrite (list_lookup_total_correct l n x), Hx.
Qed.

Lemma at0_insert (l : list Z) n x m :
  (n < length l)%nat -> at0 (<[n := x]> l) m = if decide (n = m) then x else at0 l m.
Proof.
  intros H. unfold at0. case_decide as E.
  - subst. by rewrite list_lookup_insert_eq.
  - by rewrite list_lookup_insert_ne.
Qed.

Lemma at0_replicate0 n m : at0 (replicate n 0) m = 0.
Proof.
  unfold at0. destruct (replicate n 0 !! m) as [x|] eqn:E; [|done].
  apply lookup_replicate in E. simpl. tauto.
Qed.

Lemma at0_ext (a b : list Z) :
  length a = length b -> (forall n, at0 a n = at0 b n) -> a = b.
Proof.
  intros Hl H. apply list_eq. intros n. specialize (H n). unfold at0 in H.
  destruct (a !! n) as [x|] eqn:Ea, (b !! n) as [y|] eqn:Eb; simpl in H; try done.
  - congruence.
  - apply lookup_lt_Some in Ea. apply lookup_ge_None in Eb. lia.
  - apply lookup_ge_None in Ea. apply lookup_lt_Some in Eb. lia.
Qed.

(** ** Well-formed sets and rows *)

Definition val_ok (v : Z) : Prop := 0 <= v <= CNG_SEMVMX.
Definition adj_ok (a : Z) : Prop := - CNG_SEMAEM - 1 <= a <= CNG_SEMAEM.

Definition set_ok (x : sem_set) : Prop :=
  length (ss_val x) = ss_nsems x /\ length (ss_lpid x) = ss_nsems x /\
  Forall val_ok (ss_val x).

Definition vec_ok (nsems : nat) (adj : list Z) : Prop :=
  length adj = nsems /\ Forall adj_ok adj.

(** The rows of one set match its size. *)
Definition rows_ok (semid : Z) (nsems : nat) (rows : list (option sem_undo)) : Prop :=
  forall k u, rows !! k = Some (Some u) -> u_semid u = semid ->
  vec_ok nsems (u_adj u).

Definition ops_ok (nsems : nat) (ops : list cng_sembuf) : Prop :=
  Forall (fun op => op_ok op /\ (op_num op < nsems)%nat) ops.

Lemma at0_Forall (P : Z -> Prop) l n : P 0 -> Forall P l -> P (at0 l n).
Proof.
  intros H0 H. unfold at0. destruct (l !! n) as [x|] eqn:E; [|done]. simpl.
  rewrite Forall_lookup in H. eauto.
Qed.

Lemma u16_val v : val_ok v -> u16 v = v.
Proof. unfold val_ok, CNG_SEMVMX. intros. apply wrapu_small. lia. Qed.

Lemma s16_adj a : adj_ok a -> s16 a = a.
Proof. unfold adj_ok, CNG_SEMAEM. intros. apply wraps_small; lia. Qed.

Lemma vec_ok_zero n : vec_ok n (replicate n 0).
Proof.
  split; [apply length_replicate|]. apply Forall_replicate.
  unfold adj_ok, CNG_SEMAEM. lia.
Qed.

(** ** The undo row of a process *)

(** What (pid, set) owes on semaphore [n]. *)
Definition undo_at (rows : list (option sem_undo)) (pid semid : Z) (n : nat) : Z :=
  match find_used (undo_is pid semid) rows with
  | Some (_, u) => at0 (u_adj u) n
  | None => 0
  end.

(** A row exists, or a slot and the memory for one. *)
Definition row_avail (s : ipc) (pid semid : Z) : bool :=
  match find_used (undo_is pid semid) (i_undo s) with
  | Some _ => true
  | None =>
      match find_free (i_undo s) with
      | Some _ => match i_mem s with [] => true | b :: _ => b end
      | None => false
      end
  end.

Definition put_row (rows : list (option sem_undo)) (k : nat) (u : sem_undo) :=
  <[k := Some u]> rows.

Lemma undo_at_found rows pid semid k u n :
  find_used (undo_is pid semid) rows = Some (k, u) ->
  undo_at rows pid semid n = at0 (u_adj u) n.
Proof. unfold undo_at. by intros ->. Qed.

(** ** The loop *)

Section Loop.
Context (E : env) (pid semid : Z) (nsems : nat) (s0 : ipc) (val0 : list Z).

Abbreviation rows0 := (i_undo s0).
Abbreviation adj0 := (undo_at rows0 pid semid).

(** The state once a row was made in slot [k]. *)
Definition with_row (k : nat) : ipc :=
  let s := (arena_alloc s0).2 in
  set_undo (<[k := Some (SemUndo pid (e_start E pid) semid (replicate nsems 0))]>
              (i_undo s)) (i_nundo s + 1) s.

(** The row in use after [pre], and the state around it. *)
Inductive row_state (pre : list cng_sembuf) : option (nat * list Z) -> ipc -> Prop :=
  | RSNone : List.filter op_undo pre = [] -> row_state pre None s0
  | RSOld k r adj :
      find_used (undo_is pid semid) rows0 = Some (k, r) ->
      vec_ok nsems adj -> (forall n, at0 adj n = adj0 n - udelta pre n) ->
      row_state pre (Some (k, adj)) s0
  | RSNew k adj :
      find_used (undo_is pid semid) rows0 = None -> find_free rows0 = Some k ->
      (arena_alloc s0).1 = true ->
      vec_ok nsems adj -> (forall n, at0 adj n = adj0 n - udelta pre n) ->
      row_state pre (Some (k, adj)) (with_row k).

Lemma row_state_none pre s :
  row_state pre None s -> s = s0 /\ List.filter op_undo pre = [].
Proof. by inversion 1. Qed.

Lemma row_state_avail pre u s :
  row_state pre (Some u) s -> row_avail s0 pid semid = true.
Proof.
  unfold row_avail. inversion 1 as [|k r adj H1|k adj H1 H2 H3]; subst.
  - by rewrite H1.
  - rewrite H1, H2. unfold arena_alloc in H3. by destruct (i_mem s0).
Qed.

(** Asking for the row where none is in use. *)
Lemma row_state_find pre s :
  rows_ok semid nsems rows0 -> row_state pre None s ->
  let '(u, s') := sem_undo_find E pid semid nsems true s in
  if row_avail s0 pid semid then
    exists k adj, u = Some (k, adj) /\ row_state pre (Some (k, adj)) s'
  else u = None /\ (s' = s0 \/ s' = (arena_alloc s0).2).
Proof.
  intros Hrows Hs. inversion Hs as [Hnone| |]; subst. unfold sem_undo_find, row_avail.
  assert (Hz : forall n, udelta pre n = 0) by (intros; unfold udelta; by rewrite Hnone).
  destruct (find_used (undo_is pid semid) rows0) as [[k r]|] eqn:Ef.
  - exists k, (u_adj r). split; [done|]. apply find_used_Some in Ef as Ef'.
    destruct Ef' as (Hk & Hu & _). unfold undo_is in Hu. bprop.
    econstructor; [done| |].
    + eapply Hrows; [done|tauto].
    + intros n. by rewrite (undo_at_found _ _ _ _ _ _ Ef), Hz, Z.sub_0_r.
  - destruct (find_free rows0) as [k|] eqn:Ek; [|by auto].
    destruct (arena_alloc s0) as [ok s1] eqn:Ea.
    assert (Hok : match i_mem s0 with [] => true | b :: _ => b end = ok).
    { unfold arena_alloc in Ea. destruct (i_mem s0); by simplify_eq. }
    rewrite Hok. destruct ok; [|split; [done|right; done]].
    exists k, (replicate nsems 0). split; [done|].
    pose proof (RSNew pre k (replicate nsems 0) Ef Ek) as C. unfold with_row in C.
    rewrite Ea in C. simpl in C. apply C; [done|apply vec_ok_zero|].
    intros n. unfold undo_at. by rewrite Ef, at0_replicate0, Hz.
Qed.

(** One more operation of the vector is applied. *)
Lemma row_state_plain pre u s op :
  op_undo op = false -> row_state pre u s -> row_state (pre ++ [op]) u s.
Proof.
  intros Hop. assert (Hz : forall n, udelta (pre ++ [op]) n = udelta pre n).
  { intros n. rewrite udelta_app, udelta_single, Hop. lia. }
  inversion 1; subst; econstructor; eauto; try (intros n; rewrite Hz; auto).
  rewrite List.filter_app. simpl. rewrite Hop, app_nil_r. done.
Qed.

Lemma row_state_undo pre k adj s op :
  op_undo op = true -> (op_num op < nsems)%nat ->
  adj_ok (at0 adj (op_num op) - sem_op op) ->
  row_state pre (Some (k, adj)) s ->
  row_state (pre ++ [op])
    (Some (k, <[op_num op := s16 (at0 adj (op_num op) - sem_op op)]> adj)) s.
Proof.
  intros Hop Hn Ha.
  assert (Hz : vec_ok nsems adj ->
    (forall n, at0 adj n = adj0 n - udelta pre n) ->
    let adj' := <[op_num op := s16 (at0 adj (op_num op) - sem_op op)]> adj in
    vec_ok nsems adj' /\ forall n, at0 adj' n = adj0 n - udelta (pre ++ [op]) n).
  { intros [Hl Hf] H. split.
    - split; [by rewrite length_insert|]. apply Forall_insert; [done|].
      by rewrite s16_adj.
    - intros n. rewrite at0_insert, udelta_app, udelta_single, Hop by lia.
      case_decide as En; [|rewrite H; lia]. subst n. rewrite s16_adj by done.
      rewrite H. lia. }
  inversion 1; subst; destruct Hz as [Hv Hz]; try done;
    [eapply RSOld|eapply RSNew]; eauto.
Qed.

Lemma row_state_adj pre k adj s n :
  row_state pre (Some (k, adj)) s -> (n < nsems)%nat ->
  adj !!! n = at0 adj n /\ at0 adj n = adj0 n - udelta pre n.
Proof.
  intros Hs Hn.
  inversion Hs as [|? ? ? ? [Hl _] Hadj|? ? ? ? ? [Hl _] Hadj]; subst;
    (split; [apply total_at0; lia|apply Hadj]).
Qed.

(** What the loop leaves when it stops after the first [k] operations of [all],
    [r] being what stopped it. *)
Definition loop_post (all : list cng_sembuf) (t : try_state)
    (out : nat * option Z) : Prop :=
  let '(k, r) := out in
  t_i t = k /\ t_res t = default 0 r /\ r <> Some 0 /\
  length (t_val t) = nsems /\ Forall val_ok (t_val t) /\
  (forall n, at0 (t_val t) n = at0 val0 n + delta (take k all) n) /\
  (row_state (take k all) (t_u t) (t_st t) \/
   r <> None /\ t_u t = None /\ t_st t = (arena_alloc s0).2 /\
   List.filter op_undo (take k all) = []).

(** The values after [pre]. *)
Definition vals_state (pre : list cng_sembuf) (val : list Z) : Prop :=
  length val = nsems /\ Forall val_ok val /\
  forall n, at0 val n = at0 val0 n + delta pre n.

Lemma loop_post_stop pre ops val u s r :
  r <> 0 -> vals_state pre val ->
  row_state pre u s \/
    u = None /\ s = (arena_alloc s0).2 /\ List.filter op_undo pre = [] ->
  loop_post (pre ++ ops) (TryState r (length pre) val u s) (length pre, Some r).
Proof.
  intros Hr (Hl & Hf & Hv) H. unfold loop_post. rewrite take_app_length.
  repeat split; simpl; auto; [congruence|]. naive_solver.
Qed.

Lemma vals_state_step pre val op :
  (op_num op < nsems)%nat -> vals_state pre val ->
  val_ok (at0 val (op_num op) + sem_op op) ->
  vals_state (pre ++ [op])
    (<[op_num op := u16 (at0 val (op_num op) + sem_op op)]> val).
Proof.
  intros Hn (Hl & Hf & Hv) Hok. rewrite u16_val by done. repeat split.
  - by rewrite length_insert.
  - by apply Forall_insert.
  - intros m. rewrite at0_insert, delta_app, delta_single by lia.
    case_decide; subst; rewrite Hv; lia.
Qed.

(** The whole loop, from any applied prefix. *)
Lemma try_loop_spec ops : forall pre val u s,
  rows_ok semid nsems rows0 -> ops_ok nsems ops -> row_state pre u s ->
  vals_state pre val ->
  loop_post (pre ++ ops) (try_loop E pid semid nsems ops (length pre) val u s)
    (vector_stop (row_avail s0 pid semid) (at0 val0) adj0 pre ops).
Proof.
  induction ops as [|op ops IH]; intros pre val u s Hrows Hops Hs Hv.
  { destruct Hv as (? & ? & ?). simpl. unfold loop_post.
    rewrite app_nil_r, take_ge by lia. repeat split; auto. }
  inversion Hops as [|? ? [_ Hn] Hops']; subst. simpl.
  change (Z.to_nat (sem_num op)) with (op_num op).
  change (has_flag (sem_flg op) CNG_IPC_NOWAIT) with (op_nowait op).
  change (has_flag (sem_flg op) CNG_SEM_UNDO) with (op_undo op).
  destruct Hv as (Hl & Hf & Hv). rewrite total_at0 by lia.
  rewrite <-(Hv (op_num op)).
  assert (Hvs : vals_state pre val) by done.
  pose proof (loop_post_stop pre (op :: ops) val) as Hstop.
  assert (Hgo : forall u' s', row_state (pre ++ [op]) u' s' ->
    val_ok (at0 val (op_num op) + sem_op op) ->
    loop_post (pre ++ op :: ops)
      (try_loop E pid semid nsems ops (S (length pre))
         (<[op_num op := u16 (at0 val (op_num op) + sem_op op)]> val) u' s')
      (vector_stop (row_avail s0 pid semid) (at0 val0) adj0 (pre ++ [op]) ops)).
  { intros u' s' Hs' Hok.
    replace (S (length pre)) with (length (pre ++ [op]))
      by (rewrite length_app; simpl; lia).
    replace (pre ++ op :: ops) with ((pre ++ [op]) ++ ops) by (by rewrite <-app_assoc).
    apply IH; auto. by apply vals_state_step. }
  unfold op_stop. destruct (_ || _) eqn:E1.
  { apply Hstop; auto. unfold EAGAIN. destruct (op_nowait op); lia. }
  destruct (CNG_SEMVMX <? _) eqn:E2; [by apply Hstop; auto|].
  assert (Hok : val_ok (at0 val (op_num op) + sem_op op)) by (unfold val_ok; bprop; lia).
  destruct (op_undo op) eqn:E3; [|apply Hgo; [by apply row_state_plain|done]].
  assert (Hrow : forall k adj s', row_state pre (Some (k, adj)) s' ->
    loop_post (pre ++ op :: ops)
      (let a := adj !!! op_num op - sem_op op in
       if (a <? - CNG_SEMAEM - 1) || (CNG_SEMAEM <? a)
       then TryState (- ERANGE) (length pre) val (Some (k, adj)) s'
       else try_loop E pid semid nsems ops (S (length pre))
         (<[op_num op := u16 (at0 val (op_num op) + sem_op op)]> val)
         (Some (k, <[op_num op := s16 a]> adj)) s')
      (let a := adj0 (op_num op) - udelta pre (op_num op) in
       match (if (a - sem_op op <? - CNG_SEMAEM - 1)
                 || (CNG_SEMAEM <? a - sem_op op)
              then Some (- ERANGE) else None) with
       | Some r => (length pre, Some r)
       | None => vector_stop (row_avail s0 pid semid) (at0 val0) adj0
                   (pre ++ [op]) ops
       end)).
  { intros k adj s' Hs'. destruct (row_state_adj _ _ _ _ _ Hs' Hn) as [-> Ha].
    cbv zeta. rewrite <-Ha. case_if; [by apply Hstop; auto|].
    apply Hgo; [|done]. apply row_state_undo; auto. unfold adj_ok. bprop. lia. }
  destruct u as [[k adj]|].
  { rewrite (row_state_avail _ _ _ Hs) in Hrow |- *. by apply Hrow. }
  pose proof (row_state_find _ _ Hrows Hs) as Hfind.
  destruct (sem_undo_find E pid semid nsems true s) as [u s'].
  destruct (row_avail s0 pid semid); simpl.
  - destruct Hfind as (k & adj & -> & Hs'). by apply Hrow.
  - destruct Hfind as [-> Hs']. apply Hstop; [done..|].
    inversion Hs; subst. destruct Hs' as [->| ->]; [left|right]; auto.
Qed.

(** ** The rollback *)

(** From any state congruent to [pre] applied, back to the start. *)
Lemma rollback_val pre : forall val u,
  length val = nsems -> ops_ok nsems pre -> length val0 = nsems ->
  Forall val_ok val0 ->
  (forall n, at0 val n = u16 (at0 val0 n + delta pre n)) ->
  (rollback (rev pre) val u).1 = val0.
Proof.
  induction pre as [|op pre IH] using rev_ind; intros val u Hl Hops Hl0 Hok Hv.
  - simpl. apply at0_ext; [lia|]. intros n. rewrite Hv, Z.add_0_r.
    apply u16_val. by apply at0_Forall; [unfold val_ok, CNG_SEMVMX; lia|].
  - apply Forall_app in Hops as [Hops Hop]. inversion Hop as [|? ? [_ Hn] _]; subst.
    rewrite rev_unit. simpl. change (Z.to_nat (sem_num op)) with (op_num op).
    apply IH; auto; [by rewrite length_insert|].
    intros n. rewrite at0_insert by lia. case_decide as En.
    + subst n. rewrite total_at0, Hv, wrapu_sub_l, delta_app, delta_single by lia.
      rewrite decide_True by done. f_equal. lia.
    + rewrite Hv, delta_app, delta_single, decide_False by done. f_equal. lia.
Qed.

Lemma rollback_none rops val : (rollback rops val None).2 = None.
Proof. revert val. induction rops; simpl; auto. Qed.

Lemma rollback_adj pre : forall val k adj (a0 : list Z),
  length adj = nsems -> ops_ok nsems pre -> vec_ok nsems a0 ->
  (forall n, at0 adj n = s16 (at0 a0 n - udelta pre n)) ->
  (rollback (rev pre) val (Some (k, adj))).2 = Some (k, a0).
Proof.
  induction pre as [|op pre IH] using rev_ind; intros val k adj a0 Hl Hops Ha0 Hv.
  - simpl. do 2 f_equal. destruct Ha0 as [Hl0 Hok].
    apply at0_ext; [lia|]. intros n. rewrite Hv. change (udelta [] n) with 0.
    rewrite Z.sub_0_r. apply s16_adj.
    by apply at0_Forall; [unfold adj_ok, CNG_SEMAEM; lia|].
  - apply Forall_app in Hops as [Hops Hop]. inversion Hop as [|? ? [_ Hn] _]; subst.
    rewrite rev_unit. simpl. change (Z.to_nat (sem_num op)) with (op_num op).
    change (has_flag (sem_flg op) CNG_SEM_UNDO) with (op_undo op).
    destruct (op_undo op) eqn:Eu.
    + apply IH; auto; [by rewrite length_insert|].
      intros n. rewrite at0_insert by lia. case_decide as En.
      * subst n. rewrite total_at0, Hv, wraps_add_l, udelta_app, udelta_single by lia.
        rewrite Eu, decide_True by done. f_equal. lia.
      * rewrite Hv, udelta_app, udelta_single, Eu, decide_False by done. f_equal. lia.
    + apply IH; auto. intros n. rewrite Hv, udelta_app, udelta_single, Eu.
      f_equal. lia.
Qed.
End Loop.

(** ** The undo rows after a call *)

(** Row (pid, set) holds [adj]: the row that was there, or a new one. *)
Inductive rows_put (pid semid : Z) (adj : list Z) (rows : list (option sem_undo))
    (n : Z) : list (option sem_undo) -> Z -> Prop :=
  | RPOld k r :
      find_used (undo_is pid semid) rows = Some (k, r) ->
      rows_put pid semid adj rows n
        (<[k := Some (SemUndo pid (u_start r) semid adj)]> rows) n
  | RPNew k start :
      find_used (undo_is pid semid) rows = None -> find_free rows = Some k ->
      rows_put pid semid adj rows n
        (<[k := Some (SemUndo pid start semid adj)]> rows) (n + 1).

Lemma rows_put_at pid semid adj rows n rows' n' m :
  rows_put pid semid adj rows n rows' n' -> undo_at rows' pid semid m = at0 adj m.
Proof.
  assert (Hp : forall st, undo_is pid semid (SemUndo pid st semid adj) = true).
  { intros. unfold undo_is. simpl. by rewrite !Z.eqb_refl. }
  intros [k r H|k st H Hk].
  - apply find_used_Some in H as (Hk & Hr & Hb). apply lookup_lt_Some in Hk as Hlt.
    eapply undo_at_found with (u := SemUndo _ _ _ _).
    by apply find_used_write_here.
  - apply find_free_Some in Hk. apply lookup_lt_Some in Hk as Hlt.
    eapply undo_at_found with (u := SemUndo _ _ _ _).
    apply find_used_write_here; auto. intros j y _ Hj.
    by eapply find_used_None in H.
Qed.

Lemma rows_put_other pid semid adj rows n rows' n' p i :
  rows_put pid semid adj rows n rows' n' -> (p, i) <> (pid, semid) ->
  find_used (undo_is p i) rows' = find_used (undo_is p i) rows.
Proof.
  intros H Hne.
  assert (Hp : forall st, undo_is p i (SemUndo pid st semid adj) = false).
  { intros. unfold undo_is. simpl. apply not_true_iff_false. bprop. naive_solver. }
  destruct H as [k r H|k st H Hk].
  - apply find_used_Some in H as (Hk & Hr & _).
    eapply find_used_write_other; [done|..]; intros y [= <-]; auto.
    unfold undo_is in *. apply not_true_iff_false. bprop. naive_solver.
  - apply find_free_Some in Hk.
    eapply find_used_write_other; [done|done|]; intros y [= <-]; auto.
Qed.

Lemma set_mem_same s : set_mem (i_mem s) s = s.
Proof. by destruct s. Qed.

Lemma arena_alloc_state s : (arena_alloc s).2 = set_mem (tail (i_mem s)) s.
Proof.
  unfold arena_alloc. destruct s as [? ? ? ? ? ? ? ? ? ? [|b mem] ?]; reflexivity.
Qed.

(** [put_adj] after the loop. *)
Lemma put_adj_state E pid semid nsems s0 pre u s adj k :
  row_state E pid semid nsems s0 pre u s ->
  fst <$> u = Some k ->
  exists rows n mem,
    put_adj (Some (k, adj)) s = set_undo rows n (set_mem mem s0) /\
    rows_put pid semid adj (i_undo s0) (i_nundo s0) rows n.
Proof.
  intros H Hu. inversion H as [|k' r a' Hf|k' a' Hf Hk' Ha]; subst; simplify_eq/=.
  - apply find_used_Some in Hf as Hf'. destruct Hf' as (Hr & Hi & _). rewrite Hr.
    unfold undo_is in Hi. bprop. destruct Hi as [<- <-].
    eexists _, _, (i_mem s). split; [by rewrite set_mem_same|]. by econstructor.
  - apply find_free_Some in Hk' as Hk. apply lookup_lt_Some in Hk.
    unfold with_row. rewrite arena_alloc_state. simpl.
    rewrite list_lookup_insert_eq by done. simpl. rewrite list_insert_insert_eq.
    eexists _, _, (tail (i_mem s0)). split; [reflexivity|]. by econstructor.
Qed.

(** The vector to go back to from the row in use. *)
Lemma row_state_back E pid semid nsems s0 pre k adj s :
  rows_ok semid nsems (i_undo s0) ->
  row_state E pid semid nsems s0 pre (Some (k, adj)) s ->
  exists a0, vec_ok nsems a0 /\
    (forall n, at0 a0 n = undo_at (i_undo s0) pid semid n) /\
    length adj = nsems /\
    forall n, at0 adj n = s16 (at0 a0 n - udelta pre n).
Proof.
  intros Hrows H.
  inversion H as [|? r ? Hf Hvec Ha|? ? Hf ? ? Hvec Ha]; subst;
    destruct Hvec as [Hl Hok].
  - exists (u_adj r). apply find_used_Some in Hf as Hf'. destruct Hf' as (Hr & Hi & _).
    unfold undo_is in Hi. bprop. destruct Hi as [_ Hi].
    split; [by eapply Hrows|]. split; [intros; by erewrite undo_at_found|].
    split; [done|]. intros n. erewrite <-undo_at_found, <-Ha by done.
    rewrite s16_adj; [done|]. by apply at0_Forall; [unfold adj_ok, CNG_SEMAEM; lia|].
  - exists (replicate nsems 0). split; [apply vec_ok_zero|].
    assert (Hz : forall n, undo_at (i_undo s0) pid semid n = 0).
    { intros. unfold undo_at. by rewrite Hf. }
    split; [intros; by rewrite at0_replicate0, Hz|]. split; [done|].
    intros n. rewrite at0_replicate0, <-(Hz n), <-Ha, s16_adj; [done|].
    by apply at0_Forall; [unfold adj_ok, CNG_SEMAEM; lia|].
Qed.

(** ** The call *)

(** [s'] differs from [s] in slot [k] of the sets, the undo rows and the
    allocator only. *)
Definition sem_frame (k : nat) (x' : sem_set) (s s' : ipc) : Prop :=
  exists rows n mem, s' = put_sem k x' (set_undo rows n (set_mem mem s)).

Lemma sem_frame_same k x' mem s : sem_frame k x' s (put_sem k x' (set_mem mem s)).
Proof. exists (i_undo s), (i_nundo s), mem. by destruct s. Qed.

Lemma sem_frame_here k x' s : sem_frame k x' s (put_sem k x' s).
Proof. exists (i_undo s), (i_nundo s), (i_mem s). by destruct s. Qed.

(** What the call makes of set [x] where the vector goes through. *)
Definition set_done (E : env) (x x' : sem_set) (sops : list cng_sembuf) (pid : Z)
    : Prop :=
  exists val, x' = set_vals x val (stamp pid sops (ss_lpid x)) (e_now_sec E)
                     (ss_ctime x) pid /\
  length val = ss_nsems x /\ Forall val_ok val /\
  forall n, at0 val n = at0 (ss_val x) n + delta sops n.

Lemma stamp_length pid sops : forall l, length (stamp pid sops l) = length l.
Proof.
  unfold stamp. induction sops as [|op sops IH]; intros l; simpl; [done|].
  by rewrite IH, length_insert.
Qed.

Lemma set_done_ok E x x' sops pid : set_ok x -> set_done E x x' sops pid -> set_ok x'.
Proof.
  intros (_ & Hp & _) (val & -> & Hl & Hf & _). split; [done|]. split; [|done].
  simpl. by rewrite stamp_length.
Qed.

Definition in_range (nsems : nat) (sops : list cng_sembuf) : bool :=
  negb (existsb (fun op => Z.of_nat nsems <=? sem_num op) sops).

Lemma in_range_ops_ok nsems sops :
  in_range nsems sops = true -> Forall op_ok sops -> ops_ok nsems sops.
Proof.
  unfold in_range. rewrite negb_true_iff. intros H Hok.
  apply Forall_forall. intros op Hop. rewrite Forall_forall in Hok.
  pose proof (Hok op Hop) as Hw. split; [done|]. destruct Hw as [[Hw _] _].
  rewrite <-not_true_iff_false, existsb_exists in H. unfold op_num.
  destruct (Z.of_nat nsems <=? sem_num op) eqn:E; [|bprop; lia].
  destruct H. by exists op.
Qed.

Lemma vector_stop_le row val adj ops : forall pre,
  let '(k, r) := vector_stop row val adj pre ops in
  (length pre <= k <= length pre + length ops)%nat /\
  (r = None -> k = (length pre + length ops)%nat).
Proof.
  induction ops as [|op ops IH]; intros pre; simpl; [split; intros; lia|].
  destruct (op_stop _ _ _ _); [split; [lia|done]|].
  specialize (IH (pre ++ [op])). destruct (vector_stop _ _ _ _ ops) as [k r].
  rewrite length_app in IH. simpl in IH. destruct IH as [H1 H2].
  split; [lia|]. intros Hr. specialize (H2 Hr). lia.
Qed.

Section Call.
Context (E : env) (k : nat) (x : sem_set) (sops : list cng_sembuf) (pid : Z)
  (blk : nat) (s : ipc).
Hypotheses (Hset : set_ok x)
  (Hrows : rows_ok (ss_semid x) (ss_nsems x) (i_undo s))
  (Hops : Forall op_ok sops) (Hrange : in_range (ss_nsems x) sops = true).

Abbreviation semid := (ss_semid x).
Abbreviation out :=
  (vector_stop (row_avail s pid semid) (at0 (ss_val x))
     (undo_at (i_undo s) pid semid) [] sops).

Lemma call_loop :
  loop_post E pid semid (ss_nsems x) s (ss_val x) sops
    (try_loop E pid semid (ss_nsems x) sops 0 (ss_val x) None s) out.
Proof.
  destruct Hset as (Hl & _ & Hf).
  apply (try_loop_spec E pid semid (ss_nsems x) s (ss_val x) sops []); auto.
  - by apply in_range_ops_ok.
  - by constructor.
  - repeat split; [done..|]. intros. unfold delta. simpl. lia.
Qed.

Lemma sem_try_op_done :
  out.2 = None ->
  let '((r, blk'), s') := sem_try_op E k x sops pid blk s in
  r = 0 /\ blk' = blk /\
  exists x', set_done E x x' sops pid /\ sem_frame k x' s s' /\
  (List.filter op_undo sops = [] /\ i_undo s' = i_undo s /\ i_nundo s' = i_nundo s \/
   exists adj, vec_ok (ss_nsems x) adj /\
     (forall n, at0 adj n = undo_at (i_undo s) pid semid n - udelta sops n) /\
     rows_put pid semid adj (i_undo s) (i_nundo s) (i_undo s') (i_nundo s')).
Proof.
  intros Hout. pose proof call_loop as Hspec. unfold sem_try_op.
  pose proof (in_range_ops_ok _ _ Hrange Hops) as Hok. unfold in_range in Hrange.
  rewrite negb_true_iff in Hrange. rewrite Hrange. destruct Hset as (Hl & _ & Hf).
  pose proof (vector_stop_le (row_avail s pid semid) (at0 (ss_val x))
                (undo_at (i_undo s) pid semid) sops []) as Hlen.
  destruct out as [m r]. simpl in Hout. subst r.
  destruct Hlen as [_ Hlen]. specialize (Hlen eq_refl). simpl in Hlen. subst m.
  unfold loop_post in Hspec. rewrite take_ge in Hspec by lia.
  destruct Hspec as (_ & Hres & _ & Hl' & Hf' & Hv & Hrow).
  simpl in Hres. rewrite Hres. simpl. split; [done|]. split; [done|].
  eexists. split; [eexists; by eauto|].
  destruct Hrow as [Hrow|[? _]]; [|done]. destruct (t_u _) as [[j adj]|] eqn:Eu.
  - destruct (put_adj_state _ _ _ _ _ _ _ _ adj j Hrow eq_refl)
      as (rows & n & mem & -> & Hput). split; [by eexists _, _, _|].
    right. exists adj. split; [|split; [|done]]; by inversion Hrow.
  - apply row_state_none in Hrow as [-> Hno]. simpl.
    split; [apply sem_frame_here|auto].
Qed.

Lemma sem_try_op_stopped e :
  out.2 = Some e ->
  let '((r, blk'), s') := sem_try_op E k x sops pid blk s in
  r = e /\ blk' = (if e =? 1 then out.1 else blk) /\ sem_frame k x s s' /\
  (i_undo s' = i_undo s /\ i_nundo s' = i_nundo s \/
   exists adj, vec_ok (ss_nsems x) adj /\
     (forall n, at0 adj n = undo_at (i_undo s) pid semid n) /\
     rows_put pid semid adj (i_undo s) (i_nundo s) (i_undo s') (i_nundo s')).
Proof.
  intros Hout. pose proof call_loop as Hspec. unfold sem_try_op.
  pose proof (in_range_ops_ok _ _ Hrange Hops) as Hok. unfold in_range in Hrange.
  rewrite negb_true_iff in Hrange. rewrite Hrange. destruct Hset as (Hl & _ & Hf).
  destruct out as [m r]. simpl in Hout. subst r.
  destruct Hspec as (Hi & Hres & Hne & Hl' & Hf' & Hv & Hrow).
  simpl in Hres. rewrite Hres, Hi. destruct (e =? 0) eqn:E0; [bprop; congruence|]. simpl.
  assert (Htake : ops_ok (ss_nsems x) (take m sops)) by (by apply Forall_take).
  assert (Hval : forall u, (rollback (rev (take m sops)) (t_val (try_loop E pid semid
            (ss_nsems x) sops 0 (ss_val x) None s)) u).1 = ss_val x).
  { intros u. eapply rollback_val; eauto. intros n. rewrite <-Hv, u16_val; [done|].
    by apply at0_Forall; [unfold val_ok, CNG_SEMVMX; lia|]. }
  specialize (Hval (t_u (try_loop E pid semid (ss_nsems x) sops 0 (ss_val x) None s))).
  destruct (rollback _ _ _) as [val u] eqn:Er. simpl in Hval. subst val.
  assert (Hx : set_vals x (ss_val x) (ss_lpid x) (ss_otime x) (ss_ctime x) (ss_tpid x)
               = x) by (by destruct x).
  rewrite Hx. split; [done|]. split; [done|].
  destruct Hrow as [Hrow|(_ & Hu & Hst & _)].
  2:{ rewrite Hu in Er. pose proof (rollback_none (rev (take m sops))
        (t_val (try_loop E pid semid (ss_nsems x) sops 0 (ss_val x) None s))) as Hn.
      rewrite Er in Hn. simpl in Hn. subst u. simpl. rewrite Hst, arena_alloc_state.
      split; [apply sem_frame_same|by left]. }
  destruct (t_u _) as [[j adj]|] eqn:Eu.
  - destruct (row_state_back _ _ _ _ _ _ _ _ _ Hrows Hrow) as (a0 & Ha0 & Hz & Hl0 & Hadj).
    assert (Hu : u = Some (j, a0)).
    { change u with ((ss_val x, u).2). rewrite <-Er. eapply rollback_adj; eauto. }
    subst u. destruct (put_adj_state _ _ _ _ _ _ _ _ a0 j Hrow eq_refl)
      as (rows & n & mem & -> & Hput). split; [by eexists _, _, _|]. right. eauto.
  - pose proof (rollback_none (rev (take m sops))
      (t_val (try_loop E pid semid (ss_nsems x) sops 0 (ss_val x) None s))) as Hn.
    rewrite Er in Hn. simpl in Hn. subst u. apply row_state_none in Hrow as [-> _]. simpl.
    split; [apply sem_frame_here|by left].
Qed.
End Call.

(** * The message queue: which message is taken, and the accounts
    (src/src/monitor/ipcreg.c) *)

(** ** Which message *)

(** [best] is the choice among the messages of [ms]: it qualifies, and it beats
    every other that qualifies.  A type selector of 0 or more takes the oldest;
    a negative one the oldest of the lowest type. *)
Definition picked (ms : list gmsg) (msgtyp msgflg : Z) (best : option (nat * gmsg))
    : Prop :=
  match best with
  | None => forall j m, ms !! j = Some m -> msg_matches m msgtyp msgflg = false
  | Some (i, b) =>
      ms !! i = Some b /\ msg_matches b msgtyp msgflg = true /\
      forall j m, ms !! j = Some m -> msg_matches m msgtyp msgflg = true ->
        if 0 <=? msgtyp then (i <= j)%nat
        else m_type b < m_type m \/ m_type b = m_type m /\ (i <= j)%nat
  end.

Lemma picked_unique ms msgtyp msgflg b1 b2 :
  picked ms msgtyp msgflg b1 -> picked ms msgtyp msgflg b2 -> b1 = b2.
Proof.
  destruct b1 as [[i m]|], b2 as [[j n]|]; simpl; [| | |done].
  - intros (Hi & Hmi & H1) (Hj & Hmj & H2).
    specialize (H1 j n Hj Hmj). specialize (H2 i m Hi Hmi).
    assert (i = j) as -> by (destruct (0 <=? msgtyp); lia). congruence.
  - intros (Hi & Hmi & _) H. by rewrite (H i m Hi) in Hmi.
  - intros H (Hj & Hmj & _). by rewrite (H j n Hj) in Hmj.
Qed.

Lemma picked_snoc_skip ms m msgtyp msgflg best :
  picked ms msgtyp msgflg best -> msg_matches m msgtyp msgflg = false ->
  picked (ms ++ [m]) msgtyp msgflg best.
Proof.
  intros H Hm. destruct best as [[i b]|]; simpl in *.
  - destruct H as (Hi & Hb & H). split; [by apply lookup_app_l_Some|].
    split; [done|]. intros j m' [Hj|[Hlen Hj]]%lookup_app_Some Hm'; [by eapply H|].
    apply list_lookup_singleton_Some in Hj as [_ <-]. congruence.
  - intros j m' [Hj|[Hlen Hj]]%lookup_app_Some; [by eapply H|].
    by apply list_lookup_singleton_Some in Hj as [_ <-].
Qed.

(** The first that qualifies, behind messages that do not. *)
Lemma picked_snoc_first ms m msgtyp msgflg :
  picked ms msgtyp msgflg None -> msg_matches m msgtyp msgflg = true ->
  picked (ms ++ [m]) msgtyp msgflg (Some (length ms, m)).
Proof.
  intros H Hm. simpl in *. split; [by rewrite lookup_app_r, Nat.sub_diag by lia|].
  split; [done|]. intros j m' [Hj|[Hlen Hj]]%lookup_app_Some Hm'.
  - by rewrite (H j m' Hj) in Hm'.
  - apply list_lookup_singleton_Some in Hj as [Hj <-].
    assert (j = length ms) as -> by lia. case_if; [done|]. by right.
Qed.

(** The walk, with [pre] behind it. *)
Lemma msg_pick_loop_spec ms msgtyp msgflg : forall pre best,
  picked pre msgtyp msgflg best -> (0 <= msgtyp -> best = None) ->
  picked (pre ++ ms) msgtyp msgflg
    (msg_pick_loop ms (length pre) msgtyp msgflg best).
Proof.
  induction ms as [|m ms IH]; intros pre best Hp Hnone; simpl.
  { by rewrite app_nil_r. }
  assert (Hnext : forall best', picked (pre ++ [m]) msgtyp msgflg best' ->
    (0 <= msgtyp -> best' = None) ->
    picked (pre ++ m :: ms) msgtyp msgflg
      (msg_pick_loop ms (S (length pre)) msgtyp msgflg best')).
  { intros best' Hb Hn. specialize (IH (pre ++ [m]) best' Hb Hn).
    rewrite length_app, Nat.add_comm in IH. simpl in IH.
    by rewrite <-app_assoc in IH. }
  destruct (msg_matches m msgtyp msgflg) eqn:Em; simpl.
  2:{ apply Hnext; [by apply picked_snoc_skip|done]. }
  assert (Hlook : forall l, (pre ++ m :: l) !! length pre = Some m).
  { intros. by rewrite lookup_app_r, Nat.sub_diag by lia. }
  destruct (0 <=? msgtyp) eqn:E0.
  - bprop. rewrite (Hnone E0) in Hp. simpl in Hp. simpl. rewrite Hlook.
    split; [done|]. split; [done|]. intros j m' Hj Hm'.
    assert (0 <=? msgtyp = true) as -> by (by bprop).
    destruct (decide (j < length pre)%nat) as [Hlt|]; [|lia].
    rewrite lookup_app_l in Hj by done. by rewrite (Hp j m' Hj) in Hm'.
  - assert (Hsnoc : forall j m', (pre ++ [m]) !! j = Some m' ->
      pre !! j = Some m' \/ j = length pre /\ m' = m).
    { intros j m' [Hj|[Hlen Hj]]%lookup_app_Some; [by left|].
      apply list_lookup_singleton_Some in Hj as [Hj <-]. right. split; [lia|done]. }
    destruct best as [[i b]|]; (apply Hnext; [|bprop; lia]); simpl in Hp |- *.
    + destruct Hp as (Hi & Hb & Hmin). apply lookup_lt_Some in Hi as Hlt.
      destruct (m_type m <? m_type b) eqn:Elt; bprop; simpl.
      * rewrite Hlook. split; [done|]. split; [done|].
        intros j m' [Hj|[-> ->]]%Hsnoc Hm'; rewrite (proj2 (Z.leb_gt _ _) E0); [|lia].
        specialize (Hmin j m' Hj Hm'). rewrite (proj2 (Z.leb_gt _ _) E0) in Hmin. lia.
      * split; [by apply lookup_app_l_Some|]. split; [done|].
        intros j m' [Hj|[-> ->]]%Hsnoc Hm'; [by eapply Hmin|].
        rewrite (proj2 (Z.leb_gt _ _) E0). lia.
    + rewrite Hlook. split; [done|]. split; [done|].
      intros j m' [Hj|[-> ->]]%Hsnoc Hm'; [by rewrite (Hp j m' Hj) in Hm'|].
      rewrite E0. lia.
Qed.

Lemma msg_pick_picked x msgtyp msgflg :
  picked (q_msgs x) msgtyp msgflg (msg_pick x msgtyp msgflg).
Proof. by apply (msg_pick_loop_spec _ _ _ [] None). Qed.

(** ** The accounts *)

Definition sizes (ms : list gmsg) : Z := foldr (fun m z => m_size m + z) 0 ms.

Definition msg_ok (m : gmsg) : Prop :=
  0 < m_type m /\ 0 <= m_size m <= CNG_MSGMAX /\
  m_size m = Z.of_nat (length (m_data m)).

(** The counters are the sizes and the number of the queued messages, at their
    64-bit width. *)
Definition queue_ok (x : msg_q) : Prop :=
  Forall msg_ok (q_msgs x) /\
  q_cbytes x = u64 (sizes (q_msgs x)) /\
  q_qnum x = u64 (Z.of_nat (length (q_msgs x))).

Lemma sizes_app a b : sizes (a ++ b) = sizes a + sizes b.
Proof. induction a as [|m a IH]; simpl; lia. Qed.

Lemma sizes_delete ms i m :
  ms !! i = Some m -> sizes (delete i ms) = sizes ms - m_size m.
Proof.
  intros H. rewrite (delete_take_drop ms i), sizes_app.
  rewrite <-(take_drop_middle ms i m H) at 3. rewrite sizes_app. simpl. lia.
Qed.

Lemma sizes_bound ms :
  Forall msg_ok ms -> 0 <= sizes ms <= CNG_MSGMAX * Z.of_nat (length ms).
Proof.
  induction 1 as [|m ms (_ & Hm & _) _ IH]; simpl; [unfold CNG_MSGMAX; lia|].
  rewrite Nat2Z.inj_succ. lia.
Qed.

Lemma queue_ok_enqueue E x m pid :
  queue_ok x -> msg_ok m -> queue_ok (msg_enqueue E x m pid).
Proof.
  intros (Hf & Hc & Hq) Hm. unfold queue_ok, msg_enqueue, set_queue. simpl.
  split; [apply Forall_app; auto|]. rewrite Hc, Hq, !wrapu_add_l by lia.
  rewrite sizes_app, length_app, Nat2Z.inj_add. simpl. split; f_equal; lia.
Qed.

Lemma queue_ok_unlink E x i m pid :
  queue_ok x -> q_msgs x !! i = Some m -> queue_ok (msg_unlink E x i m pid).
Proof.
  intros (Hf & Hc & Hq) Hi. unfold queue_ok, msg_unlink, set_queue. simpl.
  split; [by apply Forall_delete|]. rewrite Hc, Hq, !wrapu_sub_l by lia.
  rewrite (sizes_delete _ _ _ Hi). split; [done|]. f_equal.
  apply lookup_lt_Some in Hi as Hlt. rewrite length_delete by done. lia.
Qed.
