(* ===== verification/IpcInv.v ===== *)
(** * The registry's invariant (src/src/monitor/ipcreg.c)

    [ipc_wf] is what holds of the tables between two turns of the daemon's
    loop; the lemmas of this file say which writes keep it.  [IpcWf] composes
    them into every operation. *)

From stdpp Require Import base list strings gmap numbers.
From Stdlib Require Import ZArith Lia.
From S2P Require Import Prelude IpcData IpcOps IpcSem.

Open Scope Z_scope.

(** ** Slots *)

Section SlotPredicates.
Context {A : Type}.
Implicit Types (l : list (option A)) (P : A -> Prop) (R : A -> A -> Prop).

Definition has_slot l (k : nat) (x : A) : Prop := l !! k = Some (Some x).

Definition on_slots P l : Prop := forall k x, has_slot l k x -> P x.

(** No two slots are related. *)
Definition uniq R l : Prop :=
  forall i j x y, has_slot l i x -> has_slot l j y -> R x y -> i = j.

Lemma has_slot_write l k o j y :
  has_slot (<[k := o]> l) j y -> (j = k /\ o = Some y) \/ (j <> k /\ has_slot l j y).
Proof.
  unfold has_slot. intros H. destruct (decide (k = j)) as [->|Hne].
  - destruct (decide (j < length l)%nat) as [Hlt|Hge].
    + rewrite list_lookup_insert_eq in H by done. left. split; congruence.
    + rewrite list_insert_ge in H by lia. apply lookup_lt_Some in H. lia.
  - rewrite list_lookup_insert_ne in H by done. auto.
Qed.

Lemma has_slot_here l k x y :
  has_slot l k x -> has_slot (<[k := Some y]> l) k y.
Proof.
  unfold has_slot. intros H. apply lookup_lt_Some in H.
  by rewrite list_lookup_insert_eq.
Qed.

Lemma has_slot_fun l k x y : has_slot l k x -> has_slot l k y -> x = y.
Proof. unfold has_slot. congruence. Qed.

Lemma on_slots_write P l k o :
  on_slots P l -> (forall x, o = Some x -> P x) -> on_slots P (<[k := o]> l).
Proof.
  intros H Ho j y [[-> ->]|[_ Hy]]%has_slot_write; [by apply Ho|by eapply H].
Qed.

Lemma on_slots_impl P (Q : A -> Prop) l :
  on_slots P l -> (forall k x, has_slot l k x -> P x -> Q x) -> on_slots Q l.
Proof. intros H HQ k x Hx. eauto. Qed.

Lemma uniq_clear R l k : uniq R l -> uniq R (<[k := None]> l).
Proof.
  intros H i j x y [[_ ?]|[_ Hi]]%has_slot_write [[_ ?]|[_ Hj]]%has_slot_write;
    naive_solver.
Qed.

Lemma uniq_replace R l k x x' :
  Symmetric R -> uniq R l -> has_slot l k x ->
  (forall y, R x' y -> R x y) -> uniq R (<[k := Some x']> l).
Proof.
  intros Hsym H Hk HR i j y z [[-> [= <-]]|[Hi Hy]]%has_slot_write
    [[-> [= <-]]|[Hj Hz]]%has_slot_write Hyz; [done|..].
  - apply (H k j x z); auto.
  - symmetry. apply (H k i x y); auto.
  - by apply (H i j y z).
Qed.

Lemma uniq_fill R l k x :
  Symmetric R -> uniq R l ->
  (forall j y, has_slot l j y -> ~ R x y) -> uniq R (<[k := Some x]> l).
Proof.
  intros Hsym H HR i j y z [[-> [= <-]]|[Hi Hy]]%has_slot_write
    [[-> [= <-]]|[Hj Hz]]%has_slot_write Hyz; [done|..].
  - by destruct (HR j z).
  - apply Hsym in Hyz. by destruct (HR i y).
  - by apply (H i j y z).
Qed.
End SlotPredicates.

(** ** The invariant *)

(** A set of this id and size is in the table; a queue of this id is. *)
Definition sem_live (l : list (option sem_set)) (id : Z) (nsems : nat) : Prop :=
  exists k x, has_slot l k x /\ ss_semid x = id /\ ss_nsems x = nsems.
Definition msq_live (l : list (option msg_q)) (id : Z) : Prop :=
  exists k x, has_slot l k x /\ q_msqid x = id.

Definition same_semid (x y : sem_set) : Prop := ss_semid x = ss_semid y.
Definition same_semkey (x y : sem_set) : Prop :=
  ss_key x = ss_key y /\ ss_key y <> 0.
Definition same_msqid (x y : msg_q) : Prop := q_msqid x = q_msqid y.
Definition same_msqkey (x y : msg_q) : Prop := q_key x = q_key y /\ q_key y <> 0.
Definition same_owner (x y : sem_undo) : Prop :=
  u_pid x = u_pid y /\ u_semid x = u_semid y.
Definition same_seq (x y : waiter) : Prop := w_seq x = w_seq y.

Definition id_ok (id : Z) : Prop := 0 < id < 2 ^ 31.

Definition sem_ok (x : sem_set) : Prop :=
  set_ok x /\ id_ok (ss_semid x) /\ (0 < ss_nsems x)%nat /\
  Z.of_nat (ss_nsems x) <= CNG_SEMMSL.

Definition msq_ok (x : msg_q) : Prop := queue_ok x /\ id_ok (q_msqid x).

Definition row_ok (sems : list (option sem_set)) (u : sem_undo) : Prop :=
  sem_live sems (u_semid u) (length (u_adj u)) /\ Forall adj_ok (u_adj u).

(** A parked operation: its object is there, its vector fits the set, and the
    operation it blocked on is one of the vector. *)
Definition waiter_ok (sems : list (option sem_set)) (msqs : list (option msg_q))
    (seq : Z) (w : waiter) : Prop :=
  0 < w_seq w < seq /\
  match w_op w with
  | REQ_SEMOP =>
      exists nsems, sem_live sems (w_id w) nsems /\ Forall op_ok (w_sops w) /\
        in_range nsems (w_sops w) = true /\ (w_blk w < length (w_sops w))%nat
  | REQ_MSGSND =>
      msq_live msqs (w_id w) /\ exists m, w_msg w = Some m /\ msg_ok m
  | REQ_MSGRCV => msq_live msqs (w_id w)
  | _ => False
  end.

Record ipc_wf (s : ipc) : Prop := IpcWf {
  wf_tabs :
    if i_tab s then
      length (i_sem s) = SEM_SET_MAX /\ length (i_undo s) = SEM_UNDO_MAX /\
      length (i_msq s) = MSG_QUEUE_MAX /\ length (i_wait s) = IPC_WAITER_MAX
    else i_sem s = [] /\ i_undo s = [] /\ i_msq s = [] /\ i_wait s = [];
  wf_sets : on_slots sem_ok (i_sem s);
  wf_semids : uniq same_semid (i_sem s);
  wf_semkeys : uniq same_semkey (i_sem s);
  wf_rows : on_slots (row_ok (i_sem s)) (i_undo s);
  wf_owners : uniq same_owner (i_undo s);
  wf_queues : on_slots msq_ok (i_msq s);
  wf_msqids : uniq same_msqid (i_msq s);
  wf_msqkeys : uniq same_msqkey (i_msq s);
  wf_waiters : on_slots (waiter_ok (i_sem s) (i_msq s) (i_wait_seq s)) (i_wait s);
  wf_seqs : uniq same_seq (i_wait s);
  wf_nwait : i_nwait s = Z.of_nat (count_used (i_wait s));
  wf_nundo : i_nundo s = Z.of_nat (count_used (i_undo s));
  wf_next_semid : id_ok (i_next_semid s);
  wf_next_msqid : id_ok (i_next_msqid s);
  wf_wait_seq : 0 < i_wait_seq s }.

#[export] Instance same_semid_sym : Symmetric same_semid.
Proof. unfold same_semid. by intros ? ? ->. Qed.
#[export] Instance same_semkey_sym : Symmetric same_semkey.
Proof. unfold same_semkey. intros ? ? [-> ?]. auto. Qed.
#[export] Instance same_msqid_sym : Symmetric same_msqid.
Proof. unfold same_msqid. by intros ? ? ->. Qed.
#[export] Instance same_msqkey_sym : Symmetric same_msqkey.
Proof. unfold same_msqkey. intros ? ? [-> ?]. auto. Qed.
#[export] Instance same_owner_sym : Symmetric same_owner.
Proof. unfold same_owner. intros ? ? [-> ->]. auto. Qed.
#[export] Instance same_seq_sym : Symmetric same_seq.
Proof. unfold same_seq. by intros ? ? ->. Qed.

(** ** Lookups *)

Lemma sem_find_Some s id k x :
  sem_find s id = Some (k, x) -> has_slot (i_sem s) k x /\ ss_semid x = id.
Proof.
  unfold sem_find. case_if; [done|]. intros H.
  apply find_used_Some in H as (H1 & H2 & _). bprop. auto.
Qed.

Lemma msg_find_Some s id k x :
  msg_find s id = Some (k, x) -> has_slot (i_msq s) k x /\ q_msqid x = id.
Proof.
  unfold msg_find. case_if; [done|]. intros H.
  apply find_used_Some in H as (H1 & H2 & _). bprop. auto.
Qed.

Lemma wf_tab s k x : ipc_wf s -> has_slot (i_sem s) k x -> i_tab s = true.
Proof.
  intros Hwf Hk. pose proof (wf_tabs s Hwf) as H.
  destruct (i_tab s); [done|]. destruct H as [H _]. by rewrite H in Hk.
Qed.

Lemma wf_tab_msq s k x : ipc_wf s -> has_slot (i_msq s) k x -> i_tab s = true.
Proof.
  intros Hwf Hk. pose proof (wf_tabs s Hwf) as H.
  destruct (i_tab s); [done|]. destruct H as (_ & _ & H & _). by rewrite H in Hk.
Qed.

(** An id that is in the table is found. *)
Lemma sem_find_slot s k x :
  ipc_wf s -> has_slot (i_sem s) k x -> sem_find s (ss_semid x) = Some (k, x).
Proof.
  intros Hwf Hk. unfold sem_find. rewrite (wf_tab s k x Hwf Hk).
  destruct (wf_sets s Hwf k x Hk) as (_ & [Hpos _] & _).
  rewrite (proj2 (Z.leb_gt _ _) Hpos). simpl.
  apply find_used_unique; [done|by bprop|].
  intros j y Hj Hy. bprop. by apply (wf_semids s Hwf j k y x).
Qed.

Lemma msg_find_slot s k x :
  ipc_wf s -> has_slot (i_msq s) k x -> msg_find s (q_msqid x) = Some (k, x).
Proof.
  intros Hwf Hk. unfold msg_find. rewrite (wf_tab_msq s k x Hwf Hk).
  destruct (wf_queues s Hwf k x Hk) as (_ & [Hpos _]).
  rewrite (proj2 (Z.leb_gt _ _) Hpos). simpl.
  apply find_used_unique; [done|by bprop|].
  intros j y Hj Hy. bprop. by apply (wf_msqids s Hwf j k y x).
Qed.

Lemma sem_live_find s id n :
  ipc_wf s -> sem_live (i_sem s) id n ->
  exists k x, sem_find s id = Some (k, x) /\ has_slot (i_sem s) k x /\ ss_nsems x = n.
Proof.
  intros Hwf (k & x & Hk & <- & <-). exists k, x. split; [by apply sem_find_slot|done].
Qed.

Lemma msq_live_find s id :
  ipc_wf s -> msq_live (i_msq s) id ->
  exists k x, msg_find s id = Some (k, x) /\ has_slot (i_msq s) k x.
Proof.
  intros Hwf (k & x & Hk & <-). exists k, x. split; [by apply msg_find_slot|done].
Qed.

(** A queue rewritten in place is still found. *)
Lemma msg_find_replace s id k x x' :
  msg_find s id = Some (k, x) -> q_msqid x' = q_msqid x ->
  msg_find (put_msq k x' s) id = Some (k, x').
Proof.
  unfold msg_find. simpl. case_if; [done|]. intros H Hid.
  apply find_used_Some in H as (Hk & Hx & Hb). apply find_used_write_here.
  - by rewrite Hid.
  - by apply lookup_lt_Some in Hk.
  - exact Hb.
Qed.

(** The rows of a set match it. *)
Lemma wf_rows_ok s k x :
  ipc_wf s -> has_slot (i_sem s) k x -> rows_ok (ss_semid x) (ss_nsems x) (i_undo s).
Proof.
  intros Hwf Hk j u Hj Hu.
  destruct (wf_rows s Hwf j u Hj) as [(k' & x' & Hk' & Hid & Hn) Hf].
  split; [|done]. assert (k = k') as <-.
  { apply (wf_semids s Hwf k k' x x'); auto. unfold same_semid. congruence. }
  by rewrite (has_slot_fun _ _ _ _ Hk Hk').
Qed.

(** ** Writes that keep the invariant *)

(** Rebuild the invariant field by field, leaving what is not a hypothesis. *)
Ltac wf_fields Hwf :=
  let H1 := fresh "Htabs" in
  pose proof (wf_tabs _ Hwf) as H1; destruct Hwf; constructor; simpl in *;
  try assumption.

Lemma wf_set_mem mem s : ipc_wf s -> ipc_wf (set_mem mem s).
Proof. intros H. wf_fields H. Qed.

Lemma wf_emit e s : ipc_wf s -> ipc_wf (emit e s).
Proof. intros H. wf_fields H. Qed.

Lemma wf_set_undo rows n s :
  ipc_wf s -> length rows = length (i_undo s) ->
  on_slots (row_ok (i_sem s)) rows -> uniq same_owner rows ->
  n = Z.of_nat (count_used rows) -> ipc_wf (set_undo rows n s).
Proof.
  intros H Hl Hrows Hown Hn. wf_fields H.
  destruct (i_tab s); [by rewrite Hl|]. destruct Htabs as (? & Hu & ? & ?).
  rewrite Hu in Hl. apply nil_length_inv in Hl. auto.
Qed.

Lemma wf_set_wait ws n s :
  ipc_wf s -> length ws = length (i_wait s) ->
  on_slots (waiter_ok (i_sem s) (i_msq s) (i_wait_seq s)) ws -> uniq same_seq ws ->
  n = Z.of_nat (count_used ws) -> ipc_wf (set_wait ws n s).
Proof.
  intros H Hl Hrows Hown Hn. wf_fields H.
  destruct (i_tab s); [by rewrite Hl|]. destruct Htabs as (? & ? & ? & Hw).
  rewrite Hw in Hl. apply nil_length_inv in Hl. auto.
Qed.

(** The parts of the state that a set's slot takes part in. *)
Lemma sem_live_impl (l l' : list (option sem_set)) :
  (forall k x, has_slot l k x -> sem_live l' (ss_semid x) (ss_nsems x)) ->
  forall id n, sem_live l id n -> sem_live l' id n.
Proof. intros H id n (k & x & Hk & <- & <-). eauto. Qed.

Lemma msq_live_impl (l l' : list (option msg_q)) :
  (forall k x, has_slot l k x -> msq_live l' (q_msqid x)) ->
  forall id, msq_live l id -> msq_live l' id.
Proof. intros H id (k & x & Hk & <-). eauto. Qed.

Lemma row_ok_mono l l' u :
  (forall id n, sem_live l id n -> sem_live l' id n) -> row_ok l u -> row_ok l' u.
Proof. intros H [? ?]. split; auto. Qed.

Lemma waiter_ok_mono l l' m m' seq seq' w :
  (forall id n, sem_live l id n -> sem_live l' id n) ->
  (forall id, msq_live m id -> msq_live m' id) -> seq <= seq' ->
  waiter_ok l m seq w -> waiter_ok l' m' seq' w.
Proof.
  intros Hl Hm Hseq [Hs H]. split; [lia|]. destruct (w_op w); try done; naive_solver.
Qed.

(** The sets change, every live one staying live. *)
Lemma wf_set_sem l s :
  ipc_wf s -> length l = length (i_sem s) -> on_slots sem_ok l ->
  uniq same_semid l -> uniq same_semkey l ->
  (forall k x, has_slot (i_sem s) k x -> sem_live l (ss_semid x) (ss_nsems x)) ->
  ipc_wf (set_sem l s).
Proof.
  intros H Hl Hok Hid Hkey Hlive. pose proof (sem_live_impl _ _ Hlive) as Hmono.
  wf_fields H.
  - destruct (i_tab s); [by rewrite Hl|]. destruct Htabs as (Hs & ? & ? & ?).
    rewrite Hs in Hl. apply nil_length_inv in Hl. auto.
  - eapply on_slots_impl; [done|]. intros ? ? _. by apply row_ok_mono.
  - eapply on_slots_impl; [done|]. intros ? ? _. by apply waiter_ok_mono.
Qed.

Lemma wf_set_msq l s :
  ipc_wf s -> length l = length (i_msq s) -> on_slots msq_ok l ->
  uniq same_msqid l -> uniq same_msqkey l ->
  (forall k x, has_slot (i_msq s) k x -> msq_live l (q_msqid x)) ->
  ipc_wf (set_msq l s).
Proof.
  intros H Hl Hok Hid Hkey Hlive. pose proof (msq_live_impl _ _ Hlive) as Hmono.
  wf_fields H.
  - destruct (i_tab s); [by rewrite Hl|]. destruct Htabs as (? & ? & Hs & ?).
    rewrite Hs in Hl. apply nil_length_inv in Hl. auto.
  - eapply on_slots_impl; [done|]. intros ? ? _. by apply waiter_ok_mono.
Qed.

Definition same_set (x x' : sem_set) : Prop :=
  ss_semid x' = ss_semid x /\ ss_key x' = ss_key x /\ ss_nsems x' = ss_nsems x.
Definition same_queue (x x' : msg_q) : Prop :=
  q_msqid x' = q_msqid x /\ q_key x' = q_key x.

Lemma sem_live_replace l k x x' :
  has_slot l k x -> same_set x x' ->
  forall j y, has_slot l j y -> sem_live (<[k := Some x']> l) (ss_semid y) (ss_nsems y).
Proof.
  intros Hk (Hid & _ & Hn) j y Hj. destruct (decide (j = k)) as [->|Hne].
  - rewrite <-(has_slot_fun _ _ _ _ Hk Hj). exists k, x'.
    split; [by eapply has_slot_here|]. auto.
  - exists j, y. split; [|done]. unfold has_slot. by rewrite list_lookup_insert_ne.
Qed.

Lemma msq_live_replace l k x x' :
  has_slot l k x -> same_queue x x' ->
  forall j y, has_slot l j y -> msq_live (<[k := Some x']> l) (q_msqid y).
Proof.
  intros Hk (Hid & _) j y Hj. destruct (decide (j = k)) as [->|Hne].
  - rewrite <-(has_slot_fun _ _ _ _ Hk Hj). exists k, x'.
    split; [by eapply has_slot_here|]. auto.
  - exists j, y. split; [|done]. unfold has_slot. by rewrite list_lookup_insert_ne.
Qed.

Lemma wf_put_sem s k x x' :
  ipc_wf s -> has_slot (i_sem s) k x -> same_set x x' -> set_ok x' ->
  ipc_wf (put_sem k x' s).
Proof.
  intros Hwf Hk Hsame Hok. destruct (wf_sets s Hwf k x Hk) as (_ & Hid & Hn & Hm).
  pose proof Hsame as (E1 & E2 & E3). apply wf_set_sem; auto.
  - by rewrite length_insert.
  - apply on_slots_write; [apply Hwf|]. intros y [= <-]. unfold sem_ok.
    rewrite E1, E3. auto.
  - eapply uniq_replace; [apply _|apply Hwf|done|]. unfold same_semid. congruence.
  - eapply uniq_replace; [apply _|apply Hwf|done|]. unfold same_semkey.
    intros y. by rewrite E2.
  - by eapply sem_live_replace.
Qed.

Lemma wf_put_msq s k x x' :
  ipc_wf s -> has_slot (i_msq s) k x -> same_queue x x' -> queue_ok x' ->
  ipc_wf (put_msq k x' s).
Proof.
  intros Hwf Hk Hsame Hok. destruct (wf_queues s Hwf k x Hk) as (_ & Hid).
  pose proof Hsame as (E1 & E2). apply wf_set_msq; auto.
  - by rewrite length_insert.
  - apply on_slots_write; [apply Hwf|]. intros y [= <-]. unfold msq_ok.
    rewrite E1. auto.
  - eapply uniq_replace; [apply _|apply Hwf|done|]. unfold same_msqid. congruence.
  - eapply uniq_replace; [apply _|apply Hwf|done|]. unfold same_msqkey.
    intros y. by rewrite E2.
  - by eapply msq_live_replace.
Qed.

(** A new set in a free slot. *)
Lemma wf_add_sem s k x :
  ipc_wf s -> i_sem s !! k = Some None -> sem_ok x ->
  (forall j y, has_slot (i_sem s) j y -> ss_semid y <> ss_semid x) ->
  (ss_key x <> 0 -> forall j y, has_slot (i_sem s) j y -> ss_key y <> ss_key x) ->
  ipc_wf (put_sem k x s).
Proof.
  intros Hwf Hk Hok Hid Hkey. apply wf_set_sem; auto.
  - by rewrite length_insert.
  - apply on_slots_write; [apply Hwf|]. by intros y [= <-].
  - apply uniq_fill; [apply _|apply Hwf|]. intros j y Hj Hs. by destruct (Hid j y Hj).
  - apply uniq_fill; [apply _|apply Hwf|]. intros j y Hj [Hs Hz].
    destruct (Hkey ltac:(congruence) j y Hj). done.
  - intros j y Hj. exists j, y. split; [|done]. unfold has_slot in *.
    rewrite list_lookup_insert_ne; [done|]. intros ->. congruence.
Qed.

Lemma wf_add_msq s k x :
  ipc_wf s -> i_msq s !! k = Some None -> msq_ok x ->
  (forall j y, has_slot (i_msq s) j y -> q_msqid y <> q_msqid x) ->
  (q_key x <> 0 -> forall j y, has_slot (i_msq s) j y -> q_key y <> q_key x) ->
  ipc_wf (put_msq k x s).
Proof.
  intros Hwf Hk Hok Hid Hkey. apply wf_set_msq; auto.
  - by rewrite length_insert.
  - apply on_slots_write; [apply Hwf|]. by intros y [= <-].
  - apply uniq_fill; [apply _|apply Hwf|]. intros j y Hj Hs. by destruct (Hid j y Hj).
  - apply uniq_fill; [apply _|apply Hwf|]. intros j y Hj [Hs Hz].
    destruct (Hkey ltac:(congruence) j y Hj). done.
  - intros j y Hj. exists j, y. split; [|done]. unfold has_slot in *.
    rewrite list_lookup_insert_ne; [done|]. intros ->. congruence.
Qed.

#[export] Hint Resolve wf_set_mem wf_emit : cng.

(** * Every operation keeps the registry's invariant
    (src/src/monitor/ipcreg.c) *)

(** ** Undo rows *)

Lemma sem_undo_eta u : SemUndo (u_pid u) (u_start u) (u_semid u) (u_adj u) = u.
Proof. by destruct u. Qed.

Lemma wf_rows_put s k x pid adj rows n :
  ipc_wf s -> has_slot (i_sem s) k x -> vec_ok (ss_nsems x) adj ->
  rows_put pid (ss_semid x) adj (i_undo s) (i_nundo s) rows n ->
  ipc_wf (set_undo rows n s).
Proof.
  intros Hwf Hk [Hl Hf] Hput.
  assert (Hnew : forall st, row_ok (i_sem s) (SemUndo pid st (ss_semid x) adj)).
  { intros st. split; [|done]. exists k, x. by rewrite <-Hl. }
  destruct Hput as [j r Hr|j st Hno Hj].
  - apply find_used_Some in Hr as (Hj & Hi & _). unfold undo_is in Hi. bprop.
    apply wf_set_undo; auto.
    + by rewrite length_insert.
    + apply on_slots_write; [apply Hwf|]. intros u [= <-]. auto.
    + eapply uniq_replace; [apply _|apply Hwf|done|]. unfold same_owner. simpl.
      intros y [? ?]. destruct Hi. split; congruence.
    + rewrite (count_used_replace _ _ _ _ Hj). apply Hwf.
  - pose proof (find_free_Some _ _ Hj) as Hjn. apply wf_set_undo; auto.
    + by rewrite length_insert.
    + apply on_slots_write; [apply Hwf|]. intros u [= <-]. auto.
    + apply uniq_fill; [apply _|apply Hwf|]. intros i u Hi [H1 H2]. simpl in *.
      pose proof (find_used_None _ _ _ _ Hno Hi) as Hf'. unfold undo_is in Hf'.
      rewrite <-H1, <-H2, !Z.eqb_refl in Hf'. done.
    + rewrite (count_used_fill _ _ _ Hjn), (wf_nundo s Hwf). lia.
Qed.

Lemma wf_undo_free s k u :
  ipc_wf s -> has_slot (i_undo s) k u -> ipc_wf (sem_undo_free k s).2.
Proof.
  intros Hwf Hk. unfold sem_undo_free, modify. simpl. apply wf_set_undo; auto.
  - by rewrite length_insert.
  - apply on_slots_write; [apply Hwf|done].
  - apply uniq_clear, Hwf.
  - pose proof (count_used_clear _ _ _ Hk). pose proof (wf_nundo s Hwf). lia.
Qed.

(** A map that keeps who owns each row. *)
Lemma has_slot_map {A B} (f : option A -> option B) l k y :
  has_slot (map f l) k y -> exists o, l !! k = Some o /\ f o = Some y.
Proof.
  unfold has_slot. rewrite list_lookup_fmap.
  destruct (l !! k) as [o|]; simpl; [|done]. intros [= H]. eauto.
Qed.

Lemma count_used_map {A B} (f : option A -> option B) l :
  (forall o, is_Some (f o) <-> is_Some o) -> count_used (map f l) = count_used l.
Proof.
  intros H. induction l as [|o l IH]; simpl; [done|].
  pose proof (H o) as Ho. destruct o as [a|], (f _) as [b|]; simpl; auto.
  - by destruct Ho as [_ [? ?]]; eauto.
  - by destruct Ho as [[? ?] _]; eauto.
Qed.

Lemma clear_row_Some nsems semid semnum o u :
  clear_row nsems semid semnum o = Some u ->
  exists u0, o = Some u0 /\ u_pid u = u_pid u0 /\ u_start u = u_start u0 /\
    u_semid u = u_semid u0 /\
    (u_semid u0 <> semid -> u = u0) /\
    (u_semid u0 = semid -> length (u_adj u0) = nsems ->
     length (u_adj u) = nsems /\
     forall n, at0 (u_adj u) n
               = if (semnum <? 0) || (Z.of_nat n =? semnum) then 0
                 else at0 (u_adj u0) n).
Proof.
  unfold clear_row. destruct o as [u0|]; [|done]. intros H. exists u0.
  split; [done|]. destruct (u_semid u0 =? semid) eqn:E1; bprop.
  2:{ simplify_eq. by split_and!. }
  destruct (semnum <? 0) eqn:E2 in H |- *.
  { simplify_eq. simpl. do 3 (split; [done|]). split; [congruence|].
    intros _ Hl. split.
    - rewrite length_app, length_replicate, length_drop. lia.
    - intros n. rewrite drop_ge, app_nil_r by lia. apply at0_replicate0. }
  destruct (semnum <? _) eqn:E3 in H |- *; bprop; simplify_eq; simpl;
    do 3 (split; [done|]); (split; [congruence|]); intros _ Hl.
  - split; [by rewrite length_insert|]. intros n. rewrite at0_insert by lia.
    destruct (Z.of_nat n =? semnum) eqn:En; case_decide; bprop; lia || done.
  - split; [done|].
    intros n. destruct (Z.of_nat n =? semnum) eqn:En; [|done]. bprop. simpl.
    unfold at0. rewrite lookup_ge_None_2; [done|lia].
Qed.

Lemma Forall_at0 (P : Z -> Prop) l : (forall n, P (at0 l n)) -> Forall P l.
Proof.
  intros H. apply Forall_lookup. intros i x Hi. specialize (H i). unfold at0 in H.
  by rewrite Hi in H.
Qed.

Lemma wf_undo_clear s semid semnum : ipc_wf s -> ipc_wf (sem_undo_clear semid semnum s).2.
Proof.
  intros Hwf. unfold sem_undo_clear, modify. simpl.
  destruct (sem_find s semid) as [[k x]|] eqn:Ef; [|done].
  apply sem_find_Some in Ef as [Hk <-].
  pose proof (wf_rows_ok s k x Hwf Hk) as Hrows. apply wf_set_undo; auto.
  - apply length_map.
  - intros j u Hj. apply has_slot_map in Hj as (o & Ho & Hu).
    apply clear_row_Some in Hu as (u0 & -> & _ & _ & Hs & Hne & Heq).
    pose proof (wf_rows s Hwf j u0 Ho) as [Hlive Hok].
    destruct (decide (u_semid u0 = ss_semid x)) as [E1|E1]; [|by rewrite (Hne E1)].
    destruct (Hrows j u0 Ho E1) as [Hl _]. destruct (Heq E1 Hl) as [Hl' Hat].
    split; [by rewrite Hs, Hl', <-Hl|]. apply Forall_at0. intros n. rewrite Hat.
    assert (Hz : adj_ok 0) by (unfold adj_ok, CNG_SEMAEM; lia).
    case_if; [done|]. by apply at0_Forall.
  - intros i j u v Hi Hj Huv. apply has_slot_map in Hi as (o & Ho & Hu).
    apply has_slot_map in Hj as (o' & Ho' & Hv).
    apply clear_row_Some in Hu as (u0 & -> & Hp & _ & Hs & _).
    apply clear_row_Some in Hv as (v0 & -> & Hp' & _ & Hs' & _).
    apply (wf_owners s Hwf i j u0 v0); [done|done|]. destruct Huv.
    split; congruence.
  - rewrite count_used_map; [apply Hwf|]. intros [u|]; simpl; [|done].
    unfold is_Some. repeat case_if; naive_solver.
Qed.

(** ** Repaying what a dead process owed *)

Definition clamp (v : Z) : Z := Z.max 0 (Z.min CNG_SEMVMX v).

Lemma clamp_ok v : val_ok (clamp v).
Proof. unfold clamp, val_ok, CNG_SEMVMX. lia. Qed.

Lemma clamp_id v : val_ok v -> clamp v = v.
Proof. unfold clamp, val_ok, CNG_SEMVMX. lia. Qed.

Lemma apply_adj_spec pid val : forall lpid adj,
  length lpid = length val -> length adj = length val -> Forall val_ok val ->
  let '(vs, ls, touched) := apply_adj val lpid adj pid in
  length vs = length val /\ length ls = length val /\ Forall val_ok vs /\
  (forall n, at0 vs n = clamp (at0 val n + at0 adj n)) /\
  touched = existsb (fun a => negb (a =? 0)) adj.
Proof.
  induction val as [|v val IH]; intros [|l lpid] [|a adj] Hl Ha Hok; simpl in *; try lia.
  { repeat split; auto. }
  inversion Hok as [|? ? Hv Hok']; subst.
  specialize (IH lpid adj ltac:(lia) ltac:(lia) Hok').
  destruct (apply_adj val lpid adj pid) as [[vs ls] t].
  destruct IH as (H1 & H2 & H3 & H4 & H5).
  destruct (a =? 0) eqn:Ea; simpl; repeat split; try lia; auto.
  - intros [|n]; [|apply H4]. unfold at0. simpl. bprop. subst a.
    by rewrite Z.add_0_r, clamp_id.
  - constructor; [|done]. assert (Hc : val_ok (clamp (v + a))) by apply clamp_ok.
    destruct (v + a <? 0) eqn:E1; destruct (CNG_SEMVMX <? _) eqn:E2; bprop;
      rewrite u16_val; unfold val_ok, CNG_SEMVMX in *; lia.
  - intros [|n]; [|apply H4]. unfold at0. simpl. unfold clamp.
    destruct (v + a <? 0) eqn:E1; destruct (CNG_SEMVMX <? _) eqn:E2; bprop;
      rewrite u16_val; unfold val_ok, CNG_SEMVMX in *; lia.
Qed.

(** A slot keeps its set, whatever becomes of the values. *)
Definition sems_keep (s s' : ipc) : Prop :=
  forall k x, has_slot (i_sem s) k x ->
  exists x', has_slot (i_sem s') k x' /\ same_set x x'.

#[export] Instance sems_keep_refl : Reflexive sems_keep.
Proof. intros s k x H. exists x. by repeat split. Qed.
#[export] Instance sems_keep_trans : Transitive sems_keep.
Proof.
  intros s1 s2 s3 H12 H23 k x H. destruct (H12 k x H) as (y & Hy & E1).
  destruct (H23 k y Hy) as (z & Hz & E2). exists z. split; [done|].
  unfold same_set in *. intuition congruence.
Qed.

Lemma sems_keep_eq s s' : i_sem s' = i_sem s -> sems_keep s s'.
Proof. intros E k x H. exists x. rewrite E. by repeat split. Qed.

Lemma sems_keep_put s k x x' :
  has_slot (i_sem s) k x -> same_set x x' -> sems_keep s (put_sem k x' s).
Proof.
  intros Hk Hs j y Hj. destruct (decide (j = k)) as [->|Hne].
  - rewrite <-(has_slot_fun _ _ _ _ Hk Hj). exists x'.
    split; [by eapply has_slot_here|done].
  - exists y. split; [|by repeat split]. unfold has_slot. simpl.
    by rewrite list_lookup_insert_ne.
Qed.

Lemma same_set_vals x val lpid ot ct tp : same_set x (set_vals x val lpid ot ct tp).
Proof. by repeat split. Qed.

#[export] Hint Resolve same_set_vals : cng.

Section Wf.
Context (E : env).

(** What applying a row does: the set's values move by it, clamped; the row goes. *)
Lemma sem_undo_apply_spec s i u :
  ipc_wf s -> has_slot (i_undo s) i u ->
  exists k x x', has_slot (i_sem s) k x /\ ss_semid x = u_semid u /\
  same_set x x' /\ set_ok x' /\
  (forall n, at0 (ss_val x') n = clamp (at0 (ss_val x) n + at0 (u_adj u) n)) /\
  (sem_undo_apply E i u s).2 = (sem_undo_free i (put_sem k x' s)).2.
Proof.
  intros Hwf Hi. destruct (wf_rows s Hwf i u Hi) as [Hlive Hok].
  destruct (sem_live_find s _ _ Hwf Hlive) as (k & x & Hf & Hk & Hn).
  destruct (wf_sets s Hwf k x Hk) as [(Hl1 & Hl2 & Hv) _].
  pose proof (apply_adj_spec (u_pid u) (ss_val x) (ss_lpid x) (u_adj u)
    ltac:(lia) ltac:(lia) Hv) as Hspec.
  unfold sem_undo_apply. rewrite Hf.
  destruct (apply_adj _ _ _ _) as [[vs ls] t]. destruct Hspec as (H1 & H2 & H3 & H4 & _).
  exists k, x, (set_vals x vs ls (if t then e_now_sec E else ss_otime x)
                  (ss_ctime x) (ss_tpid x)).
  apply sem_find_Some in Hf as [_ Hid].
  repeat split; auto; simpl; lia.
Qed.

Lemma wf_undo_apply s i u :
  ipc_wf s -> has_slot (i_undo s) i u ->
  let s' := (sem_undo_apply E i u s).2 in
  ipc_wf s' /\ sems_keep s s' /\ i_undo s' = <[i := None]> (i_undo s).
Proof.
  intros Hwf Hi. destruct (sem_undo_apply_spec s i u Hwf Hi)
    as (k & x & x' & Hk & _ & Hsame & Hok & _ & ->). split; [|split].
  - eapply wf_undo_free; [by eapply wf_put_sem|done].
  - etransitivity; [by eapply sems_keep_put|]. by apply sems_keep_eq.
  - done.
Qed.

(** The loop over the rows: [rows] is the table from index [i] on. *)
Lemma wf_reclaim_rows only rows : forall i applied s,
  ipc_wf s -> drop i (i_undo s) = rows ->
  let s' := (reclaim_rows E only rows i applied s).2 in
  ipc_wf s' /\ sems_keep s s'.
Proof.
  induction rows as [|o rows IH]; intros i applied s Hwf Hd; [by split|].
  assert (Hi : i_undo s !! i = Some o).
  { rewrite <-(Nat.add_0_r i), <-lookup_drop, Hd. done. }
  assert (Hd' : drop (S i) (i_undo s) = rows).
  { rewrite <-Nat.add_1_r, <-drop_drop, Hd. done. }
  destruct o as [u|]; simpl; [|by apply IH].
  case_if; [|by apply IH].
  destruct (wf_undo_apply s i u Hwf Hi) as (Hwf' & Hkeep & Hrows).
  unfold mbind, M_bind. destruct (sem_undo_apply E i u s) as [[] s1]. simpl in *.
  destruct (IH (S i) true s1 Hwf') as [Hwf2 Hkeep2].
  { by rewrite Hrows, drop_insert_lt by lia. }
  split; [done|]. by etransitivity.
Qed.

Lemma wf_reclaim_set s x :
  ipc_wf s ->
  let s' := (sem_reclaim_set E x s).2 in ipc_wf s' /\ sems_keep s s'.
Proof.
  intros Hwf. unfold sem_reclaim_set. case_if; [by split|]. by apply wf_reclaim_rows.
Qed.

(** ** semop *)

Definition keeps_rest (s s' : ipc) : Prop :=
  i_tab s' = i_tab s /\ i_msq s' = i_msq s /\ i_wait s' = i_wait s /\
  i_next_semid s' = i_next_semid s /\ i_next_msqid s' = i_next_msqid s /\
  i_wait_seq s' = i_wait_seq s /\ i_nwait s' = i_nwait s /\ i_out s' = i_out s.

#[local] Instance keeps_rest_trans : Transitive keeps_rest.
Proof. unfold keeps_rest. intros ? ? ? ? ?. intuition congruence. Qed.

Lemma reclaim_rows_rest only rows : forall i applied s,
  keeps_rest s (reclaim_rows E only rows i applied s).2.
Proof.
  induction rows as [|[u|] rows IH]; intros i applied s; simpl;
    [by repeat split| |apply IH].
  case_if; [|apply IH]. unfold mbind, M_bind.
  assert (H : keeps_rest s (sem_undo_apply E i u s).2).
  { unfold sem_undo_apply, sem_undo_free, modify.
    destruct (sem_find s (u_semid u)) as [[j x]|]; [|by repeat split].
    destruct (apply_adj _ _ _ _) as [[? ?] ?]. by repeat split. }
  destruct (sem_undo_apply E i u s) as [[] s1]. etransitivity; [exact H|apply IH].
Qed.

Lemma reclaim_set_rest x s : keeps_rest s (sem_reclaim_set E x s).2.
Proof.
  unfold sem_reclaim_set. case_if; [by repeat split|]. apply reclaim_rows_rest.
Qed.

Lemma sem_frame_rest k x' s s' : sem_frame k x' s s' -> keeps_rest s s'.
Proof. intros (rows & n & mem & ->). by repeat split. Qed.

Lemma wf_sem_frame s s' k x x' pid :
  ipc_wf s -> has_slot (i_sem s) k x -> same_set x x' -> set_ok x' ->
  sem_frame k x' s s' ->
  (i_undo s' = i_undo s /\ i_nundo s' = i_nundo s \/
   exists adj, vec_ok (ss_nsems x) adj /\
     rows_put pid (ss_semid x) adj (i_undo s) (i_nundo s) (i_undo s') (i_nundo s')) ->
  ipc_wf s'.
Proof.
  intros Hwf Hk Hsame Hok (rows & n & mem & ->) Hrows. simpl in Hrows.
  assert (Hwf1 : ipc_wf (set_undo rows n (set_mem mem s))).
  { destruct Hrows as [[-> ->]|(adj & Hvec & Hput)].
    - destruct s; simpl. by apply (wf_set_mem mem) in Hwf.
    - eapply (wf_rows_put (set_mem mem s)); eauto with cng. }
  by eapply wf_put_sem.
Qed.

(** An operation stopped by nothing else than blocking is never NOWAIT. *)
Lemma vector_stop_blk row val adj ops : forall pre k r,
  vector_stop row val adj pre ops = (k, Some r) ->
  (length pre <= k < length pre + length ops)%nat.
Proof.
  induction ops as [|op ops IH]; intros pre k r; simpl; [done|].
  destruct (op_stop _ _ _ _); [intros; simplify_eq; lia|]. intros H.
  apply IH in H. rewrite length_app in H. simpl in H. lia.
Qed.

Lemma wf_try_op k x sops pid blk s :
  ipc_wf s -> has_slot (i_sem s) k x -> Forall op_ok sops ->
  let '((r, blk'), s') := sem_try_op E k x sops pid blk s in
  ipc_wf s' /\ sems_keep s s' /\ keeps_rest s s' /\
  (r = 1 -> (blk' < length sops)%nat) /\ (r <> 1 -> blk' = blk).
Proof.
  intros Hwf Hk Hops. destruct (wf_sets s Hwf k x Hk) as [Hset _].
  pose proof (wf_rows_ok s k x Hwf Hk) as Hrows.
  destruct (in_range (ss_nsems x) sops) eqn:Er.
  2:{ unfold sem_try_op. unfold in_range in Er. rewrite negb_false_iff in Er.
      rewrite Er. split; [done|]. split; [done|]. split; by repeat split. }
  pose proof (sem_try_op_done E k x sops pid blk s Hset Hrows Hops Er) as Hdone.
  pose proof (sem_try_op_stopped E k x sops pid blk s Hset Hrows Hops Er) as Hstop.
  destruct (sem_try_op E k x sops pid blk s) as [[r blk'] s'].
  destruct (vector_stop _ _ _ [] sops) as [m [e|]] eqn:Eout; simpl in *.
  - destruct (Hstop e eq_refl) as (-> & -> & Hfr & Hu). split; [|split; [|split]].
    + eapply (wf_sem_frame s s' k x x pid); eauto; [by repeat split|].
      destruct Hu as [?|(adj & ? & _ & ?)]; eauto.
    + destruct Hfr as (rows & n & mem & ->). apply (sems_keep_put (set_undo rows n
        (set_mem mem s)) k x x); [done|by repeat split].
    + by eapply sem_frame_rest.
    + apply vector_stop_blk in Eout. simpl in Eout.
      split; intros He; [subst e; simpl; lia|].
      by rewrite (proj2 (Z.eqb_neq _ _) He).
  - destruct (Hdone eq_refl) as (-> & -> & x' & (val & -> & Hl & Hf & Hv) & Hfr & Hu).
    split; [|split; [|split]].
    + eapply (wf_sem_frame s s' k x _ pid); eauto with cng.
      * eapply set_done_ok; [done|]. by exists val.
      * destruct Hu as [(_ & ? & ?)|(adj & ? & _ & ?)]; eauto.
    + destruct Hfr as (rows & n & mem & ->). apply (sems_keep_put (set_undo rows n
        (set_mem mem s)) k x); [done|by repeat split].
    + by eapply sem_frame_rest.
    + done.
Qed.
End Wf.
