(* ===== verification/IpcWait.v ===== *)
(** * Parked waiters keep the registry's invariant
    (src/src/monitor/ipcreg.c) *)

From stdpp Require Import base list strings gmap numbers.
From Stdlib Require Import ZArith Lia.
From S2P Require Import Prelude IpcData IpcOps IpcSem IpcInv.

Open Scope Z_scope.

(** ** Emptying the slots that satisfy a test *)

Section Kill.
Context {A : Type}.
Implicit Types (p : A -> bool) (l : list (option A)).

Definition kill1 p (o : option A) : option A :=
  match o with Some x => if p x then None else Some x | None => None end.
Definition kill p l : list (option A) := map (kill1 p) l.

Lemma has_slot_kill p l k x :
  has_slot (kill p l) k x <-> has_slot l k x /\ p x = false.
Proof.
  unfold has_slot, kill. rewrite list_lookup_fmap. split.
  - destruct (l !! k) as [[y|]|]; simpl; [|done..].
    destruct (p y) eqn:E; intros H; simplify_eq. done.
  - intros [-> H]. simpl. by rewrite H.
Qed.

Lemma kill_length p l : length (kill p l) = length l.
Proof. apply length_map. Qed.

Lemma on_slots_kill P p l : on_slots P l -> on_slots P (kill p l).
Proof. intros H k x [Hx _]%has_slot_kill. eauto. Qed.

Lemma uniq_kill R p l : uniq R l -> uniq R (kill p l).
Proof. intros H i j x y [Hi _]%has_slot_kill [Hj _]%has_slot_kill. eauto. Qed.

(** One slot at a time, from index [i]. *)
Lemma kill_step p l i o rest :
  drop i l = o :: rest ->
  l !! i = Some o /\ drop (S i) l = rest /\
  take (S i) (kill p l) = take i (kill p l) ++ [kill1 p o].
Proof.
  intros Hd.
  assert (Hi : l !! i = Some o) by (rewrite <-(Nat.add_0_r i), <-lookup_drop, Hd; done).
  split; [done|]. split.
  - rewrite <-Nat.add_1_r, <-drop_drop, Hd. done.
  - erewrite take_S_r; [done|]. unfold kill. rewrite list_lookup_fmap, Hi. done.
Qed.
End Kill.

(** ** Walks over the waiters

    [waiters_eidrm], [cng_ipc_expire] and the walk of [cng_ipc_reclaim] are one
    scheme: each waiter a test holds of is answered and its slot freed. *)

Fixpoint walk (p : waiter -> bool) (act : nat -> waiter -> M unit)
    (ws : list (option waiter)) (i : nat) : M unit :=
  match ws with
  | [] => mret tt
  | Some w :: ws' =>
      if p w then _ ← act i w; walk p act ws' (S i) else walk p act ws' (S i)
  | None :: ws' => walk p act ws' (S i)
  end.

(** Everything but the waiters and what is sent. *)
Definition keeps_tables (s s' : ipc) : Prop :=
  i_tab s' = i_tab s /\ i_sem s' = i_sem s /\ i_undo s' = i_undo s /\
  i_msq s' = i_msq s /\ i_wait_seq s' = i_wait_seq s /\ i_nundo s' = i_nundo s /\
  i_mem s' = i_mem s.

#[export] Instance keeps_tables_refl : Reflexive keeps_tables.
Proof. by repeat split. Qed.
#[export] Instance keeps_tables_trans : Transitive keeps_tables.
Proof. unfold keeps_tables. intros ? ? ? ? ?. intuition congruence. Qed.

(** An answer that frees its waiter, sending [evs]. *)
Definition frees (act : nat -> waiter -> M unit) (evs : waiter -> list event) : Prop :=
  forall s k w, ipc_wf s -> has_slot (i_wait s) k w ->
  let s' := (act k w s).2 in
  ipc_wf s' /\ i_wait s' = <[k := None]> (i_wait s) /\ keeps_tables s s' /\
  i_out s' = i_out s ++ evs w.

Definition walked (p : waiter -> bool) (evs : waiter -> list event)
    (o : option waiter) : list event :=
  match o with Some w => if p w then evs w else [] | None => [] end.

Lemma walk_spec p act evs ws : frees act evs -> forall i s,
  ipc_wf s -> drop i (i_wait s) = ws -> take i (kill p (i_wait s)) = take i (i_wait s) ->
  let s' := (walk p act ws i s).2 in
  ipc_wf s' /\ i_wait s' = kill p (i_wait s) /\ keeps_tables s s' /\
  i_out s' = i_out s ++ concat (map (walked p evs) ws).
Proof.
  intros Hact. induction ws as [|o ws IH]; intros i s Hwf Hd Ht.
  { simpl. rewrite app_nil_r. split; [done|]. split; [|done].
    assert (length (i_wait s) <= i)%nat.
    { apply (f_equal length) in Hd. rewrite length_drop in Hd. simpl in Hd. lia. }
    rewrite !take_ge in Ht; [done|lia|by rewrite kill_length]. }
  destruct (kill_step p _ _ _ _ Hd) as (Hi & Hd' & Ht'). rewrite Ht in Ht'.
  assert (Hskip : kill1 p o = o -> take (S i) (kill p (i_wait s)) = take (S i) (i_wait s)).
  { intros Ho. by rewrite Ht', Ho, (take_S_r _ _ _ Hi). }
  destruct o as [w|]; simpl; [|by apply IH; auto].
  destruct (p w) eqn:Ep; [|apply IH; auto; apply Hskip; simpl; by rewrite Ep].
  destruct (Hact s i w Hwf Hi) as (Hwf1 & Hw1 & Hk1 & Ho1).
  unfold mbind, M_bind. destruct (act i w s) as [[] s1]. simpl in *.
  apply lookup_lt_Some in Hi as Hlt.
  assert (Hkill : kill p (i_wait s1) = kill p (i_wait s)).
  { rewrite Hw1. unfold kill. apply list_eq. intros j.
    rewrite !list_lookup_fmap. destruct (decide (i = j)) as [<-|].
    - rewrite list_lookup_insert_eq, Hi by done. simpl. by rewrite Ep.
    - by rewrite list_lookup_insert_ne. }
  destruct (IH (S i) s1) as (Hwf2 & Hw2 & Hk2 & Ho2); auto.
  { by rewrite Hw1, drop_insert_lt by lia. }
  { rewrite Hkill, Ht', Hw1. rewrite Ep.
    rewrite (take_S_r _ _ None) by (by apply list_lookup_insert_eq).
    by rewrite take_insert_ge by lia. }
  split; [done|]. split; [by rewrite Hw2|]. split; [by etransitivity|].
  by rewrite Ho2, Ho1, <-app_assoc.
Qed.

Section Wait.
Context (E : env).

Lemma wf_waiter_free_slot s k w :
  ipc_wf s -> has_slot (i_wait s) k w ->
  ipc_wf (set_wait (<[k := None]> (i_wait s)) (i_nwait s - 1) s).
Proof.
  intros Hwf Hk. apply wf_set_wait; auto.
  - by rewrite length_insert.
  - apply on_slots_write; [apply Hwf|done].
  - apply uniq_clear, Hwf.
  - pose proof (count_used_clear _ _ _ Hk). pose proof (wf_nwait s Hwf). lia.
Qed.

Definition closes (w : waiter) : list event :=
  if 0 <=? w_cfd w then [EClose (w_cfd w)] else [].
Definition replies (r : cng_bresp) (payload : list Z) (w : waiter) : list event :=
  (if e_send_ok E (w_cfd w) then [EReply (w_cfd w) r payload] else []) ++ closes w.

Lemma waiter_free_frees : frees waiter_free closes.
Proof.
  intros s k w Hwf Hk. unfold waiter_free, modify, closes. simpl.
  destruct (0 <=? w_cfd w); simpl.
  - split; [|by repeat split]. by eapply (wf_waiter_free_slot (emit _ s)); eauto with cng.
  - split; [by eapply wf_waiter_free_slot|]. rewrite app_nil_r. by repeat split.
Qed.

Lemma waiter_reply_frees r payload :
  frees (fun k w => waiter_reply E k w r payload) (replies r payload).
Proof.
  intros s k w Hwf Hk. unfold waiter_reply, broker_send, modify, replies.
  unfold mbind, M_bind. destruct (e_send_ok E (w_cfd w)); [|by apply waiter_free_frees].
  destruct (waiter_free_frees (emit (EReply (w_cfd w) r payload) s) k w)
    as (H1 & H2 & H3 & H4); [by apply wf_emit|done|].
  split; [done|]. split; [done|]. split; [done|].
  rewrite H4. simpl. by rewrite <-app_assoc.
Qed.

(** ** The three walks *)

Definition on_object (id : Z) (sem : bool) (w : waiter) : bool :=
  (w_id w =? id) &&
  (if sem then req_eqb (w_op w) REQ_SEMOP
   else req_eqb (w_op w) REQ_MSGSND || req_eqb (w_op w) REQ_MSGRCV).

Definition expired (now_ms : Z) (w : waiter) : bool :=
  negb ((w_deadline_ms w <? 0) || (now_ms <? w_deadline_ms w)).

Lemma eidrm_walk id sem ws : forall i s,
  waiters_eidrm_loop E ws i id sem s =
  walk (on_object id sem)
    (fun k w => waiter_reply E k w (resp_ret (- EIDRM) resp0) []) ws i s.
Proof.
  induction ws as [|[w|] ws IH]; intros i s; simpl; [done| |apply IH].
  unfold on_object. case_if; [|apply IH]. unfold mbind, M_bind.
  destruct (waiter_reply _ _ _ _ _ _). apply IH.
Qed.

Lemma expire_walk now ws : forall i s,
  expire_loop E ws i now s =
  walk (expired now)
    (fun k w => waiter_reply E k w (resp_ret (- EAGAIN) resp0) []) ws i s.
Proof.
  induction ws as [|[w|] ws IH]; intros i s; simpl; [done| |apply IH].
  unfold expired. case_if; simpl; [apply IH|]. unfold mbind, M_bind.
  destruct (waiter_reply _ _ _ _ _ _). apply IH.
Qed.

Lemma reclaim_walk ws : forall i s,
  reclaim_waiters E ws i s =
  walk (fun w => dead E (w_pid w) (w_start w)) waiter_free ws i s.
Proof.
  induction ws as [|[w|] ws IH]; intros i s; simpl; [done| |apply IH].
  case_if; [|apply IH]. unfold mbind, M_bind.
  destruct (waiter_free _ _ _). apply IH.
Qed.

Lemma waiters_eidrm_spec id sem s :
  ipc_wf s ->
  let s' := (waiters_eidrm E id sem s).2 in
  ipc_wf s' /\ i_wait s' = kill (on_object id sem) (i_wait s) /\ keeps_tables s s' /\
  i_out s' = i_out s ++
    concat (map (walked (on_object id sem)
                   (replies (resp_ret (- EIDRM) resp0) [])) (i_wait s)).
Proof.
  intros Hwf. unfold waiters_eidrm. rewrite eidrm_walk.
  by apply walk_spec; [apply waiter_reply_frees|..].
Qed.

Lemma expire_spec now s :
  ipc_wf s ->
  let s' := (cng_ipc_expire E now s).2 in
  ipc_wf s' /\ i_wait s' = kill (expired now) (i_wait s) /\ keeps_tables s s' /\
  i_out s' = i_out s ++
    concat (map (walked (expired now)
                   (replies (resp_ret (- EAGAIN) resp0) [])) (i_wait s)).
Proof.
  intros Hwf. unfold cng_ipc_expire. rewrite expire_walk.
  by apply walk_spec; [apply waiter_reply_frees|..].
Qed.

Lemma reclaim_waiters_spec s :
  ipc_wf s ->
  let s' := (reclaim_waiters E (i_wait s) 0 s).2 in
  ipc_wf s' /\ i_wait s' = kill (fun w => dead E (w_pid w) (w_start w)) (i_wait s) /\
  keeps_tables s s' /\
  i_out s' = i_out s ++
    concat (map (walked (fun w => dead E (w_pid w) (w_start w)) closes) (i_wait s)).
Proof.
  intros Hwf. rewrite reclaim_walk.
  by apply walk_spec; [apply waiter_free_frees|..].
Qed.

(** ** Parking *)

(** The waiter [waiter_park] makes. *)
Definition new_waiter (cfd : Z) (q : cng_breq) (sops : list cng_sembuf) (blk : nat)
    (msg : option gmsg) (s : ipc) : waiter :=
  Waiter cfd (rq_op q) (rq_id q) (rq_pid q) (e_start E (rq_pid q))
    (i_wait_seq s) (park_deadline E (rq_timeout_ns q)) sops blk msg
    (rq_mtype q) (rq_size q) (rq_arg q).

Lemma wf_set_wait_seq seq s :
  ipc_wf s -> i_wait_seq s <= seq -> ipc_wf (set_wait_seq seq s).
Proof.
  intros H Hs. wf_fields H; [|lia].
  eapply on_slots_impl; [done|]. intros ? ? _. by apply waiter_ok_mono.
Qed.

Lemma wf_waiter_park cfd q sops blk msg s :
  ipc_wf s -> i_wait_seq s < 2 ^ 64 - 1 ->
  waiter_ok (i_sem s) (i_msq s) (i_wait_seq s + 1) (new_waiter cfd q sops blk msg s) ->
  ipc_wf (waiter_park E cfd q sops blk msg s).2.
Proof.
  intros Hwf Hseq Hw. unfold waiter_park.
  destruct (find_free (i_wait s)) as [k|] eqn:Ek; [|done]. simpl.
  pose proof (find_free_Some _ _ Ek) as Hk. pose proof (wf_wait_seq s Hwf).
  assert (Hu : u64 (i_wait_seq s + 1) = i_wait_seq s + 1).
  { apply wrapu_small. change (2 ^ 64) with (2 ^ 64 - 1 + 1). lia. }
  assert (Hwf1 : ipc_wf (set_wait_seq (u64 (i_wait_seq s + 1)) s)).
  { apply wf_set_wait_seq; [done|lia]. }
  apply (wf_set_wait (<[k := Some (new_waiter cfd q sops blk msg s)]> (i_wait s))
           (i_nwait s + 1) (set_wait_seq (u64 (i_wait_seq s + 1)) s)); auto.
  - by rewrite length_insert.
  - apply on_slots_write; [apply Hwf1|]. intros w [= <-]. simpl. by rewrite Hu.
  - apply uniq_fill; [apply _|apply Hwf|]. intros j y Hj Hs.
    destruct (wf_waiters s Hwf j y Hj) as [Hy _]. unfold same_seq in Hs.
    simpl in Hs. lia.
  - rewrite (count_used_fill _ _ _ Hk), (wf_nwait s Hwf). lia.
Qed.
End Wait.
