(* ===== verification/IpcRescan.v ===== *)
(** * cng_ipc_rescan: it terminates, keeps the invariant, and leaves no parked
    operation that could proceed (src/src/monitor/ipcreg.c) *)

From stdpp Require Import base list strings gmap numbers.
From Stdlib Require Import ZArith Lia.
From S2P Require Import Prelude IpcData IpcOps IpcSem IpcInv IpcWait.

Open Scope Z_scope.

(** ** Blocked operations *)

(** What a parked operation waits for has not come: its vector stops on an
    operation that waits (no matter whether memory for an undo row could be
    had), its message does not fit, or no message qualifies. *)
Definition blocked (s : ipc) (w : waiter) : Prop :=
  match w_op w with
  | REQ_SEMOP =>
      exists k x m, sem_find s (w_id w) = Some (k, x) /\
        vector_stop true (at0 (ss_val x)) (undo_at (i_undo s) (w_pid w) (ss_semid x))
          [] (w_sops w) = (m, Some 1)
  | REQ_MSGSND =>
      exists k x m, msg_find s (w_id w) = Some (k, x) /\ w_msg w = Some m /\
        msg_fits x (m_size m) = false
  | _ =>
      exists k x, msg_find s (w_id w) = Some (k, x) /\
        msg_pick x (w_msgtyp w) (w_msgflg w) = None
  end.

Lemma op_stop_row v a op :
  op_stop false v a op = Some 1 -> op_stop true v a op = Some 1.
Proof.
  unfold op_stop. case_if; [done|]. case_if; [done|]. case_if; done.
Qed.

Lemma op_stop_row_None v a op :
  op_stop false v a op = None -> op_stop true v a op = None.
Proof.
  unfold op_stop. case_if; [done|]. case_if; [done|]. case_if; done.
Qed.

Lemma vector_stop_row row val adj ops : forall pre m,
  vector_stop row val adj pre ops = (m, Some 1) ->
  vector_stop true val adj pre ops = (m, Some 1).
Proof.
  destruct row; [done|]. induction ops as [|op ops IH]; intros pre m; simpl; [done|].
  destruct (op_stop false _ _ op) eqn:Es.
  - intros [= <- ->]. by rewrite (op_stop_row _ _ _ Es).
  - rewrite (op_stop_row_None _ _ _ Es). apply IH.
Qed.

Lemma vector_stop_ext row val adj adj' ops : forall pre,
  (forall n, adj n = adj' n) ->
  vector_stop row val adj pre ops = vector_stop row val adj' pre ops.
Proof.
  induction ops as [|op ops IH]; intros pre Ha; simpl; [done|].
  rewrite Ha. case_match; [done|]. by apply IH.
Qed.

(** A visit that made no progress: the sets, the queues and what every process
    owes are as before. *)
Definition calm (s s' : ipc) : Prop :=
  i_tab s' = i_tab s /\ i_sem s' = i_sem s /\ i_msq s' = i_msq s /\
  forall p i n, undo_at (i_undo s') p i n = undo_at (i_undo s) p i n.

#[export] Instance calm_refl : Reflexive calm.
Proof. by repeat split. Qed.

Lemma blocked_calm s s' w : calm s s' -> blocked s w -> blocked s' w.
Proof.
  intros (Ht & Hs & Hm & Hu). unfold blocked, sem_find, msg_find.
  rewrite Ht, Hs, Hm. destruct (w_op w); try done.
  intros (k & x & m & Hf & Hv). exists k, x, m. split; [done|].
  rewrite <-Hv. apply vector_stop_ext. auto.
Qed.

Lemma blocked_set_blk s w b : blocked s (set_blk w b) <-> blocked s w.
Proof. done. Qed.

(** ** One visit *)

Section Rescan.
Context (E : env).

Lemma wf_set_blk s k w blk :
  ipc_wf s -> has_slot (i_wait s) k w ->
  (blk < length (w_sops w))%nat \/ blk = w_blk w ->
  ipc_wf (set_wait (<[k := Some (set_blk w blk)]> (i_wait s)) (i_nwait s) s).
Proof.
  intros Hwf Hk Hb. apply wf_set_wait; auto.
  - by rewrite length_insert.
  - apply on_slots_write; [apply Hwf|]. intros w' [= <-].
    destruct (wf_waiters s Hwf k w Hk) as [Hs Hw]. split; [done|].
    simpl. destruct (w_op w); auto. destruct Hw as (n & Hl & Ho & Hr & Hlt).
    exists n. repeat split; auto. simpl. destruct Hb as [?| ->]; lia.
  - eapply uniq_replace; [apply _|apply Hwf|done|]. done.
  - rewrite (count_used_replace _ _ _ _ Hk). apply Hwf.
Qed.

(** Progress frees the slot; none leaves the waiter blocked. *)
Definition visited (k : nat) (w : waiter) (s : ipc) (p : bool) (s' : ipc) : Prop :=
  ipc_wf s' /\ i_tab s' = i_tab s /\ i_wait_seq s' = i_wait_seq s /\
  if p then i_wait s' = <[k := None]> (i_wait s)
  else calm s s' /\ blocked s' w /\
       exists b, i_wait s' = <[k := Some (set_blk w b)]> (i_wait s).

Lemma visited_reply k w s s1 r payload :
  ipc_wf s1 -> has_slot (i_wait s1) k w -> i_tab s1 = i_tab s ->
  i_wait_seq s1 = i_wait_seq s ->
  (forall o, <[k := o]> (i_wait s1) = <[k := o]> (i_wait s)) ->
  visited k w s true (waiter_reply E k w r payload s1).2.
Proof.
  intros Hwf Hk Ht Hs Hw.
  destruct (waiter_reply_frees E r payload s1 k w Hwf Hk) as (H1 & H2 & H3 & _).
  destruct H3 as (Ht3 & _ & _ & _ & Hs3 & _). split; [done|].
  split; [congruence|]. split; [congruence|]. by rewrite H2.
Qed.

Lemma set_blk_self w : set_blk w (w_blk w) = w.
Proof. by destruct w. Qed.

(** A waiter left as it was. *)
Lemma visited_still k w s :
  ipc_wf s -> has_slot (i_wait s) k w -> blocked s w -> visited k w s false s.
Proof.
  intros Hwf Hk Hb. split; [done|]. split; [done|]. split; [done|].
  split; [done|]. split; [done|]. exists (w_blk w). rewrite set_blk_self.
  symmetry. by apply list_insert_id.
Qed.

Lemma try_op_calm k x sops pid blk s s' b :
  ipc_wf s -> has_slot (i_sem s) k x -> Forall op_ok sops ->
  in_range (ss_nsems x) sops = true ->
  sem_try_op E k x sops pid blk s = ((1, b), s') ->
  calm s s' /\ exists m,
  vector_stop true (at0 (ss_val x)) (undo_at (i_undo s) pid (ss_semid x)) [] sops
  = (m, Some 1).
Proof.
  intros Hwf Hk Hops Hr Et. destruct (wf_sets s Hwf k x Hk) as [Hset _].
  pose proof (wf_rows_ok s k x Hwf Hk) as Hrows.
  pose proof (sem_try_op_done E k x sops pid blk s Hset Hrows Hops Hr) as Hdone.
  pose proof (sem_try_op_stopped E k x sops pid blk s Hset Hrows Hops Hr) as Hstop.
  rewrite Et in Hdone, Hstop.
  destruct (vector_stop _ _ _ [] sops) as [m [e|]] eqn:Eout; simpl in *.
  2:{ by destruct (Hdone eq_refl) as (? & _). }
  destruct (Hstop e eq_refl) as (<- & _ & Hfr & Hu).
  split; [|exists m; by eapply vector_stop_row].
  destruct Hfr as (rows & n & mem & ->). simpl in *.
  assert (Hsem : <[k := Some x]> (i_sem s) = i_sem s) by (by apply list_insert_id).
  split; [done|]. split; [done|]. split; [done|]. intros p i n'. simpl.
  destruct Hu as [[-> _]|(adj & _ & Ha & Hput)]; [done|].
  destruct (decide ((p, i) = (pid, ss_semid x))) as [[= -> ->]|Hne].
  - by rewrite (rows_put_at _ _ _ _ _ _ _ _ Hput), Ha.
  - unfold undo_at. by rewrite (rows_put_other _ _ _ _ _ _ _ _ _ Hput Hne).
Qed.

Lemma visit_sem k w s :
  ipc_wf s -> has_slot (i_wait s) k w -> w_op w = REQ_SEMOP ->
  let '(p, s') := rescan_visit E k w s in visited k w s p s'.
Proof.
  intros Hwf Hk Hop. destruct (wf_waiters s Hwf k w Hk) as [_ Hw].
  rewrite Hop in Hw. destruct Hw as (n & Hlive & Hops & Hr & Hblk).
  destruct (sem_live_find s _ _ Hwf Hlive) as (j & x & Hf & Hj & <-).
  unfold rescan_visit. rewrite Hop, Hf.
  pose proof (wf_try_op E j x (w_sops w) (w_pid w) (w_blk w) s Hwf Hj Hops) as Hwt.
  destruct (sem_try_op E j x (w_sops w) (w_pid w) (w_blk w) s) as [[r b] s1] eqn:Et.
  destruct Hwt as (Hwf1 & _ & (Ht & _ & Hw1 & _ & _ & Hq1 & _) & Hb1 & Hb2).
  assert (Hk1 : has_slot (i_wait s1) k w) by (by rewrite Hw1).
  assert (Hb : (b < length (w_sops w))%nat \/ b = w_blk w).
  { destruct (decide (r = 1)); auto. }
  pose proof (wf_set_blk s1 k w b Hwf1 Hk1 Hb) as Hwf2.
  destruct (r =? 1) eqn:Er.
  - bprop. subst r. apply sem_find_Some in Hf as [_ Hid].
    destruct (try_op_calm _ _ _ _ _ _ _ _ Hwf Hj Hops Hr Et) as [Hcalm [m Hm]].
    assert (Hbl : blocked s w).
    { unfold blocked. rewrite Hop. exists j, x, m. rewrite <-Hid.
      split; [by apply sem_find_slot|done]. }
    split; [done|]. split; [done|]. split; [done|].
    assert (Hc2 : calm s (set_wait (<[k := Some (set_blk w b)]> (i_wait s1))
                            (i_nwait s1) s1)) by apply Hcalm.
    split; [done|]. split; [by eapply blocked_calm|].
    exists b. simpl. by rewrite Hw1.
  - destruct (waiter_reply E k (set_blk w b) (resp_ret r resp0) [] _) as [[] s2] eqn:Ewr.
    pose proof (visited_reply k (set_blk w b) s _ (resp_ret r resp0) [] Hwf2) as Hv.
    rewrite Ewr in Hv. apply Hv; simpl; auto.
    + by eapply has_slot_here.
    + intros o. by rewrite list_insert_insert_eq, Hw1.
Qed.

Lemma visit_msg k w s :
  ipc_wf s -> has_slot (i_wait s) k w -> w_op w = REQ_MSGSND \/ w_op w = REQ_MSGRCV ->
  let '(p, s') := rescan_visit E k w s in visited k w s p s'.
Proof.
  intros Hwf Hk Hop. destruct (wf_waiters s Hwf k w Hk) as [_ Hw].
  assert (Hreply : forall s1 r payload, ipc_wf s1 -> i_wait s1 = i_wait s ->
    i_tab s1 = i_tab s -> i_wait_seq s1 = i_wait_seq s ->
    let '(_, s2) := waiter_reply E k w r payload s1 in visited k w s true s2).
  { intros s1 r payload Hwf1 Hw1 Ht Hq.
    pose proof (visited_reply k w s s1 r payload Hwf1) as Hv.
    destruct (waiter_reply E k w r payload s1) as [[] s2]. apply Hv; auto;
      [by rewrite Hw1|intros; by rewrite Hw1]. }
  unfold rescan_visit. destruct Hop as [Hop|Hop]; rewrite Hop in Hw |- *.
  - destruct Hw as (Hlive & m & Hm & Hok).
    destruct (msq_live_find s _ Hwf Hlive) as (j & x & Hf & Hj). rewrite Hf, Hm.
    destruct (msg_fits x (m_size m)) eqn:Efit; cbn [negb].
    2:{ apply visited_still; auto. unfold blocked. rewrite Hop. by eexists _, _, _. }
    pose proof (Hreply (put_msq j (msg_enqueue E x m (w_pid w)) s) resp0 []) as Hv.
    destruct (waiter_reply E k w resp0 [] _) as [[] s2]. apply Hv; auto.
    eapply wf_put_msq; eauto; [done|]. apply queue_ok_enqueue; [|done].
    apply (wf_queues s Hwf j x Hj).
  - destruct (msq_live_find s _ Hwf Hw) as (j & x & Hf & Hj). rewrite Hf.
    pose proof (msg_pick_picked x (w_msgtyp w) (w_msgflg w)) as Hp.
    destruct (msg_pick x (w_msgtyp w) (w_msgflg w)) as [[i m]|] eqn:Ep.
    2:{ apply visited_still; auto. unfold blocked. rewrite Hop. by eexists _, _. }
    destruct Hp as (Hi & _ & _). case_if.
    + pose proof (Hreply s (resp_ret (- E2BIG) resp0) [] Hwf) as Hv.
      destruct (waiter_reply E k w _ [] s) as [[] s2]. by apply Hv.
    + unfold msg_grant_rcv.
      pose proof (Hreply (put_msq j (msg_unlink E x i m (w_pid w)) s)
        (resp_msg (min_size m (w_msgsz w)) (m_type m))
        (take (Z.to_nat (min_size m (w_msgsz w))) (m_data m))) as Hv.
      destruct (waiter_reply E k w _ _ _) as [[] s2]. apply Hv; auto.
      eapply wf_put_msq; eauto; [done|]. apply queue_ok_unlink; [|done].
      apply (wf_queues s Hwf j x Hj).
Qed.

Lemma rescan_visit_spec k w s :
  ipc_wf s -> has_slot (i_wait s) k w ->
  let '(p, s') := rescan_visit E k w s in visited k w s p s'.
Proof.
  intros Hwf Hk. destruct (wf_waiters s Hwf k w Hk) as [_ Hw].
  destruct (w_op w) eqn:Hop; try done.
  - by apply visit_sem.
  - apply visit_msg; auto.
  - apply visit_msg; auto.
Qed.

(** ** A pass *)

(** The choice of the next waiter. *)
Lemma earliest_spec last ws : forall i best,
  let r := earliest last ws i best in
  match r with
  | Some (k, w) =>
      (best = Some (k, w) \/ (exists j, k = (i + j)%nat /\ has_slot ws j w) /\ last < w_seq w)
      /\ (forall j v, has_slot ws j v -> last < w_seq v -> w_seq w <= w_seq v)
      /\ (forall kb b, best = Some (kb, b) -> w_seq w <= w_seq b)
  | None => best = None /\ forall j v, has_slot ws j v -> w_seq v <= last
  end.
Proof.
  unfold has_slot. induction ws as [|o ws IH]; intros i best; simpl.
  { destruct best as [[k w]|]; [|done]. split; [by left|]. split; [done|].
    intros ? ? [= -> ->]. lia. }
  destruct o as [v|].
  2:{ specialize (IH (S i) best). destruct (earliest _ _ _ _) as [[k w]|].
      - destruct IH as ([->|[(j & -> & Hj) Hlt]] & Hmin & Hb).
        + split; [by left|]. split; [|done]. intros [|j] v; [done|]. apply Hmin.
        + split; [right; split; [exists (S j); split; [lia|done]|done]|].
          split; [|done]. intros [|j'] v; [done|]. apply Hmin.
      - destruct IH as [-> H]. split; [done|]. intros [|j] v; [done|]. apply H. }
  set (take_it := (last <? w_seq v) && _).
  specialize (IH (S i) (if take_it then Some (i, v) else best)).
  destruct (earliest _ _ _ _) as [[k w]|].
  - destruct IH as (Hin & Hmin & Hb). destruct take_it eqn:Et; unfold take_it in Et.
    + bprop. destruct Et as [Et1 Et2]. pose proof (Hb i v eq_refl) as Hv. split.
      * right. destruct Hin as [[= <- <-]|[(j & -> & Hj) Hlt]].
        -- split; [exists 0%nat; split; [lia|done]|done].
        -- split; [exists (S j); split; [lia|done]|done].
      * split; [intros [|j] v' Hj Hl; [by simplify_eq/=|by eapply Hmin]|].
        intros kb b ->. bprop. lia.
    + split; [|split; [|done]].
      * destruct Hin as [->|[(j & -> & Hj) Hlt]]; [by left|right].
        split; [exists (S j); split; [lia|done]|done].
      * intros [|j] v' Hj Hl; [|by eapply Hmin]. simplify_eq/=. bprop.
        destruct Et as [?|Et]; [lia|]. destruct best as [[kb b]|]; [|done].
        pose proof (Hb kb b eq_refl). bprop. lia.
  - destruct IH as [Hbest Hall]. destruct take_it eqn:Et; [done|].
    unfold take_it in Et. clear take_it. subst best.
    split; [done|]. intros [|j] v' Hj; [|by eapply Hall]. simplify_eq/=. bprop. destruct Et; [lia|done].
Qed.

Lemma earliest_Some last ws k w :
  earliest last ws 0 None = Some (k, w) ->
  has_slot ws k w /\ last < w_seq w /\
  forall j v, has_slot ws j v -> last < w_seq v -> w_seq w <= w_seq v.
Proof.
  intros H. pose proof (earliest_spec last ws 0 None) as Hs. rewrite H in Hs.
  destruct Hs as ([?|[(j & -> & Hj) Hlt]] & Hmin & _); [done|]. auto.
Qed.

Lemma earliest_None last ws :
  earliest last ws 0 None = None ->
  forall j v, has_slot ws j v -> w_seq v <= last.
Proof.
  intros H. pose proof (earliest_spec last ws 0 None) as Hs. rewrite H in Hs. apply Hs.
Qed.

(** How many are still to be visited. *)
Definition pend (last : Z) (ws : list (option waiter)) : nat :=
  count_used (kill (fun w => w_seq w <=? last) ws).

Lemma pend_le last ws : (pend last ws <= length ws)%nat.
Proof.
  unfold pend. pose proof (count_used_le (kill (fun w => w_seq w <=? last) ws)) as H.
  by rewrite kill_length in H.
Qed.

Lemma pend_mono last last' ws : last <= last' -> (pend last' ws <= pend last ws)%nat.
Proof.
  intros H. unfold pend. induction ws as [|[w|] ws IH]; simpl; [done| |done].
  destruct (w_seq w <=? last) eqn:E1, (w_seq w <=? last') eqn:E2; bprop; simpl; lia.
Qed.

Lemma pend_lt last ws k w o :
  has_slot ws k w -> last < w_seq w -> (forall y, o = Some y -> w_seq y <= w_seq w) ->
  (pend (w_seq w) (<[k := o]> ws) < pend last ws)%nat.
Proof.
  unfold has_slot. intros Hk Hlt Ho. revert k Hk.
  induction ws as [|c ws IH]; intros [|k] Hk; simpl in Hk; simplify_eq.
  - pose proof (pend_mono last (w_seq w) ws ltac:(lia)) as Hm. unfold pend in *. simpl.
    rewrite (proj2 (Z.leb_gt _ _) Hlt). destruct o as [y|]; simpl; [|lia].
    rewrite (proj2 (Z.leb_le _ _) (Ho y eq_refl)). lia.
  - specialize (IH k Hk). unfold pend in *. simpl.
    destruct c as [v|]; simpl; [|lia].
    destruct (w_seq v <=? last) eqn:E1, (w_seq v <=? w_seq w) eqn:E2; bprop; simpl; lia.
Qed.

(** The waiters up to [last] are blocked, unless something moved. *)
Definition settled (last : Z) (progress : bool) (s : ipc) : Prop :=
  progress = false ->
  forall k w, has_slot (i_wait s) k w -> w_seq w <= last -> blocked s w.

Lemma settled_visit k w s p s' last progress :
  ipc_wf s -> earliest last (i_wait s) 0 None = Some (k, w) ->
  visited k w s p s' -> settled last progress s ->
  settled (w_seq w) (progress || p) s'.
Proof.
  intros Hwf He Hv Hset Hf. apply orb_false_iff in Hf as [-> ->].
  destruct (earliest_Some _ _ _ _ He) as (Hk & Hlt & Hmin).
  destruct Hv as (_ & _ & _ & Hcalm & Hb & b & Hw). intros j v Hj Hle. rewrite Hw in Hj.
  apply has_slot_write in Hj as [[-> [= <-]]|[Hne Hj]]; [by apply blocked_set_blk|].
  eapply blocked_calm; [done|]. apply (Hset eq_refl j v Hj).
  destruct (decide (last < w_seq v)) as [Hl|]; [|lia].
  specialize (Hmin j v Hj Hl). destruct Hne.
  apply (wf_seqs s Hwf j k v w); auto. unfold same_seq. lia.
Qed.

Lemma rescan_pass_spec fuel : forall last progress s,
  ipc_wf s -> (pend last (i_wait s) < fuel)%nat -> settled last progress s ->
  exists p s', rescan_pass E fuel last progress s = Some (p, s') /\
    ipc_wf s' /\ i_tab s' = i_tab s /\ i_wait_seq s' = i_wait_seq s /\
    (count_used (i_wait s') <= count_used (i_wait s))%nat /\
    (p = true -> progress = false ->
     (count_used (i_wait s') < count_used (i_wait s))%nat) /\
    (p = false -> forall k w, has_slot (i_wait s') k w -> blocked s' w).
Proof.
  induction fuel as [|fuel IH]; intros last progress s Hwf Hfuel Hset; [lia|].
  simpl. destruct (earliest last (i_wait s) 0 None) as [[k w]|] eqn:He.
  2:{ exists progress, s. do 5 (split; [done|]). split; [congruence|].
      intros Hp k w Hk. apply (Hset Hp k w Hk). by eapply earliest_None. }
  destruct (earliest_Some _ _ _ _ He) as (Hk & Hlt & _).
  pose proof (rescan_visit_spec k w s Hwf Hk) as Hv.
  destruct (rescan_visit E k w s) as [p s1]. pose proof Hv as (Hwf1 & Ht1 & Hq1 & Hw1).
  pose proof (settled_visit _ _ _ _ _ _ _ Hwf He Hv Hset) as Hset1.
  assert (Hcount : (count_used (i_wait s1) + (if p then 1 else 0)
                    = count_used (i_wait s))%nat).
  { destruct p; [|destruct Hw1 as (_ & _ & b & Hw1)]; rewrite Hw1.
    - rewrite <-(count_used_clear _ _ _ Hk). lia.
    - rewrite (count_used_replace _ _ _ _ Hk). lia. }
  assert (Hpend : (pend (w_seq w) (i_wait s1) < fuel)%nat).
  { eapply Nat.lt_le_trans; [|apply Nat.lt_succ_r; exact Hfuel].
    destruct p; [|destruct Hw1 as (_ & _ & b & Hw1)]; rewrite Hw1;
      apply pend_lt; auto; [done|]. by intros y [= <-]. }
  destruct (IH (w_seq w) (progress || p) s1 Hwf1 Hpend Hset1)
    as (p' & s' & Hr & Hwf' & Ht & Hq & Hc & Hp & Hb).
  exists p', s'. split; [done|]. split; [done|]. split; [congruence|].
  split; [congruence|]. split; [lia|]. split; [|done]. intros Hp' ->.
  destruct p; simpl in *; [lia|]. specialize (Hp Hp' eq_refl). lia.
Qed.

(** ** The whole rescan *)

Lemma rescan_loop_spec fuel : forall progress s,
  ipc_wf s -> (count_used (i_wait s) < fuel)%nat ->
  (progress = false -> forall k w, has_slot (i_wait s) k w -> blocked s w) ->
  exists s', rescan_loop E fuel progress s = Some s' /\ ipc_wf s' /\
    i_tab s' = i_tab s /\ i_wait_seq s' = i_wait_seq s /\
    forall k w, has_slot (i_wait s') k w -> blocked s' w.
Proof.
  induction fuel as [|fuel IH]; intros progress s Hwf Hfuel Hb; [lia|].
  cbn [rescan_loop].
  destruct (progress && negb (i_nwait s =? 0)) eqn:Ec.
  2:{ exists s. do 4 (split; [done|]). intros k w Hk. bprop.
      destruct Ec as [Ec|Ec]; [by eapply Hb|]. rewrite (wf_nwait s Hwf) in Ec.
      pose proof (count_used_clear _ _ _ Hk). lia. }
  pose proof (pend_le 0 (i_wait s)) as Hlen.
  destruct (rescan_pass_spec (S (length (i_wait s))) 0 false s Hwf)
    as (p & s1 & -> & Hwf1 & Ht1 & Hq1 & Hc1 & Hp1 & Hb1); [lia| |].
  { intros _ k w Hk Hle. destruct (wf_waiters s Hwf k w Hk) as [? _]. lia. }
  simpl. destruct p.
  - destruct (IH true s1 Hwf1) as (s' & Hr & Hwf' & Ht & Hq & Hall); [|done|].
    { specialize (Hp1 eq_refl eq_refl). lia. }
    exists s'. split; [done|]. split; [done|]. split; [congruence|].
    split; [congruence|done].
  - exists s1. split; [by destruct fuel|]. do 3 (split; [done|]). by apply Hb1.
Qed.

Lemma rescan_spec s :
  ipc_wf s ->
  exists s', cng_ipc_rescan E s = Some s' /\ ipc_wf s' /\ i_tab s' = i_tab s /\
    i_wait_seq s' = i_wait_seq s /\
    forall k w, has_slot (i_wait s') k w -> blocked s' w.
Proof.
  intros Hwf. unfold cng_ipc_rescan. pose proof (wf_tabs s Hwf) as Ht.
  destruct (i_tab s) eqn:Et; simpl.
  - pose proof (count_used_le (i_wait s)).
    destruct (rescan_loop_spec (S (length (i_wait s))) true s Hwf)
      as (s' & H1 & H2 & H3 & H4); [lia|done|]. exists s'.
    split; [done|]. split; [done|]. split; [congruence|done].
  - exists s. do 4 (split; [done|]). destruct Ht as (_ & _ & _ & Hw).
    intros k w Hk. by rewrite Hw in Hk.
Qed.
End Rescan.
