(* ===== verification/IpcServe.v ===== *)
(** * Serving requests keeps the registry's invariant
    (src/src/monitor/ipcreg.c) *)

From stdpp Require Import base list strings gmap numbers.
From Stdlib Require Import ZArith Lia.
From S2P Require Import Prelude IpcData IpcOps IpcSem IpcInv IpcWait IpcRescan.

Open Scope Z_scope.

(** ** Ids *)

(** The counter's successor, which skips what is not positive. *)
Definition next_id (id : Z) : Z :=
  let nx := s32 (id + 1) in if nx <=? 0 then 1 else nx.

Lemma next_id_ok id : id_ok id ->
  next_id id = (if id =? 2 ^ 31 - 1 then 1 else id + 1) /\ id_ok (next_id id).
Proof.
  unfold id_ok, next_id. intros H. destruct (id =? 2 ^ 31 - 1) eqn:Ei; bprop.
  - subst id. split; [reflexivity|]. vm_compute. split; reflexivity.
  - rewrite wraps_small by lia. destruct (id + 1 <=? 0) eqn:El; bprop; lia.
Qed.

Lemma alloc_id_loop_ok taken tries : forall next,
  id_ok next ->
  let '(id, nx) := alloc_id_loop taken tries next in
  id_ok nx /\ (id = -1 \/ id_ok id /\ taken id = false).
Proof.
  induction tries as [|tries IH]; intros next Hn; simpl; [auto|].
  change (if s32 (next + 1) <=? 0 then 1 else s32 (next + 1)) with (next_id next).
  destruct (next_id_ok next Hn) as [_ Hok].
  destruct ((0 <? next) && negb (taken next)) eqn:Et; [|by apply IH].
  split; [done|]. right. bprop. tauto.
Qed.

(** The ids one run of the loop tries. *)
Fixpoint tried (tries : nat) (next : Z) : list Z :=
  match tries with O => [] | S tries => next :: tried tries (next_id next) end.

Definition cyc (z : Z) : Z := 1 + z mod (2 ^ 31 - 1).

Lemma cyc_ok z : id_ok (cyc z).
Proof.
  unfold id_ok, cyc. pose proof (Z.mod_pos_bound z (2 ^ 31 - 1) ltac:(lia)). lia.
Qed.

Lemma cyc_next z : next_id (cyc z) = cyc (z + 1).
Proof.
  destruct (next_id_ok (cyc z) (cyc_ok z)) as [-> _]. unfold cyc.
  pose proof (Z.mod_pos_bound z (2 ^ 31 - 1) ltac:(lia)) as Hb.
  rewrite <-(Zplus_mod_idemp_l z 1).
  destruct (1 + z mod (2 ^ 31 - 1) =? 2 ^ 31 - 1) eqn:Ez; bprop.
  - replace (z mod (2 ^ 31 - 1) + 1) with (2 ^ 31 - 1) by lia. reflexivity.
  - rewrite (Z.mod_small (_ + 1)) by lia. lia.
Qed.

Lemma tried_cyc tries : forall z,
  tried tries (cyc z) = map (fun i => cyc (z + Z.of_nat i)) (seq 0 tries).
Proof.
  induction tries as [|tries IH]; intros z; cbn [tried]; [done|].
  rewrite cyc_next, IH. simpl. f_equal; [f_equal; lia|].
  rewrite <-seq_shift, map_map. apply map_ext. intros i. f_equal. lia.
Qed.

Lemma tried_NoDup tries next :
  id_ok next -> Z.of_nat tries < 2 ^ 31 -> NoDup (tried tries next).
Proof.
  intros Hn Ht. assert (next = cyc (next - 1)) as ->.
  { unfold cyc, id_ok in *. rewrite Z.mod_small; lia. }
  rewrite tried_cyc. apply NoDup_ListNoDup, NoDup_map_NoDup_ForallPairs.
  2:{ apply seq_NoDup. }
  intros i j Hi Hj Heq. apply in_seq in Hi, Hj. unfold cyc in Heq.
  assert (Hm : (next - 1 + Z.of_nat i) mod (2 ^ 31 - 1)
               = (next - 1 + Z.of_nat j) mod (2 ^ 31 - 1)) by lia.
  apply Z.cong_iff_ex in Hm as [q Hq].
  assert (q = 0) by nia. lia.
Qed.

Lemma alloc_id_loop_fail taken tries : forall next,
  id_ok next -> (alloc_id_loop taken tries next).1 = -1 ->
  Forall (fun id => taken id = true) (tried tries next).
Proof.
  induction tries as [|tries IH]; intros next Hn; cbn [tried]; [constructor|].
  cbn [alloc_id_loop].
  change (if s32 (next + 1) <=? 0 then 1 else s32 (next + 1)) with (next_id next).
  destruct (next_id_ok next Hn) as [_ Hok]. unfold id_ok in Hn.
  rewrite (proj2 (Z.ltb_lt 0 next)) by lia. cbn [andb].
  destruct (taken next) eqn:Et; cbn [negb]; [|simpl; intros; lia].
  intros H. constructor; [done|]. by apply IH.
Qed.

(** What the used slots hold. *)
Fixpoint slot_ids {A} (f : A -> Z) (l : list (option A)) : list Z :=
  match l with
  | [] => []
  | Some x :: l' => f x :: slot_ids f l'
  | None :: l' => slot_ids f l'
  end.

Lemma slot_ids_length {A} (f : A -> Z) l : length (slot_ids f l) = count_used l.
Proof. induction l as [|[x|] l IH]; simpl; auto. Qed.

Lemma slot_ids_In {A} (f : A -> Z) l k x : has_slot l k x -> In (f x) (slot_ids f l).
Proof.
  unfold has_slot. revert k. induction l as [|[y|] l IH]; intros [|k]; simpl; intros H;
    simplify_eq; eauto.
Qed.

(** A loop that tries more ids than there are slots finds one. *)
Lemma alloc_id_loop_finds {A} (f : A -> Z) (l : list (option A)) taken tries next :
  id_ok next -> Z.of_nat tries < 2 ^ 31 -> (count_used l < tries)%nat ->
  (forall id, taken id = true -> exists k x, has_slot l k x /\ f x = id) ->
  (alloc_id_loop taken tries next).1 <> -1.
Proof.
  intros Hn Ht Hc Htaken Hfail.
  pose proof (alloc_id_loop_fail taken tries next Hn Hfail) as Hall.
  assert (Hincl : incl (tried tries next) (slot_ids f l)).
  { intros id Hid. rewrite List.Forall_forall in Hall.
    destruct (Htaken id (Hall id Hid)) as (k & x & Hk & <-). by eapply slot_ids_In. }
  pose proof (NoDup_incl_length (proj1 (NoDup_ListNoDup _) (tried_NoDup _ _ Hn Ht)) Hincl)
    as Hlen.
  rewrite slot_ids_length in Hlen.
  assert (Hl : forall t z, length (tried t z) = t).
  { clear. induction t as [|t IH]; intros z; cbn [tried length]; auto. }
  rewrite Hl in Hlen. lia.
Qed.

Lemma sem_alloc_id_ok s :
  ipc_wf s -> let '(id, s') := sem_alloc_id s in
  s' = set_next_semid (i_next_semid s') s /\ id_ok (i_next_semid s') /\
  id_ok id /\ forall k x, has_slot (i_sem s) k x -> ss_semid x <> id.
Proof.
  intros Hwf. unfold sem_alloc_id.
  set (taken := fun id => _).
  pose proof (alloc_id_loop_ok taken (SEM_SET_MAX * 4) _ (wf_next_semid s Hwf)) as H.
  assert (Hfind : (alloc_id_loop taken (SEM_SET_MAX * 4) (i_next_semid s)).1 <> -1).
  { apply (alloc_id_loop_finds ss_semid (i_sem s)); [apply Hwf|unfold SEM_SET_MAX; lia| |].
    - pose proof (wf_tabs s Hwf) as Ht. pose proof (count_used_le (i_sem s)) as Hc.
      unfold SEM_SET_MAX in *. destruct (i_tab s); destruct Ht as [Ht _];
        [rewrite Ht in Hc|rewrite Ht; simpl]; lia.
    - intros id Hid. unfold taken in Hid. bprop. destruct Hid as [[k x] Hid].
      apply sem_find_Some in Hid as [? ?]. eauto. }
  destruct (alloc_id_loop _ _ _) as [id nx]. simpl in *.
  destruct H as [Hnx [->|[Hid Hfree]]]; [done|]. split; [done|]. split; [done|].
  split; [done|]. intros k x Hk <-. unfold taken in Hfree. bprop.
  apply Hfree. rewrite (sem_find_slot s k x Hwf Hk). by eexists.
Qed.

Lemma msg_alloc_id_ok s :
  ipc_wf s -> let '(id, s') := msg_alloc_id s in
  s' = set_next_msqid (i_next_msqid s') s /\ id_ok (i_next_msqid s') /\
  id_ok id /\ forall k x, has_slot (i_msq s) k x -> q_msqid x <> id.
Proof.
  intros Hwf. unfold msg_alloc_id.
  set (taken := fun id => _).
  pose proof (alloc_id_loop_ok taken (MSG_QUEUE_MAX * 4) _ (wf_next_msqid s Hwf)) as H.
  assert (Hfind : (alloc_id_loop taken (MSG_QUEUE_MAX * 4) (i_next_msqid s)).1 <> -1).
  { apply (alloc_id_loop_finds q_msqid (i_msq s)); [apply Hwf|unfold MSG_QUEUE_MAX; lia| |].
    - pose proof (wf_tabs s Hwf) as Ht. pose proof (count_used_le (i_msq s)) as Hc.
      unfold MSG_QUEUE_MAX in *. destruct (i_tab s); destruct Ht as (_ & _ & Ht & _);
        [rewrite Ht in Hc|rewrite Ht; simpl]; lia.
    - intros id Hid. unfold taken in Hid. bprop. destruct Hid as [[k x] Hid].
      apply msg_find_Some in Hid as [? ?]. eauto. }
  destruct (alloc_id_loop _ _ _) as [id nx]. simpl in *.
  destruct H as [Hnx [->|[Hid Hfree]]]; [done|]. split; [done|]. split; [done|].
  split; [done|]. intros k x Hk <-. unfold taken in Hfree. bprop.
  apply Hfree. rewrite (msg_find_slot s k x Hwf Hk). by eexists.
Qed.

Lemma wf_set_next_semid n s : ipc_wf s -> id_ok n -> ipc_wf (set_next_semid n s).
Proof. intros H Hn. wf_fields H. Qed.
Lemma wf_set_next_msqid n s : ipc_wf s -> id_ok n -> ipc_wf (set_next_msqid n s).
Proof. intros H Hn. wf_fields H. Qed.

Lemma arena_alloc_wf s : ipc_wf s -> ipc_wf (arena_alloc s).2.
Proof. intros H. rewrite arena_alloc_state. by apply wf_set_mem. Qed.

Lemma wf_tables s : ipc_wf s ->
  let '(ok, s') := tables s in ipc_wf s' /\ i_tab s' = ok /\ i_wait_seq s' = i_wait_seq s.
Proof.
  intros H. unfold tables. destruct (i_tab s) eqn:Et; [done|].
  pose proof (wf_tabs s H) as Ht. rewrite Et in Ht. destruct Ht as (Es & Eu & Em & Ew).
  pose proof (wf_nwait s H) as Hnw. pose proof (wf_nundo s H) as Hnu.
  rewrite Ew in Hnw. rewrite Eu in Hnu. simpl in Hnw, Hnu.
  pose proof (arena_alloc_state s) as Ea. destruct (arena_alloc s) as [ok s1].
  simpl in Ea. subst s1. destruct ok; [|split; [by apply wf_set_mem|by simpl]].
  split; [|done].
  assert (Hslot : forall A n k (x : A), ~ has_slot (replicate n None) k x).
  { intros A n k x Hk. unfold has_slot in Hk. by apply lookup_replicate in Hk as [? _]. }
  assert (Hcount : forall A n, count_used (replicate n (@None A)) = O).
  { intros A n. induction n; simpl; auto. }
  destruct H. constructor; cbn [i_tab i_sem i_undo i_msq i_wait i_next_semid i_next_msqid
    i_wait_seq i_nwait i_nundo set_mem]; rewrite ?Hcount, ?length_replicate; auto;
    try (intros ? ? Hk; exfalso; exact (Hslot _ _ _ _ Hk));
    try (intros ? ? ? ? Hk; exfalso; exact (Hslot _ _ _ _ Hk)).
Qed.

(** ** semget and msgget *)

Lemma replicate_val_ok n : Forall val_ok (replicate n 0).
Proof. apply Forall_replicate. unfold val_ok, CNG_SEMVMX. lia. Qed.

Section Serve.
Context (E : env).

Lemma wf_sem_create q slot s :
  ipc_wf s -> find_free (i_sem s) = Some slot ->
  0 < rq_size q <= CNG_SEMMSL ->
  (rq_key q <> 0 -> forall j y, has_slot (i_sem s) j y -> ss_key y <> rq_key q) ->
  let '(id, s1) := sem_alloc_id s in
  forall mem, ipc_wf (put_sem slot
    (SemSet id (rq_key q) (Z.to_nat (rq_size q)) (Z.land (rq_arg q) 511)
       (rq_uid q) (rq_gid q) (rq_uid q) (rq_gid q) 0 (e_now_sec E)
       (replicate (Z.to_nat (rq_size q)) 0) (replicate (Z.to_nat (rq_size q)) 0)
       (rq_pid q) (rq_pid q)) (set_mem mem s1)).
Proof.
  intros Hwf Hslot Hsz Hkey. pose proof (sem_alloc_id_ok s Hwf) as Ha.
  destruct (sem_alloc_id s) as [id s1]. destruct Ha as (-> & Hnx & Hid & Hfresh).
  intros mem. simpl in *. apply find_free_Some in Hslot.
  apply wf_add_sem; simpl; auto.
  - apply wf_set_mem, wf_set_next_semid; auto.
  - split; [|split; [done|simpl; lia]]. split; [apply length_replicate|].
    split; [apply length_replicate|apply replicate_val_ok].
Qed.

Lemma wf_sem_get q s : ipc_wf s -> 0 <= rq_size q -> ipc_wf (sem_do_get E q s).2.
Proof.
  intros Hwf Hsz. unfold sem_do_get.
  assert (Hcreate :
    (rq_key q <> 0 -> forall j y, has_slot (i_sem s) j y -> ss_key y <> rq_key q) ->
    ipc_wf ((if (rq_size q =? 0) || (CNG_SEMMSL <? rq_size q) then (- EINVAL, s)
       else match find_free (i_sem s) with
       | None => (- ENOSPC, s)
       | Some slot =>
           let '(id, s) := sem_alloc_id s in
           if id <? 0 then (- ENOSPC, s)
           else
             let '(ok1, s) := arena_alloc s in
             let '(ok2, s) := arena_alloc s in
             if negb (ok1 && ok2) then (- ENOMEM, s)
             else
               let n := Z.to_nat (rq_size q) in
               (id, put_sem slot
                      (SemSet id (rq_key q) n (Z.land (rq_arg q) 511)
                         (rq_uid q) (rq_gid q) (rq_uid q) (rq_gid q) 0 (e_now_sec E)
                         (replicate n 0) (replicate n 0) (rq_pid q) (rq_pid q)) s)
       end).2)).
  { intros Hkey. destruct (_ || _) eqn:Esz; [done|].
    destruct (find_free (i_sem s)) as [slot|] eqn:Eslot; [|done].
    pose proof (wf_sem_create q slot s Hwf Eslot ltac:(bprop; lia) Hkey) as Hc.
    pose proof (sem_alloc_id_ok s Hwf) as Ha.
    destruct (sem_alloc_id s) as [id s1]. destruct Ha as (Hs1 & Hnx & _ & _).
    assert (Hwf1 : ipc_wf s1) by (rewrite Hs1; by apply wf_set_next_semid).
    case_if; [done|]. pose proof (arena_alloc_state s1) as Ea.
    destruct (arena_alloc s1) as [ok1 s2]. simpl in Ea. subst s2.
    pose proof (arena_alloc_state (set_mem (tail (i_mem s1)) s1)) as Ea.
    destruct (arena_alloc _) as [ok2 s2]. simpl in Ea. subst s2.
    case_if; simpl; [by repeat apply wf_set_mem|]. apply Hc. }
  destruct (negb (rq_key q =? 0)) eqn:Ek.
  - destruct (find_used _ _) as [[k x]|] eqn:Ef.
    + apply find_used_Some in Ef as (Hk & _ & _).
      repeat (case_if; [done|]). eapply wf_put_sem; eauto with cng.
      apply (wf_sets s Hwf k x Hk).
    + case_if; [done|]. apply Hcreate. intros _ j y Hj Hy.
      pose proof (find_used_None _ _ _ _ Ef Hj) as Hn. simpl in Hn. bprop. done.
  - apply Hcreate. bprop. done.
Qed.

Lemma wf_msg_get q s : ipc_wf s -> ipc_wf (msg_do_get E q s).2.
Proof.
  intros Hwf. unfold msg_do_get.
  assert (Hcreate :
    (rq_key q <> 0 -> forall j y, has_slot (i_msq s) j y -> q_key y <> rq_key q) ->
    ipc_wf (match find_free (i_msq s) with
    | None => (- ENOSPC, s)
    | Some slot =>
        let '(id, s) := msg_alloc_id s in
        if id <? 0 then (- ENOSPC, s)
        else (id, put_msq slot
                    (MsgQ id (rq_key q) (Z.land (rq_arg q) 511)
                       (rq_uid q) (rq_gid q) (rq_uid q) (rq_gid q) 0 0
                       (e_now_sec E) 0 0 CNG_MSGMNB 0 0 (rq_pid q) (rq_pid q) []) s)
    end).2).
  { intros Hkey. destruct (find_free (i_msq s)) as [slot|] eqn:Eslot; [|done].
    apply find_free_Some in Eslot. pose proof (msg_alloc_id_ok s Hwf) as Ha.
    destruct (msg_alloc_id s) as [id s1]. destruct Ha as (-> & Hnx & Hid & Hfresh).
    simpl in Hnx. case_if; [by apply wf_set_next_msqid|].
    apply wf_add_msq; simpl; auto; [by apply wf_set_next_msqid|].
    split; [|done]. by repeat split. }
  destruct (negb (rq_key q =? 0)) eqn:Ek.
  - destruct (find_used _ _) as [[k x]|] eqn:Ef.
    + apply find_used_Some in Ef as (Hk & _ & _).
      repeat (case_if; [done|]). eapply wf_put_msq; eauto; [by repeat split|].
      apply (wf_queues s Hwf k x Hk).
    + case_if; [done|]. apply Hcreate. intros _ j y Hj Hy.
      pose proof (find_used_None _ _ _ _ Ef Hj) as Hn. simpl in Hn. bprop. done.
  - apply Hcreate. bprop. done.
Qed.

(** ** Removal *)

Lemma free_rows_kill semid rows : forall n,
  free_rows semid rows n =
  (kill (fun u => u_semid u =? semid) rows,
   n - Z.of_nat (count_used rows)
   + Z.of_nat (count_used (kill (fun u => u_semid u =? semid) rows))).
Proof.
  induction rows as [|[u|] rows IH]; intros n; cbn [free_rows kill map kill1 count_used].
  - f_equal. lia.
  - case_if; rewrite IH; cbn [count_used]; unfold kill; f_equal; lia.
  - by rewrite IH.
Qed.

(** A set goes with its rows; nobody is parked on it. *)
Lemma wf_sem_free s k x :
  ipc_wf s -> has_slot (i_sem s) k x ->
  (forall j w, has_slot (i_wait s) j w -> on_object (ss_semid x) true w = false) ->
  ipc_wf (sem_free_set k x s).2.
Proof.
  intros Hwf Hk Hw. unfold sem_free_set, modify. simpl. rewrite free_rows_kill.
  assert (Hlive : forall id n, sem_live (i_sem s) id n -> id <> ss_semid x ->
    sem_live (<[k := None]> (i_sem s)) id n).
  { intros id n (j & y & Hj & <- & <-) Hne. exists j, y. split; [|done].
    unfold has_slot in *. rewrite list_lookup_insert_ne; [done|].
    intros ->. by rewrite (has_slot_fun _ _ _ _ Hk Hj) in Hne. }
  pose proof (wf_nundo s Hwf) as Hnu. pose proof (wf_rows s Hwf) as Hrows.
  pose proof (wf_waiters s Hwf) as Hwait. wf_fields Hwf.
  - rewrite kill_length, length_insert. destruct (i_tab s); [done|].
    destruct Htabs as (Hs & _). by rewrite Hs in Hk.
  - by apply on_slots_write.
  - by apply uniq_clear.
  - by apply uniq_clear.
  - intros j u [Hj Hp]%has_slot_kill. bprop.
    destruct (Hrows j u Hj) as [Hl Hok]. split; auto.
  - by apply uniq_kill.
  - intros j w Hj. destruct (Hwait j w Hj) as [Hs Hop]. split; [done|].
    specialize (Hw j w Hj). unfold on_object in Hw.
    destruct (w_op w); try done. simpl in Hw. rewrite andb_true_r in Hw. bprop.
    destruct Hop as (n & Hl & Hrest). exists n. auto.
  - lia.
Qed.

Lemma wf_msg_free s k x :
  ipc_wf s -> has_slot (i_msq s) k x ->
  (forall j w, has_slot (i_wait s) j w -> on_object (q_msqid x) false w = false) ->
  ipc_wf (msg_free_queue k s).2.
Proof.
  intros Hwf Hk Hw. unfold msg_free_queue, modify. simpl.
  assert (Hlive : forall id, msq_live (i_msq s) id -> id <> q_msqid x ->
    msq_live (<[k := None]> (i_msq s)) id).
  { intros id (j & y & Hj & <-) Hne. exists j, y. split; [|done].
    unfold has_slot in *. rewrite list_lookup_insert_ne; [done|].
    intros ->. by rewrite (has_slot_fun _ _ _ _ Hk Hj) in Hne. }
  pose proof (wf_waiters s Hwf) as Hwait. wf_fields Hwf.
  - rewrite length_insert. destruct (i_tab s); [done|].
    destruct Htabs as (_ & _ & Hs & _). by rewrite Hs in Hk.
  - by apply on_slots_write.
  - by apply uniq_clear.
  - by apply uniq_clear.
  - intros j w Hj. destruct (Hwait j w Hj) as [Hs Hop]. split; [done|].
    specialize (Hw j w Hj). unfold on_object in Hw.
    destruct (w_op w); try done; simpl in Hw; rewrite andb_true_r in Hw; bprop.
    + destruct Hop as (Hl & Hrest). auto.
    + auto.
Qed.

Lemma wf_sem_rmid s k x :
  ipc_wf s -> has_slot (i_sem s) k x ->
  ipc_wf (sem_free_set k x (waiters_eidrm E (ss_semid x) true s).2).2.
Proof.
  intros Hwf Hk. destruct (waiters_eidrm_spec E (ss_semid x) true s Hwf)
    as (Hwf1 & Hw1 & (_ & Hs1 & _) & _).
  apply wf_sem_free; [done|by rewrite Hs1|]. intros j w. rewrite Hw1.
  by intros [_ ?]%has_slot_kill.
Qed.

Lemma wf_msg_rmid s k x :
  ipc_wf s -> has_slot (i_msq s) k x ->
  ipc_wf (msg_free_queue k (waiters_eidrm E (q_msqid x) false s).2).2.
Proof.
  intros Hwf Hk. destruct (waiters_eidrm_spec E (q_msqid x) false s Hwf)
    as (Hwf1 & Hw1 & (_ & _ & _ & Hm1 & _) & _).
  eapply wf_msg_free; [done|by rewrite Hm1|]. intros j w. rewrite Hw1.
  by intros [_ ?]%has_slot_kill.
Qed.

(** ** semctl and msgctl *)

(** The state behind a pair; unpacks the [let]s of the operations. *)
Ltac step_pair t :=
  let a := fresh "a" in let s1 := fresh "s" in
  destruct t as [a s1] eqn:?; simpl.

Lemma wf_ctl_one k x q s :
  ipc_wf s -> has_slot (i_sem s) k x ->
  (rq_arg q = CNG_SETVAL -> val_ok (rq_val q)) ->
  ipc_wf (sem_ctl_one E k x q s).2.
Proof.
  intros Hwf Hk Hval. unfold sem_ctl_one.
  destruct (wf_sets s Hwf k x Hk) as [(Hl & Hp & Hok) _].
  destruct (if rq_arg q =? CNG_SETVAL then _ else _) eqn:Er; [done|].
  repeat (case_if; [done|]). case_if; [|done]. bprop.
  assert (Hwf1 : ipc_wf (put_sem k
     (set_vals x (<[Z.to_nat (rq_semnum q) := u16 (rq_val q)]> (ss_val x))
        (<[Z.to_nat (rq_semnum q) := rq_pid q]> (ss_lpid x)) (ss_otime x)
        (e_now_sec E) (rq_pid q)) s)).
  { eapply wf_put_sem; eauto with cng. split; [simpl; by rewrite length_insert|].
    split; [simpl; by rewrite length_insert|]. simpl. apply Forall_insert; [done|].
    rewrite u16_val; auto. }
  apply (wf_undo_clear _ (ss_semid x) (rq_semnum q)) in Hwf1. revert Hwf1.
  by destruct (sem_undo_clear _ _ _) as [[] s1].
Qed.

Lemma wf_sem_ctl q r s : ipc_wf s -> ipc_wf (sem_do_ctl E q r s).2.
Proof.
  intros Hwf. unfold sem_do_ctl. destruct (_ && _) eqn:Eval; [done|].
  assert (Hval : rq_arg q = CNG_SETVAL -> val_ok (rq_val q)).
  { intros Ha. unfold val_ok. bprop. destruct Eval as [?|[? ?]]; [done|lia]. }
  case_if; [by destruct (info_loop _ _ _ _ _ _) as [[? ?] ?]|].
  case_if.
  { case_if; [done|]. destruct (i_sem s !! _) as [[x|]|] eqn:Ex; [|done..].
    case_if; [done|]. destruct (wf_reclaim_set E s x Hwf) as [Hwf1 _].
    destruct (sem_reclaim_set E x s) as [[] s1]. simpl in *.
    by destruct (i_sem s1 !! _) as [[?|]|]. }
  destruct (sem_find s (rq_id q)) as [[k x0]|] eqn:Ef; [|done].
  apply sem_find_Some in Ef as [Hk _].
  destruct (wf_reclaim_set E s x0 Hwf) as [Hwf1 Hkeep].
  destruct (sem_reclaim_set E x0 s) as [[] s1]. simpl in *.
  destruct (Hkeep k x0 Hk) as (x & Hk1 & _). unfold has_slot in Hk1. rewrite Hk1.
  case_if; [done|]. case_if; [by case_if|]. case_if.
  { case_if; [done|]. eapply wf_put_sem; eauto; [by repeat split|].
    destruct (wf_sets s1 Hwf1 k x Hk1) as [Hs _]. apply Hs. }
  case_if.
  { case_if; [done|]. pose proof (wf_sem_rmid s1 k x Hwf1 Hk1) as Hr.
    destruct (waiters_eidrm E _ _ s1) as [[] s2]. simpl in Hr.
    by destruct (sem_free_set k x s2) as [[] s3]. }
  pose proof (wf_ctl_one k x q s1 Hwf1 Hk1 Hval) as Hone.
  by destruct (sem_ctl_one E k x q s1).
Qed.

Lemma wf_msg_ctl q r s : ipc_wf s -> ipc_wf (msg_do_ctl E q r s).2.
Proof.
  intros Hwf. unfold msg_do_ctl. case_if.
  { destruct (info_loop _ _ _ _ _ _) as [[? ?] ?].
    by destruct (info_loop _ _ _ _ _ _) as [[? ?] ?]. }
  case_if.
  { case_if; [done|]. destruct (i_msq s !! _) as [[x|]|]; [|done..]. by case_if. }
  destruct (msg_find s (rq_id q)) as [[k x]|] eqn:Ef; [|done].
  apply msg_find_Some in Ef as [Hk _]. case_if; [by case_if|]. case_if.
  { case_if; [done|]. case_if; [done|]. eapply wf_put_msq; eauto; [by repeat split|].
    destruct (wf_queues s Hwf k x Hk) as [Hs _]. apply Hs. }
  case_if; [|done]. case_if; [done|].
  pose proof (wf_msg_rmid s k x Hwf Hk) as Hr.
  destruct (waiters_eidrm E _ _ s) as [[] s2]. simpl in Hr.
  exact Hr.
Qed.

(** ** The requests *)

(** The wire types of a request and of what streams behind it. *)
Definition payload_ok (p : payload) : Prop :=
  match p with
  | PSops l => Forall op_ok l
  | PVals l => Forall (fun v => 0 <= v < 2 ^ 16) l
  | _ => True
  end.
Definition req_ok (q : cng_breq) (p : payload) : Prop :=
  0 <= rq_size q < 2 ^ 64 /\ payload_ok p.

Lemma wf_send cfd r payload s : ipc_wf s -> ipc_wf (broker_send E cfd r payload s).2.
Proof. intros H. unfold broker_send, modify. simpl. case_if; auto with cng. Qed.

Lemma wf_serve_semop cfd q p s :
  ipc_wf s -> i_wait_seq s < 2 ^ 64 - 1 -> req_ok q p -> rq_op q = REQ_SEMOP ->
  ipc_wf (serve_semop E cfd q p s).2.
Proof.
  intros Hwf Hseq [_ Hp] Hop. unfold serve_semop. case_if; [by case_if|].
  pose proof (arena_alloc_state s) as Ea. pose proof (arena_alloc_wf s Hwf) as Hwf1.
  destruct (arena_alloc s) as [ok s1]. simpl in Ea, Hwf1. case_if; [done|].
  destruct (read_sops p _) as [sops|] eqn:Er; [|done].
  assert (Hops : Forall op_ok sops).
  { destruct p; simpl in Er; try done. case_if_in Er; by simplify_eq. }
  destruct (sem_find s1 (rq_id q)) as [[k x0]|] eqn:Ef; [|done].
  apply sem_find_Some in Ef as [Hk Hid].
  destruct (wf_reclaim_set E s1 x0 Hwf1) as [Hwf2 Hkeep].
  pose proof (reclaim_set_rest E x0 s1) as Hrest.
  destruct (sem_reclaim_set E x0 s1) as [[] s2]. simpl in *.
  destruct (Hkeep k x0 Hk) as (x & Hk2 & Hsame). pose proof Hk2 as Hk2'.
  unfold has_slot in Hk2'. rewrite Hk2'.
  destruct (existsb _ sops) eqn:Eb; [done|]. case_if; [done|].
  pose proof (wf_try_op E k x sops (rq_pid q) 0 s2 Hwf2 Hk2 Hops) as Ht.
  destruct (sem_try_op E k x sops (rq_pid q) 0 s2) as [[t blk] s3].
  destruct Ht as (Hwf3 & Hkeep3 & Hrest3 & Hblk & _). destruct (t =? 1) eqn:Et; [|done].
  bprop. specialize (Hblk Et).
  destruct Hrest3 as (_ & _ & _ & _ & _ & Hq3 & _).
  destruct Hrest as (_ & _ & _ & _ & _ & Hq2 & _).
  assert (Hw : ipc_wf (waiter_park E cfd q sops blk None s3).2).
  { apply wf_waiter_park; [done|rewrite Hq3, Hq2, Ea; simpl; lia|].
    split; [simpl; pose proof (wf_wait_seq s3 Hwf3); lia|]. simpl. rewrite Hop.
    destruct (Hkeep3 k x Hk2) as (x3 & Hk3 & Hs3). exists (ss_nsems x).
    split; [|split; [done|split; [|done]]].
    - exists k, x3. destruct Hs3 as (E1 & _ & E3). destruct Hsame as (E1' & _).
      split; [done|]. split; congruence.
    - unfold in_range. by rewrite Eb. }
  destruct (waiter_park E cfd q sops blk None s3) as [[] s4]; done.
Qed.

Lemma wf_serve_semctl cfd q p s :
  ipc_wf s -> req_ok q p -> ipc_wf (serve_semctl E cfd q p s).2.
Proof.
  intros Hwf [Hsz Hp]. unfold serve_semctl. case_if.
  - destruct (_ || _) eqn:Esz; [done|].
    pose proof (arena_alloc_wf s Hwf) as Hwf1.
    destruct (arena_alloc s) as [ok s1]. simpl in Hwf1. case_if; [done|].
    destruct (read_vals p _) as [vals|] eqn:Er; [|done].
    assert (Hv : Forall (fun v => 0 <= v < 2 ^ 16) vals /\
                 length vals = Z.to_nat (rq_size q)).
    { destruct p; simpl in Er; try done. case_if_in Er; [|done]. bprop. by simplify_eq. }
    destruct Hv as [Hv Hlen].
    destruct (sem_find s1 (rq_id q)) as [[k x]|] eqn:Ef; [|done].
    apply sem_find_Some in Ef as [Hk _].
    destruct (negb (rq_size q =? _)) eqn:En; [done|]. case_if; [done|].
    destruct (existsb _ vals) eqn:Eb; [done|]. bprop.
    destruct (wf_sets s1 Hwf1 k x Hk) as [_ (_ & Hn & _)].
    set (s2 := put_sem k _ s1). assert (Hwf2 : ipc_wf s2).
    { eapply wf_put_sem; eauto with cng. split; [simpl; lia|].
      split; [simpl; rewrite length_replicate; lia|]. simpl.
      rewrite List.Forall_forall in Hv |- *. intros v Hin.
      specialize (Hv v Hin). unfold val_ok. split; [lia|].
      destruct (CNG_SEMVMX <? v) eqn:Ev; [|bprop; lia].
      assert (existsb (fun v => CNG_SEMVMX <? v) vals = true); [|congruence].
      apply existsb_exists. eauto. }
    apply (wf_undo_clear _ (ss_semid x) (-1)) in Hwf2.
    by destruct (sem_undo_clear _ _ s2) as [[] s3].
  - case_if.
    + destruct (sem_find s (rq_id q)) as [[k x0]|] eqn:Ef; [|done].
      destruct (wf_reclaim_set E s x0 Hwf) as [Hwf1 _].
      destruct (sem_reclaim_set E x0 s) as [[] s1]. simpl in Hwf1.
      destruct (i_sem s1 !! k) as [[x|]|]; [|done..]. case_if; [done|].
      pose proof (wf_send cfd (resp_ret (Z.of_nat (ss_nsems x)) resp0) (ss_val x) s1 Hwf1).
      by destruct (broker_send E cfd _ _ s1).
    + pose proof (wf_sem_ctl q resp0 s Hwf) as Hc.
      by destruct (sem_do_ctl E q resp0 s) as [[z r] s1].
Qed.

Lemma wf_serve_msgsnd cfd q p s :
  ipc_wf s -> i_wait_seq s < 2 ^ 64 - 1 -> req_ok q p -> rq_op q = REQ_MSGSND ->
  ipc_wf (serve_msgsnd E cfd q p s).2.
Proof.
  intros Hwf Hseq [Hsz Hp] Hop. unfold serve_msgsnd. destruct (_ || _) eqn:Esz; [done|].
  pose proof (arena_alloc_state s) as Ea. pose proof (arena_alloc_wf s Hwf) as Hwf1.
  destruct (arena_alloc s) as [ok s1]. simpl in Ea, Hwf1. case_if; [done|].
  destruct (read_data p _) as [data|] eqn:Er; [|done].
  assert (Hlen : length data = Z.to_nat (rq_size q)).
  { unfold read_data in Er. destruct p; case_if_in Er; bprop; by simplify_eq. }
  assert (Hm : msg_ok (GMsg (rq_mtype q) (rq_size q) data)).
  { bprop. split; [simpl; lia|]. split; simpl; lia. }
  destruct (msg_find s1 (rq_id q)) as [[k x]|] eqn:Ef; [|done].
  apply msg_find_Some in Ef as [Hk Hid]. case_if; [done|]. case_if.
  { eapply wf_put_msq; eauto; [by repeat split|]. apply queue_ok_enqueue; [|done].
    apply (wf_queues s1 Hwf1 k x Hk). }
  case_if; [done|].
  assert (Hw : ipc_wf (waiter_park E cfd q [] 0
                         (Some (GMsg (rq_mtype q) (rq_size q) data)) s1).2).
  { apply wf_waiter_park; [done|rewrite Ea; simpl; lia|].
    split; [simpl; pose proof (wf_wait_seq s1 Hwf1); lia|]. simpl. rewrite Hop.
    split; [by exists k, x|]. by eexists. }
  destruct (waiter_park E cfd q [] 0 _ s1) as [[] s2]; done.
Qed.

Lemma wf_serve_msgrcv cfd q s :
  ipc_wf s -> i_wait_seq s < 2 ^ 64 - 1 -> rq_op q = REQ_MSGRCV ->
  ipc_wf (serve_msgrcv E cfd q s).2.
Proof.
  intros Hwf Hseq Hop. unfold serve_msgrcv.
  destruct (msg_find s (rq_id q)) as [[k x]|] eqn:Ef; [|done].
  apply msg_find_Some in Ef as [Hk Hid]. case_if; [done|].
  pose proof (msg_pick_picked x (rq_mtype q) (rq_arg q)) as Hp.
  destruct (msg_pick x (rq_mtype q) (rq_arg q)) as [[i m]|].
  - case_if; [done|]. destruct Hp as (Hi & _ & _).
    set (s1 := put_msq k _ s). assert (Hwf1 : ipc_wf s1).
    { eapply wf_put_msq; eauto; [by repeat split|]. apply queue_ok_unlink; [|done].
      apply (wf_queues s Hwf k x Hk). }
    set (r := resp_msg _ _). set (pl := take _ _).
    pose proof (wf_send cfd r pl s1 Hwf1). by destruct (broker_send E cfd r pl s1).
  - case_if; [done|].
    assert (Hw : ipc_wf (waiter_park E cfd q [] 0 None s).2).
    { apply wf_waiter_park; [done|lia|].
      split; [simpl; pose proof (wf_wait_seq s Hwf); lia|]. simpl. rewrite Hop.
      by exists k, x. }
    destruct (waiter_park E cfd q [] 0 None s) as [[] s2]; done.
Qed.

Lemma wf_serve cfd q p s :
  ipc_wf s -> i_wait_seq s < 2 ^ 64 - 1 -> req_ok q p ->
  ipc_wf (cng_ipc_serve E cfd q p s).2.
Proof.
  intros Hwf Hseq Hq. unfold cng_ipc_serve. pose proof (wf_tables s Hwf) as Ht.
  destruct (tables s) as [ok s1]. destruct Ht as (Hwf1 & _ & Hseq1).
  rewrite <-Hseq1 in Hseq. destruct ok; cbn [negb].
  2:{ pose proof (wf_send cfd (resp_ret (- ENOSPC) resp0) [] s1 Hwf1) as Hs.
      by destruct (broker_send E cfd _ [] s1). }
  assert (Hop : ipc_wf (match rq_op q with
    | REQ_SEMGET => let '(z, s) := sem_do_get E q s1 in (reply z, s)
    | REQ_SEMOP => serve_semop E cfd q p s1
    | REQ_SEMCTL => serve_semctl E cfd q p s1
    | REQ_MSGGET => let '(z, s) := msg_do_get E q s1 in (reply z, s)
    | REQ_MSGSND => serve_msgsnd E cfd q p s1
    | REQ_MSGRCV => serve_msgrcv E cfd q s1
    | REQ_MSGCTL =>
        let '((z, r), s) := msg_do_ctl E q resp0 s1 in (SReply (resp_ret z r), s)
    | REQ_OTHER => (reply (- EINVAL), s1)
    end).2).
  { destruct (rq_op q) eqn:Eop.
    - pose proof (wf_sem_get q s1 Hwf1 ltac:(apply Hq)). by destruct (sem_do_get E q s1).
    - by apply wf_serve_semop.
    - by apply wf_serve_semctl.
    - pose proof (wf_msg_get q s1 Hwf1). by destruct (msg_do_get E q s1).
    - by apply wf_serve_msgsnd.
    - by apply wf_serve_msgrcv.
    - pose proof (wf_msg_ctl q resp0 s1 Hwf1). by destruct (msg_do_ctl E q resp0 s1) as [[z r] s2].
    - done. }
  destruct (match rq_op q with REQ_SEMGET => _ | _ => _ end) as [st s2]. simpl in Hop.
  destruct st; simpl; auto.
  exact (wf_send cfd r [] s2 Hop).
Qed.

Lemma wf_poll_ready ready : forall s,
  ipc_wf s -> ipc_wf (cng_ipc_poll_ready E ready s).2.
Proof.
  induction ready as [|[fd rd] ready IH]; intros s Hwf; simpl; [done|]. apply IH.
  destruct (find_used _ _) as [[k w]|] eqn:Ef; [|done].
  apply find_used_Some in Ef as (Hk & _ & _). destruct rd; [| |].
  - by apply (waiter_reply_frees E (resp_ret (- EINTR) resp0) [] s k w).
  - done.
  - by apply (waiter_free_frees s k w).
Qed.

Lemma poll_ready_seq ready : forall s,
  i_wait_seq (cng_ipc_poll_ready E ready s).2 = i_wait_seq s.
Proof.
  induction ready as [|[fd rd] ready IH]; intros s; simpl; [done|]. rewrite IH.
  destruct (find_used _ _) as [[k w]|]; [|done].
  destruct rd; [| done |]; unfold waiter_reply, broker_send, waiter_free, modify,
    mbind, M_bind; repeat case_if; done.
Qed.
End Serve.

(** * The daemon's loop around the registry (src/src/monitor/broker.c,
    broker_main)

    One turn of the poll loop, as far as the System V registry takes part:
    ready parked connections, at most one request, the rescan, the deadlines
    and the periodic reclaim. *)

(** What a turn meets: [tn_env] is the surroundings each of its calls sees, in
    the order of the calls. *)
Record turn := Turn {
  tn_env : nat -> env;
  tn_ready : bool;                              (* the poll returned r > 0 *)
  tn_polled : list (Z * wait_read);             (* ready parked connections *)
  tn_req : option (Z * cng_breq * payload);     (* the accepted request *)
  tn_now : Z;
  tn_tick : bool;                               (* now - last_tick >= BROKER_TICK_MS *)
  tn_idle : bool }.                             (* r == 0 and the grace is over *)

Definition ipc_turn (t : turn) (s : ipc) : option ipc :=
  let ready s :=
    let s := (cng_ipc_poll_ready (tn_env t 0) (tn_polled t) s).2 in
    let s := match tn_req t with
             | Some (cfd, q, p) => (cng_ipc_serve (tn_env t 1) cfd q p s).2
             | None => s
             end in
    cng_ipc_rescan (tn_env t 2) s in
  s ← (if tn_ready t then ready s else Some s);
  let s := (cng_ipc_expire (tn_env t 3) (tn_now t) s).2 in
  s ← (if cng_ipc_pending s && tn_tick t then cng_ipc_reclaim (tn_env t 4) s
       else Some s);
  if tn_idle t then cng_ipc_reclaim (tn_env t 5) s else Some s.

(** ** Between turns *)

(** No parked operation could proceed. *)
Definition quiet (s : ipc) : Prop :=
  forall k w, has_slot (i_wait s) k w -> blocked s w.

Lemma keeps_tables_calm s s' : keeps_tables s s' -> calm s s'.
Proof.
  intros (H1 & H2 & H3 & H4 & _). repeat split; auto. intros. by rewrite H3.
Qed.

Lemma quiet_kill p s s' :
  keeps_tables s s' -> i_wait s' = kill p (i_wait s) -> quiet s -> quiet s'.
Proof.
  intros Hk Hw Hq k w. rewrite Hw. intros [Hj _]%has_slot_kill.
  eapply blocked_calm; [by apply keeps_tables_calm|]. by eapply Hq.
Qed.

Lemma reclaim_rows_idle E only rows : forall i applied s,
  (reclaim_rows E only rows i applied s).1 = false ->
  applied = false /\ (reclaim_rows E only rows i applied s).2 = s.
Proof.
  induction rows as [|[u|] rows IH]; intros i applied s; simpl; [done| |apply IH].
  case_if; [|apply IH]. unfold mbind, M_bind.
  destruct (sem_undo_apply E i u s) as [[] s1]. intros H. by apply IH in H as [? _].
Qed.

Lemma reclaim_spec E s :
  ipc_wf s -> quiet s ->
  exists s', cng_ipc_reclaim E s = Some s' /\ ipc_wf s' /\ quiet s'.
Proof.
  intros Hwf Hq. unfold cng_ipc_reclaim. destruct (i_tab s); simpl; [|by eauto].
  destruct (reclaim_waiters_spec E s Hwf) as (Hwf1 & Hw1 & Hk1 & _).
  destruct (reclaim_waiters E (i_wait s) 0 s) as [[] s1]. simpl in *.
  pose proof (quiet_kill _ _ _ Hk1 Hw1 Hq) as Hq1.
  destruct (wf_reclaim_rows E None (i_undo s1) 0 false s1 Hwf1 eq_refl) as [Hwf2 _].
  pose proof (reclaim_rows_idle E None (i_undo s1) 0 false s1) as Hidle.
  destruct (reclaim_rows E None (i_undo s1) 0 false s1) as [applied s2]. simpl in *.
  destruct applied.
  - destruct (rescan_spec E s2 Hwf2) as (s' & -> & Hwf' & _ & _ & Hb). eauto.
  - destruct (Hidle eq_refl) as [_ ->]. eauto.
Qed.

Definition turn_ok (t : turn) : Prop :=
  match tn_req t with Some (_, q, p) => req_ok q p | None => True end.

(** One turn is always completed, and leaves the registry well-formed and
    quiet. *)
Lemma turn_spec t s :
  ipc_wf s -> quiet s -> turn_ok t -> i_wait_seq s < 2 ^ 64 - 1 ->
  exists s', ipc_turn t s = Some s' /\ ipc_wf s' /\ quiet s'.
Proof.
  intros Hwf Hq Ht Hseq. unfold ipc_turn.
  assert (Hready : exists s1,
    (if tn_ready t then
       cng_ipc_rescan (tn_env t 2)
         match tn_req t with
         | Some (cfd, q, p) => (cng_ipc_serve (tn_env t 1) cfd q p
             (cng_ipc_poll_ready (tn_env t 0) (tn_polled t) s).2).2
         | None => (cng_ipc_poll_ready (tn_env t 0) (tn_polled t) s).2
         end else Some s) = Some s1 /\ ipc_wf s1 /\ quiet s1).
  { destruct (tn_ready t); [|by eauto].
    set (s0 := (cng_ipc_poll_ready (tn_env t 0) (tn_polled t) s).2).
    assert (Hwf0 : ipc_wf s0) by (by apply wf_poll_ready).
    assert (Hseq0 : i_wait_seq s0 < 2 ^ 64 - 1)
      by (unfold s0; by rewrite poll_ready_seq).
    match goal with |- context [cng_ipc_rescan _ ?m] => assert (Hwf1 : ipc_wf m) end.
    { unfold turn_ok in Ht. destruct (tn_req t) as [[[cfd q] p]|]; [|done].
      by apply wf_serve. }
    destruct (rescan_spec (tn_env t 2) _ Hwf1) as (s1 & -> & Hwf2 & _ & _ & Hb). eauto. }
  destruct Hready as (s1 & -> & Hwf1 & Hq1). simpl.
  destruct (expire_spec (tn_env t 3) (tn_now t) s1 Hwf1) as (Hwf2 & Hw2 & Hk2 & _).
  pose proof (quiet_kill _ _ _ Hk2 Hw2 Hq1) as Hq2.
  destruct (cng_ipc_expire (tn_env t 3) (tn_now t) s1) as [[] s2]. simpl in *.
  assert (Htick : exists s3, (if cng_ipc_pending s2 && tn_tick t
    then cng_ipc_reclaim (tn_env t 4) s2 else Some s2) = Some s3 /\ ipc_wf s3 /\ quiet s3).
  { case_if; [by apply reclaim_spec|by eauto]. }
  destruct Htick as (s3 & -> & Hwf3 & Hq3). simpl.
  destruct (tn_idle t); [by apply reclaim_spec|by eauto].
Qed.

(** ** Reachable states

    A daemon that has parked fewer than 2^64 operations (the arrival counter
    has not wrapped). *)
Inductive reachable (mem : list bool) : ipc -> Prop :=
  | ReachInit : reachable mem (ipc0 mem)
  | ReachTurn s t s' :
      reachable mem s -> turn_ok t -> i_wait_seq s < 2 ^ 64 - 1 ->
      ipc_turn t s = Some s' -> reachable mem s'.

Lemma wf_init mem : ipc_wf (ipc0 mem).
Proof.
  constructor; simpl; try done; try (vm_compute; by split);
    intros ? ? ? * ; try done; intros ? ?; by rewrite lookup_nil in *.
Qed.

Lemma reachable_ok mem s : reachable mem s -> ipc_wf s /\ quiet s.
Proof.
  induction 1 as [|s t s' _ [Hwf Hq] Ht Hseq Hturn].
  - split; [apply wf_init|]. intros k w Hk. done.
  - destruct (turn_spec t s Hwf Hq Ht Hseq) as (s1 & E1 & ? & ?).
    rewrite Hturn in E1. by simplify_eq.
Qed.
