(* ===== verification/IpcProps.v ===== *)
(** * The System V registry: the properties *)

From stdpp Require Import base list strings gmap numbers.
From Stdlib Require Import ZArith Lia.
From S2P Require Import Prelude IpcData IpcOps IpcSem IpcInv IpcWait IpcRescan IpcServe.

Open Scope Z_scope.

(** ** A concrete daemon for the witnesses *)

Definition env0 : env := Env 1000 5000 (fun pid => pid * 10) (fun _ => false) (fun _ => true).

(** A set of three semaphores holding 2, 0 and 5, and process 7's debt on it. *)
Definition set0 : sem_set :=
  SemSet 1 99 3 438 0 0 0 0 0 0 [2; 0; 5] [0; 0; 0] 7 7.
Definition ipc1 : ipc :=
  Ipc true [Some set0] [Some (SemUndo 7 70 1 [1; 0; 0]); None] [] [] 2 1 1 0 1 [] [].

Lemma set0_ok : set_ok set0.
Proof.
  split; [done|]. split; [done|]. unfold val_ok, CNG_SEMVMX. simpl.
  repeat (constructor; [lia|]). constructor.
Qed.

Lemma ipc1_rows : rows_ok 1 3 (i_undo ipc1).
Proof.
  intros k u Hk _. destruct k as [|[|k]]; simpl in Hk; simplify_eq.
  split; [done|]. unfold adj_ok, CNG_SEMAEM. simpl. repeat (constructor; [lia|]).
  constructor.
Qed.

(** ** semop *)

(** C10: a semop vector is one atomic step.  Where every operation can proceed
    on what its predecessors left, the call answers 0, each semaphore has moved
    by the sum of the vector's operations on it, the caller's undo debt by the
    SEM_UNDO ones, and the pid and time stamps are made; otherwise it answers
    what stopped it, with the index in [blk] where it would block, and every
    semaphore and every process's debt is as before, the loop's partial work
    rolled back.  No other set, queue or waiter is touched either way. *)
Theorem semop_atomic (E : env) (k : nat) (x : sem_set) (sops : list cng_sembuf)
    (pid : Z) (blk : nat) (s : ipc) (Hset : set_ok x)
    (Hrows : rows_ok (ss_semid x) (ss_nsems x) (i_undo s))
    (Hops : Forall op_ok sops) (Hrange : in_range (ss_nsems x) sops = true) :
  let debt s' := undo_at (i_undo s') in
  let '((r, blk'), s') := sem_try_op E k x sops pid blk s in
  let '(m, stop) := vector_stop (row_avail s pid (ss_semid x)) (at0 (ss_val x))
                      (debt s pid (ss_semid x)) [] sops in
  r = default 0 stop /\
  (exists x', sem_frame k x' s s' /\
     match stop with
     | None => set_done E x x' sops pid /\ set_ok x' /\ blk' = blk
     | Some e => x' = x /\ e <> 0 /\ blk' = (if e =? 1 then m else blk)
     end) /\
  (forall p i n,
     debt s' p i n =
     debt s p i n - (if decide ((p, i) = (pid, ss_semid x) /\ stop = None)
                     then udelta sops n else 0)).
Proof.
  pose proof (sem_try_op_done E k x sops pid blk s Hset Hrows Hops Hrange) as Hdone.
  pose proof (sem_try_op_stopped E k x sops pid blk s Hset Hrows Hops Hrange) as Hstop.
  pose proof (call_loop E x sops pid s Hset Hrows Hops Hrange) as Hloop.
  destruct (sem_try_op E k x sops pid blk s) as [[r blk'] s']. cbv zeta.
  destruct (vector_stop _ _ _ [] sops) as [m [e|]]; simpl in *.
  - destruct (Hstop e eq_refl) as (-> & -> & Hfr & Hu).
    split; [done|]. split.
    { exists x. split; [done|]. split; [done|]. split; [|done].
      destruct Hloop as (_ & _ & Hne & _). congruence. }
    intros p i n. rewrite decide_False by naive_solver. rewrite Z.sub_0_r.
    destruct Hu as [[-> _]|(adj & _ & Ha & Hput)]; [done|].
    destruct (decide ((p, i) = (pid, ss_semid x))) as [[= -> ->]|Hne].
    + by rewrite (rows_put_at _ _ _ _ _ _ _ _ Hput), Ha.
    + unfold undo_at. by rewrite (rows_put_other _ _ _ _ _ _ _ _ _ Hput Hne).
  - destruct (Hdone eq_refl) as (-> & -> & x' & Hx & Hfr & Hu).
    split; [done|]. split.
    { exists x'. split; [done|]. split; [done|]. split; [|done].
      eapply set_done_ok; eauto. }
    intros p i n. destruct (decide ((p, i) = (pid, ss_semid x))) as [[= -> ->]|Hne].
    + rewrite decide_True by done. destruct Hu as [(Hno & -> & _)|(adj & _ & Ha & Hput)].
      * unfold udelta. rewrite Hno. simpl. lia.
      * by rewrite (rows_put_at _ _ _ _ _ _ _ _ Hput), Ha.
    + rewrite decide_False by naive_solver. rewrite Z.sub_0_r.
      destruct Hu as [(_ & -> & _)|(adj & _ & _ & Hput)]; [done|].
      unfold undo_at. by rewrite (rows_put_other _ _ _ _ _ _ _ _ _ Hput Hne).
Qed.

(** Take 2 of the first with undo, then wait for 1 of the empty second. *)
Definition sops0 : list cng_sembuf := [Sembuf 0 (-2) CNG_SEM_UNDO; Sembuf 1 (-1) 0].

Lemma semop_atomic_witness :
  exists s', sem_try_op env0 0 set0 sops0 7 0 ipc1 = ((1, 1%nat), s') /\
  undo_at (i_undo s') 7 1 0 = 1 /\ sem_frame 0 set0 ipc1 s'.
Proof.
  assert (Hops : Forall op_ok sops0).
  { unfold op_ok. simpl. repeat (constructor; [simpl; lia|]). constructor. }
  pose proof (semop_atomic env0 0 set0 sops0 7 0 ipc1 set0_ok ipc1_rows Hops eq_refl) as H.
  eexists. split; [vm_compute; reflexivity|].
  assert (Ev : vector_stop (row_avail ipc1 7 1) (at0 (ss_val set0))
    (undo_at (i_undo ipc1) 7 1) [] sops0 = (1%nat, Some 1)) by (vm_compute; reflexivity).
  cbv zeta in H. cbn [ss_semid set0] in H. rewrite Ev in H.
  destruct (sem_try_op env0 0 set0 sops0 7 0 ipc1) as [[r b] s'] eqn:Es.
  vm_compute in Es. injection Es as <- <- <-. destruct H as (_ & (x' & Hf & -> & _) & Hd).
  split; [|exact Hf]. rewrite Hd. reflexivity.
Defined.

(** ** The registry as a whole *)

(** One turn that serves a semget and one that serves a semop on the new set. *)
Definition q_semget : cng_breq := BReq REQ_SEMGET 99 3 0 (CNG_IPC_CREAT + 438) 7 0 0 0 0 0 0 0 0 (-1).
Definition q_semop : cng_breq := BReq REQ_SEMOP 0 0 1 2 7 0 0 0 0 0 0 0 0 (-1).
Definition turn_of (q : cng_breq) (p : payload) : turn :=
  Turn (fun _ => env0) true [] (Some (4, q, p)) 5000 false false.

Definition run_turn (t : turn) (s : ipc) : ipc :=
  match ipc_turn t s with Some s' => s' | None => s end.
Definition s_get : ipc := run_turn (turn_of q_semget PNone) (ipc0 []).

Lemma q_semget_ok : turn_ok (turn_of q_semget PNone).
Proof. split; [simpl; lia|done]. Qed.
Lemma q_semop_ok : turn_ok (turn_of q_semop (PSops sops0)).
Proof.
  split; [simpl; lia|]. simpl. unfold op_ok.
  repeat (constructor; [simpl; lia|]). constructor.
Qed.

Lemma s_get_reachable : reachable [] s_get.
Proof.
  apply (ReachTurn [] (ipc0 []) (turn_of q_semget PNone)).
  - constructor.
  - apply q_semget_ok.
  - reflexivity.
  - vm_compute. reflexivity.
Qed.

(** C11: the registry's invariant holds in every state the daemon's loop
    reaches, whatever requests, deaths, cancellations and allocation failures
    it meets: ids and keys name one object, semaphore values stay within
    SEMVMX and undo rows within SEMAEM and match a live set, queue counters
    account for the messages, every parked operation's object exists and its
    vector fits it, and the two table counters are the used slots. *)
Theorem registry_invariant (mem : list bool) (s : ipc) (H : reachable mem s) : ipc_wf s.
Proof. by apply reachable_ok in H as [? _]. Qed.

Lemma registry_invariant_witness :
  i_nwait s_get = Z.of_nat (count_used (i_wait s_get)) /\ i_next_semid s_get = 2.
Proof.
  split; [exact (wf_nwait _ (registry_invariant [] s_get s_get_reachable))|].
  vm_compute. reflexivity.
Defined.

(** C12: a turn always completes, the rescan's loops within the fuel the model
    gives them (one visit per parked operation and one pass per grant), and
    leaves no parked operation that could proceed: no wake-up is lost. *)
Theorem turn_settles (mem : list bool) (s : ipc) (t : turn) (H : reachable mem s)
    (Ht : turn_ok t) (Hseq : i_wait_seq s < 2 ^ 64 - 1) :
  exists s', ipc_turn t s = Some s' /\ reachable mem s' /\
  forall k w, has_slot (i_wait s') k w -> blocked s' w.
Proof.
  destruct (reachable_ok mem s H) as [Hwf Hq].
  destruct (turn_spec t s Hwf Hq Ht Hseq) as (s' & Es & _ & Hq').
  exists s'. split; [done|]. split; [by eapply ReachTurn|done].
Qed.

Lemma turn_settles_witness :
  exists s', ipc_turn (turn_of q_semop (PSops sops0)) s_get = Some s' /\ reachable [] s'
  /\ i_nwait s' = 1.
Proof.
  destruct (turn_settles [] s_get (turn_of q_semop (PSops sops0)) s_get_reachable
              q_semop_ok) as (s' & Es & Hr & _).
  { vm_compute. reflexivity. }
  exists s'. split; [exact Es|]. split; [exact Hr|].
  assert (Hn : option_map i_nwait (ipc_turn (turn_of q_semop (PSops sops0)) s_get)
               = Some 1) by (vm_compute; reflexivity).
  rewrite Es in Hn. by injection Hn.
Defined.

(** ** Message queues *)

(** Msgrcv takes the oldest message that qualifies for a type selector of
    0 or more, and the oldest of the lowest type for a negative one; it takes
    none exactly when no queued message qualifies. *)
Theorem msg_pick_selects (x : msg_q) (msgtyp msgflg : Z) (best : option (nat * gmsg)) :
  msg_pick x msgtyp msgflg = best <-> picked (q_msgs x) msgtyp msgflg best.
Proof.
  pose proof (msg_pick_picked x msgtyp msgflg) as H. split; [by intros <-|].
  intros Hb. by eapply picked_unique.
Qed.

Definition queue0 : msg_q := MsgQ 1 77 438 0 0 0 0 0 0 0 0 0 CNG_MSGMNB 0 0 7 7 [].
Definition ipc2 : ipc := Ipc true [] [] [Some queue0] [] 1 2 1 0 0 [] [].
Definition q_snd : cng_breq := BReq REQ_MSGSND 0 3 1 0 7 0 0 0 0 0 0 0 5 (-1).
Definition q_rcv : cng_breq := BReq REQ_MSGRCV 0 100 1 0 8 0 0 0 0 0 0 0 5 (-1).

(** What msgsnd queues, msgrcv hands back: a message sent to a queue with
    room for it and no message of its type, then received by that type with a
    large enough buffer, arrives whole, with its length and type, and leaves
    the queue's messages and counters as they were. *)
Theorem msg_roundtrip (E : env) (cfd cfd' : Z) (q q' : cng_breq) (p : payload)
    (s : ipc) (k : nat) (x : msg_q) (data : list Z)
    (Hfind : msg_find s (rq_id q) = Some (k, x)) (Hx : queue_ok x)
    (Hsz : 0 <= rq_size q <= CNG_MSGMAX) (Htyp : 0 < rq_mtype q)
    (Hdata : read_data p (Z.to_nat (rq_size q)) = Some data)
    (Hmem : i_mem s = []) (Hw : msg_access x q 2 = true)
    (Hfit : msg_fits x (rq_size q) = true)
    (Hid : rq_id q' = rq_id q) (Htyp' : rq_mtype q' = rq_mtype q) (Hflg : rq_arg q' = 0)
    (Hroom : rq_size q <= rq_size q') (Hr : msg_access x q' 4 = true)
    (Hnone : msg_pick x (rq_mtype q) 0 = None) (Hsend : e_send_ok E cfd' = true) :
  let '(r1, s1) := serve_msgsnd E cfd q p s in
  let '(r2, s2) := serve_msgrcv E cfd' q' s1 in
  r1 = reply 0 /\ r2 = SReplied /\
  i_out s2 = i_out s ++ [EReply cfd' (resp_msg (rq_size q) (rq_mtype q)) data] /\
  exists x2, i_msq s2 = <[k := Some x2]> (i_msq s) /\
    q_msgs x2 = q_msgs x /\ q_cbytes x2 = q_cbytes x /\ q_qnum x2 = q_qnum x.
Proof.
  destruct (msg_find_Some _ _ _ _ Hfind) as [Hk Hxid].
  assert (Hlen : length data = Z.to_nat (rq_size q)).
  { unfold read_data in Hdata. destruct p; case_if_in Hdata; bprop; by simplify_eq. }
  unfold serve_msgsnd, arena_alloc. rewrite Hmem.
  rewrite (proj2 (Z.ltb_ge _ _)), (proj2 (Z.leb_gt _ _)) by lia. cbn [orb negb].
  rewrite Hdata, Hfind, Hw, Hfit. cbn [negb].
  set (m := GMsg (rq_mtype q) (rq_size q) data). set (x1 := msg_enqueue E x m (rq_pid q)).
  assert (Hx1 : queue_ok x1).
  { apply queue_ok_enqueue; [done|]. split; [done|]. split; simpl; lia. }
  assert (Hf1 : msg_find (put_msq k x1 s) (rq_id q) = Some (k, x1)).
  { apply msg_find_replace with (x := x); auto. }
  unfold serve_msgrcv. rewrite Hid, Hf1, Htyp', Hflg.
  change (msg_access x1 q' 4) with (msg_access x q' 4). rewrite Hr. cbn [negb].
  assert (Hpick : msg_pick x1 (rq_mtype q) 0 = Some (length (q_msgs x), m)).
  { apply (picked_unique (q_msgs x1) (rq_mtype q) 0); [apply msg_pick_picked|].
    pose proof (msg_pick_picked x (rq_mtype q) 0) as Hp. rewrite Hnone in Hp.
    apply picked_snoc_first; [done|]. unfold msg_matches. simpl.
    rewrite (proj2 (Z.eqb_neq _ _)), (proj2 (Z.ltb_lt _ _)) by lia. apply Z.eqb_refl. }
  rewrite Hpick. cbn [m_size m]. rewrite (proj2 (Z.ltb_ge _ _)) by lia. cbn [andb].
  unfold broker_send, modify. rewrite Hsend. split; [done|]. split; [done|].
  assert (Hmin : min_size m (rq_size q') = rq_size q).
  { unfold min_size. simpl. by rewrite (proj2 (Z.leb_le _ _)) by lia. }
  rewrite Hmin. split; [simpl; by rewrite take_ge by lia|].
  assert (Hdel : q_msgs (msg_unlink E x1 (length (q_msgs x)) m (rq_pid q')) = q_msgs x).
  { simpl. rewrite delete_take_drop, drop_ge by (rewrite length_app; simpl; lia).
    by rewrite take_app_length, app_nil_r. }
  eexists. split; [simpl; by rewrite list_insert_insert_eq|].
  split; [exact Hdel|].
  pose proof (queue_ok_unlink E x1 (length (q_msgs x)) m (rq_pid q') Hx1) as Hok.
  destruct Hok as (_ & Hc & Hn); [simpl; by rewrite lookup_app_r, Nat.sub_diag by lia|].
  destruct Hx as (_ & Hc0 & Hn0). rewrite Hc, Hn, Hdel. auto.
Qed.

Lemma msg_roundtrip_witness :
  let '(r1, s1) := serve_msgsnd env0 4 q_snd (PData [104; 105; 33]) ipc2 in
  let '(r2, s2) := serve_msgrcv env0 5 q_rcv s1 in
  r2 = SReplied /\ i_out s2 = [EReply 5 (resp_msg 3 5) [104; 105; 33]].
Proof.
  pose proof (msg_roundtrip env0 4 5 q_snd q_rcv (PData [104; 105; 33]) ipc2 0 queue0
    [104; 105; 33] eq_refl) as H.
  destruct (serve_msgsnd env0 4 q_snd _ ipc2) as [r1 s1].
  destruct (serve_msgrcv env0 5 q_rcv s1) as [r2 s2].
  destruct H as (_ & H2 & H3 & _); try (vm_compute; reflexivity);
    try (vm_compute; split; discriminate).
  - repeat split. constructor.
  - vm_compute. discriminate.
  - split; assumption.
Defined.

(** ** Ids, removal, death and deadlines *)

(** Semget makes a new set whenever a slot is free: the id search never
    fails there, the id is positive and was in use by no set, and the set it
    names holds the asked number of zero semaphores under the caller's
    identity. *)
Theorem semget_creates (E : env) (q : cng_breq) (s : ipc) (Hwf : ipc_wf s)
    (Htab : i_tab s = true) (Hmem : i_mem s = [])
    (Hslot : (count_used (i_sem s) < SEM_SET_MAX)%nat)
    (Hn : 0 < rq_size q <= CNG_SEMMSL) (Hpriv : rq_key q = 0) :
  let '(id, s') := sem_do_get E q s in
  0 < id /\ sem_find s id = None /\
  exists k x, sem_find s' id = Some (k, x) /\ ss_nsems x = Z.to_nat (rq_size q) /\
    ss_val x = replicate (Z.to_nat (rq_size q)) 0 /\
    ss_mode x = Z.land (rq_arg q) 511 /\
    ss_uid x = rq_uid q /\ ss_cuid x = rq_uid q /\ ss_cpid x = rq_pid q.
Proof.
  pose proof (wf_tabs s Hwf) as Ht. rewrite Htab in Ht. destruct Ht as (Hl & _).
  destruct (proj1 (find_free_count (i_sem s))) as [slot Hfree]; [lia|].
  pose proof (wf_sem_get E q s Hwf ltac:(lia)) as Hwf'. unfold sem_do_get in *.
  rewrite Hpriv in *. cbn [Z.eqb negb] in *.
  rewrite (proj2 (Z.eqb_neq _ _)), (proj2 (Z.ltb_ge _ _)) in * by lia. cbn [orb] in *.
  rewrite Hfree in *. pose proof (sem_alloc_id_ok s Hwf) as Ha.
  destruct (sem_alloc_id s) as [id s1]. destruct Ha as (Hs1 & _ & Hid & Hfresh).
  assert (Hmem1 : i_mem s1 = []) by (rewrite Hs1; done).
  unfold arena_alloc in *. rewrite Hmem1 in *. cbn iota in Hwf' |- *.
  rewrite Hmem1 in *. destruct Hid as [Hpos Hmax].
  rewrite (proj2 (Z.ltb_ge id 0)) in * by lia. cbn [negb andb snd] in *.
  split; [done|]. split.
  - destruct (sem_find s id) as [[k x]|] eqn:Ef; [|done].
    apply sem_find_Some in Ef as [Hk <-]. by destruct (Hfresh k x Hk).
  - apply find_free_Some in Hfree. apply lookup_lt_Some in Hfree as Hlt.
    match goal with |- context [put_sem _ ?x _] => exists slot, x;
      split; [|by repeat split]; change id with (ss_semid x) at 2 end.
    apply sem_find_slot; [exact Hwf'|]. unfold has_slot. simpl.
    rewrite Hs1. simpl. by rewrite list_lookup_insert_eq.
Qed.

Lemma semget_creates_witness :
  exists s', sem_do_get env0 (BReq REQ_SEMGET 0 2 0 438 9 1000 1000 0 0 0 0 0 0 (-1)) s_get
             = (2, s') /\ (exists k x, sem_find s' 2 = Some (k, x) /\ ss_val x = [0; 0]).
Proof.
  set (q := BReq REQ_SEMGET 0 2 0 438 9 1000 1000 0 0 0 0 0 0 (-1)).
  destruct (sem_do_get env0 q s_get) as [id s'] eqn:Eg.
  pose proof (semget_creates env0 q s_get (proj1 (reachable_ok [] _ s_get_reachable))) as H.
  rewrite Eg in H. destruct H as (_ & _ & k & x & Hf & _ & Hv & _);
    try (vm_compute; reflexivity).
  - apply Nat.ltb_lt. vm_compute. reflexivity.
  - vm_compute. split; [reflexivity|discriminate].
  - assert (Hid : (sem_do_get env0 q s_get).1 = 2) by (vm_compute; reflexivity).
    rewrite Eg in Hid. simpl in Hid. subst id. exists s'. split; [reflexivity|].
    exists k, x. split; [exact Hf|exact Hv].
Defined.

(** IPC_RMID by a set's owner takes the whole set: the id names nothing,
    no undo row refers to it, nobody is parked on it, everybody who was parked
    on it has been answered EIDRM (and their connection closed), and every
    other waiter is where it was. *)
Theorem semctl_rmid (E : env) (q : cng_breq) (r : cng_bresp) (s : ipc) (k : nat)
    (x : sem_set) (Hwf : ipc_wf s) (Hfind : sem_find s (rq_id q) = Some (k, x))
    (Harg : rq_arg q = CNG_IPC_RMID)
    (Hown : rq_uid q = 0) :
  let '((z, r'), s') := sem_do_ctl E q r s in
  z = 0 /\ sem_find s' (rq_id q) = None /\
  on_slots (fun u => u_semid u <> rq_id q) (i_undo s') /\
  i_wait s' = kill (on_object (rq_id q) true) (i_wait s) /\
  i_out s' = i_out s ++
    concat (map (walked (on_object (rq_id q) true)
                   (replies E (resp_ret (- EIDRM) resp0) [])) (i_wait s)).
Proof.
  pose proof (sem_find_Some _ _ _ _ Hfind) as [Hk Hid].
  unfold sem_do_ctl. rewrite Harg. cbn [Z.eqb andb orb]. rewrite Hfind.
  destruct (wf_reclaim_set E s x Hwf) as [Hwf1 Hkeep].
  pose proof (reclaim_set_rest E x s) as (_ & _ & Hw1 & _ & _ & _ & _ & Ho1).
  destruct (sem_reclaim_set E x s) as [[] s1]. simpl in Hwf1, Hkeep, Hw1, Ho1.
  destruct (Hkeep k x Hk) as (x1 & Hk1 & (Hid1 & _)). pose proof Hk1 as Hk1'.
  unfold has_slot in Hk1'. rewrite Hk1'. unfold ipc_owner. rewrite Hown.
  cbn [Z.eqb negb orb]. change (0 =? CNG_IPC_STAT) with false.
  change (0 =? BROKER_SEMNSEMS) with false. change (0 =? CNG_IPC_SET) with false.
  cbn iota. rewrite Hid1, Hid.
  destruct (waiters_eidrm_spec E (rq_id q) true s1 Hwf1)
    as (Hwf2 & Hw2 & (Ht2 & Hs2 & Hu2 & _) & Ho2).
  destruct (waiters_eidrm E (rq_id q) true s1) as [[] s2].
  simpl in Hwf2, Hw2, Ht2, Hs2, Hu2, Ho2. unfold sem_free_set, modify.
  rewrite free_rows_kill, Hid1, Hid. cbn beta iota zeta. clear Hfind.
  split; [done|]. split; [|split; [|split]].
  - destruct (sem_find _ _) as [[j y]|] eqn:Ef; [|done].
    apply sem_find_Some in Ef as [Hj Hy]. simpl in Hj.
    apply has_slot_write in Hj as [[_ ?]|[Hne Hj]]; [done|]. rewrite Hs2 in Hj.
    destruct Hne. apply (wf_semids s1 Hwf1 j k y x1 Hj Hk1). unfold same_semid. congruence.
  - intros j u. simpl. intros [_ Hu]%has_slot_kill. by bprop.
  - simpl. by rewrite Hw2, Hw1.
  - simpl. by rewrite Ho2, Ho1, Hw1.
Qed.

Lemma semctl_rmid_witness :
  exists r' s', sem_do_ctl env0 (BReq REQ_SEMCTL 0 0 1 CNG_IPC_RMID 9 0 0 0 0 0 0 0 0 (-1))
    resp0 s_get = ((0, r'), s') /\ sem_find s' 1 = None.
Proof.
  set (q := BReq REQ_SEMCTL 0 0 1 CNG_IPC_RMID 9 0 0 0 0 0 0 0 0 (-1)).
  destruct (sem_find s_get 1) as [[k x]|] eqn:Ef; [|vm_compute in Ef; discriminate].
  pose proof (semctl_rmid env0 q resp0 s_get k x
    (proj1 (reachable_ok [] _ s_get_reachable)) Ef eq_refl eq_refl) as H.
  destruct (sem_do_ctl env0 q resp0 s_get) as [[z r'] s']. destruct H as (-> & Hf & _).
  exists r', s'. split; [reflexivity|exact Hf].
Defined.

(** When a process is found dead, what it owed a set is paid: each
    semaphore moves by its adjustment, held within 0 and SEMVMX, the row is
    gone, and the set is otherwise the one it was. *)
Theorem undo_repaid (E : env) (s : ipc) (i : nat) (u : sem_undo) (Hwf : ipc_wf s)
    (Hi : has_slot (i_undo s) i u) :
  exists k x x', has_slot (i_sem s) k x /\ ss_semid x = u_semid u /\ same_set x x' /\
  (forall n, at0 (ss_val x') n = clamp (at0 (ss_val x) n + at0 (u_adj u) n)) /\
  let s' := (sem_undo_apply E i u s).2 in
  i_sem s' = <[k := Some x']> (i_sem s) /\ i_undo s' = <[i := None]> (i_undo s) /\
  i_nundo s' = i_nundo s - 1 /\ keeps_rest s s'.
Proof.
  destruct (sem_undo_apply_spec E s i u Hwf Hi)
    as (k & x & x' & Hk & Hid & Hsame & _ & Hat & ->).
  exists k, x, x'. by repeat split; try apply Hsame.
Qed.

Definition q_up : cng_breq := BReq REQ_SEMOP 0 0 1 1 7 0 0 0 0 0 0 0 0 (-1).
Definition sops_up : list cng_sembuf := [Sembuf 2 4 CNG_SEM_UNDO].
Definition s_up : ipc := run_turn (turn_of q_up (PSops sops_up)) s_get.

Lemma s_up_reachable : reachable [] s_up.
Proof.
  apply (ReachTurn [] s_get (turn_of q_up (PSops sops_up))).
  - apply s_get_reachable.
  - split; [simpl; lia|]. simpl. unfold op_ok. repeat (constructor; [simpl; lia|]).
    constructor.
  - vm_compute. reflexivity.
  - vm_compute. reflexivity.
Qed.

Lemma undo_repaid_witness :
  exists k x x', has_slot (i_sem s_up) k x /\
  at0 (ss_val x') 2 = clamp (at0 (ss_val x) 2 + (-4)) /\
  i_sem (sem_undo_apply env0 0 (SemUndo 7 70 1 [0; 0; -4]) s_up).2
  = <[k := Some x']> (i_sem s_up).
Proof.
  destruct (undo_repaid env0 s_up 0 (SemUndo 7 70 1 [0; 0; -4])
              (proj1 (reachable_ok [] _ s_up_reachable)))
    as (k & x & x' & Hk & _ & _ & Hat & Hs & _).
  - vm_compute. reflexivity.
  - exists k, x, x'. split; [exact Hk|]. split; [apply (Hat 2%nat)|exact Hs].
Defined.

(** Expiry answers EAGAIN to exactly the parked operations whose deadline
    has come and frees their slots; the others stay, and no set, queue or undo
    row is touched. *)
Theorem expire_exact (E : env) (now : Z) (s : ipc) (Hwf : ipc_wf s) :
  let s' := (cng_ipc_expire E now s).2 in
  (forall k w, has_slot (i_wait s') k w <->
     has_slot (i_wait s) k w /\ (w_deadline_ms w < 0 \/ now < w_deadline_ms w)) /\
  i_out s' = i_out s ++
    concat (map (walked (expired now) (replies E (resp_ret (- EAGAIN) resp0) []))
              (i_wait s)) /\
  keeps_tables s s'.
Proof.
  destruct (expire_spec E now s Hwf) as (_ & Hw & Hk & Ho).
  split; [|by split]. intros k w. rewrite Hw, has_slot_kill. unfold expired.
  rewrite negb_false_iff, orb_true_iff, !Z.ltb_lt. done.
Qed.

Definition q_wait : cng_breq := BReq REQ_SEMOP 0 0 1 1 7 0 0 0 0 0 0 0 0 2000000.
Definition s_wait : ipc := run_turn (turn_of q_wait (PSops [Sembuf 1 (-1) 0])) s_get.

Lemma s_wait_reachable : reachable [] s_wait.
Proof.
  apply (ReachTurn [] s_get (turn_of q_wait (PSops [Sembuf 1 (-1) 0]))).
  - apply s_get_reachable.
  - split; [simpl; lia|]. simpl. unfold op_ok. repeat (constructor; [simpl; lia|]).
    constructor.
  - vm_compute. reflexivity.
  - vm_compute. reflexivity.
Qed.

Lemma expire_exact_witness :
  i_nwait s_wait = 1 /\
  i_out (cng_ipc_expire env0 5002 s_wait).2
  = i_out s_wait ++ [EReply 4 (resp_ret (- EAGAIN) resp0) []; EClose 4].
Proof.
  split; [vm_compute; reflexivity|].
  destruct (expire_exact env0 5002 s_wait (proj1 (reachable_ok [] _ s_wait_reachable)))
    as (_ & Ho & _). rewrite Ho. vm_compute. reflexivity.
Defined.

(** A timed wait never ends early and at most a millisecond late: the
    deadline is the timeout rounded up, saturated timeouts included, and the
    arithmetic stays within 64 bits. *)
Theorem park_deadline_rounds_up (E : env) (t : Z) (Hclock : 0 <= e_mono_ms E <= 2 ^ 62)
    (Ht : 0 <= t <= LONG_MAX) :
  let t' := Z.min t (LONG_MAX - 1000000) in
  t' <= (park_deadline E t - e_mono_ms E) * 1000000 < t' + 1000000 /\
  0 <= park_deadline E t < 2 ^ 63.
Proof.
  unfold park_deadline. rewrite (proj2 (Z.leb_le _ _)) by lia.
  set (t' := if LONG_MAX - 1000000 <? t then LONG_MAX - 1000000 else t).
  assert (Et : t' = Z.min t (LONG_MAX - 1000000)).
  { unfold t'. case_if; bprop; lia. }
  rewrite Et. clear t' Et. cbv zeta. set (t' := Z.min t (LONG_MAX - 1000000)).
  assert (Hb : 0 <= t' <= LONG_MAX - 1000000) by (unfold t', LONG_MAX in *; lia).
  pose proof (Z.div_mod (t' + 999999) 1000000 ltac:(lia)) as Hd.
  pose proof (Z.mod_pos_bound (t' + 999999) 1000000 ltac:(lia)) as Hm.
  unfold LONG_MAX in Hb. rewrite wraps_small; [lia|lia|].
  change (2 ^ (64 - 1)) with (2 ^ 63). lia.
Qed.

Lemma park_deadline_rounds_up_witness :
  park_deadline env0 2000001 = 5003 /\ 2000001 <= (park_deadline env0 2000001 - 5000) * 1000000.
Proof.
  split; [vm_compute; reflexivity|].
  apply (park_deadline_rounds_up env0 2000001).
  - vm_compute. split; discriminate.
  - vm_compute. split; discriminate.
Defined.

(** While a queue holds fewer than 2^50 messages its counters are exact,
    so a send that finds room leaves the sum of the queued sizes and the number
    of messages within msg_qbytes. *)
Theorem queue_accounts (s : ipc) (k : nat) (x : msg_q) (size : Z) (Hwf : ipc_wf s)
    (Hk : has_slot (i_msq s) k x) (Hlen : Z.of_nat (length (q_msgs x)) < 2 ^ 50)
    (Hsz : 0 <= size <= CNG_MSGMAX) :
  q_cbytes x = sizes (q_msgs x) /\ q_qnum x = Z.of_nat (length (q_msgs x)) /\
  (msg_fits x size = true <->
   sizes (q_msgs x) + size <= q_qbytes x /\
   Z.of_nat (length (q_msgs x)) + 1 <= q_qbytes x).
Proof.
  destruct (wf_queues s Hwf k x Hk) as [(Hf & Hc & Hn) _].
  pose proof (sizes_bound _ Hf) as Hb. unfold CNG_MSGMAX in *.
  rewrite wrapu_small in Hc, Hn by lia. split; [done|]. split; [done|].
  unfold msg_fits. rewrite Hc, Hn, !wrapu_small by lia. bprop. done.
Qed.

Definition q_msgget : cng_breq := BReq REQ_MSGGET 0 0 0 438 7 0 0 0 0 0 0 0 0 (-1).
Definition s_msg : ipc :=
  run_turn (turn_of q_snd (PData [104; 105; 33]))
    (run_turn (turn_of q_msgget PNone) (ipc0 [])).

Lemma s_msg_reachable : reachable [] s_msg.
Proof.
  apply (ReachTurn [] (run_turn (turn_of q_msgget PNone) (ipc0 []))
           (turn_of q_snd (PData [104; 105; 33]))).
  - apply (ReachTurn [] (ipc0 []) (turn_of q_msgget PNone)).
    + constructor.
    + split; [simpl; lia|done].
    + reflexivity.
    + vm_compute. reflexivity.
  - split; [simpl; lia|done].
  - vm_compute. reflexivity.
  - vm_compute. reflexivity.
Qed.

Lemma queue_accounts_witness :
  exists x, has_slot (i_msq s_msg) 0 x /\ q_cbytes x = 3 /\ sizes (q_msgs x) = 3.
Proof.
  destruct (i_msq s_msg !! 0%nat) as [[x|]|] eqn:Ex;
    [|vm_compute in Ex; discriminate|vm_compute in Ex; discriminate].
  pose proof (queue_accounts s_msg 0 x 0 (proj1 (reachable_ok [] _ s_msg_reachable)) Ex) as H.
  assert (Hx : q_cbytes x = 3 /\ length (q_msgs x) = 1%nat).
  { vm_compute in Ex. injection Ex as <-. split; reflexivity. }
  destruct Hx as [Hc Hl]. exists x. split; [exact Ex|]. split; [exact Hc|].
  destruct H as [H _]; [rewrite Hl; reflexivity|vm_compute; split; discriminate|].
  rewrite <-H. exact Hc.
Defined.
