(* ===== verification/Rewrite.v ===== *)
(** * svc rewriting and software single-step (src/src/monitor/rewrite.c,
    src/src/monitor/ptstep.c)

    Addresses and words are [Z] with the 64- and 32-bit wrap-around written
    out; [wmem] is the memory as 32-bit words by address.  The trampoline
    template (src/src/monitor/tramp.S, an assembler source) is the parameter
    [tramp]: its words, the offsets of its labels, and the dispatcher's
    address. *)

From stdpp Require Import base list numbers.
From Stdlib Require Import ZArith Lia.
From S2P Require Import Prelude.

Open Scope Z_scope.

(** Addition on [unsigned long]. *)
Definition uadd (x y : Z) : Z := u64 (x + y).

Definition wmem := Z -> Z.
Definition upd (m : wmem) (a v : Z) : wmem := fun b => if b =? a then v else m b.

Definition SVC0_INSN := 0xD4000001.
Definition B_OPCODE := 0x14000000.
Definition BRANCH_REACH := 2 ^ 27.
Definition MOVZ_X8_MASK := 0x7FE0001F.
Definition MOVZ_X8 := 0x52800008.
Definition NR_RT_SIGRETURN := 139.
Definition NR_MUNMAP := 215.
Definition NR_EXIT := 93.
Definition X8_LOOKBACK : nat := 8.

(** Encode [b target] at [at_]; 0 if out of reach. *)
Definition b_insn (at_ target : Z) : Z :=
  let delta := s64 target - s64 at_ in
  if (delta <? - BRANCH_REACH) || (BRANCH_REACH <=? delta)
     || negb (Z.land delta 3 =? 0)
  then 0
  else Z.lor B_OPCODE (u32 (Z.land (Z.shiftr (u64 delta) 2) 0x03FFFFFF)).

(** [cng_code_ranges]' result: file offsets [lo, hi). *)
Abbreviation code_ranges := (list (Z * Z)).

(** ** The trampoline *)

Record tramp := Tramp {
  t_words : list Z;    (* cng_svc_tramp_tpl .. cng_svc_tramp_tpl_end *)
  t_disp : Z;          (* cng_svc_tramp_disp - cng_svc_tramp_tpl *)
  t_ret : Z;           (* cng_svc_tramp_ret - cng_svc_tramp_tpl *)
  t_back : Z;          (* cng_svc_tramp_back - cng_svc_tramp_tpl *)
  t_dispatch : Z }.    (* &cng_tramp_dispatch *)

Section Tramp.
Context (T : tramp).

Definition cng_tramp_size : Z := 4 * Z.of_nat (length (t_words T)).

Fixpoint write_words (m : wmem) (a : Z) (ws : list Z) : wmem :=
  match ws with
  | [] => m
  | w :: ws' => write_words (upd m a w) (uadd a 4) ws'
  end.

(** An [unsigned long] store, little-endian. *)
Definition write64 (m : wmem) (a v : Z) : wmem :=
  upd (upd m a (u32 v)) (uadd a 4) (u32 (Z.shiftr v 32)).

(** The slot, the memory and the new [*used]. *)
Definition emit (m : wmem) (pool cap used ret_site : Z) : option (Z * wmem * Z) :=
  let tsz := cng_tramp_size in
  if cap <? uadd used tsz then None
  else
    let slot := uadd pool used in
    let back := b_insn (uadd slot (t_back T)) ret_site in
    if back =? 0 then None
    else
      let m := write_words m slot (t_words T) in
      let m := write64 m (uadd slot (t_disp T)) (t_dispatch T) in
      let m := write64 m (uadd slot (t_ret T)) ret_site in
      let m := upd m (uadd slot (t_back T)) back in
      Some (slot, m, uadd used tsz).

(** ** The scan *)

Definition writes_x8 (w : Z) : bool :=
  if negb (Z.land w 0x1F =? 8) then false
  else
    let g := Z.land w 0x7F800000 in
    if (g =? 0x52800000) || (g =? 0x72800000) then true
    else if (g =? 0x11000000) || (g =? 0x51000000) then true
    else
      let g := Z.land w 0x7FC00000 in
      if (g =? 0x0A000000) || (g =? 0x2A000000) || (g =? 0x4A000000) then true
      else
        let g := Z.land w 0x3B000000 in
        (g =? 0x39000000) || (g =? 0x18000000).

(** [mov x8, #nr] or [mov w8, #nr]. *)
Definition movz_nr (w nr : Z) : bool :=
  (Z.land w MOVZ_X8_MASK =? MOVZ_X8) && (Z.land (Z.shiftr w 5) 0xFFFF =? nr).

Definition svc_nr (m : wmem) (a floor nr : Z) : bool :=
  if (a <? uadd floor 4) || negb (m a =? SVC0_INSN) then false
  else movz_nr (m (a - 4)) nr.

Definition stack_teardown (m : wmem) (a floor hi : Z) : bool :=
  if svc_nr m a floor NR_MUNMAP then
    existsb (fun j => (uadd (uadd a (4 * j)) 4 <=? hi)
                      && svc_nr m (uadd a (4 * j)) floor NR_EXIT) [2; 3]
  else if svc_nr m a floor NR_EXIT then
    existsb (fun j => (uadd (uadd floor (4 * j)) 4 <=? a)
                      && svc_nr m (a - 4 * j) floor NR_MUNMAP) [2; 3]
  else false.

(** The look-back of the syscall-context filter: [n] more words from the
    [k]-th before [a]. *)
Fixpoint x8_seen (m : wmem) (a floor : Z) (n : nat) (k : Z) : bool :=
  match n with
  | O => false
  | S n' =>
      if a <? uadd floor (4 * k) then false
      else if writes_x8 (m (a - 4 * k)) then true
      else x8_seen m a floor n' (k + 1)
  end.

Record scan_st := ScanSt { sc_mem : wmem; sc_used : Z; sc_count : Z }.

(** The loop from [a]; [None] is fuel running out. *)
Fixpoint scan_loop (fuel : nat) (hi floor : Z) (verify : bool) (pool cap : Z)
    (a : Z) (st : scan_st) : option scan_st :=
  if hi <? uadd a 4 then Some st
  else match fuel with
  | O => None
  | S fuel =>
      let m := sc_mem st in
      let next := scan_loop fuel hi floor verify pool cap (uadd a 4) in
      if negb (m a =? SVC0_INSN) then next st
      else if (uadd floor 4 <=? a) && movz_nr (m (a - 4)) NR_RT_SIGRETURN then next st
      else if stack_teardown m a floor hi then next st
      else if verify && negb (x8_seen m a floor X8_LOOKBACK 1) then next st
      else
        let br := b_insn a (uadd pool (sc_used st)) in
        if br =? 0 then next st
        else if cap <? uadd (sc_used st) cng_tramp_size then Some st
        else match emit m pool cap (sc_used st) (uadd a 4) with
        | None => next st
        | Some (_, m', used') =>
            next (ScanSt (upd m' a br) used' (sc_count st + 1))
        end
  end.

(** [(lo + 3) & ~3UL]. *)
Definition align_up4 (lo : Z) : Z := Z.land (uadd lo 3) (2 ^ 64 - 4).

Definition scan (lo hi floor : Z) (verify : bool) (pool cap : Z) (st : scan_st)
    : option scan_st :=
  scan_loop (S (Z.to_nat (hi - lo))) hi floor verify pool cap (align_up4 lo) st.

Fixpoint rewrite_ranges (lo hi foff : Z) (cr : code_ranges) (pool cap : Z)
    (st : scan_st) : option scan_st :=
  match cr with
  | [] => Some st
  | (rlo, rhi) :: cr' =>
      let clo := if rlo <? foff then foff else rlo in
      let fend := uadd foff (hi - lo) in
      let chi := if fend <? rhi then fend else rhi in
      if chi <=? clo then rewrite_ranges lo hi foff cr' pool cap st
      else
        st ← scan (uadd lo (clo - foff)) (uadd lo (chi - foff)) lo false pool cap st;
        rewrite_ranges lo hi foff cr' pool cap st
  end.

Definition cng_rewrite_seg (g_rewrite : bool) (lo hi foff : Z) (cr : code_ranges)
    (pool cap : Z) (st : scan_st) : option scan_st :=
  if negb g_rewrite || (hi <=? lo) then Some st
  else match cr with
  | [] => scan lo hi lo true pool cap st
  | _ => rewrite_ranges lo hi foff cr pool cap st
  end.
End Tramp.

(** ** Section headers *)

Definition le_at (f : list Z) (off n : nat) : Z :=
  foldr (fun b z => b + 256 * z) 0 (take n (drop off f)).

(** [pread_all] on a file's bytes: all or nothing. *)
Definition pread_all (f : list Z) (n off : Z) : option (list Z) :=
  if (0 <=? off) && (off + n <=? Z.of_nat (length f))
  then Some (take (Z.to_nat n) (drop (Z.to_nat off) f)) else None.

Record shdr := Shdr { sh_type : Z; sh_flags : Z; sh_offset : Z; sh_size : Z }.

Definition shdr_at (buf : list Z) (j : nat) : shdr :=
  let b := (64 * j)%nat in
  Shdr (le_at buf (b + 4) 4) (le_at buf (b + 8) 8) (le_at buf (b + 24) 8)
    (le_at buf (b + 32) 8).

Definition SHT_NOBITS := 8.
Definition SHF_ALLOC := 2.
Definition SHF_EXECINSTR := 4.
Definition MAX_SHDR := 1024.
Definition SHDR_CHUNK : nat := 64.
Definition CNG_CODE_RANGES_MAX : nat := 16.

Definition is_code (s : shdr) : bool :=
  negb ((sh_type s =? SHT_NOBITS) || (sh_size s =? 0))
  && (Z.land (sh_flags s) (SHF_ALLOC + SHF_EXECINSTR) =? SHF_ALLOC + SHF_EXECINSTR).

(** One header's turn: the ranges, latest first; [None] is [give_up]. *)
Definition add_range (s : shdr) (rs : code_ranges) : option code_ranges :=
  if negb (is_code s) then Some rs
  else
    let lo := sh_offset s in
    let hi := uadd lo (sh_size s) in
    if hi <? lo then None
    else match rs with
    | (plo, phi) :: rs' =>
        if phi =? lo then Some ((plo, hi) :: rs')
        else if (length rs =? CNG_CODE_RANGES_MAX)%nat then None
        else Some ((lo, hi) :: rs)
    | [] => Some [(lo, hi)]
    end.

Fixpoint add_ranges (ss : list shdr) (rs : code_ranges) : option code_ranges :=
  match ss with
  | [] => Some rs
  | s :: ss' => rs ← add_range s rs; add_ranges ss' rs
  end.

(** The headers a chunk at a time; [i] is the index of the next one. *)
Fixpoint read_chunks (fuel : nat) (f : list Z) (shoff : Z) (shnum i : nat)
    (rs : code_ranges) : option code_ranges :=
  match fuel with
  | O => None
  | S fuel =>
      if (shnum <=? i)%nat then Some rs
      else
        let k := Nat.min (shnum - i) SHDR_CHUNK in
        buf ← pread_all f (64 * Z.of_nat k) (uadd shoff (64 * Z.of_nat i));
        rs ← add_ranges (map (shdr_at buf) (seq 0 k)) rs;
        read_chunks fuel f shoff shnum (i + SHDR_CHUNK) rs
  end.

(** In file order; empty for "no code map". *)
Definition cng_code_ranges (f : option (list Z)) : code_ranges :=
  match f with
  | None => []
  | Some f =>
      match pread_all f 64 0 with
      | None => []
      | Some eh =>
          if negb (bool_decide (take 5 eh = [0x7f; 69; 76; 70; 2]))
             || negb (le_at eh 18 2 =? 183) then []
          else
            let shoff := le_at eh 40 8 in
            let shnum := le_at eh 60 2 in
            if (shoff =? 0) || (shnum =? 0) || (MAX_SHDR <? shnum)
               || negb (le_at eh 58 2 =? 64) then []
            else match read_chunks (S (Z.to_nat shnum)) f shoff (Z.to_nat shnum) 0 [] with
            | Some rs => rev rs
            | None => []
            end
      end
  end.

(** ** Single-step: where control goes next *)

Definition sext (v bits : Z) : Z :=
  let m := 2 ^ (bits - 1) in u64 (Z.lxor v m - m).

Definition cond_holds (cond pstate : Z) : bool :=
  let n := Z.testbit pstate 31 in let z := Z.testbit pstate 30 in
  let c := Z.testbit pstate 29 in let v := Z.testbit pstate 28 in
  let r := match Z.shiftr cond 1 with
           | 0 => z
           | 1 => c
           | 2 => n
           | 3 => v
           | 4 => c && negb z
           | 5 => Bool.eqb n v
           | 6 => negb z && Bool.eqb n v
           | _ => true
           end in
  if negb (Z.land cond 1 =? 0) && negb (cond =? 15) then negb r else r.

Record cng_uregs := Uregs { u_x : nat -> Z; u_sp : Z; u_pc : Z; u_pstate : Z }.

Definition reg (r : cng_uregs) (n : Z) : Z := if n =? 31 then 0 else u_x r (Z.to_nat n).

(** [copyin] is [cng_user_copyin] of one word; 0 is "cannot step". *)
Definition cng_pt_next_pc (copyin : Z -> option Z) (r : cng_uregs) : Z :=
  let pc := u_pc r in
  match copyin pc with
  | None => 0
  | Some insn =>
      if (Z.land insn 0xFC000000 =? 0x14000000) || (Z.land insn 0xFC000000 =? 0x94000000)
      then uadd pc (u64 (sext (Z.land insn 0x03FFFFFF) 26 * 4))
      else if Z.land insn 0xFF000000 =? 0x54000000 then
        if negb (cond_holds (Z.land insn 15) (u_pstate r)) then uadd pc 4
        else uadd pc (u64 (sext (Z.land (Z.shiftr insn 5) 0x7FFFF) 19 * 4))
      else if Z.land insn 0x7E000000 =? 0x34000000 then
        let v := reg r (Z.land insn 31) in
        let v := if Z.land insn 0x80000000 =? 0 then u32 v else v in
        let taken := if negb (Z.land insn 0x01000000 =? 0) then negb (v =? 0)
                     else v =? 0 in
        if negb taken then uadd pc 4
        else uadd pc (u64 (sext (Z.land (Z.shiftr insn 5) 0x7FFFF) 19 * 4))
      else if Z.land insn 0x7E000000 =? 0x36000000 then
        let bit := Z.lor (Z.land (Z.shiftr insn 26) 0x20) (Z.land (Z.shiftr insn 19) 0x1f) in
        let v := reg r (Z.land insn 31) in
        let set := Z.testbit v bit in
        let taken := if negb (Z.land insn 0x01000000 =? 0) then set else negb set in
        if negb taken then uadd pc 4
        else uadd pc (u64 (sext (Z.land (Z.shiftr insn 5) 0x3FFF) 14 * 4))
      else if (Z.land insn 0xFFFFFC1F =? 0xD61F0000) || (Z.land insn 0xFFFFFC1F =? 0xD63F0000)
              || (Z.land insn 0xFFFFFC1F =? 0xD65F0000)
      then reg r (Z.land (Z.shiftr insn 5) 31)
      else if (Z.land insn 0xFE000000 =? 0xD6000000)
              && negb (Z.land insn 0x001F0000 =? 0) then 0
      else uadd pc 4
  end.
