(* ===== verification/RewriteIsa.v ===== *)
(** * AArch64 branches: encoding, meaning, and what the code makes of them

    The branch instructions as the architecture defines them (Arm ARM C4.1,
    C6.2): an encoder and the program counter each leads to.  The encoder of
    rewrite.c ([b_insn]) and the decoder of ptstep.c ([cng_pt_next_pc]) are
    both measured against them. *)

From stdpp Require Import base list numbers.
From Stdlib Require Import ZArith Lia.
From S2P Require Import Prelude Rewrite.

Open Scope Z_scope.

(** ** Bit fields *)

(** The [n] bits of [w] from bit [k]. *)
Definition field (w k n : Z) : Z := w / 2 ^ k mod 2 ^ n.

Lemma land_low w n : 0 <= n -> Z.land w (Z.ones n) = w mod 2 ^ n.
Proof. intros. by apply Z.land_ones. Qed.

Lemma land_field w k n :
  0 <= k -> 0 <= n -> Z.land w (Z.shiftl (Z.ones n) k) = field w k n * 2 ^ k.
Proof.
  intros Hk Hn. unfold field. rewrite <-Z.shiftr_div_pow2, <-Z.land_ones by done.
  rewrite <-Z.shiftl_mul_pow2 by done. apply Z.bits_inj'. intros i Hi.
  rewrite Z.land_spec. destruct (Z.ltb_spec i k) as [Hlt|Hge].
  - rewrite !Z.shiftl_spec_low by done. by rewrite andb_false_r.
  - rewrite !Z.shiftl_spec by done. rewrite Z.land_spec, Z.shiftr_spec by lia.
    by replace (i - k + k) with i by lia.
Qed.

(** A mask inside a mask. *)
Lemma land_sub w a b : Z.land a b = b -> Z.land (Z.land w a) b = Z.land w b.
Proof. intros H. by rewrite <-Z.land_assoc, H. Qed.

(** ** Sign extension *)

(** The signed value of an [n]-bit field. *)
Definition simm (n v : Z) : Z := if v <? 2 ^ (n - 1) then v else v - 2 ^ n.

Lemma lxor_top n v :
  0 < n -> 0 <= v < 2 ^ n ->
  Z.lxor v (2 ^ (n - 1)) - 2 ^ (n - 1) = simm n v.
Proof.
  intros Hn Hv. unfold simm. set (m := 2 ^ (n - 1)).
  assert (Em : 2 ^ n = 2 * m).
  { unfold m. rewrite <-Z.pow_succ_r by lia. f_equal. lia. }
  assert (Hlow : forall x, 0 <= x < m -> Z.land x m = 0).
  { intros x Hx. destruct (Z.eq_dec x 0) as [->|Hx0]; [done|]. apply Z.bits_inj'. intros i Hi. rewrite Z.land_spec, Z.bits_0.
    unfold m. destruct (Z.eq_dec i (n - 1)) as [->|Hne].
    - rewrite (Z.bits_above_log2 x (n - 1)); [done|lia|].
      apply Z.log2_lt_pow2; unfold m in *; lia.
    - rewrite (Z.pow2_bits_false (n - 1) i) by lia. apply andb_false_r. }
  case_if; bprop.
  - rewrite <-Z.add_nocarry_lxor by (apply Hlow; lia). lia.
  - assert (Ev : v = Z.lxor (v - m) m).
    { rewrite <-Z.add_nocarry_lxor by (apply Hlow; lia). lia. }
    rewrite Ev at 1. rewrite Z.lxor_assoc, Z.lxor_nilpotent, Z.lxor_0_r. lia.
Qed.

Lemma sext_simm n v : 0 < n -> 0 <= v < 2 ^ n -> sext v n = u64 (simm n v).
Proof. intros. unfold sext. by rewrite lxor_top. Qed.

Lemma branch_target pc n v :
  0 < n -> 0 <= v < 2 ^ n ->
  uadd pc (u64 (sext v n * 4)) = u64 (pc + 4 * simm n v).
Proof.
  intros Hn Hv. rewrite sext_simm by done. unfold uadd, wrapu.
  rewrite Zmult_mod_idemp_l, Zplus_mod_idemp_r. f_equal. lia.
Qed.

(** ** The instructions *)

Inductive cond :=
  | EQ | NE | CS | CC | MI | PL | VS | VC | HI | LS | GE | LT | GT | LE | AL | NV.

Definition cond_code (c : cond) : Z :=
  match c with
  | EQ => 0 | NE => 1 | CS => 2 | CC => 3 | MI => 4 | PL => 5 | VS => 6 | VC => 7
  | HI => 8 | LS => 9 | GE => 10 | LT => 11 | GT => 12 | LE => 13 | AL => 14 | NV => 15
  end.

Record flags := Flags { fN : bool; fZ : bool; fC : bool; fV : bool }.

Definition flags_of (pstate : Z) : flags :=
  Flags (Z.testbit pstate 31) (Z.testbit pstate 30) (Z.testbit pstate 29)
    (Z.testbit pstate 28).

Definition holds (c : cond) (f : flags) : bool :=
  match c with
  | EQ => fZ f | NE => negb (fZ f)
  | CS => fC f | CC => negb (fC f)
  | MI => fN f | PL => negb (fN f)
  | VS => fV f | VC => negb (fV f)
  | HI => fC f && negb (fZ f) | LS => negb (fC f) || fZ f
  | GE => Bool.eqb (fN f) (fV f) | LT => negb (Bool.eqb (fN f) (fV f))
  | GT => negb (fZ f) && Bool.eqb (fN f) (fV f)
  | LE => fZ f || negb (Bool.eqb (fN f) (fV f))
  | AL | NV => true
  end.

Lemma cond_holds_holds c pstate :
  cond_holds (cond_code c) pstate = holds c (flags_of pstate).
Proof.
  unfold cond_holds, flags_of.
  destruct (Z.testbit pstate 31), (Z.testbit pstate 30), (Z.testbit pstate 29),
    (Z.testbit pstate 28); destruct c; reflexivity.
Qed.

Inductive branch :=
  | Ib (link : bool) (imm : Z)                      (* B, BL *)
  | Ibcond (c : cond) (imm : Z)                     (* B.cond *)
  | Icb (sf nz : bool) (imm rt : Z)                 (* CBZ, CBNZ *)
  | Itb (nz : bool) (bit imm rt : Z)                (* TBZ, TBNZ *)
  | Ibr (rn : Z) | Iblr (rn : Z) | Iret (rn : Z).   (* BR, BLR, RET *)

Definition branch_ok (i : branch) : Prop :=
  match i with
  | Ib _ imm => 0 <= imm < 2 ^ 26
  | Ibcond _ imm => 0 <= imm < 2 ^ 19
  | Icb _ _ imm rt => 0 <= imm < 2 ^ 19 /\ 0 <= rt < 32
  | Itb _ bit imm rt => 0 <= bit < 64 /\ 0 <= imm < 2 ^ 14 /\ 0 <= rt < 32
  | Ibr rn | Iblr rn | Iret rn => 0 <= rn < 32
  end.

Definition encode (i : branch) : Z :=
  match i with
  | Ib link imm => Z.b2z link * 2 ^ 31 + 0x14000000 + imm
  | Ibcond c imm => 0x54000000 + imm * 32 + cond_code c
  | Icb sf nz imm rt =>
      Z.b2z sf * 2 ^ 31 + 0x34000000 + Z.b2z nz * 2 ^ 24 + imm * 32 + rt
  | Itb nz bit imm rt =>
      bit / 32 * 2 ^ 31 + 0x36000000 + Z.b2z nz * 2 ^ 24 + bit mod 32 * 2 ^ 19
      + imm * 32 + rt
  | Ibr rn => 0xD61F0000 + rn * 32
  | Iblr rn => 0xD63F0000 + rn * 32
  | Iret rn => 0xD65F0000 + rn * 32
  end.

(** The register a branch names: 31 is the zero register. *)
Definition xreg (r : cng_uregs) (n : Z) : Z := if n =? 31 then 0 else u_x r (Z.to_nat n).

Definition branch_next (i : branch) (r : cng_uregs) : Z :=
  let go n imm := u64 (u_pc r + 4 * simm n imm) in
  let fall := u64 (u_pc r + 4) in
  match i with
  | Ib _ imm => go 26 imm
  | Ibcond c imm => if holds c (flags_of (u_pstate r)) then go 19 imm else fall
  | Icb sf nz imm rt =>
      let v := if sf then xreg r rt else xreg r rt mod 2 ^ 32 in
      if Bool.eqb (v =? 0) (negb nz) then go 19 imm else fall
  | Itb nz bit imm rt =>
      if Bool.eqb (Z.testbit (xreg r rt) bit) nz then go 14 imm else fall
  | Ibr rn | Iblr rn | Iret rn => xreg r rn
  end.

(** ** The decoder *)

(** The fields of a word that is a sum of disjoint fields. *)
Ltac fields :=
  unfold field; Z.to_euclidean_division_equations; lia.

(** The tests of the decoder, by field. *)
Lemma mask_FC w : Z.land w 0xFC000000 = field w 26 6 * 2 ^ 26.
Proof. by apply (land_field w 26 6). Qed.
Lemma mask_FF w : Z.land w 0xFF000000 = field w 24 8 * 2 ^ 24.
Proof. by apply (land_field w 24 8). Qed.
Lemma mask_7E w : Z.land w 0x7E000000 = field w 25 6 * 2 ^ 25.
Proof. by apply (land_field w 25 6). Qed.
Lemma mask_80 w : Z.land w 0x80000000 = field w 31 1 * 2 ^ 31.
Proof. by apply (land_field w 31 1). Qed.
Lemma mask_01 w : Z.land w 0x01000000 = field w 24 1 * 2 ^ 24.
Proof. by apply (land_field w 24 1). Qed.
Lemma mask_shr w k n : 0 <= k -> 0 <= n -> Z.land (Z.shiftr w k) (Z.ones n) = field w k n.
Proof. intros. unfold field. by rewrite Z.land_ones, Z.shiftr_div_pow2. Qed.

(** Decide one test of the decoder: [L] gives the masked field of the word,
    which is the constant [v]. *)
Ltac test L v :=
  let H := fresh "Hfield" in
  rewrite !L;
  match goal with
  | |- context [field ?w ?k ?n * 2 ^ ?j] =>
      assert (H : field w k n = v) by fields; rewrite !H; clear H
  end;
  repeat match goal with
  | |- context [Z.eqb (v * 2 ^ ?k) ?b] =>
      let t := eval vm_compute in (Z.eqb (v * 2 ^ k) b) in
      change (Z.eqb (v * 2 ^ k) b) with t
  end; cbn [negb andb orb]; cbn iota.

(** A field read with the low mask [m] of [n] bits. *)
Ltac low m n v :=
  match goal with
  | |- context [Z.land ?w m] =>
      replace (Z.land w m) with v
        by (change (Z.land w m) with (Z.land w (Z.ones n));
            rewrite Z.land_ones by lia; symmetry;
            rewrite ?Z.shiftr_div_pow2 by lia; Z.to_euclidean_division_equations; lia)
  end.

Section Decode.
Context (copyin : Z -> option Z) (r : cng_uregs).

Abbreviation next := (cng_pt_next_pc copyin r).

Lemma next_b link imm :
  0 <= imm < 2 ^ 26 -> copyin (u_pc r) = Some (encode (Ib link imm)) ->
  next = branch_next (Ib link imm) r.
Proof.
  intros Hi Hc. unfold cng_pt_next_pc. rewrite Hc. cbn [encode branch_next].
  destruct link; cbn [Z.b2z].
  - test mask_FC 37. low 0x03FFFFFF 26 imm. by apply branch_target.
  - test mask_FC 5. low 0x03FFFFFF 26 imm. by apply branch_target.
Qed.

Lemma next_bcond c imm :
  0 <= imm < 2 ^ 19 -> copyin (u_pc r) = Some (encode (Ibcond c imm)) ->
  next = branch_next (Ibcond c imm) r.
Proof.
  intros Hi Hc. unfold cng_pt_next_pc. rewrite Hc. cbn [encode branch_next].
  assert (Hcc : 0 <= cond_code c < 16) by (destruct c; simpl; lia).
  test mask_FC 21. test mask_FF 84.
  low 15 4 (cond_code c). low 0x7FFFF 19 imm.
  rewrite cond_holds_holds.
  destruct (holds c _); cbn [negb]; [by apply branch_target|done].
Qed.

Lemma next_cb sf nz imm rt :
  0 <= imm < 2 ^ 19 -> 0 <= rt < 32 ->
  copyin (u_pc r) = Some (encode (Icb sf nz imm rt)) ->
  next = branch_next (Icb sf nz imm rt) r.
Proof.
  intros Hi Hr Hc. unfold cng_pt_next_pc. rewrite Hc. cbn [encode branch_next].
  assert (Hgo : forall b t : bool, (if negb (if b then negb t else t) then uadd (u_pc r) 4
      else uadd (u_pc r) (u64 (sext imm 19 * 4)))
    = if Bool.eqb t (negb b) then u64 (u_pc r + 4 * simm 19 imm) else u64 (u_pc r + 4)).
  { intros [] []; cbn [negb Bool.eqb]; try done; by apply branch_target. }
  change (reg r) with (xreg r).
  destruct sf, nz; cbn [Z.b2z].
  - test mask_FC 45. test mask_FF 181. test mask_7E 26. test mask_80 1. test mask_01 1.
    low 31 5 rt. low 0x7FFFF 19 imm. apply (Hgo true).
  - test mask_FC 45. test mask_FF 180. test mask_7E 26. test mask_80 1. test mask_01 0.
    low 31 5 rt. low 0x7FFFF 19 imm. apply (Hgo false).
  - test mask_FC 13. test mask_FF 53. test mask_7E 26. test mask_80 0. test mask_01 1.
    low 31 5 rt. low 0x7FFFF 19 imm. apply (Hgo true).
  - test mask_FC 13. test mask_FF 52. test mask_7E 26. test mask_80 0. test mask_01 0.
    low 31 5 rt. low 0x7FFFF 19 imm. apply (Hgo false).
Qed.

(** The bit number of TBZ, from its two fields. *)
Lemma tb_bit w hi lo :
  0 <= hi < 2 -> 0 <= lo < 32 -> field w 31 1 = hi -> field w 19 5 = lo ->
  Z.lor (Z.land (Z.shiftr w 26) 0x20) (Z.land (Z.shiftr w 19) 0x1f) = 32 * hi + lo.
Proof.
  intros Hh Hl Eh El. change 0x1f with (Z.ones 5). rewrite mask_shr, El by lia.
  change (Z.land (Z.shiftr w 26) 0x20)
    with (Z.land (Z.shiftr w 26) (Z.shiftl (Z.ones 1) 5)). rewrite land_field by lia.
  assert (E5 : field (Z.shiftr w 26) 5 1 = hi).
  { rewrite <-Eh. unfold field. rewrite Z.shiftr_div_pow2, Z.div_div by lia. done. }
  rewrite E5. assert (hi = 0 \/ hi = 1) as [-> | ->] by lia; [done|].
  replace (32 * 1 + lo) with (Z.lxor 32 lo).
  2:{ rewrite <-Z.add_nocarry_lxor; [lia|]. rewrite Z.land_comm.
      change (Z.land lo 32) with (Z.land lo (Z.shiftl (Z.ones 1) 5)).
      rewrite land_field by lia. unfold field. rewrite Z.div_small by lia. done. }
  symmetry. apply Z.lxor_lor. rewrite Z.land_comm.
  change (1 * 2 ^ 5) with (Z.shiftl (Z.ones 1) 5). rewrite land_field by lia.
  unfold field. rewrite Z.div_small by lia. done.
Qed.

Lemma next_tb nz bit imm rt :
  0 <= bit < 64 -> 0 <= imm < 2 ^ 14 -> 0 <= rt < 32 ->
  copyin (u_pc r) = Some (encode (Itb nz bit imm rt)) ->
  next = branch_next (Itb nz bit imm rt) r.
Proof.
  intros Hb Hi Hr Hc. unfold cng_pt_next_pc. rewrite Hc. cbn [encode branch_next].
  assert (Eb : bit = 32 * (bit / 32) + bit mod 32) by (apply Z.div_mod; lia).
  assert (Hb5 : bit / 32 = 0 \/ bit / 32 = 1) by (Z.to_euclidean_division_equations; lia).
  assert (Hb40 : 0 <= bit mod 32 < 32) by (apply Z.mod_pos_bound; lia).
  revert Eb Hb5 Hb40. generalize (bit / 32) (bit mod 32). intros b5 b40 -> Hb5 Hb40.
  change (reg r) with (xreg r).
  assert (Hgo : forall b t : bool, (if negb (if b then t else negb t) then uadd (u_pc r) 4
      else uadd (u_pc r) (u64 (sext imm 14 * 4)))
    = if Bool.eqb t b then u64 (u_pc r + 4 * simm 14 imm) else u64 (u_pc r + 4)).
  { intros [] []; cbn [negb Bool.eqb]; try done; by apply branch_target. }
  destruct nz; cbn [Z.b2z].
  - rewrite (tb_bit _ b5 b40); [|lia|lia|fields|fields].
    destruct Hb5 as [-> | ->].
    + test mask_FC 13. test mask_FF 55. test mask_7E 27. test mask_01 1.
      low 31 5 rt. low 0x3FFF 14 imm. apply (Hgo true).
    + test mask_FC 45. test mask_FF 183. test mask_7E 27. test mask_01 1.
      low 31 5 rt. low 0x3FFF 14 imm. apply (Hgo true).
  - rewrite (tb_bit _ b5 b40); [|lia|lia|fields|fields].
    destruct Hb5 as [-> | ->].
    + test mask_FC 13. test mask_FF 54. test mask_7E 27. test mask_01 0.
      low 31 5 rt. low 0x3FFF 14 imm. apply (Hgo false).
    + test mask_FC 45. test mask_FF 182. test mask_7E 27. test mask_01 0.
      low 31 5 rt. low 0x3FFF 14 imm. apply (Hgo false).
Qed.

(** BR, BLR and RET: one word per register. *)
Lemma next_reg rn i :
  0 <= rn < 32 -> i = Ibr rn \/ i = Iblr rn \/ i = Iret rn ->
  copyin (u_pc r) = Some (encode i) -> next = branch_next i r.
Proof.
  intros Hr Hi Hc. unfold cng_pt_next_pc. rewrite Hc.
  assert (Hall : Forall (fun n => forall j, j = Ibr n \/ j = Iblr n \/ j = Iret n ->
    Z.land (encode j) 0xFC000000 = 0xD4000000 /\
    Z.land (encode j) 0xFF000000 = 0xD6000000 /\
    Z.land (encode j) 0x7E000000 = 0x56000000 /\
    In (Z.land (encode j) 0xFFFFFC1F) [0xD61F0000; 0xD63F0000; 0xD65F0000] /\
    Z.land (Z.shiftr (encode j) 5) 31 = n)
    [0;1;2;3;4;5;6;7;8;9;10;11;12;13;14;15;16;17;18;19;20;21;22;23;24;25;26;27;28;29;30;31]).
  { repeat (constructor; [intros j [->|[->| ->]]; vm_compute; tauto|]). constructor. }
  rewrite List.Forall_forall in Hall.
  destruct (Hall rn) with (j := i) as (E1 & E2 & E3 & E4 & E5); [|done|].
  { cbn. lia. }
  rewrite E1, E2, E3, E5. cbn [Z.eqb orb].
  replace ((Z.land (encode i) 0xFFFFFC1F =? 0xD61F0000)
    || (Z.land (encode i) 0xFFFFFC1F =? 0xD63F0000)
    || (Z.land (encode i) 0xFFFFFC1F =? 0xD65F0000)) with true.
  - cbn. by destruct Hi as [->|[->| ->]].
  - symmetry. cbn [In] in E4. destruct E4 as [<-|[<-|[<-|[]]]]; reflexivity.
Qed.

(** Every branch the decoder knows is decoded as the architecture has it. *)
Lemma next_pc_branch i :
  branch_ok i -> copyin (u_pc r) = Some (encode i) -> next = branch_next i r.
Proof.
  destruct i; cbn [branch_ok]; intros H Hc.
  - by apply next_b.
  - by apply next_bcond.
  - destruct H. by apply next_cb.
  - destruct H as (? & ? & ?). by apply next_tb.
  - apply (next_reg rn); auto.
  - apply (next_reg rn); auto.
  - apply (next_reg rn); auto.
Qed.

(** Words outside the group of branches, exceptions and system instructions
    (bits 28..26 = 101, Arm ARM C4.1) fall through. *)
Lemma next_pc_other w :
  copyin (u_pc r) = Some w -> Z.land w 0x1C000000 <> 0x14000000 ->
  next = u64 (u_pc r + 4).
Proof.
  intros Hc Hg. unfold cng_pt_next_pc. rewrite Hc.
  assert (Ht : forall m v, Z.land m 0x1C000000 = 0x1C000000 ->
    Z.land v 0x1C000000 = 0x14000000 -> Z.land w m =? v = false).
  { intros m v Hm Hv. apply Z.eqb_neq. intros E. destruct Hg.
    by rewrite <-(land_sub w m), E. }
  rewrite !Ht by reflexivity. done.
Qed.
End Decode.

(** ** The encoder *)

(** An address the kernel gives to userspace. *)
Definition uaddr (a : Z) : Prop := 0 <= a < 2 ^ 62.

Lemma s64_uaddr a : uaddr a -> s64 a = a.
Proof. unfold uaddr. intros. apply wraps_small; lia. Qed.

Lemma uadd_small a b : uaddr a -> 0 <= b < 2 ^ 62 -> uadd a b = a + b.
Proof.
  unfold uaddr, uadd. intros. apply wrapu_small.
  change (2 ^ 64) with (4 * 2 ^ 62). lia.
Qed.

(** [b_insn] is a B with the offset, where the offset fits. *)
Lemma b_insn_spec at_ target :
  uaddr at_ -> uaddr target ->
  if decide (- 2 ^ 27 <= target - at_ < 2 ^ 27 /\ (target - at_) mod 4 = 0)
  then exists imm, 0 <= imm < 2 ^ 26 /\ b_insn at_ target = encode (Ib false imm) /\
       4 * simm 26 imm = target - at_
  else b_insn at_ target = 0.
Proof.
  intros Ha Ht. unfold b_insn, BRANCH_REACH. rewrite !s64_uaddr by done.
  set (d := target - at_). change 3 with (Z.ones 2). rewrite land_low by lia.
  change (2 ^ 2) with 4. case_decide as Hd.
  - destruct Hd as [Hr Hm]. rewrite Hm.
    replace ((d <? - 2 ^ 27) || (2 ^ 27 <=? d) || negb (0 =? 0)) with false.
    2:{ symmetry. rewrite !orb_false_iff, Z.ltb_ge, Z.leb_gt. split; [lia|done]. }
    change 0x03FFFFFF with (Z.ones 26). rewrite mask_shr by lia.
    set (imm := field (u64 d) 2 26).
    assert (Hi : 0 <= imm < 2 ^ 26) by (apply Z.mod_pos_bound; lia).
    assert (Es : 4 * simm 26 imm = d).
    { unfold imm, field, simm, wrapu. change (2 ^ (26 - 1)) with (2 ^ 25).
      destruct (d <? 0) eqn:Ed; bprop.
      - replace (d mod 2 ^ 64) with (d + 2 ^ 64)
          by (Z.to_euclidean_division_equations; lia).
        case_if; bprop; Z.to_euclidean_division_equations; lia.
      - rewrite (Z.mod_small d) by lia.
        case_if; bprop; Z.to_euclidean_division_equations; lia. }
    exists imm. split; [done|]. split; [|done]. unfold encode, B_OPCODE. cbn [Z.b2z].
    rewrite (wrapu_small 32 imm) by lia.
    replace (0 * 2 ^ 31 + 0x14000000 + imm) with (0x14000000 + imm) by lia.
    symmetry. rewrite Z.add_nocarry_lxor, Z.lxor_lor; [done|..];
      (rewrite Z.land_comm; change 0x14000000 with (Z.shiftl 5 26);
       apply Z.bits_inj'; intros n Hn; rewrite Z.land_spec, Z.bits_0;
       destruct (Z.ltb_spec n 26);
       [rewrite Z.shiftl_spec_low by done; apply andb_false_r|
        rewrite <-(Z.mod_small imm (2 ^ 26)) by lia;
        by rewrite Z.mod_pow2_bits_high by lia]).
  - replace ((d <? - 2 ^ 27) || (2 ^ 27 <=? d) || negb (d mod 4 =? 0)) with true; [done|].
    symmetry. rewrite !orb_true_iff, Z.ltb_lt, Z.leb_le, negb_true_iff, Z.eqb_neq.
    destruct (decide (d < - 2 ^ 27)); [auto|]. destruct (decide (2 ^ 27 <= d)); [auto|].
    right. intros Hm. destruct Hd. split; [lia|done].
Qed.

(** The branch it encodes goes where it was asked to, as the decoder sees it. *)
Lemma b_insn_goes at_ target copyin r :
  uaddr at_ -> uaddr target -> b_insn at_ target <> 0 ->
  u_pc r = at_ -> copyin at_ = Some (b_insn at_ target) ->
  cng_pt_next_pc copyin r = target.
Proof.
  intros Ha Ht Hne Hpc Hc. pose proof (b_insn_spec at_ target Ha Ht) as Hs.
  case_decide; [|done]. destruct Hs as (imm & Hi & Hb & Hd).
  rewrite (next_pc_branch copyin r (Ib false imm)); [|done|by rewrite Hpc, Hc, Hb].
  cbn [branch_next]. rewrite Hpc, Hd. unfold uaddr in *.
  replace (at_ + (target - at_)) with target by lia. apply wrapu_small. lia.
Qed.
