(* ===== verification/RewriteScan.v ===== *)
(** * The scan: what it writes and what it leaves alone
    (src/src/monitor/rewrite.c) *)

From stdpp Require Import base list numbers.
From Stdlib Require Import ZArith Lia.
From S2P Require Import Prelude Rewrite RewriteIsa.

Open Scope Z_scope.

(** ** Writes *)

Lemma upd_same m a v : upd m a v a = v.
Proof. unfold upd. by rewrite Z.eqb_refl. Qed.

Lemma upd_other m a v b : b <> a -> upd m a v b = m b.
Proof. unfold upd. intros H. by rewrite (proj2 (Z.eqb_neq _ _) H). Qed.

Lemma write_words_spec ws : forall m a b,
  uaddr a -> uaddr (a + 4 * Z.of_nat (length ws)) ->
  write_words m a ws b =
  if decide (a <= b < a + 4 * Z.of_nat (length ws) /\ (b - a) mod 4 = 0)
  then default 0 (ws !! Z.to_nat ((b - a) / 4)) else m b.
Proof.
  induction ws as [|w ws IH]; intros m a b Ha He; simpl in *.
  { rewrite decide_False by lia. done. }
  unfold uaddr in *. rewrite uadd_small by (unfold uaddr in *; lia).
  rewrite IH by lia. destruct (decide (b = a)) as [->|Hne].
  - rewrite decide_False by lia. rewrite decide_True.
    + rewrite upd_same, Z.sub_diag. done.
    + rewrite Z.sub_diag. split; [lia|done].
  - rewrite upd_other by done.
    assert (Em : (b - (a + 4)) mod 4 = (b - a) mod 4).
    { replace (b - a) with (b - (a + 4) + 1 * 4) by lia. by rewrite Z.mod_add. }
    rewrite Em. case_decide as H1.
    + rewrite decide_True by lia.
      replace (Z.to_nat ((b - a) / 4)) with (S (Z.to_nat ((b - (a + 4)) / 4))); [done|].
      replace (b - a) with (b - (a + 4) + 1 * 4) by lia.
      rewrite Z.div_add by lia. rewrite Z2Nat.inj_add; [simpl; lia| |lia].
      apply Z.div_pos; lia.
    + case_decide as H2; [|done]. destruct H1. split; [|tauto].
      destruct H2 as [H2 H3]. apply Z.mod_divide in H3 as [q Hq]; [|done]. lia.
Qed.

(** ** A copy of the template *)

Section Scan.
Context (T : tramp).

Abbreviation tsz := (cng_tramp_size T).

(** The layout of tramp.S: the patched return branch, then the two literals, at
    word offsets within the template. *)
Definition tramp_ok : Prop :=
  t_back T mod 4 = 0 /\ t_disp T mod 4 = 0 /\ t_ret T mod 4 = 0 /\
  0 <= t_back T /\ t_back T + 4 <= t_disp T /\ t_disp T + 8 <= t_ret T /\
  t_ret T + 8 <= tsz /\ tsz < 2 ^ 20.

Definition patched (o : Z) : bool :=
  (o =? t_back T) || (o =? t_disp T) || (o =? t_disp T + 4) || (o =? t_ret T)
  || (o =? t_ret T + 4).

(** The copy at [slot] for the site that continues at [ret]. *)
Definition tramp_at (m : wmem) (slot ret : Z) : Prop :=
  (forall i w, t_words T !! i = Some w -> patched (4 * Z.of_nat i) = false ->
     m (slot + 4 * Z.of_nat i) = w) /\
  m (slot + t_back T) = b_insn (slot + t_back T) ret /\
  b_insn (slot + t_back T) ret <> 0 /\
  m (slot + t_disp T) = u32 (t_dispatch T) /\
  m (slot + t_disp T + 4) = u32 (Z.shiftr (t_dispatch T) 32) /\
  m (slot + t_ret T) = u32 ret /\
  m (slot + t_ret T + 4) = u32 (Z.shiftr ret 32).

Lemma tramp_at_ext m m' slot ret :
  tramp_ok -> (forall b, slot <= b < slot + tsz -> m' b = m b) ->
  tramp_at m slot ret -> tramp_at m' slot ret.
Proof.
  intros (_ & _ & _ & H1 & H2 & H3 & H4 & _) He (A & B & B' & C & D & F & G).
  split; [|rewrite !He by lia; auto 10].
  intros i w Hi Hp. rewrite He; [by apply A|]. apply lookup_lt_Some in Hi.
  unfold cng_tramp_size. lia.
Qed.

Lemma emit_spec m pool cap used ret slot m' used' :
  tramp_ok -> uaddr pool -> uaddr (pool + cap) -> 0 <= used <= cap ->
  emit T m pool cap used ret = Some (slot, m', used') ->
  slot = pool + used /\ used' = used + tsz /\ used' <= cap /\
  tramp_at m' slot ret /\
  forall b, ~ (slot <= b < slot + tsz) -> m' b = m b.
Proof.
  intros (M1 & M2 & M3 & H1 & H2 & H3 & H4 & H5) Hp Hc Hu. unfold emit, uaddr in *.
  assert (Hts : 0 <= tsz) by (unfold cng_tramp_size; lia).
  rewrite !(uadd_small pool used) by (unfold uaddr; lia).
  rewrite !(uadd_small used tsz) by (unfold uaddr; lia).
  case_if; [done|]. bprop.
  rewrite !(uadd_small (pool + used)) by (unfold uaddr; lia).
  case_if; [done|]. bprop. intros [= <- <- <-].
  split; [done|]. split; [done|]. split; [done|].
  unfold write64. rewrite !(uadd_small (pool + used + _) 4) by (unfold uaddr; lia).
  assert (Hw : forall b, write_words m (pool + used) (t_words T) b =
    if decide (pool + used <= b < pool + used + tsz /\ (b - (pool + used)) mod 4 = 0)
    then default 0 (t_words T !! Z.to_nat ((b - (pool + used)) / 4)) else m b).
  { intros b. apply write_words_spec; unfold uaddr, cng_tramp_size in *; lia. }
  split.
  - unfold tramp_at. repeat split.
    + intros i w Hi Hpt. apply lookup_lt_Some in Hi as Hlt. unfold patched in Hpt. bprop.
      destruct Hpt as ((((Q1 & Q2) & Q3) & Q4) & Q5).
      rewrite !upd_other by lia. rewrite Hw, decide_True.
      * replace (_ - _) with (4 * Z.of_nat i) by lia.
        rewrite Z.mul_comm, Z.div_mul, Nat2Z.id, Hi by lia. done.
      * split; [unfold cng_tramp_size; lia|].
        replace (_ - _) with (Z.of_nat i * 4) by lia. by apply Z.mod_mul.
    + by rewrite upd_same.
    + done.
    + rewrite !upd_other by lia. by rewrite upd_same.
    + rewrite !upd_other by lia. by rewrite upd_same.
    + rewrite !upd_other by lia. by rewrite upd_same.
    + rewrite !upd_other by lia. by rewrite upd_same.
  - intros b Hb. rewrite !upd_other by lia. rewrite Hw, decide_False by tauto. done.
Qed.

(** ** The invariant of the scan *)

Section Inv.
Context (lo hi pool cap used0 count0 : Z) (m0 : wmem).
Hypotheses (HT : tramp_ok) (Hlo : uaddr lo) (Hhi : uaddr hi) (Hpool : uaddr pool)
  (Hend : uaddr (pool + cap)) (Hused0 : 0 <= used0 <= cap)
  (Hdisj : hi <= pool \/ pool + cap <= lo).

Definition site_slot (i : nat) : Z := pool + used0 + tsz * Z.of_nat i.

(** A rewritten site: an [svc #0] of the range, no signal return, now a branch
    to its own copy of the trampoline. *)
Definition site_ok (m : wmem) (i : nat) (b : Z) : Prop :=
  lo <= b /\ b + 4 <= hi /\ b mod 4 = 0 /\ m0 b = SVC0_INSN /\
  (lo + 4 <= b -> movz_nr (m0 (b - 4)) NR_RT_SIGRETURN = false) /\
  m b = b_insn b (site_slot i) /\ b_insn b (site_slot i) <> 0 /\
  tramp_at m (site_slot i) (b + 4).

(** [L] lists the rewritten sites in order; everything else outside the pool's
    free part is as it was. *)
Definition scan_inv (L : list Z) (st : scan_st) : Prop :=
  sc_used st = used0 + tsz * Z.of_nat (length L) /\ sc_used st <= cap /\
  sc_count st = count0 + Z.of_nat (length L) /\ NoDup L /\
  (forall i b, L !! i = Some b -> site_ok (sc_mem st) i b) /\
  (forall b, ~ (pool + used0 <= b < pool + cap) -> b ∉ L -> sc_mem st b = m0 b).

Lemma b_insn_not_svc a t : b_insn a t <> SVC0_INSN.
Proof.
  unfold b_insn. case_if; [done|]. intros H.
  assert (Hf : Z.land (Z.lor B_OPCODE (u32 (Z.land (Z.shiftr
    (u64 (s64 t - s64 a)) 2) 0x03FFFFFF))) 0x40000000 = 0); [|by rewrite H in Hf].
  rewrite Z.land_lor_distr_l. replace (Z.land B_OPCODE 0x40000000) with 0 by done.
  rewrite Z.lor_0_l. set (x := Z.land _ 0x03FFFFFF).
  assert (Hx : 0 <= x < 2 ^ 26).
  { unfold x. change 0x03FFFFFF with (Z.ones 26). rewrite Z.land_ones by lia.
    apply Z.mod_pos_bound. lia. }
  rewrite wrapu_small by lia. change 0x40000000 with (Z.shiftl (Z.ones 1) 30).
  rewrite land_field by lia. unfold field. rewrite Z.div_small by lia. done.
Qed.

Lemma movz_nr_svc nr : movz_nr SVC0_INSN nr = false.
Proof. reflexivity. Qed.

(** A word below the range's end and outside the pool is a site or untouched. *)
Lemma scan_inv_read L st b :
  scan_inv L st -> lo <= b < hi ->
  sc_mem st b = m0 b \/ (b ∈ L /\ m0 b = SVC0_INSN /\ sc_mem st b <> SVC0_INSN).
Proof.
  intros (_ & _ & _ & _ & Hs & Hm) Hb. destruct (decide (b ∈ L)) as [Hin|Hn].
  - right. apply list_elem_of_lookup in Hin as Hin'. destruct Hin' as [i Hi].
    destruct (Hs i b Hi) as (_ & _ & _ & H1 & _ & -> & _).
    split; [done|]. split; [done|]. apply b_insn_not_svc.
  - left. apply Hm; [lia|done].
Qed.

Lemma tsz_nonneg : 0 <= tsz.
Proof. unfold cng_tramp_size. lia. Qed.

(** One site more. *)
Lemma scan_inv_emit L st a slot m' used' :
  scan_inv L st -> lo <= a -> a + 4 <= hi -> a mod 4 = 0 ->
  sc_mem st a = SVC0_INSN ->
  (lo + 4 <= a -> movz_nr (sc_mem st (a - 4)) NR_RT_SIGRETURN = false) ->
  b_insn a (pool + sc_used st) <> 0 ->
  emit T (sc_mem st) pool cap (sc_used st) (a + 4) = Some (slot, m', used') ->
  scan_inv (L ++ [a])
    (ScanSt (upd m' a (b_insn a (pool + sc_used st))) used' (sc_count st + 1)).
Proof.
  intros Hinv H1 H2 H3 Hsvc Hsig Hb Hemit. pose proof tsz_nonneg as Htsz.
  pose proof Hinv as (Eu & Hcap & Ec & Hnd & Hs & Hm).
  apply emit_spec in Hemit as (Eslot & Eused & Hcap' & Htr & Hrest); auto; [|lia].
  assert (Eslot' : slot = site_slot (length L)) by (unfold site_slot; lia).
  assert (Hm0 : m0 a = SVC0_INSN).
  { destruct (scan_inv_read L st a Hinv) as [E|(_ & E & _)]; [lia| |done]. congruence. }
  assert (Hnin : a ∉ L).
  { intros Hin. apply list_elem_of_lookup in Hin as [i Hi].
    destruct (Hs i a Hi) as (_ & _ & _ & _ & _ & E & _). rewrite Hsvc in E.
    by destruct (b_insn_not_svc a (site_slot i)). }
  assert (Hext : forall b, ~ (slot <= b < slot + tsz) -> b <> a ->
    upd m' a (b_insn a (pool + sc_used st)) b = sc_mem st b).
  { intros b Hnb Hne. rewrite upd_other by done. by apply Hrest. }
  unfold scan_inv. cbn [sc_mem sc_used sc_count]. rewrite length_app. simpl.
  split; [lia|]. split; [lia|]. split; [lia|]. split; [|split].
  - apply NoDup_ListNoDup, NoDup_app; [by apply NoDup_ListNoDup| |].
    { apply NoDup_ListNoDup, NoDup_singleton. }
    intros b Hin [<-|[]]. apply Hnin. by apply list_elem_of_In.
  - intros i b Hi. apply lookup_app_Some in Hi as [Hi|[Hlen Hi]].
    + destruct (Hs i b Hi) as (S1 & S2 & S3 & S4 & S5 & S6 & S7 & S8).
      assert (Hne : b <> a) by (intros ->; apply Hnin; by eapply list_elem_of_lookup_2).
      apply lookup_lt_Some in Hi as Hlt.
      split; [done|]. split; [done|]. split; [done|]. split; [done|]. split; [done|].
      split; [|split; [done|]].
      * rewrite Hext; [done| |done]. lia.
      * eapply tramp_at_ext; [done| |exact S8]. intros c Hc.
        assert (Hbelow : site_slot i + tsz <= slot).
        { rewrite Eslot'. unfold site_slot. nia. }
        assert (Hin : pool <= site_slot i) by (unfold site_slot; nia).
        apply Hext; lia.
    + apply list_lookup_singleton_Some in Hi as [Hi <-].
      assert (i = length L) as -> by lia.
      unfold site_ok. rewrite <-Eslot', Eslot.
      split; [done|]. split; [done|]. split; [done|]. split; [done|].
      split; [|split; [by rewrite upd_same|split; [done|]]].
      * intros Hl. specialize (Hsig Hl).
        destruct (scan_inv_read L st (a - 4) Hinv) as [<-|(_ & -> & _)]; [lia|done|].
        apply movz_nr_svc.
      * eapply tramp_at_ext; [done| |rewrite <-Eslot; exact Htr].
        intros c Hc. apply upd_other. lia.
  - intros b Hb1 Hb2. rewrite elem_of_app, list_elem_of_singleton in Hb2.
    rewrite Hext; [apply Hm; [done|tauto]|lia|tauto].
Qed.

(** ** The loop *)

Lemma scan_loop_spec fuel hi' verify : forall a L st,
  lo <= a -> a mod 4 = 0 -> hi' <= hi -> hi' - a < Z.of_nat fuel -> a < 2 ^ 62 ->
  scan_inv L st ->
  exists L' st', scan_loop T fuel hi' lo verify pool cap a st = Some st' /\
    scan_inv L' st' /\ L `prefix_of` L'.
Proof.
  induction fuel as [|fuel IH]; intros a L st Ha Hm Hh Hf Hb Hinv; cbn [scan_loop];
    rewrite !(uadd_small a 4) by (unfold uaddr in *; lia).
  { rewrite (proj2 (Z.ltb_lt hi' (a + 4))) by lia. by exists L, st. }
  case_if; [by exists L, st|]. bprop.
  assert (Hnext : forall L1 st1, scan_inv L1 st1 -> L `prefix_of` L1 ->
    exists L' st', scan_loop T fuel hi' lo verify pool cap (a + 4) st1 = Some st' /\
      scan_inv L' st' /\ L `prefix_of` L').
  { intros L1 st1 H1 Hp. destruct (IH (a + 4) L1 st1) as (L' & st' & E & HL & Hp');
      auto; unfold uaddr in *; try lia.
    - rewrite <-Hm. by rewrite <-(Z.mod_add a 1 4).
    - exists L', st'. split; [done|]. split; [done|]. by etransitivity. }
  rewrite (uadd_small lo 4) by (unfold uaddr in *; lia).
  pose proof Hinv as (Eu & Hcap & _). pose proof tsz_nonneg as Htsz.
  assert (Hus : 0 <= sc_used st) by nia.
  rewrite (uadd_small pool (sc_used st)) by (unfold uaddr in *; lia).
  destruct (negb (sc_mem st a =? SVC0_INSN)) eqn:Esvc; [by apply (Hnext L)|].
  destruct ((lo + 4 <=? a) && movz_nr (sc_mem st (a - 4)) NR_RT_SIGRETURN) eqn:Esig;
    [by apply (Hnext L)|].
  case_if; [by apply (Hnext L)|]. case_if; [by apply (Hnext L)|].
  destruct (b_insn a (pool + sc_used st) =? 0) eqn:Eb; [by apply (Hnext L)|].
  case_if; [by exists L, st|].
  destruct (emit T (sc_mem st) pool cap (sc_used st) (a + 4)) as [[[slot m'] used']|] eqn:Ee;
    [|by apply (Hnext L)].
  apply (Hnext (L ++ [a])); [|by eexists].
  bprop. eapply scan_inv_emit; eauto; try lia.
  intros Hl. destruct Esig as [Esig|Esig]; [lia|done].
Qed.

Lemma align_up4_spec x : uaddr x -> x <= align_up4 x < x + 4 /\ align_up4 x mod 4 = 0.
Proof.
  intros Hx. unfold align_up4. rewrite uadd_small by (unfold uaddr in *; lia).
  change (2 ^ 64 - 4) with (Z.shiftl (Z.ones 62) 2). rewrite land_field by lia.
  unfold field, uaddr in *. rewrite (Z.mod_small ((x + 3) / 2 ^ 2)).
  - change (2 ^ 2) with 4. split; [Z.to_euclidean_division_equations; lia|].
    by apply Z.mod_mul.
  - change (2 ^ 2) with 4. Z.to_euclidean_division_equations; lia.
Qed.

Lemma scan_spec lo' hi' verify L st :
  lo <= lo' -> lo' < 2 ^ 61 -> hi' <= hi -> scan_inv L st ->
  exists L' st', scan T lo' hi' lo verify pool cap st = Some st' /\
    scan_inv L' st' /\ L `prefix_of` L'.
Proof.
  intros H1 H2 H3 Hinv. unfold scan.
  destruct (align_up4_spec lo') as [Hal Hmod]; [unfold uaddr in *; lia|].
  apply scan_loop_spec; auto; try lia.
Qed.

Lemma rewrite_ranges_spec foff cr : forall L st,
  0 <= foff -> foff + (hi - lo) < 2 ^ 62 -> lo < hi -> hi < 2 ^ 61 ->
  Forall (fun r => 0 <= r.1 < 2 ^ 64 /\ 0 <= r.2 < 2 ^ 64) cr ->
  scan_inv L st ->
  exists L' st', rewrite_ranges T lo hi foff cr pool cap st = Some st' /\
    scan_inv L' st' /\ L `prefix_of` L'.
Proof.
  induction cr as [|[rlo rhi] cr IH]; intros L st Hf Hfe Hlh Hh Hcr Hinv; simpl.
  { by exists L, st. }
  inversion Hcr as [|? ? [Hr1 Hr2] Hcr']; subst. simpl in Hr1, Hr2.
  rewrite (uadd_small foff (hi - lo)) by (unfold uaddr in *; lia).
  set (clo := if rlo <? foff then foff else rlo).
  set (chi := if foff + (hi - lo) <? rhi then foff + (hi - lo) else rhi).
  assert (Hclo : foff <= clo) by (unfold clo; case_if; bprop; lia).
  assert (Hchi : chi <= foff + (hi - lo)) by (unfold chi; case_if; bprop; lia).
  destruct (chi <=? clo) eqn:Ec; [by apply IH|]. bprop.
  rewrite !(uadd_small lo) by (unfold uaddr in *; lia).
  destruct (scan_spec (lo + (clo - foff)) (lo + (chi - foff)) false L st)
    as (L1 & st1 & -> & Hinv1 & Hp1); auto; try lia.
  simpl. destruct (IH L1 st1) as (L2 & st2 & E2 & Hinv2 & Hp2); auto.
  exists L2, st2. split; [done|]. split; [done|]. by etransitivity.
Qed.
End Inv.
End Scan.

(** The whole of one segment's turn, from a state with [used] bytes taken. *)
Lemma rewrite_seg_runs (T : tramp) lo hi foff pool cap used count m cr :
  tramp_ok T -> lo < hi -> uaddr lo -> hi < 2 ^ 61 -> uaddr pool -> uaddr (pool + cap) ->
  0 <= used <= cap -> hi <= pool \/ pool + cap <= lo ->
  0 <= foff -> foff + (hi - lo) < 2 ^ 62 ->
  Forall (fun r => 0 <= r.1 < 2 ^ 64 /\ 0 <= r.2 < 2 ^ 64) cr ->
  exists L st',
    cng_rewrite_seg T true lo hi foff cr pool cap (ScanSt m used count) = Some st' /\
    scan_inv T lo hi pool cap used count m L st'.
Proof.
  intros HT Hlh Hlo Hhi Hpool Hend Hused Hdisj Hfoff Hfend Hcr.
  assert (Hhi' : uaddr hi) by (unfold uaddr in *; lia).
  assert (Hinv0 : scan_inv T lo hi pool cap used count m [] (ScanSt m used count)).
  { split; [simpl; lia|]. split; [simpl; lia|]. split; [simpl; lia|].
    split; [constructor|]. split; [by intros|done]. }
  unfold cng_rewrite_seg. cbn [negb orb]. rewrite (proj2 (Z.leb_gt hi lo)) by lia.
  destruct cr as [|r cr].
  - destruct (scan_spec T lo hi pool cap used count m HT Hlo Hhi' Hpool Hend Hused
      Hdisj lo hi true [] (ScanSt m used count)) as (L' & st' & E & Hi & _);
      auto; try lia. by exists L', st'.
  - destruct (rewrite_ranges_spec T lo hi pool cap used count m HT Hlo Hhi' Hpool Hend
      Hused Hdisj foff (r :: cr) [] (ScanSt m used count)) as (L' & st' & E & Hi & _);
      auto. by exists L', st'.
Qed.

(** * cng_code_ranges: the code map is the executable sections
    (src/src/monitor/rewrite.c) *)

Definition byte_ok (b : Z) : Prop := 0 <= b < 256.

(** ** Little-endian reads *)

Lemma le_range l : Forall byte_ok l ->
  0 <= foldr (fun b z => b + 256 * z) 0 l < 256 ^ Z.of_nat (length l).
Proof.
  induction 1 as [|b l Hb _ IH]; cbn [foldr length]; [simpl; lia|].
  unfold byte_ok in Hb. rewrite Nat2Z.inj_succ, Z.pow_succ_r by lia. lia.
Qed.

Lemma le_at_range f off n : Forall byte_ok f -> 0 <= le_at f off n < 256 ^ Z.of_nat n.
Proof.
  intros Hf. unfold le_at.
  pose proof (le_range (take n (drop off f)) ltac:(by apply Forall_take, Forall_drop)) as H.
  rewrite length_take in H. split; [lia|]. eapply Z.lt_le_trans; [apply H|].
  apply Z.pow_le_mono_r; lia.
Qed.

Lemma le_at_take f n off k : (off + k <= n)%nat -> le_at (take n f) off k = le_at f off k.
Proof.
  intros H. unfold le_at. replace n with (off + (n - off))%nat by lia.
  rewrite <-take_drop_commute, take_take. f_equal. f_equal. lia.
Qed.

Lemma le_at_drop f n off k : le_at (drop n f) off k = le_at f (n + off) k.
Proof. unfold le_at. by rewrite drop_drop. Qed.

(** The header at file offset [o]. *)
Definition hdr (f : list Z) (o : nat) : shdr := shdr_at (drop o f) 0.

Lemma shdr_at_buf f o n j :
  (64 * (j + 1) <= n)%nat -> shdr_at (take n (drop o f)) j = hdr f (o + 64 * j).
Proof.
  intros H. unfold hdr, shdr_at. rewrite !le_at_take, !le_at_drop by lia.
  f_equal; f_equal; lia.
Qed.

Definition hdr_ok (s : shdr) : Prop :=
  0 <= sh_offset s < 2 ^ 64 /\ 0 <= sh_size s < 2 ^ 64.

Lemma hdr_hdr_ok f o : Forall byte_ok f -> hdr_ok (hdr f o).
Proof.
  intros Hf. pose proof (Forall_drop byte_ok o f Hf) as Hd.
  split; apply (le_at_range _ _ 8); done.
Qed.

(** ** Coverage *)

Definition in_range (x : Z) (r : Z * Z) : Prop := r.1 <= x < r.2.
Definition covers (rs : code_ranges) (x : Z) : Prop := exists r, In r rs /\ in_range x r.

(** The bytes of a code section. *)
Definition code_byte (s : shdr) (x : Z) : Prop :=
  is_code s = true /\ sh_offset s <= x < sh_offset s + sh_size s.

Definition ranges_ok (rs : code_ranges) : Prop :=
  Forall (fun r => 0 <= r.1 < r.2 /\ r.2 < 2 ^ 64) rs /\
  (length rs <= CNG_CODE_RANGES_MAX)%nat.

Lemma is_code_size s : is_code s = true -> sh_size s <> 0.
Proof. unfold is_code. intros H. bprop. tauto. Qed.

Lemma covers_cons r rs x : covers (r :: rs) x <-> in_range x r \/ covers rs x.
Proof. unfold covers. simpl. split; naive_solver. Qed.

Lemma add_range_spec s rs rs' :
  hdr_ok s -> ranges_ok rs -> add_range s rs = Some rs' ->
  ranges_ok rs' /\ forall x, covers rs' x <-> covers rs x \/ code_byte s x.
Proof.
  intros [Ho Hs] [Hok Hlen]. unfold add_range.
  destruct (is_code s) eqn:Ec; simpl.
  2:{ intros [= <-]. split; [done|]. unfold code_byte. intros. rewrite Ec. naive_solver. }
  pose proof (is_code_size s Ec) as Hne. case_if; [done|]. bprop.
  assert (Eh : uadd (sh_offset s) (sh_size s) = sh_offset s + sh_size s).
  { unfold uadd, wrapu in *. destruct (decide (sh_offset s + sh_size s < 2 ^ 64)).
    - apply Z.mod_small. lia.
    - rewrite <-(Z.mod_add _ (-1)) in Eif by lia.
      rewrite Z.mod_small in Eif by lia. lia. }
  assert (Hmax : sh_offset s + sh_size s < 2 ^ 64).
  { rewrite <-Eh. apply wrapu_range. lia. }
  rewrite Eh. assert (Hnew : forall rs0, (length rs0 < CNG_CODE_RANGES_MAX)%nat ->
    ranges_ok rs0 -> ranges_ok ((sh_offset s, sh_offset s + sh_size s) :: rs0) /\
    forall x, covers ((sh_offset s, sh_offset s + sh_size s) :: rs0) x
              <-> covers rs0 x \/ code_byte s x).
  { intros rs0 Hl [Hok0 _]. split.
    - split; [|simpl; lia]. constructor; [simpl; lia|done].
    - intros x. rewrite covers_cons. unfold in_range, code_byte. simpl. naive_solver. }
  destruct rs as [|[plo phi] rs0].
  - intros [= <-]. apply Hnew; [simpl; unfold CNG_CODE_RANGES_MAX; lia|done].
  - destruct (phi =? sh_offset s) eqn:Em.
    + intros [= <-]. bprop. subst phi. inversion Hok as [|? ? [Hp _] Hok0]; subst.
      simpl in Hp. split.
      * split; [|done]. constructor; [simpl; lia|done].
      * intros x. rewrite !covers_cons. unfold in_range, code_byte. simpl.
        split; [|naive_solver lia]. intros [?|?]; [|auto].
        destruct (decide (x < sh_offset s)); [left; left; lia|right; split; [done|lia]].
    + case_if; [done|]. intros [= <-]. bprop. apply Hnew; [lia|by split].
Qed.

Lemma add_ranges_spec ss : forall rs rs',
  Forall hdr_ok ss -> ranges_ok rs -> add_ranges ss rs = Some rs' ->
  ranges_ok rs' /\
  forall x, covers rs' x <-> covers rs x \/ exists s, In s ss /\ code_byte s x.
Proof.
  induction ss as [|s ss IH]; intros rs rs' Hss Hrs; simpl.
  { intros [= <-]. split; [done|]. naive_solver. }
  inversion Hss as [|? ? Hs Hss']; subst.
  destruct (add_range s rs) as [rs1|] eqn:E1; simpl; [|done]. intros H.
  destruct (add_range_spec s rs rs1 Hs Hrs E1) as [Hrs1 Hc1].
  destruct (IH rs1 rs' Hss' Hrs1 H) as [Hrs' Hc']. split; [done|].
  intros x. rewrite Hc', Hc1. naive_solver.
Qed.

(** ** The chunks *)

(** The section headers [i .. shnum) of the table at [shoff]. *)
Definition headers (f : list Z) (shoff i shnum : nat) : list shdr :=
  map (fun j => hdr f (shoff + 64 * j)) (seq i (shnum - i)).

Lemma add_ranges_app a b rs :
  add_ranges (a ++ b) rs = (rs1 ← add_ranges a rs; add_ranges b rs1).
Proof.
  revert rs. induction a as [|s a IH]; intros rs; simpl; [done|].
  destruct (add_range s rs); simpl; [apply IH|done].
Qed.

Lemma read_chunks_spec fuel f shoff shnum : forall i rs rs',
  Z.of_nat (length f) < 2 ^ 62 -> 0 <= shoff < 2 ^ 62 -> (shnum <= 1024)%nat ->
  read_chunks fuel f shoff shnum i rs = Some rs' ->
  add_ranges (headers f (Z.to_nat shoff) i shnum) rs = Some rs'.
Proof.
  induction fuel as [|fuel IH]; intros i rs rs' Hf Ho Hn; simpl; [done|].
  destruct (shnum <=? i)%nat eqn:Ei; bprop.
  { intros [= <-]. unfold headers. replace (shnum - i)%nat with O by lia. done. }
  set (k := Nat.min (shnum - i) SHDR_CHUNK).
  assert (Hk : (0 < k <= shnum - i)%nat) by (unfold k, SHDR_CHUNK; lia).
  unfold uadd. rewrite wrapu_small by lia. unfold pread_all.
  case_if; simpl; [|done]. bprop.
  set (buf := take _ _).
  assert (Ebuf : map (shdr_at buf) (seq 0 k) = map (fun j => hdr f (Z.to_nat shoff + 64 * j))
                   (seq i k)).
  { assert (Es : seq i k = map (Nat.add i) (seq 0 k)).
    { symmetry. rewrite <-(Nat.add_0_r i) at 2. apply (fmap_add_seq i 0 k). }
    rewrite Es, map_map. apply map_ext_in. intros j Hj.
    apply in_seq in Hj. unfold buf. rewrite shdr_at_buf by lia. f_equal. lia. }
  rewrite Ebuf. destruct (add_ranges _ rs) as [rs1|] eqn:E1; simpl; [|done].
  intros H. apply IH in H; auto. unfold headers in *.
  destruct (decide (shnum - i <= SHDR_CHUNK)%nat) as [Hle|Hgt].
  - assert (Ek : k = (shnum - i)%nat) by (unfold k; lia). rewrite <-Ek, E1.
    replace (shnum - (i + SHDR_CHUNK))%nat with O in H by lia. done.
  - assert (Ek : k = SHDR_CHUNK) by (unfold k; lia). rewrite Ek in E1.
    replace (shnum - i)%nat with (SHDR_CHUNK + (shnum - (i + SHDR_CHUNK)))%nat by lia.
    rewrite seq_app, map_app, add_ranges_app, E1. done.
Qed.

(** A table that could be read lies within the file. *)
Lemma read_chunks_off fuel f shoff shnum rs rs' :
  (0 < shnum)%nat -> 0 <= shoff < 2 ^ 64 ->
  read_chunks fuel f shoff shnum 0 rs = Some rs' -> shoff <= Z.of_nat (length f).
Proof.
  intros Hn Ho. destruct fuel as [|fuel]; simpl; [done|].
  rewrite (proj2 (Nat.leb_gt shnum 0)) by lia.
  unfold uadd. rewrite Z.add_0_r, wrapu_small by lia. unfold pread_all.
  case_if; simpl; [|done]. bprop. lia.
Qed.

Lemma code_ranges_spec f :
  Forall byte_ok f -> Z.of_nat (length f) < 2 ^ 62 ->
  cng_code_ranges (Some f) <> [] ->
  ranges_ok (cng_code_ranges (Some f)) /\
  forall x, covers (cng_code_ranges (Some f)) x <->
    exists s, In s (headers f (Z.to_nat (le_at f 40 8)) 0 (Z.to_nat (le_at f 60 2))) /\
              code_byte s x.
Proof.
  intros Hf Hlen. unfold cng_code_ranges.
  destruct (pread_all f 64 0) as [eh|] eqn:Eh; [|done].
  assert (Eeh : forall o k, (o + k <= 64)%nat -> le_at eh o k = le_at f o k).
  { intros o k Hk. unfold pread_all in Eh. case_if_in Eh; [|done].
    injection Eh as <-. rewrite drop_0. by apply (le_at_take f 64). }
  rewrite !Eeh by lia. case_if; [done|].
  destruct ((le_at f 40 8 =? 0) || _ || _ || _) eqn:Ec; [done|].
  assert (Hnum : 0 < le_at f 60 2 <= MAX_SHDR).
  { pose proof (le_at_range f 60 2 Hf) as [? _]. bprop. unfold MAX_SHDR in *. lia. }
  clear Ec. pose proof (le_at_range f 40 8 Hf) as Ho.
  change (256 ^ Z.of_nat 8) with (2 ^ 64) in Ho. unfold MAX_SHDR in Hnum.
  destruct (read_chunks _ f _ _ 0 []) as [rs|] eqn:Er; [|done]. intros _.
  pose proof Er as Hoff. apply read_chunks_off in Hoff; [|lia|done].
  apply read_chunks_spec in Er; [|lia|lia|lia].
  apply add_ranges_spec in Er as [[Hrs Hl] Hc].
  2:{ apply List.Forall_forall. intros s Hs. unfold headers in Hs.
      apply in_map_iff in Hs as (j & <- & _). by apply hdr_hdr_ok. }
  2:{ split; [constructor|simpl; lia]. }
  split.
  - split; [|by rewrite length_rev]. apply List.Forall_forall. intros r Hr.
    rewrite <-in_rev in Hr. rewrite List.Forall_forall in Hrs. by apply Hrs.
  - intros x. unfold covers. setoid_rewrite <-in_rev. fold (covers rs x).
    rewrite Hc. split; [|by auto]. intros [(? & [] & _)|?]; done.
Qed.
