(* ===== verification/RewriteProps.v ===== *)
(** * Rewriting and single-step: the properties *)

From stdpp Require Import base list numbers.
From Stdlib Require Import ZArith Lia.
From S2P Require Import Prelude Rewrite RewriteIsa RewriteScan.

Open Scope Z_scope.

(** C21: the software single-step finds the one next instruction.  Every B, BL,
    B.cond, CBZ/CBNZ, TBZ/TBNZ, BR, BLR and RET, with any operands, flags and
    registers, is decoded to the program counter the architecture gives it, and
    a word outside the branch, exception and system group falls through to the
    next word. *)
Theorem single_step_decodes (copyin : Z -> option Z) (r : cng_uregs) :
  (forall i, branch_ok i -> copyin (u_pc r) = Some (encode i) ->
     cng_pt_next_pc copyin r = branch_next i r) /\
  (forall w, copyin (u_pc r) = Some w -> Z.land w 0x1C000000 <> 0x14000000 ->
     cng_pt_next_pc copyin r = u64 (u_pc r + 4)).
Proof. split; [apply next_pc_branch|apply next_pc_other]. Qed.

Lemma single_step_decodes_witness :
  let r := Uregs (fun n => if (n =? 3)%nat then 0 else 5) 0 0x1000 0 in
  cng_pt_next_pc (fun _ => Some (encode (Icb true false 0x20 3))) r = 0x1080.
Proof.
  intros r.
  rewrite (proj1 (single_step_decodes (fun _ => Some (encode (Icb true false 0x20 3))) r)
    (Icb true false 0x20 3)); [reflexivity|vm_compute; intuition congruence|reflexivity].
Defined.

(** the branch encoder and the decoder agree: [b_insn] answers 0 exactly
    when the target is out of a branch's reach or misaligned, and otherwise a
    word that, executed at [at_], goes to the target. *)
Theorem branch_roundtrip (at_ target : Z) (Ha : uaddr at_) (Ht : uaddr target) :
  (b_insn at_ target <> 0 <->
   - 2 ^ 27 <= target - at_ < 2 ^ 27 /\ (target - at_) mod 4 = 0) /\
  (b_insn at_ target <> 0 ->
   forall copyin r, u_pc r = at_ -> copyin at_ = Some (b_insn at_ target) ->
   cng_pt_next_pc copyin r = target).
Proof.
  split; [|intros Hne copyin r Hpc Hc; by apply (b_insn_goes at_ target copyin r)].
  pose proof (b_insn_spec at_ target Ha Ht) as Hs. case_decide as Hd; [|tauto].
  split; [done|]. intros _. destruct Hs as (imm & Hi & -> & _). cbn. lia.
Qed.

Lemma branch_roundtrip_witness :
  b_insn 0x1000 0x2040 <> 0 /\
  cng_pt_next_pc (fun _ => Some (b_insn 0x1000 0x2040)) (Uregs (fun _ => 0) 0 0x1000 0)
  = 0x2040.
Proof.
  assert (Ha : uaddr 0x1000) by (split; [lia|reflexivity]).
  assert (Ht : uaddr 0x2040) by (split; [lia|reflexivity]).
  destruct (branch_roundtrip 0x1000 0x2040 Ha Ht) as [_ H].
  assert (Hne : b_insn 0x1000 0x2040 <> 0) by (vm_compute; discriminate).
  split; [exact Hne|]. apply H; [exact Hne|reflexivity|reflexivity].
Defined.

(** ** The scan *)

(** Where control goes from a word of memory. *)
Definition goes (m : wmem) (a target : Z) : Prop :=
  forall r, u_pc r = a -> cng_pt_next_pc (fun x => Some (m x)) r = target.

(** C23: rewriting a segment changes nothing but [svc #0] words of the segment
    and the pool, and terminates.  The rewritten sites are distinct [svc #0]
    words inside the segment, none of them a signal return, one per unit of the
    count; each now branches to its own copy of the trampoline in the pool, the
    copies disjoint and within the pool's capacity, each copy the template with
    the dispatcher's address and the site's return address, and its return
    branch leads back to the word after the site. *)
Theorem rewrite_seg_sound (T : tramp) (lo hi foff pool cap used count : Z) (m : wmem)
    (cr : code_ranges) (HT : tramp_ok T) (Hlh : lo < hi) (Hlo : uaddr lo)
    (Hhi : hi < 2 ^ 61) (Hpool : uaddr pool) (Hend : uaddr (pool + cap))
    (Hused : 0 <= used <= cap) (Hdisj : hi <= pool \/ pool + cap <= lo)
    (Hfoff : 0 <= foff) (Hfend : foff + (hi - lo) < 2 ^ 62)
    (Hcr : Forall (fun r => 0 <= r.1 < 2 ^ 64 /\ 0 <= r.2 < 2 ^ 64) cr) :
  exists st' L,
    cng_rewrite_seg T true lo hi foff cr pool cap (ScanSt m used count) = Some st' /\
    sc_count st' = count + Z.of_nat (length L) /\ NoDup L /\
    sc_used st' = used + cng_tramp_size T * Z.of_nat (length L) /\ sc_used st' <= cap /\
    (forall b, ~ (pool + used <= b < pool + cap) -> b ∉ L -> sc_mem st' b = m b) /\
    (forall i b, L !! i = Some b ->
       let slot := pool + used + cng_tramp_size T * Z.of_nat i in
       lo <= b /\ b + 4 <= hi /\ b mod 4 = 0 /\ m b = SVC0_INSN /\
       (lo + 4 <= b -> movz_nr (m (b - 4)) NR_RT_SIGRETURN = false) /\
       goes (sc_mem st') b slot /\ tramp_at T (sc_mem st') slot (b + 4) /\
       goes (sc_mem st') (slot + t_back T) (b + 4)).
Proof.
  destruct (rewrite_seg_runs T lo hi foff pool cap used count m cr HT Hlh Hlo Hhi Hpool Hend
    Hused Hdisj Hfoff Hfend Hcr) as (L & st' & E & Eu & Hcap & Ec & Hnd & Hs & Hm).
  exists st', L. do 5 (split; [done|]). split; [done|]. intros i b Hi.
  destruct (Hs i b Hi) as (S1 & S2 & S3 & S4 & S5 & S6 & S7 & S8).
  apply lookup_lt_Some in Hi as Hlt. unfold site_slot in *.
  pose proof (tsz_nonneg T) as Htsz.
  assert (Hslot : 0 <= cng_tramp_size T * Z.of_nat i /\
    used + cng_tramp_size T * Z.of_nat i + cng_tramp_size T <= cap) by nia.
  destruct HT as (_ & _ & _ & T1 & T2 & T3 & T4 & _).
  do 5 (split; [done|]). split; [|split; [done|]].
  - intros r Hr. eapply b_insn_goes; [| |exact S7|exact Hr|by rewrite S6];
      unfold uaddr in *; lia.
  - destruct S8 as (_ & B1 & B2 & _). intros r Hr.
    eapply b_insn_goes; [| |exact B2|exact Hr|by rewrite B1]; unfold uaddr in *; lia.
Qed.

(** A template of six words, a page with one [svc #0] in it, and a pool behind. *)
Definition tramp0 : tramp := Tramp [0xD10483FF; 0xD4200000; 0; 0; 0; 0] 8 16 4 0x12345678.
Definition mem0 : wmem := fun a => if a =? 0x1008 then SVC0_INSN else 0xD503201F.

Lemma rewrite_seg_sound_witness :
  tramp_ok tramp0 /\
  exists st', cng_rewrite_seg tramp0 true 0x1000 0x1010 0 [(8, 16)] 0x2000 0x100
                (ScanSt mem0 0 0) = Some st' /\ sc_count st' = 1 /\
              sc_mem st' 0x1000 = 0xD503201F.
Proof.
  assert (HT : tramp_ok tramp0) by (repeat split; vm_compute; discriminate || reflexivity).
  split; [exact HT|].
  destruct (rewrite_seg_sound tramp0 0x1000 0x1010 0 0x2000 0x100 0 0 mem0 [(8, 16)] HT)
    as (st' & L & E & Hc & _ & _ & _ & Hm & _); try (unfold uaddr; lia).
  { constructor; [simpl; lia|constructor]. }
  exists st'. split; [exact E|]. vm_compute in E. injection E as <-.
  split; reflexivity.
Defined.

(** ** The code map *)

(** where [cng_code_ranges] answers a code map, it is exactly the bytes of
    the sections the object's headers call allocated, executable and present in
    the file: nothing else is ever scanned, and none of them is left out; the
    ranges are non-empty, do not wrap, and fit the table. *)
Theorem code_ranges_exact (f : list Z) (Hf : Forall byte_ok f)
    (Hlen : Z.of_nat (length f) < 2 ^ 62) (Hne : cng_code_ranges (Some f) <> []) :
  ranges_ok (cng_code_ranges (Some f)) /\
  forall x, covers (cng_code_ranges (Some f)) x <->
    exists s, In s (headers f (Z.to_nat (le_at f 40 8)) 0 (Z.to_nat (le_at f 60 2))) /\
              code_byte s x.
Proof. by apply code_ranges_spec. Qed.

Fixpoint le_bytes (n : nat) (v : Z) : list Z :=
  match n with O => [] | S n' => v mod 256 :: le_bytes n' (v / 256) end.

(** An ELF of a header and two executable sections back to back. *)
Definition elf0 : list Z :=
  [0x7f; 69; 76; 70; 2] ++ replicate 13 0 ++ le_bytes 2 183 ++ replicate 20 0
  ++ le_bytes 8 64 ++ replicate 10 0 ++ le_bytes 2 64 ++ le_bytes 2 2 ++ [0; 0]
  ++ (le_bytes 4 0 ++ le_bytes 4 1 ++ le_bytes 8 6 ++ le_bytes 8 0 ++ le_bytes 8 192
      ++ le_bytes 8 16 ++ replicate 24 0)
  ++ (le_bytes 4 0 ++ le_bytes 4 1 ++ le_bytes 8 6 ++ le_bytes 8 0 ++ le_bytes 8 208
      ++ le_bytes 8 32 ++ replicate 24 0).

Lemma code_ranges_exact_witness :
  cng_code_ranges (Some elf0) = [(192, 240)] /\
  (covers [(192, 240)] 200 <->
   exists s, In s (headers elf0 64 0 2) /\ code_byte s 200).
Proof.
  assert (E : cng_code_ranges (Some elf0) = [(192, 240)]) by (vm_compute; reflexivity).
  split; [exact E|].
  destruct (code_ranges_exact elf0) as [_ H].
  - unfold byte_ok. apply List.Forall_forall. intros b Hb. vm_compute in Hb.
    repeat (destruct Hb as [<-|Hb]; [lia|]). destruct Hb.
  - vm_compute. reflexivity.
  - rewrite E. discriminate.
  - rewrite E in H. apply (H 200).
Defined.
