(* ===== verification/Cred.v ===== *)
(** * The fake identity (src/src/monitor/cred.c, include/cng/monitor.h)

    The credential set and the syscalls that read and change it.  The uid and
    gid halves of the set are one record type, since the code for each is the
    mirror of the other.  The guest's memory is [umem], words by address, with
    [None] where nothing is mapped; what the kernel answers is [kern].  The
    publication of a set is in [Publish]. *)

From stdpp Require Import base list numbers.
From Stdlib Require Import ZArith Lia.
From S2P Require Import Prelude IpcData.

Open Scope Z_scope.

Definition ID_KEEP := 2 ^ 32 - 1.
Definition CNG_NGROUPS_MAX : nat := 1024.

(** Real, effective, saved and fs id. *)
Record idset := IdSet { i_r : Z; i_e : Z; i_s : Z; i_fs : Z }.

#[export] Instance idset_eq_dec : EqDecision idset.
Proof. solve_decision. Defined.

Record cng_cred := Cred { c_u : idset; c_g : idset; c_groups : list Z }.

(** The configuration the flags leave. *)
Record cfg := Cfg {
  g_fake_id : bool; g_fake_id_explicit : bool;
  g_fake_uid : Z; g_fake_gid : Z; g_host_uid : Z; g_host_gid : Z;
  g_setuid_root : bool; g_setgid_root : bool }.

Definition cng_cred_seed (G : cfg) : cng_cred :=
  let same x := IdSet x x x x in
  Cred (same (g_fake_uid G)) (same (g_fake_gid G)) [].

Definition cng_cred_setup (G : cfg) (host_uid host_gid : Z) : cfg * cng_cred :=
  let G := Cfg (g_fake_id G) (g_fake_id_explicit G)
             (if g_fake_id_explicit G then g_fake_uid G else host_uid)
             (if g_fake_id_explicit G then g_fake_gid G else host_gid)
             host_uid host_gid (g_setuid_root G) (g_setgid_root G) in
  (G, cng_cred_seed G).

Definition cng_remap_uid (G : cfg) (u : Z) : Z :=
  if g_fake_id G && (u =? g_host_uid G) then g_fake_uid G else u.
Definition cng_remap_gid (G : cfg) (g : Z) : Z :=
  if g_fake_id G && (g =? g_host_gid G) then g_fake_gid G else g.

Definition CNG_S_IFMT := 61440.  (* 0170000 *)
Definition CNG_S_IFREG := 32768. (* 0100000 *)
Definition CNG_S_ISUID := 2048.  (* 04000 *)
Definition CNG_S_ISGID := 1024.  (* 02000 *)

Definition setid_reg (mode bit : Z) : bool :=
  has_flag mode bit && (Z.land mode CNG_S_IFMT =? CNG_S_IFREG).

Definition cng_exec_vis_uid (G : cfg) (u mode : Z) : Z :=
  if g_setuid_root G && setid_reg mode CNG_S_ISUID then 0 else cng_remap_uid G u.
Definition cng_exec_vis_gid (G : cfg) (g mode : Z) : Z :=
  if g_setgid_root G && setid_reg mode CNG_S_ISGID then 0 else cng_remap_gid G g.

(** [st] is the stat of the program, where there is a path and it answers: its
    mode, owner and group. *)
Definition cng_cred_exec (G : cfg) (st : option (Z * Z * Z)) (c : cng_cred) : cng_cred :=
  if negb (g_fake_id G) then c
  else
    let '(eu, eg) :=
      match st with
      | Some (mode, uid, gid) =>
          if g_setuid_root G || g_setgid_root G then
            (if g_setuid_root G && setid_reg mode CNG_S_ISUID
             then cng_exec_vis_uid G uid mode else i_e (c_u c),
             if g_setgid_root G && setid_reg mode CNG_S_ISGID
             then cng_exec_vis_gid G gid mode else i_e (c_g c))
          else (i_e (c_u c), i_e (c_g c))
      | None => (i_e (c_u c), i_e (c_g c))
      end in
    Cred (IdSet (i_r (c_u c)) eu eu eu) (IdSet (i_r (c_g c)) eg eg eg) (c_groups c).

(** ** The rules *)

Definition cred_priv (c : cng_cred) : bool := i_e (c_u c) =? 0.

Definition in_set (i : idset) (v : Z) : bool :=
  (v =? i_r i) || (v =? i_e i) || (v =? i_s i).

(** setuid(2) and setgid(2): the new ids, or -errno. *)
Definition do_setid (i : idset) (priv : bool) (u : Z) : Z * idset :=
  if u =? ID_KEEP then (- EINVAL, i)
  else if priv then (0, IdSet u u u u)
  else if (u =? i_r i) || (u =? i_s i) then (0, IdSet (i_r i) u (i_s i) u)
  else (- EPERM, i).

(** setreuid(2) and setregid(2). *)
Definition do_setreid (i : idset) (priv : bool) (r e : Z) : Z * idset :=
  if negb (r =? ID_KEEP) && negb priv && negb (r =? i_r i) && negb (r =? i_e i)
  then (- EPERM, i)
  else
    let nr := if negb (r =? ID_KEEP) then r else i_r i in
    if negb (e =? ID_KEEP) && negb priv && negb (e =? i_r i) && negb (e =? i_e i)
       && negb (e =? i_s i)
    then (- EPERM, i)
    else
      let ne := if negb (e =? ID_KEEP) then e else i_e i in
      let ns := if negb (r =? ID_KEEP) || (negb (e =? ID_KEEP) && negb (e =? i_r i))
                then ne else i_s i in
      (0, IdSet nr ne ns ne).

(** setresuid(2) and setresgid(2). *)
Definition do_setresid (i : idset) (priv : bool) (r e s : Z) : Z * idset :=
  let bad v := negb (v =? ID_KEEP) && negb (in_set i v) in
  if negb priv && (bad r || bad e || bad s) then (- EPERM, i)
  else
    let keep v old := if negb (v =? ID_KEEP) then v else old in
    let ne := keep e (i_e i) in
    (0, IdSet (keep r (i_r i)) ne (keep s (i_s i)) ne).

(** setfsuid(2) and setfsgid(2): the previous fs id. *)
Definition do_setfsid (i : idset) (priv : bool) (u : Z) : Z * idset :=
  if negb (u =? ID_KEEP) && (priv || in_set i u || (u =? i_fs i))
  then (i_fs i, IdSet (i_r i) (i_e i) (i_s i) u)
  else (i_fs i, i).

Definition on_u (c : cng_cred) (p : Z * idset) : Z * cng_cred :=
  (p.1, Cred p.2 (c_g c) (c_groups c)).
Definition on_g (c : cng_cred) (p : Z * idset) : Z * cng_cred :=
  (p.1, Cred (c_u c) p.2 (c_groups c)).

Definition do_setuid (c : cng_cred) (priv : bool) (u : Z) := on_u c (do_setid (c_u c) priv u).
Definition do_setgid (c : cng_cred) (priv : bool) (g : Z) := on_g c (do_setid (c_g c) priv g).
Definition do_setreuid (c : cng_cred) (priv : bool) (r e : Z) :=
  on_u c (do_setreid (c_u c) priv r e).
Definition do_setregid (c : cng_cred) (priv : bool) (r e : Z) :=
  on_g c (do_setreid (c_g c) priv r e).
Definition do_setresuid (c : cng_cred) (priv : bool) (r e s : Z) :=
  on_u c (do_setresid (c_u c) priv r e s).
Definition do_setresgid (c : cng_cred) (priv : bool) (r e s : Z) :=
  on_g c (do_setresid (c_g c) priv r e s).
Definition do_setfsuid (c : cng_cred) (priv : bool) (u : Z) := on_u c (do_setfsid (c_u c) priv u).
Definition do_setfsgid (c : cng_cred) (priv : bool) (g : Z) := on_g c (do_setfsid (c_g c) priv g).

(** ** The guest's memory *)

Definition umem := Z -> option Z.

(** [cng_user_copyin] of [n] words. *)
Fixpoint copyin (m : umem) (p : Z) (n : nat) : option (list Z) :=
  match n with
  | O => Some []
  | S n' => if p =? 0 then None
            else w ← m p; ws ← copyin m (u64 (p + 4)) n'; Some (w :: ws)
  end.

(** [cng_user_copyout]: whether all went across, and the memory; a range that
    ends early has taken the words before the end. *)
Fixpoint copyout (m : umem) (p : Z) (ws : list Z) : bool * umem :=
  match ws with
  | [] => (true, m)
  | w :: ws' =>
      match (if p =? 0 then None else m p) with
      | None => (false, m)
      | Some _ => copyout (fun a => if a =? p then Some w else m a) (u64 (p + 4)) ws'
      end
  end.

(** ** Groups *)

Definition do_setgroups (m : umem) (c : cng_cred) (priv : bool) (n g : Z)
    : Z * cng_cred :=
  if negb priv then (- EPERM, c)
  else if (n <? 0) || (Z.of_nat CNG_NGROUPS_MAX <? n) then (- EINVAL, c)
  else match copyin m g (Z.to_nat n) with
  | None => (- EFAULT, c)
  | Some got =>
      if existsb (fun v => v =? ID_KEEP) got then (- EINVAL, c)
      else (0, Cred (c_u c) (c_g c) got)
  end.

Definition do_getgroups (m : umem) (c : cng_cred) (size g : Z) : Z * umem :=
  let n := Z.of_nat (length (c_groups c)) in
  if size =? 0 then (n, m)
  else if size <? n then (- EINVAL, m)
  else
    let '(ok, m) := copyout m g (c_groups c) in
    if ok then (n, m) else (- EFAULT, m).

(** ** Capabilities *)

Definition CAP_VER_1 := 0x19980330.
Definition CAP_VER_2 := 0x20071026.
Definition CAP_VER_3 := 0x20080522.
Definition CAP_ALL := 2 ^ 32 - 1.

(** The header's pid and how many data blocks it asks for, or -errno. *)
Definition cap_magic (m : umem) (hdr : Z) : (Z + Z * nat) * umem :=
  match copyin m hdr 2 with
  | Some [ver; pid] =>
      if ver =? CAP_VER_1 then (inr (s32 pid, 1%nat), m)
      else if (ver =? CAP_VER_2) || (ver =? CAP_VER_3) then (inr (s32 pid, 2%nat), m)
      else
        let '(ok, m) := copyout m hdr [CAP_VER_3] in
        (inl (if ok then - EINVAL else - EFAULT), m)
  | _ => (inl (- EFAULT), m)
  end.

(** What the kernel and the process registry say of a pid: it is a thread of
    ours; the effective uid a guest process has published, or the configured
    one; or neither ([reissue] answers). *)
Inductive cap_target := TSelf | TGuest (published : option Z) | THost.

Record kern := Kern {
  k_target : Z -> cap_target;
  k_gettid : Z;
  k_cap_last : Z;                      (* the last capability, 32..63 *)
  k_reissue : Z -> Z -> Z -> Z -> Z }. (* nr, a0, a1, a2 *)

Definition blocks_of (n : nat) (e p i : Z) : list Z := concat (replicate n [e; p; i]).

Definition do_capget (G : cfg) (K : kern) (m : umem) (c : cng_cred) (hdr data : Z)
    : Z * umem :=
  let '(r, m) := cap_magic m hdr in
  match r with
  | inl e => (if (data =? 0) && (e =? - EINVAL) then 0 else e, m)
  | inr (pid, n) =>
      if data =? 0 then (0, m)
      else if pid <? 0 then (- EINVAL, m)
      else
        let answer all :=
          let '(ok, m) := copyout m data (blocks_of n all all 0) in
          (if ok then 0 else - EFAULT, m) in
        let root (eu : Z) := if eu =? 0 then CAP_ALL else 0 in
        match (if pid =? 0 then TSelf else k_target K pid) with
        | TSelf => answer (root (i_e (c_u c)))
        | TGuest p => answer (root (default (g_fake_uid G) p))
        | THost => (k_reissue K 90 hdr data 0, m)
        end
  end.

Definition cap_high_mask (K : kern) : Z :=
  let last := if k_cap_last K <? 32 then 40 else k_cap_last K in
  u32 (Z.shiftl 2 (last - 32) - 1).

(** One data block of a capset, as the fake set judges it: refused where true. *)
Definition cap_refused (root : bool) (e p i : Z) : bool :=
  if root then negb (Z.ldiff e p =? 0) else negb (Z.lor (Z.lor e p) i =? 0).

Definition do_capset (K : kern) (m : umem) (c : cng_cred) (hdr data : Z) : Z * umem :=
  let '(r, m) := cap_magic m hdr in
  match r with
  | inl e => (e, m)
  | inr (pid, n) =>
      if negb (pid =? 0) && negb (pid =? k_gettid K) then (- EPERM, m)
      else match copyin m data (3 * n) with
      | None => (- EFAULT, m)
      | Some ws =>
          let root := cred_priv c in
          let hi := cap_high_mask K in
          let at_ k := default 0 (ws !! k) in
          let bad0 := cap_refused root (at_ 0%nat) (at_ 1%nat) (at_ 2%nat) in
          let bad1 := cap_refused root (Z.land (at_ 3%nat) hi) (Z.land (at_ 4%nat) hi)
                        (Z.land (at_ 5%nat) hi) in
          (if bad0 || ((n =? 2)%nat && bad1) then - EPERM else 0, m)
      end
  end.

(** ** The dispatcher *)

Inductive cred_nr :=
  | NRgetuid | NRgeteuid | NRgetgid | NRgetegid | NRgetresuid | NRgetresgid
  | NRsetuid | NRsetgid | NRsetreuid | NRsetregid | NRsetresuid | NRsetresgid
  | NRsetfsuid | NRsetfsgid | NRsetgroups | NRgetgroups | NRcapget | NRcapset
  | NRother.

(** The setters, against any set with the privileges given. *)
Definition run_setter (m : umem) (c : cng_cred) (up gp : bool) (nr : cred_nr)
    (a0 a1 a2 : Z) : option (Z * cng_cred) :=
  let u0 := u32 a0 in let u1 := u32 a1 in let u2 := u32 a2 in
  match nr with
  | NRsetuid => Some (do_setuid c up u0)
  | NRsetgid => Some (do_setgid c gp u0)
  | NRsetreuid => Some (do_setreuid c up u0 u1)
  | NRsetregid => Some (do_setregid c gp u0 u1)
  | NRsetresuid => Some (do_setresuid c up u0 u1 u2)
  | NRsetresgid => Some (do_setresgid c gp u0 u1 u2)
  | NRsetfsuid => Some (do_setfsuid c up u0)
  | NRsetfsgid => Some (do_setfsgid c gp u0)
  | NRsetgroups => Some (do_setgroups m c gp (s32 a0) a1)
  | _ => None
  end.

(** [CRED_SET]: the copy is published only where the call succeeded. *)
Definition CRED_SET (c : cng_cred) (r : Z * cng_cred) : Z * cng_cred :=
  if 0 <=? r.1 then r else (r.1, c).

Definition getres (m : umem) (i : idset) (a0 a1 a2 : Z) : Z * umem :=
  let '(ok, m) := copyout m a0 [i_r i] in
  if negb ok then (- EFAULT, m)
  else let '(ok, m) := copyout m a1 [i_e i] in
  if negb ok then (- EFAULT, m)
  else let '(ok, m) := copyout m a2 [i_s i] in
  if negb ok then (- EFAULT, m) else (0, m).

(** With --fake-id: the answer, the set and the guest's memory. *)
Definition cng_cred_handle (G : cfg) (K : kern) (m : umem) (c : cng_cred)
    (nr : cred_nr) (a0 a1 a2 : Z) : Z * cng_cred * umem :=
  match nr with
  | NRgetuid => (i_r (c_u c), c, m)
  | NRgeteuid => (i_e (c_u c), c, m)
  | NRgetgid => (i_r (c_g c), c, m)
  | NRgetegid => (i_e (c_g c), c, m)
  | NRgetresuid => let '(r, m) := getres m (c_u c) a0 a1 a2 in (r, c, m)
  | NRgetresgid => let '(r, m) := getres m (c_g c) a0 a1 a2 in (r, c, m)
  | NRgetgroups => let '(r, m) := do_getgroups m c (s32 a0) a1 in (r, c, m)
  | NRcapget => let '(r, m) := do_capget G K m c a0 a1 in (r, c, m)
  | NRcapset => let '(r, m) := do_capset K m c a0 a1 in (r, c, m)
  | NRother => (- ENOSYS, c, m)
  | _ =>
      match run_setter m c (cred_priv c) (cred_priv c) nr a0 a1 a2 with
      | Some r => let '(z, c) := CRED_SET c r in (z, c, m)
      | None => (- ENOSYS, c, m)
      end
  end.

(** ** Without --fake-id: a setter the host refuses *)

(** The inner loop of the insertion sort: [x] sinks into the sorted [l]. *)
Fixpoint sink (x : Z) (l : list Z) : list Z :=
  match l with
  | [] => [x]
  | y :: l' => if x <? y then x :: l else y :: sink x l'
  end.
Definition sort_groups (l : list Z) : list Z := fold_left (fun acc x => sink x acc) l [].

Definition same_cred (a b : cng_cred) : bool :=
  bool_decide (c_u a = c_u b) && bool_decide (c_g a = c_g b)
  && (length (c_groups a) =? length (c_groups b))%nat
  && bool_decide (sort_groups (c_groups a) = sort_groups (c_groups b)).

(** [was] is what [real_ids] read (with the privileges the capability set
    gives), [groups] the host's own list where it can be read. *)
Definition real_set (m : umem) (was : option (cng_cred * bool * bool))
    (groups : option (list Z)) (nr : cred_nr) (a0 a1 a2 : Z) : Z :=
  match was with
  | None => - ENOSYS
  | Some (was, up, gp) =>
      match run_setter m (Cred (c_u was) (c_g was) []) up gp nr a0 a1 a2 with
      | None => - ENOSYS
      | Some (r, c) =>
          let same :=
            match nr with
            | NRsetgroups =>
                match groups with
                | Some l => same_cred (Cred (c_u was) (c_g was) l) c
                | None => false
                end
            | _ => same_cred (Cred (c_u was) (c_g was) []) c
            end in
          if (r <? 0) || same then r
          else match nr with NRsetfsuid | NRsetfsgid => r | _ => - EPERM end
      end
  end.
