(* ===== verification/CredProps.v ===== *)
(** * The fake identity: the properties *)

From stdpp Require Import base list numbers.
From Stdlib Require Import ZArith Lia Permutation.
From S2P Require Import Prelude IpcData Cred.

Open Scope Z_scope.

(** ** Moving among one's own ids *)

(** Every id a call can leave is one of those it found. *)
Definition within (i i' : idset) : Prop :=
  in_set i (i_r i') = true /\ in_set i (i_e i') = true /\ in_set i (i_s i') = true.

Lemma within_refl i : within i i.
Proof. unfold within, in_set. rewrite !Z.eqb_refl, !orb_true_r. auto. Qed.

Lemma in_set_trans i i' v : within i i' -> in_set i' v = true -> in_set i v = true.
Proof.
  intros (H1 & H2 & H3) H. unfold in_set in H at 1. bprop.
  destruct H as [[->| ->]| ->]; done.
Qed.

Lemma within_trans i1 i2 i3 : within i1 i2 -> within i2 i3 -> within i1 i3.
Proof.
  intros H12 (H1 & H2 & H3). repeat split; by eapply in_set_trans.
Qed.

Lemma in_set_own i : in_set i (i_r i) = true /\ in_set i (i_e i) = true /\ in_set i (i_s i) = true.
Proof. apply within_refl. Qed.

Lemma setid_within i u : within i (do_setid i false u).2.
Proof.
  pose proof (in_set_own i) as (H1 & H2 & H3). unfold do_setid.
  case_if; [apply within_refl|]. case_if; [|apply within_refl].
  unfold within. simpl. bprop. destruct Eif0 as [->| ->]; auto.
Qed.

Lemma setreid_within i r e : within i (do_setreid i false r e).2.
Proof.
  pose proof (in_set_own i) as (H1 & H2 & H3). unfold do_setreid.
  cbn [negb]. rewrite !andb_true_r.
  destruct (_ && _ && _) eqn:Er; [apply within_refl|].
  destruct (_ && _ && _ && _) eqn:Ee; [apply within_refl|].
  assert (Hr : in_set i (if negb (r =? ID_KEEP) then r else i_r i) = true).
  { case_if; [|done]. unfold in_set. bprop. intuition congruence. }
  assert (He : in_set i (if negb (e =? ID_KEEP) then e else i_e i) = true).
  { case_if; [|done]. unfold in_set. bprop. intuition congruence. }
  unfold within. cbn [snd i_r i_e i_s]. split; [done|]. split; [done|]. by case_if.
Qed.

Lemma setresid_within i r e s : within i (do_setresid i false r e s).2.
Proof.
  pose proof (in_set_own i) as (H1 & H2 & H3). unfold do_setresid.
  destruct (negb false && _) eqn:Eb; [apply within_refl|]. cbn [negb andb] in Eb.
  apply orb_false_iff in Eb as [[Er Ee]%orb_false_iff Es].
  assert (Hk : forall v old, negb (v =? ID_KEEP) && negb (in_set i v) = false ->
    in_set i old = true -> in_set i (if negb (v =? ID_KEEP) then v else old) = true).
  { intros v old Hv Ho. case_if; [|done]. bprop. intuition congruence. }
  unfold within. cbn [snd i_r i_e i_s]. auto.
Qed.

Lemma setfsid_within i priv u : within i (do_setfsid i priv u).2.
Proof.
  pose proof (in_set_own i). unfold do_setfsid. case_if; [done|apply within_refl].
Qed.

(** One call of an unprivileged process. *)
Lemma setter_within m c nr a0 a1 a2 r :
  run_setter m c false false nr a0 a1 a2 = Some r ->
  within (c_u c) (c_u r.2) /\ within (c_g c) (c_g r.2) /\ c_groups r.2 = c_groups c.
Proof.
  unfold run_setter. destruct nr; intros H; simplify_eq; cbn [on_u on_g snd c_u c_g c_groups
    do_setuid do_setgid do_setreuid do_setregid do_setresuid do_setresgid do_setfsuid
    do_setfsgid]; auto using within_refl, setid_within, setreid_within, setresid_within,
    setfsid_within.
Qed.

(** A process' life between two execs: a sequence of calls, each meeting its
    own memory. *)
Definition call : Type := umem * cred_nr * Z * Z * Z.
Definition run_call (G : cfg) (K : kern) (c : cng_cred) (x : call) : cng_cred :=
  let '(m, nr, a0, a1, a2) := x in (cng_cred_handle G K m c nr a0 a1 a2).1.2.
Definition run_calls (G : cfg) (K : kern) (c : cng_cred) (xs : list call) : cng_cred :=
  fold_left (run_call G K) xs c.

Lemma run_call_within G K c x :
  i_e (c_u c) <> 0 ->
  within (c_u c) (c_u (run_call G K c x)) /\ within (c_g c) (c_g (run_call G K c x)) /\
  c_groups (run_call G K c x) = c_groups c.
Proof.
  intros He. destruct x as [[[[m nr] a0] a1] a2]. unfold run_call, cng_cred_handle.
  assert (Hp : cred_priv c = false) by (unfold cred_priv; by apply Z.eqb_neq).
  rewrite Hp.
  assert (Hsame : within (c_u c) (c_u c) /\ within (c_g c) (c_g c) /\
    c_groups c = c_groups c) by auto using within_refl.
  assert (Hset : let x := match run_setter m c false false nr a0 a1 a2 with
    | Some r => let '(z, c') := CRED_SET c r in (z, c', m)
    | None => (- ENOSYS, c, m) end in
    within (c_u c) (c_u x.1.2) /\ within (c_g c) (c_g x.1.2) /\ c_groups x.1.2 = c_groups c).
  { destruct (run_setter m c false false nr a0 a1 a2) as [r|] eqn:Er; [|done].
    apply setter_within in Er. unfold CRED_SET. destruct (0 <=? r.1); simpl; [|done].
    destruct r; done. }
  destruct nr; try exact Hset; try exact Hsame;
    match goal with |- context [let '(_, _) := ?t in _] => destruct t as [z m'] end;
    exact Hsame.
Qed.

Lemma run_calls_within G K xs : forall c,
  i_r (c_u c) <> 0 -> i_e (c_u c) <> 0 -> i_s (c_u c) <> 0 ->
  within (c_u c) (c_u (run_calls G K c xs)) /\
  within (c_g c) (c_g (run_calls G K c xs)) /\
  c_groups (run_calls G K c xs) = c_groups c.
Proof.
  induction xs as [|x xs IH]; intros c Hr He Hs; simpl; [auto using within_refl|].
  destruct (run_call_within G K c x He) as (H1 & H2 & H3).
  assert (Hn : forall v, in_set (c_u c) v = true -> v <> 0).
  { intros v Hv ->. unfold in_set in Hv. bprop. destruct Hv as [[?|?]|?]; congruence. }
  destruct H1 as (A & B & C).
  destruct (IH (run_call G K c x)) as (H1' & H2' & H3'); auto.
  split; [eapply within_trans; [by split|done]|]. split; [by eapply within_trans|].
  congruence.
Qed.


Definition cfg0 : cfg := Cfg true true 0 0 2000 2000 false false.
Definition kern0 : kern := Kern (fun _ => TSelf) 7 40 (fun _ _ _ _ => 0).
Definition umem0 : umem := fun a => if (4096 <=? a) && (a <? 8192) then Some 0 else None.
Definition cred_user : cng_cred :=
  Cred (IdSet 1000 1001 1000 1001) (IdSet 100 100 100 100) [5; 6].


(** An exec of a program that elevates nobody closes the way back: the
    saved and fs ids become the effective ones, the real ids and the groups
    stay, so a process whose real and effective uids are not 0 cannot become
    root after the exec even where its saved uid was 0. *)
Theorem exec_closes_saved_root (G : cfg) (K : kern) (c : cng_cred)
    (st : option (Z * Z * Z)) (xs : list call) (Hfake : g_fake_id G = true)
    (Hr : i_r (c_u c) <> 0) (He : i_e (c_u c) <> 0)
    (Hplain : match st with
              | Some (mode, _, _) => setid_reg mode CNG_S_ISUID = false
              | None => True
              end) :
  let c1 := cng_cred_exec G st c in
  i_s (c_u c1) = i_e (c_u c) /\ i_fs (c_u c1) = i_e (c_u c) /\ i_r (c_u c1) = i_r (c_u c) /\
  c_groups c1 = c_groups c /\ i_s (c_g c1) = i_e (c_g c1) /\
  i_e (c_u (run_calls G K c1 xs)) <> 0.
Proof.
  assert (Hu : c_u (cng_cred_exec G st c)
               = IdSet (i_r (c_u c)) (i_e (c_u c)) (i_e (c_u c)) (i_e (c_u c))
           /\ c_groups (cng_cred_exec G st c) = c_groups c
           /\ i_s (c_g (cng_cred_exec G st c)) = i_e (c_g (cng_cred_exec G st c))).
  { unfold cng_cred_exec. rewrite Hfake. cbn [negb].
    destruct st as [[[mode uid] gid]|]; [|done].
    destruct (g_setuid_root G || g_setgid_root G); [|done].
    rewrite Hplain, andb_false_r. done. }
  destruct Hu as (Hu & Hgr & Hg). cbv zeta. rewrite Hu. cbn [i_r i_e i_s i_fs].
  do 4 (split; [done|]). split; [done|].
  destruct (run_calls_within G K xs (cng_cred_exec G st c)) as ((_ & H & _) & _);
    [rewrite Hu; done..|].
  intros E. rewrite E, Hu in H. unfold in_set in H. cbn [i_r i_e i_s] in H. bprop.
  destruct H as [[?|?]|?]; congruence.
Qed.

Lemma exec_closes_saved_root_witness :
  i_s (c_u (cng_cred_exec cfg0 (Some (33261, 2000, 2000))
              (Cred (IdSet 1000 1000 0 1000) (IdSet 0 0 0 0) []))) = 1000.
Proof.
  apply (exec_closes_saved_root cfg0 kern0 (Cred (IdSet 1000 1000 0 1000) (IdSet 0 0 0 0) [])
           (Some (33261, 2000, 2000)) []); vm_compute; reflexivity || discriminate.
Defined.

(** ** The calls as a whole *)

(** A credential call changes the set as one object or not at all: a
    call that answers an error leaves the set exactly as it was, and one that
    is not a setter always does. *)
Theorem cred_calls_all_or_nothing (G : cfg) (K : kern) (m : umem) (c : cng_cred)
    (nr : cred_nr) (a0 a1 a2 : Z) :
  let '(r, c', m') := cng_cred_handle G K m c nr a0 a1 a2 in
  (r < 0 -> c' = c) /\
  (run_setter m c true true nr a0 a1 a2 = None -> c' = c).
Proof.
  assert (Hset : let '(r, c', m') :=
    match run_setter m c (cred_priv c) (cred_priv c) nr a0 a1 a2 with
    | Some r => let '(z, c') := CRED_SET c r in (z, c', m)
    | None => (- ENOSYS, c, m) end in r < 0 -> c' = c).
  { destruct (run_setter m c _ _ nr a0 a1 a2) as [[z c1]|]; [|done].
    unfold CRED_SET. simpl. case_if; [|done]. bprop. lia. }
  unfold cng_cred_handle. destruct nr;
    try (simpl; auto; fail);
    try (match goal with |- context [let '(_, _) := ?t in (_, c, _)] =>
           destruct t as [z m'] end; auto; fail);
    destruct (match run_setter _ _ _ _ _ _ _ _ with Some _ => _ | None => _ end)
      as [[z c'] m']; (split; [done|by intros]).
Qed.

(** ** The guest's memory *)

Lemma copyout_other ws : forall m p a,
  0 <= p -> p + 4 * Z.of_nat (length ws) <= 2 ^ 63 ->
  ~ (p <= a < p + 4 * Z.of_nat (length ws)) -> (copyout m p ws).2 a = m a.
Proof.
  induction ws as [|w ws IH]; intros m p a Hp He Ha; simpl in *; [done|].
  destruct (if p =? 0 then None else m p); [|done].
  rewrite wrapu_small by lia. rewrite IH by lia.
  rewrite (proj2 (Z.eqb_neq a p)) by lia. done.
Qed.

Lemma copyout_copyin ws : forall m p,
  0 <= p -> p + 4 * Z.of_nat (length ws) <= 2 ^ 63 ->
  (copyout m p ws).1 = true -> copyin (copyout m p ws).2 p (length ws) = Some ws.
Proof.
  induction ws as [|w ws IH]; intros m p Hp He Hok; simpl in *; [done|].
  destruct (p =? 0) eqn:Ep; [done|]. destruct (m p) eqn:Em; [|done].
  rewrite wrapu_small in * by lia.
  rewrite copyout_other by lia. rewrite Z.eqb_refl. simpl. rewrite IH by (lia || done).
  done.
Qed.

Lemma copyin_ext n : forall m m' p,
  0 <= p -> p + 4 * Z.of_nat n <= 2 ^ 63 ->
  (forall a, p <= a < p + 4 * Z.of_nat n -> m' a = m a) -> copyin m' p n = copyin m p n.
Proof.
  induction n as [|n IH]; intros m m' p Hp He Hm; simpl in *; [done|].
  destruct (p =? 0); [done|]. rewrite Hm by lia. rewrite wrapu_small by lia.
  rewrite (IH m m') by (lia || (intros; apply Hm; lia)). done.
Qed.

Lemma copyin_length m n : forall p l, copyin m p n = Some l -> length l = n.
Proof.
  induction n as [|n IH]; intros p l; simpl; [by intros [= <-]|].
  destruct (p =? 0); [done|]. destruct (m p); simpl; [|done].
  destruct (copyin m _ n) eqn:Ek; simpl; [|done]. intros [= <-].
  simpl. f_equal. by eapply IH.
Qed.

Lemma setgroups_getgroups m c n g out size c' :
  do_setgroups m c true n g = (0, c') -> n <= size ->
  0 <= out -> out + 4 * n <= 2 ^ 63 ->
  let '(r, m') := do_getgroups m c' size out in
  r = - EFAULT \/
  r = n /\ (size <> 0 -> copyin m' out (Z.to_nat n) = copyin m g (Z.to_nat n)).
Proof.
  intros Hs Hsz Ho Hoe. unfold do_setgroups in Hs. cbn [negb] in Hs.
  destruct (_ || _) eqn:En; [done|].
  destruct (copyin m g (Z.to_nat n)) as [got|] eqn:Eg; [|done].
  case_if_in Hs; [done|]. injection Hs as <-. bprop.
  assert (Hlen : Z.of_nat (length got) = n) by (rewrite (copyin_length _ _ _ _ Eg); lia).
  unfold do_getgroups. cbn [c_groups]. rewrite Hlen.
  destruct (size =? 0) eqn:Es; [right; bprop; done|].
  rewrite (proj2 (Z.ltb_ge size n)) by lia.
  pose proof (copyout_copyin got m out Ho ltac:(lia)) as Hc.
  destruct (copyout m out got) as [ok m']. simpl in Hc. destruct ok; [|by left].
  right. split; [done|]. intros _. rewrite <-Hlen, Nat2Z.id. by apply Hc.
Qed.

Lemma cap_magic_v3 m hdr : copyin m hdr 2 = Some [CAP_VER_3; 0] -> cap_magic m hdr = (inr (0, 2%nat), m).
Proof. intros H. unfold cap_magic. by rewrite H. Qed.

Lemma capget_capset G K m c hdr data m' :
  0 < hdr -> hdr + 8 <= data -> data + 24 <= 2 ^ 63 ->
  copyin m hdr 2 = Some [CAP_VER_3; 0] ->
  do_capget G K m c hdr data = (0, m') -> (do_capset K m' c hdr data).1 = 0.
Proof.
  intros Hh Hd He Hhdr. unfold do_capget. rewrite (cap_magic_v3 _ _ Hhdr).
  rewrite (proj2 (Z.eqb_neq data 0)) by lia.
  cbn [Z.ltb Z.compare]. cbn iota. change (0 =? 0) with true. cbn iota.
  set (all := if i_e (c_u c) =? 0 then CAP_ALL else 0).
  pose proof (copyout_copyin (blocks_of 2 all all 0) m data ltac:(lia) ltac:(simpl; lia)) as Hc.
  pose proof (copyout_other (blocks_of 2 all all 0) m data) as Hother.
  destruct (copyout m data (blocks_of 2 all all 0)) as [ok m1].
  cbn [fst snd] in Hc, Hother. change (length (blocks_of 2 all all 0)) with 6%nat in Hc, Hother.
  destruct ok; [|discriminate]. intros [= <-]. specialize (Hc eq_refl).
  assert (Eh : copyin m1 hdr 2 = Some [CAP_VER_3; 0]).
  { rewrite <-Hhdr. apply copyin_ext; [lia|simpl; lia|]. intros a Ha. apply Hother; lia. }
  unfold do_capset. rewrite (cap_magic_v3 _ _ Eh). change (negb (0 =? 0)) with false.
  cbn [andb]. change (3 * 2)%nat with 6%nat. rewrite Hc. cbn [fst lookup list_lookup default].
  unfold all, cred_priv, cap_refused.
  destruct (i_e (c_u c) =? 0); cbn; [|done]. by rewrite !Z.ldiff_diag.
Qed.

(** what was installed is what is reported.  A setgroups list that was
    taken is handed back by getgroups, length and contents, to any buffer large
    enough; and the capability set capget reports is one capset accepts back. *)
Theorem cred_reports_roundtrip (G : cfg) (K : kern) (m : umem) (c : cng_cred) :
  (forall n g out size c',
     do_setgroups m c true n g = (0, c') -> n <= size ->
     0 <= out -> out + 4 * n <= 2 ^ 63 ->
     let '(r, m') := do_getgroups m c' size out in
     r = - EFAULT \/
     r = n /\ (size <> 0 -> copyin m' out (Z.to_nat n) = copyin m g (Z.to_nat n))) /\
  (forall hdr data m',
     0 < hdr -> hdr + 8 <= data -> data + 24 <= 2 ^ 63 ->
     copyin m hdr 2 = Some [CAP_VER_3; 0] ->
     do_capget G K m c hdr data = (0, m') -> (do_capset K m' c hdr data).1 = 0).
Proof. split; intros; [by apply setgroups_getgroups with (c := c)|by eapply capget_capset]. Qed.

Lemma cred_reports_roundtrip_witness :
  let m := (copyout umem0 4096 [9; 4; 9]).2 in
  let c' := (do_setgroups m cred_user true 3 4096).2 in
  c_groups c' = [9; 4; 9] /\
  let '(r, m') := do_getgroups m c' 8 5000 in
  r = - EFAULT \/ r = 3 /\ (8 <> 0 -> copyin m' 5000 3 = copyin m 4096 3).
Proof.
  intros m c'. split; [vm_compute; reflexivity|].
  apply (proj1 (cred_reports_roundtrip cfg0 kern0 m cred_user) 3 4096 5000 8 c');
    [vm_compute; reflexivity|lia..].
Defined.

(** ** Setters the host refuses *)

Lemma sink_perm x l : sink x l ≡ₚ x :: l.
Proof.
  induction l as [|y l IH]; simpl; [done|]. case_if; [done|].
  rewrite IH. apply Permutation_swap.
Qed.

Lemma sort_perm l : forall acc, fold_left (fun acc x => sink x acc) l acc ≡ₚ l ++ acc.
Proof.
  induction l as [|x l IH]; intros acc; simpl; [done|].
  rewrite IH, sink_perm. by rewrite Permutation_middle.
Qed.

Lemma sort_groups_perm l : sort_groups l ≡ₚ l.
Proof. unfold sort_groups. rewrite sort_perm. by rewrite app_nil_r. Qed.

(** Sorting forgets the order only. *)
Lemma sink_comm x y l : sink x (sink y l) = sink y (sink x l).
Proof.
  destruct (Z.eq_dec x y) as [->|Hne]; [done|].
  induction l as [|z l IH]; simpl;
    repeat match goal with
      | |- context [?a <? ?b] => destruct (Z.ltb_spec a b); simpl
      end; first [lia | congruence].
Qed.

Lemma fold_sink_comm l : forall x acc,
  fold_left (fun acc x => sink x acc) l (sink x acc)
  = sink x (fold_left (fun acc x => sink x acc) l acc).
Proof.
  induction l as [|y l IH]; intros x acc; simpl; [done|].
  by rewrite sink_comm, IH.
Qed.

Lemma sort_groups_same a b : sort_groups a = sort_groups b <-> a ≡ₚ b.
Proof.
  split.
  - intros H. by rewrite <-(sort_groups_perm a), H, sort_groups_perm.
  - unfold sort_groups. induction 1 as [|x a b _ IH|x y a|a b c _ IH1 _ IH2]; simpl.
    + done.
    + change [x] with (sink x []). by rewrite !fold_sink_comm, IH.
    + f_equal. apply (sink_comm x y []).
    + congruence.
Qed.

(** without a fake identity, a setter the platform refuses answers
    success only for a change that changes nothing: every id stays, and a
    group list is the host's own up to order; anything else the kernel's rules
    would allow is EPERM. *)
Theorem real_set_claims_no_change (m : umem) (was c : cng_cred) (up gp : bool)
    (groups : option (list Z)) (nr : cred_nr) (a0 a1 a2 r : Z)
    (Hrun : run_setter m (Cred (c_u was) (c_g was) []) up gp nr a0 a1 a2 = Some (r, c))
    (Hfs : nr <> NRsetfsuid /\ nr <> NRsetfsgid)
    (Hok : 0 <= real_set m (Some (was, up, gp)) groups nr a0 a1 a2) :
  c_u c = c_u was /\ c_g c = c_g was /\
  (nr = NRsetgroups -> exists l, groups = Some l /\ c_groups c ≡ₚ l).
Proof.
  unfold real_set in Hok. rewrite Hrun in Hok.
  set (same := match nr with NRsetgroups => _ | _ => _ end) in Hok.
  assert (Hsame : same = true).
  { destruct (r <? 0) eqn:Er; simpl in Hok; [bprop; lia|].
    destruct same; [done|]. unfold EPERM in Hok. destruct nr, Hfs; try done; lia. }
  unfold same, same_cred in Hsame. clear same Hok.
  assert (Hids : c_u c = c_u was /\ c_g c = c_g was).
  { destruct nr; try (bprop; simpl in Hsame; naive_solver);
      destruct groups; [|done]; bprop; simpl in Hsame; naive_solver. }
  split; [apply Hids|]. split; [apply Hids|]. intros ->.
  destruct groups as [l|]; [|done]. exists l. split; [done|]. bprop.
  destruct Hsame as [_ H]. simpl in H. symmetry. by apply sort_groups_same.
Qed.

Lemma real_set_claims_no_change_witness :
  real_set umem0 (Some (cred_user, false, false)) None NRsetuid 1000 0 0 = - EPERM /\
  0 <= real_set umem0 (Some (Cred (IdSet 9 9 9 9) (IdSet 9 9 9 9) [], false, false)) None
         NRsetuid 9 0 0 /\
  c_u (Cred (IdSet 9 9 9 9) (IdSet 9 9 9 9) []) = IdSet 9 9 9 9.
Proof.
  split; [vm_compute; reflexivity|]. split; [vm_compute; discriminate|].
  apply (real_set_claims_no_change umem0 (Cred (IdSet 9 9 9 9) (IdSet 9 9 9 9) [])
    (Cred (IdSet 9 9 9 9) (IdSet 9 9 9 9) []) false false None NRsetuid 9 0 0 0).
  - vm_compute. reflexivity.
  - split; discriminate.
  - vm_compute. discriminate.
Defined.
