(* ===== verification/Publish.v ===== *)
(** * Publication of the shared views: two buffers and a sequence

    src/src/monitor/cred.c (the credential set) and src/src/path/path.c (the
    filesystem view) publish a structure that every thread reads and a few
    system calls rewrite.  Both do it the same way: two buffers, a pointer to
    the active one, a sequence counter, and an owner word that serialises the
    writers.  A writer copies the active buffer into the other, edits that,
    stores the pointer, bumps the sequence and releases the owner word; a
    reader loads the sequence and the pointer, reads what it wants and loads
    the sequence again.

    The model is the interleaving of those steps, each a load, a store or an
    atomic operation of the source on one word, in any order the threads run
    them (a sequentially consistent memory: the ordering the acquire and
    release annotations are there to give is taken as given).  The fields
    prefixed [g_] are ghosts: no step's outcome depends on them. *)

From S2P Require Import Prelude.
From stdpp Require Import base list gmap.
From Stdlib Require Import ZArith Lia.

Open Scope Z_scope.

(** ** State *)

(** Where a reader is: it has loaded the sequence [s]; it has the pointer [b]
    too and has read the words [got]; its re-check held.  Ghosts: the number of
    bumps ([v]) when the sequence was loaded and when it was re-checked ([v']),
    and the number of commits ([k0], [k]) when each word was loaded. *)
Inductive reader :=
  | RSeq (s : Z) (v : Z) (k0 : nat)
  | RRead (s : Z) (b : bool) (got : list (nat * Z)) (v : Z) (k0 k : nat)
  | RDone (got : list (nat * Z)) (v v' : Z) (k0 k : nat).

(** Where the thread that holds the owner word is.  [WGone]: the word names a
    thread this process does not have, the state a fork child inherits. *)
Inductive writer :=
  | WIdle
  | WFill (k : nat)
  | WStored
  | WBumped
  | WGone.

Record pub := Pub {
  p_buf0 : list Z;
  p_buf1 : list Z;
  p_act : bool;
  p_seq : Z;
  p_owner : Z;
  p_writer : writer;
  p_readers : gmap Z reader;
  g_bumps : Z;
  g_hist : list (list Z) }.

Definition buf (st : pub) (b : bool) : list Z := if b then p_buf1 st else p_buf0 st.

Definition set_word (st : pub) (b : bool) (i : nat) (w : Z) : pub :=
  Pub (if b then p_buf0 st else <[i := w]> (p_buf0 st))
      (if b then <[i := w]> (p_buf1 st) else p_buf1 st)
      (p_act st) (p_seq st) (p_owner st) (p_writer st) (p_readers st) (g_bumps st)
      (g_hist st).

Definition set_writer (st : pub) (owner : Z) (w : writer) : pub :=
  Pub (p_buf0 st) (p_buf1 st) (p_act st) (p_seq st) owner w (p_readers st) (g_bumps st)
      (g_hist st).

Definition set_reader (st : pub) (t : Z) (r : reader) : pub :=
  Pub (p_buf0 st) (p_buf1 st) (p_act st) (p_seq st) (p_owner st) (p_writer st)
      (<[t := r]> (p_readers st)) (g_bumps st) (g_hist st).

(** ** Steps *)

Inductive step_label :=
  | LAcquire (me : Z)           (** the compare-and-swap of the owner word, 0 to [me] *)
  | LCopy (i : nat)             (** [dst->w[i] = src->w[i]] *)
  | LEdit (i : nat) (w : Z)     (** [dst->w[i] = w], the setter's own change *)
  | LStore                      (** the release store of the pointer *)
  | LBump                       (** the increment of the sequence *)
  | LRelease                    (** the owner word back to 0, after a commit *)
  | LDrop                       (** the same with [commit == 0] *)
  | LTakeOver                   (** a spinning writer clears the word of a gone holder *)
  | LFork                       (** this is now a fork child: one thread, in no view *)
  | LBegin (t : Z)              (** [read_begin]: the sequence *)
  | LPointer (t : Z)            (** [read_begin]: the pointer *)
  | LWord (t : Z) (i : nat)     (** one word of the structure *)
  | LCheck (t : Z).             (** [read_retry]; a reader that fails it starts over *)

Definition writer_step (l : step_label) (st : pub) : option pub :=
  match l, p_writer st with
  | LAcquire me, WIdle =>
      if (p_owner st =? 0) && negb (me =? 0)
      then Some (set_writer st me (WFill (length (g_hist st)))) else None
  | LCopy i, WFill _ =>
      w ← buf st (p_act st) !! i; Some (set_word st (negb (p_act st)) i w)
  | LEdit i w, WFill _ => Some (set_word st (negb (p_act st)) i w)
  | LStore, WFill _ =>
      Some (Pub (p_buf0 st) (p_buf1 st) (negb (p_act st)) (p_seq st) (p_owner st) WStored
              (p_readers st) (g_bumps st) (buf st (negb (p_act st)) :: g_hist st))
  | LBump, WStored =>
      Some (Pub (p_buf0 st) (p_buf1 st) (p_act st) (u32 (p_seq st + 1)) (p_owner st) WBumped
              (p_readers st) (g_bumps st + 1) (g_hist st))
  | LRelease, WBumped => Some (set_writer st 0 WIdle)
  | LDrop, WFill _ => Some (set_writer st 0 WIdle)
  | LTakeOver, WGone => Some (set_writer st 0 WIdle)
  | _, _ => None
  end.

Definition reader_step (l : step_label) (st : pub) : option pub :=
  match l with
  | LBegin t =>
      match p_readers st !! t with
      | Some (RSeq _ _ _) | Some (RRead _ _ _ _ _ _) => None
      | _ => Some (set_reader st t (RSeq (p_seq st) (g_bumps st) (length (g_hist st))))
      end
  | LPointer t =>
      match p_readers st !! t with
      | Some (RSeq s v k0) =>
          Some (set_reader st t (RRead s (p_act st) [] v k0 (length (g_hist st))))
      | _ => None
      end
  | LWord t i =>
      match p_readers st !! t with
      | Some (RRead s b got v k0 k) =>
          w ← buf st b !! i; Some (set_reader st t (RRead s b ((i, w) :: got) v k0 k))
      | _ => None
      end
  | LCheck t =>
      match p_readers st !! t with
      | Some (RRead s b got v k0 k) =>
          if p_seq st =? s then Some (set_reader st t (RDone got v (g_bumps st) k0 k))
          else Some (Pub (p_buf0 st) (p_buf1 st) (p_act st) (p_seq st) (p_owner st)
                       (p_writer st) (delete t (p_readers st)) (g_bumps st) (g_hist st))
      | _ => None
      end
  | _ => None
  end.

(** A fork child has the memory and one thread, the one that called fork: the
    holder of the owner word, if there is one, is not in it. *)
Definition fork_step (st : pub) : pub :=
  Pub (p_buf0 st) (p_buf1 st) (p_act st) (p_seq st) (p_owner st)
      (match p_writer st with WIdle => WIdle | _ => WGone end) ∅ (g_bumps st) (g_hist st).

Definition pub_step (l : step_label) (st : pub) : option pub :=
  match l with
  | LFork => Some (fork_step st)
  | LBegin _ | LPointer _ | LWord _ _ | LCheck _ => reader_step l st
  | _ => writer_step l st
  end.

Fixpoint pub_run (ls : list step_label) (st : pub) : option pub :=
  match ls with
  | [] => Some st
  | l :: ls => st' ← pub_step l st; pub_run ls st'
  end.

(** The start: the first buffer is active and holds [init]. *)
Definition pub_init (init other : list Z) : pub :=
  Pub init other false 0 0 WIdle ∅ 0 [init].

(** The read loop's body, once, over the words [idx]. *)
Definition read_once (t : Z) (idx : list nat) : list step_label :=
  [LBegin t; LPointer t] ++ map (LWord t) idx ++ [LCheck t].

(** A whole update by thread [me]: copy the words [idx], make the edits, commit. *)
Definition update_once (me : Z) (idx : list nat) (edits : list (nat * Z)) : list step_label :=
  [LAcquire me] ++ map LCopy idx ++ map (fun e => LEdit e.1 e.2) edits ++
  [LStore; LBump; LRelease].
