(* ===== verification/PublishProps.v ===== *)
(** * What the publication guarantees

    The invariant of [Publish]'s interleavings, and from it: a read that passed
    its re-check saw one committed structure, a writer edits a copy of the last
    committed one, and both a lone reader and a lone writer finish. *)

From S2P Require Import Prelude Publish.
From stdpp Require Import base list gmap.
From Stdlib Require Import ZArith Lia.

Open Scope Z_scope.

(** The structure the [k]th commit published, the initial one being the first. *)
Definition nth_commit (st : pub) (k : nat) : option (list Z) :=
  g_hist st !! (length (g_hist st) - k)%nat.

(** Every word read is that of the structure [snap]. *)
Definition reads_of (snap : list Z) (got : list (nat * Z)) : Prop :=
  Forall (fun e => snap !! e.1 = Some e.2) got.

(** The buffer [b] holds a committed structure no writer is filling. *)
Definition settled (st : pub) (b : bool) : Prop :=
  b = p_act st \/ p_writer st = WStored.

Definition reader_ok (st : pub) (r : reader) : Prop :=
  match r with
  | RSeq s v k0 => s = u32 v /\ v <= g_bumps st /\ (k0 <= length (g_hist st))%nat
  | RRead s b got v k0 k =>
      s = u32 v /\ v <= g_bumps st /\ (k0 <= k <= length (g_hist st))%nat /\
      (g_bumps st = v ->
       settled st b /\ nth_commit st k = Some (buf st b) /\ reads_of (buf st b) got)
  | RDone got v v' k0 k =>
      u32 v' = u32 v /\ v <= v' <= g_bumps st /\ (k0 <= k <= length (g_hist st))%nat /\
      (v' = v -> exists snap, nth_commit st k = Some snap /\ reads_of snap got)
  end.

Record pub_ok (n : nat) (st : pub) : Prop := {
  po_seq : p_seq st = u32 (g_bumps st);
  po_owner : p_owner st = 0 <-> p_writer st = WIdle;
  po_len : forall b, length (buf st b) = n;
  po_act : g_hist st !! 0%nat = Some (buf st (p_act st));
  po_stored : p_writer st = WStored -> g_hist st !! 1%nat = Some (buf st (negb (p_act st)));
  po_fill : forall k, p_writer st = WFill k -> length (g_hist st) = k;
  po_readers : forall t r, p_readers st !! t = Some r -> reader_ok st r }.

Lemma nth_commit_cons st st' k x :
  g_hist st' = x :: g_hist st -> (k <= length (g_hist st))%nat ->
  nth_commit st' k = nth_commit st k.
Proof.
  intros E Hk. unfold nth_commit. rewrite E. simpl.
  by rewrite Nat.sub_succ_l by lia.
Qed.

(** A buffer that a step leaves alone keeps what its readers know of it. *)
Lemma reader_ok_frame st st' r :
  g_hist st' = g_hist st -> g_bumps st' = g_bumps st ->
  (forall b, settled st b -> settled st' b /\ buf st' b = buf st b) ->
  reader_ok st r -> reader_ok st' r.
Proof.
  intros Eh Eb Hf. destruct r as [s v k0|s b got v k0 k|got v v' k0 k];
    unfold reader_ok, nth_commit; rewrite Eh, Eb; [done| |done].
  intros (? & ? & ? & Hs). split; [done|]. split; [done|]. split; [done|].
  intros E. destruct (Hs E) as (Hb & Hn & Hg). destruct (Hf b Hb) as [? ->]. done.
Qed.

(** The store of the pointer settles both buffers. *)
Lemma reader_ok_store st st' x r :
  g_hist st' = x :: g_hist st -> g_bumps st' = g_bumps st -> p_writer st' = WStored ->
  (forall b, buf st' b = buf st b) -> reader_ok st r -> reader_ok st' r.
Proof.
  intros Eh Eb Ew Hbuf.
  destruct r as [s v k0|s b got v k0 k|got v v' k0 k]; unfold reader_ok; rewrite Eb;
    rewrite ?Eh; cbn [length].
  - intros (? & ? & ?). repeat split; (done || lia).
  - intros (? & ? & ? & Hs). split; [done|]. split; [done|]. split; [lia|].
    intros E. destruct (Hs E) as (_ & Hn & Hg). rewrite Hbuf.
    rewrite (nth_commit_cons st st' k x) by (done || lia).
    split; [by right|]. done.
  - intros (? & ? & ? & Hs). split; [done|]. split; [done|]. split; [lia|].
    intros E. rewrite (nth_commit_cons st st' k x) by (done || lia). by apply Hs.
Qed.

(** The bump ends every read under way. *)
Lemma reader_ok_bump st st' r :
  g_hist st' = g_hist st -> g_bumps st' = g_bumps st + 1 ->
  reader_ok st r -> reader_ok st' r.
Proof.
  intros Eh Eb. destruct r as [s v k0|s b got v k0 k|got v v' k0 k];
    unfold reader_ok, nth_commit; rewrite Eh, Eb.
  - intros (? & ? & ?). repeat split; (done || lia).
  - intros (? & ? & ? & _). split; [done|]. split; [lia|]. split; [done|]. lia.
  - intros (? & ? & ? & Hs). split; [done|]. split; [lia|]. done.
Qed.

Lemma buf_set_word st b b' i w :
  buf (set_word st b i w) b' = if Bool.eqb b b' then <[i := w]> (buf st b') else buf st b'.
Proof. by destruct b, b'. Qed.

Lemma fill_ok n st k i w :
  p_writer st = WFill k -> pub_ok n st -> pub_ok n (set_word st (negb (p_act st)) i w).
Proof.
  intros Ew [Hseq Ho Hl Ha Hs Hf Hr].
  assert (Hact : buf (set_word st (negb (p_act st)) i w) (p_act st) = buf st (p_act st)).
  { rewrite buf_set_word. by destruct (p_act st). }
  split; cbn [set_word p_seq p_owner p_writer p_act g_bumps g_hist p_readers]; try done.
  - intros b. rewrite buf_set_word. case_if; rewrite ?length_insert; apply Hl.
  - rewrite Hact. done.
  - by rewrite Ew.
  - intros t r Hin. apply (reader_ok_frame st); [done..| |by apply (Hr t)].
    intros b [->|E]; [|congruence]. split; [by left|]. apply Hact.
Qed.

Lemma set_writer_ok n st o w :
  p_writer st <> WStored -> (o = 0 <-> w = WIdle) -> w <> WStored ->
  (forall k, w = WFill k -> length (g_hist st) = k) ->
  pub_ok n st -> pub_ok n (set_writer st o w).
Proof.
  intros Hw Ho Hs Hk [? ? ? ? ? ? Hr].
  split; cbn [set_writer p_seq p_owner p_writer p_act g_bumps g_hist p_readers]; try done.
  intros t r Hin. apply (reader_ok_frame st); [done..| |by apply (Hr t)].
  intros b [->|E]; [|done]. split; [by left|done].
Qed.

Lemma writer_step_ok n st l st' :
  writer_step l st = Some st' -> pub_ok n st -> pub_ok n st'.
Proof.
  intros Hst Hok. unfold writer_step in Hst.
  destruct l, (p_writer st) eqn:Ew; try done.
  - case_if_in Hst; [|done]. injection Hst as <-. bprop.
    apply set_writer_ok; [congruence|naive_solver|done|naive_solver|done].
  - apply bind_Some in Hst as (w & _ & [= <-]). by eapply fill_ok.
  - injection Hst as <-. by eapply fill_ok.
  - injection Hst as <-. destruct Hok as [Hseq Ho Hl Ha Hs Hf Hr].
    split; cbn [p_seq p_owner p_writer p_act g_bumps g_hist p_readers]; try done.
    + rewrite Ho, Ew. done.
    + intros _. rewrite negb_involutive. apply Ha.
    + intros t r Hin. apply (reader_ok_store st _ (buf st (negb (p_act st))));
        [done..|by apply (Hr t)].
  - injection Hst as <-. destruct Hok as [Hseq Ho Hl Ha Hs Hf Hr].
    split; cbn [p_seq p_owner p_writer p_act g_bumps g_hist p_readers]; try done.
    + rewrite Hseq. by apply wrapu_add_l.
    + rewrite Ho, Ew. done.
    + intros t r Hin. apply (reader_ok_bump st); [done..|by apply (Hr t)].
  - injection Hst as <-. by apply set_writer_ok; [congruence|..].
  - injection Hst as <-. by apply set_writer_ok; [congruence|..].
  - injection Hst as <-. by apply set_writer_ok; [congruence|..].
Qed.

Lemma set_reader_ok n st t r :
  reader_ok (set_reader st t r) r -> pub_ok n st -> pub_ok n (set_reader st t r).
Proof.
  intros Hnew [? ? ? ? ? ? Hr].
  split; cbn [set_reader p_seq p_owner p_writer p_act g_bumps g_hist p_readers]; try done.
  intros t' r'. rewrite lookup_insert_Some. intros [[_ <-]|[_ Hin]]; [done|].
  by apply (Hr t').
Qed.

Lemma reader_step_ok n st l st' :
  reader_step l st = Some st' -> pub_ok n st -> pub_ok n st'.
Proof.
  intros Hst Hok. unfold reader_step in Hst. destruct l as [| | | | | | | | |t|t|t i|t]; try done.
  - assert (E : st' = set_reader st t (RSeq (p_seq st) (g_bumps st) (length (g_hist st))))
      by (destruct (p_readers st !! t) as [[]|]; naive_solver).
    subst st'. apply set_reader_ok; [|done]. simpl. rewrite (po_seq _ _ Hok). done.
  - destruct (p_readers st !! t) as [[s v k0| |]|] eqn:Et; try done. injection Hst as <-.
    destruct (po_readers _ _ Hok _ _ Et) as (? & ? & ?).
    apply set_reader_ok; [|done]. simpl. split; [done|]. split; [done|]. split; [lia|].
    intros _. split; [by left|]. split; [|by constructor].
    unfold nth_commit. cbn [set_reader g_hist]. rewrite Nat.sub_diag. apply (po_act _ _ Hok).
  - destruct (p_readers st !! t) as [[|s b got v k0 k|]|] eqn:Et; try done.
    apply bind_Some in Hst as (w & Hw & [= <-]).
    destruct (po_readers _ _ Hok _ _ Et) as (? & ? & ? & Hs).
    apply set_reader_ok; [|done]. simpl. split; [done|]. split; [done|]. split; [done|].
    intros E. destruct (Hs E) as (? & ? & ?). split; [done|]. split; [done|]. by constructor.
  - destruct (p_readers st !! t) as [[|s b got v k0 k|]|] eqn:Et; try done.
    destruct (po_readers _ _ Hok _ _ Et) as (? & ? & ? & Hs).
    case_if_in Hst; injection Hst as <-.
    + apply set_reader_ok; [|done]. simpl. bprop. rewrite (po_seq _ _ Hok) in Eif.
      split; [congruence|]. split; [lia|]. split; [done|].
      intros E. destruct (Hs E) as (? & ? & ?). by exists (buf st b).
    + destruct Hok as [? ? ? ? ? ? Hr].
      split; cbn [p_seq p_owner p_writer p_act g_bumps g_hist p_readers]; try done.
      intros t' r'. rewrite lookup_delete_Some. intros [_ Hin]. by apply (Hr t').
Qed.

Lemma fork_step_ok n st : pub_ok n st -> pub_ok n (fork_step st).
Proof.
  intros [? Ho ? ? ? ? _].
  split; cbn [fork_step p_seq p_owner p_writer p_act g_bumps g_hist p_readers]; try done;
    destruct (p_writer st); try done; rewrite Ho; done.
Qed.

Lemma pub_step_ok n st l st' : pub_step l st = Some st' -> pub_ok n st -> pub_ok n st'.
Proof.
  intros Hst. destruct l; cbn [pub_step] in Hst;
    try (by eapply writer_step_ok); try (by eapply reader_step_ok).
  injection Hst as <-. apply fork_step_ok.
Qed.

Lemma pub_run_ok n ls : forall st st', pub_run ls st = Some st' -> pub_ok n st -> pub_ok n st'.
Proof.
  induction ls as [|l ls IH]; intros st st' Hst Hok; simpl in Hst; [by injection Hst as <-|].
  apply bind_Some in Hst as (st1 & H1 & H2). eapply IH; [done|]. by eapply pub_step_ok.
Qed.

Lemma pub_init_ok init other :
  length other = length init -> pub_ok (length init) (pub_init init other).
Proof.
  intros Hl. split; simpl; try done.
  intros []; done.
Qed.

Definition reachable_pub (init other : list Z) (st : pub) : Prop :=
  exists ls, pub_run ls (pub_init init other) = Some st.

Lemma reachable_pub_ok init other st :
  length other = length init -> reachable_pub init other st -> pub_ok (length init) st.
Proof. intros Hl [ls H]. by eapply pub_run_ok, pub_init_ok. Qed.



(** ** Progress *)

Lemma pub_run_app ls1 ls2 st :
  pub_run (ls1 ++ ls2) st = st' ← pub_run ls1 st; pub_run ls2 st'.
Proof.
  revert st. induction ls1 as [|l ls IH]; intros st; simpl; [done|].
  destruct (pub_step l st); simpl; [apply IH|done].
Qed.

Lemma set_reader_at st t r : p_readers (set_reader st t r) !! t = Some r.
Proof. apply lookup_insert_eq. Qed.

(** A reader at its words, with nobody else running. *)
Lemma words_run t idx : forall st s b got v k0 k,
  p_readers st !! t = Some (RRead s b got v k0 k) ->
  Forall (fun i => (i < length (buf st b))%nat) idx ->
  exists got', pub_run (map (LWord t) idx) st
    = Some (set_reader st t (RRead s b got' v k0 k)) /\
    map fst got' = rev idx ++ map fst got.
Proof.
  induction idx as [|i idx IH]; intros st s b got v k0 k Hr Hi; simpl.
  - exists got. split; [|done]. unfold set_reader. rewrite insert_id by done. by destruct st.
  - apply Forall_cons in Hi as [Hi Hidx].
    destruct (lookup_lt_is_Some_2 _ _ Hi) as [w Hw]. rewrite Hr, Hw. simpl.
    edestruct (IH (set_reader st t (RRead s b ((i, w) :: got) v k0 k))) as (got' & E & Hg).
    { apply set_reader_at. }
    { exact Hidx. }
    exists got'. split.
    + rewrite E. unfold set_reader. simpl. by rewrite insert_insert_eq.
    + rewrite Hg. simpl. by rewrite <-app_assoc.
Qed.

(** The state with [d] in the buffer readers are not sent to. *)
Definition with_spare (st : pub) (d : list Z) : pub :=
  Pub (if p_act st then d else p_buf0 st) (if p_act st then p_buf1 st else d)
      (p_act st) (p_seq st) (p_owner st) (p_writer st) (p_readers st) (g_bumps st)
      (g_hist st).

Abbreviation spare st := (buf st (negb (p_act st))).

Definition apply_edits (edits : list (nat * Z)) (d : list Z) : list Z :=
  foldl (fun d e => <[e.1 := e.2]> d) d edits.

Lemma set_spare st i w : set_word st (negb (p_act st)) i w = with_spare st (<[i := w]> (spare st)).
Proof. unfold set_word, with_spare, buf. by destruct (p_act st). Qed.

Lemma with_spare_buf st d : buf (with_spare st d) (p_act st) = buf st (p_act st).
Proof. unfold buf, with_spare. by destruct (p_act st). Qed.

Lemma with_spare_spare st d : buf (with_spare st d) (negb (p_act st)) = d.
Proof. unfold buf, with_spare. by destruct (p_act st). Qed.

Lemma with_spare_twice st d d' : with_spare (with_spare st d) d' = with_spare st d'.
Proof. unfold with_spare. by destruct st as [? ? [] ? ? ? ? ? ?]. Qed.

Lemma with_spare_id st : with_spare st (spare st) = st.
Proof. unfold with_spare. by destruct st as [? ? [] ? ? ? ? ? ?]. Qed.

(** The words a writer copies and the words it edits are writes to the spare. *)
Lemma copies_run k idx : forall st,
  p_writer st = WFill k -> Forall (fun i => (i < length (buf st (p_act st)))%nat) idx ->
  pub_run (map LCopy idx) st
  = Some (with_spare st (apply_edits
      (map (fun i => (i, default 0 (buf st (p_act st) !! i))) idx) (spare st))).
Proof.
  induction idx as [|i idx IH]; intros st Hw Hi; simpl; [by rewrite with_spare_id|].
  apply Forall_cons in Hi as [Hi Hidx]. rewrite Hw.
  destruct (lookup_lt_is_Some_2 _ _ Hi) as [w E]. rewrite E. simpl. rewrite set_spare.
  rewrite IH; cbn [with_spare p_writer p_act]; [|done|by rewrite with_spare_buf].
  by rewrite with_spare_twice, with_spare_buf, with_spare_spare.
Qed.

Lemma edits_run k edits : forall st,
  p_writer st = WFill k ->
  pub_run (map (fun e => LEdit e.1 e.2) edits) st
  = Some (with_spare st (apply_edits edits (spare st))).
Proof.
  induction edits as [|e edits IH]; intros st Hw; simpl; [by rewrite with_spare_id|].
  rewrite Hw. simpl. rewrite set_spare. rewrite IH by done. cbn [with_spare p_act].
  by rewrite with_spare_twice, with_spare_spare.
Qed.

(** Copying every word copies the structure. *)
Lemma copy_prefix (src d : list Z) m :
  length d = length src -> (m <= length src)%nat ->
  apply_edits (map (fun i => (i, default 0 (src !! i))) (seq 0 m)) d = take m src ++ drop m d.
Proof.
  intros Hl. induction m as [|m IH]; intros Hm; [done|].
  rewrite seq_S, map_app. unfold apply_edits in *. rewrite foldl_app, IH by lia. simpl.
  destruct (lookup_lt_is_Some_2 src m ltac:(lia)) as [w Hw].
  destruct (lookup_lt_is_Some_2 d m ltac:(lia)) as [x Hx].
  rewrite (take_S_r _ _ w), (drop_S d x) by done. rewrite Hw. cbn [default].
  rewrite insert_app_r_alt by (rewrite length_take; lia).
  rewrite length_take, Nat.min_l, Nat.sub_diag by lia. simpl. by rewrite <-app_assoc.
Qed.

Lemma copy_all (src d : list Z) :
  length d = length src ->
  apply_edits (map (fun i => (i, default 0 (src !! i))) (seq 0 (length src))) d = src.
Proof.
  intros Hl. rewrite copy_prefix by lia. rewrite firstn_all, drop_ge by lia. apply app_nil_r.
Qed.

Lemma update_run n st me edits :
  pub_ok n st -> p_writer st = WIdle -> me <> 0 ->
  exists st', pub_run (update_once me (seq 0 n) edits) st = Some st' /\
    g_hist st' = apply_edits edits (buf st (p_act st)) :: g_hist st /\
    p_writer st' = WIdle /\ buf st' (p_act st') = apply_edits edits (buf st (p_act st)).
Proof.
  intros Hok Hw Hme. unfold update_once. rewrite !pub_run_app.
  cbn [pub_run pub_step writer_step]. rewrite Hw.
  rewrite (proj2 (Z.eqb_eq _ _) (proj2 (po_owner _ _ Hok) Hw)).
  rewrite (proj2 (Z.eqb_neq _ _) Hme). cbn [andb negb mbind option_bind].
  rewrite pub_run_app. set (st1 := set_writer st me _).
  rewrite (copies_run (length (g_hist st)) (seq 0 n) st1) by
    (done || (apply Forall_seq; intros; change (buf st1) with (buf st);
              rewrite (po_len _ _ Hok); lia)).
  cbn [mbind option_bind]. change (buf st1) with (buf st). change (p_act st1) with (p_act st).
  rewrite <-(po_len _ _ Hok (p_act st)), copy_all by (by rewrite !(po_len _ _ Hok)).
  rewrite pub_run_app, (edits_run (length (g_hist st))) by done.
  cbn [mbind option_bind]. rewrite with_spare_twice. cbn [with_spare p_act].
  change (p_act st1) with (p_act st).
  assert (Hs : buf (with_spare st1 (buf st (p_act st))) (negb (p_act st)) = buf st (p_act st))
    by exact (with_spare_spare st1 _).
  rewrite Hs. eexists. split; [reflexivity|].
  cbn [set_writer g_hist p_writer p_act]. unfold buf. cbn. by destruct (p_act st).
Qed.

(** C31: nobody waits for ever on a reader or on a dead writer.  From every
    reachable state, a reader that is left to run returns after one pass of its
    loop; and a writer that finds the owner word free, or held by a thread that
    is gone, publishes exactly its edits of the last committed structure and
    leaves the word free. *)
Theorem publication_progress (init other : list Z) (st : pub)
    (Hlen : length other = length init) (Hst : reachable_pub init other st) :
  (forall t idx,
     Forall (fun i => (i < length init)%nat) idx ->
     (forall s v k0, p_readers st !! t <> Some (RSeq s v k0)) ->
     (forall s b got v k0 k, p_readers st !! t <> Some (RRead s b got v k0 k)) ->
     exists st' got v k0 k, pub_run (read_once t idx) st = Some st' /\
       p_readers st' !! t = Some (RDone got v v k0 k) /\ map fst got = rev idx) /\
  (forall me edits,
     me <> 0 -> p_writer st = WIdle \/ p_writer st = WGone ->
     exists st', pub_run ((match p_writer st with WGone => [LTakeOver] | _ => [] end) ++
                          update_once me (seq 0 (length init)) edits) st = Some st' /\
       g_hist st' = apply_edits edits (buf st (p_act st)) :: g_hist st /\
       p_writer st' = WIdle /\
       buf st' (p_act st') = apply_edits edits (buf st (p_act st))).
Proof.
  apply reachable_pub_ok in Hst; [|done]. split.
  - intros t idx Hi Hs Hr. unfold read_once. rewrite pub_run_app.
    set (st1 := set_reader st t (RSeq (p_seq st) (g_bumps st) (length (g_hist st)))).
    assert (E1 : pub_step (LBegin t) st = Some st1).
    { simpl. destruct (p_readers st !! t) as [[]|]; naive_solver. }
    cbn [pub_run]. rewrite E1. cbn [mbind option_bind pub_run pub_step reader_step].
    unfold st1 at 1. rewrite set_reader_at. cbn [mbind option_bind].
    set (st2 := set_reader st1 t _).
    destruct (words_run t idx st2 (p_seq st) (p_act st) [] (g_bumps st)
                (length (g_hist st)) (length (g_hist st))) as (got & E & Hg).
    { apply set_reader_at. }
    { eapply Forall_impl; [exact Hi|]. intros i. change (buf st2) with (buf st).
      by rewrite (po_len _ _ Hst). }
    rewrite pub_run_app, E. cbn [mbind option_bind pub_run pub_step reader_step].
    rewrite set_reader_at. cbn [set_reader p_seq].
    rewrite Z.eqb_refl. cbn [mbind option_bind].
    do 5 eexists. split; [reflexivity|]. split; [apply set_reader_at|].
    by rewrite Hg, app_nil_r.
  - intros me edits Hme [Hw|Hw]; rewrite Hw; [by apply update_run|].
    rewrite pub_run_app. cbn [pub_run pub_step writer_step]. rewrite Hw.
    cbn [mbind option_bind].
    apply (update_run _ (set_writer st 0 WIdle)); [|done..].
    apply set_writer_ok; [congruence|done..].
Qed.

Lemma publication_progress_witness :
  exists st, pub_run [LAcquire 4; LEdit 0 9; LFork] (pub_init [1; 2] [0; 0]) = Some st /\
    p_writer st = WGone /\
    exists st', pub_run ([LTakeOver] ++ update_once 5 [0; 1]%nat [(1%nat, 3)]) st = Some st' /\
      buf st' (p_act st') = [1; 3].
Proof.
  destruct (pub_run [LAcquire 4; LEdit 0 9; LFork] (pub_init [1; 2] [0; 0])) as [st|] eqn:E;
    [|vm_compute in E; discriminate].
  exists st. split; [done|].
  destruct (publication_progress [1; 2] [0; 0] st eq_refl (ex_intro _ _ E)) as [_ Hw].
  vm_compute in E. injection E as <-. split; [done|].
  destruct (Hw 5 [(1%nat, 3)]) as (st' & Hrun & _ & _ & Hb); [lia|by right|].
  exists st'. split; [exact Hrun|exact Hb].
Defined.
