(* ===== verification/Unistd.v ===== *)
(** * The system call numbers (include/cng/unistd.h)

    The numbers of the AArch64 table that the filters name. *)

From Stdlib Require Import ZArith.

Open Scope Z_scope.

Definition __NR_setxattr := 5.
Definition __NR_lsetxattr := 6.
Definition __NR_fsetxattr := 7.
Definition __NR_getxattr := 8.
Definition __NR_lgetxattr := 9.
Definition __NR_listxattr := 11.
Definition __NR_llistxattr := 12.
Definition __NR_removexattr := 14.
Definition __NR_lremovexattr := 15.
Definition __NR_fremovexattr := 16.
Definition __NR_getcwd := 17.
Definition __NR_epoll_pwait := 22.
Definition __NR_inotify_add_watch := 27.
Definition __NR_ioctl := 29.
Definition __NR_mknodat := 33.
Definition __NR_mkdirat := 34.
Definition __NR_unlinkat := 35.
Definition __NR_symlinkat := 36.
Definition __NR_linkat := 37.
Definition __NR_renameat := 38.
Definition __NR_umount2 := 39.
Definition __NR_mount := 40.
Definition __NR_pivot_root := 41.
Definition __NR_statfs := 43.
Definition __NR_fstatfs := 44.
Definition __NR_truncate := 45.
Definition __NR_faccessat := 48.
Definition __NR_chdir := 49.
Definition __NR_fchdir := 50.
Definition __NR_chroot := 51.
Definition __NR_fchmod := 52.
Definition __NR_fchmodat := 53.
Definition __NR_fchownat := 54.
Definition __NR_fchown := 55.
Definition __NR_openat := 56.
Definition __NR_quotactl := 60.
Definition __NR_getdents64 := 61.
Definition __NR_read := 63.
Definition __NR_readv := 65.
Definition __NR_pread64 := 67.
Definition __NR_preadv := 69.
Definition __NR_pselect6 := 72.
Definition __NR_ppoll := 73.
Definition __NR_signalfd4 := 74.
Definition __NR_readlinkat := 78.
Definition __NR_newfstatat := 79.
Definition __NR_fstat := 80.
Definition __NR_utimensat := 88.
Definition __NR_acct := 89.
Definition __NR_capget := 90.
Definition __NR_capset := 91.
Definition __NR_waitid := 95.
Definition __NR_timer_create := 107.
Definition __NR_timer_delete := 111.
Definition __NR_ptrace := 117.
Definition __NR_kill := 129.
Definition __NR_tkill := 130.
Definition __NR_tgkill := 131.
Definition __NR_rt_sigsuspend := 133.
Definition __NR_rt_sigaction := 134.
Definition __NR_rt_sigprocmask := 135.
Definition __NR_rt_sigtimedwait := 137.
Definition __NR_rt_sigqueueinfo := 138.
Definition __NR_rt_sigreturn := 139.
Definition __NR_setregid := 143.
Definition __NR_setgid := 144.
Definition __NR_setreuid := 145.
Definition __NR_setuid := 146.
Definition __NR_setresuid := 147.
Definition __NR_getresuid := 148.
Definition __NR_setresgid := 149.
Definition __NR_getresgid := 150.
Definition __NR_setfsuid := 151.
Definition __NR_setfsgid := 152.
Definition __NR_getgroups := 158.
Definition __NR_setgroups := 159.
Definition __NR_uname := 160.
Definition __NR_prctl := 167.
Definition __NR_getuid := 174.
Definition __NR_geteuid := 175.
Definition __NR_getgid := 176.
Definition __NR_getegid := 177.
Definition __NR_mq_open := 180.
Definition __NR_mq_unlink := 181.
Definition __NR_mq_timedsend := 182.
Definition __NR_mq_timedreceive := 183.
Definition __NR_mq_notify := 184.
Definition __NR_mq_getsetattr := 185.
Definition __NR_msgget := 186.
Definition __NR_msgctl := 187.
Definition __NR_msgrcv := 188.
Definition __NR_msgsnd := 189.
Definition __NR_semget := 190.
Definition __NR_semctl := 191.
Definition __NR_semtimedop := 192.
Definition __NR_semop := 193.
Definition __NR_shmget := 194.
Definition __NR_shmctl := 195.
Definition __NR_shmat := 196.
Definition __NR_shmdt := 197.
Definition __NR_socket := 198.
Definition __NR_bind := 200.
Definition __NR_accept := 202.
Definition __NR_connect := 203.
Definition __NR_getsockname := 204.
Definition __NR_getpeername := 205.
Definition __NR_sendto := 206.
Definition __NR_recvfrom := 207.
Definition __NR_getsockopt := 209.
Definition __NR_sendmsg := 211.
Definition __NR_recvmsg := 212.
Definition __NR_mremap := 216.
Definition __NR_clone := 220.
Definition __NR_execve := 221.
Definition __NR_mmap := 222.
Definition __NR_swapon := 224.
Definition __NR_swapoff := 225.
Definition __NR_mprotect := 226.
Definition __NR_rt_tgsigqueueinfo := 240.
Definition __NR_accept4 := 242.
Definition __NR_recvmmsg := 243.
Definition __NR_wait4 := 260.
Definition __NR_fanotify_mark := 263.
Definition __NR_name_to_handle_at := 264.
Definition __NR_open_by_handle_at := 265.
Definition __NR_sendmmsg := 269.
Definition __NR_process_vm_readv := 270.
Definition __NR_process_vm_writev := 271.
Definition __NR_renameat2 := 276.
Definition __NR_seccomp := 277.
Definition __NR_execveat := 281.
Definition __NR_preadv2 := 286.
Definition __NR_statx := 291.
Definition __NR_rseq := 293.
Definition __NR_io_uring_setup := 425.
Definition __NR_io_uring_enter := 426.
Definition __NR_io_uring_register := 427.
Definition __NR_open_tree := 428.
Definition __NR_move_mount := 429.
Definition __NR_fsopen := 430.
Definition __NR_fsconfig := 431.
Definition __NR_fsmount := 432.
Definition __NR_fspick := 433.
Definition __NR_pidfd_open := 434.
Definition __NR_clone3 := 435.
Definition __NR_openat2 := 437.
Definition __NR_pidfd_getfd := 438.
Definition __NR_faccessat2 := 439.
Definition __NR_epoll_pwait2 := 441.
Definition __NR_mount_setattr := 442.
Definition __NR_quotactl_fd := 443.
Definition __NR_fchmodat2 := 452.
Definition __NR_statmount := 457.
Definition __NR_listmount := 458.
Definition __NR_setxattrat := 463.
Definition __NR_getxattrat := 464.
Definition __NR_listxattrat := 465.
Definition __NR_removexattrat := 466.
Definition __NR_open_tree_attr := 467.
Definition __NR_file_getattr := 468.
Definition __NR_file_setattr := 469.
