(* ===== verification/Seccomp.v ===== *)
(** * The seccomp filters (src/src/monitor/seccomp.c, include/cng/seccomp.h)

    The three classic-BPF programs the monitor installs, as the lists of
    instructions the builders write, and the interpreter the monitor itself
    uses to ask what they would do.  The flags the base filter is built for are
    [bcfg]; the gate's two addresses are inputs, the linker's. *)

From stdpp Require Import base list numbers.
From Stdlib Require Import ZArith Lia.
From S2P Require Import Prelude Path IpcData Unistd.

Open Scope Z_scope.

(** ** Instructions *)

Record sock_filter := SF { sf_code : Z; sf_jt : Z; sf_jf : Z; sf_k : Z }.

Definition CNG_BPF_LD := 0x00.
Definition CNG_BPF_W := 0x00.
Definition CNG_BPF_ABS := 0x20.
Definition CNG_BPF_JMP := 0x05.
Definition CNG_BPF_JEQ := 0x10.
Definition CNG_BPF_JGE := 0x30.
Definition CNG_BPF_JGT := 0x20.
Definition CNG_BPF_K := 0x00.
Definition CNG_BPF_RET := 0x06.
Definition CNG_BPF_ALU := 0x04.
Definition CNG_BPF_AND := 0x50.

Definition CNG_BPF_STMT (code k : Z) : sock_filter := SF (u16 code) 0 0 (u32 k).
Definition CNG_BPF_JUMP (code k jt jf : Z) : sock_filter :=
  SF (u16 code) (u8 jt) (u8 jf) (u32 k).

Definition LD_ABS := Z.lor (Z.lor CNG_BPF_LD CNG_BPF_W) CNG_BPF_ABS.
Definition ALU_AND := Z.lor (Z.lor CNG_BPF_ALU CNG_BPF_AND) CNG_BPF_K.
Definition JMP_JEQ := Z.lor (Z.lor CNG_BPF_JMP CNG_BPF_JEQ) CNG_BPF_K.
Definition JMP_JGE := Z.lor (Z.lor CNG_BPF_JMP CNG_BPF_JGE) CNG_BPF_K.
Definition JMP_JGT := Z.lor (Z.lor CNG_BPF_JMP CNG_BPF_JGT) CNG_BPF_K.
Definition RET_K := Z.lor CNG_BPF_RET CNG_BPF_K.

Definition ld (k : Z) : sock_filter := CNG_BPF_STMT LD_ABS k.
Definition and_k (k : Z) : sock_filter := CNG_BPF_STMT ALU_AND k.
Definition ret (k : Z) : sock_filter := CNG_BPF_STMT RET_K k.
Definition jeq (k jt jf : Z) : sock_filter := CNG_BPF_JUMP JMP_JEQ k jt jf.
Definition jge (k jt jf : Z) : sock_filter := CNG_BPF_JUMP JMP_JGE k jt jf.
Definition jgt (k jt jf : Z) : sock_filter := CNG_BPF_JUMP JMP_JGT k jt jf.

(** ** Constants *)

Definition CNG_SD_NR := 0.
Definition CNG_SD_ARCH := 4.
Definition CNG_SD_IP := 8.
Definition CNG_SD_ARGS := 16.
Definition CNG_SECCOMP_RET_KILL_THREAD := 0x00000000.
Definition CNG_SECCOMP_RET_TRAP := 0x00030000.
Definition CNG_SECCOMP_RET_ERRNO := 0x00050000.
Definition CNG_SECCOMP_RET_ALLOW := 0x7fff0000.
Definition CNG_SECCOMP_RET_DATA := 0x0000ffff.
Definition CNG_AUDIT_ARCH_AARCH64 := 0xc00000b7.
Definition CNG_CLONE_VM := 0x100.
Definition CNG_CLONE_VFORK := 0x4000.
Definition CNG_PR_GET_SECCOMP := 21.
Definition CNG_PR_SET_SECCOMP := 22.
Definition CNG_PR_SET_NO_NEW_PRIVS := 38.
Definition CNG_PR_GET_NO_NEW_PRIVS := 39.
Definition CNG_SIOC_BAND_LO := 0x8910.
Definition CNG_SIOC_BAND_HI := 0x8970.
Definition CNG_PROT_EXEC := 4.
Definition CNG_MAP_ANONYMOUS := 0x20.
Definition CNG_MREMAP_DONTUNMAP := 4.
Definition CNG_TRAP_TAG_TRACEALL := 0x7ace.
Definition CNG_TRAP_TAG_TRACER := 0x7acf.
Definition CNG_SECCOMP_MAX_INSNS : nat := 320.
Definition CNG_SECCOMP_TRACEALL_INSNS : nat := 24.
Definition CNG_SECCOMP_TRACER_INSNS : nat := 24.
Definition CNG_NR_MAX := 512.

(** ** The tables *)

Definition CNG_BTRFS_IOC_DEFRAG := 0x50009402.
Definition CNG_BTRFS_IOC_DEFRAG_RANGE := 0x40309410.
Definition CNG_BTRFS_IOC_SET_RECEIVED_SUBVOL := 0xc0c89425.
Definition CNG_BTRFS_IOC_SNAP_CREATE := 0x50009401.
Definition CNG_BTRFS_IOC_SNAP_CREATE_V2 := 0x50009417.
Definition CNG_BTRFS_IOC_SNAP_DESTROY := 0x5000940f.
Definition CNG_BTRFS_IOC_SNAP_DESTROY_V2 := 0x5000943f.
Definition CNG_BTRFS_IOC_SUBVOL_CREATE := 0x5000940e.
Definition CNG_BTRFS_IOC_SUBVOL_CREATE_V2 := 0x50009418.
Definition CNG_BTRFS_IOC_SUBVOL_SETFLAGS := 0x4008941a.
Definition CNG_EXT4_IOC_ALLOC_DA_BLKS := 0x0000660c.
Definition CNG_EXT4_IOC_MIGRATE := 0x00006609.
Definition CNG_F2FS_IOC_SET_PIN_FILE := 0x4004f50d.
Definition CNG_FIDEDUPERANGE := 0xc0189436.
Definition CNG_FS_IOC_ENABLE_VERITY := 0x40806685.
Definition CNG_FS_IOC_FSSETXATTR := 0x401c5820.
Definition CNG_FS_IOC_SETFLAGS := 0x40086602.
Definition CNG_FS_IOC_SETVERSION := 0x40087602.
Definition CNG_FS_IOC_SET_ENCRYPTION_POLICY := 0x800c6613.
Definition TC_GETS2 := 0x802c542a.
Definition TC_GSID := 0x5429.
Definition TC_SETS2 := 0x402c542b.
Definition TC_SETSF := 0x5404.
Definition TC_SETSF2 := 0x402c542d.
Definition TC_SETSW2 := 0x402c542c.

Definition path_syscalls : list Z :=
  [ __NR_openat; __NR_openat2; __NR_newfstatat; __NR_statx; __NR_faccessat; __NR_faccessat2;
    __NR_readlinkat; __NR_mkdirat; __NR_mknodat; __NR_unlinkat; __NR_fchownat;
    __NR_fchmodat; __NR_utimensat; __NR_symlinkat; __NR_linkat; __NR_renameat;
    __NR_renameat2; __NR_truncate; __NR_statfs; __NR_chdir; __NR_fchdir; __NR_getcwd;
    __NR_chroot; __NR_rt_sigprocmask; __NR_rt_sigaction; __NR_execve; __NR_execveat;
    __NR_name_to_handle_at; __NR_setxattr; __NR_lsetxattr; __NR_getxattr; __NR_lgetxattr;
    __NR_listxattr; __NR_llistxattr; __NR_removexattr; __NR_lremovexattr; __NR_setxattrat;
    __NR_getxattrat; __NR_listxattrat; __NR_removexattrat; __NR_file_getattr;
    __NR_file_setattr; __NR_inotify_add_watch; __NR_bind; __NR_connect; __NR_sendto;
    __NR_sendmsg; __NR_getsockname; __NR_getpeername; __NR_accept; __NR_accept4;
    __NR_recvfrom; __NR_recvmsg; __NR_sendmmsg; __NR_recvmmsg; __NR_fchmodat2; __NR_socket;
    __NR_rt_sigsuspend; __NR_rt_sigtimedwait; __NR_signalfd4; __NR_timer_create;
    __NR_timer_delete; __NR_rseq; __NR_uname; __NR_ptrace; __NR_pidfd_getfd ].

Definition id_syscalls : list Z :=
  [ __NR_getuid; __NR_geteuid; __NR_getgid; __NR_getegid; __NR_getresuid; __NR_getresgid;
    __NR_getgroups; __NR_setuid; __NR_setgid; __NR_setresuid; __NR_setresgid; __NR_setreuid;
    __NR_setregid; __NR_setgroups; __NR_setfsuid; __NR_setfsgid; __NR_fchown; __NR_fchmod;
    __NR_capget; __NR_capset; __NR_getsockopt ].

Definition ipc_syscalls : list Z :=
  [ __NR_shmget; __NR_shmat; __NR_shmdt; __NR_shmctl; __NR_semget; __NR_semop; __NR_semctl;
    __NR_semtimedop; __NR_msgget; __NR_msgsnd; __NR_msgrcv; __NR_msgctl ].

Definition enosys_syscalls : list Z :=
  [ __NR_io_uring_setup; __NR_io_uring_enter; __NR_io_uring_register; __NR_clone3;
    __NR_mount; __NR_umount2; __NR_pivot_root; __NR_mount_setattr; __NR_acct; __NR_quotactl;
    __NR_quotactl_fd; __NR_swapon; __NR_swapoff; __NR_open_tree; __NR_open_tree_attr;
    __NR_move_mount; __NR_fsopen; __NR_fsconfig; __NR_fsmount; __NR_fspick;
    __NR_open_by_handle_at; __NR_fanotify_mark; __NR_statmount; __NR_listmount;
    __NR_seccomp; __NR_mq_open; __NR_mq_unlink; __NR_mq_timedsend; __NR_mq_timedreceive;
    __NR_mq_notify; __NR_mq_getsetattr ].

Definition ro_fd_syscalls : list Z :=
  [ __NR_fchmod; __NR_fchown; __NR_fsetxattr; __NR_fremovexattr ].

Definition cng_setid_deny_nrs : list Z :=
  [ __NR_setuid; __NR_setgid; __NR_setreuid; __NR_setregid; __NR_setresgid; __NR_setfsuid;
    __NR_setfsgid; __NR_setgroups ].

Definition cng_ioctl_tty : list Z :=
  [ TC_GETS2; TC_SETS2; TC_SETSW2; TC_SETSF2; TC_GSID; TC_SETSF ].

Definition cng_ioctl_mnt_write : list Z :=
  [ CNG_FS_IOC_SETFLAGS; CNG_FS_IOC_FSSETXATTR; CNG_FS_IOC_SETVERSION;
    CNG_FS_IOC_SET_ENCRYPTION_POLICY; CNG_FS_IOC_ENABLE_VERITY; CNG_EXT4_IOC_MIGRATE;
    CNG_EXT4_IOC_ALLOC_DA_BLKS; CNG_BTRFS_IOC_SNAP_CREATE; CNG_BTRFS_IOC_SNAP_CREATE_V2;
    CNG_BTRFS_IOC_SUBVOL_CREATE; CNG_BTRFS_IOC_SUBVOL_CREATE_V2; CNG_BTRFS_IOC_SNAP_DESTROY;
    CNG_BTRFS_IOC_SNAP_DESTROY_V2; CNG_BTRFS_IOC_DEFRAG; CNG_BTRFS_IOC_DEFRAG_RANGE;
    CNG_BTRFS_IOC_SUBVOL_SETFLAGS; CNG_BTRFS_IOC_SET_RECEIVED_SUBVOL;
    CNG_F2FS_IOC_SET_PIN_FILE; CNG_FIDEDUPERANGE ].

(** ** The refused set as a bitset *)

Definition DENIED_WORDS := 8.

Definition denied_add (set : list Z) (x : Z) : list Z :=
  let nr := u32 x in
  if nr <? DENIED_WORDS * 64 then
    let w := Z.to_nat (Z.shiftr nr 6) in
    <[w := Z.lor (default 0 (set !! w)) (u64 (Z.shiftl 1 (Z.land nr 63)))]> set
  else set.

Definition denied_build : list Z :=
  fold_left denied_add enosys_syscalls (replicate (Z.to_nat DENIED_WORDS) 0).

(** [nr] is a [long]. *)
Definition cng_denied_syscall (nr : Z) : bool :=
  if DENIED_WORDS * 64 <=? u64 nr then existsb (fun x => nr =? x) enosys_syscalls
  else
    Z.land (Z.shiftr (default 0 (denied_build !! Z.to_nat (Z.shiftr nr 6))) (Z.land nr 63)) 1
    =? 1.

(** ** The base filter *)

(** The flags of the invocation and the view the monitor starts with. *)
Record bcfg := BCfg {
  g_fs : option cng_fs;
  g_fake : bool;
  g_setid_deny : bool;
  g_l2s : bool;
  b_no_proc : bool;
  b_no_dev : bool;
  g_procreg_none : bool;
  g_synth_fd_base : Z;
  g_gate_start : Z;
  g_gate_end : Z }.

Definition view_has_ro (G : bcfg) : bool :=
  match g_fs G with
  | None => false
  | Some fs => existsb b_ro (f_binds fs)
  end.

(** The numbers trapped whatever the arguments, in the order of [nr]. *)
Definition add_ro_fd (nr : list Z) : list Z :=
  fold_left (fun nr x => if existsb (fun y => y =? x) nr then nr else nr ++ [x])
    ro_fd_syscalls nr.

Definition trapped (G : bcfg) : list Z :=
  let nr := path_syscalls ++ ipc_syscalls in
  let nr := if g_fake G then nr ++ id_syscalls
            else if g_setid_deny G then nr ++ cng_setid_deny_nrs else nr in
  let nr := if view_has_ro G then add_ro_fd nr else nr in
  let nr := if g_l2s G || g_fake G || negb (b_no_proc G) then nr ++ [__NR_fstat] else nr in
  let nr := if negb (b_no_proc G) then nr ++ [__NR_fstatfs] else nr in
  let nr := if negb (b_no_proc G)
            then nr ++ [__NR_process_vm_readv; __NR_process_vm_writev; __NR_pidfd_open]
            else nr in
  let nr := if negb (b_no_proc G) && negb (g_procreg_none G)
            then nr ++ [__NR_kill; __NR_tkill; __NR_tgkill; __NR_rt_sigqueueinfo;
                        __NR_rt_tgsigqueueinfo]
            else nr in
  if g_l2s G || negb (b_no_proc G) || negb (b_no_dev G)
     || match g_fs G with
        | Some fs => (0 <? length (f_binds fs))%nat
        | None => false
        end
  then nr ++ [__NR_getdents64] else nr.

(** A run of equality tests whose hits go to the instruction after the run:
    the last one's misses skip [past] instructions. *)
Fixpoint jeq_run (ks : list Z) (past : Z) : list sock_filter :=
  match ks with
  | [] => []
  | k :: ks' =>
      jeq k (Z.of_nat (length ks')) (match ks' with [] => past | _ => 0 end)
      :: jeq_run ks' past
  end.

(** The tail's tests: a hit goes past the default answer that follows them. *)
Fixpoint jeq_tail (ks : list Z) : list sock_filter :=
  match ks with
  | [] => []
  | k :: ks' => jeq k (Z.of_nat (S (length ks'))) 0 :: jeq_tail ks'
  end.

Definition RET_ALLOW := ret CNG_SECCOMP_RET_ALLOW.
Definition RET_TRAP := ret CNG_SECCOMP_RET_TRAP.

Definition arch_block : list sock_filter :=
  [ ld CNG_SD_ARCH; jeq CNG_AUDIT_ARCH_AARCH64 1 0; ret CNG_SECCOMP_RET_KILL_THREAD ].

Definition enosys_block : list sock_filter :=
  [ ld CNG_SD_NR ] ++ jeq_run enosys_syscalls 1 ++
  [ ret (Z.lor CNG_SECCOMP_RET_ERRNO (Z.land ENOSYS CNG_SECCOMP_RET_DATA)) ].

Definition gate_block (gs ge : Z) : list sock_filter :=
  [ ld (CNG_SD_IP + 4);
    jeq (u32 (Z.shiftr gs 32)) 0 4;
    ld CNG_SD_IP;
    jge (u32 gs) 0 2;
    jge (u32 ge) 1 0;
    RET_ALLOW;
    ld CNG_SD_NR ].

Definition clone_block : list sock_filter :=
  [ jeq (u32 __NR_clone) 0 8;
    ld CNG_SD_ARGS;
    and_k CNG_CLONE_VM;
    jeq 0 3 0;
    ld CNG_SD_ARGS;
    and_k CNG_CLONE_VFORK;
    jeq 0 1 0;
    RET_TRAP;
    RET_ALLOW;
    ld CNG_SD_NR ].

Definition prctl_block : list sock_filter :=
  [ jeq (u32 __NR_prctl) 0 7;
    ld CNG_SD_ARGS;
    jeq CNG_PR_GET_SECCOMP 4 0;
    jeq CNG_PR_SET_SECCOMP 3 0;
    jeq CNG_PR_SET_NO_NEW_PRIVS 2 0;
    jeq CNG_PR_GET_NO_NEW_PRIVS 1 0;
    RET_ALLOW;
    RET_TRAP;
    ld CNG_SD_NR ].

Definition ioctl_requests (has_ro : bool) : list Z :=
  cng_ioctl_tty ++ (if has_ro then cng_ioctl_mnt_write else []).

Definition ioctl_block (has_ro : bool) : list sock_filter :=
  let ms := ioctl_requests has_ro in
  let blk := 4 + Z.of_nat (length ms) + 1 + 1 in
  [ jeq (u32 __NR_ioctl) 0 blk;
    ld (CNG_SD_ARGS + 8);
    jge CNG_SIOC_BAND_LO 0 2;
    jgt CNG_SIOC_BAND_HI 1 0;
    RET_TRAP ] ++ jeq_run ms 1 ++
  [ RET_TRAP; RET_ALLOW; ld CNG_SD_NR ].

Definition mmap_block : list sock_filter :=
  [ jeq (u32 __NR_mmap) 0 8;
    ld (CNG_SD_ARGS + 16);
    and_k CNG_PROT_EXEC;
    jeq 0 4 0;
    ld (CNG_SD_ARGS + 24);
    and_k CNG_MAP_ANONYMOUS;
    jeq 0 0 1;
    RET_TRAP;
    RET_ALLOW;
    ld CNG_SD_NR ].

Definition mprotect_block : list sock_filter :=
  [ jeq (u32 __NR_mprotect) 0 5;
    ld (CNG_SD_ARGS + 16);
    and_k CNG_PROT_EXEC;
    jeq 0 1 0;
    RET_TRAP;
    RET_ALLOW;
    ld CNG_SD_NR ].

Definition mremap_block : list sock_filter :=
  [ jeq (u32 __NR_mremap) 0 5;
    ld (CNG_SD_ARGS + 24);
    and_k CNG_MREMAP_DONTUNMAP;
    jeq 0 1 0;
    RET_TRAP;
    RET_ALLOW;
    ld CNG_SD_NR ].

(** The waits that take a signal mask, with the argument it is in. *)
Definition waits : list (Z * Z) :=
  [ (__NR_ppoll, 3); (__NR_pselect6, 5); (__NR_epoll_pwait, 4); (__NR_epoll_pwait2, 4) ].

Definition wait_block (w : Z * Z) : list sock_filter :=
  [ jeq (u32 w.1) 0 6;
    ld (CNG_SD_ARGS + 8 * w.2);
    jeq 0 0 2;
    ld (CNG_SD_ARGS + 8 * w.2 + 4);
    jeq 0 1 0;
    RET_TRAP;
    RET_ALLOW;
    ld CNG_SD_NR ].

Definition read_family : list Z :=
  [ __NR_read; __NR_pread64; __NR_readv; __NR_preadv; __NR_preadv2 ].

Definition read_block (base : Z) : list sock_filter :=
  if 0 <? base then
    jeq_run read_family 4 ++
    [ ld CNG_SD_ARGS; jge (u32 base) 0 1; RET_TRAP; RET_ALLOW; ld CNG_SD_NR ]
  else [].

(** [None] is the answer -1. *)
Definition cng_build_seccomp (G : bcfg) (cap : nat) : option (list sock_filter) :=
  let nr := trapped G in
  if (cap <? CNG_SECCOMP_MAX_INSNS)%nat then None
  else Some
    (arch_block ++ enosys_block ++ gate_block (g_gate_start G) (g_gate_end G) ++
     clone_block ++ prctl_block ++ ioctl_block (view_has_ro G) ++ mmap_block ++
     mprotect_block ++ mremap_block ++ concat (map wait_block waits) ++
     read_block (g_synth_fd_base G) ++ jeq_tail nr ++ [ RET_ALLOW; RET_TRAP ]).

(** ** The tracing filters *)

Definition emit_prologue (gs ge : Z) : list sock_filter :=
  arch_block ++ gate_block gs ge.

Definition cng_build_seccomp_traceall (gs ge : Z) (cap : nat) : option (list sock_filter) :=
  if (cap <? CNG_SECCOMP_TRACEALL_INSNS)%nat then None
  else Some
    (emit_prologue gs ge ++
     [ jeq (u32 __NR_rt_sigreturn) 7 0;
       jeq (u32 __NR_clone) 0 7;
       ld CNG_SD_ARGS;
       and_k CNG_CLONE_VM;
       jeq 0 4 0;
       ld CNG_SD_ARGS;
       and_k CNG_CLONE_VFORK;
       jeq 0 0 1;
       RET_ALLOW;
       ret (Z.lor CNG_SECCOMP_RET_TRAP CNG_TRAP_TAG_TRACEALL) ]).

Definition tracer_nrs : list Z :=
  [ __NR_wait4; __NR_waitid; __NR_kill; __NR_tkill; __NR_tgkill; __NR_process_vm_readv;
    __NR_process_vm_writev ].

Definition cng_build_seccomp_tracer (gs ge : Z) (cap : nat) : option (list sock_filter) :=
  if (cap <? CNG_SECCOMP_TRACER_INSNS)%nat then None
  else Some
    (emit_prologue gs ge ++ jeq_tail tracer_nrs ++
     [ RET_ALLOW; ret (Z.lor CNG_SECCOMP_RET_TRAP CNG_TRAP_TAG_TRACER) ]).

(** ** The interpreter *)

(** [None] is [*bad]; one turn of the loop per unit of fuel. *)
Fixpoint bpf_loop (fuel : nat) (f : list sock_filter) (data : list Z) (pc : Z) (A : Z)
    : option Z :=
  match fuel with
  | O => None
  | S fuel =>
      let next pc A := bpf_loop fuel f data pc A in
      if Z.of_nat (length f) <=? pc then None
      else match f !! Z.to_nat pc with
      | None => None
      | Some i =>
          let jump (c : bool) := next (pc + (1 + (if c then sf_jt i else sf_jf i))) A in
          if sf_code i =? LD_ABS then
            if negb (Z.land (sf_k i) 3 =? 0) || (64 <=? sf_k i) then None
            else next (pc + 1) (default 0 (data !! Z.to_nat (sf_k i / 4)))
          else if sf_code i =? ALU_AND then next (pc + 1) (Z.land A (sf_k i))
          else if sf_code i =? JMP_JEQ then jump (A =? sf_k i)
          else if sf_code i =? JMP_JGE then jump (sf_k i <=? A)
          else if sf_code i =? JMP_JGT then jump (sf_k i <? A)
          else if sf_code i =? RET_K then Some (sf_k i)
          else None
      end
  end.

Definition cng_bpf_run (f : list sock_filter) (data : list Z) : option Z :=
  bpf_loop (S (length f)) f data 0 0.

Definition filter_traps (f : list sock_filter) (d : list Z) : bool :=
  match cng_bpf_run f d with
  | None => true
  | Some act => Z.ldiff act CNG_SECCOMP_RET_DATA =? CNG_SECCOMP_RET_TRAP
  end.

(** The [seccomp_data] of a call, as the 32-bit words a filter loads. *)
Definition seccomp_data (nr arch ip : Z) (a : list Z) : list Z :=
  [ u32 nr; u32 arch; u32 ip; u32 (Z.shiftr ip 32) ] ++
  concat (map (fun x => [ u32 x; u32 (Z.shiftr x 32) ]) a).

(** [base] is the installed base filter, [None] before there is one; [live]
    is [cng_g_traps_live] and [blocked] the ambient block-list. *)
Definition cng_seccomp_traps (G : bcfg) (base : option (list sock_filter)) (live : bool)
    (blocked : Z -> bool) (nr : Z) (a : list Z) (ip : Z) (traceall tracer : bool) : bool :=
  match base with
  | None => false
  | Some g_base =>
      if negb live then false
      else
        let d := seccomp_data nr CNG_AUDIT_ARCH_AARCH64 ip a in
        let cap := Nat.max CNG_SECCOMP_TRACEALL_INSNS CNG_SECCOMP_TRACER_INSNS in
        let asks (on : bool) (f : option (list sock_filter)) :=
          on && match f with
                | Some f => (0 <? length f)%nat && filter_traps f d
                | None => false
                end in
        if filter_traps g_base d then true
        else if asks traceall
                  (cng_build_seccomp_traceall (g_gate_start G) (g_gate_end G) cap) then true
        else if asks tracer
                  (cng_build_seccomp_tracer (g_gate_start G) (g_gate_end G) cap) then true
        else (0 <=? nr) && (nr <? CNG_NR_MAX) && blocked nr
  end.
