(* ===== verification/SeccompFacts.v ===== *)
(** * Running the filters

    Every jump of a filter goes forward, so the interpreter's program counter
    is a suffix of the program: [brun] runs a suffix, agrees with the loop of
    [cng_bpf_run], and has one equation per instruction and per run of tests.
    The blocks of the builders are then decided one at a time. *)

From stdpp Require Import base list numbers.
From Stdlib Require Import ZArith Lia.
From S2P Require Import Prelude Path IpcData Unistd Seccomp.

Open Scope Z_scope.

(** ** Suffix semantics *)

Fixpoint brun (fs : list sock_filter) (skip : nat) (A : Z) (d : list Z) : option Z :=
  match fs with
  | [] => None
  | i :: fs =>
      match skip with
      | S skip => brun fs skip A d
      | O =>
          let jump (c : bool) := brun fs (Z.to_nat (if c then sf_jt i else sf_jf i)) A d in
          if sf_code i =? LD_ABS then
            if negb (Z.land (sf_k i) 3 =? 0) || (64 <=? sf_k i) then None
            else brun fs 0 (default 0 (d !! Z.to_nat (sf_k i / 4))) d
          else if sf_code i =? ALU_AND then brun fs 0 (Z.land A (sf_k i)) d
          else if sf_code i =? JMP_JEQ then jump (A =? sf_k i)
          else if sf_code i =? JMP_JGE then jump (sf_k i <=? A)
          else if sf_code i =? JMP_JGT then jump (sf_k i <? A)
          else if sf_code i =? RET_K then Some (sf_k i)
          else None
      end
  end.

Definition forward (i : sock_filter) : Prop := 0 <= sf_jt i /\ 0 <= sf_jf i.

Lemma brun_skip fs : forall k A d, brun fs k A d = brun (drop k fs) 0 A d.
Proof.
  induction fs as [|i fs IH]; intros [|k] A d; try done.
  rewrite skipn_cons. rewrite <-IH. done.
Qed.

Lemma brun_app_skip fs rest k A d :
  (length fs <= k)%nat -> brun (fs ++ rest) k A d = brun rest (k - length fs) A d.
Proof. intros H. by rewrite brun_skip, drop_app_ge, <-brun_skip by done. Qed.

(** The loop's jump to [pc + n] is the suffix's skip of [n - 1]. *)
Lemma bpf_loop_brun fuel : forall f d pc A,
  Forall forward f -> 0 <= pc -> Z.of_nat (length f) < pc + Z.of_nat fuel ->
  bpf_loop fuel f d pc A = brun (drop (Z.to_nat pc) f) 0 A d.
Proof.
  induction fuel as [|fuel IH]; intros f d pc A Hf Hpc Hfuel; cbn [bpf_loop].
  { rewrite drop_ge by lia. done. }
  destruct (Z.leb_spec (Z.of_nat (length f)) pc) as [Hge|Hlt].
  { rewrite drop_ge by lia. done. }
  destruct (lookup_lt_is_Some_2 f (Z.to_nat pc)) as [i Hi]; [lia|].
  assert (Hn : forall j A', 0 <= j ->
    bpf_loop fuel f d (pc + (1 + j)) A' = brun (drop (S (Z.to_nat pc)) f) (Z.to_nat j) A' d).
  { intros j A' Hj. rewrite IH by (done || lia).
    rewrite (brun_skip (drop _ f) (Z.to_nat j)), drop_drop.
    replace (Z.to_nat (pc + (1 + j))) with (S (Z.to_nat pc) + Z.to_nat j)%nat by lia. done. }
  assert (Hs : forall A',
    bpf_loop fuel f d (pc + 1) A' = brun (drop (S (Z.to_nat pc)) f) 0 A' d).
  { intros A'. apply (Hn 0). lia. }
  rewrite Hi. erewrite drop_S by exact Hi. cbn [brun].
  assert (Hw : forward i) by (eapply Forall_lookup_1; [exact Hf|exact Hi]).
  destruct Hw as [Hjt Hjf].
  rewrite !Hs, !Hn by (destruct (_ : bool); lia). done.
Qed.

Lemma cng_bpf_run_brun f d : Forall forward f -> cng_bpf_run f d = brun f 0 0 d.
Proof. intros Hf. unfold cng_bpf_run. by rewrite bpf_loop_brun by (done || lia). Qed.

(** ** One equation per instruction *)

Lemma brun_ld k fs A d :
  0 <= k < 64 -> k mod 4 = 0 ->
  brun (ld k :: fs) 0 A d = brun fs 0 (default 0 (d !! Z.to_nat (k / 4))) d.
Proof.
  intros Hk Hm. unfold ld, CNG_BPF_STMT. cbn [brun sf_code sf_k].
  change (u16 LD_ABS =? LD_ABS) with true. cbn iota. rewrite (wrapu_small 32) by lia.
  change 3 with (Z.ones 2). rewrite Z.land_ones by lia. change (2 ^ 2) with 4.
  rewrite Hm, (proj2 (Z.leb_gt 64 k)) by lia. done.
Qed.

Lemma brun_and k fs A d :
  0 <= k < 2 ^ 32 -> brun (and_k k :: fs) 0 A d = brun fs 0 (Z.land A k) d.
Proof.
  intros Hk. unfold and_k, CNG_BPF_STMT. cbn [brun sf_code sf_k].
  change (u16 ALU_AND =? LD_ABS) with false. change (u16 ALU_AND =? ALU_AND) with true.
  cbn iota. by rewrite (wrapu_small 32) by lia.
Qed.

Lemma brun_ret k fs A d : 0 <= k < 2 ^ 32 -> brun (ret k :: fs) 0 A d = Some k.
Proof.
  intros Hk. unfold ret, CNG_BPF_STMT. cbn [brun sf_code sf_k].
  change (u16 RET_K =? LD_ABS) with false. change (u16 RET_K =? ALU_AND) with false.
  change (u16 RET_K =? JMP_JEQ) with false. change (u16 RET_K =? JMP_JGE) with false.
  change (u16 RET_K =? JMP_JGT) with false. change (u16 RET_K =? RET_K) with true.
  cbn iota. by rewrite (wrapu_small 32) by lia.
Qed.

Lemma brun_jeq k jt jf fs A d :
  0 <= k < 2 ^ 32 -> 0 <= jt < 256 -> 0 <= jf < 256 ->
  brun (jeq k jt jf :: fs) 0 A d = brun fs (Z.to_nat (if A =? k then jt else jf)) A d.
Proof.
  intros Hk Ht Hf. unfold jeq, CNG_BPF_JUMP. cbn [brun sf_code sf_k sf_jt sf_jf].
  change (u16 JMP_JEQ =? LD_ABS) with false. change (u16 JMP_JEQ =? ALU_AND) with false.
  change (u16 JMP_JEQ =? JMP_JEQ) with true. cbn iota.
  by rewrite (wrapu_small 32), !(wrapu_small 8) by lia.
Qed.

Lemma brun_jge k jt jf fs A d :
  0 <= k < 2 ^ 32 -> 0 <= jt < 256 -> 0 <= jf < 256 ->
  brun (jge k jt jf :: fs) 0 A d = brun fs (Z.to_nat (if k <=? A then jt else jf)) A d.
Proof.
  intros Hk Ht Hf. unfold jge, CNG_BPF_JUMP. cbn [brun sf_code sf_k sf_jt sf_jf].
  change (u16 JMP_JGE =? LD_ABS) with false. change (u16 JMP_JGE =? ALU_AND) with false.
  change (u16 JMP_JGE =? JMP_JEQ) with false. change (u16 JMP_JGE =? JMP_JGE) with true.
  cbn iota. by rewrite (wrapu_small 32), !(wrapu_small 8) by lia.
Qed.

Lemma brun_jgt k jt jf fs A d :
  0 <= k < 2 ^ 32 -> 0 <= jt < 256 -> 0 <= jf < 256 ->
  brun (jgt k jt jf :: fs) 0 A d = brun fs (Z.to_nat (if k <? A then jt else jf)) A d.
Proof.
  intros Hk Ht Hf. unfold jgt, CNG_BPF_JUMP. cbn [brun sf_code sf_k sf_jt sf_jf].
  change (u16 JMP_JGT =? LD_ABS) with false. change (u16 JMP_JGT =? ALU_AND) with false.
  change (u16 JMP_JGT =? JMP_JEQ) with false. change (u16 JMP_JGT =? JMP_JGE) with false.
  change (u16 JMP_JGT =? JMP_JGT) with true.
  cbn iota. by rewrite (wrapu_small 32), !(wrapu_small 8) by lia.
Qed.

(** ** Runs of tests *)

(** Membership of a number in a table, as the spec states it. *)
Definition inb (x : Z) (l : list Z) : bool := existsb (fun y => x =? y) l.

Lemma inb_In x l : inb x l = true <-> In x l.
Proof.
  unfold inb. rewrite existsb_exists. setoid_rewrite Z.eqb_eq.
  split; [by intros (y & Hy & ->)|eauto].
Qed.

Lemma inb_app x l k : inb x (l ++ k) = inb x l || inb x k.
Proof. apply existsb_app. Qed.

Definition words (ks : list Z) : Prop := Forall (fun k => 0 <= k < 2 ^ 32) ks.

Lemma words_dec ks :
  forallb (fun k => (0 <=? k) && (k <? 2 ^ 32)) ks = true -> words ks.
Proof.
  intros H. apply List.Forall_forall. intros k Hk.
  rewrite forallb_forall in H. specialize (H k Hk). bprop. lia.
Qed.

Lemma length_jeq_run ks past : length (jeq_run ks past) = length ks.
Proof. induction ks; simpl; congruence. Qed.

Lemma brun_jeq_run ks past rest A d :
  words ks -> ks <> [] -> (length ks <= 255)%nat -> 0 <= past < 256 ->
  brun (jeq_run ks past ++ rest) 0 A d
  = brun rest (if inb A ks then 0 else Z.to_nat past) A d.
Proof.
  intros Hw Hne Hl Hp. induction ks as [|k ks IH]; [done|]. clear Hne.
  apply Forall_cons_1 in Hw as [Hk Hw]. cbn [length] in Hl. cbn [jeq_run app inb existsb].
  rewrite brun_jeq by (lia || (destruct ks; lia)).
  destruct (Z.eqb_spec A k) as [->|Hne].
  - cbn [orb]. rewrite Nat2Z.id, brun_app_skip by (rewrite length_jeq_run; lia).
    by rewrite length_jeq_run, Nat.sub_diag.
  - cbn [orb]. destruct ks as [|k' ks]; [done|]. apply IH; [done..|cbn in *; lia].
Qed.

Lemma length_jeq_tail ks : length (jeq_tail ks) = length ks.
Proof. induction ks; simpl; congruence. Qed.

Lemma brun_jeq_tail ks r0 r1 A d :
  words ks -> (length ks <= 254)%nat ->
  brun (jeq_tail ks ++ [r0; r1]) 0 A d = brun (if inb A ks then [r1] else [r0; r1]) 0 A d.
Proof.
  intros Hw Hl. induction ks as [|k ks IH]; [done|].
  apply Forall_cons_1 in Hw as [Hk Hw]. cbn [length] in Hl. cbn [jeq_tail app inb existsb].
  rewrite brun_jeq by lia. destruct (Z.eqb_spec A k) as [->|Hne]; cbn [orb].
  - rewrite Nat2Z.id, brun_app_skip by (rewrite length_jeq_tail; lia).
    rewrite length_jeq_tail. replace (S (length ks) - length ks)%nat with 1%nat by lia. done.
  - apply IH; [done|lia].
Qed.

(** * What each block of a filter decides

    The policy of the filters as a decision on the call's arguments, and one
    lemma per block: run with the system call number in the accumulator, a
    block either answers or goes on with the number still there. *)

(** ** The policy *)

Definition action (traps : bool) : Z :=
  if traps then CNG_SECCOMP_RET_TRAP else CNG_SECCOMP_RET_ALLOW.

(** [x & mask]. *)
Definition any (x mask : Z) : bool := negb (Z.land x mask =? 0).

(** A clone that makes a process, or borrows ours until its exec. *)
Definition clone_traps (flags : Z) : bool :=
  negb (any flags CNG_CLONE_VM) || any flags CNG_CLONE_VFORK.

Definition prctl_traps (op : Z) : bool :=
  inb op [CNG_PR_GET_SECCOMP; CNG_PR_SET_SECCOMP; CNG_PR_SET_NO_NEW_PRIVS;
          CNG_PR_GET_NO_NEW_PRIVS].

Definition ioctl_traps (has_ro : bool) (r : Z) : bool :=
  (CNG_SIOC_BAND_LO <=? r) && (r <=? CNG_SIOC_BAND_HI) || inb r (ioctl_requests has_ro).

Definition gated (gs ge ip : Z) : bool := (gs <=? ip) && (ip <? ge).

(** What the base filter makes of a call from outside the gate that is not in
    the refused set. *)
Definition call_traps (G : bcfg) (nr : Z) (a : list Z) : bool :=
  let arg i := default 0 (a !! i) in
  if nr =? __NR_clone then clone_traps (arg 0%nat)
  else if nr =? __NR_prctl then prctl_traps (u32 (arg 0%nat))
  else if nr =? __NR_ioctl then ioctl_traps (view_has_ro G) (u32 (arg 1%nat))
  else if nr =? __NR_mmap
  then any (arg 2%nat) CNG_PROT_EXEC && negb (any (arg 3%nat) CNG_MAP_ANONYMOUS)
  else if nr =? __NR_mprotect then any (arg 2%nat) CNG_PROT_EXEC
  else if nr =? __NR_mremap then any (arg 3%nat) CNG_MREMAP_DONTUNMAP
  else if nr =? __NR_ppoll then negb (arg 3%nat =? 0)
  else if nr =? __NR_pselect6 then negb (arg 5%nat =? 0)
  else if nr =? __NR_epoll_pwait then negb (arg 4%nat =? 0)
  else if nr =? __NR_epoll_pwait2 then negb (arg 4%nat =? 0)
  else if (0 <? g_synth_fd_base G) && inb nr read_family
  then g_synth_fd_base G <=? u32 (arg 0%nat)
  else inb nr (trapped G).

Definition base_policy (G : bcfg) (nr arch ip : Z) (a : list Z) : Z :=
  if negb (arch =? CNG_AUDIT_ARCH_AARCH64) then CNG_SECCOMP_RET_KILL_THREAD
  else if inb nr enosys_syscalls then CNG_SECCOMP_RET_ERRNO + ENOSYS
  else if gated (g_gate_start G) (g_gate_end G) ip then CNG_SECCOMP_RET_ALLOW
  else action (call_traps G nr a).

Definition traceall_policy (gs ge nr arch ip : Z) (a : list Z) : Z :=
  if negb (arch =? CNG_AUDIT_ARCH_AARCH64) then CNG_SECCOMP_RET_KILL_THREAD
  else if gated gs ge ip || (nr =? __NR_rt_sigreturn)
          || (nr =? __NR_clone) && negb (clone_traps (default 0 (a !! 0%nat)))
  then CNG_SECCOMP_RET_ALLOW
  else CNG_SECCOMP_RET_TRAP + CNG_TRAP_TAG_TRACEALL.

Definition tracer_policy (gs ge nr arch ip : Z) (a : list Z) : Z :=
  if negb (arch =? CNG_AUDIT_ARCH_AARCH64) then CNG_SECCOMP_RET_KILL_THREAD
  else if gated gs ge ip || negb (inb nr tracer_nrs) then CNG_SECCOMP_RET_ALLOW
  else CNG_SECCOMP_RET_TRAP + CNG_TRAP_TAG_TRACER.

(** ** Running a block *)

Lemma brun_S i fs k A d : brun (i :: fs) (S k) A d = brun fs k A d.
Proof. done. Qed.

Lemma brun_if (c : bool) fs jt jf A d :
  brun fs (Z.to_nat (if c then jt else jf)) A d
  = if c then brun fs (Z.to_nat jt) A d else brun fs (Z.to_nat jf) A d.
Proof. by destruct c. Qed.

Ltac bside :=
  first [ (apply wrapu_range; lia) | lia | (vm_compute; split; congruence)
        | (vm_compute; reflexivity) ].

(** Numeric skips and word indices to numerals. *)
Ltac bnorm :=
  repeat match goal with
    | |- context [Z.to_nat ?z] =>
        let n := eval vm_compute in (Z.to_nat z) in
        lazymatch n with O => idtac | S _ => idtac end;
        progress change (Z.to_nat z) with n
    end; cbn [lookup list_lookup default id].

(** One instruction. *)
Ltac bstep :=
  first [ rewrite brun_S
        | rewrite brun_ret by bside
        | rewrite brun_ld by bside; bnorm
        | rewrite brun_and by bside
        | rewrite brun_jeq by bside; rewrite brun_if; bnorm
        | rewrite brun_jge by bside; rewrite brun_if; bnorm
        | rewrite brun_jgt by bside; rewrite brun_if; bnorm ].

Ltac bstart := cbn [app]; unfold RET_ALLOW, RET_TRAP.

Section Blocks.
Context (nr arch il ih l0 h0 l1 h1 l2 h2 l3 h3 l4 h4 l5 h5 : Z).
Context (rest : list sock_filter).

Abbreviation D := [nr; arch; il; ih; l0; h0; l1; h1; l2; h2; l3; h3; l4; h4; l5; h5].

Lemma run_arch A :
  brun (arch_block ++ rest) 0 A D
  = if arch =? CNG_AUDIT_ARCH_AARCH64 then brun rest 0 arch D
    else Some CNG_SECCOMP_RET_KILL_THREAD.
Proof. unfold arch_block. bstart. repeat bstep. done. Qed.

Lemma run_clone :
  brun (clone_block ++ rest) 0 nr D
  = if nr =? __NR_clone then Some (action (clone_traps l0)) else brun rest 0 nr D.
Proof.
  unfold clone_block. bstart. repeat bstep. change (u32 __NR_clone) with __NR_clone.
  unfold action, clone_traps, any. destruct (nr =? _), (Z.land l0 CNG_CLONE_VM =? 0),
    (Z.land l0 CNG_CLONE_VFORK =? 0); done.
Qed.

Lemma run_enosys A :
  brun (enosys_block ++ rest) 0 A D
  = if inb nr enosys_syscalls then Some (CNG_SECCOMP_RET_ERRNO + ENOSYS)
    else brun rest 0 nr D.
Proof.
  unfold enosys_block. rewrite <-!app_assoc. cbn [app]. bstep.
  rewrite brun_jeq_run; [|by apply words_dec|done|by apply Nat.leb_le|lia].
  destruct (inb nr enosys_syscalls); bnorm; by bstep.
Qed.

Lemma run_gate gs ge A :
  brun (gate_block gs ge ++ rest) 0 A D
  = if (ih =? u32 (Z.shiftr gs 32)) && (u32 gs <=? il) && (il <? u32 ge)
    then Some CNG_SECCOMP_RET_ALLOW else brun rest 0 nr D.
Proof.
  unfold gate_block. bstart. repeat bstep. rewrite Z.ltb_antisym.
  destruct (ih =? _), (u32 gs <=? il), (u32 ge <=? il); done.
Qed.

Lemma run_prctl :
  brun (prctl_block ++ rest) 0 nr D
  = if nr =? __NR_prctl then Some (action (prctl_traps l0)) else brun rest 0 nr D.
Proof.
  unfold prctl_block. bstart. repeat bstep. change (u32 __NR_prctl) with __NR_prctl.
  unfold action, prctl_traps, inb. cbn [existsb].
  destruct (nr =? _), (l0 =? CNG_PR_GET_SECCOMP), (l0 =? CNG_PR_SET_SECCOMP),
    (l0 =? CNG_PR_SET_NO_NEW_PRIVS), (l0 =? CNG_PR_GET_NO_NEW_PRIVS); done.
Qed.

Lemma run_mmap :
  brun (mmap_block ++ rest) 0 nr D
  = if nr =? __NR_mmap
    then Some (action (any l2 CNG_PROT_EXEC && negb (any l3 CNG_MAP_ANONYMOUS)))
    else brun rest 0 nr D.
Proof.
  unfold mmap_block. bstart. repeat bstep. change (u32 __NR_mmap) with __NR_mmap.
  unfold action, any.
  destruct (nr =? _), (Z.land l2 CNG_PROT_EXEC =? 0), (Z.land l3 CNG_MAP_ANONYMOUS =? 0); done.
Qed.

Lemma run_mprotect :
  brun (mprotect_block ++ rest) 0 nr D
  = if nr =? __NR_mprotect then Some (action (any l2 CNG_PROT_EXEC)) else brun rest 0 nr D.
Proof.
  unfold mprotect_block. bstart. repeat bstep. change (u32 __NR_mprotect) with __NR_mprotect.
  unfold action, any. destruct (nr =? _), (Z.land l2 CNG_PROT_EXEC =? 0); done.
Qed.

Lemma run_mremap :
  brun (mremap_block ++ rest) 0 nr D
  = if nr =? __NR_mremap then Some (action (any l3 CNG_MREMAP_DONTUNMAP))
    else brun rest 0 nr D.
Proof.
  unfold mremap_block. bstart. repeat bstep. change (u32 __NR_mremap) with __NR_mremap.
  unfold action, any. destruct (nr =? _), (Z.land l3 CNG_MREMAP_DONTUNMAP =? 0); done.
Qed.

Lemma run_ioctl has_ro :
  brun (ioctl_block has_ro ++ rest) 0 nr D
  = if nr =? __NR_ioctl then Some (action (ioctl_traps has_ro l1)) else brun rest 0 nr D.
Proof.
  unfold ioctl_block. set (ms := ioctl_requests has_ro).
  assert (Hms : words ms /\ ms <> [] /\ (length ms <= 25)%nat).
  { unfold ms. split; [|split]; [apply words_dec; by destruct has_ro
      |by destruct has_ro|apply Nat.leb_le; by destruct has_ro]. }
  destruct Hms as (Hw & Hne & Hl). rewrite <-!app_assoc. bstart. change (u32 __NR_ioctl) with __NR_ioctl.
  rewrite brun_jeq by (lia || bside). rewrite brun_if. destruct (nr =? __NR_ioctl) eqn:En.
  - bnorm. repeat bstep. unfold action, ioctl_traps. fold ms.
    rewrite brun_jeq_run by (done || lia). rewrite (Z.leb_antisym CNG_SIOC_BAND_HI l1).
    destruct (CNG_SIOC_BAND_LO <=? l1), (CNG_SIOC_BAND_HI <? l1), (inb l1 ms); cbn [andb orb negb];
      bnorm; by repeat bstep.
  - replace (Z.to_nat (4 + Z.of_nat (length ms) + 1 + 1)) with (4 + (length ms + 2))%nat by lia.
    cbn [Nat.add]. rewrite !brun_S. rewrite brun_app_skip by (rewrite length_jeq_run; lia).
    rewrite length_jeq_run. replace (length ms + 2 - length ms)%nat with 2%nat by lia.
    by repeat bstep.
Qed.

Lemma run_wait k i lo hi rest' :
  0 <= k < 2 ^ 32 -> In (i, lo, hi) [(3, l3, h3); (5, l5, h5); (4, l4, h4)] ->
  brun (wait_block (k, i) ++ rest') 0 nr D
  = if nr =? k then Some (action (negb ((lo =? 0) && (hi =? 0)))) else brun rest' 0 nr D.
Proof.
  intros Hk Hi. assert (Ek : u32 k = k) by (by apply wrapu_small).
  destruct Hi as [E|[E|[E|[]]]]; injection E as <- <- <-;
    unfold wait_block; cbn [fst snd]; bstart; rewrite Ek; repeat bstep;
    unfold action; repeat case_if; done.
Qed.

Lemma run_waits :
  brun (concat (map wait_block waits) ++ rest) 0 nr D
  = if nr =? __NR_ppoll then Some (action (negb ((l3 =? 0) && (h3 =? 0))))
    else if nr =? __NR_pselect6 then Some (action (negb ((l5 =? 0) && (h5 =? 0))))
    else if nr =? __NR_epoll_pwait then Some (action (negb ((l4 =? 0) && (h4 =? 0))))
    else if nr =? __NR_epoll_pwait2 then Some (action (negb ((l4 =? 0) && (h4 =? 0))))
    else brun rest 0 nr D.
Proof.
  unfold waits. cbn [map concat]. rewrite <-!app_assoc.
  rewrite (run_wait __NR_ppoll 3 l3 h3) by (done || (left; done)).
  rewrite (run_wait __NR_pselect6 5 l5 h5) by (done || (right; left; done)).
  rewrite (run_wait __NR_epoll_pwait 4 l4 h4) by (done || (right; right; left; done)).
  rewrite (run_wait __NR_epoll_pwait2 4 l4 h4) by (done || (right; right; left; done)).
  done.
Qed.

Lemma run_read base :
  base < 2 ^ 31 ->
  brun (read_block base ++ rest) 0 nr D
  = if (0 <? base) && inb nr read_family then Some (action (base <=? l0))
    else brun rest 0 nr D.
Proof.
  intros Hb. unfold read_block. destruct (Z.ltb_spec 0 base); [|done]. cbn [andb].
  rewrite <-app_assoc.
  rewrite brun_jeq_run; [|by apply words_dec|done|by apply Nat.leb_le|lia].
  bstart. rewrite (wrapu_small 32 base) by lia. destruct (inb nr read_family).
  - repeat bstep. unfold action. by destruct (base <=? l0).
  - bnorm. by repeat bstep.
Qed.
End Blocks.
