(* ===== verification/SeccompProps.v ===== *)
(** * The filters: the properties *)

From stdpp Require Import base list numbers.
From Stdlib Require Import ZArith Lia.
From S2P Require Import Prelude Path IpcData Unistd Seccomp SeccompFacts.

Open Scope Z_scope.

(** ** The trapped set *)

Lemma trapped_sound G :
  forallb (fun k => (0 <=? k) && (k <? 2 ^ 32)) (trapped G) = true /\
  (length (trapped G) <=? length path_syscalls + length ipc_syscalls +
     length id_syscalls + length ro_fd_syscalls + 11)%nat = true.
Proof.
  unfold trapped.
  generalize (view_has_ro G); intros ro.
  generalize (match g_fs G with Some fs => (0 <? length (f_binds fs))%nat | None => false end);
    intros nb.
  destruct (g_fake G), (g_setid_deny G), ro, (g_l2s G), (b_no_proc G), (b_no_dev G),
    (g_procreg_none G), nb; vm_compute; done.
Qed.

Lemma trapped_words G : words (trapped G).
Proof. apply words_dec. apply trapped_sound. Qed.

Lemma trapped_length G : (length (trapped G) <= 114)%nat.
Proof. apply Nat.leb_le. apply trapped_sound. Qed.

(** Every member of a table that is always there. *)
Lemma trapped_core G x : inb x (path_syscalls ++ ipc_syscalls) = true -> inb x (trapped G) = true.
Proof.
  intros H.
  assert (Hro : forall l, inb x l = true -> inb x (add_ro_fd l) = true).
  { intros l. unfold add_ro_fd. revert l.
    induction ro_fd_syscalls as [|y ys IH]; intros l Hl; simpl; [done|].
    apply IH. case_if; [done|]. by rewrite inb_app, Hl. }
  unfold trapped. cbv zeta.
  repeat match goal with
    | |- inb _ (path_syscalls ++ ipc_syscalls) = true => exact H
    | |- inb _ (if ?b then _ else _) = true => destruct b
    | |- inb _ (_ ++ _) = true => rewrite inb_app; apply orb_true_intro; left
    | |- inb _ (add_ro_fd _) = true => apply Hro
    end.
Qed.

(** ** Loads, masks and the gate *)

Lemma any_u32 x m : 0 <= m < 2 ^ 32 -> any (u32 x) m = any x m.
Proof.
  intros Hm. unfold any, wrapu. rewrite <-Z.land_ones by lia.
  rewrite <-Z.land_assoc, (Z.land_comm (Z.ones 32)), Z.land_ones by lia.
  by rewrite Z.mod_small by lia.
Qed.

Lemma zero_halves x :
  0 <= x < 2 ^ 64 -> (u32 x =? 0) && (u32 (Z.shiftr x 32) =? 0) = (x =? 0).
Proof.
  intros Hx. rewrite Z.shiftr_div_pow2 by lia.
  assert (Hd : 0 <= x / 2 ^ 32 < 2 ^ 32) by (split; [apply Z.div_pos|apply Z.div_lt_upper_bound]; lia).
  rewrite (wrapu_small 32 (x / 2 ^ 32)) by lia. unfold wrapu.
  pose proof (Z.div_mod x (2 ^ 32)). pose proof (Z.mod_pos_bound x (2 ^ 32)).
  apply Bool.eq_iff_eq_true. bprop. lia.
Qed.

(** The gate lies within one 4 GiB page of the address space. *)
Definition gate_ok (gs ge : Z) : Prop :=
  0 <= gs < 2 ^ 64 /\ 0 <= ge < 2 ^ 64 /\ gs / 2 ^ 32 = ge / 2 ^ 32.

Lemma gate_halves gs ge ip :
  gate_ok gs ge -> 0 <= ip < 2 ^ 64 ->
  (u32 (Z.shiftr ip 32) =? u32 (Z.shiftr gs 32)) && (u32 gs <=? u32 ip) && (u32 ip <? u32 ge)
  = gated gs ge ip.
Proof.
  intros (Hgs & Hge & Hpage) Hip. unfold gated. rewrite !Z.shiftr_div_pow2 by lia.
  assert (Hd : forall x, 0 <= x < 2 ^ 64 -> 0 <= x / 2 ^ 32 < 2 ^ 32).
  { intros x Hx. split; [apply Z.div_pos|apply Z.div_lt_upper_bound]; lia. }
  rewrite !(wrapu_small 32 (_ / _)) by auto. unfold wrapu.
  pose proof (Z.div_mod gs (2 ^ 32)). pose proof (Z.div_mod ge (2 ^ 32)).
  pose proof (Z.div_mod ip (2 ^ 32)).
  pose proof (Z.mod_pos_bound gs (2 ^ 32)). pose proof (Z.mod_pos_bound ge (2 ^ 32)).
  pose proof (Z.mod_pos_bound ip (2 ^ 32)). specialize (Hd ip Hip).
  apply Bool.eq_iff_eq_true. bprop. lia.
Qed.

(** ** Well-formed programs *)

Lemma forward_stmt c k : forward (CNG_BPF_STMT c k).
Proof. split; simpl; lia. Qed.

Lemma forward_jump c k jt jf : forward (CNG_BPF_JUMP c k jt jf).
Proof. split; simpl; apply wrapu_range; lia. Qed.

Lemma forward_run ks past : Forall forward (jeq_run ks past).
Proof. induction ks; simpl; constructor; [apply forward_jump|done]. Qed.

Lemma forward_tail ks : Forall forward (jeq_tail ks).
Proof. induction ks; simpl; constructor; [apply forward_jump|done]. Qed.

Ltac forward :=
  repeat first
    [ apply forward_stmt | apply forward_jump | apply forward_run | apply forward_tail
    | apply Forall_app_2 | apply Forall_cons_2 | apply Forall_nil_2 ].

(** A call as the kernel presents it. *)
Definition call_ok (nr arch ip : Z) (a : list Z) : Prop :=
  0 <= nr < 2 ^ 32 /\ 0 <= arch < 2 ^ 32 /\ 0 <= ip < 2 ^ 64 /\ length a = 6%nat /\
  Forall (fun x => 0 <= x < 2 ^ 64) a.

Lemma call_ok_dec nr arch ip a :
  (0 <=? nr) && (nr <? 2 ^ 32) && ((0 <=? arch) && (arch <? 2 ^ 32))
  && ((0 <=? ip) && (ip <? 2 ^ 64)) && (length a =? 6)%nat
  && forallb (fun x => (0 <=? x) && (x <? 2 ^ 64)) a = true ->
  call_ok nr arch ip a.
Proof.
  intros H. repeat (apply andb_true_iff in H as [H ?]). bprop.
  split; [lia|]. split; [lia|]. split; [lia|]. split; [done|].
  apply List.Forall_forall. intros x Hx.
  match goal with Hf : forallb _ a = true |- _ => rewrite forallb_forall in Hf;
    specialize (Hf x Hx) end. bprop. lia.
Qed.

Lemma args_of (a : list Z) :
  length a = 6%nat -> exists a0 a1 a2 a3 a4 a5, a = [a0; a1; a2; a3; a4; a5].
Proof.
  intros H. do 6 (destruct a as [|? a]; [done|]). destruct a; [|done]. by do 6 eexists.
Qed.

(** ** The base filter *)

Lemma base_run G nr arch ip a0 a1 a2 a3 a4 a5 :
  gate_ok (g_gate_start G) (g_gate_end G) -> g_synth_fd_base G < 2 ^ 31 ->
  0 <= nr < 2 ^ 32 -> 0 <= arch < 2 ^ 32 -> 0 <= ip < 2 ^ 64 ->
  0 <= a3 < 2 ^ 64 -> 0 <= a4 < 2 ^ 64 -> 0 <= a5 < 2 ^ 64 ->
  forall f, cng_build_seccomp G CNG_SECCOMP_MAX_INSNS = Some f ->
  brun f 0 0 (seccomp_data nr arch ip [a0; a1; a2; a3; a4; a5])
  = Some (base_policy G nr arch ip [a0; a1; a2; a3; a4; a5]).
Proof.
  intros Hg Hb Hnr Har Hip H3 H4 H5 f Hf.
  unfold cng_build_seccomp in Hf. rewrite Nat.ltb_irrefl in Hf. apply (inj Some) in Hf. subst f.
  unfold seccomp_data. cbn [map concat app]. rewrite (wrapu_small 32 nr), (wrapu_small 32 arch) by lia.
  rewrite run_arch. unfold base_policy. destruct (arch =? CNG_AUDIT_ARCH_AARCH64); [|done].
  rewrite run_enosys. cbn [negb]. destruct (inb nr enosys_syscalls); [done|].
  rewrite run_gate, gate_halves by done. destruct (gated _ _ ip); [done|].
  rewrite run_clone, run_prctl, run_ioctl, run_mmap, run_mprotect, run_mremap.
  rewrite run_waits, run_read by done. unfold call_traps. cbn [lookup list_lookup default id].
  rewrite !zero_halves by done. rewrite brun_jeq_tail;
    [|apply trapped_words|pose proof (trapped_length G); lia].
  unfold clone_traps. rewrite !any_u32 by (vm_compute; split; congruence).
  repeat match goal with
    | |- (if ?b then _ else _) = _ => destruct b; [done|]
    end.
  unfold RET_ALLOW, RET_TRAP.
  destruct (inb nr (trapped G)); by rewrite brun_ret by (vm_compute; split; congruence).
Qed.

Lemma base_forward G f :
  cng_build_seccomp G CNG_SECCOMP_MAX_INSNS = Some f -> Forall forward f.
Proof.
  intros Hf. unfold cng_build_seccomp in Hf. rewrite Nat.ltb_irrefl in Hf.
  apply (inj Some) in Hf. subst f.
  unfold arch_block, enosys_block, gate_block, clone_block, prctl_block, ioctl_block,
    mmap_block, mprotect_block, mremap_block, waits, wait_block, read_block.
  cbn [map concat]. destruct (0 <? g_synth_fd_base G); forward.
Qed.

(** C32: the base filter decides exactly its policy.  For every configuration
    and every call, the program the builder writes runs to an answer, never off
    its end and never on an instruction the kernel would refuse, and the answer
    is the policy's: another architecture is killed, the refused set answers
    ENOSYS (from inside the gate too), a call from the gate is allowed, and
    anything else traps or is allowed by its number and arguments. *)
Theorem base_filter_decides (G : bcfg) (nr arch ip : Z) (a : list Z)
    (Hgate : gate_ok (g_gate_start G) (g_gate_end G)) (Hfd : g_synth_fd_base G < 2 ^ 31)
    (Hcall : call_ok nr arch ip a) :
  exists f, cng_build_seccomp G CNG_SECCOMP_MAX_INSNS = Some f /\
    cng_bpf_run f (seccomp_data nr arch ip a) = Some (base_policy G nr arch ip a).
Proof.
  destruct (cng_build_seccomp G CNG_SECCOMP_MAX_INSNS) as [f|] eqn:Ef;
    [|unfold cng_build_seccomp in Ef; by rewrite Nat.ltb_irrefl in Ef].
  exists f. split; [done|]. rewrite cng_bpf_run_brun by (by eapply base_forward).
  destruct Hcall as (? & ? & ? & (a0 & a1 & a2 & a3 & a4 & a5 & ->)%args_of & Ha).
  repeat (apply Forall_cons_1 in Ha as [? Ha]).
  by apply base_run.
Qed.

Definition bcfg0 : bcfg :=
  BCfg None true false true false false false 1000 0x410000 0x410080.

Lemma bcfg0_gate : gate_ok (g_gate_start bcfg0) (g_gate_end bcfg0).
Proof. split; [|split]; [split; [discriminate|reflexivity]..|reflexivity]. Qed.

Lemma base_filter_decides_witness :
  exists f, cng_build_seccomp bcfg0 CNG_SECCOMP_MAX_INSNS = Some f /\
    cng_bpf_run f (seccomp_data __NR_openat CNG_AUDIT_ARCH_AARCH64 0x7f0000001000
                     [4; 5; 6; 0; 0; 0])
    = Some CNG_SECCOMP_RET_TRAP.
Proof.
  apply (base_filter_decides bcfg0 __NR_openat CNG_AUDIT_ARCH_AARCH64 0x7f0000001000
    [4; 5; 6; 0; 0; 0]).
  - exact bcfg0_gate.
  - reflexivity.
  - by apply call_ok_dec.
Defined.

(** ** The refused set *)

Lemma denied_table :
  forallb (fun n => Bool.eqb (cng_denied_syscall (Z.of_nat n)) (inb (Z.of_nat n) enosys_syscalls))
    (seq 0 512) = true.
Proof. vm_compute. reflexivity. Qed.

Lemma denied_spec nr :
  - 2 ^ 63 <= nr < 2 ^ 63 -> cng_denied_syscall nr = inb nr enosys_syscalls.
Proof.
  intros Hnr. destruct (Z_lt_ge_dec nr 0) as [Hneg|Hpos].
  - unfold cng_denied_syscall. replace (DENIED_WORDS * 64 <=? u64 nr) with true; [done|].
    symmetry. apply Z.leb_le. unfold wrapu, DENIED_WORDS.
    rewrite <-(Z.mod_add nr 1) by lia. rewrite Z.mod_small; lia.
  - destruct (Z_lt_ge_dec nr 512) as [Hlt|Hge].
    + pose proof denied_table as H. rewrite forallb_forall in H.
      specialize (H (Z.to_nat nr)). rewrite Z2Nat.id in H by lia.
      apply eqb_prop, H. apply in_seq. lia.
    + unfold cng_denied_syscall. rewrite (wrapu_small 64) by lia.
      by replace (DENIED_WORDS * 64 <=? nr) with true by (symmetry; apply Z.leb_le; unfold DENIED_WORDS; lia).
Qed.

(** No path or IPC call is one of those the filter judges by argument. *)
Lemma core_call_traps G nr a :
  inb nr (path_syscalls ++ ipc_syscalls) = true -> call_traps G nr a = true.
Proof.
  intros H. pose proof (trapped_core G nr H) as Ht.
  assert (Hne : inb nr ([__NR_clone; __NR_prctl; __NR_ioctl; __NR_mmap; __NR_mprotect;
    __NR_mremap; __NR_ppoll; __NR_pselect6; __NR_epoll_pwait; __NR_epoll_pwait2] ++ read_family)
    = false).
  { assert (Hall : forallb (fun nr => negb (inb nr ([__NR_clone; __NR_prctl; __NR_ioctl;
      __NR_mmap; __NR_mprotect; __NR_mremap; __NR_ppoll; __NR_pselect6; __NR_epoll_pwait;
      __NR_epoll_pwait2] ++ read_family))) (path_syscalls ++ ipc_syscalls) = true) by done.
    rewrite forallb_forall in Hall. apply negb_true_iff, Hall. by apply inb_In. }
  rewrite inb_app in Hne. apply orb_false_iff in Hne as [Hne Hread].
  unfold inb in Hne. cbn [existsb] in Hne. unfold call_traps. rewrite Hread, andb_false_r.
  repeat (apply orb_false_iff in Hne as [-> Hne]). exact Ht.
Qed.

Lemma core_not_refused nr :
  inb nr (path_syscalls ++ ipc_syscalls) = true -> inb nr enosys_syscalls = false.
Proof.
  intros H. apply inb_In in H.
  assert (Hall : forallb (fun nr => negb (inb nr enosys_syscalls))
    (path_syscalls ++ ipc_syscalls) = true) by done.
  rewrite forallb_forall in Hall. apply negb_true_iff, Hall, H.
Qed.

(** Nothing that names a path or a System V object reaches the host's
    kernel unseen.  Under every configuration each such call made outside the
    gate traps whatever its arguments; a call of the refused set is answered
    ENOSYS from anywhere, the gate included; every other call from the gate is
    let through, so a re-issued call never traps again; and the tier with no
    filter refuses the same set, by its bitset. *)
Theorem filter_contains (G : bcfg) (nr ip : Z) (a : list Z) (f : list sock_filter)
    (Hgate : gate_ok (g_gate_start G) (g_gate_end G)) (Hfd : g_synth_fd_base G < 2 ^ 31)
    (Hcall : call_ok nr CNG_AUDIT_ARCH_AARCH64 ip a)
    (Hf : cng_build_seccomp G CNG_SECCOMP_MAX_INSNS = Some f) :
  let answer := cng_bpf_run f (seccomp_data nr CNG_AUDIT_ARCH_AARCH64 ip a) in
  let in_gate := gated (g_gate_start G) (g_gate_end G) ip in
  (In nr (path_syscalls ++ ipc_syscalls) -> in_gate = false ->
   answer = Some CNG_SECCOMP_RET_TRAP) /\
  (In nr enosys_syscalls -> answer = Some (CNG_SECCOMP_RET_ERRNO + ENOSYS)) /\
  (~ In nr enosys_syscalls -> in_gate = true -> answer = Some CNG_SECCOMP_RET_ALLOW) /\
  (cng_denied_syscall nr = true <-> In nr enosys_syscalls).
Proof.
  intros answer in_gate. subst answer in_gate.
  rewrite cng_bpf_run_brun by (by eapply base_forward).
  destruct Hcall as (Hnr & ? & ? & (a0 & a1 & a2 & a3 & a4 & a5 & ->)%args_of & Ha).
  repeat (apply Forall_cons_1 in Ha as [? Ha]).
  rewrite (base_run G nr CNG_AUDIT_ARCH_AARCH64 ip a0 a1 a2 a3 a4 a5) by done.
  unfold base_policy. rewrite Z.eqb_refl. cbn [negb].
  rewrite denied_spec by lia. rewrite <-!inb_In. split; [|split; [|split; [|done]]].
  - intros Hin Hg. rewrite (core_not_refused nr), Hg, core_call_traps; done.
  - by intros ->.
  - intros Hn Hg. destruct (inb nr enosys_syscalls); [done|]. by rewrite Hg.
Qed.

Lemma filter_contains_witness :
  exists f, cng_build_seccomp bcfg0 CNG_SECCOMP_MAX_INSNS = Some f /\
    cng_bpf_run f (seccomp_data __NR_openat CNG_AUDIT_ARCH_AARCH64 0x410010 [4; 5; 6; 0; 0; 0])
    = Some CNG_SECCOMP_RET_ALLOW.
Proof.
  destruct (cng_build_seccomp bcfg0 CNG_SECCOMP_MAX_INSNS) as [f|] eqn:Ef;
    [|vm_compute in Ef; discriminate].
  exists f. split; [reflexivity|].
  apply (filter_contains bcfg0 __NR_openat 0x410010 [4; 5; 6; 0; 0; 0] f);
    [| |  |exact Ef| |].
  - exact bcfg0_gate.
  - reflexivity.
  - by apply call_ok_dec.
  - rewrite <-inb_In. vm_compute. discriminate.
  - reflexivity.
Defined.


(** ** The tracing filters *)

Lemma traceall_run gs ge nr arch ip a0 a1 a2 a3 a4 a5 f :
  gate_ok gs ge -> 0 <= nr < 2 ^ 32 -> 0 <= arch < 2 ^ 32 -> 0 <= ip < 2 ^ 64 ->
  cng_build_seccomp_traceall gs ge CNG_SECCOMP_TRACEALL_INSNS = Some f ->
  cng_bpf_run f (seccomp_data nr arch ip [a0; a1; a2; a3; a4; a5])
  = Some (traceall_policy gs ge nr arch ip [a0; a1; a2; a3; a4; a5]).
Proof.
  intros Hg Hnr Har Hip Hf. unfold cng_build_seccomp_traceall in Hf.
  rewrite Nat.ltb_irrefl in Hf. apply (inj Some) in Hf. subst f.
  rewrite cng_bpf_run_brun by (unfold emit_prologue, arch_block, gate_block; forward).
  unfold seccomp_data. cbn [map concat app]. rewrite (wrapu_small 32 nr), (wrapu_small 32 arch) by lia.
  unfold emit_prologue. rewrite <-app_assoc, run_arch. unfold traceall_policy.
  destruct (arch =? CNG_AUDIT_ARCH_AARCH64); [|done]. cbn [negb].
  rewrite run_gate, gate_halves by done. destruct (gated gs ge ip); [done|]. cbn [orb].
  unfold RET_ALLOW. repeat bstep.
  change (u32 __NR_rt_sigreturn) with __NR_rt_sigreturn. change (u32 __NR_clone) with __NR_clone.
  cbn [lookup list_lookup default id]. unfold clone_traps.
  rewrite <-!(any_u32 a0) by (vm_compute; split; congruence). unfold any.
  destruct (nr =? __NR_rt_sigreturn), (nr =? __NR_clone), (Z.land (u32 a0) CNG_CLONE_VM =? 0),
    (Z.land (u32 a0) CNG_CLONE_VFORK =? 0); done.
Qed.

Lemma tracer_run gs ge nr arch ip a0 a1 a2 a3 a4 a5 f :
  gate_ok gs ge -> 0 <= nr < 2 ^ 32 -> 0 <= arch < 2 ^ 32 -> 0 <= ip < 2 ^ 64 ->
  cng_build_seccomp_tracer gs ge CNG_SECCOMP_TRACER_INSNS = Some f ->
  cng_bpf_run f (seccomp_data nr arch ip [a0; a1; a2; a3; a4; a5])
  = Some (tracer_policy gs ge nr arch ip [a0; a1; a2; a3; a4; a5]).
Proof.
  intros Hg Hnr Har Hip Hf. unfold cng_build_seccomp_tracer in Hf.
  rewrite Nat.ltb_irrefl in Hf. apply (inj Some) in Hf. subst f.
  rewrite cng_bpf_run_brun by (unfold emit_prologue, arch_block, gate_block; forward).
  unfold seccomp_data. cbn [map concat app]. rewrite (wrapu_small 32 nr), (wrapu_small 32 arch) by lia.
  unfold emit_prologue. rewrite <-app_assoc, run_arch. unfold tracer_policy.
  destruct (arch =? CNG_AUDIT_ARCH_AARCH64); [|done]. cbn [negb].
  rewrite run_gate, gate_halves by done. destruct (gated gs ge ip); [done|]. cbn [orb].
  rewrite brun_jeq_tail by (by apply words_dec || by apply Nat.leb_le). unfold RET_ALLOW.
  destruct (inb nr tracer_nrs); by bstep.
Qed.

(** The monitor's own answer to "would this call trap here?" is the
    union of the filters stacked on the task: what the base filter traps, what
    a tracee's filter traps (everything but the gate, the signal return and a
    thread's clone), what a tracer's filter traps (its seven calls), and the
    calls an ambient filter was measured to refuse. *)
Theorem seccomp_traps_predicts (G : bcfg) (nr ip : Z) (a : list Z) (blocked : Z -> bool)
    (traceall tracer : bool)
    (Hgate : gate_ok (g_gate_start G) (g_gate_end G)) (Hfd : g_synth_fd_base G < 2 ^ 31)
    (Hcall : call_ok nr CNG_AUDIT_ARCH_AARCH64 ip a) :
  let out := negb (gated (g_gate_start G) (g_gate_end G) ip) in
  cng_seccomp_traps G (cng_build_seccomp G CNG_SECCOMP_MAX_INSNS) true blocked nr a ip
    traceall tracer
  = out && negb (inb nr enosys_syscalls) && call_traps G nr a
    || traceall && out && negb (nr =? __NR_rt_sigreturn)
       && implb (nr =? __NR_clone) (clone_traps (default 0 (a !! 0%nat)))
    || tracer && out && inb nr tracer_nrs
    || (nr <? CNG_NR_MAX) && blocked nr.
Proof.
  intros out. unfold out. clear out.
  destruct Hcall as (Hnr & ? & Hip & (a0 & a1 & a2 & a3 & a4 & a5 & ->)%args_of & Ha).
  repeat (apply Forall_cons_1 in Ha as [? Ha]).
  unfold cng_seccomp_traps. destruct (cng_build_seccomp G CNG_SECCOMP_MAX_INSNS) as [f|] eqn:Ef;
    [|unfold cng_build_seccomp in Ef; by rewrite Nat.ltb_irrefl in Ef].
  change (Nat.max CNG_SECCOMP_TRACEALL_INSNS CNG_SECCOMP_TRACER_INSNS) with 24%nat.
  destruct (cng_build_seccomp_traceall _ _ 24) as [f1|] eqn:E1; [|done].
  destruct (cng_build_seccomp_tracer _ _ 24) as [f2|] eqn:E2; [|done].
  cbv zeta. cbn [negb]. unfold filter_traps.
  rewrite (cng_bpf_run_brun f) by (by eapply base_forward).
  rewrite (base_run G nr CNG_AUDIT_ARCH_AARCH64 ip a0 a1 a2 a3 a4 a5) by done.
  rewrite (traceall_run _ _ nr CNG_AUDIT_ARCH_AARCH64 ip a0 a1 a2 a3 a4 a5 f1 Hgate) by done.
  rewrite (tracer_run _ _ nr CNG_AUDIT_ARCH_AARCH64 ip a0 a1 a2 a3 a4 a5 f2 Hgate) by done.
  rewrite (proj2 (Nat.ltb_lt 0 (length f1))) by (apply Nat.ltb_lt; injection E1 as <-; done).
  rewrite (proj2 (Nat.ltb_lt 0 (length f2))) by (apply Nat.ltb_lt; injection E2 as <-; done).
  rewrite (proj2 (Z.leb_le 0 nr)) by lia.
  unfold base_policy, traceall_policy, tracer_policy. rewrite Z.eqb_refl.
  cbn [negb andb lookup list_lookup default id].
  destruct (gated _ _ ip), (inb nr enosys_syscalls), (call_traps G nr _), traceall, tracer,
    (nr =? __NR_rt_sigreturn), (nr =? __NR_clone), (clone_traps a0), (inb nr tracer_nrs);
    reflexivity.
Qed.

Lemma seccomp_traps_predicts_witness :
  cng_seccomp_traps bcfg0 (cng_build_seccomp bcfg0 CNG_SECCOMP_MAX_INSNS) true (fun _ => false)
    __NR_clone [0x100; 0; 0; 0; 0; 0] 0x7f0000001000 true false = false.
Proof.
  rewrite (seccomp_traps_predicts bcfg0 __NR_clone 0x7f0000001000 [0x100; 0; 0; 0; 0; 0]).
  - vm_compute. reflexivity.
  - exact bcfg0_gate.
  - reflexivity.
  - by apply call_ok_dec.
Defined.
