(* ===== verification/Page.v ===== *)
(** * Page arithmetic (src/include/cng/loader.h)

    The page size is a parameter, the host's; [page_ok] holds of the sizes an
    AArch64 Linux has. *)

From stdpp Require Import base numbers.
From Stdlib Require Import ZArith Lia.
From S2P Require Import Prelude.

Open Scope Z_scope.

Section Page.
Context (pg : Z).

Definition cng_page_down (a : Z) : Z := Z.ldiff a (pg - 1).

Definition cng_page_up (a : Z) : Z := Z.ldiff (u64 (a + pg - 1)) (pg - 1).

(** The page-rounded end of [a, a + n), where that is an address. *)
Definition cng_page_end (a n : Z) : option Z :=
  let e := u64 (a + n) in
  if (e <? a) || (2 ^ 64 - 1 - (pg - 1) <? e) then None else Some (cng_page_up e).

Definition page_ok : Prop := pg = 2 ^ 12 \/ pg = 2 ^ 14 \/ pg = 2 ^ 16.

Hypothesis Hpg : page_ok.

Lemma page_pow : exists k, 12 <= k <= 16 /\ pg = 2 ^ k.
Proof. destruct Hpg as [->|[->| ->]]; eexists; (split; [|reflexivity]); lia. Qed.

Lemma page_range : 4096 <= pg <= 65536.
Proof. destruct Hpg as [->|[->| ->]]; lia. Qed.

(** Clearing the low bits rounds down. *)
Lemma ldiff_page a : Z.ldiff a (pg - 1) = pg * (a / pg).
Proof.
  destruct page_pow as (k & Hk & ->).
  replace (2 ^ k - 1) with (Z.ones k) by (rewrite Z.ones_equiv; lia).
  rewrite Z.ldiff_ones_r by lia. rewrite Z.shiftl_mul_pow2, Z.shiftr_div_pow2 by lia. lia.
Qed.

Lemma page_down_spec a :
  cng_page_down a <= a < cng_page_down a + pg /\ cng_page_down a mod pg = 0.
Proof.
  unfold cng_page_down. rewrite ldiff_page. pose proof page_range.
  pose proof (Z.div_mod a pg ltac:(lia)). pose proof (Z.mod_pos_bound a pg ltac:(lia)).
  split; [lia|]. rewrite Z.mul_comm. apply Z.mod_mul. lia.
Qed.

Lemma page_up_spec a :
  0 <= a <= 2 ^ 64 - pg ->
  a <= cng_page_up a < a + pg /\ cng_page_up a mod pg = 0.
Proof.
  intros Ha. unfold cng_page_up. pose proof page_range.
  rewrite wrapu_small by lia. rewrite ldiff_page.
  pose proof (Z.div_mod (a + pg - 1) pg ltac:(lia)).
  pose proof (Z.mod_pos_bound (a + pg - 1) pg ltac:(lia)).
  split; [lia|]. rewrite Z.mul_comm. apply Z.mod_mul. lia.
Qed.

(** Two multiples of the page size that are less than a page apart are equal. *)
Lemma page_multiple_eq a b : a mod pg = 0 -> b mod pg = 0 -> a <= b < a + pg -> a = b.
Proof.
  intros Ha Hb H. pose proof page_range.
  apply Z.mod_divide in Ha as [i ->]; [|lia]. apply Z.mod_divide in Hb as [j ->]; [|lia].
  assert (i = j) by nia. by subst.
Qed.

Lemma page_up_multiple a :
  0 <= a <= 2 ^ 64 - pg -> a mod pg = 0 -> cng_page_up a = a.
Proof.
  intros H Ha. destruct (page_up_spec a H) as [H1 H2]. symmetry.
  by apply page_multiple_eq.
Qed.

Lemma page_up_mono a b :
  0 <= a <= b -> b <= 2 ^ 64 - pg -> cng_page_up a <= cng_page_up b.
Proof.
  intros H Hb. pose proof page_range. unfold cng_page_up.
  rewrite !wrapu_small, !ldiff_page by lia. apply Z.mul_le_mono_nonneg_l; [lia|].
  apply Z.div_le_mono; lia.
Qed.

Lemma page_down_mono a b : a <= b -> cng_page_down a <= cng_page_down b.
Proof.
  intros H. pose proof page_range. unfold cng_page_down. rewrite !ldiff_page.
  apply Z.mul_le_mono_nonneg_l; [lia|]. apply Z.div_le_mono; lia.
Qed.

(** Rounding commutes with a shift by whole pages. *)
Lemma page_down_shift a b : b mod pg = 0 -> cng_page_down (b + a) = b + cng_page_down a.
Proof.
  intros Hb. pose proof page_range. unfold cng_page_down. rewrite !ldiff_page.
  apply Z.mod_divide in Hb as [i ->]; [|lia]. rewrite Z.div_add_l by lia. lia.
Qed.

Lemma page_up_shift a b :
  b mod pg = 0 -> 0 <= a <= 2 ^ 64 - pg -> 0 <= b + a <= 2 ^ 64 - pg ->
  cng_page_up (b + a) = b + cng_page_up a.
Proof.
  intros Hb Ha Hba. pose proof page_range. unfold cng_page_up.
  rewrite !wrapu_small, !ldiff_page by lia.
  apply Z.mod_divide in Hb as [i ->]; [|lia].
  replace (i * pg + a + pg - 1) with (i * pg + (a + pg - 1)) by lia.
  rewrite Z.div_add_l by lia. lia.
Qed.

Lemma page_end_spec a n e :
  0 <= a < 2 ^ 64 -> 0 <= n < 2 ^ 64 -> cng_page_end a n = Some e ->
  a + n <= 2 ^ 64 - pg /\ e = cng_page_up (a + n).
Proof.
  intros Ha Hn. unfold cng_page_end.
  destruct (Z.ltb_spec (u64 (a + n)) a) as [H1|H1]; [done|].
  destruct (Z.ltb_spec (2 ^ 64 - 1 - (pg - 1)) (u64 (a + n))) as [H2|H2]; [done|].
  cbn [orb]. intros [= <-].
  assert (E : u64 (a + n) = a + n).
  { destruct (Z.lt_ge_cases (a + n) (2 ^ 64)) as [H|H]; [by apply wrapu_small; lia|].
    exfalso. assert (u64 (a + n) = a + n - 2 ^ 64); [|lia].
    symmetry. unfold wrapu. apply (Zmod_unique _ _ 1); lia. }
  rewrite E in *. split; [lia|done].
Qed.
(** The low bits of a converted value are its own. *)
Lemma s64_aligned x : x mod pg = 0 -> s64 x mod pg = 0.
Proof.
  intros Hx. pose proof page_range. unfold wraps.
  assert (M : (2 ^ 64) mod pg = 0) by (destruct Hpg as [->|[->| ->]]; done).
  change (64 - 1) with 63. rewrite (Z.mod_eq (x + 2 ^ 63) (2 ^ 64)) by lia.
  replace (x + 2 ^ 63 - 2 ^ 64 * ((x + 2 ^ 63) / 2 ^ 64) - 2 ^ 63)
    with (x - 2 ^ 64 * ((x + 2 ^ 63) / 2 ^ 64)) by lia.
  rewrite Zminus_mod, Hx, Zmult_mod, M, Z.mul_0_l, !Z.mod_0_l by lia. done.
Qed.
End Page.
