(* ===== verification/Ownmap.v ===== *)
(** * The monitor's own mappings (src/src/monitor/ownmap.c, tab.c)

    The registry of ranges, the question every MAP_FIXED asks of it, and the
    floor that is read from /proc/self/maps.  The registry's rows are the
    elements of its table in order; a row is [(lo, hi)], free where [lo] is 0.
    The model is the one-thread one: a claim of a free slot succeeds. *)

From stdpp Require Import base numbers list.
From Stdlib Require Import ZArith Lia.
From S2P Require Import Prelude Page.

Open Scope Z_scope.

(** ** State *)

Record own_st := OwnSt {
  g_own : list (Z * Z);
  g_own_floored : bool;
  g_own_lost : bool;
  own_asks : nat }.    (* the pages asked of the host so far *)

Definition own_empty : own_st := OwnSt [] false false 0.

(** The scratch stacks: base, [hi] (0: not published) and the signal frame. *)
Record scr := Scr { scr_lo : Z; scr_hi : Z; scr_uc : Z }.

Definition CNG_SCR_SZ := 256 * 1024.

Record monitor := Monitor {
  mon_image : Z * Z;   (* __cng_image_start, __cng_image_end *)
  mon_own : own_st;
  mon_scr : list scr }.

Section Own.
Context (pg : Z) (page : nat -> option Z). (* the host's [n]th page, or a refusal *)

(** ** The registry *)

(** [sizeof(struct cng_tab_chunk)] and [sizeof(struct own_range)] are 16. *)
Definition tab_per : nat := Z.to_nat ((pg - 16) / 16).

Fixpoint claim_free (rows : list (Z * Z)) (r : Z * Z) : option (list (Z * Z)) :=
  match rows with
  | [] => None
  | x :: rows =>
      if x.1 =? 0 then Some (r :: rows)
      else match claim_free rows r with
      | None => None
      | Some rows => Some (x :: rows)
      end
  end.

Definition own_lose (st : own_st) : own_st :=
  OwnSt (g_own st) (g_own_floored st) true (own_asks st).

Definition cng_is_err (r : Z) : bool := 2 ^ 64 - 4096 <? r.

(** [tab_grow] on the registry's own table: a fresh chunk at [p], linked, then
    recorded in its first slot. *)
Definition tab_grow (rows : list (Z * Z)) (p : Z) : list (Z * Z) :=
  let rows := rows ++ replicate tab_per (0, 0) in
  let hi := u64 (p + pg) in
  if (p =? 0) || cng_is_err p || (hi <=? p) then rows
  else default rows (claim_free rows (p, hi)).

Definition own_add (st : own_st) (lo hi : Z) : own_st * Z :=
  if hi <=? lo then (st, 0)
  else match claim_free (g_own st) (lo, hi) with
  | Some rows => (OwnSt rows (g_own_floored st) (g_own_lost st) (own_asks st), 0)
  | None =>
      match page (own_asks st) with
      | None => (OwnSt (g_own st) (g_own_floored st) true (S (own_asks st)), -1)
      | Some p =>
          match claim_free (tab_grow (g_own st) p) (lo, hi) with
          | Some rows => (OwnSt rows (g_own_floored st) (g_own_lost st) (S (own_asks st)), 0)
          | None => (st, -1)
          end
      end
  end.

Definition cng_own_map (st : own_st) (p len : Z) : own_st :=
  if (p =? 0) || cng_is_err p then st else (own_add st p (u64 (p + len))).1.

(** The first row that is the range is freed. *)
Fixpoint forget_row (rows : list (Z * Z)) (lo hi : Z) : list (Z * Z) :=
  match rows with
  | [] => []
  | x :: rows =>
      if negb (x.2 =? hi) || negb (x.1 =? lo) then x :: forget_row rows lo hi
      else (0, 0) :: rows
  end.

Definition cng_own_drop (st : own_st) (p len : Z) : own_st :=
  OwnSt (forget_row (g_own st) p (u64 (p + len))) (g_own_floored st) (g_own_lost st)
    (own_asks st).

Definition cng_own_hit (st : own_st) (lo hi : Z) : bool :=
  existsb (fun r => negb (r.2 =? 0) && (lo <? r.2) && (r.1 <? hi)) (g_own st).

Definition cng_own_ready (st : own_st) : bool := g_own_floored st && negb (g_own_lost st).

(** ** What of the monitor a range touches *)

Definition range_end (addr len : Z) : Z :=
  let e := u64 (addr + len) in if e <? addr then 2 ^ 64 - 1 else e.

Definition cng_hits_image (image : Z * Z) (addr len : Z) : bool :=
  if len =? 0 then false else (addr <? image.2) && (image.1 <? range_end addr len).

Definition cng_scr_hit (scrs : list scr) (lo hi : Z) : bool :=
  existsb (fun s =>
    if scr_hi s =? 0 then false
    else ((lo <? u64 (scr_lo s + CNG_SCR_SZ + pg)) && (u64 (scr_lo s - pg) <? hi))
         || (negb (scr_uc s =? 0) && (lo <=? scr_uc s) && (scr_uc s <? hi))) scrs.

Definition cng_hits_monitor (mon : monitor) (addr len : Z) : bool :=
  if len =? 0 then false
  else cng_hits_image (mon_image mon) addr len
       || cng_own_hit (mon_own mon) addr (range_end addr len)
       || cng_scr_hit (mon_scr mon) addr (range_end addr len).

(** ** /proc/self/maps *)

Definition hexval (c : Z) : option Z :=
  if (48 <=? c) && (c <=? 57) then Some (c - 48)
  else if (97 <=? c) && (c <=? 102) then Some (c - 97 + 10)
  else if (65 <=? c) && (c <=? 70) then Some (c - 65 + 10)
  else None.

(** The digits at the head: the value, their number, and the rest. *)
Fixpoint hex_run (l : list Z) (a : Z) (n : nat) : Z * nat * list Z :=
  match l with
  | [] => (a, n, [])
  | c :: l' =>
      match hexval c with
      | None => (a, n, l)
      | Some v => hex_run l' (Z.lor (u64 (Z.shiftl a 4)) v) (S n)
      end
  end.

Fixpoint skip_spaces (l : list Z) : list Z :=
  match l with c :: l' => if c =? 32 then skip_spaces l' else l | [] => [] end.

Fixpoint skip_word (l : list Z) : list Z :=
  match l with c :: l' => if (c =? 0) || (c =? 32) then l else skip_word l' | [] => [] end.

Fixpoint skip_fields (n : nat) (l : list Z) : list Z :=
  match n with
  | O => l
  | S n =>
      match l with
      | [] => l
      | c :: _ => if c =? 0 then l else skip_fields n (skip_word (skip_spaces l))
      end
  end.

(** The bounds and the path column. *)
Definition maps_line (line : list Z) : option (Z * Z * list Z) :=
  let '(a, n, p) := hex_run line 0 0 in
  match n, p with
  | S _, 45 :: p =>
      let '(b, n, p) := hex_run p 0 0 in
      if (n =? 0)%nat || (b <=? a) then None
      else Some (a, b, skip_spaces (skip_fields 4 p))
  | _, _ => None
  end.

Definition MAPS_LINE : nat := 96.

Section Walk.
Context {ctx : Type} (fn : ctx -> Z -> Z -> list Z -> ctx * bool).

(** One buffer: the line so far and the state after it, and whether [fn]
    stopped the walk. *)
Fixpoint walk_buf (buf line : list Z) (c : ctx) : list Z * ctx * bool :=
  match buf with
  | [] => (line, c, false)
  | b :: buf =>
      if negb (b =? 10) then
        walk_buf buf (if (length line <? MAPS_LINE - 1)%nat then line ++ [b] else line) c
      else match maps_line line with
      | None => walk_buf buf [] c
      | Some (lo, hi, path) =>
          let '(c, stop) := fn c lo hi path in
          if stop then ([], c, true) else walk_buf buf [] c
      end
  end.

(** The reads in order, up to the one that returns nothing. *)
Fixpoint walk_bufs (bufs : list (list Z)) (line : list Z) (c : ctx) : ctx * Z :=
  match bufs with
  | [] => (c, 0)
  | [] :: _ => (c, 0)
  | buf :: bufs =>
      let '(line, c, stop) := walk_buf buf line c in
      if stop then (c, 1) else walk_bufs bufs line c
  end.

(** [None]: the file could not be opened. *)
Definition cng_maps_walk (reads : option (list (list Z))) (c : ctx) : ctx * Z :=
  match reads with
  | None => (c, -1)
  | Some bufs => walk_bufs bufs [] c
  end.
End Walk.

(** ** The floor *)

Definition floor_seen (c : own_st * (Z * Z)) (lo hi : Z) (path : list Z)
    : own_st * (Z * Z) * bool :=
  let '(st, (l0, l1)) := c in
  if l1 =? lo then ((st, (l0, hi)), false)
  else if negb (l1 =? 0) then
    let '(st, rc) := own_add st l0 l1 in
    if negb (rc =? 0) then ((st, (l0, l1)), true) else ((st, (lo, hi)), false)
  else ((st, (lo, hi)), false).

Definition cng_own_floor (reads : option (list (list Z))) (st : own_st) : own_st :=
  let '((st, (l0, l1)), rc) := cng_maps_walk floor_seen reads (st, (0, 0)) in
  if negb (rc =? 0) then own_lose st
  else
    let '(st, rc) := if negb (l1 =? 0) then own_add st l0 l1 else (st, 0) in
    if negb (rc =? 0) then st
    else OwnSt (g_own st) true (g_own_lost st) (own_asks st).
End Own.
