(* ===== verification/OwnmapProps.v ===== *)
(** * The monitor's own mappings: the registry as a bag of ranges *)

From stdpp Require Import base numbers list.
From Stdlib Require Import ZArith Lia.
From S2P Require Import Prelude Page Ownmap.

Open Scope Z_scope.

(** A range of user memory. *)
Definition good_range (r : Z * Z) : Prop := 0 < r.1 < r.2 /\ r.2 < 2 ^ 63.
Definition row_ok (r : Z * Z) : Prop := r = (0, 0) \/ good_range r.

(** The rows in use. *)
Definition live (rows : list (Z * Z)) : list (Z * Z) := filter (fun r => r.2 <> 0) rows.

Lemma live_cons r rows :
  live (r :: rows) = if bool_decide (r.2 <> 0) then r :: live rows else live rows.
Proof. unfold live. rewrite filter_cons. by case_decide; case_bool_decide. Qed.

Lemma live_app a b : live (a ++ b) = live a ++ live b.
Proof. apply filter_app. Qed.

Lemma live_free n : live (replicate n (0, 0)) = [].
Proof. induction n as [|n IH]; [done|]. cbn [replicate]. by rewrite live_cons. Qed.

Lemma live_good rows : Forall row_ok rows -> Forall good_range (live rows).
Proof.
  intros H. apply Forall_forall. intros r Hr. apply list_elem_of_filter in Hr as [Hne Hr].
  rewrite Forall_forall in H. destruct (H r Hr) as [->|G]; [done|exact G].
Qed.

(** ** Slots *)

Lemma claim_free_spec rows r rows' :
  Forall row_ok rows -> good_range r -> claim_free rows r = Some rows' ->
  Forall row_ok rows' /\ live rows' ≡ₚ r :: live rows.
Proof.
  intros Hok Hr. revert rows'.
  induction Hok as [|x rows Hx Hrows IH]; intros rows'; cbn [claim_free]; [done|].
  assert (Hr2 : r.2 <> 0) by (unfold good_range in Hr; lia).
  destruct (Z.eqb_spec x.1 0) as [E|E].
  - intros [= <-]. destruct Hx as [->|[]]; [|lia].
    split; [constructor; [by right|done]|]. rewrite !live_cons, bool_decide_true by done.
    rewrite bool_decide_false by (simpl; lia). done.
  - destruct (claim_free rows r) as [rows1|]; [|done]. intros [= <-].
    destruct (IH rows1 eq_refl) as [I1 I2]. destruct Hx as [->|Hx]; [done|].
    split; [constructor; [by right|done]|]. rewrite !live_cons.
    rewrite !bool_decide_true by (destruct Hx; lia). rewrite I2. apply Permutation_swap.
Qed.

Lemma claim_free_none rows r :
  claim_free rows r = None <-> Forall (fun x => x.1 <> 0) rows.
Proof.
  induction rows as [|x rows IH]; cbn [claim_free]; [split; [constructor|done]|].
  destruct (Z.eqb_spec x.1 0) as [E|E].
  - split; [done|]. intros H. by apply Forall_cons_1 in H as [? _].
  - rewrite Forall_cons, <-IH. destruct (claim_free rows r); naive_solver.
Qed.

Lemma claim_free_some rows r :
  Exists (fun x => x.1 = 0) rows -> exists rows', claim_free rows r = Some rows'.
Proof.
  intros H. destruct (claim_free rows r) as [rows'|] eqn:E; [by exists rows'|].
  apply claim_free_none in E. apply Exists_exists in H as (x & Hx & E').
  rewrite Forall_forall in E. by destruct (E x Hx).
Qed.

Lemma claim_free_full rows n r :
  Forall (fun x => x.1 <> 0) rows ->
  claim_free (rows ++ replicate (S n) (0, 0)) r = Some (rows ++ r :: replicate n (0, 0)).
Proof.
  induction 1 as [|x rows Hx _ IH]; [done|]. cbn [claim_free app].
  rewrite (proj2 (Z.eqb_neq _ _) Hx), IH. done.
Qed.

Lemma forget_row_spec rows r :
  Forall row_ok rows -> good_range r ->
  Forall row_ok (forget_row rows r.1 r.2) /\
  (r ∈ live rows -> live rows ≡ₚ r :: live (forget_row rows r.1 r.2)) /\
  (r ∉ live rows -> forget_row rows r.1 r.2 = rows).
Proof.
  intros Hok Hr. assert (Hr2 : r.2 <> 0) by (unfold good_range in Hr; lia).
  induction Hok as [|x rows Hx Hrows IH]; cbn [forget_row].
  { split; [constructor|]. split; [by intros ?%elem_of_nil|done]. }
  destruct IH as (I1 & I2 & I3). destruct r as [lo hi], x as [a b]. cbn [fst snd] in *.
  destruct (Z.eqb_spec b hi) as [Eb|Eb]; [destruct (Z.eqb_spec a lo) as [Ea|Ea]|];
    cbn [negb orb].
  - subst a b. split; [constructor; [by left|done]|]. split.
    + intros _. rewrite !live_cons. cbn [fst snd]. rewrite bool_decide_true by done. done.
    + intros H. destruct H. rewrite live_cons. cbn [snd]. rewrite bool_decide_true by done. left.
  - split; [by constructor|]. rewrite !live_cons. cbn [snd]. case_bool_decide as D.
    + rewrite elem_of_cons. split; [|intros ?; f_equal; apply I3; tauto].
      intros [[= <- _]|H]; [done|]. rewrite (I2 H). apply Permutation_swap.
    + split; [exact I2|]. intros H. f_equal. by apply I3.
  - split; [by constructor|]. rewrite !live_cons. cbn [snd]. case_bool_decide as D.
    + rewrite elem_of_cons. split; [|intros ?; f_equal; apply I3; tauto].
      intros [[= _ <-]|H]; [done|]. rewrite (I2 H). apply Permutation_swap.
    + split; [exact I2|]. intros H. f_equal. by apply I3.
Qed.

(** ** Overlap *)

Definition spans (rs : list (Z * Z)) (a : Z) : Prop := Exists (fun r => r.1 <= a < r.2) rs.

Lemma spans_perm rs rs' a : rs ≡ₚ rs' -> spans rs a <-> spans rs' a.
Proof. unfold spans. intros E. by rewrite E. Qed.

Lemma spans_app rs rs' a : spans (rs ++ rs') a <-> spans rs a \/ spans rs' a.
Proof. apply Exists_app. Qed.

Lemma spans_cons r rs a : spans (r :: rs) a <-> (r.1 <= a < r.2) \/ spans rs a.
Proof. apply Exists_cons. Qed.

Lemma own_hit_spec st lo hi :
  Forall row_ok (g_own st) -> lo < hi ->
  cng_own_hit st lo hi = true <-> exists a, lo <= a < hi /\ spans (live (g_own st)) a.
Proof.
  intros Hok Hlt. unfold cng_own_hit, spans. rewrite existsb_exists. split.
  - intros (r & Hin & E). bprop. destruct E as [[Hne H1] H2].
    apply list_elem_of_In in Hin as Hin'. rewrite Forall_forall in Hok.
    destruct (Hok r Hin') as [->|[[_ G] _]]; [done|].
    exists (Z.max lo r.1). split; [lia|]. apply Exists_exists. exists r.
    split; [by apply list_elem_of_filter|lia].
  - intros (a & Ha & He). apply Exists_exists in He as (r & Hr & Hra).
    apply list_elem_of_filter in Hr as [Hne Hr]. exists r.
    split; [by apply list_elem_of_In|]. bprop. lia.
Qed.

(** ** Adding and dropping *)

Section Host.
Context (pg : Z) (page : nat -> option Z).
Hypothesis Hpg : page_ok pg.

(** A page the host gives is user memory. *)
Definition host_ok : Prop := forall n p, page n = Some p -> good_range (p, p + pg).
Hypothesis Hhost : host_ok.

(** The pages given by the first [n] answers. *)
Definition pages (n : nat) : list (Z * Z) :=
  omap (fun i => option_map (fun p => (p, p + pg)) (page i)) (seq 0 n).

Lemma pages_S n :
  pages (S n) = pages n ++ match page n with Some p => [(p, p + pg)] | None => [] end.
Proof.
  unfold pages. rewrite seq_S, omap_app. cbn [omap list_omap Nat.add].
  by destruct (page n).
Qed.

Lemma per_two : exists n, tab_per pg = S (S n).
Proof.
  unfold tab_per. pose proof (page_range _ Hpg).
  assert (2 <= (pg - 16) / 16) by (apply Z.div_le_lower_bound; lia).
  exists (pred (pred (Z.to_nat ((pg - 16) / 16)))). lia.
Qed.

Lemma tab_grow_full rows p :
  Forall (fun x => x.1 <> 0) rows -> good_range (p, p + pg) ->
  exists n, tab_grow pg rows p = rows ++ (p, p + pg) :: replicate (S n) (0, 0).
Proof.
  intros Hf [H1 H2]. cbn [fst snd] in *. destruct per_two as [n En].
  exists n. unfold tab_grow, cng_is_err. rewrite En.
  rewrite wrapu_small by lia.
  rewrite (proj2 (Z.eqb_neq p 0)), (proj2 (Z.ltb_ge _ p)), (proj2 (Z.leb_gt (p + pg) p)) by lia.
  cbn [orb]. rewrite claim_free_full by done. done.
Qed.

(** The registry's state: the rows, and whether a page was refused. *)
Record own_ok (st : own_st) (L : list (Z * Z)) : Prop := OwnOk {
  own_rows : Forall row_ok (g_own st);
  own_live : g_own_lost st = false -> live (g_own st) ≡ₚ L ++ pages (own_asks st) }.

Lemma own_add_spec st L lo hi :
  own_ok st L -> good_range (lo, hi) ->
  exists st' rc, own_add pg page st lo hi = (st', rc) /\ own_ok st' ((lo, hi) :: L) /\
    g_own_floored st' = g_own_floored st /\
    (rc = 0 /\ g_own_lost st' = g_own_lost st \/
     rc = -1 /\ g_own_lost st' = true /\ exists n, page n = None).
Proof.
  intros [Hok Hl] Hr. unfold own_add. pose proof Hr as [Hr1 Hr2]. cbn [fst snd] in *.
  rewrite (proj2 (Z.leb_gt hi lo)) by lia.
  destruct (claim_free (g_own st) (lo, hi)) as [rows|] eqn:Ec.
  - do 2 eexists. split; [done|].
    destruct (claim_free_spec _ _ _ Hok Hr Ec) as [H1 H2].
    split; [|split; [done|by left]]. split; [done|]. cbn [g_own g_own_lost own_asks].
    intros Hf. by rewrite H2, (Hl Hf).
  - apply claim_free_none in Ec.
    destruct (page (own_asks st)) as [p|] eqn:Ep.
    + pose proof (Hhost _ _ Ep) as Hp. destruct (tab_grow_full _ _ Ec Hp) as [n ->].
      assert (Hok1 : Forall row_ok (g_own st ++ (p, p + pg) :: replicate (S n) (0, 0))).
      { apply Forall_app_2; [done|]. constructor; [by right|]. apply Forall_replicate. by left. }
      destruct (claim_free_some (g_own st ++ (p, p + pg) :: replicate (S n) (0, 0)) (lo, hi))
        as [rows Er].
      { apply Exists_app. right. right. by left. }
      rewrite Er. do 2 eexists. split; [done|].
      destruct (claim_free_spec _ _ _ Hok1 Hr Er) as [H1 H2].
      split; [|split; [done|by left]]. split; [done|]. cbn [g_own g_own_lost own_asks].
      intros Hf. rewrite H2, live_app, live_cons, bool_decide_true, live_free
        by (destruct Hp; simpl in *; lia).
      rewrite pages_S, Ep, (Hl Hf). cbn [app]. by rewrite <-(assoc_L (++)).
    + do 2 eexists. split; [done|]. split; [|split; [done|right]].
      * by split.
      * split; [done|]. split; [done|]. by eexists.
Qed.

Lemma own_drop_spec st L lo hi :
  own_ok st ((lo, hi) :: L) -> good_range (lo, hi) -> own_ok (cng_own_drop st lo (hi - lo)) L.
Proof.
  intros [Hok Hl] Hr. unfold cng_own_drop. pose proof Hr as [Hr1 Hr2]. cbn [fst snd] in *.
  replace (lo + (hi - lo)) with hi by lia. rewrite wrapu_small by lia.
  destruct (forget_row_spec (g_own st) (lo, hi) Hok Hr) as (D1 & D2 & _). cbn [fst snd] in *.
  split; [done|]. cbn [g_own g_own_lost own_asks]. intros Hf. specialize (Hl Hf).
  assert (Hin : (lo, hi) ∈ live (g_own st)) by (rewrite Hl; left).
  specialize (D2 Hin). rewrite Hl in D2. cbn [app] in D2. by apply Permutation_cons_inv in D2.
Qed.

Lemma own_ok_perm st L L' : own_ok st L -> L ≡ₚ L' -> own_ok st L'.
Proof. intros [H1 H2] E. split; [done|]. intros Hf. by rewrite <-E, H2. Qed.
End Host.

(** ** What is the monitor's *)

(** A range hits the image exactly when they share an address, and one that
    reaches past the top of the address space is taken to cover all above. *)
Lemma hits_image_exact lo hi addr len :
  0 <= lo < hi -> hi < 2 ^ 64 -> 0 <= addr < 2 ^ 64 -> 0 <= len < 2 ^ 64 ->
  cng_hits_image (lo, hi) addr len = true <->
  exists x, addr <= x < addr + len /\ lo <= x < hi.
Proof.
  intros Hi Hh Ha Hl. unfold cng_hits_image, range_end. cbn [fst snd].
  destruct (Z.eqb_spec len 0) as [->|Hne]; [split; [done|]; intros (x & ? & ?); lia|].
  assert (E : (if u64 (addr + len) <? addr then 2 ^ 64 - 1 else u64 (addr + len)) =
    if 2 ^ 64 <=? addr + len then 2 ^ 64 - 1 else addr + len).
  { destruct (Z.leb_spec (2 ^ 64) (addr + len)) as [H|H].
    - replace (u64 (addr + len)) with (addr + len - 2 ^ 64).
      + by rewrite (proj2 (Z.ltb_lt _ _)) by lia.
      + unfold wrapu. apply (Zmod_unique _ _ 1); lia.
    - rewrite wrapu_small by lia. by rewrite (proj2 (Z.ltb_ge _ _)) by lia. }
  rewrite E, andb_true_iff, !Z.ltb_lt. split.
  - intros [H1 H2]. exists (Z.max addr lo). destruct (Z.leb_spec (2 ^ 64) (addr + len)); lia.
  - intros (x & Hx & Hx'). destruct (Z.leb_spec (2 ^ 64) (addr + len)); lia.
Qed.

Section Monitor.
Context (pg : Z).
Hypothesis Hpg : page_ok pg.

(** A byte of the image, of the registry, or of a published scratch stack with
    its guards, or a signal frame a dispatch returns through. *)
Definition mon_byte (mon : monitor) (a : Z) : Prop :=
  (mon_image mon).1 <= a < (mon_image mon).2 \/ spans (live (g_own (mon_own mon))) a \/
  Exists (fun s => scr_hi s <> 0 /\
    (scr_lo s - pg <= a < scr_lo s + CNG_SCR_SZ + pg \/ scr_uc s <> 0 /\ a = scr_uc s))
    (mon_scr mon).

Record mon_ok (mon : monitor) : Prop := MonOk {
  mok_image : (mon_image mon).1 < (mon_image mon).2;
  mok_own : Forall row_ok (g_own (mon_own mon));
  mok_scr : Forall (fun s => scr_hi s <> 0 ->
    pg <= scr_lo s /\ scr_lo s + CNG_SCR_SZ + pg < 2 ^ 63) (mon_scr mon) }.

Lemma scr_hit_spec scrs lo hi :
  Forall (fun s => scr_hi s <> 0 ->
    pg <= scr_lo s /\ scr_lo s + CNG_SCR_SZ + pg < 2 ^ 63) scrs ->
  lo < hi ->
  cng_scr_hit pg scrs lo hi = true <->
  exists a, lo <= a < hi /\ Exists (fun s => scr_hi s <> 0 /\
    (scr_lo s - pg <= a < scr_lo s + CNG_SCR_SZ + pg \/ scr_uc s <> 0 /\ a = scr_uc s)) scrs.
Proof.
  intros Hok Hlt. unfold cng_scr_hit. rewrite existsb_exists. rewrite Forall_forall in Hok.
  pose proof (page_range _ Hpg) as Hr. unfold CNG_SCR_SZ in *. split.
  - intros (s & Hin & E). apply list_elem_of_In in Hin. specialize (Hok s Hin).
    destruct (Z.eqb_spec (scr_hi s) 0) as [|Hh]; [done|]. specialize (Hok Hh).
    rewrite !wrapu_small in E by lia. bprop.
    destruct E as [[E1 E2]|[[E1 E2] E3]].
    + exists (Z.max lo (scr_lo s - pg)). split; [lia|]. apply Exists_exists. exists s.
      split; [done|]. split; [done|]. left. lia.
    + exists (scr_uc s). split; [lia|]. apply Exists_exists. exists s. tauto.
  - intros (a & Ha & He). apply Exists_exists in He as (s & Hin & Hh & Hc). exists s.
    split; [by apply list_elem_of_In|]. specialize (Hok s Hin Hh).
    rewrite (proj2 (Z.eqb_neq _ _) Hh). rewrite !wrapu_small by lia. bprop.
    destruct Hc as [Hc|[Hc ->]]; [left; lia|right; lia].
Qed.

Lemma hits_monitor_exact mon addr len :
  mon_ok mon -> 0 <= addr -> 0 < len -> addr + len < 2 ^ 64 ->
  cng_hits_monitor pg mon addr len = true <-> exists a, addr <= a < addr + len /\ mon_byte mon a.
Proof.
  intros [Hi Ho Hs] Ha Hl He. unfold cng_hits_monitor, cng_hits_image, range_end.
  rewrite wrapu_small by lia. rewrite (proj2 (Z.ltb_ge (addr + len) addr)) by lia.
  rewrite (proj2 (Z.eqb_neq len 0)) by lia.
  rewrite !orb_true_iff, own_hit_spec, scr_hit_spec, andb_true_iff, !Z.ltb_lt by (done || lia).
  unfold mon_byte. split.
  - intros [[[H1 H2]|(a & H1 & H2)]|(a & H1 & H2)].
    + exists (Z.max addr (mon_image mon).1). split; [lia|]. left. lia.
    + exists a. tauto.
    + exists a. tauto.
  - intros (a & H1 & [H2|[H2|H2]]).
    + left. left. lia.
    + left. right. by exists a.
    + right. by exists a.
Qed.
End Monitor.

(** * The monitor's own mappings: theorems *)

(** ** The text of /proc/self/maps *)

Definition hexdig (d : Z) : Z := if d <? 10 then 48 + d else 87 + d.

(** [%0wlx] of a value that fits [w] digits. *)
Fixpoint hexn (w : nat) (v : Z) : list Z :=
  match w with
  | O => []
  | S w => hexn w (v / 16) ++ [hexdig (v mod 16)]
  end.

(** A line: the bounds, the digits of each, and what follows the space. *)
Record entry := Entry { en_lo : Z; en_hi : Z; en_wlo : nat; en_whi : nat; en_rest : list Z }.

Definition entry_text (e : entry) : list Z :=
  hexn (en_wlo e) (en_lo e) ++ 45 :: hexn (en_whi e) (en_hi e) ++ 32 :: en_rest e.

Definition maps_text (es : list entry) : list Z :=
  concat (map (fun e => entry_text e ++ [10]) es).

Definition en_range (e : entry) : Z * Z := (en_lo e, en_hi e).

Record entry_ok (e : entry) : Prop := EntryOk {
  eok_range : good_range (en_range e);
  eok_wlo : (1 <= en_wlo e <= 16)%nat /\ en_lo e < 16 ^ Z.of_nat (en_wlo e);
  eok_whi : (1 <= en_whi e <= 16)%nat /\ en_hi e < 16 ^ Z.of_nat (en_whi e);
  eok_rest : Forall (fun c => c <> 10) (en_rest e) }.

Lemma hexn_length w v : length (hexn w v) = w.
Proof. revert v. induction w as [|w IH]; intros v; cbn [hexn]; [done|]. rewrite length_app, IH. simpl. lia. Qed.

Lemma hexval_dig d : 0 <= d < 16 -> hexval (hexdig d) = Some d.
Proof.
  intros H. unfold hexdig, hexval. destruct (Z.ltb_spec d 10).
  - rewrite (proj2 (Z.leb_le _ _)), (proj2 (Z.leb_le _ _)) by lia. cbn [andb]. f_equal. lia.
  - rewrite (proj2 (Z.leb_gt (87 + d) 57)), andb_false_r by lia.
    rewrite (proj2 (Z.leb_le _ _)), (proj2 (Z.leb_le _ _)) by lia. cbn [andb]. f_equal. lia.
Qed.

Lemma hexn_no_newline w v : Forall (fun c => c <> 10) (hexn w v).
Proof.
  revert v. induction w as [|w IH]; intros v; cbn [hexn]; [constructor|].
  apply Forall_app_2; [done|]. constructor; [|constructor].
  unfold hexdig. case_if; bprop; pose proof (Z.mod_pos_bound v 16); lia.
Qed.

Lemma hex_step a d : 0 <= a < 2 ^ 60 -> 0 <= d < 16 -> Z.lor (u64 (Z.shiftl a 4)) d = a * 16 + d.
Proof.
  intros Ha Hd. rewrite Z.shiftl_mul_pow2 by lia. change (2 ^ 4) with 16.
  rewrite wrapu_small by lia. symmetry. rewrite <-(Z.lxor_lor (a * 16) d), <-Z.add_nocarry_lxor; try done.
  all: change 16 with (2 ^ 4); rewrite <-Z.shiftl_mul_pow2 by lia;
    rewrite <-(Z.mod_small d (2 ^ 4)) by lia; rewrite <-Z.land_ones by lia;
    apply Z.bits_inj'; intros n Hn; rewrite Z.bits_0, !Z.land_spec, Z.shiftl_spec by lia;
    destruct (Z.lt_ge_cases n 4);
    [rewrite Z.testbit_neg_r by lia; done|rewrite Z.ones_spec_high by lia; by rewrite !andb_false_r].
Qed.

Lemma hex_run_hexn w : forall v a n rest,
  0 <= a -> 0 <= v < 16 ^ Z.of_nat w -> a * 16 ^ Z.of_nat w + v < 2 ^ 64 ->
  hex_run (hexn w v ++ rest) a n = hex_run rest (a * 16 ^ Z.of_nat w + v) (n + w).
Proof.
  induction w as [|w IH]; intros v a n rest Ha Hv Hb; cbn [hexn].
  - cbn [app]. f_equal; simpl in *; lia.
  - rewrite Nat2Z.inj_succ, Z.pow_succ_r in * by lia.
    pose proof (Z.div_mod v 16 ltac:(lia)). pose proof (Z.mod_pos_bound v 16 ltac:(lia)).
    assert (0 <= v / 16 < 16 ^ Z.of_nat w)
      by (split; [apply Z.div_pos; lia|apply Z.div_lt_upper_bound; lia]).
    rewrite <-app_assoc, IH by nia. cbn [app hex_run]. rewrite hexval_dig by lia.
    rewrite hex_step by nia. f_equal; nia || lia.
Qed.

(** The bounds of a line are read back, however much of its tail was kept. *)
Lemma maps_line_entry e k :
  entry_ok e -> exists path,
  maps_line (hexn (en_wlo e) (en_lo e) ++ 45 :: hexn (en_whi e) (en_hi e) ++ 32 :: take k (en_rest e))
  = Some (en_lo e, en_hi e, path).
Proof.
  intros [[Hr1 Hr2] [Hw1 Hl] [Hw2 Hh] _]. cbn [en_range fst snd] in *. eexists.
  unfold maps_line. rewrite hex_run_hexn by (simpl; lia). cbn [hex_run].
  change (hexval 45) with (@None Z). cbv beta iota.
  destruct (en_wlo e) as [|w1]; [lia|]. cbn [Nat.add].
  rewrite hex_run_hexn by (simpl; lia). cbn [hex_run].
  change (hexval 32) with (@None Z). cbv beta iota.
  destruct (en_whi e) as [|w2]; [lia|]. cbn [Nat.add Nat.eqb].
  rewrite !Z.mul_0_l, !Z.add_0_l. rewrite (proj2 (Z.leb_gt _ _)) by lia. cbn [orb]. done.
Qed.

(** ** The walk *)

Section Walk.
Context {ctx : Type} (fn : ctx -> Z -> Z -> list Z -> ctx * bool).

Lemma walk_buf_app a : forall b line c,
  walk_buf fn (a ++ b) line c =
  let '(l, c, stop) := walk_buf fn a line c in
  if stop then ([], c, true) else walk_buf fn b l c.
Proof.
  induction a as [|x a IH]; intros b line c; cbn [walk_buf app]; [done|].
  case_if; [apply IH|]. destruct (maps_line line) as [[[lo hi] path]|]; [|apply IH].
  destruct (fn c lo hi path) as [c' []]; [done|apply IH].
Qed.

Lemma walk_bufs_concat bufs : forall line c,
  Forall (fun b => b <> []) bufs ->
  walk_bufs fn bufs line c =
  let '(_, c, stop) := walk_buf fn (concat bufs) line c in (c, if stop then 1 else 0).
Proof.
  induction bufs as [|b bufs IH]; intros line c Hne; [done|].
  apply Forall_cons_1 in Hne as [Hb Hne]. cbn [walk_bufs concat]. rewrite walk_buf_app.
  destruct b as [|x b]; [done|].
  destruct (walk_buf fn (x :: b) line c) as [[l c'] []]; [done|by apply IH].
Qed.

Lemma walk_buf_line t : forall b line c,
  Forall (fun x => x <> 10) t -> (length line <= 95)%nat ->
  walk_buf fn (t ++ b) line c = walk_buf fn b (take 95 (line ++ t)) c.
Proof.
  induction t as [|x t IH]; intros b line c Ht Hl.
  { rewrite app_nil_r, take_ge by done. done. }
  apply Forall_cons_1 in Ht as [Hx Ht]. cbn [walk_buf app].
  rewrite (proj2 (Z.eqb_neq x 10)) by done. cbn [negb]. unfold MAPS_LINE.
  destruct (Nat.ltb_spec (length line) (96 - 1)) as [H|H].
  - rewrite IH by (done || rewrite length_app; simpl; lia). by rewrite <-app_assoc.
  - rewrite IH by (done || lia). assert (length line = 95%nat) by lia.
    by rewrite !take_app_le, !take_ge by lia.
Qed.

(** What the walk does with the lines. *)
Lemma walk_entry e b c :
  entry_ok e -> exists path,
  walk_buf fn (entry_text e ++ [10] ++ b) [] c =
  let '(c, stop) := fn c (en_lo e) (en_hi e) path in
  if stop then ([], c, true) else walk_buf fn b [] c.
Proof.
  intros He. pose proof He as [_ [Hw1 _] [Hw2 _] Hrest].
  set (k := (95 - (en_wlo e + S (en_whi e + 1)))%nat).
  destruct (maps_line_entry e k He) as [path Hp]. exists path.
  rewrite walk_buf_line; cbn [length]; [|unfold entry_text|lia].
  2: { apply Forall_app_2; [apply hexn_no_newline|]. constructor; [done|].
       apply Forall_app_2; [apply hexn_no_newline|]. by constructor. }
  cbn [app walk_buf Z.eqb negb].
  assert (E : take 95 (entry_text e) =
    hexn (en_wlo e) (en_lo e) ++ 45 :: hexn (en_whi e) (en_hi e) ++ 32 :: take k (en_rest e)).
  { unfold entry_text.
    rewrite take_app_ge by (rewrite hexn_length; lia). f_equal. rewrite hexn_length.
    destruct (95 - en_wlo e)%nat as [|n1] eqn:E1; [lia|]. cbn [take]. f_equal.
    rewrite take_app_ge by (rewrite hexn_length; lia). f_equal. rewrite hexn_length.
    destruct (n1 - en_whi e)%nat as [|n2] eqn:E2; [lia|]. cbn [take]. f_equal. f_equal. lia. }
  change (Pos.eqb 10 10) with true. cbn [negb]. rewrite E, Hp. done.
Qed.
End Walk.

(** ** The floor *)

Section Floor.
Context (pg : Z) (page : nat -> option Z).
Hypothesis Hpg : page_ok pg.
Hypothesis Hhost : host_ok pg page.
Notation own_ok := (own_ok pg page).

(** The walk's state after the entries [P]: [G] is what it recorded, and the
    run it is accumulating is the rest. *)
Definition floor_inv (lost : bool) (L : list (Z * Z)) (P : list entry) (c : own_st * (Z * Z))
    : Prop :=
  exists G, own_ok c.1 (G ++ L) /\ g_own_lost c.1 = lost /\
    (c.2 = (0, 0) /\ G = [] \/ good_range c.2) /\
    forall a, spans G a \/ c.2.1 <= a < c.2.2 <-> spans (map en_range P) a.

Lemma spans_snoc P e a :
  spans (map en_range (P ++ [e])) a <-> spans (map en_range P) a \/ en_lo e <= a < en_hi e.
Proof.
  rewrite map_app, spans_app. cbn [map]. rewrite spans_cons. cbn [en_range fst snd].
  assert (spans [] a <-> False) by apply Exists_nil. tauto.
Qed.

Lemma floor_step lost L P c e path :
  floor_inv lost L P c -> entry_ok e ->
  exists c' stop, floor_seen pg page c (en_lo e) (en_hi e) path = (c', stop) /\
    (stop = false -> floor_inv lost L (P ++ [e]) c') /\
    (stop = true -> Forall row_ok (g_own c'.1) /\ exists n, page n = None).
Proof.
  destruct c as [st [l0 l1]]. intros (G & Hok & Hlost & Hlast & Hcov) [[Hr1 Hr2] _ _ _].
  cbn [en_range fst snd] in *. unfold floor_seen.
  destruct (Z.eqb_spec l1 (en_lo e)) as [->|Hne].
  { do 2 eexists. split; [done|]. split; [|done]. intros _. exists G.
    destruct Hlast as [[[= -> Hz] _]|[Hg _]]; [lia|]. cbn [fst snd] in *.
    split; [done|]. split; [done|]. split; [right; split; simpl; lia|].
    intros a. rewrite spans_snoc, <-Hcov. cbn [fst snd].
    split; [intros [?|?]|intros [[?|?]|?]]; try tauto; try (right; lia).
    destruct (Z.lt_ge_cases a (en_lo e)); [left; right; lia|right; lia]. }
  destruct (Z.eqb_spec l1 0) as [->|Hl1]; cbn [negb].
  - destruct Hlast as [[[= ->] ->]|[Hg _]]; [|simpl in *; lia].
    do 2 eexists. split; [done|]. split; [|done]. intros _. exists [].
    split; [done|]. split; [done|]. split; [by right|].
    intros a. rewrite spans_snoc, <-Hcov. cbn [fst snd]. split; [tauto|].
    intros [[?|?]|?]; [tauto|lia|tauto].
  - destruct Hlast as [[[= _ ?] _]|Hg]; [done|].
    destruct (own_add_spec pg page Hpg Hhost st (G ++ L) l0 l1 Hok Hg)
      as (st' & rc & -> & Hok' & _ & [[-> Hlo]|(-> & _ & n & Hn)]); cbn [Z.eqb negb].
    + do 2 eexists. split; [done|]. split; [|done]. intros _. exists ((l0, l1) :: G).
      split; [done|]. split; [simpl; congruence|]. split; [by right|].
      intros a. rewrite spans_snoc, <-Hcov, spans_cons. cbn [fst snd]. tauto.
    + do 2 eexists. split; [done|]. split; [done|]. intros _. split; [by destruct Hok'|by exists n].
Qed.

Lemma floor_walk lost L es : forall P c,
  floor_inv lost L P c -> Forall entry_ok es ->
  exists l c' stop, walk_buf (floor_seen pg page) (maps_text es) [] c = (l, c', stop) /\
    (stop = false -> floor_inv lost L (P ++ es) c') /\
    (stop = true -> Forall row_ok (g_own c'.1) /\ exists n, page n = None).
Proof.
  induction es as [|e es IH]; intros P c Hinv Hes.
  { do 3 eexists. split; [done|]. by rewrite app_nil_r. }
  apply Forall_cons_1 in Hes as [He Hes]. unfold maps_text. cbn [map concat].
  rewrite <-app_assoc. destruct (walk_entry (floor_seen pg page) e
    (concat (map (fun e => entry_text e ++ [10]) es)) c He) as [path ->].
  destruct (floor_step lost L P c e path Hinv He) as (c' & stop & -> & H1 & H2).
  destruct stop.
  - do 3 eexists. split; [done|]. split; [done|]. intros _. by apply H2.
  - destruct (IH (P ++ [e]) c' (H1 eq_refl) Hes) as (l & c2 & s2 & E & K1 & K2).
    exists l, c2, s2. split; [exact E|]. by rewrite <-app_assoc in K1.
Qed.

(** Taking the floor in a state whose ledger is [L]. *)
Lemma floor_spec st L es bufs :
  own_ok st L -> Forall entry_ok es ->
  Forall (fun b => b <> []) bufs -> concat bufs = maps_text es ->
  let st' := cng_own_floor pg page (Some bufs) st in
  exists G, own_ok st' (G ++ L) /\
    (forall a, spans G a <-> spans (map en_range es) a) /\
    (g_own_floored st' = true /\ g_own_lost st' = g_own_lost st \/
     g_own_lost st' = true /\ exists n, page n = None).
Proof.
  intros Hok Hes Hne Htext st'. unfold st', cng_own_floor, cng_maps_walk.
  rewrite (walk_bufs_concat _ _ _ _ Hne), Htext.
  assert (Hinv : floor_inv (g_own_lost st) L [] (st, (0, 0))).
  { exists []. split; [done|]. split; [done|]. split; [by left|]. intros a. unfold spans.
    cbn [map fst snd]. split; [intros [?|?]; [done|lia]|by left]. }
  destruct (floor_walk _ L es [] _ Hinv Hes) as (l & [st1 [l0 l1]] & stop & -> & H1 & H2).
  destruct stop; cbn [Z.eqb negb].
  { destruct (H2 eq_refl) as [Hrows Hn]. exists (map en_range es).
    split; [by split|]. split; [done|]. by right. }
  destruct (H1 eq_refl) as (G & Hok1 & Hl1 & Hlast & Hcov). cbn [fst snd app] in *.
  destruct (Z.eqb_spec l1 0) as [->|Hl]; cbn [negb].
  - exists G. cbn [Z.eqb negb]. split; [by destruct Hok1|].
    split; [|left; by rewrite <-Hl1].
    intros a. rewrite <-Hcov. split; [by left|]. intros [?|?]; [done|].
    destruct Hlast as [[[= ->] _]|[? _]]; simpl in *; lia.
  - destruct Hlast as [[[= _ ?] _]|Hg]; [done|]. exists ((l0, l1) :: G).
    assert (Hcov' : forall a, spans ((l0, l1) :: G) a <-> spans (map en_range es) a)
      by (intros a; rewrite <-Hcov, spans_cons; cbn [fst snd]; tauto).
    destruct (own_add_spec pg page Hpg Hhost st1 (G ++ L) l0 l1 Hok1 Hg)
      as (st2 & rc & -> & Hok2 & _ & [[-> Hlo]|(-> & Hlo & Hn)]); cbn [Z.eqb negb].
    + split; [by destruct Hok2|]. split; [done|]. left. by rewrite <-Hl1, <-Hlo.
    + split; [done|]. split; [done|]. by right.
Qed.

(** ** Histories *)

Inductive own_op := OMap (lo hi : Z) | ODrop (lo hi : Z).

Definition own_step (st : own_st) (o : own_op) : own_st :=
  match o with
  | OMap lo hi => cng_own_map pg page st lo (hi - lo)
  | ODrop lo hi => cng_own_drop st lo (hi - lo)
  end.

Fixpoint remove1 (r : Z * Z) (L : list (Z * Z)) : list (Z * Z) :=
  match L with
  | [] => []
  | x :: L => if bool_decide (x = r) then L else x :: remove1 r L
  end.

Definition ledger_step (L : list (Z * Z)) (o : own_op) : list (Z * Z) :=
  match o with OMap lo hi => (lo, hi) :: L | ODrop lo hi => remove1 (lo, hi) L end.

(** Ranges of user memory, dropped only after they were recorded. *)
Fixpoint legal (L : list (Z * Z)) (ops : list own_op) : Prop :=
  match ops with
  | [] => True
  | o :: ops =>
      match o with
      | OMap lo hi => good_range (lo, hi)
      | ODrop lo hi => good_range (lo, hi) /\ (lo, hi) ∈ L
      end /\ legal (ledger_step L o) ops
  end.

Lemma remove1_perm r L : r ∈ L -> L ≡ₚ r :: remove1 r L.
Proof.
  induction L as [|x L IH]; [by intros ?%elem_of_nil|]. cbn [remove1]. case_bool_decide as E.
  - by subst.
  - rewrite elem_of_cons. intros [->|H]; [done|]. rewrite (IH H) at 1. apply Permutation_swap.
Qed.

Lemma own_map_spec st L lo hi :
  own_ok st L -> good_range (lo, hi) ->
  let st' := cng_own_map pg page st lo (hi - lo) in
  own_ok st' ((lo, hi) :: L) /\ g_own_floored st' = g_own_floored st /\
  (g_own_lost st' = g_own_lost st \/ g_own_lost st' = true /\ exists n, page n = None).
Proof.
  intros Hok [H1 H2] st'. unfold st', cng_own_map, cng_is_err. cbn [fst snd] in *.
  replace (lo + (hi - lo)) with hi by lia. rewrite wrapu_small by lia.
  rewrite (proj2 (Z.eqb_neq lo 0)), (proj2 (Z.ltb_ge _ lo)) by lia. cbn [orb].
  destruct (own_add_spec pg page Hpg Hhost st L lo hi Hok) as (st1 & rc & -> & K1 & K2 & K3).
  { split; done. }
  cbn [fst]. split; [done|]. split; [done|]. destruct K3 as [[_ ?]|(_ & ? & ?)]; [by left|by right].
Qed.

Lemma history_spec ops : forall st L G,
  own_ok st (G ++ L) -> legal L ops ->
  let st' := foldl own_step st ops in
  own_ok st' (G ++ foldl ledger_step L ops) /\ g_own_floored st' = g_own_floored st /\
  (g_own_lost st' = g_own_lost st \/ g_own_lost st' = true /\ exists n, page n = None).
Proof.
  induction ops as [|o ops IH]; intros st L G Hok Hleg; cbn [foldl].
  { split; [done|]. split; [done|]. by left. }
  destruct Hleg as [Ho Hleg].
  assert (S : let st1 := own_step st o in own_ok st1 (G ++ ledger_step L o) /\
    g_own_floored st1 = g_own_floored st /\
    (g_own_lost st1 = g_own_lost st \/ g_own_lost st1 = true /\ exists n, page n = None)).
  { destruct o as [lo hi|lo hi]; cbn [own_step ledger_step].
    - destruct (own_map_spec st (G ++ L) lo hi Hok Ho) as (K1 & K2 & K3).
      split; [|done]. eapply own_ok_perm; [done|]. apply Permutation_middle.
    - destruct Ho as [Hr Hin]. split; [|split; [done|by left]].
      apply own_drop_spec; [|done]. eapply own_ok_perm; [done|].
      rewrite (remove1_perm _ _ Hin) at 1. symmetry. apply Permutation_middle. }
  destruct S as (S1 & S2 & S3). destruct (IH _ _ _ S1 Hleg) as (I1 & I2 & I3).
  split; [done|]. split; [by rewrite I2|]. destruct I3 as [->|?]; [done|by right].
Qed.
End Floor.

Lemma ledger_app pre post L :
  foldl ledger_step L (pre ++ post) = foldl ledger_step (foldl ledger_step L pre) post.
Proof. apply foldl_app. Qed.


(** A record, a floor of two abutting mappings and one apart read in two
    pieces, and the record dropped again. *)
Definition page0 (n : nat) : option Z := Some (0x5000000 + 4096 * Z.of_nat (Nat.min n 1)).
Definition es0 : list entry :=
  [Entry 0x400000 0x401000 8 8 [114]; Entry 0x401000 0x402000 8 8 []; Entry 0x500000 0x501000 8 8 []].
Definition bufs0 : list (list Z) := [take 25 (maps_text es0); drop 25 (maps_text es0)].

