(* ===== verification/Shm.v ===== *)
(** * The System V shared-memory registry (src/src/monitor/broker.c)

    The broker daemon's segments, their attachers and the requests on them.
    The table is a list of slots as in [IpcData]; what the host answers during
    one request is [shm_host]: a backing for a new segment and the binding of
    the libandroid-shmem door.  The rows of attachers grow in the daemon's
    memory, and [sh_mem] is the host's answer to each growth, used up in
    order, with every one after the last granted.  A freed segment's backing is
    recorded in [sh_freed], the closes and unlinks of [shm_free]. *)

From stdpp Require Import base list numbers.
From Stdlib Require Import ZArith Lia.
From S2P Require Import Prelude IpcData Page.

Open Scope Z_scope.

Definition EADDRINUSE := 98.
Definition CNG_SHM_LOCK := 11.
Definition CNG_SHM_UNLOCK := 12.
Definition CNG_SHM_STAT := 13.
Definition CNG_SHM_INFO := 14.
Definition CNG_SHM_STAT_ANY := 15.
Definition CNG_SHM_DEST := 512.
Definition CNG_SHMAT_RDONLY := 1.
Definition CNG_SHMAT_EXEC := 2.
Definition SHM_SEG_MAX : nat := 1024.
Definition SHM_ATT_TRACK := 32.
Definition SEG_ATT_SIZE := 24. (* sizeof(struct seg_att) *)
Definition ASHV_SOCK_MAX := 0x7fff.
Definition ASHV_SEQ_MAX := 0xffff.

(** ** Data *)

Record seg_att := SegAtt { a_pid : Z; a_start : Z; a_n : Z }.

(** [g_att] is the first [natt] rows. *)
Record seg := Seg {
  g_shmid : Z; g_key : Z;
  g_size : Z;
  g_mode : Z;
  g_uid : Z; g_gid : Z; g_cuid : Z; g_cgid : Z;
  g_cpid : Z; g_lpid : Z;
  g_atime : Z; g_dtime : Z; g_ctime : Z;
  g_fd : Z; g_path : cstr;
  g_nattch : Z;
  g_rmid : bool;
  g_att : list seg_att;
  g_attcap : Z }.

Record shm := Shm {
  sh_seg : list (option seg);
  sh_next_seq : Z;
  sh_tried : bool;       (* ashv_bind has run *)
  sh_sock : Z;           (* g_ashv_sock *)
  sh_mem : list bool;
  sh_freed : list (Z * cstr) }.

Definition shm0 (mem : list bool) : shm :=
  Shm (replicate SHM_SEG_MAX None) 1 false 0 mem [].

(** What one request meets of the host, besides the clocks and the processes
    of [env]: the page size, the backing [shm_make_backing] can get for a size,
    and the door's socket, the answer of bind for each id and of listen. *)
Record shm_host := ShmHost {
  k_page : Z;
  k_backing : Z -> option (Z * cstr);
  k_socket : bool;
  k_getpid : Z;
  k_bind : Z -> Z;
  k_listen : bool }.

(** ** Field updates *)

Definition seg_attach (s : seg) (nattch : Z) (att : list seg_att) (cap : Z) : seg :=
  Seg (g_shmid s) (g_key s) (g_size s) (g_mode s) (g_uid s) (g_gid s) (g_cuid s) (g_cgid s)
    (g_cpid s) (g_lpid s) (g_atime s) (g_dtime s) (g_ctime s) (g_fd s) (g_path s)
    nattch (g_rmid s) att cap.
Definition seg_times (s : seg) (lpid atime dtime : Z) : seg :=
  Seg (g_shmid s) (g_key s) (g_size s) (g_mode s) (g_uid s) (g_gid s) (g_cuid s) (g_cgid s)
    (g_cpid s) lpid atime dtime (g_ctime s) (g_fd s) (g_path s)
    (g_nattch s) (g_rmid s) (g_att s) (g_attcap s).
Definition seg_perm (s : seg) (mode uid gid ctime : Z) : seg :=
  Seg (g_shmid s) (g_key s) (g_size s) mode uid gid (g_cuid s) (g_cgid s)
    (g_cpid s) (g_lpid s) (g_atime s) (g_dtime s) ctime (g_fd s) (g_path s)
    (g_nattch s) (g_rmid s) (g_att s) (g_attcap s).
Definition seg_doom (s : seg) : seg :=
  Seg (g_shmid s) 0 (g_size s) (Z.lor (g_mode s) CNG_SHM_DEST) (g_uid s) (g_gid s)
    (g_cuid s) (g_cgid s) (g_cpid s) (g_lpid s) (g_atime s) (g_dtime s) (g_ctime s)
    (g_fd s) (g_path s) (g_nattch s) true (g_att s) (g_attcap s).

Definition put_seg (k : nat) (o : option seg) (s : shm) : shm :=
  Shm (<[k := o]> (sh_seg s)) (sh_next_seq s) (sh_tried s) (sh_sock s) (sh_mem s)
    (sh_freed s).

(** ** The table *)

Definition shm_find (s : shm) (shmid : Z) : option (nat * seg) :=
  if shmid <=? 0 then None else find_used (fun x => g_shmid x =? shmid) (sh_seg s).

Definition shm_free (k : nat) (x : seg) (s : shm) : shm :=
  Shm (<[k := None]> (sh_seg s)) (sh_next_seq s) (sh_tried s) (sh_sock s) (sh_mem s)
    (sh_freed s ++ [(g_fd x, g_path x)]).

Definition shm_permitted (x : seg) (uid gid : Z) (need_w need_x : bool) : bool :=
  if uid =? 0 then true
  else
    let m := g_mode x in
    let sh := if (uid =? g_uid x) || (uid =? g_cuid x) then 6
              else if (gid =? g_gid x) || (gid =? g_cgid x) then 3 else 0 in
    let bit b := has_flag m (Z.shiftl b sh) in
    bit 4 && (negb need_w || bit 2) && (negb need_x || bit 1).

Definition shm_owner (x : seg) (uid : Z) : bool :=
  (uid =? 0) || (uid =? g_uid x) || (uid =? g_cuid x).

(** ** Attachers *)

Section Ops.
Context (E : env) (K : shm_host).

(** The new capacity where there is room, or the host gave some. *)
Definition shm_att_reserve (natt cap : Z) (s : shm) : option Z * shm :=
  if natt <? cap then (Some cap, s)
  else
    let want := if cap =? 0 then SHM_ATT_TRACK else s32 (cap * 2) in
    let sz := cng_page_up (k_page K) (u64 (want * SEG_ATT_SIZE)) in
    let '(ok, mem) := match sh_mem s with [] => (true, []) | b :: m => (b, m) end in
    let s := Shm (sh_seg s) (sh_next_seq s) (sh_tried s) (sh_sock s) mem (sh_freed s) in
    if ok then (Some (s32 (sz / SEG_ATT_SIZE)), s) else (None, s).

(** The first row of [pid], counted up; [None] where there is none. *)
Fixpoint att_bump (pid : Z) (att : list seg_att) : option (list seg_att) :=
  match att with
  | [] => None
  | r :: att' =>
      if a_pid r =? pid then Some (SegAtt (a_pid r) (a_start r) (u32 (a_n r + 1)) :: att')
      else att'' ← att_bump pid att'; Some (r :: att'')
  end.

Definition shm_att_add (x : seg) (pid : Z) (s : shm) : seg * shm :=
  match att_bump pid (g_att x) with
  | Some att => (seg_attach x (g_nattch x) att (g_attcap x), s)
  | None =>
      match shm_att_reserve (Z.of_nat (length (g_att x))) (g_attcap x) s with
      | (None, s) => (x, s)
      | (Some cap, s) =>
          (seg_attach x (g_nattch x) (g_att x ++ [SegAtt pid (e_start E pid) 1]) cap, s)
      end
  end.

(** [att[i] = att[--natt]]. *)
Definition drop_row (i : nat) (att : list seg_att) : list seg_att :=
  let l := take (pred (length att)) att in
  match att !! pred (length att) with
  | Some last => <[i := last]> l
  | None => l
  end.

(** The row of [pid] and where it is. *)
Fixpoint att_row (pid : Z) (att : list seg_att) (i : nat) : option (nat * seg_att) :=
  match att with
  | [] => None
  | r :: att' => if a_pid r =? pid then Some (i, r) else att_row pid att' (S i)
  end.

Definition shm_att_del (pid : Z) (att : list seg_att) : list seg_att :=
  match att_row pid att 0 with
  | None => att
  | Some (i, r) =>
      let n := u32 (a_n r - 1) in
      if n =? 0 then drop_row i att else <[i := SegAtt (a_pid r) (a_start r) n]> att
  end.

(** The loop of [shm_reclaim_seg]; each turn moves [j] on or takes a row off. *)
Fixpoint reclaim_loop (fuel : nat) (j : nat) (att : list seg_att) (nattch : Z)
    : list seg_att * Z :=
  match fuel with
  | O => (att, nattch)
  | S fuel =>
      match att !! j with
      | None => (att, nattch)
      | Some r =>
          if negb (e_start E (a_pid r) =? a_start r) || e_zombie E (a_pid r)
          then reclaim_loop fuel j (drop_row j att)
                 (if a_n r <=? nattch then nattch - a_n r else 0)
          else reclaim_loop fuel (S j) att nattch
      end
  end.

Definition shm_reclaim_seg (k : nat) (x : seg) (s : shm) : shm :=
  let '(att, nattch) := reclaim_loop (length (g_att x)) 0 (g_att x) (g_nattch x) in
  let x := seg_attach x nattch att (g_attcap x) in
  if g_rmid x && (nattch =? 0) then shm_free k x s else put_seg k (Some x) s.

Fixpoint reclaim_all_loop (l : list (option seg)) (i : nat) (s : shm) : shm :=
  match l with
  | [] => s
  | None :: l' => reclaim_all_loop l' (S i) s
  | Some x :: l' => reclaim_all_loop l' (S i) (shm_reclaim_seg i x s)
  end.

Definition shm_reclaim_all (s : shm) : shm := reclaim_all_loop (sh_seg s) 0 s.

(** ** Ids *)

(** The ids tried from [first] on; the answer is the one bound, or 0. *)
Fixpoint bind_loop (n : nat) (i first : Z) : Z :=
  match n with
  | O => 0
  | S n =>
      let sock := (first + i) mod ASHV_SOCK_MAX + 1 in
      let r := k_bind K sock in
      if r =? 0 then if k_listen K then sock else 0
      else if negb (r =? - EADDRINUSE) then 0
      else bind_loop n (i + 1) first
  end.

Definition ashv_bind (s : shm) : shm :=
  if sh_tried s then s
  else
    Shm (sh_seg s) (sh_next_seq s) true
      (if k_socket K
       then bind_loop (Z.to_nat ASHV_SOCK_MAX) 0 (u32 (k_getpid K) mod ASHV_SOCK_MAX)
       else 0)
      (sh_mem s) (sh_freed s).

Fixpoint shm_id_loop (tries : nat) (segs : list (option seg)) (sock next : Z) : Z * Z :=
  match tries with
  | O => (-1, next)
  | S tries =>
      let seq := next in
      let next := u32 (next + 1) in
      let next := if ASHV_SEQ_MAX <? next then 1 else next in
      let id := s32 (Z.lor (u32 (Z.shiftl sock 16)) seq) in
      match (if id <=? 0 then None else find_used (fun x => g_shmid x =? id) segs) with
      | None => (id, next)
      | Some _ => shm_id_loop tries segs sock next
      end
  end.

Definition shm_alloc_id (s : shm) : Z * shm :=
  let '(id, next) := shm_id_loop (SHM_SEG_MAX * 4) (sh_seg s) (sh_sock s) (sh_next_seq s) in
  (id, Shm (sh_seg s) next (sh_tried s) (sh_sock s) (sh_mem s) (sh_freed s)).

(** ** Requests *)

Definition shm_create (q : cng_breq) (s : shm) : Z * shm :=
  if (rq_size q =? 0) || (0x7fffffffffffffff - (k_page K - 1) <? rq_size q)
  then (- EINVAL, s)
  else match find_free (sh_seg s) with
  | None => (- ENOSPC, s)
  | Some slot =>
      let s := ashv_bind s in
      let '(id, s) := shm_alloc_id s in
      if id <? 0 then (- ENOSPC, s)
      else match k_backing K (rq_size q) with
      | None => (- ENOSPC, s)
      | Some (fd, path) =>
          (id, put_seg slot (Some (Seg id (rq_key q) (rq_size q) (Z.land (rq_arg q) 511)
                 (rq_uid q) (rq_gid q) (rq_uid q) (rq_gid q) (rq_pid q) 0 0 0 (e_now_sec E)
                 fd path 0 false [] 0)) s)
      end
  end.

Definition shm_do_get (q : cng_breq) (s : shm) : Z * shm :=
  if negb (rq_key q =? 0) then
    match find_used (fun x => g_key x =? rq_key q) (sh_seg s) with
    | Some (_, x) =>
        if has_flag (rq_arg q) CNG_IPC_CREAT && has_flag (rq_arg q) CNG_IPC_EXCL
        then (- EEXIST, s)
        else if negb (rq_size q =? 0) && (g_size x <? rq_size q) then (- EINVAL, s)
        else if negb (shm_permitted x (rq_uid q) (rq_gid q) false false) then (- EACCES, s)
        else (g_shmid x, s)
    | None =>
        if negb (has_flag (rq_arg q) CNG_IPC_CREAT) then (- ENOENT, s) else shm_create q s
    end
  else shm_create q s.

(** The answer, the size in the reply and the descriptor that rides on it. *)
Definition shm_do_at (q : cng_breq) (s : shm) : (Z * Z * option Z) * shm :=
  match shm_find s (rq_id q) with
  | None => ((- EINVAL, 0, None), s)
  | Some (k, x) =>
      if negb (shm_permitted x (rq_uid q) (rq_gid q)
                 (negb (has_flag (rq_arg q) CNG_SHMAT_RDONLY))
                 (has_flag (rq_arg q) CNG_SHMAT_EXEC))
      then ((- EACCES, 0, None), s)
      else
        let x := seg_attach x (u64 (g_nattch x + 1)) (g_att x) (g_attcap x) in
        let '(x, s) := shm_att_add x (rq_pid q) s in
        let x := seg_times x (rq_pid q) (e_now_sec E) (g_dtime x) in
        ((0, g_size x, Some (g_fd x)), put_seg k (Some x) s)
  end.

Definition shm_do_dt (q : cng_breq) (s : shm) : Z * shm :=
  match shm_find s (rq_id q) with
  | None => (0, s)
  | Some (k, x) =>
      let n := if g_nattch x =? 0 then 0 else g_nattch x - 1 in
      let x := seg_attach x n (shm_att_del (rq_pid q) (g_att x)) (g_attcap x) in
      let x := seg_times x (rq_pid q) (g_atime x) (e_now_sec E) in
      (0, if g_rmid x && (g_nattch x =? 0) then shm_free k x s else put_seg k (Some x) s)
  end.

Definition shm_do_fork (q : cng_breq) (s : shm) : Z * shm :=
  match shm_find s (rq_id q) with
  | None => (0, s)
  | Some (k, x) =>
      let x := seg_attach x (u64 (g_nattch x + 1)) (g_att x) (g_attcap x) in
      let '(x, s) := shm_att_add x (rq_pid q) s in
      (0, put_seg k (Some x) s)
  end.

Definition shm_fill_stat (x : seg) : cng_bresp :=
  BResp 0 (g_key x) (g_size x) (g_nattch x) (g_mode x) (g_uid x) (g_gid x) (g_cuid x)
    (g_cgid x) (g_cpid x) (g_lpid x) (g_atime x) (g_dtime x) (g_ctime x) 0 0 0 0.

(** The count, the highest index and the pages of the used slots. *)
Fixpoint shm_info_loop (l : list (option seg)) (i used maxidx tot : Z) : Z * Z * Z :=
  match l with
  | [] => (used, maxidx, tot)
  | None :: l' => shm_info_loop l' (i + 1) used maxidx tot
  | Some x :: l' =>
      shm_info_loop l' (i + 1) (used + 1) i (u64 (tot + cng_page_up (k_page K) (g_size x) / k_page K))
  end.

(** A segment after its reclaim, [None] where that freed it. *)
Definition shm_stat_after (k : nat) (x : seg) (r : Z) (s : shm) : (Z * cng_bresp) * shm :=
  let s := shm_reclaim_seg k x s in
  match sh_seg s !! k with
  | Some (Some x) => ((r, shm_fill_stat x), s)
  | _ => ((- EINVAL, resp0), s)
  end.

Definition shm_do_ctl (q : cng_breq) (s : shm) : (Z * cng_bresp) * shm :=
  let cmd := rq_arg q in
  if (cmd =? CNG_SHM_INFO) || (cmd =? CNG_IPC_INFO) then
    let s := shm_reclaim_all s in
    let '(used, maxidx, tot) := shm_info_loop (sh_seg s) 0 0 (-1) 0 in
    ((maxidx, BResp 0 0 0 0 0 0 0 0 0 0 0 0 0 0 used tot 0 0), s)
  else if (cmd =? CNG_SHM_STAT) || (cmd =? CNG_SHM_STAT_ANY) then
    let idx := rq_id q in
    if (idx <? 0) || (Z.of_nat SHM_SEG_MAX <=? idx) then ((- EINVAL, resp0), s)
    else match sh_seg s !! Z.to_nat idx with
    | Some (Some x) =>
        if (cmd =? CNG_SHM_STAT) && negb (shm_permitted x (rq_uid q) (rq_gid q) false false)
        then ((- EACCES, resp0), s)
        else shm_stat_after (Z.to_nat idx) x (g_shmid x) s
    | _ => ((- EINVAL, resp0), s)
    end
  else match shm_find s (rq_id q) with
  | None => ((- EINVAL, resp0), s)
  | Some (k, x) =>
      if cmd =? CNG_IPC_STAT then
        if negb (shm_permitted x (rq_uid q) (rq_gid q) false false)
        then ((- EACCES, resp0), s)
        else shm_stat_after k x 0 s
      else if cmd =? CNG_IPC_SET then
        if negb (shm_owner x (rq_uid q)) then ((- EPERM, resp0), s)
        else ((0, resp0), put_seg k (Some (seg_perm x
               (Z.lor (Z.ldiff (g_mode x) 511) (Z.land (rq_set_mode q) 511))
               (rq_set_uid q) (rq_set_gid q) (e_now_sec E))) s)
      else if cmd =? CNG_IPC_RMID then
        if negb (shm_owner x (rq_uid q)) then ((- EPERM, resp0), s)
        else ((0, resp0), shm_reclaim_seg k (seg_doom x) s)
      else if (cmd =? CNG_SHM_LOCK) || (cmd =? CNG_SHM_UNLOCK) then
        if negb (shm_owner x (rq_uid q)) then ((- EPERM, resp0), s) else ((0, resp0), s)
      else ((- EINVAL, resp0), s)
  end.

(** ** Serving and the namespace's end *)

Inductive shm_req := REQ_SHMGET | REQ_SHMAT | REQ_SHMDT | REQ_SHMFORK | REQ_SHMCTL.

(** The reply and the descriptor sent with it. *)
Definition shm_serve (op : shm_req) (q : cng_breq) (s : shm)
    : (cng_bresp * option Z) * shm :=
  match op with
  | REQ_SHMGET => let '(r, s) := shm_do_get q s in ((resp_ret r resp0, None), s)
  | REQ_SHMAT =>
      let '((r, size, fd), s) := shm_do_at q s in
      ((BResp r 0 size 0 0 0 0 0 0 0 0 0 0 0 0 0 0 0, fd), s)
  | REQ_SHMDT => let '(r, s) := shm_do_dt q s in ((resp_ret r resp0, None), s)
  | REQ_SHMFORK => let '(r, s) := shm_do_fork q s in ((resp_ret r resp0, None), s)
  | REQ_SHMCTL =>
      let '((r, resp), s) := shm_do_ctl q s in ((resp_ret r resp, None), s)
  end.

Definition shm_any_live (s : shm) : bool :=
  existsb (fun o =>
    match o with
    | None => false
    | Some x =>
        negb (length (g_att x) =? 0)%nat
        || negb (g_rmid x) && (0 <? g_cpid x) && negb (e_start E (g_cpid x) =? 0)
    end) (sh_seg s).

Fixpoint free_all_loop (l : list (option seg)) (i : nat) (s : shm) : shm :=
  match l with
  | [] => s
  | None :: l' => free_all_loop l' (S i) s
  | Some x :: l' => free_all_loop l' (S i) (shm_free i x s)
  end.

Definition shm_free_all (s : shm) : shm := free_all_loop (sh_seg s) 0 s.
End Ops.
