(* ===== verification/ShmFacts.v ===== *)
(** * The shared-memory registry: rows, ids and the invariant *)

From stdpp Require Import base list numbers sets fin_sets.
From Stdlib Require Import ZArith Lia.
From S2P Require Import Prelude IpcData IpcInv Page Shm.

Open Scope Z_scope.

Create HintDb shm.

(** ** Rows of attachers *)

(** The attaches a list of rows accounts for. *)
Definition total (att : list seg_att) : Z := foldr (fun r z => a_n r + z) 0 att.

Lemma total_app l k : total (l ++ k) = total l + total k.
Proof. induction l as [|r l IH]; simpl; lia. Qed.

#[export] Instance total_perm : Proper ((≡ₚ) ==> (=)) total.
Proof. induction 1; simpl; lia. Qed.

Lemma drop_row_perm i att r : att !! i = Some r -> att ≡ₚ r :: drop_row i att.
Proof.
  intros Hi.
  assert (exists l b, att = l ++ [b]) as (l & b & ->).
  { destruct att as [|x att]; [done|]. destruct (exists_last (l := x :: att)) as (l & b & E);
      [done|]. by exists l, b. }
  unfold drop_row. rewrite length_app, Nat.add_1_r. cbn [pred].
  rewrite take_app_length, lookup_app_r, Nat.sub_diag by lia. cbn.
  destruct (decide (i < length l)%nat) as [Hlt|Hge].
  - rewrite lookup_app_l in Hi by done.
    rewrite <-(take_drop_middle l i r Hi) at 1.
    rewrite (insert_take_drop l i b) by done.
    rewrite <-Permutation_cons_append, <-!Permutation_middle. apply Permutation_swap.
  - assert (i = length l) as ->.
    { apply lookup_lt_Some in Hi. rewrite length_app in Hi. simpl in Hi. lia. }
    rewrite list_insert_ge by lia.
    rewrite lookup_app_r, Nat.sub_diag in Hi by lia. injection Hi as ->.
    by rewrite <-Permutation_cons_append.
Qed.

Lemma drop_row_length i att r : att !! i = Some r -> length (drop_row i att) = pred (length att).
Proof. intros H. apply drop_row_perm, Permutation_length in H. simpl in H. lia. Qed.

(** Below [i] nothing moves. *)
Lemma drop_row_take i att : (i < length att)%nat -> take i (drop_row i att) = take i att.
Proof.
  intros Hi. unfold drop_row.
  destruct (att !! pred (length att)) as [b|] eqn:E;
    [rewrite take_insert_ge by lia|]; rewrite take_take; f_equal; lia.
Qed.

Lemma filter_all {A} (P : A -> Prop) `{!forall x, Decision (P x)} l :
  Forall P l -> filter P l = l.
Proof.
  induction 1 as [|x l Hx Hl IH]; [done|]. by rewrite filter_cons_True, IH.
Qed.

Section Reclaim.
Context (E : env).

Definition row_dead (r : seg_att) : bool :=
  negb (e_start E (a_pid r) =? a_start r) || e_zombie E (a_pid r).

Definition alive (r : seg_att) : Prop := row_dead r = false.
#[export] Instance alive_dec r : Decision (alive r).
Proof. unfold alive. apply _. Defined.

(** Saturating subtraction, the way the loop takes a row off [nattch]. *)
Definition take_off (n z : Z) : Z := if n <=? z then z - n else 0.

Lemma take_off_max n z : 0 <= z -> take_off n z = Z.max 0 (z - n).
Proof. intros. unfold take_off. destruct (Z.leb_spec n z); lia. Qed.

(** The loop keeps the rows of the living and takes the others' counts off. *)
Lemma reclaim_loop_spec fuel : forall j att nattch,
  Forall (fun r => 0 <= a_n r) att -> 0 <= nattch ->
  (length att <= j + fuel)%nat -> Forall alive (take j att) ->
  let '(att', n') := reclaim_loop E fuel j att nattch in
  att' ≡ₚ filter alive att /\ n' = Z.max 0 (nattch - (total att - total att')).
Proof.
  induction fuel as [|fuel IH]; intros j att nattch Hn Hz Hf Hj; cbn [reclaim_loop].
  - rewrite take_ge in Hj by lia. rewrite filter_all by done.
    split; [done|lia].
  - destruct (att !! j) as [r|] eqn:Er.
    2: { apply lookup_ge_None in Er. rewrite take_ge in Hj by lia.
         rewrite filter_all by done. split; [done|lia]. }
    change (negb (e_start E (a_pid r) =? a_start r) || e_zombie E (a_pid r)) with (row_dead r).
    pose proof (lookup_lt_Some _ _ _ Er) as Hlt.
    destruct (row_dead r) eqn:Ed.
    + pose proof (drop_row_perm _ _ _ Er) as Hp. pose proof (drop_row_length _ _ _ Er) as Hl.
      assert (Hn' : Forall (fun r => 0 <= a_n r) (r :: drop_row j att)) by (by rewrite <-Hp).
      apply Forall_cons_1 in Hn' as [Hr Hn'].
      fold (take_off (a_n r) nattch). rewrite take_off_max by done.
      specialize (IH j (drop_row j att) (Z.max 0 (nattch - a_n r)) Hn' ltac:(lia) ltac:(lia)).
      rewrite drop_row_take in IH by lia. specialize (IH Hj).
      destruct (reclaim_loop E fuel j _ _) as [att' n']. destruct IH as [IHp ->].
      pose proof (total_perm _ _ Hp) as Ht. simpl in Ht. split.
      { etrans; [exact IHp|]. symmetry. etrans; [apply filter_Permutation, Hp|].
        rewrite filter_cons_False by (unfold alive; congruence). done. }
      assert (Hle : total att' <= total (drop_row j att)).
      { rewrite IHp. clear -Hn'. induction Hn' as [|x l Hx Hl IHl]; [done|].
        rewrite filter_cons. case_decide; simpl; lia. }
      lia.
    + apply IH; [done|done|lia|]. rewrite (take_S_r _ _ _ Er).
      apply Forall_app_2; [done|]. by constructor.
Qed.

Lemma reclaim_rows x :
  Forall (fun r => 0 <= a_n r) (g_att x) -> 0 <= g_nattch x ->
  exists att, reclaim_loop E (length (g_att x)) 0 (g_att x) (g_nattch x) =
    (att, Z.max 0 (g_nattch x - (total (g_att x) - total att))) /\
    att ≡ₚ filter alive (g_att x).
Proof.
  intros Hn Hz.
  pose proof (reclaim_loop_spec (length (g_att x)) 0 (g_att x) (g_nattch x) Hn Hz
    ltac:(lia) ltac:(constructor)) as H.
  destruct (reclaim_loop _ _ _ _ _) as [att n']. destruct H as [Hp ->]. by exists att.
Qed.
End Reclaim.

Lemma total_nonneg l : Forall (fun r => 0 <= a_n r) l -> 0 <= total l.
Proof. induction 1; simpl; lia. Qed.

Lemma total_filter (P : seg_att -> Prop) `{!forall r, Decision (P r)} l :
  Forall (fun r => 0 <= a_n r) l -> total (filter P l) <= total l.
Proof.
  induction 1 as [|r l Hr Hl IH]; [done|]. rewrite filter_cons. case_decide; simpl; lia.
Qed.

(** ** Adding and taking off *)

Lemma att_bump_spec pid att :
  match att_bump pid att with
  | None => pid ∉ a_pid <$> att
  | Some att' => exists l r k, att = l ++ r :: k /\ a_pid r = pid /\
      att' = l ++ SegAtt (a_pid r) (a_start r) (u32 (a_n r + 1)) :: k
  end.
Proof.
  induction att as [|r att IH]; cbn [att_bump]; [cbn; set_solver|].
  destruct (Z.eqb_spec (a_pid r) pid) as [E|E]; [by exists [], r, att|].
  destruct (att_bump pid att) as [att'|]; cbn.
  - destruct IH as (l & r' & k & -> & Hr & ->). by exists (r :: l), r', k.
  - set_solver.
Qed.

Lemma att_row_spec pid att : forall i,
  match att_row pid att i with
  | None => pid ∉ a_pid <$> att
  | Some (j, r) => exists m, j = (i + m)%nat /\ att !! m = Some r /\ a_pid r = pid
  end.
Proof.
  induction att as [|r att IH]; intros i; cbn [att_row]; [cbn; set_solver|].
  destruct (Z.eqb_spec (a_pid r) pid) as [E|E].
  - exists 0%nat. split; [lia|done].
  - specialize (IH (S i)). destruct (att_row pid att (S i)) as [[j r']|].
    + destruct IH as (m & -> & Hm & Hr). exists (S m). split; [lia|done].
    + cbn. set_solver.
Qed.

Record rows_ok (n : Z) (att : list seg_att) : Prop := RowsOk {
  rok_n : Forall (fun r => 1 <= a_n r <= n) att;
  rok_pids : NoDup (a_pid <$> att);
  rok_len : Z.of_nat (length att) <= n }.

Lemma rows_ok_nonneg n att : rows_ok n att -> Forall (fun r => 0 <= a_n r) att.
Proof. intros H. eapply Forall_impl; [apply H|]. simpl. lia. Qed.

Lemma rows_ok_perm n att att' : att ≡ₚ att' -> rows_ok n att -> rows_ok n att'.
Proof.
  intros Hp [H1 H2 H3]. split.
  - by rewrite <-Hp.
  - by rewrite <-Hp.
  - apply Permutation_length in Hp. lia.
Qed.

Lemma rows_ok_le n n' att : n <= n' -> rows_ok n att -> rows_ok n' att.
Proof.
  intros Hn [H1 H2 H3]. split; [|done|lia].
  eapply Forall_impl; [exact H1|]. simpl. lia.
Qed.

Lemma rows_ok_tail n r att : rows_ok n (r :: att) -> rows_ok n att.
Proof.
  intros [H1 H2 H3]. apply Forall_cons_1 in H1 as [_ H1]. simpl in H2, H3.
  apply NoDup_cons_1_2 in H2. split; [done|done|lia].
Qed.

Lemma rows_ok_filter n (P : seg_att -> Prop) `{!forall r, Decision (P r)} att :
  rows_ok n att -> rows_ok n (filter P att).
Proof.
  intros [H1 H2 H3]. split.
  - rewrite Forall_forall in H1 |- *. intros r [_ Hr]%list_elem_of_filter. by apply H1.
  - eapply sublist_NoDup; [exact H2|]. apply fmap_sublist, sublist_filter.
  - pose proof (length_filter P att). lia.
Qed.

#[export] Hint Resolve rows_ok_nonneg rows_ok_filter : shm.

Lemma att_bump_rows n pid att att' :
  n < 2 ^ 32 - 1 -> rows_ok n att -> att_bump pid att = Some att' ->
  rows_ok (n + 1) att' /\ total att' = total att + 1 /\
  a_pid <$> att' = a_pid <$> att.
Proof.
  intros Hn [H1 H2 H3] E. pose proof (att_bump_spec pid att) as H. rewrite E in H.
  destruct H as (l & r & k & -> & Hr & ->).
  apply Forall_app in H1 as [Hl H1]. apply Forall_cons_1 in H1 as [Hr1 Hk].
  assert (Hu : u32 (a_n r + 1) = a_n r + 1) by (apply wrapu_small; lia).
  rewrite Hu, !total_app, !fmap_app in *. cbn [total foldr fmap list_fmap a_pid a_n] in *.
  fold total. split; [split|split; [lia|done]].
  - apply Forall_app; split; [|apply Forall_cons; split; [simpl; lia|]];
      (eapply Forall_impl; [eassumption|]; simpl; lia).
  - by rewrite fmap_app.
  - rewrite length_app in *. simpl in *. lia.
Qed.

Lemma att_snoc_rows n pid st att :
  0 <= n -> rows_ok n att -> pid ∉ a_pid <$> att ->
  rows_ok (n + 1) (att ++ [SegAtt pid st 1]) /\
  total (att ++ [SegAtt pid st 1]) = total att + 1.
Proof.
  intros Hn [H1 H2 H3] Hp. split; [split|rewrite total_app; simpl; lia].
  - apply Forall_app; split; [eapply Forall_impl; [exact H1|]; simpl; lia|].
    apply Forall_singleton. simpl. lia.
  - rewrite fmap_app. apply NoDup_app. split; [done|]. split; [|apply NoDup_singleton].
    intros z Hz Hz'. apply list_elem_of_singleton in Hz'. cbn in Hz'. by subst.
  - rewrite length_app. simpl. lia.
Qed.

Lemma att_del_rows n pid att :
  n < 2 ^ 32 -> rows_ok n att ->
  rows_ok n (shm_att_del pid att) /\
  (pid ∈ a_pid <$> att -> total (shm_att_del pid att) = total att - 1) /\
  (pid ∉ a_pid <$> att -> shm_att_del pid att = att).
Proof.
  intros Hn Hok. unfold shm_att_del. pose proof (att_row_spec pid att 0) as H.
  destruct (att_row pid att 0) as [[i r]|]; [|by auto].
  destruct H as (m & -> & Hm & Hr). cbn [Nat.add].
  pose proof (proj1 (Forall_lookup _ _) (rok_n _ _ Hok) _ _ Hm) as Hr1. simpl in Hr1.
  rewrite (wrapu_small 32 (a_n r - 1)) by lia.
  split; [|split]; [| |intros []; subst; apply list_elem_of_fmap; exists r; split; [done|];
    by eapply list_elem_of_lookup_2].
  - destruct (Z.eqb_spec (a_n r - 1) 0).
    + eapply rows_ok_tail, rows_ok_perm; [by apply drop_row_perm|done].
    + destruct Hok as [H1 H2 H3]. split.
      * apply Forall_insert; [done|]. simpl. lia.
      * rewrite list_fmap_insert. cbn. rewrite list_insert_id; [done|].
        by rewrite list_lookup_fmap, Hm.
      * by rewrite length_insert.
  - intros _. destruct (Z.eqb_spec (a_n r - 1) 0).
    + rewrite (total_perm _ _ (drop_row_perm _ _ _ Hm)). simpl. lia.
    + rewrite <-(take_drop_middle att m r Hm) at 2.
      rewrite (insert_take_drop att m _) by (by apply lookup_lt_Some in Hm).
      rewrite !total_app. simpl. lia.
Qed.

(** * The shared-memory registry's invariant (src/src/monitor/broker.c)

    [shm_wf n] is what holds of the table after at most [n] requests; every
    request takes it from [n] to [n + 1]. *)

Definition same_shmid (x y : seg) : Prop := g_shmid x = g_shmid y.
Definition same_shmkey (x y : seg) : Prop := g_key x = g_key y /\ g_key y <> 0.

#[export] Instance same_shmid_sym : Symmetric same_shmid.
Proof. unfold same_shmid. by intros ? ? ->. Qed.
#[export] Instance same_shmkey_sym : Symmetric same_shmkey.
Proof. unfold same_shmkey. intros ? ? [-> ?]. auto. Qed.

(** A segment marked for removal has no key, an attacher and the mark. *)
Definition doomed_ok (x : seg) : Prop :=
  g_rmid x = true ->
  g_key x = 0 /\ g_nattch x <> 0 /\ has_flag (g_mode x) CNG_SHM_DEST = true.

(** The largest block the daemon maps for [n] rows: twice as many rows, rounded
    up to a page of at most 64 KiB. *)
Definition cap_max (n : Z) : Z := 2 * n + 2731 + 32.

Record seg_ok (n : Z) (x : seg) : Prop := SegOk {
  sok_id : id_ok (g_shmid x);
  sok_size : g_size x <> 0;
  sok_nattch : 0 <= g_nattch x <= n;
  sok_rows : rows_ok n (g_att x);
  sok_cap : Z.of_nat (length (g_att x)) <= g_attcap x <= cap_max n;
  sok_rmid : doomed_ok x }.

Record shm_wf (n : Z) (s : shm) : Prop := ShmWf {
  swf_len : length (sh_seg s) = SHM_SEG_MAX;
  swf_segs : on_slots (seg_ok n) (sh_seg s);
  swf_ids : uniq same_shmid (sh_seg s);
  swf_keys : uniq same_shmkey (sh_seg s);
  swf_seq : 1 <= sh_next_seq s <= ASHV_SEQ_MAX;
  swf_sock : 0 <= sh_sock s <= ASHV_SOCK_MAX }.

(** The page sizes an AArch64 Linux has. *)
Definition host_ok (K : shm_host) : Prop := page_ok (k_page K).

(** So many requests that no counter of the registry can wrap. *)
Definition STEPS_MAX := 2 ^ 28.

(** Where the host gives memory there is room for one row more. *)
Lemma att_reserve_spec K n natt cap s o s' :
  host_ok K -> 0 <= n < STEPS_MAX -> 0 <= natt <= n -> natt <= cap <= cap_max n ->
  shm_att_reserve K natt cap s = (o, s') ->
  sh_seg s' = sh_seg s /\ sh_next_seq s' = sh_next_seq s /\ sh_sock s' = sh_sock s /\
  sh_freed s' = sh_freed s /\ (sh_mem s = [] -> sh_mem s' = [] /\ o <> None) /\
  forall c, o = Some c -> natt < c <= cap_max n.
Proof.
  unfold STEPS_MAX, cap_max. intros HK Hn Hnatt Hcap. unfold shm_att_reserve.
  destruct (Z.ltb_spec natt cap) as [Hlt|Hge].
  { intros [= <- <-]. do 5 (split; [done|]). intros c [= <-]. lia. }
  set (want := if cap =? 0 then SHM_ATT_TRACK else s32 (cap * 2)).
  assert (Hw : natt < want <= 2 * n + 32).
  { unfold want, SHM_ATT_TRACK. destruct (Z.eqb_spec cap 0); [lia|].
    rewrite wraps_small by lia. lia. }
  unfold SEG_ATT_SIZE. rewrite (wrapu_small 64 (want * 24)) by lia.
  pose proof (page_range _ HK) as Hpg.
  destruct (page_up_spec _ HK (want * 24) ltac:(lia)) as [Hp _].
  set (sz := cng_page_up (k_page K) (want * 24)) in *.
  assert (Hq : want <= sz / 24 <= want + 2731)
    by (split; [apply Z.div_le_lower_bound|apply Z.div_le_upper_bound]; lia).
  destruct (sh_mem s) as [|[] m]; intros [= <- <-]; do 5 (split; [done|]);
    intros c; try done; intros [= <-]; rewrite wraps_small; lia.
Qed.

(** ** Lookups *)

Lemma shm_find_Some s id k x :
  shm_find s id = Some (k, x) -> has_slot (sh_seg s) k x /\ g_shmid x = id.
Proof.
  unfold shm_find. case_if; [done|]. intros H.
  apply find_used_Some in H as (H1 & H2 & _). bprop. auto.
Qed.

Lemma shm_find_slot n s k x :
  shm_wf n s -> has_slot (sh_seg s) k x -> shm_find s (g_shmid x) = Some (k, x).
Proof.
  intros Hwf Hk. unfold shm_find.
  destruct (sok_id _ _ (swf_segs n s Hwf k x Hk)) as [Hpos _].
  rewrite (proj2 (Z.leb_gt _ _) Hpos).
  apply find_used_unique; [done|by bprop|].
  intros j y Hj Hy. bprop. by apply (swf_ids n s Hwf j k y x).
Qed.

Lemma shm_find_None s id k x :
  shm_find s id = None -> 0 < id -> has_slot (sh_seg s) k x -> g_shmid x <> id.
Proof.
  unfold shm_find. intros H Hid Hk. rewrite (proj2 (Z.leb_gt _ _) Hid) in H.
  pose proof (find_used_None _ _ _ _ H Hk) as E. by bprop.
Qed.

(** ** Writes that keep the invariant *)

Lemma seg_ok_le n n' x : n <= n' -> seg_ok n x -> seg_ok n' x.
Proof.
  intros Hn []. unfold cap_max in *. split; try done; [lia|by eapply rows_ok_le|].
  unfold cap_max. lia.
Qed.

Lemma shm_wf_le n n' s : n <= n' -> shm_wf n s -> shm_wf n' s.
Proof.
  intros Hn []. split; try done. eapply on_slots_impl; [eassumption|].
  intros ? ? _. by apply seg_ok_le.
Qed.

(** The globals besides the table are the same, or the freed ones grew. *)
Lemma wf_same_table n s s' :
  shm_wf n s -> sh_seg s' = sh_seg s -> sh_next_seq s' = sh_next_seq s ->
  sh_sock s' = sh_sock s -> shm_wf n s'.
Proof. intros [] E1 E2 E3. split; by rewrite ?E1, ?E2, ?E3. Qed.

Lemma wf_put n s k x x' :
  shm_wf n s -> has_slot (sh_seg s) k x -> seg_ok n x' -> g_shmid x' = g_shmid x ->
  g_key x' = g_key x \/ g_key x' = 0 -> shm_wf n (put_seg k (Some x') s).
Proof.
  intros Hwf Hk Hx Hid Hkey. pose proof Hwf as [Hl Hs Hi Hks Hq Ho].
  split; simpl; try done.
  - by rewrite length_insert.
  - apply on_slots_write; [done|]. by intros ? [= <-].
  - eapply uniq_replace; [apply _|done|exact Hk|]. unfold same_shmid. by rewrite Hid.
  - eapply uniq_replace; [apply _|done|exact Hk|]. unfold same_shmkey.
    intros y [Hy Hy']. destruct Hkey as [E|E]; [by rewrite <-E|]. congruence.
Qed.

Lemma wf_free n s k x : shm_wf n s -> shm_wf n (shm_free k x s).
Proof.
  intros [Hl Hs Hi Hks Hq Ho]. split; simpl; try done.
  - by rewrite length_insert.
  - by apply on_slots_write.
  - by apply uniq_clear.
  - by apply uniq_clear.
Qed.

Lemma wf_new n s k x :
  shm_wf n s -> seg_ok n x ->
  (forall j y, has_slot (sh_seg s) j y -> g_shmid y <> g_shmid x) ->
  (g_key x <> 0 -> forall j y, has_slot (sh_seg s) j y -> g_key y <> g_key x) ->
  shm_wf n (put_seg k (Some x) s).
Proof.
  intros [Hl Hs Hi Hks Hq Ho] Hx Hid Hkey. split; simpl; try done.
  - by rewrite length_insert.
  - apply on_slots_write; [done|]. by intros ? [= <-].
  - apply uniq_fill; [apply _|done|]. unfold same_shmid. intros j y Hy E.
    by apply (Hid j y).
  - apply uniq_fill; [apply _|done|]. unfold same_shmkey. intros j y Hy [E Hne].
    rewrite <-E in Hne. by apply (Hkey Hne j y).
Qed.

#[export] Hint Resolve wf_put wf_free wf_new shm_wf_le : shm.

(** ** Attaching and reclaiming *)

(** [nattch] is the rows' sum. *)
Definition accounted (x : seg) : Prop := g_nattch x = total (g_att x).

Definition same_globals (s s' : shm) : Prop :=
  sh_seg s' = sh_seg s /\ sh_next_seq s' = sh_next_seq s /\ sh_sock s' = sh_sock s.

Section Ops.
Context (E : env) (K : shm_host) (n : Z).
Hypothesis HK : host_ok K.
Hypothesis Hn : 0 <= n < STEPS_MAX.

Lemma att_add_ok x pid s x' s' :
  seg_ok n x ->
  shm_att_add E K (seg_attach x (u64 (g_nattch x + 1)) (g_att x) (g_attcap x)) pid s
    = (x', s') ->
  same_globals s s' /\ seg_ok (n + 1) x' /\
  (exists att cap, x' = seg_attach x (g_nattch x + 1) att cap) /\
  (sh_mem s = [] -> sh_mem s' = [] /\ (accounted x -> accounted x')).
Proof.
  intros Hx. pose proof Hn as Hn'. unfold STEPS_MAX in Hn'. pose proof Hx as [H1 H2 H3 H4 H5 H6].
  rewrite (wrapu_small 64) by lia. unfold shm_att_add. cbn [g_att g_nattch g_attcap seg_attach].
  pose proof (att_bump_spec pid (g_att x)) as Hb.
  assert (Hd : forall att cap, doomed_ok (seg_attach x (g_nattch x + 1) att cap)).
  { intros att cap Hr. destruct (H6 Hr) as (? & ? & ?). simpl. split; [done|]. split; [lia|done]. }
  destruct (att_bump pid (g_att x)) as [att|] eqn:Ea.
  - intros [= <- <-]. destruct (att_bump_rows n _ _ _ ltac:(lia) H4 Ea) as (Ho & Ht & Hp).
    split; [done|]. split; [|split; [by eauto|]].
    + split; simpl; try done; try apply Hd; [lia|].
      apply (f_equal length) in Hp. rewrite !length_fmap in Hp.
      unfold cap_max in *. lia.
    + unfold accounted. simpl. intros ->. split; [done|lia].
  - destruct (shm_att_reserve K _ _ s) as [o s1] eqn:Er.
    pose proof (rok_len _ _ H4) as Hl.
    destruct (att_reserve_spec K n _ _ _ _ _ HK Hn (conj (Nat2Z.is_nonneg _) Hl) H5 Er)
      as (G1 & G2 & G3 & _ & Hm & Hc).
    destruct o as [cap|]; intros [= <- <-].
    + specialize (Hc cap eq_refl).
      destruct (att_snoc_rows n pid (e_start E pid) (g_att x) ltac:(lia) H4 Hb) as [Ho Ht].
      split; [done|]. split; [|split; [by eauto|]].
      * split; simpl; try done; try apply Hd; [lia|].
        rewrite length_app. simpl. unfold cap_max in *. lia.
      * unfold accounted. simpl. intros Hm'. split; [by apply Hm|lia].
    + split; [done|]. split; [|split; [by eauto|]].
      * split; simpl; try done; try apply Hd; [lia|by eapply rows_ok_le; [|done]; lia|].
        unfold cap_max in *. lia.
      * intros Hm'. by destruct (Hm Hm').
Qed.

(** A segment with its dead attachers taken off. *)
Definition reclaimed (x : seg) : seg :=
  let '(att, nattch) := reclaim_loop E (length (g_att x)) 0 (g_att x) (g_nattch x) in
  seg_attach x nattch att (g_attcap x).

Lemma shm_reclaim_seg_eq k x s :
  shm_reclaim_seg E k x s =
  if g_rmid x && (g_nattch (reclaimed x) =? 0)
  then shm_free k (reclaimed x) s else put_seg k (Some (reclaimed x)) s.
Proof.
  unfold shm_reclaim_seg, reclaimed. by destruct (reclaim_loop _ _ _ _ _) as [att z].
Qed.

(** All of [seg_ok] but the mark of a removed segment. *)
Record seg_pre (x : seg) : Prop := SegPre {
  spre_id : id_ok (g_shmid x);
  spre_size : g_size x <> 0;
  spre_nattch : 0 <= g_nattch x <= n;
  spre_rows : rows_ok n (g_att x);
  spre_cap : Z.of_nat (length (g_att x)) <= g_attcap x <= cap_max n;
  spre_rmid : g_rmid x = true ->
    g_key x = 0 /\ has_flag (g_mode x) CNG_SHM_DEST = true }.

Lemma seg_ok_pre x : seg_ok n x -> seg_pre x.
Proof. intros []. split; try done. intros H. by destruct (sok_rmid0 H) as (? & _ & ?). Qed.

Lemma reclaimed_spec x :
  seg_pre x ->
  (exists att cap z, reclaimed x = seg_attach x z att cap) /\
  seg_pre (reclaimed x) /\
  g_att (reclaimed x) ≡ₚ filter (alive E) (g_att x) /\
  (accounted x -> accounted (reclaimed x)).
Proof.
  intros [H1 H2 H3 H4 H5 H6].
  destruct (reclaim_rows E x) as (att & Hr & Hp); [by eapply rows_ok_nonneg|lia|].
  unfold reclaimed. rewrite Hr.
  pose proof (total_filter (alive E) (g_att x) (rows_ok_nonneg _ _ H4)) as Ht.
  rewrite <-(total_perm _ _ Hp) in Ht.
  pose proof (Permutation_length Hp). pose proof (length_filter (alive E) (g_att x)).
  pose proof (rows_ok_perm n _ _ (symmetry Hp) (rows_ok_filter n (alive E) _ H4)) as Ho.
  split; [by eauto|]. split; [|split; [done|]].
  - split; simpl; try done; lia.
  - unfold accounted. simpl. pose proof (total_nonneg att (rows_ok_nonneg _ _ Ho)). lia.
Qed.

Lemma reclaim_seg_wf k x x0 s :
  shm_wf n s -> has_slot (sh_seg s) k x0 -> seg_pre x ->
  g_shmid x = g_shmid x0 -> g_key x = g_key x0 \/ g_key x = 0 ->
  shm_wf n (shm_reclaim_seg E k x s).
Proof.
  intros Hwf Hk Hx Hid Hkey. rewrite shm_reclaim_seg_eq.
  destruct (reclaimed_spec x Hx) as ((att & cap & z & Er) & Hp & _).
  destruct (g_rmid x && (g_nattch (reclaimed x) =? 0)) eqn:Ed; [by apply wf_free|].
  assert (Hok : seg_ok n (reclaimed x)).
  { destruct Hp as [? ? ? ? ? H6]. split; try done. intros Hr. destruct (H6 Hr). split; [done|].
    rewrite Er in Hr. simpl in Hr. rewrite Hr in Ed. bprop. naive_solver. }
  eapply wf_put; [done|exact Hk|done|..]; rewrite Er; simpl; done.
Qed.

Lemma reclaim_all_wf : forall l i s,
  shm_wf n s -> (forall j x, l !! j = Some (Some x) -> has_slot (sh_seg s) (i + j) x) ->
  shm_wf n (reclaim_all_loop E l i s).
Proof.
  induction l as [|[x|] l IH]; intros i s Hwf Hl; cbn [reclaim_all_loop]; [done|..].
  - pose proof (Hl 0%nat x eq_refl) as Hx. rewrite Nat.add_0_r in Hx. apply IH.
    + eapply reclaim_seg_wf; [done|exact Hx| |done|by left].
      by apply seg_ok_pre, (swf_segs n s Hwf i).
    + intros j y Hj. specialize (Hl (S j) y Hj). rewrite Nat.add_succ_r in Hl.
      rewrite shm_reclaim_seg_eq. unfold has_slot. case_if; simpl;
        rewrite list_lookup_insert_ne by lia; done.
  - apply IH; [done|]. intros j y Hj. specialize (Hl (S j) y Hj).
    by rewrite Nat.add_succ_r in Hl.
Qed.
End Ops.
