(* ===== verification/ShmReq.v ===== *)
(** * The shared-memory registry: ids and requests keep the invariant *)

From stdpp Require Import base list numbers.
From Stdlib Require Import ZArith Lia.
From S2P Require Import Prelude IpcData IpcInv Shm ShmFacts.

Open Scope Z_scope.

(** ** Bits *)

Lemma has_flag_pow2 m k : 0 <= k -> has_flag m (2 ^ k) = Z.testbit m k.
Proof.
  intros Hk. unfold has_flag.
  assert (E : Z.land m (2 ^ k) = if Z.testbit m k then 2 ^ k else 0).
  { apply Z.bits_inj'. intros i Hi. rewrite Z.land_spec, Z.pow2_bits_eqb by done.
    destruct (Z.eqb_spec k i) as [<-|Hne].
    - rewrite andb_true_r. destruct (Z.testbit m k); [|by rewrite Z.bits_0].
      by rewrite Z.pow2_bits_true.
    - rewrite andb_false_r. destruct (Z.testbit m k); [|by rewrite Z.bits_0].
      by rewrite Z.pow2_bits_false. }
  rewrite E. destruct (Z.testbit m k); [|done].
  pose proof (Z.pow_pos_nonneg 2 k). apply negb_true_iff, Z.eqb_neq. lia.
Qed.

(** IPC_SET leaves the mark of a removed segment. *)
Lemma set_mode_dest m m' :
  has_flag m CNG_SHM_DEST = true ->
  has_flag (Z.lor (Z.ldiff m 511) (Z.land m' 511)) CNG_SHM_DEST = true.
Proof.
  change CNG_SHM_DEST with (2 ^ 9). rewrite !has_flag_pow2 by lia.
  rewrite Z.lor_spec, Z.ldiff_spec. intros ->. done.
Qed.

Lemma doom_mode_dest m : has_flag (Z.lor m CNG_SHM_DEST) CNG_SHM_DEST = true.
Proof.
  change CNG_SHM_DEST with (2 ^ 9). rewrite has_flag_pow2, Z.lor_spec by lia.
  change (Z.testbit (2 ^ 9) 9) with true. apply orb_true_r.
Qed.

(** ** Ids *)

Definition next_of (next : Z) : Z := if ASHV_SEQ_MAX <? u32 (next + 1) then 1 else u32 (next + 1).
Definition id_of (sock seq : Z) : Z := s32 (Z.lor (u32 (Z.shiftl sock 16)) seq).

Lemma next_of_spec next :
  1 <= next <= ASHV_SEQ_MAX -> next_of next = next mod ASHV_SEQ_MAX + 1.
Proof.
  unfold next_of, ASHV_SEQ_MAX. intros H. rewrite (wrapu_small 32) by lia.
  destruct (Z.ltb_spec 0xffff (next + 1)).
  - replace next with 0xffff by lia. done.
  - rewrite Z.mod_small; lia.
Qed.

Lemma id_of_eq sock seq :
  0 <= sock <= ASHV_SOCK_MAX -> 1 <= seq <= ASHV_SEQ_MAX ->
  id_of sock seq = sock * 2 ^ 16 + seq.
Proof.
  unfold id_of, ASHV_SOCK_MAX, ASHV_SEQ_MAX. intros Hs Hq.
  rewrite Z.shiftl_mul_pow2 by lia. rewrite (wrapu_small 32) by lia.
  assert (E : Z.lor (sock * 2 ^ 16) seq = sock * 2 ^ 16 + seq).
  { symmetry. rewrite <-Z.shiftl_mul_pow2 by lia. apply Z.add_nocarry_lor, Z.bits_inj'.
    intros i Hi. rewrite Z.land_spec, Z.bits_0, Z.shiftl_spec by done.
    destruct (Z.ltb_spec i 16); [by rewrite Z.testbit_neg_r by lia|].
    rewrite (Z.bits_above_log2 seq), andb_false_r; [done|lia|].
    apply Z.lt_le_trans with 16; [apply Z.log2_lt_pow2; lia|lia]. }
  rewrite E. apply wraps_small; lia.
Qed.

Lemma id_of_ok sock seq :
  0 <= sock <= ASHV_SOCK_MAX -> 1 <= seq <= ASHV_SEQ_MAX -> id_ok (id_of sock seq).
Proof.
  intros Hs Hq. rewrite id_of_eq by done. unfold id_ok, ASHV_SOCK_MAX, ASHV_SEQ_MAX in *. lia.
Qed.

Lemma shm_id_loop_S tries segs sock next :
  shm_id_loop (S tries) segs sock next =
  match (if id_of sock next <=? 0 then None
         else find_used (fun x => g_shmid x =? id_of sock next) segs) with
  | None => (id_of sock next, next_of next)
  | Some _ => shm_id_loop tries segs sock (next_of next)
  end.
Proof. done. Qed.

(** The sequence number [i] after [next]. *)
Definition nth_seq (next : Z) (i : nat) : Z := (next - 1 + Z.of_nat i) mod ASHV_SEQ_MAX + 1.

Lemma nth_seq_S next i :
  1 <= next <= ASHV_SEQ_MAX -> nth_seq (next_of next) i = nth_seq next (S i).
Proof.
  intros H. rewrite next_of_spec by done. unfold nth_seq. f_equal.
  replace (next mod ASHV_SEQ_MAX + 1 - 1 + Z.of_nat i)
    with (next mod ASHV_SEQ_MAX + Z.of_nat i) by lia.
  rewrite Zplus_mod_idemp_l. f_equal. lia.
Qed.

Definition ids_of (segs : list (option seg)) : list Z := g_shmid <$> omap id segs.

Lemma find_used_ids segs id k x :
  find_used (fun x => g_shmid x =? id) segs = Some (k, x) -> id ∈ ids_of segs.
Proof.
  intros (Hk & Hx & _)%find_used_Some. bprop. subst. unfold ids_of.
  apply list_elem_of_fmap. exists x. split; [done|].
  apply list_elem_of_omap. exists (Some x). split; [|done].
  by eapply list_elem_of_lookup_2.
Qed.

Lemma shm_id_loop_spec sock segs : 0 <= sock <= ASHV_SOCK_MAX -> forall tries next,
  1 <= next <= ASHV_SEQ_MAX ->
  let '(id, next') := shm_id_loop tries segs sock next in
  1 <= next' <= ASHV_SEQ_MAX /\
  (id_ok id /\ find_used (fun x => g_shmid x =? id) segs = None \/
   id = -1 /\ forall i, (i < tries)%nat -> id_of sock (nth_seq next i) ∈ ids_of segs).
Proof.
  intros Hs. induction tries as [|tries IH]; intros next Hnext.
  { simpl. split; [done|]. right. split; [done|]. lia. }
  assert (Hnx : 1 <= next_of next <= ASHV_SEQ_MAX).
  { rewrite next_of_spec by done.
    pose proof (Z.mod_pos_bound next ASHV_SEQ_MAX ltac:(done)). lia. }
  rewrite shm_id_loop_S. pose proof (id_of_ok sock next Hs Hnext) as Hid.
  rewrite (proj2 (Z.leb_gt _ _) (proj1 Hid)).
  destruct (find_used _ segs) as [[k x]|] eqn:Ef; [|by auto].
  specialize (IH _ Hnx). destruct (shm_id_loop tries segs sock _) as [id next'].
  destruct IH as [H1 [H2|[H2 H3]]]; [by auto|]. split; [done|]. right. split; [done|].
  intros [|i] Hi.
  - replace (nth_seq next 0) with next; [by eapply find_used_ids|].
    unfold nth_seq, ASHV_SEQ_MAX in *. rewrite Z.mod_small; lia.
  - rewrite <-nth_seq_S by done. apply H3. lia.
Qed.

(** With fewer live ids than tries the loop finds a free one. *)
Lemma shm_id_loop_finds tries segs sock next :
  0 <= sock <= ASHV_SOCK_MAX -> 1 <= next <= ASHV_SEQ_MAX ->
  (length segs < tries)%nat -> Z.of_nat tries <= ASHV_SEQ_MAX ->
  fst (shm_id_loop tries segs sock next) <> -1.
Proof.
  intros Hs Hnext Hlen Hmax.
  pose proof (shm_id_loop_spec sock segs Hs tries next Hnext) as H.
  destruct (shm_id_loop tries segs sock next) as [id next']. simpl.
  destruct H as [_ [[[H _] _]|[-> H]]]; [lia|]. intros _.
  set (tried := (fun i => id_of sock (nth_seq next i)) <$> seq 0 tries).
  assert (Hnd : NoDup tried).
  { apply NoDup_fmap_2_strong; [|apply NoDup_seq]. intros i j Hi Hj Heq.
    apply elem_of_seq in Hi, Hj.
    assert (Hr : forall i, 1 <= nth_seq next i <= ASHV_SEQ_MAX).
    { intros m. unfold nth_seq.
      pose proof (Z.mod_pos_bound (next - 1 + Z.of_nat m) ASHV_SEQ_MAX ltac:(done)). lia. }
    rewrite !id_of_eq in Heq by done. unfold nth_seq in Heq.
    assert (Hm : (next - 1 + Z.of_nat i) mod ASHV_SEQ_MAX
                 = (next - 1 + Z.of_nat j) mod ASHV_SEQ_MAX) by lia.
    pose proof (Z.div_mod (next - 1 + Z.of_nat i) ASHV_SEQ_MAX ltac:(done)) as Hqi.
    pose proof (Z.div_mod (next - 1 + Z.of_nat j) ASHV_SEQ_MAX ltac:(done)) as Hqj.
    rewrite Hm in Hqi. unfold ASHV_SEQ_MAX in *. lia. }
  assert (Hle : (length tried <= length (ids_of segs))%nat).
  { apply NoDup_incl_length; [by apply NoDup_ListNoDup|].
    intros z Hz%list_elem_of_In%list_elem_of_fmap. destruct Hz as (i & -> & Hi).
    apply elem_of_seq in Hi. apply list_elem_of_In, H. lia. }
  unfold tried, ids_of in Hle. rewrite !length_fmap, length_seq in Hle.
  assert (length (omap id segs) <= length segs)%nat.
  { clear. induction segs as [|[x|] segs IH]; [done|..]; cbn in *; lia. }
  lia.
Qed.

(** ** Accounting *)

(** Memory for rows is never refused and every [nattch] is its rows' sum. *)
Definition acct (s : shm) : Prop := sh_mem s = [] /\ on_slots accounted (sh_seg s).

Lemma acct_put k x s : acct s -> accounted x -> acct (put_seg k (Some x) s).
Proof.
  intros [H1 H2] Hx. split; [done|]. apply on_slots_write; [done|]. by intros ? [= <-].
Qed.

Lemma acct_free k x s : acct s -> acct (shm_free k x s).
Proof. intros [H1 H2]. split; [done|]. by apply on_slots_write. Qed.

#[export] Hint Resolve acct_put acct_free : shm.

(** A detach comes from a process with a row in the segment. *)
Definition polite (op : shm_req) (q : cng_breq) (s : shm) : Prop :=
  match op with
  | REQ_SHMDT => forall k x, shm_find s (rq_id q) = Some (k, x) -> rq_pid q ∈ a_pid <$> g_att x
  | _ => True
  end.

Section Requests.
Context (E : env) (K : shm_host) (n : Z).
Hypothesis HK : host_ok K.
Hypothesis Hn : 0 <= n < STEPS_MAX.

(** What a request does to the two. *)
Definition keeps (P : Prop) (s s' : shm) : Prop :=
  shm_wf (n + 1) s' /\ (P -> acct s -> acct s').

Lemma keeps_refl (P : Prop) s : shm_wf n s -> keeps P s s.
Proof. intros H. split; [|done]. eapply shm_wf_le; [|exact H]. lia. Qed.

Lemma seg_attach_keys x z att cap :
  g_shmid (seg_attach x z att cap) = g_shmid x /\ g_key (seg_attach x z att cap) = g_key x.
Proof. done. Qed.

Lemma has_slot_same s s' k x :
  same_globals s s' -> has_slot (sh_seg s) k x -> has_slot (sh_seg s') k x.
Proof. intros (E1 & _ & _) H. by rewrite E1. Qed.

(** An attach, with the times written after it or not. *)
Lemma attach_keeps s k x pid x' s' lpid atime dtime :
  shm_wf n s -> has_slot (sh_seg s) k x ->
  shm_att_add E K (seg_attach x (u64 (g_nattch x + 1)) (g_att x) (g_attcap x)) pid s
    = (x', s') ->
  keeps True s (put_seg k (Some x') s') /\
  keeps True s (put_seg k (Some (seg_times x' lpid atime dtime)) s').
Proof.
  intros Hwf Hk Ha.
  destruct (att_add_ok E K n HK Hn x pid s x' s' (swf_segs n s Hwf k x Hk) Ha)
    as (G & Hok & (att & cap & ->) & Hm).
  assert (Hwf' : shm_wf (n + 1) s').
  { destruct G as (G1 & G2 & G3). eapply wf_same_table; [|done..].
    eapply shm_wf_le; [|exact Hwf]. lia. }
  pose proof (has_slot_same _ _ _ _ G Hk) as Hk'.
  assert (Hacct : acct s -> acct s' /\ accounted (seg_attach x (g_nattch x + 1) att cap)).
  { intros [M1 M2]. destruct (Hm M1) as [M3 M4]. split; [|by eapply M4, M2].
    split; [done|]. destruct G as (G1 & _). by rewrite G1. }
  split; (split; [|intros _ Hs; destruct (Hacct Hs); by apply acct_put]).
  - by eapply wf_put; [|exact Hk'|..]; auto.
  - eapply wf_put; [done|exact Hk'| |done|by left]. by destruct Hok.
Qed.

Lemma shm_do_at_keeps q s : shm_wf n s -> keeps True s (snd (shm_do_at E K q s)).
Proof.
  intros Hwf. unfold shm_do_at.
  destruct (shm_find s (rq_id q)) as [[k x]|] eqn:Ef; [|by apply keeps_refl].
  apply shm_find_Some in Ef as [Hk _]. case_if; [by apply keeps_refl|].
  destruct (shm_att_add _ _ _ _ _) as [x' s'] eqn:Ea.
  by eapply attach_keeps.
Qed.

Lemma shm_do_fork_keeps q s : shm_wf n s -> keeps True s (snd (shm_do_fork E K q s)).
Proof.
  intros Hwf. unfold shm_do_fork.
  destruct (shm_find s (rq_id q)) as [[k x]|] eqn:Ef; [|by apply keeps_refl].
  apply shm_find_Some in Ef as [Hk _].
  destruct (shm_att_add _ _ _ _ _) as [x' s'] eqn:Ea.
  by eapply (attach_keeps _ _ _ _ _ _ 0 0 0).
Qed.

Lemma shm_do_dt_keeps q s :
  shm_wf n s -> keeps (polite REQ_SHMDT q s) s (snd (shm_do_dt E q s)).
Proof.
  intros Hwf. unfold shm_do_dt, polite.
  destruct (shm_find s (rq_id q)) as [[k x]|] eqn:Ef; [|by apply keeps_refl].
  apply shm_find_Some in Ef as [Hk _]. cbn [snd].
  pose proof (swf_segs n s Hwf k x Hk) as [H1 H2 H3 H4 H5 H6].
  unfold STEPS_MAX in Hn. unfold cap_max in *.
  destruct (att_del_rows n (rq_pid q) (g_att x) ltac:(lia) H4) as (D1 & D2 & D3).
  set (z := if g_nattch x =? 0 then 0 else g_nattch x - 1).
  assert (Hz : 0 <= z <= n) by (unfold z; destruct (Z.eqb_spec (g_nattch x) 0); lia).
  assert (Hl : (length (shm_att_del (rq_pid q) (g_att x)) <= length (g_att x))%nat).
  { unfold shm_att_del. destruct (att_row _ _ _) as [[i r]|] eqn:Er; [|done]. case_if.
    - pose proof (att_row_spec (rq_pid q) (g_att x) 0) as Hs. rewrite Er in Hs.
      destruct Hs as (m & -> & Hm & _). cbn [Nat.add]. rewrite (drop_row_length _ _ _ Hm). lia.
    - by rewrite length_insert. }
  assert (Hacct : rq_pid q ∈ a_pid <$> g_att x -> accounted x ->
    z = total (shm_att_del (rq_pid q) (g_att x))).
  { intros Hp Hx. unfold accounted in Hx. rewrite (D2 Hp). unfold z.
    pose proof (total_nonneg _ (rows_ok_nonneg _ _ D1)) as Ht. rewrite (D2 Hp) in Ht.
    destruct (Z.eqb_spec (g_nattch x) 0); lia. }
  case_if.
  - split; [|by auto with shm]. apply wf_free. eapply shm_wf_le; [|exact Hwf]. lia.
  - split; [|intros Hp Hs; apply acct_put; [done|]; apply Hacct;
      [by eapply Hp|by eapply (proj2 Hs)]].
    eapply wf_put; [eapply shm_wf_le; [|exact Hwf]; lia|exact Hk| |done|by left].
    split; simpl; try done; [lia|eapply rows_ok_le; [|exact D1]; lia|unfold cap_max; lia|].
    intros Hr. simpl in Hr, Eif. rewrite Hr in Eif. bprop. destruct (H6 Hr) as (? & _ & ?).
    split; [done|]. split; [|done]. simpl. naive_solver.
Qed.

Lemma reclaim_keeps s k x x0 :
  shm_wf n s -> has_slot (sh_seg s) k x0 -> seg_pre n x ->
  g_shmid x = g_shmid x0 -> g_key x = g_key x0 \/ g_key x = 0 ->
  (accounted x0 -> accounted x) ->
  keeps True s (shm_reclaim_seg E k x s).
Proof.
  intros Hwf Hk Hx Hid Hkey Ha. split.
  - eapply shm_wf_le; [|by eapply (reclaim_seg_wf E n Hn)]. lia.
  - intros _ Hs. rewrite shm_reclaim_seg_eq. case_if; [by apply acct_free|].
    apply acct_put; [done|]. apply (reclaimed_spec E n Hn x Hx), Ha. by eapply (proj2 Hs).
Qed.

Lemma reclaim_all_acct : forall l i s,
  shm_wf n s -> (forall j x, l !! j = Some (Some x) -> has_slot (sh_seg s) (i + j) x) ->
  acct s -> acct (reclaim_all_loop E l i s).
Proof.
  induction l as [|[x|] l IH]; intros i s Hwf Hl Hs; cbn [reclaim_all_loop]; [done|..].
  - pose proof (Hl 0%nat x eq_refl) as Hx. rewrite Nat.add_0_r in Hx.
    pose proof (seg_ok_pre _ _ (swf_segs n s Hwf i x Hx)) as Hp.
    apply IH.
    + by eapply reclaim_seg_wf; [done|done|exact Hx|done|done|left].
    + intros j y Hj. specialize (Hl (S j) y Hj). rewrite Nat.add_succ_r in Hl.
      rewrite shm_reclaim_seg_eq. unfold has_slot. case_if; simpl;
        rewrite list_lookup_insert_ne by lia; done.
    + by apply (reclaim_keeps s i x x Hwf Hx Hp eq_refl (or_introl eq_refl)); auto.
  - apply IH; [done| |done]. intros j y Hj. specialize (Hl (S j) y Hj).
    by rewrite Nat.add_succ_r in Hl.
Qed.

Lemma reclaim_all_keeps s : shm_wf n s -> keeps True s (shm_reclaim_all E s).
Proof.
  intros Hwf. split; [|intros _; by apply reclaim_all_acct].
  eapply shm_wf_le; [|by apply (reclaim_all_wf E n Hn)]. lia.
Qed.

Lemma shm_stat_after_keeps s k x r :
  shm_wf n s -> has_slot (sh_seg s) k x -> keeps True s (snd (shm_stat_after E k x r s)).
Proof.
  intros Hwf Hk. unfold shm_stat_after.
  assert (H : keeps True s (shm_reclaim_seg E k x s)).
  { eapply reclaim_keeps; eauto. by apply seg_ok_pre, (swf_segs n s Hwf k). }
  by destruct (sh_seg _ !! k) as [[]|].
Qed.

Lemma set_keeps s k x mode uid gid ctime :
  shm_wf n s -> has_slot (sh_seg s) k x ->
  keeps True s (put_seg k (Some (seg_perm x
    (Z.lor (Z.ldiff (g_mode x) 511) (Z.land mode 511)) uid gid ctime)) s).
Proof.
  intros Hwf Hk. pose proof (swf_segs n s Hwf k x Hk) as [H1 H2 H3 H4 H5 H6]. split.
  - apply (shm_wf_le n); [lia|]. eapply wf_put; [done|exact Hk| |done|by left].
    split; try done. intros Hr. destruct (H6 Hr) as (? & ? & ?).
    split; [done|]. split; [done|]. by apply set_mode_dest.
  - intros _ Hs. apply acct_put; [done|]. by apply (proj2 Hs k x Hk).
Qed.

Lemma doom_keeps s k x :
  shm_wf n s -> has_slot (sh_seg s) k x -> keeps True s (shm_reclaim_seg E k (seg_doom x) s).
Proof.
  intros Hwf Hk. pose proof (swf_segs n s Hwf k x Hk) as [H1 H2 H3 H4 H5 H6].
  eapply reclaim_keeps; [done|exact Hk| |done|by right|done].
  split; try done. intros _. split; [done|]. apply doom_mode_dest.
Qed.

Lemma shm_do_ctl_keeps q s : shm_wf n s -> keeps True s (snd (shm_do_ctl E K q s)).
Proof.
  intros Hwf. unfold shm_do_ctl. case_if.
  { pose proof (reclaim_all_keeps s Hwf) as H.
    by destruct (shm_info_loop K _ _ _ _ _) as [[]]. }
  case_if.
  { case_if; [by apply keeps_refl|].
    destruct (sh_seg s !! _) as [[x|]|] eqn:Ex; try by apply keeps_refl.
    case_if; [by apply keeps_refl|]. by apply shm_stat_after_keeps. }
  destruct (shm_find s (rq_id q)) as [[k x]|] eqn:Ef; [|by apply keeps_refl].
  apply shm_find_Some in Ef as [Hk _].
  repeat (case_if; cbn [snd]); try by apply keeps_refl.
  - by apply shm_stat_after_keeps.
  - by apply set_keeps.
  - by apply doom_keeps.
Qed.

Lemma bind_loop_sock m : forall i first, 0 <= bind_loop K m i first <= ASHV_SOCK_MAX.
Proof.
  induction m as [|m IH]; intros i first; cbn [bind_loop]; [done|].
  pose proof (Z.mod_pos_bound (first + i) ASHV_SOCK_MAX ltac:(done)).
  repeat case_if; try done; lia.
Qed.

Lemma ashv_bind_wf s : shm_wf n s -> shm_wf n (ashv_bind K s).
Proof.
  intros Hwf. unfold ashv_bind. case_if; [done|]. destruct Hwf.
  split; cbn [sh_seg sh_next_seq sh_sock]; try assumption.
  case_if; [apply bind_loop_sock|unfold ASHV_SOCK_MAX; lia].
Qed.

(** The table with an id that is in none of its slots, and the id's fate. *)
Lemma shm_alloc_id_spec s id s' :
  shm_wf n s -> shm_alloc_id s = (id, s') ->
  sh_seg s' = sh_seg s /\ sh_mem s' = sh_mem s /\ shm_wf n s' /\ id_ok id /\
  (forall k x, has_slot (sh_seg s) k x -> g_shmid x <> id).
Proof.
  intros Hwf. unfold shm_alloc_id. pose proof Hwf as [Hl Hs Hi Hks Hq Ho].
  pose proof (shm_id_loop_spec _ (sh_seg s) Ho (SHM_SEG_MAX * 4) _ Hq) as H.
  pose proof (shm_id_loop_finds (SHM_SEG_MAX * 4) (sh_seg s) _ _ Ho Hq
    ltac:(rewrite Hl; unfold SHM_SEG_MAX; lia) ltac:(by vm_compute)) as Hf.
  set (tries := (SHM_SEG_MAX * 4)%nat) in *. clearbody tries.
  destruct (shm_id_loop _ _ _ _) as [id' next]. intros [= <- <-].
  destruct H as [Hnx [[Hid Hnone]|[? _]]]; [|done].
  split; [done|]. split; [done|]. split; [by split|]. split; [done|].
  intros k x Hk Heq. pose proof (find_used_None _ _ _ _ Hnone Hk). by bprop.
Qed.

Lemma ashv_bind_seg s : sh_seg (ashv_bind K s) = sh_seg s /\ sh_mem (ashv_bind K s) = sh_mem s.
Proof. unfold ashv_bind. by case_if. Qed.

(** A segment is made, or the table is as it was. *)
Lemma shm_create_spec q s :
  shm_wf n s ->
  (rq_key q <> 0 -> forall k x, has_slot (sh_seg s) k x -> g_key x <> rq_key q) ->
  keeps True s (snd (shm_create E K q s)) /\
  (rq_size q <> 0 -> rq_size q <= 0x7fffffffffffffff - (k_page K - 1) ->
   is_Some (find_free (sh_seg s)) -> is_Some (k_backing K (rq_size q)) ->
   0 < fst (shm_create E K q s) /\
   exists k x, shm_find (snd (shm_create E K q s)) (fst (shm_create E K q s)) = Some (k, x) /\
     sh_seg s !! k = Some None /\ g_key x = rq_key q /\ g_size x = rq_size q /\
     g_nattch x = 0 /\ g_att x = []).
Proof.
  intros Hwf Hkey. unfold shm_create. case_if.
  { split; [by apply keeps_refl|]. bprop. lia. }
  destruct (find_free (sh_seg s)) as [slot|] eqn:Efree;
    [|split; [by apply keeps_refl|by intros ? ? []]].
  destruct (ashv_bind_seg s) as [B1 B2]. pose proof (ashv_bind_wf s Hwf) as Hwf1.
  destruct (shm_alloc_id (ashv_bind K s)) as [id s2] eqn:Ea.
  destruct (shm_alloc_id_spec _ _ _ Hwf1 Ea) as (A1 & A2 & Hwf2 & Hid & Hnew).
  pose proof (proj1 Hid) as Hpos. rewrite (proj2 (Z.ltb_ge id 0)) by lia.
  assert (Hacct : acct s -> acct s2) by (unfold acct; by rewrite A1, A2, B1, B2).
  destruct (k_backing K (rq_size q)) as [[fd path]|]; cbn [fst snd].
  2: { split; [|by intros ? ? ? []]. split; [|by auto]. apply (shm_wf_le n); [lia|done]. }
  rewrite <-B1, <-A1 in *. set (x := Seg _ _ _ _ _ _ _ _ _ _ _ _ _ _ _ _ _ _ _).
  assert (Hok : shm_wf n (put_seg slot (Some x) s2)).
  { apply wf_new; [done| |done|done].
    apply orb_false_iff in Eif as [Hsz%Z.eqb_neq _].
    split; [done|done|simpl; lia| |simpl; unfold cap_max; lia|done].
    split; simpl; [constructor|constructor|lia]. }
  split; [split|].
  - by apply (shm_wf_le n); [lia|].
  - intros _ Hs. by apply acct_put; [auto|].
  - intros _ _ _ _. split; [done|]. exists slot, x. split; [|by apply find_free_Some in Efree].
    apply (shm_find_slot n _ slot x Hok). apply find_free_Some, lookup_lt_Some in Efree.
    unfold has_slot. simpl. by rewrite list_lookup_insert_eq.
Qed.

Lemma shm_do_get_keeps q s : shm_wf n s -> keeps True s (snd (shm_do_get E K q s)).
Proof.
  intros Hwf. unfold shm_do_get. case_if.
  - destruct (find_used _ (sh_seg s)) as [[k x]|] eqn:Ef.
    + repeat case_if; by apply keeps_refl.
    + case_if; [by apply keeps_refl|]. apply shm_create_spec; [done|].
      intros _ k x Hk Heq. pose proof (find_used_None _ _ _ _ Ef Hk). by bprop.
  - apply shm_create_spec; [done|]. bprop. by rewrite Eif.
Qed.

Lemma shm_serve_keeps op q s :
  shm_wf n s -> keeps (polite op q s) s (snd (shm_serve E K op q s)).
Proof.
  intros Hwf. destruct op; cbn [shm_serve polite].
  - pose proof (shm_do_get_keeps q s Hwf) as H. by destruct (shm_do_get E K q s).
  - pose proof (shm_do_at_keeps q s Hwf) as H. by destruct (shm_do_at E K q s) as [[[] ?] ?].
  - pose proof (shm_do_dt_keeps q s Hwf) as H. by destruct (shm_do_dt E q s).
  - pose proof (shm_do_fork_keeps q s Hwf) as H. by destruct (shm_do_fork E K q s).
  - pose proof (shm_do_ctl_keeps q s Hwf) as H. by destruct (shm_do_ctl E K q s) as [[] ?].
Qed.
End Requests.
