(* ===== verification/ShmProps.v ===== *)
(** * Properties of the shared-memory registry (src/src/monitor/broker.c) *)

From Stdlib Require Import ZArith Lia.
From stdpp Require Import base numbers list.
From S2P Require Import Prelude IpcData IpcInv Shm ShmFacts ShmReq.

Open Scope Z_scope.

(** One request, with what it meets of the host. *)
Record shm_call := Call {
  c_env : env; c_host : shm_host; c_op : shm_req; c_q : cng_breq }.

Definition shm_step (s : shm) (c : shm_call) : shm :=
  snd (shm_serve (c_env c) (c_host c) (c_op c) (c_q c) s).

Definition shm_run (l : list shm_call) (s : shm) : shm := foldl shm_step s l.

Definition calls_ok (l : list shm_call) : Prop :=
  Forall (fun c => host_ok (c_host c)) l /\ Z.of_nat (length l) < STEPS_MAX.

(** Every detach of the run comes from a process with a row. *)
Fixpoint polite_run (l : list shm_call) (s : shm) : Prop :=
  match l with
  | [] => True
  | c :: l => polite (c_op c) (c_q c) s /\ polite_run l (shm_step s c)
  end.

Lemma shm_run_keeps l : forall n s,
  0 <= n -> n + Z.of_nat (length l) < STEPS_MAX ->
  Forall (fun c => host_ok (c_host c)) l -> shm_wf n s ->
  shm_wf (n + Z.of_nat (length l)) (shm_run l s) /\
  (polite_run l s -> acct s -> acct (shm_run l s)).
Proof.
  induction l as [|c l IH]; intros n s Hn Hmax Hl Hwf.
  { split; [by rewrite Z.add_0_r|done]. }
  apply Forall_cons_1 in Hl as [Hc Hl]. cbn [length] in *.
  destruct (shm_serve_keeps (c_env c) (c_host c) n Hc ltac:(lia) (c_op c) (c_q c) s Hwf)
    as [W A].
  destruct (IH (n + 1) (shm_step s c) ltac:(lia) ltac:(lia) Hl W) as [W' A'].
  split.
  - replace (n + Z.of_nat (S (length l))) with (n + 1 + Z.of_nat (length l)) by lia. exact W'.
  - cbn [polite_run]. intros [P1 P2] Hs. apply A'; [done|]. by apply A.
Qed.

Lemma lookup_no_slot {A} m k (x : A) : ~ has_slot (replicate m None) k x.
Proof. intros H. apply lookup_replicate in H as [? _]. done. Qed.

Lemma shm0_wf mem : shm_wf 0 (shm0 mem).
Proof.
  split; cbn [sh_seg shm0 sh_next_seq sh_sock]; try (unfold ASHV_SEQ_MAX, ASHV_SOCK_MAX; lia).
  - apply length_replicate.
  - intros k x H. by apply lookup_no_slot in H.
  - intros i j x y H. by apply lookup_no_slot in H.
  - intros i j x y H. by apply lookup_no_slot in H.
Qed.

Lemma shm0_acct : acct (shm0 []).
Proof. split; [done|]. intros k x H. by apply lookup_no_slot in H. Qed.

(** ** What IPC_STAT answers *)

Lemma total_pos l : Forall (fun r => 1 <= a_n r) l -> total l = 0 -> l = [].
Proof.
  intros H Ht. destruct l as [|r l]; [done|]. apply Forall_cons_1 in H as [Hr Hl].
  assert (0 <= total l).
  { apply total_nonneg. eapply Forall_impl; [exact Hl|]. simpl. lia. }
  simpl in Ht. lia.
Qed.

Section Stat.
Context (E : env) (n : Z).
Hypothesis Hn : 0 <= n < STEPS_MAX.

(** The answer counts the living rows, or the segment is gone. *)
Lemma stat_after_spec s k x r :
  shm_wf n s -> has_slot (sh_seg s) k x -> accounted x ->
  let '((ret, resp), s') := shm_stat_after E k x r s in
  if g_rmid x && bool_decide (filter (alive E) (g_att x) = [])
  then ret = - EINVAL /\ sh_seg s' !! k = Some None
  else ret = r /\ r_nattch resp = total (filter (alive E) (g_att x)) /\
       exists x', has_slot (sh_seg s') k x' /\ g_shmid x' = g_shmid x.
Proof.
  intros Hwf Hk Ha. pose proof (seg_ok_pre _ _ (swf_segs n s Hwf k x Hk)) as Hx.
  destruct (reclaimed_spec E n Hn x Hx) as ((att & cap & z & Er) & Hp & Hatt & Hacc).
  specialize (Hacc Ha). unfold accounted in Hacc. rewrite (total_perm _ _ Hatt) in Hacc.
  assert (Hz : (g_nattch (reclaimed E x) =? 0) =
    bool_decide (filter (alive E) (g_att x) = [])).
  { rewrite Hacc. destruct (Z.eqb_spec (total (filter (alive E) (g_att x))) 0) as [H0|H0].
    - symmetry. apply bool_decide_eq_true, total_pos; [|done].
      eapply Forall_impl; [apply (rok_n n), rows_ok_filter, Hx|]. simpl. lia.
    - symmetry. apply bool_decide_eq_false. intros H. by rewrite H in H0. }
  pose proof (lookup_lt_Some _ _ _ Hk) as Hlt.
  unfold shm_stat_after. rewrite shm_reclaim_seg_eq, Hz.
  destruct (g_rmid x && bool_decide _); cbn [sh_seg shm_free put_seg].
  - rewrite list_lookup_insert_eq by done. split; [done|]. by apply list_lookup_insert_eq.
  - rewrite list_lookup_insert_eq by done. split; [done|]. split; [done|].
    exists (reclaimed E x). split; [by apply list_lookup_insert_eq|]. by rewrite Er.
Qed.
End Stat.

Definition stat_call (q : cng_breq) : Prop := rq_arg q = CNG_IPC_STAT.

Lemma shm_serve_stat E K q s k x :
  stat_call q -> shm_find s (rq_id q) = Some (k, x) ->
  shm_permitted x (rq_uid q) (rq_gid q) false false = true ->
  shm_serve E K REQ_SHMCTL q s =
  let '((r, resp), s') := shm_stat_after E k x 0 s in ((resp_ret r resp, None), s').
Proof.
  intros Hq Hf Hp. unfold shm_serve, shm_do_ctl. by rewrite Hq, Hf, Hp.
Qed.

(** ** Concrete hosts *)

Definition env_at (now : Z) (start : Z -> Z) : env :=
  Env now 0 start (fun _ => false) (fun _ => true).
Definition host4k : shm_host :=
  ShmHost 4096 (fun _ => Some (5, [])) true 1234 (fun _ => 0) true.
Definition breq (key size id arg pid uid : Z) : cng_breq :=
  BReq REQ_OTHER key size id arg pid uid uid 0 0 0 0 0 0 0.

Lemma host4k_ok : host_ok host4k.
Proof. by left. Qed.

(** ** The registry's claims *)

(** C36: After any run of fewer than 2^28 requests from the empty registry,
    whatever the host answers to them, the table is well formed: it has its 1024
    slots; every segment has a positive id no other has, a key no other has
    unless it is 0, a size that is not 0, attacher rows of distinct pids that
    each count at least one attach and fit the block mapped for them, and a
    segment marked for removal has no key, the SHM_DEST bit and at least one
    attach left; and the sequence number and the socket id stay in the ranges
    that make the next id positive. *)
Theorem shm_registry_invariant mem l :
  calls_ok l -> shm_wf (Z.of_nat (length l)) (shm_run l (shm0 mem)).
Proof.
  intros [Hl Hmax].
  apply (shm_run_keeps l 0 (shm0 mem) ltac:(lia) Hmax Hl (shm0_wf mem)).
Qed.

Lemma shm_registry_invariant_witness :
  let l := [Call (env_at 10 id) host4k REQ_SHMGET (breq 7 100 0 (512 + 384) 40 0)] in
  shm_wf 1 (shm_run l (shm0 [])) /\
  shm_find (shm_run l (shm0 [])) (1235 * 65536 + 1) <> None.
Proof.
  intros l. split; [|by vm_compute].
  apply (shm_registry_invariant [] l). split; [|done].
  constructor; [exact host4k_ok|constructor].
Defined.

(** Shmget cannot run out of ids.  In every state a run reaches, a request
    for a new segment (private, or IPC_CREAT with a key no segment has) of a
    representable size, with a free slot and a backing, returns a positive id;
    the segment is then found under that id, in a slot that was free, with the
    requested key and size and no attach, whatever ids are alive: 4096 tries over
    65535 sequence numbers always meet one that none of the 1024 slots has. *)
Theorem shmget_creates mem l E K q :
  calls_ok l -> host_ok K ->
  let s := shm_run l (shm0 mem) in
  rq_key q = 0 \/ has_flag (rq_arg q) CNG_IPC_CREAT = true /\
    find_used (fun x => g_key x =? rq_key q) (sh_seg s) = None ->
  0 < rq_size q <= 0x7fffffffffffffff - (k_page K - 1) ->
  is_Some (find_free (sh_seg s)) -> is_Some (k_backing K (rq_size q)) ->
  let '(id, s') := shm_do_get E K q s in
  0 < id /\ exists k x, shm_find s' id = Some (k, x) /\ sh_seg s !! k = Some None /\
    g_key x = rq_key q /\ g_size x = rq_size q /\ g_nattch x = 0 /\ g_att x = [].
Proof.
  intros [Hl Hmax] HK s Hq Hsz Hfree Hback.
  pose proof (proj1 (shm_run_keeps l 0 (shm0 mem) ltac:(lia) Hmax Hl (shm0_wf mem))) as Hwf.
  fold s in Hwf. clearbody s.
  assert (Hkey : rq_key q <> 0 -> forall k x, has_slot (sh_seg s) k x -> g_key x <> rq_key q).
  { intros Hne k x Hk He. destruct Hq as [?|[_ Hnone]]; [done|].
    pose proof (find_used_None _ _ _ _ Hnone Hk). by bprop. }
  destruct (shm_create_spec E K (0 + Z.of_nat (length l)) ltac:(lia) q s Hwf Hkey) as [_ H].
  specialize (H ltac:(lia) (proj2 Hsz) Hfree Hback). unfold shm_do_get.
  destruct (Z.eqb_spec (rq_key q) 0) as [E0|E0]; cbn [negb].
  - by destruct (shm_create E K q s).
  - destruct Hq as [?|[Hc Hnone]]; [done|]. rewrite Hnone, Hc. cbn [negb].
    by destruct (shm_create E K q s).
Qed.

Lemma shmget_creates_witness :
  let q := breq 0 100 0 384 40 0 in
  let '(id, s') := shm_do_get (env_at 10 id) host4k q (shm0 []) in
  0 < id /\ exists k x, shm_find s' id = Some (k, x) /\ sh_seg (shm0 []) !! k = Some None /\
    g_key x = rq_key q /\ g_size x = rq_size q /\ g_nattch x = 0 /\ g_att x = [].
Proof.
  apply (shmget_creates [] [] (env_at 10 id) host4k (breq 0 100 0 384 40 0)).
  - by split; [constructor|].
  - exact host4k_ok.
  - by left.
  - split; vm_compute; congruence.
  - by exists 0%nat.
  - by eexists.
Defined.

(** The attach count is right for programs that detach what they hold.
    Where no growth of the rows was refused and every detach came from a process
    with a row, IPC_STAT by a caller the mode lets read answers exactly the
    attaches held by processes that are alive, the incarnation that attached and
    no zombie; and a segment marked for removal is gone, with EINVAL, exactly
    when no such process is left. *)
Theorem shm_stat_counts_the_living l E K q k x :
  calls_ok l -> polite_run l (shm0 []) ->
  let s := shm_run l (shm0 []) in
  stat_call q -> shm_find s (rq_id q) = Some (k, x) ->
  shm_permitted x (rq_uid q) (rq_gid q) false false = true ->
  let living := filter (alive E) (g_att x) in
  let '((resp, fd), s') := shm_serve E K REQ_SHMCTL q s in
  fd = None /\
  if g_rmid x && bool_decide (living = [])
  then r_ret resp = - EINVAL /\ sh_seg s' !! k = Some None
  else r_ret resp = 0 /\ r_nattch resp = total living /\
       exists x', has_slot (sh_seg s') k x' /\ g_shmid x' = g_shmid x.
Proof.
  intros [Hl Hmax] Hp s Hq Hf Hperm living.
  destruct (shm_run_keeps l 0 (shm0 []) ltac:(lia) Hmax Hl (shm0_wf [])) as [Hwf Ha].
  specialize (Ha Hp shm0_acct). fold s in Hwf, Ha. clearbody s.
  rewrite (shm_serve_stat E K q s k x Hq Hf Hperm).
  apply shm_find_Some in Hf as [Hk _].
  pose proof (stat_after_spec E (0 + Z.of_nat (length l)) ltac:(lia) s k x 0 Hwf Hk
    (proj2 Ha k x Hk)) as H.
  destruct (shm_stat_after E k x 0 s) as [[ret resp] s']. split; [done|].
  by destruct (g_rmid x && _).
Qed.

(** Two processes attach, one of them dies. *)
Definition two_attach : list shm_call :=
  [Call (env_at 10 id) host4k REQ_SHMGET (breq 7 100 0 (512 + 384) 40 0);
   Call (env_at 11 id) host4k REQ_SHMAT (breq 0 0 (1235 * 65536 + 1) 0 40 0);
   Call (env_at 12 id) host4k REQ_SHMAT (breq 0 0 (1235 * 65536 + 1) 0 41 0)].

Definition slot_of (s : shm) (k : nat) : seg :=
  match sh_seg s !! k with
  | Some (Some x) => x
  | _ => Seg 0 0 0 0 0 0 0 0 0 0 0 0 0 0 [] 0 false [] 0
  end.

Lemma shm_stat_counts_the_living_witness :
  let E := env_at 13 (fun p => if p =? 41 then 0 else p) in
  let s := shm_run two_attach (shm0 []) in
  let x := slot_of s 0 in
  let q := breq 0 0 (1235 * 65536 + 1) CNG_IPC_STAT 40 0 in
  let '((resp, fd), s') := shm_serve E host4k REQ_SHMCTL q s in
  fd = None /\
  if g_rmid x && bool_decide (filter (alive E) (g_att x) = [])
  then r_ret resp = - EINVAL /\ sh_seg s' !! 0%nat = Some None
  else r_ret resp = 0 /\ r_nattch resp = total (filter (alive E) (g_att x)) /\
       exists x', has_slot (sh_seg s') 0 x' /\ g_shmid x' = g_shmid x.
Proof.
  intros E s x q.
  apply (shm_stat_counts_the_living two_attach E host4k q 0%nat x).
  - split; [|done]. repeat (constructor; [exact host4k_ok|]). constructor.
  - by repeat (split; [done|]).
  - done.
  - by vm_compute.
  - by vm_compute.
Defined.

Lemma one_row l1 r' l2 r :
  NoDup (a_pid <$> (l1 ++ r' :: l2)) -> r ∈ l1 ++ r' :: l2 -> a_pid r = a_pid r' -> r = r'.
Proof.
  rewrite fmap_app. intros Hnd Hr Hp. cbn in Hnd.
  apply NoDup_app in Hnd as (_ & Hd & Hnd). apply NoDup_cons_1_1 in Hnd.
  apply elem_of_app in Hr as [Hr|Hr].
  - destruct (Hd (a_pid r')); [|by left]. rewrite <-Hp. by apply list_elem_of_fmap_2.
  - apply elem_of_cons in Hr as [->|Hr]; [done|]. destruct Hnd. rewrite <-Hp.
    by apply list_elem_of_fmap_2.
Qed.

(** An attach that lands on a dead row leaves the living ones as they were. *)
Lemma att_add_reused E K x z pid s x' s' r :
  NoDup (a_pid <$> g_att x) -> r ∈ g_att x -> a_pid r = pid -> a_start r <> e_start E pid ->
  shm_att_add E K (seg_attach x z (g_att x) (g_attcap x)) pid s = (x', s') ->
  filter (alive E) (g_att x') = filter (alive E) (g_att x).
Proof.
  intros Hnd Hr Hpid Hstart. unfold shm_att_add. cbn [g_att seg_attach].
  pose proof (att_bump_spec pid (g_att x)) as Hb.
  destruct (att_bump pid (g_att x)) as [att|].
  2: { destruct Hb. rewrite <-Hpid. by apply list_elem_of_fmap_2. }
  intros [= <- <-]. destruct Hb as (l1 & r' & l2 & Eatt & Hr' & ->). cbn [g_att seg_attach].
  rewrite Eatt in *. assert (r = r') as <- by (eapply one_row; eauto; congruence).
  assert (Hd : forall m, ~ alive E (SegAtt (a_pid r) (a_start r) m)).
  { intros m. unfold alive, row_dead. cbn [a_pid a_start]. rewrite Hpid.
    by rewrite (proj2 (Z.eqb_neq _ _)) by (by symmetry). }
  rewrite !filter_app, !filter_cons_False; [done|..]; [|apply Hd].
  destruct r as [p st m]. apply (Hd m).
Qed.

(** The rows are matched by pid alone.  Where a pid has come back as
    another process, a row of the earlier one still there takes the new
    process's attach and keeps the earlier start time, so the next reclaim drops
    both: an IPC_STAT right after the attach answers the same count as if it had
    never been made, and a segment marked for removal that has no other living
    attacher is freed under the process that has just attached it. *)
Theorem shm_reused_pid_attach_uncounted n s E K K' q q' k x r :
  shm_wf n s -> 0 <= n -> n + 1 < STEPS_MAX -> acct s -> host_ok K ->
  shm_find s (rq_id q) = Some (k, x) ->
  shm_permitted x (rq_uid q) (rq_gid q)
    (negb (has_flag (rq_arg q) CNG_SHMAT_RDONLY)) (has_flag (rq_arg q) CNG_SHMAT_EXEC) = true ->
  r ∈ g_att x -> a_pid r = rq_pid q -> a_start r <> e_start E (rq_pid q) ->
  stat_call q' -> rq_id q' = rq_id q ->
  shm_permitted x (rq_uid q') (rq_gid q') false false = true ->
  let '(ans, s1) := shm_do_at E K q s in
  let '((resp, fd), s2) := shm_serve E K' REQ_SHMCTL q' s1 in
  ans = (0, g_size x, Some (g_fd x)) /\
  if g_rmid x && bool_decide (filter (alive E) (g_att x) = [])
  then r_ret resp = - EINVAL /\ sh_seg s2 !! k = Some None
  else r_ret resp = 0 /\ r_nattch resp = total (filter (alive E) (g_att x)).
Proof.
  intros Hwf Hn Hmax Ha HK Hf Hperm Hr Hpid Hstart Hq' Hid Hperm'.
  assert (Hn' : 0 <= n < STEPS_MAX) by lia.
  pose proof (shm_do_at_keeps E K n HK Hn' q s Hwf) as [Hwf1 Ha1].
  specialize (Ha1 I Ha). unfold shm_do_at in *. rewrite Hf, Hperm in *. cbn [negb] in *.
  apply shm_find_Some in Hf as [Hk Hidx].
  destruct (shm_att_add E K _ (rq_pid q) s) as [x' s'] eqn:Eadd. cbn [snd] in *.
  destruct (att_add_ok E K n HK Hn' x (rq_pid q) s x' s' (swf_segs n s Hwf k x Hk) Eadd)
    as ((G1 & _) & _ & (att' & cap & Ex') & _).
  pose proof (att_add_reused E K x _ _ s x' s' r
    (rok_pids _ _ (sok_rows _ _ (swf_segs n s Hwf k x Hk))) Hr Hpid Hstart Eadd) as Hatt.
  set (y := seg_times x' (rq_pid q) (e_now_sec E) (g_dtime x')) in *.
  assert (Hy : has_slot (sh_seg (put_seg k (Some y) s')) k y).
  { eapply has_slot_here. rewrite G1. exact Hk. }
  rewrite (shm_serve_stat E K' q' _ k y Hq').
  2: { rewrite Hid, <-Hidx. replace (g_shmid x) with (g_shmid y) by (by subst y x').
       by eapply shm_find_slot. }
  2: { subst y x'. exact Hperm'. }
  pose proof (stat_after_spec E (n + 1) ltac:(lia) _ k y 0 Hwf1 Hy (proj2 Ha1 k y Hy)) as H.
  replace (g_att y) with (g_att x') in H by done. rewrite Hatt in H.
  replace (g_rmid y) with (g_rmid x) in H by (by subst y x').
  destruct (shm_stat_after E k y 0 _) as [[ret resp] s2].
  split; [by subst x'|]. destruct (g_rmid x && _); [done|]. by destruct H as (? & ? & _).
Qed.

(** Process 40 attached, died, and its pid is another process's by the time the
    segment is attached again. *)
Lemma shm_reused_pid_attach_uncounted_witness :
  let l := firstn 2 two_attach in
  let s := shm_run l (shm0 []) in
  let x := slot_of s 0 in
  let E := env_at 20 (fun p => p + 1000) in
  let q := breq 0 0 (1235 * 65536 + 1) 0 40 0 in
  let q' := breq 0 0 (1235 * 65536 + 1) CNG_IPC_STAT 40 0 in
  let '(ans, s1) := shm_do_at E host4k q s in
  let '((resp, fd), s2) := shm_serve E host4k REQ_SHMCTL q' s1 in
  ans = (0, g_size x, Some (g_fd x)) /\
  if g_rmid x && bool_decide (filter (alive E) (g_att x) = [])
  then r_ret resp = - EINVAL /\ sh_seg s2 !! 0%nat = Some None
  else r_ret resp = 0 /\ r_nattch resp = total (filter (alive E) (g_att x)).
Proof.
  intros l s x E q q'.
  assert (Hl : Forall (fun c => host_ok (c_host c)) l)
    by (repeat (constructor; [exact host4k_ok|]); constructor).
  destruct (shm_run_keeps l 0 (shm0 []) ltac:(lia) ltac:(done) Hl (shm0_wf [])) as [Hwf Ha].
  apply (shm_reused_pid_attach_uncounted 2 s E host4k host4k q q' 0%nat x (SegAtt 40 40 1)).
  - exact Hwf.
  - lia.
  - done.
  - apply Ha; [|exact shm0_acct]. by repeat (split; [done|]).
  - exact host4k_ok.
  - by vm_compute.
  - by vm_compute.
  - apply list_elem_of_singleton. by vm_compute.
  - done.
  - by vm_compute.
  - done.
  - done.
  - by vm_compute.
Defined.
