(* ===== verification/Rt.v ===== *)
(** * The freestanding runtime: memory and strings (src/src/rt/rt.c)

    Memory is a finite map from addresses to bytes; an address it does not hold
    is unmapped, and a load or a store there is [None], the fault the monitor
    would die of.  Pointers are integers, objects do not wrap the address
    space.  The word loads and stores are the little-endian 64-bit ones of
    AArch64.  A loop that runs until it meets a byte takes fuel. *)

From stdpp Require Import base list numbers gmap.
From Stdlib Require Import ZArith Lia.
From S2P Require Import Prelude.

Open Scope Z_scope.

Abbreviation mem := (gmap Z Z).

(** ** Loads and stores *)

Definition load8 (m : mem) (a : Z) : option Z := m !! a.

Definition store8 (m : mem) (a v : Z) : option mem :=
  match m !! a with Some _ => Some (<[a := v]> m) | None => None end.

Definition le64 (l : list Z) : Z := foldr (fun b z => b + 256 * z) 0 l.

Fixpoint read_bytes (m : mem) (a : Z) (n : nat) : option (list Z) :=
  match n with
  | O => Some []
  | S n => b ← load8 m a; l ← read_bytes m (a + 1) n; Some (b :: l)
  end.

Definition load64 (m : mem) (a : Z) : option Z := le64 <$> read_bytes m a 8.

Fixpoint bytes_of (n : nat) (w : Z) : list Z :=
  match n with
  | O => []
  | S n => w mod 256 :: bytes_of n (w / 256)
  end.

Fixpoint write_bytes (m : mem) (a : Z) (l : list Z) : option mem :=
  match l with
  | [] => Some m
  | b :: l => m ← store8 m a b; write_bytes m (a + 1) l
  end.

Definition store64 (m : mem) (a w : Z) : option mem := write_bytes m a (bytes_of 8 w).

Definition rt_unaligned (p : Z) : bool := negb (Z.land p 7 =? 0).

(** An access through [u64_al] promises an aligned address, and is [None] where
    the promise is broken; [load64] and [store64] are those through [u64_ua]. *)
Definition load64_al (m : mem) (a : Z) : option Z :=
  if rt_unaligned a then None else load64 m a.
Definition store64_al (m : mem) (a w : Z) : option mem :=
  if rt_unaligned a then None else store64 m a w.

Definition RT_ONES := 0x0101010101010101.
Definition RT_HIGHS := 0x8080808080808080.

(** [((w - RT_ONES) & ~w) & RT_HIGHS], non-zero. *)
Definition RT_HAS_ZERO (w : Z) : Z :=
  Z.land (Z.land (u64 (w - RT_ONES)) (u64 (Z.lnot w))) RT_HIGHS.

(** ** memset, memcpy, memmove, memcmp *)

Fixpoint set_bytes (n : nat) (m : mem) (p c : Z) : option mem :=
  match n with
  | O => Some m
  | S n => m ← store8 m p c; set_bytes n m (p + 1) c
  end.

(** [while (rt_unaligned(p))], at most 7 turns. *)
Fixpoint set_head (fuel : nat) (m : mem) (p c : Z) (n : nat) : option (mem * Z * nat) :=
  match fuel with
  | O => Some (m, p, n)
  | S fuel =>
      if rt_unaligned p
      then m ← store8 m p c; set_head fuel m (p + 1) c (pred n)
      else Some (m, p, n)
  end.

(** [for (; n >= 8; n -= 8, p += 8)]. *)
Fixpoint set_words (fuel : nat) (m : mem) (p w : Z) (n : nat) : option (mem * Z * nat) :=
  match fuel with
  | O => Some (m, p, n)
  | S fuel =>
      if (8 <=? n)%nat then m ← store64_al m p w; set_words fuel m (p + 8) w (n - 8)
      else Some (m, p, n)
  end.

Definition memset (m : mem) (d c : Z) (n : nat) : option mem :=
  let c := u8 c in
  if (16 <=? n)%nat then
    let w := u64 (c * RT_ONES) in
    '(m, p, n) ← set_head 7 m d c n;
    '(m, p, n) ← set_words n m p w n;
    set_bytes n m p c
  else set_bytes n m d c.

Fixpoint copy_bytes (n : nat) (m : mem) (a b : Z) : option mem :=
  match n with
  | O => Some m
  | S n => v ← load8 m b; m ← store8 m a v; copy_bytes n m (a + 1) (b + 1)
  end.

Fixpoint copy_head (fuel : nat) (m : mem) (a b : Z) (n : nat) : option (mem * Z * Z * nat) :=
  match fuel with
  | O => Some (m, a, b, n)
  | S fuel =>
      if rt_unaligned a
      then v ← load8 m b; m ← store8 m a v; copy_head fuel m (a + 1) (b + 1) (pred n)
      else Some (m, a, b, n)
  end.

Fixpoint copy_words (fuel : nat) (m : mem) (a b : Z) (n : nat) : option (mem * Z * Z * nat) :=
  match fuel with
  | O => Some (m, a, b, n)
  | S fuel =>
      if (8 <=? n)%nat
      then w ← load64 m b; m ← store64_al m a w; copy_words fuel m (a + 8) (b + 8) (n - 8)
      else Some (m, a, b, n)
  end.

(** The upward copy of [memcpy] and of [memmove]'s first branch. *)
Definition copy_up (m : mem) (d s : Z) (n : nat) : option mem :=
  if (16 <=? n)%nat then
    '(m, a, b, n) ← copy_head 7 m d s n;
    '(m, a, b, n) ← copy_words n m a b n;
    copy_bytes n m a b
  else copy_bytes n m d s.

Definition memcpy (m : mem) (d s : Z) (n : nat) : option mem := copy_up m d s n.

(** The same loops downwards, [a] and [b] one past the bytes still to go. *)
Fixpoint down_bytes (n : nat) (m : mem) (a b : Z) : option mem :=
  match n with
  | O => Some m
  | S n => v ← load8 m (b - 1); m ← store8 m (a - 1) v; down_bytes n m (a - 1) (b - 1)
  end.

Fixpoint down_head (fuel : nat) (m : mem) (a b : Z) (n : nat) : option (mem * Z * Z * nat) :=
  match fuel with
  | O => Some (m, a, b, n)
  | S fuel =>
      if rt_unaligned a
      then v ← load8 m (b - 1); m ← store8 m (a - 1) v;
           down_head fuel m (a - 1) (b - 1) (pred n)
      else Some (m, a, b, n)
  end.

Fixpoint down_words (fuel : nat) (m : mem) (a b : Z) (n : nat) : option (mem * Z * Z * nat) :=
  match fuel with
  | O => Some (m, a, b, n)
  | S fuel =>
      if (8 <=? n)%nat
      then w ← load64 m (b - 8); m ← store64_al m (a - 8) w;
           down_words fuel m (a - 8) (b - 8) (n - 8)
      else Some (m, a, b, n)
  end.

Definition copy_down (m : mem) (d s : Z) (n : nat) : option mem :=
  let a := d + Z.of_nat n in
  let b := s + Z.of_nat n in
  if (16 <=? n)%nat then
    '(m, a, b, n) ← down_head 7 m a b n;
    '(m, a, b, n) ← down_words n m a b n;
    down_bytes n m a b
  else down_bytes n m a b.

Definition memmove (m : mem) (d s : Z) (n : nat) : option mem :=
  if (d =? s) || (n =? 0)%nat then Some m
  else if d <? s then copy_up m d s n
  else copy_down m d s n.

(** The words that agree; what is avail goes to the byte loop. *)
Fixpoint cmp_words (fuel : nat) (m : mem) (x y : Z) (n : nat) : option (Z * Z * nat) :=
  match fuel with
  | O => Some (x, y, n)
  | S fuel =>
      if (8 <=? n)%nat
      then v ← load64 m x; w ← load64 m y;
           if negb (v =? w) then Some (x, y, n)
           else cmp_words fuel m (x + 8) (y + 8) (n - 8)
      else Some (x, y, n)
  end.

Fixpoint cmp_bytes (n : nat) (m : mem) (x y : Z) : option Z :=
  match n with
  | O => Some 0
  | S n =>
      v ← load8 m x; w ← load8 m y;
      if negb (v =? w) then Some (v - w) else cmp_bytes n m (x + 1) (y + 1)
  end.

Definition memcmp (m : mem) (a b : Z) (n : nat) : option Z :=
  '(x, y, n) ← cmp_words n m a b n; cmp_bytes n m x y.

(** ** Strings *)

(** The bytes up to an aligned address: the terminator's address, or where the
    words begin. *)
Fixpoint len_head (fuel : nat) (m : mem) (p : Z) : option (Z + Z) :=
  match fuel with
  | O => None
  | S fuel =>
      if rt_unaligned p
      then v ← load8 m p; if v =? 0 then Some (inl p) else len_head fuel m (p + 1)
      else Some (inr p)
  end.

(** The words before the first that passes the test. *)
Fixpoint skip_words (fuel : nat) (test : Z -> bool) (m : mem) (w : Z) : option Z :=
  match fuel with
  | O => None
  | S fuel =>
      v ← load64_al m w; if test v then Some w else skip_words fuel test m (w + 8)
  end.

Fixpoint len_bytes (fuel : nat) (m : mem) (p : Z) : option Z :=
  match fuel with
  | O => None
  | S fuel => v ← load8 m p; if v =? 0 then Some p else len_bytes fuel m (p + 1)
  end.

Definition has_zero (w : Z) : bool := negb (RT_HAS_ZERO w =? 0).

Definition strlen (fuel : nat) (m : mem) (s : Z) : option Z :=
  r ← len_head fuel m s;
  match r with
  | inl p => Some (p - s)
  | inr p =>
      w ← skip_words fuel has_zero m p;
      p ← len_bytes fuel m w;
      Some (p - s)
  end.

(** The three loops of [cng_strnlen], [avail] being [max - i]. *)
Fixpoint nlen_head (avail : nat) (m : mem) (p : Z) : option (Z * nat * bool) :=
  match avail with
  | O => Some (p, O, false)
  | S avail' =>
      if rt_unaligned p
      then v ← load8 m p; if v =? 0 then Some (p, avail, true) else nlen_head avail' m (p + 1)
      else Some (p, avail, false)
  end.

Fixpoint nlen_words (fuel : nat) (m : mem) (p : Z) (avail : nat) : option (Z * nat) :=
  match fuel with
  | O => Some (p, avail)
  | S fuel =>
      if (8 <=? avail)%nat
      then v ← load64_al m p;
           if has_zero v then Some (p, avail) else nlen_words fuel m (p + 8) (avail - 8)
      else Some (p, avail)
  end.

Fixpoint nlen_bytes (avail : nat) (m : mem) (p : Z) : option Z :=
  match avail with
  | O => Some p
  | S avail => v ← load8 m p; if v =? 0 then Some p else nlen_bytes avail m (p + 1)
  end.

Definition cng_strnlen (m : mem) (s : Z) (max : nat) : option Z :=
  '(p, avail, found) ← nlen_head max m s;
  if found : bool then Some (p - s)
  else '(p, avail) ← nlen_words avail m p avail; q ← nlen_bytes avail m p; Some (q - s).

Fixpoint strcmp (fuel : nat) (m : mem) (a b : Z) : option Z :=
  match fuel with
  | O => None
  | S fuel =>
      x ← load8 m a;
      if x =? 0 then y ← load8 m b; Some (x - y)
      else y ← load8 m b; if x =? y then strcmp fuel m (a + 1) (b + 1) else Some (x - y)
  end.

Fixpoint strncmp (n : nat) (m : mem) (a b : Z) : option Z :=
  match n with
  | O => Some 0
  | S n =>
      x ← load8 m a; y ← load8 m b;
      if negb (x =? y) then Some (x - y)
      else if x =? 0 then Some 0
      else strncmp n m (a + 1) (b + 1)
  end.

(** An answer is [None] for NULL. *)
Fixpoint chr_head (fuel : nat) (m : mem) (ch p : Z) : option (option Z + Z) :=
  match fuel with
  | O => None
  | S fuel =>
      if rt_unaligned p then
        v ← load8 m p;
        if v =? ch then Some (inl (Some p))
        else if v =? 0 then Some (inl None)
        else chr_head fuel m ch (p + 1)
      else Some (inr p)
  end.

Fixpoint chr_bytes (fuel : nat) (m : mem) (ch p : Z) : option (option Z) :=
  match fuel with
  | O => None
  | S fuel =>
      v ← load8 m p;
      if v =? ch then Some (Some p)
      else if v =? 0 then Some None
      else chr_bytes fuel m ch (p + 1)
  end.

Definition has_zero_or (pat w : Z) : bool :=
  negb (Z.lor (RT_HAS_ZERO w) (RT_HAS_ZERO (Z.lxor w pat)) =? 0).

Definition strchr (fuel : nat) (m : mem) (s c : Z) : option (option Z) :=
  let ch := u8 c in
  if ch =? 0 then n ← strlen fuel m s; Some (Some (s + n))
  else
    r ← chr_head fuel m ch s;
    match r with
    | inl ans => Some ans
    | inr p =>
        let pat := u64 (ch * RT_ONES) in
        w ← skip_words fuel (has_zero_or pat) m p;
        chr_bytes fuel m ch w
    end.

(** The last match so far, and the answer or where the words begin. *)
Fixpoint rchr_head (fuel : nat) (m : mem) (ch p : Z) (r : option Z)
    : option (option Z + Z * option Z) :=
  match fuel with
  | O => None
  | S fuel =>
      if rt_unaligned p then
        v ← load8 m p;
        let r := if v =? ch then Some p else r in
        if v =? 0 then Some (inl r) else rchr_head fuel m ch (p + 1) r
      else Some (inr (p, r))
  end.

(** [for (int i = 0; i < 8; i++, p++)]: the answer, or the last match. *)
Fixpoint rchr_word (i : nat) (m : mem) (ch p : Z) (r : option Z)
    : option (option Z + option Z) :=
  match i with
  | O => Some (inr r)
  | S i =>
      v ← load8 m p;
      let r := if v =? ch then Some p else r in
      if v =? 0 then Some (inl r) else rchr_word i m ch (p + 1) r
  end.

Fixpoint rchr_words (fuel : nat) (m : mem) (ch pat w : Z) (r : option Z) : option (option Z) :=
  match fuel with
  | O => None
  | S fuel =>
      v ← load64_al m w;
      if negb (has_zero_or pat v) then rchr_words fuel m ch pat (w + 8) r
      else
        x ← rchr_word 8 m ch w r;
        match x with
        | inl ans => Some ans
        | inr r => rchr_words fuel m ch pat (w + 8) r
        end
  end.

Definition strrchr (fuel : nat) (m : mem) (s c : Z) : option (option Z) :=
  let ch := u8 c in
  if ch =? 0 then n ← strlen fuel m s; Some (Some (s + n))
  else
    x ← rchr_head fuel m ch s None;
    match x with
    | inl ans => Some ans
    | inr (p, r) => rchr_words fuel m ch (u64 (ch * RT_ONES)) p r
    end.

(** The loop of [cng_strlcpy], [avail] being [room - n]. *)
Fixpoint lcpy_loop (fuel : nat) (m : mem) (dst src : Z) (n : Z) (avail : nat)
    : option (mem * Z) :=
  match fuel with
  | O => Some (m, n)
  | S fuel =>
      if (avail =? 0)%nat then Some (m, n)
      else
        w ← (if negb (rt_unaligned (src + n)) && (8 <=? avail)%nat
             then w ← load64_al m (src + n); Some (if has_zero w then None else Some w)
             else Some None);
        match w with
        | Some w => m ← store64 m (dst + n) w; lcpy_loop fuel m dst src (n + 8) (avail - 8)
        | None =>
            c ← load8 m (src + n);
            if c =? 0 then Some (m, n)
            else m ← store8 m (dst + n) c; lcpy_loop fuel m dst src (n + 1) (pred avail)
        end
  end.

Definition cng_strlcpy (fuel : nat) (m : mem) (dst src : Z) (size : nat) : option (mem * Z) :=
  let room := pred size in
  '(m, n) ← lcpy_loop room m dst src 0 room;
  m ← (if (size =? 0)%nat then Some m else store8 m (dst + n) 0);
  r ← strlen fuel m (src + n);
  Some (m, n + r).
