(* ===== verification/RtFacts.v ===== *)
(** * The runtime: words and their bytes *)

From stdpp Require Import base list numbers gmap.
From Stdlib Require Import ZArith Lia.
From S2P Require Import Prelude Rt.

Open Scope Z_scope.

(** ** Bytes and words *)

Definition byte (b : Z) : Prop := 0 <= b < 256.

(** A number made of a low byte and the rest, bit by bit. *)
Lemma cat_testbit a x i :
  byte a -> 0 <= i ->
  Z.testbit (a + 256 * x) i = if i <? 8 then Z.testbit a i else Z.testbit x (i - 8).
Proof.
  intros Ha Hi. unfold byte in Ha. destruct (Z.ltb_spec i 8) as [Hlt|Hge].
  - rewrite <-(Z.mod_pow2_bits_low (a + 256 * x) 8) by lia.
    replace (a + 256 * x) with (a + x * 2 ^ 8) by lia.
    rewrite Z.mod_add by lia. rewrite Z.mod_small by lia. done.
  - replace i with (i - 8 + 8) at 1 by lia. rewrite <-Z.div_pow2_bits by lia.
    replace (a + 256 * x) with (a + x * 2 ^ 8) by lia.
    rewrite Z.div_add by lia. rewrite Z.div_small by lia. done.
Qed.

Lemma byte_op (f : Z -> Z -> Z) (g : bool -> bool -> bool) a b x y :
  (forall u v i, 0 <= i -> Z.testbit (f u v) i = g (Z.testbit u i) (Z.testbit v i)) ->
  byte a -> byte b -> byte (f a b) ->
  f (a + 256 * x) (b + 256 * y) = f a b + 256 * f x y.
Proof.
  intros Hf Ha Hb Hab. apply Z.bits_inj'. intros i Hi.
  rewrite Hf, !cat_testbit by done. destruct (Z.ltb_spec i 8); by rewrite Hf by lia.
Qed.

(** A mask keeps a number below its width. *)
Lemma land_range x h k : 0 <= k -> 0 <= h < 2 ^ k -> 0 <= Z.land x h < 2 ^ k.
Proof.
  intros Hk Hh. assert (E : Z.land x h = Z.land x h mod 2 ^ k).
  { rewrite <-(Z.land_ones (Z.land x h)), <-Z.land_assoc by done.
    by rewrite (Z.land_ones h), Z.mod_small by done. }
  rewrite E. apply Z.mod_pos_bound, Z.pow_pos_nonneg; lia.
Qed.

Lemma land_byte a b : byte a -> byte b -> byte (Z.land a b).
Proof. intros _ Hb. by apply (land_range a b 8). Qed.

Lemma lxor_byte a b : byte a -> byte b -> byte (Z.lxor a b).
Proof.
  unfold byte. intros Ha Hb. assert (H : 0 <= Z.lxor a b) by (apply Z.lxor_nonneg; lia).
  split; [done|]. destruct (Z.eq_dec (Z.lxor a b) 0) as [->|Hne]; [lia|].
  apply (Z.log2_lt_pow2 _ 8); [lia|].
  pose proof (Z.log2_lxor a b ltac:(lia) ltac:(lia)).
  assert (forall c, 0 <= c < 256 -> Z.log2 c < 8).
  { intros c Hc. destruct (Z.eq_dec c 0) as [->|]; [done|]. apply Z.log2_lt_pow2; lia. }
  pose proof (H1 a Ha). pose proof (H1 b Hb). lia.
Qed.

Lemma land_cat a b x y :
  byte a -> byte b -> Z.land (a + 256 * x) (b + 256 * y) = Z.land a b + 256 * Z.land x y.
Proof.
  intros. apply (byte_op Z.land andb); try done; [|by apply land_byte].
  intros. apply Z.land_spec.
Qed.

Lemma lxor_cat a b x y :
  byte a -> byte b -> Z.lxor (a + 256 * x) (b + 256 * y) = Z.lxor a b + 256 * Z.lxor x y.
Proof.
  intros. apply (byte_op Z.lxor xorb); try done; [|by apply lxor_byte].
  intros. apply Z.lxor_spec.
Qed.

Lemma lnot_cat b y : Z.lnot (b + 256 * y) = 255 - b + 256 * Z.lnot y.
Proof. unfold Z.lnot. lia. Qed.

(** ** The zero-byte test *)

Fixpoint rep (b : Z) (n : nat) : Z := match n with O => 0 | S n => b + 256 * rep b n end.

(** The test on [n] bytes, before any wrap. *)
Definition zero_test (n : nat) (w : Z) : Z :=
  Z.land (Z.land (w - rep 1 n) (Z.lnot w)) (rep 128 n).

Lemma high_bit_clear b : 1 <= b < 256 -> Z.land (Z.land (b - 1) (255 - b)) 128 = 0.
Proof.
  intros Hb.
  assert (H : forallb (fun b => Z.land (Z.land (b - 1) (255 - b)) 128 =? 0) (seqZ 1 255) = true)
    by (vm_compute; reflexivity).
  apply Z.eqb_eq. rewrite forallb_forall in H. apply H.
  apply list_elem_of_In, elem_of_seqZ. lia.
Qed.

Lemma zero_test_spec l :
  Forall byte l -> (zero_test (length l) (le64 l) = 0 <-> Forall (fun b => b <> 0) l).
Proof.
  induction 1 as [|b l Hb Hl IH]; [by unfold zero_test|].
  unfold zero_test in *. cbn [length rep le64 foldr]. fold (le64 l).
  rewrite lnot_cat. unfold byte in Hb. destruct (Z.eq_dec b 0) as [->|Hne].
  - replace (0 + 256 * le64 l - (1 + 256 * rep 1 (length l)))
      with (255 + 256 * (le64 l - rep 1 (length l) - 1)) by lia.
    rewrite !land_cat by (split; vm_compute; congruence).
    change (Z.land (Z.land 255 (255 - 0)) 128) with 128. split; [lia|].
    intros H. by apply Forall_cons_1 in H as [? _].
  - replace (b + 256 * le64 l - (1 + 256 * rep 1 (length l)))
      with (b - 1 + 256 * (le64 l - rep 1 (length l))) by lia.
    assert (Hc : byte (Z.land (b - 1) (255 - b))) by (apply land_byte; unfold byte; lia).
    rewrite land_cat by (unfold byte; lia). rewrite land_cat by (done || unfold byte; lia).
    rewrite high_bit_clear by lia. rewrite Forall_cons, <-IH. lia.
Qed.

Lemma land_wrap x y k : 0 <= k -> 0 <= y < 2 ^ k -> Z.land (x mod 2 ^ k) y = Z.land x y.
Proof.
  intros Hk Hy. apply Z.bits_inj'. intros i Hi. rewrite !Z.land_spec.
  destruct (Z.ltb_spec i k) as [Hlt|Hge]; [by rewrite Z.mod_pow2_bits_low by lia|].
  replace (Z.testbit y i) with false; [by rewrite !andb_false_r|].
  symmetry. destruct (Z.eq_dec y 0) as [->|]; [apply Z.bits_0|].
  apply Z.bits_above_log2; [lia|]. apply Z.lt_le_trans with k; [|lia].
  apply Z.log2_lt_pow2; lia.
Qed.

Lemma has_zero_test w : RT_HAS_ZERO w = zero_test 8 w.
Proof.
  unfold RT_HAS_ZERO, zero_test, wrapu. change RT_ONES with (rep 1 8).
  change RT_HIGHS with (rep 128 8). rewrite <-!Z.land_assoc.
  assert (H : 0 <= rep 128 8 < 2 ^ 64) by (by vm_compute).
  rewrite (land_wrap (Z.lnot w)) by (done || lia).
  rewrite land_wrap; [done|lia|]. by apply land_range.
Qed.

Lemma has_zero_spec l :
  length l = 8%nat -> Forall byte l -> has_zero (le64 l) = false <-> Forall (fun b => b <> 0) l.
Proof.
  intros Hl Hb. unfold has_zero. rewrite negb_false_iff, Z.eqb_eq, has_zero_test, <-Hl.
  by apply zero_test_spec.
Qed.

(** The word XORed with a repeated byte has its matches as zeros. *)
Lemma lxor_rep ch l :
  byte ch -> Forall byte l ->
  Z.lxor (le64 l) (rep ch (length l)) = le64 (Z.lxor ch <$> l).
Proof.
  intros Hc. induction 1 as [|b l Hb Hl IH]; [done|]. cbn. fold (le64 l).
  rewrite lxor_cat by done. rewrite (Z.lxor_comm b ch). unfold le64 in *. by rewrite IH.
Qed.

Lemma rep_pat ch : byte ch -> u64 (ch * RT_ONES) = rep ch 8.
Proof.
  unfold byte. intros Hc. replace (ch * RT_ONES) with (rep ch 8).
  - apply wrapu_small. cbn [rep]. lia.
  - change RT_ONES with (rep 1 8). cbn [rep]. lia.
Qed.

Lemma has_zero_or_spec ch l :
  byte ch -> length l = 8%nat -> Forall byte l ->
  has_zero_or (u64 (ch * RT_ONES)) (le64 l) = false <->
  Forall (fun b => b <> 0 /\ b <> ch) l.
Proof.
  intros Hc Hl Hb. unfold has_zero_or. rewrite negb_false_iff, Z.eqb_eq, Z.lor_eq_0_iff.
  rewrite !has_zero_test, rep_pat by done. rewrite <-Hl, lxor_rep by done.
  rewrite zero_test_spec by done. rewrite Hl, <-Hl, <-(length_fmap (Z.lxor ch) l).
  rewrite zero_test_spec.
  - rewrite Forall_fmap, <-Forall_and. apply Forall_iff. intros b. cbn.
    rewrite Z.lxor_eq_0_iff. naive_solver.
  - apply Forall_fmap. eapply Forall_impl; [exact Hb|]. intros b Hb'. by apply lxor_byte.
Qed.

Lemma bytes_of_le64 l : Forall byte l -> bytes_of (length l) (le64 l) = l.
Proof.
  induction 1 as [|b l Hb Hl IH]; [done|]. cbn [length bytes_of le64 foldr]. fold (le64 l).
  unfold byte in Hb. rewrite (Z.mul_comm 256), Z.mod_add, Z.div_add by lia.
  rewrite Z.mod_small, Z.div_small, Z.add_0_l by lia. by rewrite IH.
Qed.

Lemma le64_inj l k :
  Forall byte l -> Forall byte k -> length l = length k -> le64 l = le64 k -> l = k.
Proof.
  intros Hl Hk Hn He. pose proof (bytes_of_le64 l Hl). pose proof (bytes_of_le64 k Hk).
  congruence.
Qed.

Lemma bytes_of_rep c n : byte c -> bytes_of n (rep c n) = replicate n c.
Proof.
  unfold byte. intros Hc. induction n as [|n IH]; [done|]. cbn [bytes_of rep replicate].
  rewrite (Z.mul_comm 256), Z.mod_add, Z.div_add by lia.
  rewrite Z.mod_small, Z.div_small, Z.add_0_l by lia. by rewrite IH.
Qed.

(** ** Memory *)

(** [l] is at [a]. *)
Fixpoint bytes_at (m : mem) (a : Z) (l : list Z) : Prop :=
  match l with
  | [] => True
  | b :: l => m !! a = Some b /\ bytes_at m (a + 1) l
  end.

(** Memory holds bytes. *)
Definition mem_ok (m : mem) : Prop := map_Forall (fun _ b => byte b) m.

(** Memory with [l] written at [a]. *)
Fixpoint fill (m : mem) (a : Z) (l : list Z) : mem :=
  match l with
  | [] => m
  | b :: l => fill (<[a := b]> m) (a + 1) l
  end.

Definition mapped (m : mem) (a : Z) (n : nat) : Prop :=
  forall i, 0 <= i < Z.of_nat n -> is_Some (m !! (a + i)).

Lemma lookup_fill l : forall m a x,
  fill m a l !! x =
  if bool_decide (a <= x < a + Z.of_nat (length l)) then l !! Z.to_nat (x - a) else m !! x.
Proof.
  induction l as [|b l IH]; intros m a x; cbn [fill length].
  { rewrite bool_decide_false by (simpl; lia). done. }
  rewrite IH. case_bool_decide as H1.
  - rewrite bool_decide_true by lia.
    by replace (Z.to_nat (x - a)) with (S (Z.to_nat (x - (a + 1)))) by lia.
  - destruct (decide (x = a)) as [->|Hne].
    + rewrite lookup_insert_eq, bool_decide_true by lia. by rewrite Z.sub_diag.
    + rewrite lookup_insert_ne, bool_decide_false by lia. done.
Qed.

Lemma fill_app l k m a : fill m a (l ++ k) = fill (fill m a l) (a + Z.of_nat (length l)) k.
Proof.
  revert m a. induction l as [|b l IH]; intros m a; cbn [app fill length].
  - by rewrite Z.add_0_r.
  - rewrite IH. f_equal. lia.
Qed.

Lemma bytes_at_lookup l : forall m a,
  bytes_at m a l <-> forall i b, l !! i = Some b -> m !! (a + Z.of_nat i) = Some b.
Proof.
  induction l as [|b l IH]; intros m a; cbn [bytes_at].
  { split; [by intros _ i ? ?|done]. }
  rewrite IH. split.
  - intros [H1 H2] [|i] c Hi; cbn in Hi.
    + rewrite Z.add_0_r. congruence.
    + replace (a + Z.of_nat (S i)) with (a + 1 + Z.of_nat i) by lia. by apply H2.
  - intros H. split.
    + specialize (H 0%nat b eq_refl). by rewrite Z.add_0_r in H.
    + intros i c Hi. specialize (H (S i) c Hi).
      by replace (a + 1 + Z.of_nat i) with (a + Z.of_nat (S i)) by lia.
Qed.

Lemma read_bytes_spec l : forall m a,
  bytes_at m a l <-> read_bytes m a (length l) = Some l.
Proof.
  induction l as [|b l IH]; intros m a; cbn [bytes_at length read_bytes]; [done|].
  rewrite IH. unfold load8. destruct (m !! a) as [c|]; cbn; [|naive_solver].
  destruct (read_bytes m (a + 1) (length l)) as [k|]; cbn; naive_solver.
Qed.

Lemma load64_spec m a l : length l = 8%nat -> bytes_at m a l -> load64 m a = Some (le64 l).
Proof.
  intros Hl H. unfold load64. apply read_bytes_spec in H. rewrite <-Hl, H. done.
Qed.

Lemma store8_spec m a b : is_Some (m !! a) -> store8 m a b = Some (<[a := b]> m).
Proof. intros [c Hc]. unfold store8. by rewrite Hc. Qed.

Lemma mapped_fill m a n x l : mapped m a n -> mapped (fill m x l) a n.
Proof.
  intros H i Hi. rewrite lookup_fill. case_bool_decide; [|by apply H].
  apply lookup_lt_is_Some. lia.
Qed.

Lemma mapped_insert m a n x b : mapped m a n -> mapped (<[x := b]> m) a n.
Proof. apply (mapped_fill m a n x [b]). Qed.

Lemma mapped_S m a n : mapped m a (S n) <-> is_Some (m !! a) /\ mapped m (a + 1) n.
Proof.
  split.
  - intros H. split.
    + specialize (H 0 ltac:(lia)). by rewrite Z.add_0_r in H.
    + intros i Hi. specialize (H (1 + i) ltac:(lia)). by rewrite Z.add_assoc in H.
  - intros [H1 H2] i Hi. destruct (decide (i = 0)) as [->|]; [by rewrite Z.add_0_r|].
    replace (a + i) with (a + 1 + (i - 1)) by lia. apply H2. lia.
Qed.

Lemma mapped_sub m a n x k :
  mapped m a n -> a <= x -> x + Z.of_nat k <= a + Z.of_nat n -> mapped m x k.
Proof.
  intros H H1 H2 i Hi. replace (x + i) with (a + (x + i - a)) by lia. apply H. lia.
Qed.

Lemma write_bytes_spec l : forall m a,
  mapped m a (length l) -> write_bytes m a l = Some (fill m a l).
Proof.
  induction l as [|b l IH]; intros m a H; cbn [write_bytes length fill] in *; [done|].
  apply mapped_S in H as [H1 H2]. rewrite store8_spec by done. cbn.
  apply IH. by apply mapped_insert.
Qed.

Lemma store64_spec m a l :
  length l = 8%nat -> Forall byte l -> mapped m a 8 ->
  store64 m a (le64 l) = Some (fill m a l).
Proof.
  intros Hl Hb Hm. unfold store64. rewrite <-Hl, bytes_of_le64 by done.
  apply write_bytes_spec. by rewrite Hl.
Qed.

(** ** Alignment *)

Lemma unaligned_mod p : rt_unaligned p = negb (p mod 8 =? 0).
Proof. unfold rt_unaligned. change 7 with (Z.ones 3). by rewrite Z.land_ones by lia. Qed.

(** Whole aligned words are mapped: pages are. *)
Definition whole_words (m : mem) : Prop :=
  forall a, is_Some (m !! a) -> mapped m (8 * (a / 8)) 8.

(** * The runtime: memset, memcpy, memmove and memcmp against their meaning *)

(** The bytes from [p] to the next aligned address. *)
Definition pad8 (p : Z) : nat := Z.to_nat ((- p) mod 8).

Lemma pad8_spec p : (p + Z.of_nat (pad8 p)) mod 8 = 0 /\ (pad8 p <= 7)%nat.
Proof.
  unfold pad8. pose proof (Z.mod_pos_bound (- p) 8 ltac:(lia)). split; [|lia].
  rewrite Z2Nat.id by lia. rewrite Zplus_mod_idemp_r, Z.add_opp_diag_r. done.
Qed.

Lemma pad8_step p : p mod 8 <> 0 -> pad8 p = S (pad8 (p + 1)).
Proof.
  intros Hp. unfold pad8. pose proof (Z.div_mod p 8 ltac:(lia)).
  pose proof (Z.mod_pos_bound p 8 ltac:(lia)).
  replace ((- p) mod 8) with (8 - p mod 8).
  2: { apply (Zmod_unique _ _ (- (p / 8) - 1)); lia. }
  replace ((- (p + 1)) mod 8) with (7 - p mod 8).
  2: { apply (Zmod_unique _ _ (- (p / 8) - 1)); lia. }
  lia.
Qed.

Lemma pad8_aligned p : p mod 8 = 0 -> pad8 p = 0%nat.
Proof.
  intros Hp. unfold pad8. rewrite Z.mod_opp_l_z by done. done.
Qed.

Lemma aligned_8 p : p mod 8 = 0 -> (p + 8) mod 8 = 0.
Proof. intros H. by rewrite <-(Z.mul_1_l 8), Z.mod_add by done. Qed.

Lemma store64_al_spec m a l :
  a mod 8 = 0 -> length l = 8%nat -> Forall byte l -> mapped m a 8 ->
  store64_al m a (le64 l) = Some (fill m a l).
Proof.
  intros Ha Hl Hb Hm. unfold store64_al. rewrite unaligned_mod, Ha. by apply store64_spec.
Qed.

(** ** memset *)

Lemma set_bytes_spec c n : forall m p,
  mapped m p n -> set_bytes n m p c = Some (fill m p (replicate n c)).
Proof.
  induction n as [|n IH]; intros m p H; cbn [set_bytes replicate fill]; [done|].
  apply mapped_S in H as [H1 H2]. rewrite store8_spec by done. cbn.
  apply IH. by apply mapped_insert.
Qed.

Lemma set_head_spec c fuel : forall m p n,
  (pad8 p <= fuel)%nat -> (pad8 p <= n)%nat -> mapped m p n ->
  set_head fuel m p c n =
  Some (fill m p (replicate (pad8 p) c), p + Z.of_nat (pad8 p), (n - pad8 p)%nat).
Proof.
  induction fuel as [|fuel IH]; intros m p n Hf Hn Hm; cbn [set_head].
  - assert (pad8 p = 0%nat) as -> by lia. cbn. by rewrite Z.add_0_r, Nat.sub_0_r.
  - rewrite unaligned_mod. destruct (Z.eqb_spec (p mod 8) 0) as [Ha|Ha]; cbn [negb].
    + rewrite pad8_aligned by done. cbn. by rewrite Z.add_0_r, Nat.sub_0_r.
    + rewrite pad8_step in * by done. destruct n as [|n]; [lia|].
      apply mapped_S in Hm as [H1 H2]. rewrite store8_spec by done. cbn [mbind option_bind].
      cbn [pred]. rewrite IH; [|lia|lia|by apply mapped_insert]. cbn [replicate fill].
      do 2 f_equal. f_equal. lia.
Qed.

Lemma set_words_spec c fuel : forall m p n,
  byte c -> p mod 8 = 0 -> (n <= fuel)%nat -> mapped m p n ->
  exists k, (k <= n)%nat /\ set_words fuel m p (rep c 8) n =
    Some (fill m p (replicate k c), p + Z.of_nat k, (n - k)%nat).
Proof.
  induction fuel as [|fuel IH]; intros m p n Hc Hp Hn Hm; cbn [set_words].
  { exists 0%nat. split; [lia|]. cbn. by rewrite Z.add_0_r, Nat.sub_0_r. }
  destruct (Nat.leb_spec 8 n) as [H8|H8].
  2: { exists 0%nat. split; [lia|]. cbn. by rewrite Z.add_0_r, Nat.sub_0_r. }
  assert (Hs : store64_al m p (rep c 8) = Some (fill m p (replicate 8 c))).
  { apply (store64_al_spec m p (replicate 8 c)); [done|done|by apply Forall_replicate|].
    eapply mapped_sub; eauto; lia. }
  rewrite Hs. cbn [mbind option_bind].
  destruct (IH (fill m p (replicate 8 c)) (p + 8) (n - 8)%nat Hc (aligned_8 _ Hp) ltac:(lia))
    as (k & Hk & ->).
  { apply mapped_fill. eapply mapped_sub; eauto; lia. }
  exists (8 + k)%nat. split; [lia|]. rewrite (replicate_add 8 k), fill_app, length_replicate.
  do 2 f_equal; [f_equal; lia|lia].
Qed.

Lemma memset_fill m d c n :
  mapped m d n -> memset m d c n = Some (fill m d (replicate n (u8 c))).
Proof.
  intros Hm. unfold memset. destruct (Nat.leb_spec 16 n) as [H|H]; [|by apply set_bytes_spec].
  assert (Hc : byte (u8 c)) by apply (wrapu_range 8 c ltac:(lia)).
  rewrite rep_pat by done. pose proof (pad8_spec d) as [Ha Hp].
  rewrite set_head_spec by (done || lia). cbn [mbind option_bind].
  destruct (set_words_spec (u8 c) (n - pad8 d) (fill m d (replicate (pad8 d) (u8 c)))
    (d + Z.of_nat (pad8 d)) (n - pad8 d) Hc Ha ltac:(lia)) as (k & Hk & ->).
  { apply mapped_fill. eapply mapped_sub; eauto; lia. }
  cbn [mbind option_bind]. rewrite set_bytes_spec.
  2: { do 2 apply mapped_fill. eapply mapped_sub; eauto; lia. }
  f_equal. replace n with (pad8 d + (k + (n - pad8 d - k)))%nat at 2 by lia.
  by rewrite !replicate_add, !fill_app, !length_replicate.
Qed.

(** ** Memory that is read while it is written *)

Lemma bytes_at_fill m a l x k :
  bytes_at m a l ->
  x + Z.of_nat (length k) <= a \/ a + Z.of_nat (length l) <= x ->
  bytes_at (fill m x k) a l.
Proof.
  rewrite !bytes_at_lookup. intros H Hd i b Hi. rewrite lookup_fill.
  pose proof (lookup_lt_Some _ _ _ Hi). rewrite bool_decide_false by lia. by apply H.
Qed.

Lemma bytes_at_app m a l k :
  bytes_at m a (l ++ k) <-> bytes_at m a l /\ bytes_at m (a + Z.of_nat (length l)) k.
Proof.
  revert a. induction l as [|b l IH]; intros a; cbn [app bytes_at length].
  - rewrite Z.add_0_r. naive_solver.
  - rewrite IH. replace (a + 1 + Z.of_nat (length l)) with (a + Z.of_nat (S (length l))) by lia.
    naive_solver.
Qed.

Lemma fill_comm m x k a l :
  x + Z.of_nat (length k) <= a \/ a + Z.of_nat (length l) <= x ->
  fill (fill m x k) a l = fill (fill m a l) x k.
Proof.
  intros Hd. apply map_eq. intros y. rewrite !lookup_fill.
  repeat case_bool_decide; try done; lia.
Qed.

Lemma same_quad (m : mem) (a b a' b' : Z) (n n' : nat) :
  a = a' -> b = b' -> n = n' -> Some (m, a, b, n) = Some (m, a', b', n').
Proof. by intros -> -> ->. Qed.

(** ** Copying upwards *)

Definition up_safe (d s : Z) (n : nat) : Prop := d <= s \/ s + Z.of_nat n <= d.

Lemma up_rest m d s l k :
  bytes_at m s l -> up_safe d s (length l) -> (k <= length l)%nat ->
  bytes_at (fill m d (take k l)) (s + Z.of_nat k) (drop k l).
Proof.
  unfold up_safe. intros H Hs Hk. rewrite <-(take_drop k l) in H.
  apply bytes_at_app in H as [_ H]. rewrite length_take_le in H by done.
  apply bytes_at_fill; [done|]. rewrite length_take_le, length_drop by done. lia.
Qed.

Lemma up_bytes l : forall m d s,
  bytes_at m s l -> mapped m d (length l) -> up_safe d s (length l) ->
  copy_bytes (length l) m d s = Some (fill m d l).
Proof.
  induction l as [|v l IH]; intros m d s Hb Hm Hs; [done|].
  pose proof (up_rest m d s (v :: l) 1 Hb Hs ltac:(simpl; lia)) as Hr. cbn in Hr.
  destruct Hb as [H1 H2]. cbn [length] in *. apply mapped_S in Hm as [Hm1 Hm2].
  cbn [copy_bytes]. unfold load8. rewrite H1. cbn. rewrite store8_spec by done. cbn.
  apply IH; [done|by apply mapped_insert|]. unfold up_safe in *. lia.
Qed.

Lemma up_head fuel : forall l m d s,
  bytes_at m s l -> mapped m d (length l) -> up_safe d s (length l) ->
  (pad8 d <= fuel)%nat -> (pad8 d <= length l)%nat ->
  copy_head fuel m d s (length l) =
  Some (fill m d (take (pad8 d) l), d + Z.of_nat (pad8 d), s + Z.of_nat (pad8 d),
        (length l - pad8 d)%nat).
Proof.
  induction fuel as [|fuel IH]; intros l m d s Hb Hm Hs Hf Hn; cbn [copy_head].
  - assert (pad8 d = 0%nat) as -> by lia. cbn. by rewrite !Z.add_0_r, Nat.sub_0_r.
  - rewrite unaligned_mod. destruct (Z.eqb_spec (d mod 8) 0) as [Ha|Ha]; cbn [negb].
    + rewrite pad8_aligned by done. cbn. by rewrite !Z.add_0_r, Nat.sub_0_r.
    + rewrite pad8_step in * by done. destruct l as [|v l]; [simpl in *; lia|].
      pose proof (up_rest m d s (v :: l) 1 Hb Hs ltac:(simpl; lia)) as Hr. cbn in Hr.
      destruct Hb as [H1 H2]. cbn [length] in *. apply mapped_S in Hm as [Hm1 Hm2].
      unfold load8. rewrite H1. cbn [mbind option_bind]. rewrite store8_spec by done.
      cbn [mbind option_bind pred].
      rewrite IH; [|done|by apply mapped_insert|unfold up_safe in *; lia|lia|lia].
      cbn [take fill]. apply same_quad; lia.
Qed.

Lemma up_words fuel : forall l m d s,
  Forall byte l -> bytes_at m s l -> mapped m d (length l) -> up_safe d s (length l) ->
  d mod 8 = 0 -> (length l <= fuel)%nat ->
  exists k, (k <= length l)%nat /\ copy_words fuel m d s (length l) =
    Some (fill m d (take k l), d + Z.of_nat k, s + Z.of_nat k, (length l - k)%nat).
Proof.
  assert (Hno : forall l (m : mem) (d s : Z), exists k, (k <= length l)%nat /\
    Some (m, d, s, length l) =
    Some (fill m d (take k l), d + Z.of_nat k, s + Z.of_nat k, (length l - k)%nat)).
  { intros l m d s. exists 0%nat. split; [lia|]. cbn. by rewrite !Z.add_0_r, Nat.sub_0_r. }
  induction fuel as [|fuel IH]; intros l m d s Hl Hb Hm Hs Ha Hf; cbn [copy_words]; [done|].
  destruct (Nat.leb_spec 8 (length l)) as [H8|H8]; [|done].
  pose proof (up_rest m d s l 8 Hb Hs H8) as Hr.
  assert (Ht : bytes_at m s (take 8 l)).
  { rewrite <-(take_drop 8 l) in Hb. by apply bytes_at_app in Hb as [? _]. }
  assert (Hlen : length (take 8 l) = 8%nat) by (rewrite length_take; lia).
  rewrite (load64_spec m s (take 8 l)) by done. cbn [mbind option_bind].
  rewrite (store64_al_spec m d (take 8 l));
    [|done|done|by apply Forall_take|eapply mapped_sub; eauto; lia].
  cbn [mbind option_bind].
  destruct (IH (drop 8 l) (fill m d (take 8 l)) (d + 8) (s + 8)) as (k & Hk & E).
  - by apply Forall_drop.
  - done.
  - rewrite length_drop. apply mapped_fill. eapply mapped_sub; eauto; lia.
  - rewrite length_drop. unfold up_safe in *. lia.
  - by apply aligned_8.
  - rewrite length_drop. lia.
  - rewrite length_drop in *. exists (8 + k)%nat. split; [lia|]. rewrite E.
    rewrite <-take_take_drop, fill_app, Hlen. apply same_quad; lia.
Qed.

Lemma copy_up_fill m d s l :
  Forall byte l -> bytes_at m s l -> mapped m d (length l) -> up_safe d s (length l) ->
  copy_up m d s (length l) = Some (fill m d l).
Proof.
  intros Hl Hb Hm Hs. unfold copy_up.
  destruct (Nat.leb_spec 16 (length l)) as [H|H]; [|by apply up_bytes].
  pose proof (pad8_spec d) as [Ha Hp]. rewrite up_head by (done || lia).
  cbn [mbind option_bind]. set (j := pad8 d) in *.
  destruct (up_words (length l - j) (drop j l) (fill m d (take j l)) (d + Z.of_nat j)
    (s + Z.of_nat j)) as (k & Hk & E).
  - by apply Forall_drop.
  - apply up_rest; [done|done|lia].
  - rewrite length_drop. apply mapped_fill. eapply mapped_sub; eauto; lia.
  - rewrite length_drop. unfold up_safe in *. lia.
  - done.
  - rewrite length_drop. lia.
  - rewrite length_drop in *. rewrite E. cbn [mbind option_bind].
    assert (F : fill (fill m d (take j l)) (d + Z.of_nat j) (take k (drop j l)) =
      fill m d (take (j + k) l)).
    { rewrite <-take_take_drop, fill_app, length_take_le by lia. done. }
    rewrite F. replace (length l - j - k)%nat with (length (drop (j + k) l))
      by (rewrite length_drop; lia).
    rewrite <-!Z.add_assoc, <-Nat2Z.inj_add. rewrite up_bytes.
    + f_equal. rewrite <-(take_drop (j + k) l) at 3. rewrite fill_app.
      by rewrite length_take_le by lia.
    + apply up_rest; [done|done|lia].
    + rewrite length_drop. apply mapped_fill. eapply mapped_sub; eauto; lia.
    + rewrite length_drop. unfold up_safe in *. lia.
Qed.

(** ** Copying downwards *)

(** The last bytes [k] of [l ++ k] have been moved: what is left to read. *)
Lemma down_rest m d s l k :
  bytes_at m s (l ++ k) -> s <= d ->
  bytes_at (fill m (d + Z.of_nat (length l)) k) s l.
Proof.
  intros H Hs. apply bytes_at_app in H as [H _]. apply bytes_at_fill; [done|]. lia.
Qed.

Lemma down_join m d l k :
  fill (fill m (d + Z.of_nat (length l)) k) d l = fill m d (l ++ k).
Proof. rewrite fill_app, fill_comm; [done|lia]. Qed.

Lemma bytes_at_last m s l v :
  bytes_at m s (l ++ [v]) -> m !! (s + Z.of_nat (length l)) = Some v.
Proof. intros H. apply bytes_at_app in H as [_ [H _]]. done. Qed.

Lemma snoc_sub d l (v : Z) : d + Z.of_nat (length (l ++ [v])) - 1 = d + Z.of_nat (length l).
Proof. rewrite length_app. simpl. lia. Qed.

Lemma mapped_last m d l (v : Z) :
  mapped m d (length (l ++ [v])) ->
  is_Some (m !! (d + Z.of_nat (length l))) /\ mapped m d (length l).
Proof.
  rewrite length_app. cbn [length]. intros H.
  split; [apply H; lia|]. eapply mapped_sub; [exact H|lia|lia].
Qed.

Lemma down_bytes_fill l : forall m d s,
  bytes_at m s l -> mapped m d (length l) -> s <= d ->
  down_bytes (length l) m (d + Z.of_nat (length l)) (s + Z.of_nat (length l)) =
  Some (fill m d l).
Proof.
  induction l as [|v l IH] using rev_ind; intros m d s Hb Hm Hs; [done|].
  pose proof (down_rest m d s l [v] Hb Hs) as Hr. apply mapped_last in Hm as [Hm1 Hm2].
  replace (length (l ++ [v])) with (S (length l)) at 1 by (rewrite length_app; simpl; lia).
  cbn [down_bytes]. rewrite !snoc_sub. unfold load8. rewrite (bytes_at_last _ _ _ _ Hb).
  cbn [mbind option_bind]. rewrite store8_spec by done. cbn [mbind option_bind].
  rewrite <-down_join. apply IH; [done|by apply mapped_insert|done].
Qed.

Lemma down_head_fill fuel : forall l m d s,
  bytes_at m s l -> mapped m d (length l) -> s <= d ->
  (d + Z.of_nat (length l)) mod 8 <= Z.of_nat fuel ->
  (d + Z.of_nat (length l)) mod 8 <= Z.of_nat (length l) ->
  exists j, (j <= length l)%nat /\ (d + Z.of_nat j) mod 8 = 0 /\
  down_head fuel m (d + Z.of_nat (length l)) (s + Z.of_nat (length l)) (length l) =
  Some (fill m (d + Z.of_nat j) (drop j l), d + Z.of_nat j, s + Z.of_nat j, j).
Proof.
  induction fuel as [|fuel IH]; intros l m d s Hb Hm Hs Hf Hn; cbn [down_head].
  { pose proof (Z.mod_pos_bound (d + Z.of_nat (length l)) 8 ltac:(lia)).
    exists (length l). rewrite drop_all. split; [lia|]. split; [lia|done]. }
  rewrite unaligned_mod. destruct (Z.eqb_spec ((d + Z.of_nat (length l)) mod 8) 0) as [Ha|Ha];
    cbn [negb]. { exists (length l). rewrite drop_all. done. }
  destruct l as [|v l _] using rev_ind; [simpl in *; rewrite ?Z.add_0_r in *;
    pose proof (Z.mod_pos_bound d 8 ltac:(lia)); lia|].
  pose proof (down_rest m d s l [v] Hb Hs) as Hr. apply mapped_last in Hm as [Hm1 Hm2].
  rewrite !snoc_sub. unfold load8. rewrite (bytes_at_last _ _ _ _ Hb).
  cbn [mbind option_bind]. rewrite store8_spec by done. cbn [mbind option_bind].
  rewrite length_app in *. cbn [length] in *.
  replace (pred (length l + 1)) with (length l) by lia.
  assert (Hmod : (d + Z.of_nat (length l)) mod 8 = (d + Z.of_nat (length l + 1)) mod 8 - 1).
  { pose proof (Z.div_mod (d + Z.of_nat (length l + 1)) 8 ltac:(lia)).
    pose proof (Z.mod_pos_bound (d + Z.of_nat (length l + 1)) 8 ltac:(lia)).
    symmetry. apply (Zmod_unique _ _ ((d + Z.of_nat (length l + 1)) / 8)); lia. }
  destruct (IH l (fill m (d + Z.of_nat (length l)) [v]) d s) as (j & Hj & Hja & E);
    [done|by apply mapped_insert|done|lia|lia|].
  exists j. split; [lia|]. split; [done|]. cbn [fill] in E. rewrite E.
  rewrite drop_app_le by done. rewrite <-down_join, length_drop.
  replace (d + Z.of_nat j + Z.of_nat (length l - j)) with (d + Z.of_nat (length l)) by lia. done.
Qed.

Lemma down_words_fill fuel : forall l m d s,
  Forall byte l -> bytes_at m s l -> mapped m d (length l) -> s <= d ->
  (d + Z.of_nat (length l)) mod 8 = 0 -> (length l <= fuel)%nat ->
  exists j, (j <= length l)%nat /\
  down_words fuel m (d + Z.of_nat (length l)) (s + Z.of_nat (length l)) (length l) =
  Some (fill m (d + Z.of_nat j) (drop j l), d + Z.of_nat j, s + Z.of_nat j, j).
Proof.
  induction fuel as [|fuel IH]; intros l m d s Hl Hb Hm Hs Ha Hf; cbn [down_words].
  { exists (length l). rewrite drop_all. done. }
  destruct (Nat.leb_spec 8 (length l)) as [H8|H8]; [|exists (length l); by rewrite drop_all].
  set (n := (length l - 8)%nat). set (k := take n l). set (w := drop n l).
  assert (El : l = k ++ w) by (symmetry; apply take_drop).
  assert (Hw : length w = 8%nat) by (unfold w; rewrite length_drop; lia).
  assert (Hk : length k = n) by (unfold k; rewrite length_take; lia).
  assert (Hln : Z.of_nat (length l) - 8 = Z.of_nat (length k)) by lia.
  replace (s + Z.of_nat (length l) - 8) with (s + Z.of_nat (length k)) by lia.
  replace (d + Z.of_nat (length l) - 8) with (d + Z.of_nat (length k)) by lia.
  pose proof Hb as Hb'. rewrite El in Hb'. pose proof (down_rest m d s k w Hb' Hs) as Hr.
  apply bytes_at_app in Hb' as [_ Hbw]. rewrite El in Hl. apply Forall_app in Hl as [Hlk Hlw].
  rewrite (load64_spec m _ w) by done. cbn [mbind option_bind].
  assert (Hak : (d + Z.of_nat (length k)) mod 8 = 0).
  { replace (d + Z.of_nat (length k)) with (d + Z.of_nat (length l) + (-1) * 8) by lia.
    by rewrite Z.mod_add. }
  rewrite (store64_al_spec m _ w) by (done || (eapply mapped_sub; eauto; lia)).
  cbn [mbind option_bind].
  destruct (IH k (fill m (d + Z.of_nat (length k)) w) d s) as (j & Hj & E);
    [done|done|apply mapped_fill; eapply mapped_sub; eauto; lia|done|done|lia|].
  exists j. split; [lia|]. rewrite Hk in *. rewrite E. rewrite El, drop_app_le by lia.
  rewrite <-down_join, length_drop, Hk.
  by replace (d + Z.of_nat j + Z.of_nat (n - j)) with (d + Z.of_nat n) by lia.
Qed.

Lemma copy_down_fill m d s l :
  Forall byte l -> bytes_at m s l -> mapped m d (length l) -> s <= d ->
  copy_down m d s (length l) = Some (fill m d l).
Proof.
  intros Hl Hb Hm Hs. unfold copy_down.
  destruct (Nat.leb_spec 16 (length l)) as [H|H]; [|by apply down_bytes_fill].
  pose proof (Z.mod_pos_bound (d + Z.of_nat (length l)) 8 ltac:(lia)) as Hmod.
  destruct (down_head_fill 7 l m d s Hb Hm Hs ltac:(lia) ltac:(lia)) as (j & Hj & Ha & ->).
  cbn [mbind option_bind].
  assert (R : forall j, (j <= length l)%nat ->
    bytes_at (fill m (d + Z.of_nat j) (drop j l)) s (take j l)).
  { intros i Hi. rewrite <-(length_take_le l i) at 1 by done. apply down_rest; [|done].
    by rewrite take_drop. }
  assert (Htj : length (take j l) = j) by (rewrite length_take; lia).
  destruct (down_words_fill j (take j l) (fill m (d + Z.of_nat j) (drop j l)) d s)
    as (i & Hi & E); rewrite ?Htj in *;
    [by apply Forall_take|by apply R|apply mapped_fill; eapply mapped_sub; eauto; lia
    |done|done|done|].
  rewrite E. cbn [mbind option_bind].
  assert (F : fill (fill m (d + Z.of_nat j) (drop j l)) (d + Z.of_nat i) (drop i (take j l)) =
    fill m (d + Z.of_nat i) (drop i l)).
  { replace (drop i l) with (drop i (take j l) ++ drop j l)
      by (rewrite <-drop_app_le by lia; by rewrite take_drop).
    rewrite <-down_join, length_drop, Htj.
    by replace (d + Z.of_nat i + Z.of_nat (j - i)) with (d + Z.of_nat j) by lia. }
  rewrite F. assert (Hti : length (take i l) = i) by (rewrite length_take; lia).
  pose proof (down_bytes_fill (take i l) (fill m (d + Z.of_nat i) (drop i l)) d s) as G.
  rewrite Hti in G. rewrite G; [|apply R; lia|apply mapped_fill; eapply mapped_sub; eauto; lia|done].
  f_equal. rewrite <-Hti at 1. rewrite down_join. by rewrite take_drop.
Qed.

(** ** memcmp *)

Fixpoint cmp_list (l k : list Z) : Z :=
  match l, k with
  | x :: l, y :: k => if x =? y then cmp_list l k else x - y
  | _, _ => 0
  end.

Lemma cmp_bytes_spec l : forall k m x y,
  length l = length k -> bytes_at m x l -> bytes_at m y k ->
  cmp_bytes (length l) m x y = Some (cmp_list l k).
Proof.
  induction l as [|u l IH]; intros [|v k] m x y Hn Hx Hy; try done.
  destruct Hx as [Hx1 Hx2], Hy as [Hy1 Hy2]. cbn [length cmp_bytes cmp_list].
  unfold load8. rewrite Hx1, Hy1. cbn [mbind option_bind].
  destruct (Z.eqb_spec u v); cbn [negb]; [|done]. apply IH; [by injection Hn|done|done].
Qed.

Lemma cmp_list_app l k p : cmp_list (p ++ l) (p ++ k) = cmp_list l k.
Proof. induction p as [|x p IH]; [done|]. cbn. by rewrite Z.eqb_refl. Qed.

Lemma cmp_words_spec fuel : forall l k m x y,
  Forall byte l -> Forall byte k -> length l = length k ->
  bytes_at m x l -> bytes_at m y k -> (length l <= fuel)%nat ->
  exists j p l' k', l = p ++ l' /\ k = p ++ k' /\ length p = j /\
    cmp_words fuel m x y (length l) =
    Some (x + Z.of_nat j, y + Z.of_nat j, length l').
Proof.
  assert (Hno : forall l k (x y : Z), exists j p l' k', l = p ++ l' /\ k = p ++ k' /\
    length p = j /\ Some (x, y, length l) = Some (x + Z.of_nat j, y + Z.of_nat j, @length Z l')).
  { intros l k x y. exists 0%nat, [], l, k. by rewrite !Z.add_0_r. }
  induction fuel as [|fuel IH]; intros l k m x y Hl Hk Hn Hx Hy Hf; cbn [cmp_words]; [done|].
  destruct (Nat.leb_spec 8 (length l)) as [H8|H8]; [|done].
  assert (S8 : forall l a, (8 <= length l)%nat -> bytes_at m a l ->
    load64 m a = Some (le64 (take 8 l)) /\ bytes_at m (a + 8) (drop 8 l)).
  { intros l0 a Hlen H0. rewrite <-(take_drop 8 l0) in H0. apply bytes_at_app in H0 as [H1 H2].
    rewrite length_take_le in H2 by done. split; [|done].
    apply load64_spec; [|done]. rewrite length_take. lia. }
  destruct (S8 l x H8 Hx) as [-> Hx']. destruct (S8 k y ltac:(lia) Hy) as [-> Hy'].
  cbn [mbind option_bind].
  destruct (Z.eqb_spec (le64 (take 8 l)) (le64 (take 8 k))) as [E|E]; cbn [negb]; [|done].
  apply le64_inj in E; [|by apply Forall_take|by apply Forall_take|rewrite !length_take; lia].
  destruct (IH (drop 8 l) (drop 8 k) m (x + 8) (y + 8)) as (j & p & l' & k' & El & Ek & Hj & Ew);
    [by apply Forall_drop|by apply Forall_drop|rewrite !length_drop; lia|done|done
    |rewrite length_drop; lia|].
  exists (8 + j)%nat, (take 8 l ++ p), l', k'. rewrite <-!app_assoc, <-El, take_drop.
  split; [done|]. split; [by rewrite E, <-Ek, take_drop|].
  split; [rewrite length_app, length_take; lia|]. rewrite length_drop in Ew. rewrite Ew.
  do 3 f_equal; lia.
Qed.

Lemma memcmp_list m a b l k :
  Forall byte l -> Forall byte k -> length l = length k ->
  bytes_at m a l -> bytes_at m b k -> memcmp m a b (length l) = Some (cmp_list l k).
Proof.
  intros Hl Hk Hn Ha Hb. unfold memcmp.
  destruct (cmp_words_spec (length l) l k m a b Hl Hk Hn Ha Hb ltac:(lia))
    as (j & p & l' & k' & El & Ek & Hj & E). rewrite E. cbn [mbind option_bind].
  subst l k. rewrite !length_app in Hn. apply bytes_at_app in Ha as [_ Ha], Hb as [_ Hb].
  rewrite Hj in *. rewrite cmp_list_app. apply cmp_bytes_spec; [lia|done|done].
Qed.
