(* ===== verification/RtStr.v ===== *)
(** * The runtime: the string scans against their meaning *)

From stdpp Require Import base list numbers gmap.
From Stdlib Require Import ZArith Lia.
From S2P Require Import Prelude Rt RtFacts.

Open Scope Z_scope.

(** The C string [s] is at [p]. *)
Fixpoint cstr_at (m : mem) (p : Z) (s : list Z) : Prop :=
  match s with
  | [] => m !! p = Some 0
  | b :: s => m !! p = Some b /\ b <> 0 /\ cstr_at m (p + 1) s
  end.

Lemma cstr_bytes m p s :
  cstr_at m p s <-> bytes_at m p (s ++ [0]) /\ Forall (fun b => b <> 0) s.
Proof.
  revert p. induction s as [|b s IH]; intros p; cbn [cstr_at app bytes_at].
  - split; [intros; split; [done|constructor]|by intros [[? _] _]].
  - rewrite IH, Forall_cons. naive_solver.
Qed.

Lemma cstr_drop m p s k :
  cstr_at m p s -> (k <= length s)%nat -> cstr_at m (p + Z.of_nat k) (drop k s).
Proof.
  revert p s. induction k as [|k IH]; intros p s H Hk; [by rewrite Z.add_0_r|].
  destruct s as [|b s]; [simpl in Hk; lia|]. destruct H as (_ & _ & H). cbn [drop].
  replace (p + Z.of_nat (S k)) with (p + 1 + Z.of_nat k) by lia.
  apply IH; [done|simpl in Hk; lia].
Qed.

Lemma cstr_mapped m p s : cstr_at m p s -> mapped m p (S (length s)).
Proof.
  intros [H _]%cstr_bytes i Hi. rewrite bytes_at_lookup in H.
  destruct (lookup_lt_is_Some_2 (s ++ [0]) (Z.to_nat i)) as [b Hb].
  { rewrite length_app. simpl. lia. }
  apply H in Hb. rewrite Z2Nat.id in Hb by lia. by exists b.
Qed.

(** ** One word of a string *)

(** The aligned word at a mapped address is mapped. *)
Lemma mapped_word m w :
  mem_ok m -> whole_words m -> w mod 8 = 0 -> is_Some (m !! w) ->
  exists l, length l = 8%nat /\ Forall byte l /\ load64_al m w = Some (le64 l) /\
    bytes_at m w l.
Proof.
  intros Hok Hw Ha H0. specialize (Hw w H0). replace (8 * (w / 8)) with w in Hw.
  2: { pose proof (Z.div_mod w 8 ltac:(lia)). lia. }
  assert (Hr : forall n a, mapped m a n -> exists l, length l = n /\ bytes_at m a l).
  { induction n as [|n IH]; intros a Hm; [by exists []|]. apply mapped_S in Hm as [[b Hb] Hm].
    destruct (IH _ Hm) as (l & Hl & Hbl). exists (b :: l). cbn. by rewrite Hl. }
  destruct (Hr _ _ Hw) as (l & Hl & Hb). exists l.
  split; [done|]. split; [|split; [|done]].
  - apply Forall_lookup. intros i b Hi. rewrite bytes_at_lookup in Hb.
    by eapply (map_Forall_lookup_1 _ _ _ _ Hok), Hb.
  - unfold load64_al. rewrite unaligned_mod, Ha. by apply load64_spec.
Qed.

Lemma word_at m w s :
  mem_ok m -> whole_words m -> w mod 8 = 0 -> cstr_at m w s ->
  exists l, length l = 8%nat /\ Forall byte l /\ load64_al m w = Some (le64 l) /\
    bytes_at m w l.
Proof.
  intros Hok Hw Ha Hs. apply mapped_word; [done..|].
  destruct s as [|b s]; [by exists 0|exists b; by destruct Hs].
Qed.

(** A word with no zero in it is eight characters. *)
Lemma word_inside m w s l :
  cstr_at m w s -> bytes_at m w l -> Forall (fun b => b <> 0) l ->
  exists s', s = l ++ s' /\ cstr_at m (w + Z.of_nat (length l)) s'.
Proof.
  revert w s. induction l as [|b l IH]; intros w s Hs Hl Hz.
  { exists s. by rewrite Z.add_0_r. }
  destruct Hl as [Hb Hl]. apply Forall_cons_1 in Hz as [Hne Hz]. cbn in Hne.
  destruct s as [|c s]; cbn [cstr_at] in Hs; [congruence|].
  destruct Hs as (Hc & _ & Hs). destruct (IH _ _ Hs Hl Hz) as (s' & -> & H').
  assert (c = b) as -> by congruence. exists s'. split; [done|]. cbn [length].
  by replace (w + Z.of_nat (S (length l))) with (w + 1 + Z.of_nat (length l)) by lia.
Qed.

(** ** strlen *)

Lemma len_head_spec m fuel : forall p s,
  cstr_at m p s -> (length s < fuel)%nat ->
  (len_head fuel m p = Some (inl (p + Z.of_nat (length s)))) \/
  exists k, (k <= length s)%nat /\ len_head fuel m p = Some (inr (p + Z.of_nat k)) /\
    (p + Z.of_nat k) mod 8 = 0.
Proof.
  induction fuel as [|fuel IH]; intros p s Hs Hf; [lia|]. cbn [len_head].
  rewrite unaligned_mod. destruct (Z.eqb_spec (p mod 8) 0) as [Ha|Ha]; cbn [negb].
  { right. exists 0%nat. rewrite Z.add_0_r. split; [lia|done]. }
  destruct s as [|b s]; unfold load8.
  - cbn [cstr_at] in Hs. rewrite Hs. cbn. left. by rewrite Z.add_0_r.
  - destruct Hs as (Hb & Hne & Hs). rewrite Hb. cbn [mbind option_bind].
    rewrite (proj2 (Z.eqb_neq b 0) Hne). cbn [length] in *.
    destruct (IH (p + 1) s Hs ltac:(lia)) as [E|(k & Hk & E & Hka)].
    + left. rewrite E. do 2 f_equal. lia.
    + right. exists (S k). split; [lia|]. rewrite E. split; [do 2 f_equal; lia|].
      by replace (p + Z.of_nat (S k)) with (p + 1 + Z.of_nat k) by lia.
Qed.

(** The words passed over hold characters the test says nothing of. *)
Lemma skip_words_spec (test : Z -> bool) (P : Z -> Prop) m fuel :
  mem_ok m -> whole_words m ->
  (forall l, length l = 8%nat -> Forall byte l -> test (le64 l) = false ->
     Forall (fun b => b <> 0 /\ P b) l) ->
  forall w s, cstr_at m w s -> w mod 8 = 0 -> (length s < fuel)%nat ->
  exists k, (k <= length s)%nat /\ Forall P (take k s) /\ (w + Z.of_nat k) mod 8 = 0 /\
    skip_words fuel test m w = Some (w + Z.of_nat k) /\
    exists l, length l = 8%nat /\ Forall byte l /\ bytes_at m (w + Z.of_nat k) l /\
      test (le64 l) = true.
Proof.
  intros Hok Hw Ht. induction fuel as [|fuel IH]; intros w s Hs Ha Hf; [lia|].
  cbn [skip_words]. destruct (word_at m w s Hok Hw Ha Hs) as (l & Hl & Hb & -> & Hat).
  cbn [mbind option_bind]. destruct (test (le64 l)) eqn:E.
  { exists 0%nat. rewrite Z.add_0_r. split; [lia|]. split; [constructor|]. by eauto 10. }
  pose proof (Ht l Hl Hb E) as Hp. rewrite Forall_and in Hp. destruct Hp as [Hz HP].
  destruct (word_inside m w s l Hs Hat Hz) as (s' & -> & Hs'). rewrite Hl in Hs'.
  rewrite length_app in Hf.
  destruct (IH (w + 8) s' Hs' (aligned_8 _ Ha) ltac:(lia))
    as (k & Hk & HPk & Hka & E' & Hrest).
  exists (8 + k)%nat. rewrite E'.
  replace (w + Z.of_nat (8 + k)) with (w + 8 + Z.of_nat k) by lia.
  split; [rewrite length_app; lia|]. split; [|by eauto].
  rewrite <-Hl, take_app_add. by apply Forall_app.
Qed.

Lemma len_bytes_spec m fuel : forall p s,
  cstr_at m p s -> (length s < fuel)%nat ->
  len_bytes fuel m p = Some (p + Z.of_nat (length s)).
Proof.
  induction fuel as [|fuel IH]; intros p s Hs Hf; [lia|]. cbn [len_bytes]. unfold load8.
  destruct s as [|b s].
  - cbn [cstr_at] in Hs. rewrite Hs. cbn. by rewrite Z.add_0_r.
  - destruct Hs as (Hb & Hne & Hs). rewrite Hb. cbn [mbind option_bind].
    rewrite (proj2 (Z.eqb_neq b 0) Hne). cbn [length] in *.
    rewrite (IH _ _ Hs) by lia. f_equal. lia.
Qed.

Lemma zero_words l :
  length l = 8%nat -> Forall byte l -> has_zero (le64 l) = false ->
  Forall (fun b => b <> 0 /\ True) l.
Proof.
  intros Hl Hb Hz. apply has_zero_spec in Hz; [|done|done].
  eapply Forall_impl; [exact Hz|]. auto.
Qed.

Lemma strlen_cstr m p s fuel :
  mem_ok m -> whole_words m -> cstr_at m p s -> (length s < fuel)%nat ->
  strlen fuel m p = Some (Z.of_nat (length s)).
Proof.
  intros Hok Hw Hs Hf. unfold strlen.
  destruct (len_head_spec m fuel p s Hs Hf) as [E|(k & Hk & E & Ha)]; rewrite E;
    cbn [mbind option_bind].
  { f_equal. lia. }
  pose proof (cstr_drop m p s k Hs Hk) as Hd.
  destruct (skip_words_spec has_zero (fun _ => True) m fuel Hok Hw zero_words _ _ Hd Ha)
    as (j & Hj & _ & _ & E' & _); [rewrite length_drop; lia|].
  rewrite E'. cbn [mbind option_bind].
  pose proof (cstr_drop m _ _ j Hd Hj) as Hd'.
  rewrite (len_bytes_spec m fuel _ _ Hd') by (rewrite !length_drop; lia).
  cbn [mbind option_bind]. rewrite !length_drop in *. f_equal. lia.
Qed.

(** ** cng_strnlen *)

(** The characters at [p] before a terminator or before [max] bytes. *)
Fixpoint upto (m : mem) (p : Z) (s : list Z) (max : nat) : Prop :=
  match s, max with
  | [], O => True
  | [], S _ => m !! p = Some 0
  | _ :: _, O => False
  | b :: s, S max => m !! p = Some b /\ b <> 0 /\ upto m (p + 1) s max
  end.

Lemma nlen_head_spec m : forall s max p,
  upto m p s max ->
  nlen_head max m p =
    Some (p + Z.of_nat (length s), (max - length s)%nat, true) \/
  exists k, (k <= length s)%nat /\ nlen_head max m p =
    Some (p + Z.of_nat k, (max - k)%nat, false) /\
    upto m (p + Z.of_nat k) (drop k s) (max - k) /\
    ((p + Z.of_nat k) mod 8 = 0 \/ (max - k)%nat = 0%nat).
Proof.
  induction s as [|b s IH]; intros [|max] p Hu; cbn [upto] in Hu; try done; cbn [nlen_head].
  { right. exists 0%nat. rewrite Z.add_0_r. auto. }
  all: rewrite unaligned_mod; destruct (Z.eqb_spec (p mod 8) 0) as [Ha|Ha]; cbn [negb].
  1, 3: right; exists 0%nat; rewrite Z.add_0_r; split; [lia|]; split; [done|]; auto.
  - left. unfold load8. rewrite Hu. cbn. by rewrite Z.add_0_r.
  - destruct Hu as (Hb & Hne & Hu). unfold load8. rewrite Hb. cbn [mbind option_bind].
    rewrite (proj2 (Z.eqb_neq b 0) Hne). cbn [length].
    replace (p + Z.of_nat (S (length s))) with (p + 1 + Z.of_nat (length s)) by lia.
    destruct (IH max (p + 1) Hu) as [E|(k & Hk & E & Hk')]; [left; by rewrite E|].
    right. exists (S k). replace (p + Z.of_nat (S k)) with (p + 1 + Z.of_nat k) by lia.
    split; [lia|]. by rewrite E.
Qed.

Lemma upto_inside m l : forall p s max,
  upto m p s max -> bytes_at m p l -> Forall (fun b => b <> 0) l -> (length l <= max)%nat ->
  exists s', s = l ++ s' /\ upto m (p + Z.of_nat (length l)) s' (max - length l).
Proof.
  induction l as [|b l IH]; intros p s max Hu Hl Hz Hn.
  { exists s. cbn. by rewrite Z.add_0_r, Nat.sub_0_r. }
  destruct Hl as [Hb Hl]. apply Forall_cons_1 in Hz as [Hne Hz]. cbn [length] in *.
  destruct max as [|max]; [lia|]. destruct s as [|c s]; cbn [upto] in Hu; [congruence|].
  destruct Hu as (Hc & _ & Hu). destruct (IH _ _ _ Hu Hl Hz ltac:(lia)) as (s' & -> & H').
  assert (c = b) as -> by congruence. exists s'. split; [done|].
  by replace (p + Z.of_nat (S (length l))) with (p + 1 + Z.of_nat (length l)) by lia.
Qed.

Lemma upto_word m p s max :
  mem_ok m -> whole_words m -> p mod 8 = 0 -> upto m p s max -> (0 < max)%nat ->
  exists l, length l = 8%nat /\ Forall byte l /\ load64_al m p = Some (le64 l) /\
    bytes_at m p l.
Proof.
  intros Hok Hw Ha Hu Hmax. destruct max as [|max]; [lia|].
  destruct s as [|b s]; cbn [upto] in Hu.
  - by apply (word_at m p []).
  - destruct Hu as (Hb & _). apply (mapped_word m p Hok Hw Ha). by exists b.
Qed.

Lemma nlen_words_spec m fuel : mem_ok m -> whole_words m -> forall p s max,
  upto m p s max -> p mod 8 = 0 \/ max = 0%nat -> (max <= fuel)%nat ->
  exists k, (k <= length s)%nat /\ nlen_words fuel m p max =
    Some (p + Z.of_nat k, (max - k)%nat) /\ upto m (p + Z.of_nat k) (drop k s) (max - k).
Proof.
  intros Hok Hw. induction fuel as [|fuel IH]; intros p s max Hu Ha Hf; cbn [nlen_words].
  { exists 0%nat. rewrite Z.add_0_r, Nat.sub_0_r. split; [lia|done]. }
  destruct (Nat.leb_spec 8 max) as [H8|H8].
  2: { exists 0%nat. rewrite Z.add_0_r, Nat.sub_0_r. split; [lia|done]. }
  destruct Ha as [Ha|Ha]; [|lia].
  destruct (upto_word m p s max Hok Hw Ha Hu ltac:(lia)) as (l & Hl & Hb & -> & Hat).
  cbn [mbind option_bind]. destruct (has_zero (le64 l)) eqn:E.
  { exists 0%nat. rewrite Z.add_0_r, Nat.sub_0_r. split; [lia|done]. }
  apply has_zero_spec in E; [|done|done].
  destruct (upto_inside m l p s max Hu Hat E ltac:(lia)) as (s' & -> & Hu').
  rewrite Hl in Hu'.
  destruct (IH (p + 8) s' (max - 8)%nat Hu' (or_introl (aligned_8 _ Ha)) ltac:(lia))
    as (k & Hk & E' & Hk').
  exists (8 + k)%nat. rewrite E', length_app, Hl.
  replace (p + Z.of_nat (8 + k)) with (p + 8 + Z.of_nat k) by lia.
  replace (max - (8 + k))%nat with (max - 8 - k)%nat by lia.
  split; [lia|]. split; [done|].
  replace (drop (8 + k) (l ++ s')) with (drop k s') by (rewrite <-Hl; by rewrite drop_app_add).
  done.
Qed.

Lemma nlen_bytes_spec m : forall s max p,
  upto m p s max -> nlen_bytes max m p = Some (p + Z.of_nat (length s)).
Proof.
  induction s as [|b s IH]; intros [|max] p Hu; cbn [upto] in Hu; try done;
    cbn [nlen_bytes length].
  - by rewrite Z.add_0_r.
  - unfold load8. rewrite Hu. cbn. by rewrite Z.add_0_r.
  - destruct Hu as (Hb & Hne & Hu). unfold load8. rewrite Hb. cbn [mbind option_bind].
    rewrite (proj2 (Z.eqb_neq b 0) Hne), (IH _ _ Hu). f_equal. lia.
Qed.

Lemma strnlen_upto m p s max :
  mem_ok m -> whole_words m -> upto m p s max ->
  cng_strnlen m p max = Some (Z.of_nat (length s)).
Proof.
  intros Hok Hw Hu. unfold cng_strnlen.
  destruct (nlen_head_spec m s max p Hu) as [E|(k & Hk & E & Hu' & Ha)]; rewrite E;
    cbn [mbind option_bind]. { f_equal. lia. }
  destruct (nlen_words_spec m (max - k) Hok Hw _ _ _ Hu' Ha ltac:(lia))
    as (j & Hj & E' & Hu''). rewrite E'. cbn [mbind option_bind].
  rewrite (nlen_bytes_spec m _ _ _ Hu''). cbn [mbind option_bind].
  rewrite !length_drop in *. f_equal. lia.
Qed.

(** ** strcmp and strncmp *)

Lemma strcmp_spec m : forall s fuel t a b,
  cstr_at m a s -> cstr_at m b t -> (length s < fuel)%nat ->
  strcmp fuel m a b = Some (cmp_list (s ++ [0]) (t ++ [0])).
Proof.
  induction s as [|x s IH]; intros [|fuel] t a b Hs Ht Hf; cbn [length] in Hf; try lia;
    cbn [strcmp app cmp_list]; unfold load8.
  - cbn [cstr_at] in Hs. rewrite Hs. cbn [mbind option_bind]. change (0 =? 0) with true.
    destruct t as [|y t]; cbn [cstr_at app] in *.
    + by rewrite Ht.
    + destruct Ht as (Hy & Hne & _). rewrite Hy. cbn [mbind option_bind].
      by rewrite (proj2 (Z.eqb_neq 0 y)) by congruence.
  - destruct Hs as (Hx & Hne & Hs). rewrite Hx. cbn [mbind option_bind].
    rewrite (proj2 (Z.eqb_neq x 0) Hne). destruct t as [|y t]; cbn [cstr_at app] in *.
    + rewrite Ht. cbn [mbind option_bind]. by rewrite (proj2 (Z.eqb_neq x 0) Hne).
    + destruct Ht as (Hy & _ & Ht). rewrite Hy. cbn [mbind option_bind].
      destruct (x =? y); [|done]. apply IH; [done|done|lia].
Qed.

Lemma strncmp_spec m : forall n s t a b,
  cstr_at m a s -> cstr_at m b t ->
  strncmp n m a b = Some (cmp_list (take n (s ++ [0])) (take n (t ++ [0]))).
Proof.
  assert (Hc : forall a s, cstr_at m a s -> m !! a = Some (hd 0 (s ++ [0]))).
  { intros a [|x s] H; [done|]. by destruct H. }
  induction n as [|n IH]; intros s t a b Hs Ht; [done|]. cbn [strncmp]. unfold load8.
  rewrite (Hc a s Hs), (Hc b t Ht). cbn [mbind option_bind].
  destruct s as [|x s], t as [|y t]; cbn [app hd take cmp_list].
  - cbn. by destruct n.
  - destruct Ht as (_ & Hne & _). by rewrite (proj2 (Z.eqb_neq 0 y)) by congruence.
  - destruct Hs as (_ & Hne & _). by rewrite (proj2 (Z.eqb_neq x 0)) by congruence.
  - destruct Hs as (_ & Hne & Hs), Ht as (_ & _ & Ht).
    destruct (x =? y); cbn [negb]; [|done]. rewrite (proj2 (Z.eqb_neq x 0) Hne).
    by apply IH.
Qed.

(** * The runtime: strchr, strrchr and cng_strlcpy against their meaning *)

(** ** Where a byte is *)

(** The first and the last place of [ch]. *)
Fixpoint index (ch : Z) (s : list Z) : option nat :=
  match s with
  | [] => None
  | b :: s => if b =? ch then Some O else S <$> index ch s
  end.

Fixpoint rindex (ch : Z) (s : list Z) : option nat :=
  match s with
  | [] => None
  | b :: s =>
      match rindex ch s with
      | Some i => Some (S i)
      | None => if b =? ch then Some O else None
      end
  end.

Definition addr (p : Z) (i : option nat) : option Z := (fun i => p + Z.of_nat i) <$> i.

Lemma addr_S p i : addr p (S <$> i) = addr (p + 1) i.
Proof. destruct i as [i|]; [|done]. cbn. f_equal. lia. Qed.

Lemma index_skip ch l s : Forall (fun b => b <> ch) l -> forall p,
  addr p (index ch (l ++ s)) = addr (p + Z.of_nat (length l)) (index ch s).
Proof.
  induction 1 as [|b l Hb Hl IH]; intros p; cbn [app index length].
  - by rewrite Z.add_0_r.
  - rewrite (proj2 (Z.eqb_neq b ch) Hb), addr_S, IH. f_equal. lia.
Qed.

Lemma index_drop ch s t k p :
  Forall (fun b => b <> ch) (take k s) -> (k <= length s)%nat ->
  addr p (index ch (s ++ t)) = addr (p + Z.of_nat k) (index ch (drop k s ++ t)).
Proof.
  intros HF Hk. rewrite <-(take_drop k s) at 1.
  by rewrite <-app_assoc, index_skip, length_take_le by done.
Qed.

Lemma index_terminator s : Forall (fun b => b <> 0) s -> index 0 (s ++ [0]) = Some (length s).
Proof.
  induction 1 as [|b s Hb Hs IH]; [done|]. cbn.
  by rewrite (proj2 (Z.eqb_neq b 0) Hb), IH.
Qed.

Lemma rindex_terminator s : rindex 0 (s ++ [0]) = Some (length s).
Proof. induction s as [|b s IH]; [done|]. cbn. by rewrite IH. Qed.

(** ** strchr *)

Section Chr.
Context (m : mem) (ch : Z).
Hypothesis Hok : mem_ok m.
Hypothesis Hw : whole_words m.
Hypothesis Hch : byte ch.
Hypothesis Hnz : ch <> 0.

Lemma chr_head_spec fuel : forall p s,
  cstr_at m p s -> (length s < fuel)%nat ->
  chr_head fuel m ch p = Some (inl (addr p (index ch (s ++ [0])))) \/
  exists k, (k <= length s)%nat /\ Forall (fun b => b <> ch) (take k s) /\
    chr_head fuel m ch p = Some (inr (p + Z.of_nat k)) /\ (p + Z.of_nat k) mod 8 = 0.
Proof.
  induction fuel as [|fuel IH]; intros p s Hs Hf; [lia|]. cbn [chr_head].
  rewrite unaligned_mod. destruct (Z.eqb_spec (p mod 8) 0) as [Ha|Ha]; cbn [negb].
  { right. exists 0%nat. rewrite Z.add_0_r. split; [lia|]. by split; [constructor|]. }
  unfold load8. destruct s as [|b s]; cbn [app index].
  - cbn [cstr_at] in Hs. rewrite Hs. cbn [mbind option_bind]. left.
    rewrite (proj2 (Z.eqb_neq 0 ch)) by congruence. done.
  - destruct Hs as (Hb & Hne & Hs). rewrite Hb. cbn [mbind option_bind length] in *.
    destruct (Z.eqb_spec b ch) as [E|E]; [left; cbn; by rewrite Z.add_0_r|].
    rewrite (proj2 (Z.eqb_neq b 0) Hne), addr_S.
    destruct (IH (p + 1) s Hs ltac:(lia)) as [E'|(k & Hk & HF & E' & Hka)]; [by left|].
    right. exists (S k). replace (p + Z.of_nat (S k)) with (p + 1 + Z.of_nat k) by lia.
    split; [lia|]. split; [by constructor|done].
Qed.

Lemma chr_bytes_spec fuel : forall p s,
  cstr_at m p s -> (length s < fuel)%nat ->
  chr_bytes fuel m ch p = Some (addr p (index ch (s ++ [0]))).
Proof.
  induction fuel as [|fuel IH]; intros p s Hs Hf; [lia|]. cbn [chr_bytes]. unfold load8.
  destruct s as [|b s]; cbn [app index].
  - cbn [cstr_at] in Hs. rewrite Hs. cbn [mbind option_bind].
    rewrite (proj2 (Z.eqb_neq 0 ch)) by congruence. done.
  - destruct Hs as (Hb & Hne & Hs). rewrite Hb. cbn [mbind option_bind length] in *.
    destruct (Z.eqb_spec b ch) as [E|E]; [cbn; by rewrite Z.add_0_r|].
    rewrite (proj2 (Z.eqb_neq b 0) Hne), addr_S. apply IH; [done|lia].
Qed.

Lemma chr_words l :
  length l = 8%nat -> Forall byte l -> has_zero_or (u64 (ch * RT_ONES)) (le64 l) = false ->
  Forall (fun b => b <> 0 /\ b <> ch) l.
Proof. intros Hl Hb Hz. by apply has_zero_or_spec in Hz. Qed.

Lemma strchr_nonzero fuel p s :
  cstr_at m p s -> (length s < fuel)%nat ->
  (r ← chr_head fuel m ch p;
   match r with
   | inl ans => Some ans
   | inr p =>
       w ← skip_words fuel (has_zero_or (u64 (ch * RT_ONES))) m p; chr_bytes fuel m ch w
   end) = Some (addr p (index ch (s ++ [0]))).
Proof.
  intros Hs Hf.
  destruct (chr_head_spec fuel p s Hs Hf) as [E|(k & Hk & HF & E & Ha)]; rewrite E;
    cbn [mbind option_bind]; [done|].
  pose proof (cstr_drop m p s k Hs Hk) as Hd.
  destruct (skip_words_spec _ (fun b => b <> ch) m fuel Hok Hw chr_words _ _ Hd Ha)
    as (j & Hj & HFj & _ & E' & _); [rewrite length_drop; lia|].
  rewrite E'. cbn [mbind option_bind].
  pose proof (cstr_drop m _ _ j Hd Hj) as Hd'.
  rewrite (chr_bytes_spec fuel _ _ Hd') by (rewrite !length_drop; lia). f_equal.
  by rewrite (index_drop ch s [0] k), (index_drop ch (drop k s) [0] j) by done.
Qed.
End Chr.

Lemma strchr_index m p s fuel c :
  mem_ok m -> whole_words m -> cstr_at m p s -> (length s < fuel)%nat ->
  strchr fuel m p c = Some (addr p (index (u8 c) (s ++ [0]))).
Proof.
  intros Hok Hw Hs Hf. unfold strchr.
  assert (Hc : byte (u8 c)) by apply (wrapu_range 8 c ltac:(lia)).
  destruct (Z.eqb_spec (u8 c) 0) as [E|E].
  - rewrite (strlen_cstr m p s fuel) by done. rewrite E.
    apply cstr_bytes in Hs as [_ Hs]. by rewrite index_terminator.
  - by apply strchr_nonzero.
Qed.

(** ** strrchr *)

(** The last place in what is left, or the one found before. *)
Definition later (r : option Z) (p : Z) (i : option nat) : option Z :=
  match i with Some i => Some (p + Z.of_nat i) | None => r end.

Lemma later_cons ch r p b s :
  later r p (rindex ch (b :: s)) =
  later (if b =? ch then Some p else r) (p + 1) (rindex ch s).
Proof.
  cbn [rindex]. destruct (rindex ch s) as [i|]; cbn [later].
  - f_equal. lia.
  - destruct (b =? ch); cbn; [by rewrite Z.add_0_r|done].
Qed.

Lemma later_skip ch l s : Forall (fun b => b <> ch) l -> forall r p,
  later r p (rindex ch (l ++ s)) = later r (p + Z.of_nat (length l)) (rindex ch s).
Proof.
  induction 1 as [|b l Hb Hl IH]; intros r p; cbn [app length].
  - by rewrite Z.add_0_r.
  - rewrite later_cons, (proj2 (Z.eqb_neq b ch) Hb), IH. f_equal. lia.
Qed.

Section Rchr.
Context (m : mem) (ch : Z).
Hypothesis Hok : mem_ok m.
Hypothesis Hw : whole_words m.
Hypothesis Hch : byte ch.
Hypothesis Hnz : ch <> 0.

Lemma rchr_end r p : later r p (rindex ch [0]) = r.
Proof. cbn [rindex]. by rewrite (proj2 (Z.eqb_neq 0 ch)) by congruence. Qed.

Lemma rchr_head_spec fuel : forall p s r,
  cstr_at m p s -> (length s < fuel)%nat ->
  rchr_head fuel m ch p r = Some (inl (later r p (rindex ch (s ++ [0])))) \/
  exists k r', (k <= length s)%nat /\
    rchr_head fuel m ch p r = Some (inr (p + Z.of_nat k, r')) /\ (p + Z.of_nat k) mod 8 = 0 /\
    later r p (rindex ch (s ++ [0])) =
    later r' (p + Z.of_nat k) (rindex ch (drop k s ++ [0])).
Proof.
  induction fuel as [|fuel IH]; intros p s r Hs Hf; [lia|]. cbn [rchr_head].
  rewrite unaligned_mod. destruct (Z.eqb_spec (p mod 8) 0) as [Ha|Ha]; cbn [negb].
  { right. exists 0%nat, r. rewrite Z.add_0_r. split; [lia|done]. }
  unfold load8. destruct s as [|b s].
  - cbn [cstr_at] in Hs. rewrite Hs. cbn [mbind option_bind app]. left.
    rewrite rchr_end, (proj2 (Z.eqb_neq 0 ch)) by congruence. done.
  - destruct Hs as (Hb & Hne & Hs). rewrite Hb. cbn [mbind option_bind length] in *.
    rewrite (proj2 (Z.eqb_neq b 0) Hne). cbn [app]. rewrite later_cons.
    set (r1 := if b =? ch then Some p else r).
    destruct (IH (p + 1) s r1 Hs ltac:(lia)) as [E|(k & r' & Hk & E & Hka & HL)]; [by left|].
    right. exists (S k), r'. replace (p + Z.of_nat (S k)) with (p + 1 + Z.of_nat k) by lia.
    split; [lia|]. done.
Qed.

Lemma rchr_word_spec n : forall p s r,
  cstr_at m p s ->
  rchr_word n m ch p r = Some (inl (later r p (rindex ch (s ++ [0])))) \/
  exists r', (n <= length s)%nat /\ rchr_word n m ch p r = Some (inr r') /\
    later r p (rindex ch (s ++ [0])) = later r' (p + Z.of_nat n) (rindex ch (drop n s ++ [0])).
Proof.
  induction n as [|n IH]; intros p s r Hs; cbn [rchr_word].
  { right. exists r. rewrite Z.add_0_r. split; [lia|done]. }
  unfold load8. destruct s as [|b s].
  - cbn [cstr_at] in Hs. rewrite Hs. cbn [mbind option_bind app]. left.
    rewrite rchr_end, (proj2 (Z.eqb_neq 0 ch)) by congruence. done.
  - destruct Hs as (Hb & Hne & Hs). rewrite Hb. cbn [mbind option_bind length].
    rewrite (proj2 (Z.eqb_neq b 0) Hne). cbn [app]. rewrite later_cons.
    set (r1 := if b =? ch then Some p else r).
    destruct (IH (p + 1) s r1 Hs) as [E|(r' & Hn & E & HL)]; [by left|].
    right. exists r'. replace (p + Z.of_nat (S n)) with (p + 1 + Z.of_nat n) by lia.
    split; [lia|]. done.
Qed.

Lemma rchr_words_spec fuel : forall w s r,
  cstr_at m w s -> w mod 8 = 0 -> (length s < fuel)%nat ->
  rchr_words fuel m ch (u64 (ch * RT_ONES)) w r =
  Some (later r w (rindex ch (s ++ [0]))).
Proof.
  induction fuel as [|fuel IH]; intros w s r Hs Ha Hf; [lia|]. cbn [rchr_words].
  destruct (word_at m w s Hok Hw Ha Hs) as (l & Hl & Hb & -> & Hat). cbn [mbind option_bind].
  destruct (has_zero_or _ (le64 l)) eqn:E; cbn [negb].
  - destruct (rchr_word_spec 8 w s r Hs) as [E'|(r' & Hn & E' & HL)]; rewrite E';
      cbn [mbind option_bind]; [done|].
    rewrite HL. apply IH; [by apply cstr_drop|by apply aligned_8|rewrite length_drop; lia].
  - apply (chr_words ch Hch) in E; [|done|done]. rewrite Forall_and in E.
    destruct E as [Hz HP].
    destruct (word_inside m w s l Hs Hat Hz) as (s' & -> & Hs'). rewrite Hl in Hs'.
    rewrite <-app_assoc, later_skip, Hl by done. rewrite length_app in Hf.
    apply IH; [done|by apply aligned_8|lia].
Qed.
End Rchr.

Lemma strrchr_rindex m p s fuel c :
  mem_ok m -> whole_words m -> cstr_at m p s -> (length s < fuel)%nat ->
  strrchr fuel m p c = Some (addr p (rindex (u8 c) (s ++ [0]))).
Proof.
  intros Hok Hw Hs Hf. unfold strrchr.
  assert (Hc : byte (u8 c)) by apply (wrapu_range 8 c ltac:(lia)).
  destruct (Z.eqb_spec (u8 c) 0) as [E|E].
  { rewrite (strlen_cstr m p s fuel) by done. by rewrite E, rindex_terminator. }
  assert (HA : addr p (rindex (u8 c) (s ++ [0])) = later None p (rindex (u8 c) (s ++ [0])))
    by (by destruct (rindex _ _)).
  rewrite HA. destruct (rchr_head_spec m (u8 c) E fuel p s None Hs Hf)
    as [E'|(k & r' & Hk & E' & Hka & HL)]; rewrite E'; cbn [mbind option_bind]; [done|].
  rewrite HL. apply rchr_words_spec; try done; [by apply cstr_drop|].
  rewrite length_drop. lia.
Qed.

(** ** cng_strlcpy *)

Definition apart (x : Z) (n : nat) (a : Z) (k : nat) : Prop :=
  x + Z.of_nat n <= a \/ a + Z.of_nat k <= x.

Lemma cstr_fill m p s x k :
  cstr_at m p s -> apart x (length k) p (S (length s)) -> cstr_at (fill m x k) p s.
Proof.
  rewrite !cstr_bytes. intros [H1 H2] Hd. split; [|done]. apply bytes_at_fill; [done|].
  rewrite length_app. cbn [length]. unfold apart in Hd. lia.
Qed.

Lemma mem_ok_fill m x k : mem_ok m -> Forall byte k -> mem_ok (fill m x k).
Proof.
  revert m x. induction k as [|b k IH]; intros m x Hm Hk; [done|].
  apply Forall_cons_1 in Hk as [Hb Hk]. apply IH; [|done]. by apply map_Forall_insert_2.
Qed.

Lemma whole_words_fill m x k :
  whole_words m -> mapped m x (length k) -> whole_words (fill m x k).
Proof.
  intros Hw Hx a Ha. apply mapped_fill, Hw. rewrite lookup_fill in Ha.
  case_bool_decide; [|done]. replace a with (x + (a - x)) by lia. apply Hx. lia.
Qed.

Lemma cstr_byte m p s : mem_ok m -> cstr_at m p s -> Forall byte s.
Proof.
  intros Hok [H _]%cstr_bytes. apply bytes_at_app in H as [H _]. rewrite bytes_at_lookup in H.
  apply Forall_lookup. intros i b Hi. by eapply (map_Forall_lookup_1 _ _ _ _ Hok), H.
Qed.

Section Lcpy.
Context (m : mem) (dst src : Z) (s : list Z) (room : nat).
Hypothesis Hok : mem_ok m.
Hypothesis Hw : whole_words m.
Hypothesis Hs : cstr_at m src s.
Hypothesis Hm : mapped m dst room.
Hypothesis Hd : apart dst room src (S (length s)).

Lemma lcpy_mem k :
  (k <= length s)%nat -> (k <= room)%nat ->
  mem_ok (fill m dst (take k s)) /\ whole_words (fill m dst (take k s)) /\
  cstr_at (fill m dst (take k s)) src s.
Proof.
  intros H1 H2. split; [|split].
  - apply mem_ok_fill; [done|]. by eapply Forall_take, cstr_byte.
  - apply whole_words_fill; [done|]. rewrite length_take_le by done.
    eapply mapped_sub; eauto; lia.
  - apply cstr_fill; [done|]. rewrite length_take_le by done. unfold apart in *. lia.
Qed.

(** One word or one byte more. *)
Lemma lcpy_more k l :
  (k <= length s)%nat -> (exists s', drop k s = l ++ s') ->
  fill (fill m dst (take k s)) (dst + Z.of_nat k) l = fill m dst (take (k + length l) s).
Proof.
  intros Hk [s' E]. rewrite <-take_take_drop, E, take_app_length, fill_app.
  by rewrite length_take_le.
Qed.

(** What the loop leaves where it ends. *)
Lemma lcpy_end k :
  (k <= length s)%nat -> (k <= room)%nat -> k = room \/ k = length s ->
  Some (fill m dst (take k s), Z.of_nat k) =
  Some (fill m dst (take room s), Z.of_nat (min (length s) room)).
Proof.
  intros H1 H2 [->| ->].
  - by rewrite Nat.min_r.
  - by rewrite Nat.min_l, firstn_all, take_ge by done.
Qed.

(** The loop after its turn at [k]. *)
Definition lcpy_done (fuel k : nat) : Prop :=
  (k <= length s)%nat -> (k <= room)%nat -> (room - k <= fuel)%nat ->
  lcpy_loop fuel (fill m dst (take k s)) dst src (Z.of_nat k) (room - k) =
  Some (fill m dst (take room s), Z.of_nat (min (length s) room)).

Lemma lcpy_byte fuel k :
  (forall k, lcpy_done fuel k) -> (k <= length s)%nat -> (k < room)%nat ->
  (room - k <= S fuel)%nat ->
  (c ← load8 (fill m dst (take k s)) (src + Z.of_nat k);
   if c =? 0 then Some (fill m dst (take k s), Z.of_nat k)
   else m ← store8 (fill m dst (take k s)) (dst + Z.of_nat k) c;
        lcpy_loop fuel m dst src (Z.of_nat k + 1) (pred (room - k))) =
  Some (fill m dst (take room s), Z.of_nat (min (length s) room)).
Proof.
  intros IH Hk Hkr Hf. destruct (lcpy_mem k Hk ltac:(lia)) as (_ & _ & Hs').
  pose proof (cstr_drop _ _ _ k Hs' Hk) as Hdk. unfold load8.
  destruct (drop k s) as [|b s'] eqn:Ed; cbn [cstr_at] in Hdk;
    apply (f_equal length) in Ed as Hl; rewrite length_drop in Hl; cbn [length] in Hl.
  - rewrite Hdk. cbn. apply lcpy_end; lia.
  - destruct Hdk as (Hb & Hne & _). rewrite Hb. cbn [mbind option_bind].
    rewrite (proj2 (Z.eqb_neq b 0) Hne). rewrite store8_spec.
    2: { apply mapped_fill with (n := room); [exact Hm|]. lia. }
    cbn [mbind option_bind].
    pose proof (lcpy_more k [b] Hk (ex_intro _ s' Ed)) as M. cbn [fill length] in M.
    rewrite M. replace (Z.of_nat k + 1) with (Z.of_nat (k + 1)) by lia.
    replace (pred (room - k)) with (room - (k + 1))%nat by lia. apply IH; lia.
Qed.

Lemma lcpy_loop_spec fuel : forall k, lcpy_done fuel k.
Proof.
  induction fuel as [|fuel IH]; intros k Hk Hkr Hf; cbn [lcpy_loop]; [apply lcpy_end; lia|].
  destruct (Nat.eqb_spec (room - k) 0) as [E|E]; [apply lcpy_end; lia|].
  pose proof (lcpy_byte fuel k IH Hk ltac:(lia) ltac:(lia)) as Hbyte.
  destruct (lcpy_mem k Hk Hkr) as (Hok' & Hw' & Hs').
  pose proof (cstr_drop _ _ _ k Hs' Hk) as Hdk.
  destruct (negb (rt_unaligned (src + Z.of_nat k)) && (8 <=? room - k)%nat) eqn:Ew;
    cbn [mbind option_bind]; [|exact Hbyte].
  apply andb_true_iff in Ew as [Ea%negb_true_iff E8%Nat.leb_le].
  rewrite unaligned_mod in Ea. apply negb_false_iff, Z.eqb_eq in Ea.
  destruct (word_at _ _ _ Hok' Hw' Ea Hdk) as (l & Hl & Hb & -> & Hat).
  cbn [mbind option_bind]. destruct (has_zero (le64 l)) eqn:Ez; [exact Hbyte|].
  apply has_zero_spec in Ez; [|done|done].
  destruct (word_inside _ _ _ l Hdk Hat Ez) as (s' & Ed & _).
  rewrite store64_spec; [|done|done|apply mapped_fill; eapply mapped_sub; eauto; lia].
  cbn [mbind option_bind]. rewrite lcpy_more by (done || by eexists). rewrite Hl.
  assert (k + 8 <= length s)%nat.
  { apply (f_equal length) in Ed. rewrite length_drop, length_app in Ed. lia. }
  replace (Z.of_nat k + 8) with (Z.of_nat (k + 8)) by lia.
  replace (room - k - 8)%nat with (room - (k + 8))%nat by lia. apply IH; lia.
Qed.
End Lcpy.

Lemma strlcpy_fill m dst src s size fuel :
  mem_ok m -> whole_words m -> cstr_at m src s -> mapped m dst (S size) ->
  apart dst (S size) src (S (length s)) -> (length s < fuel)%nat ->
  cng_strlcpy fuel m dst src (S size) =
  Some (fill m dst (take size s ++ [0]), Z.of_nat (length s)).
Proof.
  intros Hok Hw Hs Hm Hd Hf. unfold cng_strlcpy. cbn [pred].
  assert (Hm' : mapped m dst size) by (eapply mapped_sub; eauto; lia).
  assert (Hd' : apart dst size src (S (length s))) by (unfold apart in *; lia).
  pose proof (lcpy_loop_spec m dst src s size Hok Hw Hs Hm' Hd' size 0 ltac:(lia) ltac:(lia)
    ltac:(lia)) as E.
  rewrite Nat.sub_0_r in E. change (fill m dst (take 0 s)) with m in E.
  change (Z.of_nat 0) with 0 in E. rewrite E.
  cbn [mbind option_bind Nat.eqb]. set (n := min (length s) size).
  assert (Ht : take size s = take n s).
  { unfold n. destruct (Nat.le_ge_cases (length s) size) as [Hle|Hle].
    - rewrite Nat.min_l, firstn_all, take_ge by done. done.
    - by rewrite Nat.min_r. }
  assert (Hn : length (take n s) = n) by (rewrite length_take; lia).
  rewrite Ht, store8_spec. 2: { apply mapped_fill with (n := S size); [exact Hm|]. lia. }
  cbn [mbind option_bind].
  assert (F : <[dst + Z.of_nat n := 0]> (fill m dst (take n s)) = fill m dst (take n s ++ [0]))
    by (by rewrite fill_app, Hn).
  rewrite F. rewrite (strlen_cstr _ _ (drop n s)).
  - cbn [mbind option_bind]. rewrite length_drop. do 2 f_equal. lia.
  - apply mem_ok_fill; [done|]. apply Forall_app; split; [by eapply Forall_take, cstr_byte|].
    by apply Forall_singleton.
  - apply whole_words_fill; [done|]. rewrite length_app, Hn. cbn [length].
    eapply mapped_sub; [exact Hm|lia|lia].
  - apply cstr_drop; [|lia]. apply cstr_fill; [done|]. rewrite length_app, Hn.
    unfold apart in *. cbn [length]. lia.
  - rewrite length_drop. lia.
Qed.
