(* ===== verification/RtProps.v ===== *)
(** * Properties of the freestanding runtime (src/src/rt/rt.c) *)

From stdpp Require Import base list numbers gmap strings.
From Stdlib Require Import ZArith Lia Ascii.
From S2P Require Import Prelude Rt RtFacts RtStr.

Open Scope Z_scope.

(** [m'] is [m] with [l] at [d] and nothing else changed. *)
Definition written (m : mem) (d : Z) (l : list Z) (m' : mem) : Prop :=
  forall a, m' !! a =
    if bool_decide (d <= a < d + Z.of_nat (length l)) then l !! Z.to_nat (a - d) else m !! a.

Lemma written_fill m d l : written m d l (fill m d l).
Proof. intros a. apply lookup_fill. Qed.

Lemma written_same m d l : bytes_at m d l -> written m d l m.
Proof.
  rewrite bytes_at_lookup. intros H a. case_bool_decide as Ha; [|done].
  destruct (lookup_lt_is_Some_2 l (Z.to_nat (a - d)) ltac:(lia)) as [b Hb]. rewrite Hb.
  apply H in Hb. by replace (d + Z.of_nat (Z.to_nat (a - d))) with a in Hb by lia.
Qed.

Lemma bytes_at_byte m a l : mem_ok m -> bytes_at m a l -> Forall byte l.
Proof.
  rewrite bytes_at_lookup. intros Hok H. apply Forall_lookup. intros i b Hi.
  by eapply (map_Forall_lookup_1 _ _ _ _ Hok), H.
Qed.

(** C20: The memory routines work a word at a time and mean what C says.
    memset fills its range with the byte; memcpy copies between ranges that do
    not overlap; memmove copies between any two mapped ranges, overlapping
    either way round, and the destination then holds what the source held
    before; memcmp answers the difference of the first bytes that differ, as
    unsigned bytes, or 0.  None of them touches or reads a byte outside its
    ranges, faults, or stores a word at an address that is not aligned. *)
Theorem rt_memory_exact m :
  mem_ok m ->
  (forall d c n, mapped m d n ->
     exists m', memset m d c n = Some m' /\ written m d (replicate n (u8 c)) m') /\
  (forall d s l, bytes_at m s l -> mapped m d (length l) ->
     d + Z.of_nat (length l) <= s \/ s + Z.of_nat (length l) <= d ->
     exists m', memcpy m d s (length l) = Some m' /\ written m d l m') /\
  (forall d s l, bytes_at m s l -> mapped m d (length l) ->
     exists m', memmove m d s (length l) = Some m' /\ written m d l m') /\
  (forall a b l k, bytes_at m a l -> bytes_at m b k -> length l = length k ->
     memcmp m a b (length l) = Some (cmp_list l k)).
Proof.
  intros Hok. split; [|split; [|split]].
  - intros d c n Hm. eexists. split; [by apply memset_fill|apply written_fill].
  - intros d s l Hb Hm Hd. eexists. split; [|apply written_fill].
    apply copy_up_fill; [by eapply bytes_at_byte|done|done|]. unfold up_safe. lia.
  - intros d s l Hb Hm. pose proof (bytes_at_byte _ _ _ Hok Hb) as Hl. unfold memmove.
    destruct (Z.eqb_spec d s) as [->|Hne]; [exists m; split; [done|by apply written_same]|].
    destruct (Nat.eqb_spec (length l) 0) as [E|E].
    { apply nil_length_inv in E. subst l. exists m. split; [done|]. by apply written_same. }
    exists (fill m d l). split; [|apply written_fill]. cbn [orb].
    destruct (Z.ltb_spec d s).
    + apply copy_up_fill; [done|done|done|]. left. lia.
    + apply copy_down_fill; [done|done|done|lia].
  - intros a b l k Ha Hb Hn. apply memcmp_list; [by eapply bytes_at_byte..|done|done|done].
Qed.

(** Two words' worth of memory and a half. *)
Definition mem20 : mem := list_to_map (imap (fun i b => (Z.of_nat i, b)) (seqZ 1 20)).

Lemma mem20_ok : mem_ok mem20.
Proof.
  assert (H : map_Forall (fun _ b => 0 <= b < 256) mem20).
  { apply (bool_decide_unpack _). by vm_compute. }
  exact H.
Qed.

Lemma rt_memory_exact_witness :
  exists m', memmove mem20 2 0 17 = Some m' /\ written mem20 2 (seqZ 1 17) m'.
Proof.
  destruct (rt_memory_exact mem20 mem20_ok) as (_ & _ & H & _).
  apply (H 2 0 (seqZ 1 17)).
  - by vm_compute.
  - intros i Hi. apply elem_of_dom.
    assert (D : forallb (fun i => bool_decide (2 + i ∈ dom mem20)) (seqZ 0 17) = true)
      by (by vm_compute).
    rewrite forallb_forall in D. eapply bool_decide_eq_true_1, D, list_elem_of_In, elem_of_seqZ.
    done.
Defined.

(** The bytes of a string of the model. *)
Definition enc (s : cstr) : list Z := (fun c => Z.of_nat (nat_of_ascii c)) <$> s.

(** The string routines read a word at a time and mean what C says, in
    memory that is mapped in whole words, as pages are: a string that ends on
    the last byte before an unmapped page is scanned without a fault.  strlen
    is the length; cng_strnlen the length or the bound, also where the bytes
    within the bound have no terminator; strcmp and strncmp the difference of
    the first bytes that differ, terminators included; strchr and strrchr the
    first and the last place of the byte, the terminator's for 0, and NULL where
    there is none; and cng_strlcpy leaves the source cut to the size with its
    terminator, touches nothing else and returns the source's length, which is
    the [strlcpy] the path model is written with. *)
Theorem rt_strings_exact m fuel :
  mem_ok m -> whole_words m ->
  (forall p s, cstr_at m p s -> (length s < fuel)%nat ->
     strlen fuel m p = Some (Z.of_nat (length s))) /\
  (forall p s max, upto m p s max -> cng_strnlen m p max = Some (Z.of_nat (length s))) /\
  (forall a b s t, cstr_at m a s -> cstr_at m b t -> (length s < fuel)%nat ->
     strcmp fuel m a b = Some (cmp_list (s ++ [0]) (t ++ [0])) /\
     forall n, strncmp n m a b = Some (cmp_list (take n (s ++ [0])) (take n (t ++ [0])))) /\
  (forall p s c, cstr_at m p s -> (length s < fuel)%nat ->
     strchr fuel m p c = Some (addr p (index (u8 c) (s ++ [0]))) /\
     strrchr fuel m p c = Some (addr p (rindex (u8 c) (s ++ [0])))) /\
  (forall dst src s size, cstr_at m src (enc s) -> mapped m dst (S size) ->
     apart dst (S size) src (S (length s)) -> (length s < fuel)%nat ->
     exists m', cng_strlcpy fuel m dst src (S size) =
       Some (m', Z.of_nat (snd (strlcpy s (S size)))) /\
       written m dst (enc (fst (strlcpy s (S size))) ++ [0]) m').
Proof.
  intros Hok Hw. split; [|split; [|split; [|split]]].
  - intros. by apply strlen_cstr.
  - intros. by apply strnlen_upto.
  - intros. split; [by apply strcmp_spec|]. intros. by apply strncmp_spec.
  - intros. split; [by apply strchr_index|by apply strrchr_rindex].
  - intros dst src s size Hs Hm Hd Hf.
    assert (L : length (enc s) = length s) by apply length_fmap.
    eexists. split; [|apply written_fill]. unfold strlcpy. cbn [fst snd pred].
    rewrite (strlcpy_fill m dst src (enc s) size) by (by rewrite ?L).
    unfold enc. by rewrite fmap_take, length_fmap.
Qed.

(** A page of 16 bytes: "hello" at its end, room for a copy at its start. *)
Definition page16 : mem :=
  list_to_map (imap (fun i b => (Z.of_nat i, b)) (replicate 10 7 ++ [104; 101; 108; 108; 111; 0])).

Lemma page16_ok : mem_ok page16 /\ whole_words page16.
Proof.
  split.
  - assert (H : map_Forall (fun _ b => 0 <= b < 256) page16)
      by (apply (bool_decide_unpack _); by vm_compute). exact H.
  - intros a Ha. apply elem_of_dom in Ha.
    assert (D : forall x, x ∈ dom page16 <-> 0 <= x < 16).
    { assert (E : dom page16 = list_to_set (seqZ 0 16)) by (by vm_compute).
      intros x. rewrite E, elem_of_list_to_set, elem_of_seqZ. lia. }
    rewrite D in Ha. intros i Hi. apply elem_of_dom, D.
    pose proof (Z.div_mod a 8 ltac:(lia)). pose proof (Z.mod_pos_bound a 8 ltac:(lia)).
    assert (a / 8 = 0 \/ a / 8 = 1) as [->| ->] by lia; lia.
Qed.

Lemma rt_strings_exact_witness :
  strlen 9 page16 10 = Some 5 /\
  strrchr 9 page16 10 108 = Some (Some 13) /\
  exists m', cng_strlcpy 9 page16 1 10 4 = Some (m', 5) /\
    written page16 1 (enc (cs "hel") ++ [0]) m'.
Proof.
  destruct page16_ok as [Hok Hw].
  destruct (rt_strings_exact page16 9 Hok Hw) as (H1 & _ & _ & H4 & H5).
  assert (Hs : cstr_at page16 10 (enc (cs "hello"))) by (by vm_compute).
  split; [|split].
  - apply (H1 10 _ Hs). vm_compute. lia.
  - apply (H4 10 _ 108 Hs). vm_compute. lia.
  - apply (H5 1 10 (cs "hello") 3%nat Hs).
    + intros i Hi. apply elem_of_dom.
      assert (D : forallb (fun i => bool_decide (1 + i ∈ dom page16)) (seqZ 0 4) = true)
        by (by vm_compute).
      rewrite forallb_forall in D.
      eapply bool_decide_eq_true_1, D, list_elem_of_In, elem_of_seqZ. done.
    + left. vm_compute. congruence.
    + vm_compute. lia.
Defined.
