(* ===== verification/Fmt.v ===== *)
(** * The runtime: formatted output (src/src/rt/rt.c)

    The formatter of every message and of every synthesised /proc line.  An
    argument is what its register holds; reading one that is missing, or a
    string where a number was passed, is undefined and [None] here.  [sink] is
    the descriptor's other end: the answers its writes give, each used once and
    a whole write after the last, and what has arrived there. *)

From stdpp Require Import base list numbers strings.
From Stdlib Require Import ZArith Lia Ascii.
From S2P Require Import Prelude.

Open Scope Z_scope.

Definition CNG_EINTR := 4.

(** ** cng_write_all *)

Record sink := Sink { k_ans : list Z; k_got : list ascii }.

(** One write of [p]: its answer, a count of at most what was offered or a
    negative error, and the sink after it. *)
Definition sys_write (k : sink) (p : list ascii) : Z * sink :=
  match k_ans k with
  | [] => (Z.of_nat (length p), Sink [] (k_got k ++ p))
  | r :: ans =>
      let r := Z.min r (Z.of_nat (length p)) in
      (r, Sink ans (k_got k ++ take (Z.to_nat r) p))
  end.

Fixpoint write_loop (fuel : nat) (k : sink) (p : list ascii) (n : Z) : Z * sink :=
  match fuel with
  | O => (n - Z.of_nat (length p), k)
  | S fuel =>
      match p with
      | [] => (n, k)
      | _ =>
          let '(r, k) := sys_write k p in
          if r <? 0 then if r =? - CNG_EINTR then write_loop fuel k p n else (r, k)
          else if r =? 0 then (n - Z.of_nat (length p), k)
          else write_loop fuel k (drop (Z.to_nat r) p) n
      end
  end.

Definition cng_write_all (k : sink) (p : list ascii) : Z * sink :=
  write_loop (length (k_ans k) + length p + 1) k p (Z.of_nat (length p)).

Definition cng_puts (k : sink) (s : cstr) : sink := snd (cng_write_all k s).

(** ** The window *)

(** [f_buf] is [buf[0..len)]; without a sink, [fd] is negative. *)
Record cng_fmt := Fmt {
  f_buf : list ascii;
  f_cap : Z;
  f_total : Z;
  f_fd : option sink }.

Definition fmt_flush (f : cng_fmt) : cng_fmt :=
  match f_fd f with
  | Some k =>
      if (length (f_buf f) =? 0)%nat then f
      else Fmt [] (f_cap f) (f_total f) (Some (snd (cng_write_all k (f_buf f))))
  | None => f
  end.

Definition fmt_put (f : cng_fmt) (c : ascii) : cng_fmt :=
  let f := Fmt (f_buf f) (f_cap f) (f_total f + 1) (f_fd f) in
  let put f := Fmt (f_buf f ++ [c]) (f_cap f) (f_total f) (f_fd f) in
  if f_cap f <=? Z.of_nat (length (f_buf f)) + 1 then
    match f_fd f with
    | None => f
    | Some _ => put (fmt_flush f)
    end
  else put f.

(** ** Conversions *)

Inductive fmt_arg := AStr (s : option cstr) | AInt (z : Z).

Definition digit_val (c : ascii) : Z := Z.of_nat (nat_of_ascii c) - 48.
Definition is_dig (c : ascii) : bool := (0 <=? digit_val c) && (digit_val c <=? 9).

(** The flag, the width and the length modifiers, and what follows them. *)
Fixpoint skip_zeros (f : cstr) (zero : bool) : bool * cstr :=
  match f with
  | c :: f' => if Ascii.eqb c "0" then skip_zeros f' true else (zero, f)
  | [] => (zero, [])
  end.

Fixpoint read_width (f : cstr) (width : Z) : Z * cstr :=
  match f with
  | c :: f' => if is_dig c then read_width f' (width * 10 + digit_val c) else (width, f)
  | [] => (width, [])
  end.

Fixpoint read_ls (f : cstr) (lng : Z) : Z * cstr :=
  match f with
  | c :: f' => if Ascii.eqb c "l" then read_ls f' (lng + 1) else (lng, f)
  | [] => (lng, [])
  end.

Definition read_lng (f : cstr) : Z * cstr :=
  let '(lng, f) := read_ls f 0 in
  match f with
  | c :: f' => if Ascii.eqb c "z" then (2, f') else (lng, f)
  | [] => (lng, [])
  end.

Definition lower_digits : cstr := cs "0123456789abcdef".
Definition upper_digits : cstr := cs "0123456789ABCDEF".

(** [while (uv) t[i++] = dig[uv % base]], the digits from the lowest. *)
Fixpoint digits_loop (fuel : nat) (dig : cstr) (base uv : Z) : cstr :=
  match fuel with
  | O => []
  | S fuel =>
      if uv =? 0 then []
      else default "0"%char (dig !! Z.to_nat (uv mod base)) :: digits_loop fuel dig base (uv / base)
  end.

(** The digits in the order they are put. *)
Definition digits (dig : cstr) (base uv : Z) : cstr :=
  if uv =? 0 then ["0"%char] else rev (digits_loop 64 dig base uv).

(** [PAD(have)]. *)
Definition pad (zero : bool) (width have : Z) : cstr :=
  replicate (Z.to_nat (width - have)) (if zero then "0"%char else " "%char).

Definition fmt_d (zero : bool) (width lng z : Z) : cstr :=
  let v := if negb (lng =? 0) then s64 z else s32 z in
  let neg := v <? 0 in
  let uv := if neg then u64 (- v) else v in
  let t := digits lower_digits 10 uv in
  let sign := if neg then ["-"%char] else [] in
  let fill := pad zero width (Z.of_nat (length t) + Z.of_nat (length sign)) in
  if zero then sign ++ fill ++ t else fill ++ sign ++ t.

Definition fmt_u (c : ascii) (zero : bool) (width lng z : Z) : cstr :=
  if Ascii.eqb c "p" then
    let t := digits lower_digits 16 (u64 z) in
    cs "0x" ++ pad zero width (Z.of_nat (length t)) ++ t
  else
    let uv := if negb (lng =? 0) then u64 z else u32 z in
    let base := if Ascii.eqb c "o" then 8
                else if Ascii.eqb c "x" || Ascii.eqb c "X" then 16 else 10 in
    let dig := if Ascii.eqb c "X" then upper_digits else lower_digits in
    let t := digits dig base uv in
    pad zero width (Z.of_nat (length t)) ++ t.

(** What one conversion puts, and the arguments after it. *)
Definition conv (c : ascii) (zero : bool) (width lng : Z) (args : list fmt_arg)
    : option (cstr * list fmt_arg) :=
  if Ascii.eqb c "s" then
    match args with
    | AStr s :: args =>
        let s := default (cs "(null)") s in
        Some (pad zero width (s32 (Z.of_nat (length s))) ++ s, args)
    | _ => None
    end
  else if Ascii.eqb c "c" then
    match args with
    | AInt z :: args => Some ([ascii_of_N (Z.to_N (u8 z))], args)
    | _ => None
    end
  else if Ascii.eqb c "%" then Some (["%"%char], args)
  else if Ascii.eqb c "d" then
    match args with
    | AInt z :: args => Some (fmt_d zero width lng z, args)
    | _ => None
    end
  else if Ascii.eqb c "u" || Ascii.eqb c "o" || Ascii.eqb c "x" || Ascii.eqb c "X"
          || Ascii.eqb c "p" then
    match args with
    | AInt z :: args => Some (fmt_u c zero width lng z, args)
    | _ => None
    end
  else Some (["%"%char; c], args).

(** One turn of the loop: what it puts and what is left of the format. *)
Definition fmt_turn (f : cstr) (args : list fmt_arg) : option (cstr * cstr * list fmt_arg) :=
  match f with
  | [] => Some ([], [], args)
  | c :: f =>
      if negb (Ascii.eqb c "%") then Some ([c], f, args)
      else
        let '(zero, f) := skip_zeros f false in
        let '(width, f) := read_width f 0 in
        let '(lng, f) := read_lng f in
        match f with
        | [] => Some (["%"%char], [], args)
        | c :: f =>
            '(out, args) ← conv c zero width lng args; Some (out, f, args)
        end
  end.

Fixpoint fmt_loop (fuel : nat) (o : cng_fmt) (f : cstr) (args : list fmt_arg) : option cng_fmt :=
  match fuel with
  | O => Some o
  | S fuel =>
      match f with
      | [] => Some o
      | _ =>
          '(out, f, args) ← fmt_turn f args;
          fmt_loop fuel (foldl fmt_put o out) f args
      end
  end.

Definition fmt_run (o : cng_fmt) (fmt : cstr) (args : list fmt_arg) : option cng_fmt :=
  fmt_loop (length fmt) o fmt args.

(** The bytes before the terminator, where [cap] leaves room for one, and the
    return value. *)
Definition cng_vsnprintf (cap : Z) (fmt : cstr) (args : list fmt_arg)
    : option (option cstr * Z) :=
  f ← fmt_run (Fmt [] cap 0 None) fmt args;
  Some (if cap =? 0 then None else Some (f_buf f), f_total f).

Definition cng_snprintf := cng_vsnprintf.

Definition cng_vdprintf (k : sink) (fmt : cstr) (args : list fmt_arg) : option sink :=
  f ← fmt_run (Fmt [] 1024 0 (Some k)) fmt args;
  f_fd (fmt_flush f).

Definition cng_dprintf := cng_vdprintf.
