(* ===== verification/FmtProps.v ===== *)
(** * Formatted output: the window, the counts and the numbers *)

From Stdlib Require Import ZArith Lia Ascii.
From stdpp Require Import base numbers strings list.
From S2P Require Import Prelude Fmt.

Open Scope Z_scope.

(** ** The whole output of a format *)

Inductive renders : cstr -> list fmt_arg -> cstr -> Prop :=
  | renders_nil args : renders [] args []
  | renders_turn c f args out f' args' out' :
      fmt_turn (c :: f) args = Some (out, f', args') -> renders f' args' out' ->
      renders (c :: f) args (out ++ out').

Lemma skip_zeros_le f : forall z, (length (snd (skip_zeros f z)) <= length f)%nat.
Proof.
  induction f as [|c f IH]; intros z; cbn; [done|].
  case_if; [etrans; [apply IH|]; lia|done].
Qed.

Lemma read_width_le f : forall w, (length (snd (read_width f w)) <= length f)%nat.
Proof.
  induction f as [|c f IH]; intros w; cbn [read_width]; [done|].
  case_if; [etrans; [apply IH|]; simpl; lia|done].
Qed.

Lemma read_ls_le f : forall n, (length (snd (read_ls f n)) <= length f)%nat.
Proof.
  induction f as [|c f IH]; intros n; cbn [read_ls]; [done|].
  case_if; [etrans; [apply IH|]; simpl; lia|done].
Qed.

Lemma read_lng_le f : (length (snd (read_lng f)) <= length f)%nat.
Proof.
  unfold read_lng. pose proof (read_ls_le f 0) as H. destruct (read_ls f 0) as [n [|c g]];
    [done|]. cbn [snd] in H. case_if; cbn [snd length] in *; lia.
Qed.

(** Every turn takes something off the format. *)
Lemma fmt_turn_shorter c f args out f' args' :
  fmt_turn (c :: f) args = Some (out, f', args') -> (length f' <= length f)%nat.
Proof.
  unfold fmt_turn. case_if; [by intros [= <- <- <-]|].
  pose proof (skip_zeros_le f false) as H1.
  destruct (skip_zeros f false) as [zero f1]. cbn [snd] in H1.
  pose proof (read_width_le f1 0) as H2. destruct (read_width f1 0) as [width f2].
  cbn [snd] in H2. pose proof (read_lng_le f2) as H3. destruct (read_lng f2) as [lng [|d f3]].
  - intros [= <- <- <-]. simpl. lia.
  - destruct (conv d zero width lng args) as [[o a]|]; cbn; [|done].
    intros [= <- <- <-]. cbn [snd length] in *. lia.
Qed.

Lemma fmt_loop_renders fmt args out : renders fmt args out -> forall fuel o,
  (length fmt <= fuel)%nat -> fmt_loop fuel o fmt args = Some (foldl fmt_put o out).
Proof.
  induction 1 as [args|c f args out f' args' out' E Hr IH]; intros fuel o Hf.
  { by destruct fuel. }
  destruct fuel as [|fuel]; cbn [length] in Hf; [lia|].
  cbn [fmt_loop]. rewrite E. cbn [mbind option_bind]. rewrite foldl_app. apply IH.
  pose proof (fmt_turn_shorter _ _ _ _ _ _ E). lia.
Qed.

(** ** Putting into a buffer *)

Lemma put_buffer cap l : forall buf total,
  0 <= cap -> Z.of_nat (length buf) <= Z.max 0 (cap - 1) ->
  foldl fmt_put (Fmt buf cap total None) l =
  Fmt (take (Z.to_nat (cap - 1)) (buf ++ l)) cap (total + Z.of_nat (length l)) None.
Proof.
  induction l as [|c l IH]; intros buf total Hc Hb; cbn [foldl].
  { rewrite app_nil_r, Z.add_0_r, take_ge by lia. done. }
  unfold fmt_put at 2. cbn [f_buf f_cap f_total f_fd].
  destruct (Z.leb_spec cap (Z.of_nat (length buf) + 1)) as [Hle|Hgt].
  - rewrite IH by done.
    assert (T : forall k, take (Z.to_nat (cap - 1)) (buf ++ k) = buf).
    { intros k. destruct (decide (cap = 0)) as [->|Hne].
      - destruct buf; [done|]. simpl in Hb. lia.
      - replace (Z.to_nat (cap - 1)) with (length buf) by lia. apply take_app_length. }
    rewrite !T. f_equal. cbn [length]. lia.
  - rewrite IH; [|done|rewrite length_app; simpl; lia].
    rewrite <-app_assoc. cbn [app]. f_equal. cbn [length]. lia.
Qed.

(** ** Putting through a descriptor *)

(** Every write takes something, or was interrupted. *)
Definition reliable (k : sink) : Prop :=
  Forall (fun r => 0 < r \/ r = - CNG_EINTR) (k_ans k).

Lemma write_loop_reliable fuel : forall k p n,
  reliable k -> (length (k_ans k) + length p < fuel)%nat ->
  exists ans, write_loop fuel k p n = (n, Sink ans (k_got k ++ p)) /\
    reliable (Sink ans (k_got k ++ p)).
Proof.
  induction fuel as [|fuel IH]; intros k p n Hk Hf; [lia|].
  destruct p as [|c p]; cbn [write_loop].
  { exists (k_ans k). rewrite app_nil_r. by destruct k. }
  unfold sys_write. destruct k as [[|r ans] got]; cbn [k_ans k_got] in *.
  - rewrite (proj2 (Z.ltb_ge _ 0)) by lia. rewrite (proj2 (Z.eqb_neq _ 0)) by (simpl; lia).
    rewrite Nat2Z.id, drop_all. exists []. destruct fuel as [|fuel]; [simpl in Hf; lia|].
    done.
  - apply Forall_cons_1 in Hk as [Hr Hk]. set (q := c :: p) in *.
    assert (Hq : (0 < length q)%nat) by (simpl; lia). clearbody q. cbn [length] in Hf.
    destruct Hr as [Hr| ->].
    + set (t := Z.min r (Z.of_nat (length q))).
      rewrite (proj2 (Z.ltb_ge t 0)) by lia. rewrite (proj2 (Z.eqb_neq t 0)) by lia.
      destruct (IH (Sink ans (got ++ take (Z.to_nat t) q)) (drop (Z.to_nat t) q) n Hk)
        as (ans' & E & Hk'); [cbn; rewrite length_drop; lia|].
      cbn [k_got] in *. rewrite <-app_assoc, take_drop in E, Hk'. exists ans'. by rewrite E.
    + replace (Z.min (- CNG_EINTR) (Z.of_nat (length q))) with (- CNG_EINTR)
        by (unfold CNG_EINTR; lia). cbn [Z.ltb Z.eqb].
      destruct (IH (Sink ans (got ++ take (Z.to_nat (- CNG_EINTR)) q)) q n Hk)
        as (ans' & E & Hk'); [cbn; lia|].
      cbn [k_got] in *. change (take _ q) with (@nil ascii) in *. rewrite app_nil_r in *.
      exists ans'. by rewrite E.
Qed.

Lemma write_all_reliable k p :
  reliable k -> exists ans,
  cng_write_all k p = (Z.of_nat (length p), Sink ans (k_got k ++ p)) /\
  reliable (Sink ans (k_got k ++ p)).
Proof. intros Hk. apply write_loop_reliable; [done|lia]. Qed.

(** What has been put is at the sink or still in the window. *)
Definition holds (f : cng_fmt) (all : cstr) : Prop :=
  exists k, f_fd f = Some k /\ reliable k /\ k_got k ++ f_buf f = all.

Lemma flush_holds f all : holds f all -> holds (fmt_flush f) all /\ f_buf (fmt_flush f) = [].
Proof.
  intros (k & Ek & Hk & Hall). unfold fmt_flush. rewrite Ek.
  destruct (Nat.eqb_spec (length (f_buf f)) 0) as [E|E].
  - apply nil_length_inv in E. split; [|done]. by exists k.
  - destruct (write_all_reliable k (f_buf f) Hk) as (ans & -> & Hk'). split; [|done].
    exists (Sink ans (k_got k ++ f_buf f)). cbn. by rewrite app_nil_r.
Qed.

Lemma put_holds l : forall f all, holds f all -> holds (foldl fmt_put f l) (all ++ l).
Proof.
  induction l as [|c l IH]; intros f all Hf; cbn [foldl]; [by rewrite app_nil_r|].
  assert (P : forall g a, holds g a ->
    holds (Fmt (f_buf g ++ [c]) (f_cap g) (f_total g) (f_fd g)) (a ++ [c])).
  { intros g a (k & Ek & Hk & <-). exists k. cbn. by rewrite app_assoc. }
  replace (all ++ c :: l) with ((all ++ [c]) ++ l) by (by rewrite <-app_assoc).
  apply IH. unfold fmt_put.
  set (g := Fmt (f_buf f) (f_cap f) (f_total f + 1) (f_fd f)).
  assert (Hg : holds g all) by done. clearbody g. case_if; [|by apply P].
  destruct (f_fd g) eqn:Eg; [|destruct Hg as (k & Ek & _); congruence].
  apply P. by apply flush_holds.
Qed.

(** ** Numbers *)

(** The value of a digit and of a run of digits, the highest first. *)
Fixpoint pos (c : ascii) (dig : cstr) : Z :=
  match dig with
  | [] => 0
  | d :: dig => if Ascii.eqb d c then 0 else 1 + pos c dig
  end.

Definition value (dig : cstr) (base : Z) (l : cstr) : Z :=
  foldl (fun v c => v * base + pos c dig) 0 l.

Definition digit_set (dig : cstr) : Prop := dig = lower_digits \/ dig = upper_digits.

Lemma pos_digit dig i :
  digit_set dig -> 0 <= i < 16 -> pos (default "0"%char (dig !! Z.to_nat i)) dig = i.
Proof.
  intros Hd Hi. apply Z.eqb_eq.
  assert (H : forallb (fun i => pos (default "0"%char (dig !! Z.to_nat i)) dig =? i) (seqZ 0 16)
    = true) by (destruct Hd as [->| ->]; vm_compute; reflexivity).
  rewrite forallb_forall in H. apply H, list_elem_of_In, elem_of_seqZ. lia.
Qed.

Lemma digits_loop_value dig base fuel : digit_set dig -> 1 < base <= 16 -> forall uv,
  0 <= uv < base ^ Z.of_nat fuel ->
  foldr (fun c v => v * base + pos c dig) 0 (digits_loop fuel dig base uv) = uv.
Proof.
  intros Hd Hb. induction fuel as [|fuel IH]; intros uv Hu; cbn [digits_loop].
  { change (base ^ Z.of_nat 0) with 1 in Hu. simpl. lia. }
  destruct (Z.eqb_spec uv 0) as [->|Hne]; [done|]. cbn [foldr].
  pose proof (Z.mod_pos_bound uv base ltac:(lia)).
  rewrite pos_digit by (done || lia).
  rewrite IH. { rewrite (Z.div_mod uv base) at 3 by lia. lia. }
  rewrite Nat2Z.inj_succ, Z.pow_succ_r in Hu by lia.
  split; [apply Z.div_pos; lia|]. apply Z.div_lt_upper_bound; lia.
Qed.

Lemma foldl_rev {A B} (g : B -> A -> B) l : forall z,
  foldl g z (rev l) = foldr (fun c v => g v c) z l.
Proof.
  induction l as [|x l IH]; intros z; [done|]. cbn [rev foldr]. by rewrite foldl_app, IH.
Qed.

Lemma digits_value dig base uv :
  digit_set dig -> 8 <= base <= 16 -> 0 <= uv < 2 ^ 64 ->
  value dig base (digits dig base uv) = uv.
Proof.
  intros Hd Hb Hu. unfold digits, value. destruct (Z.eqb_spec uv 0) as [->|Hne].
  { by destruct Hd as [->| ->]. }
  rewrite foldl_rev. apply digits_loop_value; [done|lia|]. split; [lia|].
  apply Z.lt_le_trans with (2 ^ Z.of_nat 64); [by apply Hu|]. apply Z.pow_le_mono_l. lia.
Qed.

(** A number below 8^k has at most [k] digits in any base from 8 on. *)
Lemma digits_loop_short dig base : 8 <= base -> forall k fuel u,
  0 <= u < 8 ^ Z.of_nat k -> (length (digits_loop fuel dig base u) <= k)%nat.
Proof.
  intros Hb. induction k as [|k IH]; intros [|fuel] u H; cbn [digits_loop length]; try lia.
  - change (8 ^ Z.of_nat 0) with 1 in H. by rewrite (proj2 (Z.eqb_eq u 0)) by lia.
  - case_if; cbn [length]; [lia|]. apply le_n_S, IH.
    rewrite Nat2Z.inj_succ, Z.pow_succ_r in H by lia.
    split; [apply Z.div_pos; lia|].
    apply Z.le_lt_trans with (u / 8); [apply Z.div_le_compat_l; lia|].
    apply Z.div_lt_upper_bound; lia.
Qed.

Lemma digits_short dig base k uv :
  8 <= base -> 0 <= uv < 8 ^ Z.of_nat (S k) -> (length (digits dig base uv) <= S k)%nat.
Proof.
  intros Hb Hu. unfold digits. destruct (Z.eqb_spec uv 0) as [->|Hne]; [simpl; lia|].
  rewrite length_rev. by apply digits_loop_short.
Qed.

(** 22 digits are enough for 64 bits, and [t] has 24. *)
Lemma digits_length dig base uv :
  8 <= base -> 0 <= uv < 2 ^ 64 -> (1 <= length (digits dig base uv) <= 22)%nat.
Proof.
  intros Hb Hu. split; [|apply digits_short; [done|]; change (8 ^ Z.of_nat 22) with (2 ^ 66); lia].
  unfold digits. destruct (Z.eqb_spec uv 0) as [->|Hne]; [simpl; lia|].
  rewrite length_rev. cbn [digits_loop]. rewrite (proj2 (Z.eqb_neq uv 0) Hne). cbn [length]. lia.
Qed.

Definition is_space (c : ascii) : bool := Ascii.eqb c " ".

Lemma digits_chars dig base uv :
  digit_set dig -> Forall (fun c => is_space c = false /\ c <> "-"%char) (digits dig base uv).
Proof.
  intros Hd. assert (C : forall i, is_space (default "0"%char (dig !! i)) = false /\
    default "0"%char (dig !! i) <> "-"%char).
  { intros i. destruct (dig !! i) as [c|] eqn:E; [|done]. cbn [default].
    apply list_elem_of_lookup_2 in E.
    assert (H : Forall (fun c => is_space c = false /\ c <> "-"%char) dig)
      by (destruct Hd as [->| ->]; repeat (constructor; [done|]); constructor).
    rewrite Forall_forall in H. by apply H. }
  unfold digits. case_if; [constructor; [done|constructor]|]. apply Forall_rev.
  generalize 64%nat. intros fuel. revert uv Eif. induction fuel as [|fuel IH]; intros uv _;
    cbn [digits_loop]; [constructor|]. case_if; [constructor|]. constructor; [apply C|].
  destruct (Z.eqb_spec (uv / base) 0) as [E|E]; [|apply IH; by apply Z.eqb_neq].
  rewrite E. by destruct fuel.
Qed.

(** Reading a number back: blanks, a sign, digits. *)
Definition read_nat (dig : cstr) (base : Z) (l : cstr) : Z :=
  value dig base (drop_while is_space l).

Definition read_int (l : cstr) : Z :=
  match drop_while is_space l with
  | c :: t => if Ascii.eqb c "-" then - value lower_digits 10 t
              else value lower_digits 10 (c :: t)
  | [] => 0
  end.

Lemma value_zeros dig base n t :
  digit_set dig -> value dig base (replicate n "0"%char ++ t) = value dig base t.
Proof.
  intros Hd. unfold value. rewrite foldl_app. f_equal. induction n as [|n IH]; [done|].
  cbn [replicate foldl]. by destruct Hd as [->| ->].
Qed.

Lemma drop_blanks n t :
  (forall c t', t = c :: t' -> is_space c = false) ->
  drop_while is_space (replicate n " "%char ++ t) = t.
Proof.
  intros H. rewrite drop_while_app by (apply Forall_replicate; done).
  destruct t as [|c t]; [done|]. cbn. by rewrite (H c t eq_refl).
Qed.

Lemma head_digits dig base uv :
  digit_set dig -> 8 <= base -> 0 <= uv < 2 ^ 64 ->
  exists c t, digits dig base uv = c :: t /\ is_space c = false /\ Ascii.eqb c "-" = false.
Proof.
  intros Hd Hb Hu. pose proof (digits_length dig base uv Hb Hu) as Hl.
  pose proof (digits_chars dig base uv Hd) as Hc.
  destruct (digits dig base uv) as [|c t]; [simpl in Hl; lia|]. exists c, t.
  apply Forall_cons_1 in Hc as [[H1 H2] _]. split; [done|]. split; [done|].
  by apply Ascii.eqb_neq.
Qed.

Lemma length_pad zero width have :
  Z.of_nat (length (pad zero width have)) = Z.max 0 (width - have).
Proof. unfold pad. rewrite length_replicate. lia. Qed.

Lemma read_int_signed n (neg : bool) c t :
  is_space c = false -> Ascii.eqb c "-" = false ->
  read_int (replicate n " "%char ++ (if neg then "-"%char :: c :: t else c :: t)) =
  if neg then - value lower_digits 10 (c :: t) else value lower_digits 10 (c :: t).
Proof.
  intros H1 H2. unfold read_int. rewrite drop_blanks.
  - destruct neg; [done|]. by rewrite H2.
  - intros d t'. destruct neg; intros [= <- _]; done.
Qed.

Lemma fmt_d_reads zero width lng z :
  let v := if negb (lng =? 0) then s64 z else s32 z in
  read_int (fmt_d zero width lng z) = v /\ width <= Z.of_nat (length (fmt_d zero width lng z)).
Proof.
  intros v. assert (Hv : - 2 ^ 63 <= v < 2 ^ 63).
  { unfold v, wraps. pose proof (Z.mod_pos_bound (z + 2 ^ (64 - 1)) (2 ^ 64) ltac:(lia)).
    pose proof (Z.mod_pos_bound (z + 2 ^ (32 - 1)) (2 ^ 32) ltac:(lia)).
    destruct (negb (lng =? 0)); lia. }
  unfold fmt_d. fold v. set (neg := v <? 0). set (uv := if neg then u64 (- v) else v).
  assert (Hu : uv = Z.abs v).
  { unfold uv, neg. destruct (Z.ltb_spec v 0); [rewrite wrapu_small|]; lia. }
  destruct (head_digits lower_digits 10 uv (or_introl eq_refl)) as (c & t & Et & H1 & H2);
    [lia|lia|].
  assert (Hval : value lower_digits 10 (c :: t) = uv).
  { rewrite <-Et. apply digits_value; [by left|lia|lia]. }
  rewrite Et. set (have := Z.of_nat (length (c :: t)) + Z.of_nat (length _)).
  assert (Hsgn : (if neg then - uv else uv) = v).
  { rewrite Hu. unfold neg. destruct (Z.ltb_spec v 0); lia. }
  pose proof (length_pad zero width have) as Hp.
  destruct zero; (split; [|rewrite !length_app; unfold have in *; lia]).
  - unfold pad. set (n := Z.to_nat _).
    assert (Hh : exists d u, replicate n "0"%char ++ c :: t = d :: u /\ is_space d = false /\
      Ascii.eqb d "-" = false) by (destruct n as [|n]; cbn; eauto 10).
    destruct Hh as (d & u & Ed & Hd1 & Hd2). rewrite Ed.
    assert (Hvd : value lower_digits 10 (d :: u) = uv)
      by (rewrite <-Ed, value_zeros; [done|by left]).
    pose proof (read_int_signed 0 neg d u Hd1 Hd2) as R. rewrite Hvd, Hsgn in R.
    by destruct neg.
  - unfold pad. pose proof (read_int_signed (Z.to_nat (width - have)) neg c t H1 H2) as R.
    rewrite Hval, Hsgn in R. by destruct neg.
Qed.

(** The base and the digits of an unsigned conversion. *)
Definition ubase (c : ascii) : Z :=
  if Ascii.eqb c "o" then 8 else if Ascii.eqb c "x" || Ascii.eqb c "X" then 16 else 10.
Definition udigits (c : ascii) : cstr :=
  if Ascii.eqb c "X" then upper_digits else lower_digits.

Lemma fmt_u_reads c zero width lng z :
  Ascii.eqb c "p" = false ->
  let uv := if negb (lng =? 0) then u64 z else u32 z in
  read_nat (udigits c) (ubase c) (fmt_u c zero width lng z) = uv /\
  width <= Z.of_nat (length (fmt_u c zero width lng z)).
Proof.
  intros Hp uv. assert (Hu : 0 <= uv < 2 ^ 64).
  { unfold uv. pose proof (wrapu_range 64 z ltac:(lia)). pose proof (wrapu_range 32 z ltac:(lia)).
    destruct (negb (lng =? 0)); lia. }
  assert (Hd : digit_set (udigits c)) by (unfold digit_set, udigits; case_if; auto).
  assert (Hb : 8 <= ubase c <= 16) by (unfold ubase; repeat case_if; lia).
  unfold fmt_u. rewrite Hp. fold (ubase c) (udigits c) uv.
  destruct (head_digits (udigits c) (ubase c) uv Hd) as (d & t & Et & H1 & H2); [lia|lia|].
  pose proof (digits_value (udigits c) (ubase c) uv Hd Hb Hu) as Hval. rewrite Et in *.
  pose proof (length_pad zero width (Z.of_nat (length (d :: t)))) as Hl.
  split; [|rewrite length_app; lia]. unfold read_nat, pad. destruct zero.
  - transitivity (value (udigits c) (ubase c) (d :: t)); [|done]. set (n := Z.to_nat _). clearbody n.
    etransitivity; [|apply (value_zeros (udigits c) (ubase c) n (d :: t) Hd)]. f_equal.
    destruct n as [|n]; cbn [replicate app drop_while]; [by rewrite H1|reflexivity].
  - rewrite drop_blanks; [done|]. by intros e t' [= <- _].
Qed.

(** ** The formatter's claims *)


