(* ===== verification/Elf.v ===== *)
(** * The ELF loader (src/src/loader/elf.c)

    The header pass, which reads and validates and maps nothing, and the map
    pass in its two strategies.  A file is its bytes.  What the map pass asks of
    the kernel is a trace of [mop]s, in order; what the kernel answers, and the
    other inputs of a load, are [lhost].  [cng_g_loader_file], the one global the
    loader writes, is passed along as [lf].  A result of [None] is the
    rewriter's fuel running out, which [ElfProps] shows not to happen. *)

From stdpp Require Import base list numbers.
From Stdlib Require Import ZArith Lia.
From S2P Require Import Prelude Page Rewrite Ownmap.

Open Scope Z_scope.

(** ** Constants and headers *)

Definition CNG_LOAD_OK := 0.
Definition CNG_LOAD_EFORMAT := -2.
Definition CNG_LOAD_EIO := -3.
Definition CNG_LOAD_EMAP := -4.
Definition CNG_LOAD_ETOOBIG := -5.
Definition CNG_LOAD_EEXEC := -6.
Definition CNG_LOAD_EACCES := -7.
Definition CNG_LOAD_ECLOBBER := -8.
Definition CNG_LOAD_EINTERP := -9.
Definition CNG_LOAD_EINVAL := -10.

Definition PT_LOAD := 1.
Definition PT_INTERP := 3.
Definition PF_X := 1.
Definition PF_W := 2.
Definition PF_R := 4.
Definition ET_EXEC := 2.
Definition ET_DYN := 3.
Definition EM_AARCH64 := 183.
Definition PROT_READ := 1.
Definition PROT_WRITE := 2.
Definition PROT_EXEC := 4.
Definition CNG_MAX_PHDR := 64.
Definition CNG_TRAMP_POOL := 0x80000.
Definition INTERP_SIZE := 256. (* sizeof out->interp *)
Definition CNG_LOAD_COPIED : nat := 8.
Definition L_EACCES := 13.

(** The fields the loader reads. *)
Record Elf64_Phdr := Phdr {
  p_type : Z; p_flags : Z; p_offset : Z; p_vaddr : Z; p_filesz : Z; p_memsz : Z }.

Record Elf64_Ehdr := Ehdr {
  e_type : Z; e_entry : Z; e_phoff : Z; e_phentsize : Z; e_phnum : Z }.

Definition phdr_at (buf : list Z) (j : nat) : Elf64_Phdr :=
  let b := (56 * j)%nat in
  Phdr (le_at buf b 4) (le_at buf (b + 4) 4) (le_at buf (b + 8) 8) (le_at buf (b + 16) 8)
    (le_at buf (b + 32) 8) (le_at buf (b + 40) 8).

Definition ehdr_of (buf : list Z) : Elf64_Ehdr :=
  Ehdr (le_at buf 16 2) (le_at buf 24 8) (le_at buf 32 8) (le_at buf 54 2) (le_at buf 56 2).

(** The identification and machine checks. *)
Definition ident_ok (buf : list Z) : bool :=
  (le_at buf 0 1 =? 0x7f) && (le_at buf 1 1 =? 69) && (le_at buf 2 1 =? 76)
  && (le_at buf 3 1 =? 70) && (le_at buf 4 1 =? 2) && (le_at buf 5 1 =? 1)
  && (le_at buf 18 2 =? EM_AARCH64)
  && ((le_at buf 16 2 =? ET_DYN) || (le_at buf 16 2 =? ET_EXEC)).

(** [(p_offset ^ p_vaddr) & (cng_page_size - 1)], zero. *)
Definition congruent (pg off v : Z) : bool := Z.land (Z.lxor off v) (pg - 1) =? 0.

(** ** The kernel and the settings *)

(** One load's inputs: the page size, -R with its trampoline, the monitor's own
    memory as the header pass and as the map pass finds it, and the kernel's
    answers: the file's mode, whether anonymous memory may be made executable
    when segment [i] asks (the probe does nothing where it has no memory), the
    address of the reservation of the anonymous strategy or of the file-backed
    one, whether the [i]th mapping after it succeeds, and the [i]th mprotect. *)
Record lhost := LHost {
  h_page : Z;
  h_rewrite : bool;
  h_tramp : tramp;
  h_mon_plan : monitor;
  h_mon : monitor;
  h_mode : option Z; (* st_mode, where newfstatat answers *)
  h_probe : nat -> bool;
  h_reserve : bool -> option Z;
  h_map : nat -> bool;
  h_mprotect : nat -> Z }.

Inductive mop :=
  | OpReserve (addr len : Z)                  (* the span and the pool *)
  | OpRead (dst len off : Z)                  (* file bytes read into memory *)
  | OpRewrite (lo hi pool cap : Z)            (* one segment to the rewriter *)
  | OpProtect (addr len prot : Z)
  | OpMapFile (addr len prot off : Z)
  | OpMapAnon (addr len prot : Z)
  | OpZero (addr len : Z)
  | OpUnmap (addr len : Z).

Section Load.
Context (H : lhost).
Notation pg := (h_page H).

(** ** The header pass *)

Record hdr_st := HdrSt {
  s_lo : Z; s_hi : Z; s_nload : nat; s_file_ok : bool; s_interp : option (list Z) }.

Definition pool_len : Z := if h_rewrite H then CNG_TRAMP_POOL else 0.

(** One program header's turn: a refusal, or the state after it. *)
Definition scan_phdr (f : list Z) (i : nat) (p : Elf64_Phdr) (lf : bool) (st : hdr_st)
    : (Z + hdr_st) * bool :=
  let interp :=
    if p_type p =? PT_INTERP then
      if (p_filesz p <? 2) || (INTERP_SIZE <? p_filesz p) then inl CNG_LOAD_ETOOBIG
      else match pread_all f (p_filesz p) (s64 (p_offset p)) with
      | None => inl CNG_LOAD_EINTERP
      | Some s =>
          if negb (default 0 (s !! pred (length s)) =? 0) then inl CNG_LOAD_EFORMAT
          else inr (Some s)
      end
    else inr (s_interp st) in
  match interp with
  | inl rc => (inl rc, lf)
  | inr interp =>
      let st := HdrSt (s_lo st) (s_hi st) (s_nload st) (s_file_ok st) interp in
      if negb (p_type p =? PT_LOAD) then (inr st, lf)
      else if p_memsz p <? p_filesz p then (inl CNG_LOAD_EINVAL, lf)
      else
        let bad := negb (p_filesz p =? 0) && negb (congruent pg (p_offset p) (p_vaddr p)) in
        let lf := if bad && negb lf then negb (h_probe H i) else lf in
        if bad && lf then (inl CNG_LOAD_EINVAL, lf)
        else match cng_page_end pg (p_vaddr p) (p_memsz p) with
        | None => (inl CNG_LOAD_EFORMAT, lf)
        | Some e =>
            let s := cng_page_down pg (p_vaddr p) in
            (inr (HdrSt (if s <? s_lo st then s else s_lo st)
                    (if s_hi st <? e then e else s_hi st)
                    (S (s_nload st)) (s_file_ok st && negb bad) (s_interp st)), lf)
        end
  end.

Fixpoint scan_phdrs (f : list Z) (i : nat) (ps : list Elf64_Phdr) (lf : bool) (st : hdr_st)
    : (Z + hdr_st) * bool :=
  match ps with
  | [] => (inr st, lf)
  | p :: ps =>
      match scan_phdr f i p lf st with
      | (inl rc, lf) => (inl rc, lf)
      | (inr st, lf) => scan_phdrs f (S i) ps lf st
      end
  end.

Record cng_elf_plan := Plan {
  pl_eh : Elf64_Ehdr;
  pl_ph : list Elf64_Phdr;
  pl_lo : Z; pl_hi : Z;
  pl_is_dyn : bool;
  pl_file_ok : bool;
  pl_interp : option (list Z) }.

Definition elf_read_headers (f : list Z) (lf : bool) : (Z + cng_elf_plan) * bool :=
  match pread_all f 64 0 with
  | None => (inl CNG_LOAD_EIO, lf)
  | Some buf =>
      let eh := ehdr_of buf in
      if negb (ident_ok buf) then (inl CNG_LOAD_EFORMAT, lf)
      else if (e_phnum eh =? 0) || (CNG_MAX_PHDR <? e_phnum eh) || negb (e_phentsize eh =? 56)
      then (inl CNG_LOAD_ETOOBIG, lf)
      else match pread_all f (e_phnum eh * 56) (s64 (e_phoff eh)) with
      | None => (inl CNG_LOAD_EIO, lf)
      | Some pb =>
          let ph := map (phdr_at pb) (seq 0 (Z.to_nat (e_phnum eh))) in
          match scan_phdrs f 0 ph lf (HdrSt (2 ^ 64 - 1) 0 0 true None) with
          | (inl rc, lf) => (inl rc, lf)
          | (inr st, lf) =>
              if (s_nload st =? 0)%nat then (inl CNG_LOAD_EFORMAT, lf)
              else if 2 ^ 64 - 1 - CNG_TRAMP_POOL <? u64 (s_hi st - s_lo st)
              then (inl CNG_LOAD_EFORMAT, lf)
              else if (e_type eh =? ET_EXEC)
                      && cng_hits_monitor pg (h_mon_plan H) (s_lo st) (u64 (s_hi st - s_lo st + pool_len))
              then (inl CNG_LOAD_ECLOBBER, lf)
              else (inr (Plan eh ph (s_lo st) (s_hi st) (e_type eh =? ET_DYN)
                           (s_file_ok st) (s_interp st)), lf)
          end
      end
  end.

Definition elf_check_execable : Z :=
  match h_mode H with
  | None => CNG_LOAD_EACCES
  | Some mode =>
      if negb (Z.land mode 0xF000 =? 0x8000) || (Z.land mode 0x49 =? 0)
      then CNG_LOAD_EACCES else CNG_LOAD_OK
  end.

Definition cng_elf_plan_fd (f : list Z) (lf : bool) : (Z + cng_elf_plan) * bool :=
  if elf_check_execable =? CNG_LOAD_OK then elf_read_headers f lf
  else (inl elf_check_execable, lf).

(** ** The anonymous strategy *)

Definition prot_of (pf : Z) : Z :=
  Z.lor (Z.lor (if Z.land pf PF_R =? 0 then 0 else PROT_READ)
               (if Z.land pf PF_W =? 0 then 0 else PROT_WRITE))
        (if Z.land pf PF_X =? 0 then 0 else PROT_EXEC).

Definition is_load (p : Elf64_Phdr) : bool := p_type p =? PT_LOAD.

Definition seg_lo (bias : Z) (p : Elf64_Phdr) : Z := cng_page_down pg (u64 (bias + p_vaddr p)).
Definition seg_hi (bias : Z) (p : Elf64_Phdr) : Z :=
  cng_page_up pg (u64 (bias + p_vaddr p + p_memsz p)).

(** The file parts into memory: the operations, and whether all could be read. *)
Fixpoint read_segs (f : list Z) (bias : Z) (ps : list Elf64_Phdr) : list mop * bool :=
  match ps with
  | [] => ([], true)
  | p :: ps =>
      if negb (is_load p) || (p_filesz p =? 0) then read_segs f bias ps
      else
        let op := OpRead (u64 (bias + p_vaddr p)) (p_filesz p) (s64 (p_offset p)) in
        match pread_all f (p_filesz p) (s64 (p_offset p)) with
        | None => ([op], false)
        | Some _ => let '(ops, ok) := read_segs f bias ps in (op :: ops, ok)
        end
  end.

(** The bytes the reads left in the reservation, the last reader of a byte
    winning, and its words. *)
Definition image_byte (f : list Z) (bias : Z) (ps : list Elf64_Phdr) (a : Z) : Z :=
  fold_left (fun acc p =>
    let v := u64 (bias + p_vaddr p) in
    if is_load p && (v <=? a) && (a <? v + p_filesz p)
    then default 0 (f !! Z.to_nat (s64 (p_offset p) + (a - v))) else acc) ps 0.

Definition image (f : list Z) (bias : Z) (ps : list Elf64_Phdr) : wmem :=
  fun a => foldr (fun i acc => image_byte f bias ps (a + i) + 256 * acc) 0 [0; 1; 2; 3].

(** The executable segments to the rewriter, one after the other: the calls and
    its state; [None] is its fuel running out. *)
Fixpoint rewrite_segs (bias pool : Z) (cr : code_ranges) (ps : list Elf64_Phdr)
    (st : scan_st) : list mop * option scan_st :=
  match ps with
  | [] => ([], Some st)
  | p :: ps =>
      if is_load p && negb (Z.land (p_flags p) PF_X =? 0) then
        let lo := u64 (bias + p_vaddr p) in
        let hi := u64 (bias + p_vaddr p + p_filesz p) in
        let op := OpRewrite lo hi pool CNG_TRAMP_POOL in
        match cng_rewrite_seg (h_tramp H) (h_rewrite H) lo hi (p_offset p) cr pool
                CNG_TRAMP_POOL st with
        | None => ([op], None)
        | Some st =>
            let '(ops, r) := rewrite_segs bias pool cr ps st in (op :: ops, r)
        end
      else rewrite_segs bias pool cr ps st
  end.

(** With -R: the rewriting, and the pool made executable as far as it is used. *)
Definition rewrite_pass (f : list Z) (bias pool : Z) (ps : list Elf64_Phdr)
    : option (list mop) :=
  if negb (h_rewrite H) then Some []
  else
    let '(ops, r) := rewrite_segs bias pool (cng_code_ranges (Some f)) ps
                       (ScanSt (image f bias ps) 0 0) in
    st ← r;
    Some (ops ++ (if sc_used st =? 0 then []
                  else [OpProtect pool (cng_page_up pg (sc_used st))
                          (Z.lor PROT_READ PROT_EXEC)])).

(** An edge into the sorted array, once. *)
Fixpoint edge_insert (e : Z) (edges : list Z) : list Z :=
  match edges with
  | [] => [e]
  | x :: edges' =>
      if x <? e then x :: edge_insert e edges'
      else if x =? e then edges
      else e :: edges
  end.

Definition edges_of (bias : Z) (ps : list Elf64_Phdr) : list Z :=
  fold_left (fun es p =>
    if is_load p then edge_insert (seg_hi bias p) (edge_insert (seg_lo bias p) es) else es)
    ps [].

(** The protection of the run [lo, hi) between two edges; [None] for a gap. *)
Definition run_prot (bias : Z) (ps : list Elf64_Phdr) (lo hi : Z) : option Z :=
  fold_left (fun acc p =>
    if is_load p && (seg_lo bias p <=? lo) && (hi <=? seg_hi bias p)
    then Some (Z.lor (default 0 acc) (prot_of (p_flags p))) else acc) ps None.

(** The runs in order, up to an mprotect the kernel refuses. *)
Fixpoint protect_runs (bias : Z) (ps : list Elf64_Phdr) (edges : list Z) (k : nat)
    : list mop * option Z :=
  match edges with
  | lo :: ((hi :: _) as edges') =>
      match run_prot bias ps lo hi with
      | None => protect_runs bias ps edges' k
      | Some prot =>
          let op := OpProtect lo (hi - lo) prot in
          let mr := h_mprotect H k in
          if mr <? 0 then
            ([op], Some (if (mr =? - L_EACCES) && negb (Z.land prot PROT_EXEC =? 0)
                         then CNG_LOAD_EEXEC else CNG_LOAD_EMAP))
          else let '(ops, rc) := protect_runs bias ps edges' (S k) in (op :: ops, rc)
      end
  | _ => ([], None)
  end.

(** The result: a code, the bias, the length of the mapping and the trace. *)
Record mapped_as := Mapped { m_rc : Z; m_bias : Z; m_len : Z; m_ops : list mop }.

Definition map_anon (f : list Z) (pl : cng_elf_plan) : option mapped_as :=
  let span := u64 (pl_hi pl - pl_lo pl) in
  let len := u64 (span + pool_len) in
  match h_reserve H true with
  | None => Some (Mapped CNG_LOAD_EMAP 0 len [])
  | Some seg =>
      let bias := if pl_is_dyn pl then u64 (seg - pl_lo pl) else 0 in
      let pre := [OpReserve seg len] in
      let '(reads, ok) := read_segs f bias (pl_ph pl) in
      if negb ok then Some (Mapped CNG_LOAD_EIO 0 len (pre ++ reads ++ [OpUnmap seg len]))
      else
        rw ← rewrite_pass f bias (u64 (seg + span)) (pl_ph pl);
        let '(prots, rc) := protect_runs bias (pl_ph pl) (edges_of bias (pl_ph pl)) 0 in
        match rc with
        | Some rc => Some (Mapped rc 0 len (pre ++ reads ++ rw ++ prots ++ [OpUnmap seg len]))
        | None => Some (Mapped CNG_LOAD_OK bias len (pre ++ reads ++ rw ++ prots))
        end
  end.

(** ** The file-backed strategy *)

(** The file part of a segment, from the mapping numbered [k] on; [None] where
    the kernel or the geometry refuses, with what was done up to there. *)
Definition map_file_part (bias : Z) (p : Elf64_Phdr) (k : nat) : list mop * option nat :=
  let prot := prot_of (p_flags p) in
  let vstart := u64 (bias + p_vaddr p) in
  let vpage := cng_page_down pg vstart in
  let fileend := u64 (vstart + p_filesz p) in
  if p_filesz p =? 0 then ([], Some k)
  else if negb (congruent pg (p_offset p) vstart) then ([], None)
  else
    let len := u64 (cng_page_up pg fileend - vpage) in
    let op := OpMapFile vpage len prot (s64 (p_offset p - (vstart - vpage))) in
    if negb (h_map H k) then ([op], None)
    else
      let pend := cng_page_up pg fileend in
      (op :: (if (p_filesz p <? p_memsz p) && negb (Z.land prot PROT_WRITE =? 0)
                 && (fileend <? pend)
              then [OpZero fileend (pend - fileend)] else []), Some (S k)).

(** The pages past it. *)
Definition map_bss (bias : Z) (p : Elf64_Phdr) (k : nat) : list mop * option nat :=
  let vstart := u64 (bias + p_vaddr p) in
  let fileend := u64 (vstart + p_filesz p) in
  let bss_lo := if p_filesz p =? 0 then cng_page_down pg vstart else cng_page_up pg fileend in
  let bss_hi := cng_page_up pg (u64 (vstart + p_memsz p)) in
  if bss_lo <? bss_hi then
    ([OpMapAnon bss_lo (bss_hi - bss_lo) (prot_of (p_flags p))],
     if h_map H k then Some (S k) else None)
  else ([], Some k).

Definition map_file_seg (bias : Z) (p : Elf64_Phdr) (k : nat) : list mop * option nat :=
  match map_file_part bias p k with
  | (ops, None) => (ops, None)
  | (ops, Some k) => let '(ops', r) := map_bss bias p k in (ops ++ ops', r)
  end.

Fixpoint map_file_segs (bias : Z) (ps : list Elf64_Phdr) (k : nat) : list mop * bool :=
  match ps with
  | [] => ([], true)
  | p :: ps =>
      if negb (is_load p) then map_file_segs bias ps k
      else match map_file_seg bias p k with
      | (ops, None) => (ops, false)
      | (ops, Some k) => let '(ops', ok) := map_file_segs bias ps k in (ops ++ ops', ok)
      end
  end.

Definition map_file (pl : cng_elf_plan) : mapped_as :=
  let span := u64 (pl_hi pl - pl_lo pl) in
  match h_reserve H false with
  | None => Mapped CNG_LOAD_EMAP 0 span []
  | Some base =>
      let bias := if pl_is_dyn pl then u64 (base - pl_lo pl) else 0 in
      let '(ops, ok) := map_file_segs bias (pl_ph pl) 0 in
      if ok then Mapped CNG_LOAD_OK bias span (OpReserve base span :: ops)
      else Mapped CNG_LOAD_EMAP 0 span (OpReserve base span :: ops ++ [OpUnmap base span])
  end.

(** ** The map pass *)

Record cng_loaded := Loaded {
  ld_entry : Z; ld_phdr : Z; ld_phent : Z; ld_phnum : Z; ld_base : Z;
  ld_load_lo : Z; ld_load_hi : Z; ld_map_lo : Z; ld_map_len : Z;
  ld_copied : list (Z * Z);
  ld_is_dyn : bool;
  ld_interp : option (list Z) }.

(** The program headers' address, in the segment that holds them. *)
Fixpoint phdr_addr (bias phoff : Z) (ps : list Elf64_Phdr) : Z :=
  match ps with
  | [] => 0
  | p :: ps =>
      if is_load p && (p_offset p <=? phoff) && (phoff <? u64 (p_offset p + p_filesz p))
      then u64 (bias + p_vaddr p + (phoff - p_offset p))
      else phdr_addr bias phoff ps
  end.

Definition copied_ranges (bias : Z) (ps : list Elf64_Phdr) : list (Z * Z) :=
  take CNG_LOAD_COPIED (flat_map (fun p =>
    if is_load p && negb (p_filesz p =? 0)
    then [(cng_page_down pg (u64 (bias + p_vaddr p)),
           cng_page_up pg (u64 (bias + p_vaddr p + p_filesz p)))]
    else []) ps).

Definition loaded (pl : cng_elf_plan) (anon : bool) (m : mapped_as) : cng_loaded :=
  let bias := m_bias m in
  let pa := phdr_addr bias (e_phoff (pl_eh pl)) (pl_ph pl) in
  Loaded (u64 (bias + e_entry (pl_eh pl)))
    (if pa =? 0 then u64 (bias + pl_lo pl + e_phoff (pl_eh pl)) else pa)
    (e_phentsize (pl_eh pl)) (e_phnum (pl_eh pl)) bias
    (u64 (bias + pl_lo pl)) (u64 (bias + pl_hi pl)) (u64 (bias + pl_lo pl)) (m_len m)
    (if anon then copied_ranges bias (pl_ph pl) else [])
    (pl_is_dyn pl) (pl_interp pl).

(** The code or what was loaded, the trace, and the strategy from here on. *)
Definition cng_elf_map (f : list Z) (pl : cng_elf_plan) (lf : bool)
    : option ((Z + cng_loaded) * list mop * bool) :=
  if lf && negb (pl_file_ok pl) then Some (inl CNG_LOAD_EINVAL, [], lf)
  else if negb (pl_is_dyn pl)
          && cng_hits_monitor pg (h_mon H) (pl_lo pl)
               (u64 (u64 (pl_hi pl - pl_lo pl) + pool_len))
  then Some (inl CNG_LOAD_ECLOBBER, [], lf)
  else
    m ← (if lf then Some (map_file pl) else map_anon f pl);
    let '(m, ops, anon, lf) :=
      if m_rc m =? CNG_LOAD_EEXEC then
        if negb (pl_file_ok pl) then (Mapped CNG_LOAD_EINVAL 0 0 [], m_ops m, false, true)
        else let m' := map_file pl in (m', m_ops m ++ m_ops m', false, true)
      else (m, m_ops m, negb lf, lf) in
    Some (if m_rc m =? CNG_LOAD_OK then (inr (loaded pl anon m), ops, lf)
          else (inl (m_rc m), ops, lf)).

Definition cng_load_elf_fd (f : list Z) (lf : bool)
    : option ((Z + cng_loaded) * list mop * bool) :=
  match cng_elf_plan_fd f lf with
  | (inl rc, lf) => Some (inl rc, [], lf)
  | (inr pl, lf) => cng_elf_map f pl lf
  end.
End Load.
