(* ===== verification/ElfMap.v ===== *)
(** * The ELF loader: the header pass and the reservation *)

From Stdlib Require Import ZArith Lia Sorted.
From stdpp Require Import base numbers list.
From S2P Require Import Prelude Rewrite RewriteIsa RewriteScan Page Ownmap OwnmapProps Elf.

Open Scope Z_scope.

(** ** Fields are words *)

Record phdr_ok (p : Elf64_Phdr) : Prop := PhdrOk {
  pok_vaddr : 0 <= p_vaddr p < 2 ^ 64;
  pok_filesz : 0 <= p_filesz p < 2 ^ 64;
  pok_memsz : 0 <= p_memsz p < 2 ^ 64;
  pok_offset : 0 <= p_offset p < 2 ^ 64 }.

Lemma phdr_at_ok buf j : Forall byte_ok buf -> phdr_ok (phdr_at buf j).
Proof.
  intros Hb. change (2 ^ 64) with (256 ^ Z.of_nat 8).
  split; unfold phdr_at; cbn [p_vaddr p_filesz p_memsz p_offset];
    by apply (le_at_range buf _ 8).
Qed.

Lemma pread_all_bytes f n off b : Forall byte_ok f -> pread_all f n off = Some b -> Forall byte_ok b.
Proof.
  intros Hf. unfold pread_all. case_if; [|done]. intros [= <-].
  by apply Forall_take, Forall_drop.
Qed.

Lemma congruent_iff pg (Hpg : page_ok pg) off v :
  congruent pg off v = true <-> off mod pg = v mod pg.
Proof.
  unfold congruent. destruct (page_pow _ Hpg) as (k & Hk & ->).
  replace (2 ^ k - 1) with (Z.ones k) by (rewrite Z.ones_equiv; lia).
  rewrite Z.eqb_eq, <-!Z.land_ones by lia.
  assert (E : Z.land (Z.lxor off v) (Z.ones k) = Z.lxor (Z.land off (Z.ones k)) (Z.land v (Z.ones k))).
  { apply Z.bits_inj'. intros n Hn. rewrite Z.land_spec, !Z.lxor_spec, !Z.land_spec.
    by destruct (Z.testbit off n), (Z.testbit v n), (Z.testbit (Z.ones k) n). }
  rewrite E. apply Z.lxor_eq_0_iff.
Qed.

Section Header.
Context (H : lhost).
Notation pg := (h_page H).
Hypothesis Hpg : page_ok pg.

(** A segment inside the span, with an end that is an address. *)
Record fits (lo hi : Z) (p : Elf64_Phdr) : Prop := Fits {
  fit_file : p_filesz p <= p_memsz p;
  fit_end : p_vaddr p + p_memsz p <= 2 ^ 64 - pg;
  fit_lo : lo <= cng_page_down pg (p_vaddr p);
  fit_hi : cng_page_up pg (p_vaddr p + p_memsz p) <= hi }.

Record st_ok (st : hdr_st) : Prop := StOk {
  st_hi : 0 <= s_hi st <= 2 ^ 64 - pg /\ s_hi st mod pg = 0;
  st_none : s_nload st = 0%nat -> s_lo st = 2 ^ 64 - 1 /\ s_hi st = 0;
  st_some : (0 < s_nload st)%nat -> 0 <= s_lo st <= s_hi st /\ s_lo st mod pg = 0 }.

(** What one segment adds to the span. *)
Lemma span_step st p e :
  st_ok st -> phdr_ok p -> p_filesz p <= p_memsz p ->
  cng_page_end pg (p_vaddr p) (p_memsz p) = Some e ->
  forall fo io,
  let lo := if cng_page_down pg (p_vaddr p) <? s_lo st then cng_page_down pg (p_vaddr p)
            else s_lo st in
  let hi := if s_hi st <? e then e else s_hi st in
  st_ok (HdrSt lo hi (S (s_nload st)) fo io) /\ lo <= s_lo st /\ s_hi st <= hi /\
  fits lo hi p.
Proof.
  intros [[Hh Hhm] Hn Hs] [Hv Hf Hm Ho] Hfm He fo io lo hi.
  pose proof (page_range _ Hpg) as Hr.
  destruct (page_end_spec pg _ _ _ Hv Hm He) as [Hend ->].
  destruct (page_up_spec _ Hpg (p_vaddr p + p_memsz p) ltac:(lia)) as [Hu Hum].
  destruct (page_down_spec _ Hpg (p_vaddr p)) as [Hd Hdm].
  assert (Hd0 : 0 <= cng_page_down pg (p_vaddr p)).
  { unfold cng_page_down. rewrite (ldiff_page _ Hpg). apply Z.mul_nonneg_nonneg; [lia|].
    apply Z.div_pos; lia. }
  assert (Hu64 : cng_page_up pg (p_vaddr p + p_memsz p) <= 2 ^ 64 - pg).
  { assert (M : (2 ^ 64) mod pg = 0) by (destruct Hpg as [->|[->| ->]]; done).
    apply Z.mod_divide in Hum as [i Hi]; [|lia]. apply Z.mod_divide in M as [j Hj]; [|lia].
    assert (i < j) by (apply (Z.mul_lt_mono_pos_r pg); lia).
    assert (i * pg <= (j - 1) * pg) by (apply Z.mul_le_mono_nonneg_r; lia). lia. }
  assert (L : lo <= cng_page_down pg (p_vaddr p) /\ lo <= s_lo st)
    by (unfold lo; destruct (Z.ltb_spec (cng_page_down pg (p_vaddr p)) (s_lo st)); lia).
  assert (U : cng_page_up pg (p_vaddr p + p_memsz p) <= hi /\ s_hi st <= hi)
    by (unfold hi; destruct (Z.ltb_spec (s_hi st) (cng_page_up pg (p_vaddr p + p_memsz p))); lia).
  split; [|split; [lia|split; [lia|split; [done|done|lia|lia]]]].
  split; cbn [s_hi s_lo s_nload]; [|lia|].
  - unfold hi. destruct (Z.ltb_spec (s_hi st) (cng_page_up pg (p_vaddr p + p_memsz p))); lia.
  - intros _. split; [|unfold lo; destruct (Z.ltb_spec (cng_page_down pg (p_vaddr p)) (s_lo st))].
    + split; [|lia]. unfold lo. destruct (Z.ltb_spec (cng_page_down pg (p_vaddr p)) (s_lo st));
        [done|]. destruct (s_nload st); [destruct (Hn eq_refl); lia|]. apply Hs. lia.
    + done.
    + destruct (s_nload st); [destruct (Hn eq_refl); lia|]. apply Hs. lia.
Qed.

(** A header that was not refused. *)
Lemma scan_phdr_spec f i p lf st st' lf' :
  st_ok st -> phdr_ok p -> scan_phdr H f i p lf st = (inr st', lf') ->
  st_ok st' /\ (s_nload st <= s_nload st')%nat /\
  (is_load p = true -> fits (s_lo st') (s_hi st') p /\ (0 < s_nload st')%nat) /\
  s_lo st' <= s_lo st /\ s_hi st <= s_hi st' /\
  (s_file_ok st' = true -> s_file_ok st = true /\
   (is_load p = true -> p_filesz p <> 0 -> congruent pg (p_offset p) (p_vaddr p) = true)).
Proof.
  intros Hst Hp. unfold scan_phdr, is_load.
  set (interp := if p_type p =? PT_INTERP then _ else _).
  destruct interp as [rc|io]; [done|]. cbn [s_lo s_hi s_nload s_file_ok s_interp].
  destruct (Z.eqb_spec (p_type p) PT_LOAD) as [Hl|Hl]; cbn [negb].
  2: { intros [= <- <-]. cbn [s_lo s_hi s_nload s_file_ok]. destruct Hst.
       split; [by split|]. repeat (split; [done || lia|]). done. }
  destruct (Z.ltb_spec (p_memsz p) (p_filesz p)) as [Hf|Hf]; [done|].
  set (bad := negb (p_filesz p =? 0) && negb (congruent pg (p_offset p) (p_vaddr p))).
  set (lf1 := if bad && negb lf then _ else lf). destruct (bad && lf1); [done|].
  destruct (cng_page_end pg (p_vaddr p) (p_memsz p)) as [e|] eqn:Ee; [|done].
  intros [= <- <-]. cbn [s_lo s_hi s_nload s_file_ok].
  destruct (span_step st p e Hst Hp Hf Ee (s_file_ok st && negb bad) io) as (S1 & S2 & S3 & S4).
  split; [done|]. split; [lia|]. split; [split; [done|lia]|]. split; [done|]. split; [done|].
  rewrite andb_true_iff, negb_true_iff. intros [Hfo Hb]. split; [done|]. intros _ Hne.
  unfold bad in Hb. apply Z.eqb_neq in Hne. rewrite Hne in Hb. by apply negb_false_iff in Hb.
Qed.

Lemma fits_wider lo hi lo' hi' p : fits lo hi p -> lo' <= lo -> hi <= hi' -> fits lo' hi' p.
Proof. intros []. split; lia. Qed.

Lemma scan_phdrs_spec f : forall ps i lf st st' lf',
  st_ok st -> Forall phdr_ok ps -> scan_phdrs H f i ps lf st = (inr st', lf') ->
  st_ok st' /\ s_lo st' <= s_lo st /\ s_hi st <= s_hi st' /\
  Forall (fun p => is_load p = true -> fits (s_lo st') (s_hi st') p) ps /\
  (s_file_ok st' = true -> s_file_ok st = true /\ Forall (fun p => is_load p = true ->
     p_filesz p <> 0 -> congruent pg (p_offset p) (p_vaddr p) = true) ps).
Proof.
  induction ps as [|p ps IH]; intros i lf st st' lf' Hst Hps; cbn [scan_phdrs].
  { intros [= <- <-]. split; [done|]. split; [lia|]. split; [lia|].
    split; [constructor|]. intros ->. split; [done|constructor]. }
  apply Forall_cons_1 in Hps as [Hp Hps].
  destruct (scan_phdr H f i p lf st) as [[rc|st1] lf1] eqn:Es; [done|]. intros E.
  destruct (scan_phdr_spec f i p lf st st1 lf1 Hst Hp Es) as (S1 & S2 & S3 & S4 & S5 & S6).
  destruct (IH _ _ _ _ _ S1 Hps E) as (I1 & I2 & I3 & I4 & I5).
  split; [done|]. split; [lia|]. split; [lia|]. split.
  - constructor; [|done]. intros Hl. eapply fits_wider; [by apply S3|lia|lia].
  - intros Hfo. destruct (I5 Hfo) as [J1 J2]. destruct (S6 J1) as [K1 K2].
    split; [done|]. by constructor.
Qed.

(** ** What an accepted plan promises *)

Record plan_ok (pl : cng_elf_plan) : Prop := PlanOk {
  plan_lo : 0 <= pl_lo pl <= pl_hi pl /\ pl_lo pl mod pg = 0;
  plan_hi : pl_hi pl <= 2 ^ 64 - pg /\ pl_hi pl mod pg = 0;
  plan_span : pl_hi pl - pl_lo pl + CNG_TRAMP_POOL < 2 ^ 64;
  plan_phdrs : Forall phdr_ok (pl_ph pl);
  plan_fits : Forall (fun p => is_load p = true -> fits (pl_lo pl) (pl_hi pl) p) (pl_ph pl);
  plan_file : pl_file_ok pl = true -> Forall (fun p => is_load p = true ->
    p_filesz p <> 0 -> congruent pg (p_offset p) (p_vaddr p) = true) (pl_ph pl);
  plan_free : pl_is_dyn pl = false ->
    cng_hits_monitor pg (h_mon_plan H) (pl_lo pl) (pl_hi pl - pl_lo pl + pool_len H) = false }.

Lemma pool_range : 0 <= pool_len H <= CNG_TRAMP_POOL.
Proof. unfold pool_len, CNG_TRAMP_POOL. destruct (h_rewrite H); lia. Qed.

Lemma headers_ok f lf pl lf' :
  Forall byte_ok f -> elf_read_headers H f lf = (inr pl, lf') -> plan_ok pl.
Proof.
  intros Hf. unfold elf_read_headers. pose proof (page_range _ Hpg) as Hr.
  destruct (pread_all f 64 0) as [buf|] eqn:Eb; [|done].
  case_if; [done|]. apply negb_false_iff in Eif as Hid. case_if; [done|].
  destruct (pread_all f (e_phnum (ehdr_of buf) * 56) _) as [pb|] eqn:Epb; [|done].
  set (ph := map (phdr_at pb) _).
  assert (Hph : Forall phdr_ok ph).
  { unfold ph. apply Forall_map, Forall_forall. intros j _. apply phdr_at_ok.
    by eapply pread_all_bytes. }
  destruct (scan_phdrs H f 0 ph lf _) as [[rc|st] lf1] eqn:Es; [done|].
  apply scan_phdrs_spec in Es as (S1 & _ & _ & S4 & S5); [| |done].
  2: { split; cbn [s_hi s_lo s_nload]; [|done|lia]. split; [lia|]. by apply Z.mod_0_l; lia. }
  destruct (Nat.eqb_spec (s_nload st) 0) as [|Hn]; [done|].
  destruct S1 as [[Hh Hhm] _ Hs]. destruct (Hs ltac:(lia)) as [Hlo Hlm].
  rewrite (wrapu_small 64 (s_hi st - s_lo st)) by lia.
  destruct (Z.ltb_spec (2 ^ 64 - 1 - CNG_TRAMP_POOL) (s_hi st - s_lo st)) as [|Hspan]; [done|].
  pose proof pool_range as Hpool. unfold CNG_TRAMP_POOL in *.
  rewrite (wrapu_small 64) by lia.
  destruct ((e_type (ehdr_of buf) =? ET_EXEC) && _) eqn:Eh; [done|]. intros [= <- <-].
  split; cbn [pl_lo pl_hi pl_ph pl_file_ok pl_is_dyn]; try done; try lia.
  - unfold CNG_TRAMP_POOL. lia.
  - intros Hfo. by apply S5.
  - intros Hd. unfold ident_ok in Hid. rewrite !andb_true_iff in Hid.
    destruct Hid as [_ Ht]. cbn [ehdr_of e_type] in *. rewrite Hd in Ht. cbn [orb] in Ht.
    rewrite Ht in Eh. exact Eh.
Qed.
End Header.

(** * The ELF loader: where the map pass acts

    Every operation of the map pass against the reservation it made. *)

(** ** Edges *)

Lemma edge_insert_elem e es x : x ∈ edge_insert e es <-> x = e \/ x ∈ es.
Proof.
  induction es as [|y es IH]; cbn [edge_insert]; [by rewrite list_elem_of_singleton, elem_of_nil; tauto|].
  destruct (y <? e); [rewrite !elem_of_cons, IH; tauto|].
  destruct (Z.eqb_spec y e) as [->|]; rewrite !elem_of_cons; tauto.
Qed.

Lemma edge_insert_sorted e es : StronglySorted Z.lt es -> StronglySorted Z.lt (edge_insert e es).
Proof.
  induction 1 as [|y es Hs IH Hy]; cbn [edge_insert]; [by repeat constructor|].
  destruct (Z.ltb_spec y e) as [Hlt|Hge].
  - constructor; [done|]. apply Forall_forall. intros x Hx.
    apply edge_insert_elem in Hx as [->|Hx]; [done|]. rewrite Forall_forall in Hy. by apply Hy.
  - destruct (Z.eqb_spec y e) as [->|Hne]; [by constructor|].
    constructor; [by constructor|]. constructor; [lia|].
    eapply Forall_impl; [exact Hy|]. intros x Hx. simpl in Hx. lia.
Qed.

(** ** The reservation *)

Definition within (lo hi a n : Z) : Prop := lo <= a /\ 0 <= n /\ a + n <= hi.

(** An operation that changes nothing outside [lo, hi), and is on whole pages
    where the kernel wants whole pages. *)
Definition op_in (pg lo hi : Z) (op : mop) : Prop :=
  match op with
  | OpReserve _ _ | OpUnmap _ _ => False
  | OpRead a n _ | OpZero a n => within lo hi a n
  | OpRewrite a b pool cap => within lo hi a (b - a) /\ within lo hi pool cap
  | OpProtect a n _ | OpMapAnon a n _ => within lo hi a n /\ a mod pg = 0 /\ n mod pg = 0
  | OpMapFile a n _ off =>
      within lo hi a n /\ a mod pg = 0 /\ n mod pg = 0 /\ off mod pg = 0
  end.

Lemma op_in_wider pg lo' hi' lo hi op :
  lo' <= lo -> hi <= hi' -> op_in pg lo hi op -> op_in pg lo' hi' op.
Proof. intros Hl Hh. destruct op; cbn [op_in]; unfold within; intuition lia. Qed.

Lemma ops_in_wider pg lo' hi' lo hi ops :
  lo' <= lo -> hi <= hi' -> Forall (op_in pg lo hi) ops -> Forall (op_in pg lo' hi') ops.
Proof. intros Hl Hh Ho. eapply Forall_impl; [exact Ho|]. intros op. by apply op_in_wider. Qed.

(** ** The placement *)

Section Map.
Context (H : lhost).
Notation pg := (h_page H).
Hypothesis Hpg : page_ok pg.

(** What the kernel answers to a reservation: pages of user memory, where they
    were asked for if MAP_FIXED asked. *)
Definition reserve_ok (pl : cng_elf_plan) : Prop :=
  forall anon seg, h_reserve H anon = Some seg ->
    seg mod pg = 0 /\ 0 <= seg /\
    seg + (pl_hi pl - pl_lo pl) + (if anon then pool_len H else 0) <= 2 ^ 52 /\
    (pl_is_dyn pl = false -> seg = pl_lo pl).

Section Placed.
Context (pl : cng_elf_plan) (seg : Z).
Hypothesis Hpl : plan_ok H pl.
Hypothesis Hseg : seg mod pg = 0 /\ 0 <= seg /\ seg + (pl_hi pl - pl_lo pl) <= 2 ^ 52 /\
  (pl_is_dyn pl = false -> seg = pl_lo pl).
Notation lo := (pl_lo pl).
Notation span := (pl_hi pl - pl_lo pl).
Notation bias := (if pl_is_dyn pl then u64 (seg - pl_lo pl) else 0).

(** Where the image's address [x] is. *)
Definition place (x : Z) : Z := seg + (x - lo).

Lemma bias_place x : lo <= x <= pl_hi pl -> u64 (bias + x) = place x.
Proof.
  intros Hx. destruct Hpl as [[Hl _] [Hh _] _ _ _ _ _]. destruct Hseg as (_ & H0 & H1 & H2).
  pose proof (page_range _ Hpg) as Hr. unfold place. destruct (pl_is_dyn pl).
  - rewrite wrapu_add_l by lia. rewrite wrapu_small; lia.
  - rewrite (H2 eq_refl). rewrite wrapu_small; lia.
Qed.

Lemma place_shift : (seg - lo) mod pg = 0.
Proof.
  destruct Hpl as [[_ Hl] _ _ _ _ _ _]. destruct Hseg as (Hs & _).
  pose proof (page_range _ Hpg). rewrite Zminus_mod, Hl, Hs. by apply Z.mod_0_l; lia.
Qed.

Lemma place_aligned x : x mod pg = 0 -> place x mod pg = 0.
Proof.
  intros Hx. unfold place. pose proof (page_range _ Hpg).
  replace (seg + (x - lo)) with ((seg - lo) + x) by lia.
  rewrite Zplus_mod, place_shift, Hx. by apply Z.mod_0_l; lia.
Qed.

Lemma sub_aligned x y : x mod pg = 0 -> y mod pg = 0 -> (y - x) mod pg = 0.
Proof.
  intros Hx Hy. pose proof (page_range _ Hpg). rewrite Zminus_mod, Hx, Hy.
  by apply Z.mod_0_l; lia.
Qed.

Section Seg.
Context (p : Elf64_Phdr).
Hypothesis Hp : phdr_ok p.
Hypothesis Hfit : fits H lo (pl_hi pl) p.

Lemma seg_ranges :
  lo <= p_vaddr p <= pl_hi pl /\ lo <= p_vaddr p + p_filesz p <= pl_hi pl /\
  lo <= p_vaddr p + p_memsz p <= pl_hi pl.
Proof.
  destruct Hfit as [F1 F2 F3 F4]. destruct Hp as [V1 V2 V3 V4].
  pose proof (page_range _ Hpg). destruct (page_down_spec _ Hpg (p_vaddr p)) as [D _].
  destruct (page_up_spec _ Hpg (p_vaddr p + p_memsz p)) as [U _]; [lia|]. lia.
Qed.

Lemma vaddr_place : u64 (bias + p_vaddr p) = place (p_vaddr p).
Proof. apply bias_place, seg_ranges. Qed.

Lemma fileend_place : u64 (bias + p_vaddr p + p_filesz p) = place (p_vaddr p + p_filesz p).
Proof. rewrite <-Z.add_assoc. apply bias_place, seg_ranges. Qed.

Lemma memend_place : u64 (bias + p_vaddr p + p_memsz p) = place (p_vaddr p + p_memsz p).
Proof. rewrite <-Z.add_assoc. apply bias_place, seg_ranges. Qed.

Lemma place_down x : cng_page_down pg (place x) = place (cng_page_down pg x).
Proof.
  unfold place. replace (seg + (x - lo)) with ((seg - lo) + x) by lia.
  rewrite (page_down_shift _ Hpg) by apply place_shift. lia.
Qed.

Lemma place_up x : lo <= x <= pl_hi pl -> cng_page_up pg (place x) = place (cng_page_up pg x).
Proof.
  intros Hx. destruct Hpl as [[Hl _] [Hh _] _ _ _ _ _]. destruct Hseg as (_ & H0 & H1 & _).
  pose proof (page_range _ Hpg) as Hr. unfold place.
  replace (seg + (x - lo)) with ((seg - lo) + x) by lia.
  rewrite (page_up_shift _ Hpg) by (apply place_shift || lia). lia.
Qed.

Lemma seg_lo_place : seg_lo H bias p = place (cng_page_down pg (p_vaddr p)).
Proof. unfold seg_lo. by rewrite vaddr_place, place_down. Qed.

Lemma seg_hi_place : seg_hi H bias p = place (cng_page_up pg (p_vaddr p + p_memsz p)).
Proof. unfold seg_hi. rewrite memend_place, place_up by apply seg_ranges. done. Qed.

(** The page range of a segment, in the reservation. *)
Lemma seg_bounds :
  seg <= seg_lo H bias p <= place (p_vaddr p) /\
  place (p_vaddr p + p_memsz p) <= seg_hi H bias p <= seg + span /\
  seg_lo H bias p mod pg = 0 /\ seg_hi H bias p mod pg = 0.
Proof.
  rewrite seg_lo_place, seg_hi_place. pose proof Hfit as [F1 F2 F3 F4].
  pose proof Hp as [V1 V2 V3 V4]. pose proof seg_ranges as R.
  destruct (page_down_spec _ Hpg (p_vaddr p)) as [D Dm].
  destruct (page_up_spec _ Hpg (p_vaddr p + p_memsz p)) as [U Um]; [pose proof (page_range _ Hpg); lia|].
  unfold place. split; [lia|]. split; [lia|].
  split; by apply place_aligned.
Qed.
End Seg.

(** The PT_LOADs of an accepted plan fit. *)
Lemma plan_seg p : p ∈ pl_ph pl -> is_load p = true -> phdr_ok p /\ fits H lo (pl_hi pl) p.
Proof.
  intros Hin Hl. destruct Hpl as [_ _ _ Hph Hf _ _]. rewrite Forall_forall in Hph, Hf.
  split; [by apply Hph|]. by apply Hf.
Qed.

(** The edges are the page bounds of the segments, in order. *)
Lemma edges_spec ps es :
  StronglySorted Z.lt es ->
  let es' := fold_left (fun es p => if is_load p then
      edge_insert (seg_hi H bias p) (edge_insert (seg_lo H bias p) es) else es) ps es in
  StronglySorted Z.lt es' /\
  forall x, x ∈ es' <-> x ∈ es \/
    exists p, p ∈ ps /\ is_load p = true /\ (x = seg_lo H bias p \/ x = seg_hi H bias p).
Proof.
  revert es. induction ps as [|p ps IH]; intros es Hs; cbn [fold_left].
  { split; [done|]. intros x. split; [by left|]. intros [?|(p & Hp%elem_of_nil & _)]; done. }
  destruct (is_load p) eqn:El.
  - destruct (IH (edge_insert (seg_hi H bias p) (edge_insert (seg_lo H bias p) es))) as [I1 I2].
    { by do 2 apply edge_insert_sorted. }
    split; [done|]. intros x. rewrite I2, !edge_insert_elem. split.
    + intros [[->|[->|?]]|(q & Hq & Hl & Hx)]; [| |by left|].
      * right. exists p. split; [left|]. tauto.
      * right. exists p. split; [left|]. tauto.
      * right. exists q. split; [by right|]. tauto.
    + intros [?|(q & Hq & Hl & Hx)]; [tauto|]. apply elem_of_cons in Hq as [->|Hq]; [tauto|].
      right. by exists q.
  - destruct (IH es Hs) as [I1 I2]. split; [done|]. intros x. rewrite I2. split.
    + intros [?|(q & Hq & Hl & Hx)]; [by left|]. right. exists q. split; [by right|]. tauto.
    + intros [?|(q & Hq & Hl & Hx)]; [by left|].
      apply elem_of_cons in Hq as [->|Hq]; [congruence|]. right. by exists q.
Qed.

Lemma edges_of_spec :
  StronglySorted Z.lt (edges_of H bias (pl_ph pl)) /\
  forall x, x ∈ edges_of H bias (pl_ph pl) <->
    exists p, p ∈ pl_ph pl /\ is_load p = true /\ (x = seg_lo H bias p \/ x = seg_hi H bias p).
Proof.
  destruct (edges_spec (pl_ph pl) []) as [I1 I2]; [constructor|]. split; [done|].
  intros x. unfold edges_of. rewrite I2. split; [|by right].
  intros [Hx%elem_of_nil|?]; done.
Qed.

Lemma edges_range x :
  x ∈ edges_of H bias (pl_ph pl) -> seg <= x <= seg + span.
Proof.
  intros (p & Hin & Hl & Hx)%(proj2 edges_of_spec). destruct (plan_seg p Hin Hl) as [P1 P2].
  pose proof (seg_bounds p P1 P2) as (B1 & B2 & _). pose proof (seg_ranges p P1 P2).
  unfold place in *. destruct P1. destruct Hx as [->| ->]; lia.
Qed.
(** ** Operations inside the reservation *)

Lemma edges_aligned x : x ∈ edges_of H bias (pl_ph pl) -> x mod pg = 0.
Proof.
  intros (p & Hin & Hl & Hx)%(proj2 edges_of_spec). destruct (plan_seg p Hin Hl) as [P1 P2].
  pose proof (seg_bounds p P1 P2) as (_ & _ & B1 & B2). by destruct Hx as [->| ->].
Qed.

Lemma runs_in ps es k ops rc :
  StronglySorted Z.lt es -> Forall (fun x => seg <= x <= seg + span /\ x mod pg = 0) es ->
  protect_runs H bias ps es k = (ops, rc) -> Forall (op_in pg seg (seg + span)) ops.
Proof.
  intros Hs. revert k ops. induction Hs as [|a es Hs IH Ha]; intros k ops Hr; cbn [protect_runs].
  { intros [= <- _]. constructor. }
  destruct es as [|b es]; [intros [= <- _]; constructor|].
  apply Forall_cons_1 in Hr as [[Ra Ma] Hr]. pose proof Hr as Hr'.
  apply Forall_cons_1 in Hr' as [[Rb Mb] _]. apply Forall_cons_1 in Ha as [Hab _].
  assert (Hin : forall prot, op_in pg seg (seg + span) (OpProtect a (b - a) prot)).
  { intros prot. cbn [op_in]. unfold within. split; [lia|]. split; [done|].
    by apply sub_aligned. }
  destruct (run_prot H bias ps a b) as [prot|]; [|apply (IH _ _ Hr)].
  case_if; [intros [= <- _]; by constructor|].
  destruct (protect_runs H bias ps (b :: es) (S k)) as [ops' rc'] eqn:E.
  intros [= <- <-]. constructor; [done|]. by apply (IH (S k)).
Qed.

(** The file-backed strategy's turn at one segment. *)
Section FileSeg.
Context (p : Elf64_Phdr).
Hypothesis P1 : phdr_ok p.
Hypothesis P2 : fits H lo (pl_hi pl) p.
Notation d := (cng_page_down pg (p_vaddr p)).
Notation u := (cng_page_up pg (p_vaddr p + p_filesz p)).
Notation w := (cng_page_up pg (p_vaddr p + p_memsz p)).

Lemma vstart_place n :
  lo <= p_vaddr p + n <= pl_hi pl -> u64 (place (p_vaddr p) + n) = place (p_vaddr p + n).
Proof.
  intros Hn. rewrite <-(vaddr_place p P1 P2), wrapu_add_l, <-Z.add_assoc by lia.
  by apply bias_place.
Qed.

(** The three page bounds of a segment: its start, the end of its file part and
    its end. *)
Lemma seg_pages :
  lo <= d <= p_vaddr p /\ p_vaddr p < d + pg /\ p_vaddr p + p_filesz p <= u <= w /\
  u < p_vaddr p + p_filesz p + pg /\ w <= pl_hi pl /\
  d mod pg = 0 /\ u mod pg = 0 /\ w mod pg = 0.
Proof.
  pose proof (page_range _ Hpg) as Hr. pose proof P1 as [V1 V2 V3 V4].
  pose proof P2 as [F1 F2 F3 F4].
  destruct (page_down_spec _ Hpg (p_vaddr p)) as [D Dm].
  destruct (page_up_spec _ Hpg (p_vaddr p + p_filesz p)) as [U Um]; [lia|].
  destruct (page_up_spec _ Hpg (p_vaddr p + p_memsz p)) as [W Wm]; [lia|].
  pose proof (page_up_mono _ Hpg (p_vaddr p + p_filesz p) (p_vaddr p + p_memsz p)
    ltac:(lia) F2). lia.
Qed.

Lemma anon_in x y prot :
  d <= x <= y -> y <= w -> x mod pg = 0 -> y mod pg = 0 ->
  op_in pg (place d) (place w) (OpMapAnon (place x) (place y - place x) prot).
Proof.
  intros H1 H2 H3 H4. cbn [op_in]. unfold within.
  replace (place y - place x) with (y - x) by (unfold place; lia).
  split; [unfold place; lia|]. split; [by apply place_aligned|]. by apply sub_aligned.
Qed.

Lemma bss_form k :
  map_bss H bias p k =
  let x := if p_filesz p =? 0 then d else u in
  if place x <? place w then
    ([OpMapAnon (place x) (place w - place x) (prot_of (p_flags p))],
     if h_map H k then Some (S k) else None)
  else ([], Some k).
Proof.
  unfold map_bss. rewrite (vaddr_place p P1 P2), place_down.
  pose proof (seg_ranges p P1 P2) as (R1 & R2 & R3).
  rewrite !vstart_place, !place_up by lia. by destruct (p_filesz p =? 0).
Qed.

Lemma map_bss_in k ops r :
  map_bss H bias p k = (ops, r) ->
  Forall (op_in pg (place d) (place w)) ops /\ ((forall i, h_map H i = true) -> r <> None).
Proof.
  rewrite bss_form. cbv zeta. pose proof seg_pages as (Q1 & Q2 & Q3 & Q4 & Q5 & M1 & M2 & M3).
  destruct P1 as [V1 V2 V3 V4].
  set (x := if p_filesz p =? 0 then d else u).
  assert (Hx : d <= x <= w /\ x mod pg = 0) by (unfold x; case_if; split; (done || lia)).
  destruct (place x <? place w); intros [= <- <-]; [|by split].
  split; [constructor; [apply anon_in; lia|constructor]|]. intros Hall. by rewrite Hall.
Qed.

Hypothesis Hc : p_filesz p <> 0 -> congruent pg (p_offset p) (p_vaddr p) = true.

(** The geometry the header pass accepted is not refused here. *)
Lemma file_part_form k :
  map_file_part H bias p k =
  if p_filesz p =? 0 then ([], Some k)
  else
    let op := OpMapFile (place d) (u - d) (prot_of (p_flags p))
                (s64 (p_offset p - (p_vaddr p - d))) in
    if negb (h_map H k) then ([op], None)
    else (op :: (if (p_filesz p <? p_memsz p) && negb (Z.land (prot_of (p_flags p)) PROT_WRITE =? 0)
                    && (place (p_vaddr p + p_filesz p) <? place u)
                 then [OpZero (place (p_vaddr p + p_filesz p)) (u - (p_vaddr p + p_filesz p))]
                 else []), Some (S k)).
Proof.
  unfold map_file_part. rewrite (vaddr_place p P1 P2), place_down.
  pose proof (seg_ranges p P1 P2) as (R1 & R2 & R3). pose proof (page_range _ Hpg) as Hr.
  rewrite !vstart_place, !place_up by lia.
  destruct (Z.eqb_spec (p_filesz p) 0) as [Ez|Ez]; [done|].
  specialize (Hc Ez). apply (congruent_iff _ Hpg) in Hc.
  rewrite (proj2 (congruent_iff _ Hpg (p_offset p) (place (p_vaddr p)))).
  2: { rewrite Hc. unfold place. replace (seg + (p_vaddr p - lo)) with (p_vaddr p + (seg - lo)) by lia.
       by rewrite Zplus_mod, place_shift, Z.add_0_r, Z.mod_mod by lia. }
  cbn [negb]. pose proof seg_pages as (Q1 & Q2 & Q3 & Q4 & Q5 & _). cbv zeta.
  replace (place u - place d) with (u - d) by (unfold place; lia).
  rewrite wrapu_small by (destruct Hpl as [[? _] [? _] _ _ _ _ _], P1; lia).
  replace (place (p_vaddr p) - place d) with (p_vaddr p - d) by (unfold place; lia).
  replace (place u - place (p_vaddr p + p_filesz p)) with (u - (p_vaddr p + p_filesz p))
    by (unfold place; lia). done.
Qed.

Lemma file_part_in k ops r :
  map_file_part H bias p k = (ops, r) ->
  Forall (op_in pg (place d) (place w)) ops /\ ((forall i, h_map H i = true) -> r <> None).
Proof.
  rewrite file_part_form. pose proof seg_pages as (Q1 & Q2 & Q3 & Q4 & Q5 & M1 & M2 & M3).
  pose proof (page_range _ Hpg) as Hr. pose proof P1 as [V1 V2 V3 V4].
  destruct (Z.eqb_spec (p_filesz p) 0) as [Ez|Ez]; [intros [= <- <-]; by split|].
  specialize (Hc Ez). apply (congruent_iff _ Hpg) in Hc. cbv zeta.
  set (op := OpMapFile _ _ _ _).
  assert (Hfile : op_in pg (place d) (place w) op).
  { cbn [op_in op]. unfold within. split; [unfold place; lia|]. split; [by apply place_aligned|].
    split; [by apply sub_aligned|]. apply (s64_aligned _ Hpg).
    replace (p_offset p - (p_vaddr p - d)) with (p_offset p - p_vaddr p + d) by lia.
    rewrite Zplus_mod, M1, Zminus_mod, Hc, Z.sub_diag, Z.add_0_r, !Z.mod_0_l by lia. done. }
  destruct (h_map H k) eqn:Ek; cbn [negb]; intros [= <- <-].
  2: { split; [by constructor|]. intros Hj. by rewrite Hj in Ek. }
  split; [|done]. constructor; [done|]. case_if; constructor; [|constructor].
  cbn [op_in]. unfold within, place in *. bprop. lia.
Qed.

Lemma map_file_seg_in k ops r :
  map_file_seg H bias p k = (ops, r) ->
  Forall (op_in pg (place d) (place w)) ops /\ ((forall i, h_map H i = true) -> r <> None).
Proof.
  unfold map_file_seg. destruct (map_file_part H bias p k) as [ops1 r1] eqn:E1.
  apply file_part_in in E1 as [I1 I2]. destruct r1 as [k'|].
  2: { intros [= <- <-]. done. }
  destruct (map_bss H bias p k') as [ops2 r2] eqn:E2. apply map_bss_in in E2 as [J1 J2].
  intros [= <- <-]. split; [by apply Forall_app_2|done].
Qed.
End FileSeg.

Lemma map_file_segs_in ps : forall k ops ok,
  (forall p, p ∈ ps -> p ∈ pl_ph pl) -> pl_file_ok pl = true ->
  map_file_segs H bias ps k = (ops, ok) ->
  Forall (op_in pg seg (seg + span)) ops /\ ((forall i, h_map H i = true) -> ok = true).
Proof.
  induction ps as [|p ps IH]; intros k ops ok Hsub Hfo; cbn [map_file_segs].
  { intros [= <- <-]. split; [constructor|done]. }
  assert (Hsub' : forall q, q ∈ ps -> q ∈ pl_ph pl) by (intros q Hq; apply Hsub; by right).
  destruct (is_load p) eqn:Hl; cbn [negb]; [|by apply IH].
  destruct (plan_seg p ltac:(apply Hsub; left) Hl) as [P1 P2].
  destruct (map_file_seg H bias p k) as [ops1 r] eqn:E1.
  apply (map_file_seg_in p P1 P2) in E1 as [M1 M2].
  apply (ops_in_wider _ seg (seg + span)) in M1;
    [|pose proof (seg_pages p P1 P2); unfold place; lia..].
  2: { pose proof (plan_file _ _ Hpl Hfo) as Hf. rewrite Forall_forall in Hf.
       apply Hf; [apply Hsub; left|done]. }
  destruct r as [k'|].
  - destruct (map_file_segs H bias ps k') as [ops2 ok2] eqn:E2. intros [= <- <-].
    destruct (IH _ _ _ Hsub' Hfo E2) as [I1 I2]. split; [by apply Forall_app_2|done].
  - intros [= <- <-]. split; [done|]. intros Hall. by destruct (M2 Hall).
Qed.

(** ** The reads and the rewriter *)

Section Text.
Context (f : list Z).
Hypothesis Hbytes : Forall byte_ok f.
Hypothesis Hflen : Z.of_nat (length f) < 2 ^ 61.
Hypothesis Htramp : tramp_ok (h_tramp H).

Lemma reads_in ps ops ok :
  (forall p, p ∈ ps -> p ∈ pl_ph pl) -> read_segs f bias ps = (ops, ok) ->
  Forall (op_in pg seg (seg + span)) ops /\
  (ok = true -> forall p, p ∈ ps -> is_load p = true -> p_filesz p <> 0 ->
     0 <= s64 (p_offset p) /\ s64 (p_offset p) + p_filesz p <= Z.of_nat (length f)).
Proof.
  revert ops. induction ps as [|p ps IH]; intros ops Hsub; cbn [read_segs].
  { intros [= <- <-]. split; [constructor|]. by intros _ p Hp%elem_of_nil. }
  assert (Hsub' : forall q, q ∈ ps -> q ∈ pl_ph pl) by (intros q Hq; apply Hsub; by right).
  destruct (negb (is_load p) || (p_filesz p =? 0)) eqn:Es.
  { intros E. destruct (IH _ Hsub' E) as [I1 I2]. split; [done|]. intros Hok q Hq Hl Hz.
    apply elem_of_cons in Hq as [->|Hq]; [|by apply I2]. bprop. destruct Es; congruence. }
  bprop. destruct Es as [Hl Hz]. destruct (plan_seg p ltac:(apply Hsub; left) Hl) as [P1 P2].
  assert (Hin : op_in pg seg (seg + span)
    (OpRead (u64 (bias + p_vaddr p)) (p_filesz p) (s64 (p_offset p)))).
  { cbn [op_in]. rewrite (vaddr_place p P1 P2). pose proof (seg_ranges p P1 P2).
    destruct P1. unfold within, place. lia. }
  unfold pread_all. destruct (Z.leb_spec 0 (s64 (p_offset p))) as [Ho|Ho]; cbn [andb].
  2: { intros [= <- <-]. split; [by constructor|done]. }
  destruct (Z.leb_spec (s64 (p_offset p) + p_filesz p) (Z.of_nat (length f))) as [He|He].
  2: { intros [= <- <-]. split; [by constructor|done]. }
  destruct (read_segs f bias ps) as [ops' ok'] eqn:E. intros [= <- <-].
  destruct (IH _ Hsub' eq_refl) as [I1 I2]. split; [by constructor|].
  intros Hok q Hq Hl' Hz'. apply elem_of_cons in Hq as [->|Hq]; [done|by apply I2].
Qed.

Lemma code_ranges_words :
  Forall (fun r => 0 <= r.1 < 2 ^ 64 /\ 0 <= r.2 < 2 ^ 64) (cng_code_ranges (Some f)).
Proof.
  destruct (cng_code_ranges (Some f)) as [|r rs] eqn:E; [constructor|]. rewrite <-E.
  destruct (code_ranges_spec f Hbytes ltac:(lia)) as [[Hr _] _]; [by rewrite E|].
  eapply Forall_impl; [exact Hr|]. intros x Hx. simpl in Hx. lia.
Qed.

(** The rewriter runs to its end inside the image and the pool behind it. *)
Lemma rewrite_in ps st :
  h_rewrite H = true -> seg + span + CNG_TRAMP_POOL <= 2 ^ 52 ->
  (forall p, p ∈ ps -> p ∈ pl_ph pl) ->
  (forall p, p ∈ ps -> is_load p = true -> p_filesz p <> 0 ->
     0 <= s64 (p_offset p) /\ s64 (p_offset p) + p_filesz p <= Z.of_nat (length f)) ->
  0 <= sc_used st <= CNG_TRAMP_POOL ->
  exists ops st', rewrite_segs H bias (seg + span) (cng_code_ranges (Some f)) ps st
                  = (ops, Some st') /\
    Forall (op_in pg seg (seg + span + CNG_TRAMP_POOL)) ops /\
    0 <= sc_used st' <= CNG_TRAMP_POOL.
Proof.
  intros Hrw Hend. revert st. induction ps as [|p ps IH]; intros st Hsub Hread Hu; cbn [rewrite_segs].
  { do 2 eexists. split; [done|]. split; [constructor|done]. }
  assert (IH' : forall st, 0 <= sc_used st <= CNG_TRAMP_POOL -> exists ops st',
    rewrite_segs H bias (seg + span) (cng_code_ranges (Some f)) ps st = (ops, Some st') /\
    Forall (op_in pg seg (seg + span + CNG_TRAMP_POOL)) ops /\ 0 <= sc_used st' <= CNG_TRAMP_POOL).
  { intros st' Hu'. apply IH; [| |done]; intros q Hq; [apply Hsub|apply Hread]; by right. }
  destruct (is_load p && negb (Z.land (p_flags p) PF_X =? 0)) eqn:Ex; [|by apply IH'].
  bprop. destruct Ex as [Hl _]. destruct (plan_seg p ltac:(apply Hsub; left) Hl) as [P1 P2].
  rewrite (vaddr_place p P1 P2), (fileend_place p P1 P2), Hrw.
  pose proof (seg_ranges p P1 P2) as R. pose proof P1 as [V1 V2 V3 V4].
  destruct Hpl as [[Hl0 _] _ _ _ _ _ _]. destruct Hseg as (_ & Hs0 & _ & _).
  unfold CNG_TRAMP_POOL in *.
  assert (Hrun : exists st1, cng_rewrite_seg (h_tramp H) true (place (p_vaddr p))
    (place (p_vaddr p + p_filesz p)) (p_offset p) (cng_code_ranges (Some f)) (seg + span)
    0x80000 st = Some st1 /\ 0 <= sc_used st1 <= 0x80000).
  { destruct (Z.eq_dec (p_filesz p) 0) as [Ez|Ez].
    { exists st. split; [|done]. unfold cng_rewrite_seg. cbn [negb orb].
      rewrite (proj2 (Z.leb_le _ _)); [done|]. unfold place. lia. }
    destruct (Hread p ltac:(left) Hl Ez) as [Ho1 Ho2].
    assert (Eo : s64 (p_offset p) = p_offset p).
    { unfold wraps in *. change (2 ^ (64 - 1)) with (2 ^ 63) in *.
      destruct (Z.lt_ge_cases (p_offset p) (2 ^ 63)); [rewrite Z.mod_small; lia|].
      assert ((p_offset p + 2 ^ 63) mod 2 ^ 64 = p_offset p + 2 ^ 63 - 2 ^ 64)
        by (symmetry; apply (Zmod_unique _ _ 1); lia). lia. }
    destruct st as [m used count]. cbn [sc_used] in *.
    destruct (rewrite_seg_runs (h_tramp H) (place (p_vaddr p)) (place (p_vaddr p + p_filesz p))
      (p_offset p) (seg + span) 0x80000 used count m (cng_code_ranges (Some f)))
      as (L & st' & E & Eu & Hcap & _); auto using code_ranges_words;
      try (unfold place, uaddr in *; lia).
    exists st'. split; [done|]. pose proof (tsz_nonneg (h_tramp H)). nia. }
  destruct Hrun as (st1 & -> & Hu1). destruct (IH' st1 Hu1) as (ops & st' & E & I1 & I2).
  rewrite E. do 2 eexists. split; [done|]. split; [|done]. constructor; [|done].
  cbn [op_in]. unfold within, place in *. lia.
Qed.
End Text.
End Placed.
End Map.
