(* ===== verification/ElfProps.v ===== *)
(** * The ELF loader: theorems *)

From Stdlib Require Import ZArith Lia Sorted.
From stdpp Require Import base numbers list.
From S2P Require Import Prelude Page Rewrite RewriteIsa RewriteScan RewriteProps Ownmap OwnmapProps Elf ElfMap.

Open Scope Z_scope.

(** ** Traces against the reservation *)

(** From [cur], the reservation that stands, to [fin]: a reservation is made
    where none stands and satisfies [R]; it alone is unmapped; every other
    operation is inside the one that stands. *)
Fixpoint contained (pg : Z) (R : Z -> Z -> Prop) (cur : option (Z * Z)) (ops : list mop)
    (fin : option (Z * Z)) : Prop :=
  match ops with
  | [] => cur = fin
  | op :: ops =>
      match op, cur with
      | OpReserve a n, None => R a n /\ contained pg R (Some (a, n)) ops fin
      | OpUnmap a n, Some r => r = (a, n) /\ contained pg R None ops fin
      | _, Some (a, n) => op_in pg a (a + n) op /\ contained pg R cur ops fin
      | _, None => False
      end
  end.

Lemma contained_app pg R ops : forall cur mid ops' fin,
  contained pg R cur ops mid -> contained pg R mid ops' fin ->
  contained pg R cur (ops ++ ops') fin.
Proof.
  induction ops as [|op ops IH]; intros cur mid ops' fin; cbn [contained app]; [by intros ->|].
  destruct op, cur as [[a' n']|]; cbn [op_in]; intros; naive_solver.
Qed.

Lemma contained_in pg R a n ops :
  Forall (op_in pg a (a + n)) ops -> contained pg R (Some (a, n)) ops (Some (a, n)).
Proof.
  induction 1 as [|op ops Hop _ IH]; cbn [contained]; [done|].
  destruct op; cbn [op_in] in *; done.
Qed.

Lemma protect_rc H bias ps es : forall k ops rc,
  protect_runs H bias ps es k = (ops, Some rc) -> rc = CNG_LOAD_EEXEC \/ rc = CNG_LOAD_EMAP.
Proof.
  induction es as [|a es IH]; intros k ops rc; cbn [protect_runs]; [done|].
  destruct es as [|b es]; [done|].
  destruct (run_prot H bias ps a b) as [prot|]; [|apply IH].
  case_if.
  - intros [= _ <-]. case_if; tauto.
  - destruct (protect_runs H bias ps (b :: es) (S k)) as [ops' rc'] eqn:E.
    intros [= _ ->]. by apply (IH _ _ _ E).
Qed.

Section Load.
Context (H : lhost).
Notation pg := (h_page H).
Hypothesis Hpg : page_ok pg.

Section Plan.
Context (pl : cng_elf_plan).
Hypothesis Hpl : plan_ok H pl.
Hypothesis Hres : reserve_ok H pl.
Notation lo := (pl_lo pl).
Notation span := (pl_hi pl - pl_lo pl).

Lemma span_small : u64 span = span /\ u64 (span + pool_len H) = span + pool_len H.
Proof.
  destruct Hpl as [[Hl _] [Hh _] Hs _ _ _ _]. pose proof (pool_range H) as Hp.
  pose proof (page_range _ Hpg). split; apply wrapu_small; lia.
Qed.

(** The bias of a reservation at [seg]. *)
Definition bias_at (seg : Z) : Z := if pl_is_dyn pl then u64 (seg - lo) else 0.

Lemma placed seg anon :
  h_reserve H anon = Some seg ->
  seg mod pg = 0 /\ 0 <= seg /\ seg + span <= 2 ^ 52 /\ (pl_is_dyn pl = false -> seg = lo).
Proof.
  intros E. destruct (Hres anon seg E) as (R1 & R2 & R3 & R4). pose proof (pool_range H).
  split; [done|]. split; [done|]. split; [|done]. destruct anon; lia.
Qed.

(** A reservation on whole pages that, when it replaces what it lies on, lies
    on nothing of the monitor's. *)
Definition reserved (a n : Z) : Prop :=
  a mod pg = 0 /\
  (pl_is_dyn pl = false -> forall b, a <= b < a + n -> ~ mon_byte pg (h_mon H) b).

Lemma reserved_free :
  mon_ok pg (h_mon H) ->
  (pl_is_dyn pl = false -> cng_hits_monitor pg (h_mon H) lo (span + pool_len H) = false) ->
  forall anon seg, h_reserve H anon = Some seg ->
  reserved seg (span + if anon then pool_len H else 0).
Proof.
  intros Hmon Hfree anon seg E. destruct (Hres anon seg E) as (R1 & R2 & R3 & R4).
  split; [done|]. intros Hd b Hb Hm. specialize (Hfree Hd). specialize (R4 Hd). subst seg.
  pose proof (pool_range H) as Hp. destruct Hpl as [[Hl _] [Hh _] Hs _ _ _ _].
  pose proof (page_range _ Hpg) as Hr.
  assert (Hlen : (if anon then pool_len H else 0) <= pool_len H) by (destruct anon; lia).
  assert (cng_hits_monitor pg (h_mon H) lo (span + pool_len H) = true); [|congruence].
  unfold CNG_TRAMP_POOL in *. destruct (Hres anon lo E) as (_ & _ & R3' & _).
  apply (hits_monitor_exact pg Hpg); [done|lia|lia|destruct anon; lia|]. exists b. split; [lia|done].
Qed.

Section Text.
Context (f : list Z).
Hypothesis Hbytes : Forall byte_ok f.
Hypothesis Hflen : Z.of_nat (length f) < 2 ^ 61.
Hypothesis Htramp : tramp_ok (h_tramp H).

(** The rewriting pass, on a reservation with room for the pool. *)
Lemma rewrite_pass_in seg :
  seg + span + pool_len H <= 2 ^ 52 -> h_reserve H true = Some seg ->
  (forall p, p ∈ pl_ph pl -> is_load p = true -> p_filesz p <> 0 ->
     0 <= s64 (p_offset p) /\ s64 (p_offset p) + p_filesz p <= Z.of_nat (length f)) ->
  exists rw, rewrite_pass H f (bias_at seg) (seg + span) (pl_ph pl) = Some rw /\
    Forall (op_in pg seg (seg + (span + pool_len H))) rw.
Proof.
  intros Hend Eseg Hread. pose proof (placed seg true Eseg) as Hseg.
  pose proof Hseg as (S1 & S2 & S3 & _). destruct Hpl as [[Hl0 Hlm] [Hh0 Hhm] _ _ _ _ _].
  unfold rewrite_pass. destruct (h_rewrite H) eqn:Erw; cbn [negb].
  2: { eexists. split; [done|constructor]. }
  assert (Epool : pool_len H = CNG_TRAMP_POOL) by (unfold pool_len; by rewrite Erw).
  rewrite Epool in *.
  destruct (rewrite_in H Hpg pl seg Hpl Hseg f Hbytes Hflen Htramp (pl_ph pl)
    (ScanSt (image f (bias_at seg) (pl_ph pl)) 0 0) Erw Hend ltac:(done) Hread)
    as (ops & st & E & Hin & Hu); [cbn; unfold CNG_TRAMP_POOL; lia|].
  fold (bias_at seg) in E. rewrite E. cbn [mbind option_bind]. eexists. split; [done|].
  rewrite Z.add_assoc. apply Forall_app_2; [done|].
  destruct (Z.eqb_spec (sc_used st) 0) as [|Hne]; constructor; [|constructor].
  pose proof (page_range _ Hpg) as Hr. unfold CNG_TRAMP_POOL in *.
  destruct (page_up_spec _ Hpg (sc_used st)) as [U Um]; [lia|]. cbn [op_in]. unfold within.
  assert (cng_page_up pg (sc_used st) <= 0x80000).
  { rewrite <-(page_up_multiple _ Hpg 0x80000); [apply (page_up_mono _ Hpg); lia|lia|].
    destruct Hpg as [->|[->| ->]]; done. }
  split; [lia|]. split; [|done]. rewrite Zplus_mod, S1, Zminus_mod, Hlm, Hhm.
  by rewrite !Z.mod_0_l by lia.
Qed.

Section Traces.
Context (R : Z -> Z -> Prop).
Hypothesis HR : forall anon seg, h_reserve H anon = Some seg ->
  R seg (span + if anon then pool_len H else 0).

Lemma map_anon_contained :
  exists m, map_anon H f pl = Some m /\
    contained pg R None (m_ops m)
      (if m_rc m =? CNG_LOAD_OK then Some (u64 (m_bias m + lo), m_len m) else None).
Proof.
  unfold map_anon. destruct span_small as [-> ->].
  destruct (h_reserve H true) as [seg|] eqn:Eseg; [|by eexists].
  pose proof (placed seg true Eseg) as Hseg. destruct (Hres true seg Eseg) as (_ & Hs0 & Hend & _).
  fold (bias_at seg). specialize (HR true seg Eseg). pose proof (pool_range H) as Hp.
  destruct (read_segs f (bias_at seg) (pl_ph pl)) as [reads ok] eqn:Er.
  apply (reads_in H Hpg pl seg Hpl Hseg f) in Er as [Hreads Hok]; [|done].
  apply (ops_in_wider _ seg (seg + (span + pool_len H))) in Hreads; [|lia|lia].
  destruct ok; cbn [negb].
  2: { eexists. split; [done|]. cbn. split; [done|].
       eapply contained_app; [by apply contained_in|done]. }
  rewrite (wrapu_small 64 (seg + span)) by (destruct Hpl as [[? _] _ _ _ _ _ _]; lia).
  destruct (rewrite_pass_in seg Hend Eseg (Hok eq_refl)) as (rw & -> & Hrw).
  cbn [mbind option_bind].
  destruct (protect_runs H (bias_at seg) (pl_ph pl) (edges_of H (bias_at seg) (pl_ph pl)) 0)
    as [prots rc] eqn:Ep.
  pose proof Ep as Ep'. apply (runs_in H Hpg pl seg) in Ep.
  2: { apply (edges_of_spec H pl seg Hseg). }
  2: { apply Forall_forall. intros x Hx. split; [by eapply edges_range; eauto|].
       by eapply edges_aligned; eauto. }
  apply (ops_in_wider _ seg (seg + (span + pool_len H))) in Ep; [|lia|lia].
  assert (Hall : Forall (op_in pg seg (seg + (span + pool_len H))) (reads ++ rw ++ prots))
    by (repeat apply Forall_app_2; done).
  destruct rc as [rc|]; eexists; (split; [done|]); cbn [m_ops m_rc m_bias m_len app contained].
  - split; [done|]. rewrite !app_assoc, <-(app_assoc reads).
    apply protect_rc in Ep'. rewrite (proj2 (Z.eqb_neq rc CNG_LOAD_OK)).
    + eapply contained_app; [by apply contained_in|done].
    + unfold CNG_LOAD_OK, CNG_LOAD_EEXEC, CNG_LOAD_EMAP in *. lia.
  - split; [done|]. change (CNG_LOAD_OK =? CNG_LOAD_OK) with true. cbv iota.
    rewrite (bias_place H Hpg pl seg Hpl Hseg) by (destruct Hpl as [[? _] _ _ _ _ _ _]; lia).
    unfold place. replace (seg + (lo - lo)) with seg by lia. by apply contained_in.
Qed.

Lemma map_file_contained :
  pl_file_ok pl = true ->
  let m := map_file H pl in
  contained pg R None (m_ops m)
    (if m_rc m =? CNG_LOAD_OK then Some (u64 (m_bias m + lo), m_len m) else None).
Proof.
  intros Hfo m. unfold m, map_file. destruct span_small as [-> _].
  destruct (h_reserve H false) as [seg|] eqn:Eseg; [|done].
  pose proof (placed seg false Eseg) as Hseg. fold (bias_at seg).
  specialize (HR false seg Eseg). cbn beta iota in HR. rewrite Z.add_0_r in HR.
  destruct (map_file_segs H (bias_at seg) (pl_ph pl) 0) as [ops ok] eqn:Em.
  apply (map_file_segs_in H Hpg pl seg Hpl Hseg) in Em as [Hin _]; [|done|done].
  destruct ok; cbn [m_ops m_rc m_bias m_len contained].
  - split; [done|]. change (CNG_LOAD_OK =? CNG_LOAD_OK) with true. cbv iota.
    rewrite (bias_place H Hpg pl seg Hpl Hseg) by (destruct Hpl as [[? _] _ _ _ _ _ _]; lia).
    unfold place. replace (seg + (lo - lo)) with seg by lia. by apply contained_in.
  - split; [done|]. change (CNG_LOAD_EMAP =? CNG_LOAD_OK) with false. cbv iota.
    eapply contained_app; [by apply contained_in|done].
Qed.
End Traces.

Lemma elf_map_contained lf :
  mon_ok pg (h_mon H) ->
  exists res ops lf', cng_elf_map H f pl lf = Some (res, ops, lf') /\
    contained pg reserved None ops
      match res with inr ld => Some (ld_map_lo ld, ld_map_len ld) | inl _ => None end.
Proof.
  intros Hmon. unfold cng_elf_map. destruct span_small as [-> ->].
  destruct (lf && negb (pl_file_ok pl)) eqn:E1; [by do 3 eexists|].
  destruct (negb (pl_is_dyn pl) && _) eqn:E2; [by do 3 eexists|].
  assert (HR : forall anon seg, h_reserve H anon = Some seg ->
    reserved seg (span + if anon then pool_len H else 0)).
  { apply reserved_free; [done|]. intros Hd. by rewrite Hd in E2. }
  destruct lf; cbn [andb] in E1.
  - apply negb_false_iff in E1. pose proof (map_file_contained _ HR E1) as Hm. cbv zeta in Hm.
    assert (Hne : m_rc (map_file H pl) <> CNG_LOAD_EEXEC).
    { unfold map_file. destruct (h_reserve H false); [|done].
      destruct (map_file_segs _ _ _ _) as [? []]; done. }
    cbn [mbind option_bind]. rewrite (proj2 (Z.eqb_neq _ _) Hne).
    destruct (m_rc (map_file H pl) =? CNG_LOAD_OK); by do 3 eexists.
  - destruct (map_anon_contained _ HR) as (m & -> & Hm). cbn [mbind option_bind].
    destruct (Z.eqb_spec (m_rc m) CNG_LOAD_EEXEC) as [Ee|Ee].
    2: { destruct (m_rc m =? CNG_LOAD_OK); by do 3 eexists. }
    rewrite Ee in Hm. cbn in Hm.
    destruct (pl_file_ok pl) eqn:Efo; cbn [negb]; [|by do 3 eexists].
    pose proof (map_file_contained _ HR Efo) as Hf. cbv zeta in Hf.
    destruct (m_rc (map_file H pl) =? CNG_LOAD_OK); do 3 eexists; (split; [done|]);
      by eapply contained_app.
Qed.
End Text.
End Plan.
End Load.

(** C18: A load writes nowhere but into the reservation it made.  Whatever the
    file's headers say, the load comes to an end; a refusal by the header pass
    has mapped nothing; every byte read, rewritten, zeroed, mapped or protected
    lies in the reservation that stands at that moment, on whole pages where the
    kernel wants whole pages; a failed attempt unmaps its reservation, whole,
    before the next; a load that succeeds leaves the one it reports, one that
    fails leaves none.  A reservation of an ET_EXEC, which replaces what it lies
    on, lies on no byte of the monitor's. *)
Theorem elf_load_contained (H : lhost) (f : list Z) (lf : bool)
    (Hpg : page_ok (h_page H)) (Hbytes : Forall byte_ok f)
    (Hflen : Z.of_nat (length f) < 2 ^ 61) (Htramp : tramp_ok (h_tramp H))
    (Hmon : mon_ok (h_page H) (h_mon H))
    (Hres : forall pl lf', cng_elf_plan_fd H f lf = (inr pl, lf') -> reserve_ok H pl) :
  exists res ops lf', cng_load_elf_fd H f lf = Some (res, ops, lf') /\
    match cng_elf_plan_fd H f lf with
    | (inl rc, _) => res = inl rc /\ ops = []
    | (inr pl, _) =>
        contained (h_page H) (reserved H pl) None ops
          match res with inr ld => Some (ld_map_lo ld, ld_map_len ld) | inl _ => None end
    end.
Proof.
  unfold cng_load_elf_fd. destruct (cng_elf_plan_fd H f lf) as [[rc|pl] lf1] eqn:Ep.
  { by do 3 eexists. }
  specialize (Hres pl lf1 eq_refl).
  assert (Hpl : plan_ok H pl).
  { unfold cng_elf_plan_fd in Ep. case_if_in Ep; [|done]. by eapply headers_ok. }
  by apply elf_map_contained.
Qed.

(** ** A small executable *)

(** An ET_EXEC of one read-execute and one read-write segment that share a
    page, the second with a page of bss. *)
Definition phdr_bytes (p : Elf64_Phdr) : list Z :=
  le_bytes 4 (p_type p) ++ le_bytes 4 (p_flags p) ++ le_bytes 8 (p_offset p) ++
  le_bytes 8 (p_vaddr p) ++ le_bytes 8 (p_vaddr p) ++ le_bytes 8 (p_filesz p) ++
  le_bytes 8 (p_memsz p) ++ le_bytes 8 4096.

Definition text0 : Elf64_Phdr := Phdr PT_LOAD 5 0 0x400000 180 180.
Definition data0 : Elf64_Phdr := Phdr PT_LOAD 6 180 0x4000b4 8 0x1000.

Definition exec_with (data : Elf64_Phdr) : list Z :=
  [0x7f; 69; 76; 70; 2; 1; 1; 0; 0; 0; 0; 0; 0; 0; 0; 0] ++ le_bytes 2 ET_EXEC ++
  le_bytes 2 EM_AARCH64 ++ le_bytes 4 1 ++ le_bytes 8 0x4000b0 ++ le_bytes 8 64 ++
  le_bytes 8 0 ++ le_bytes 4 0 ++ le_bytes 2 64 ++ le_bytes 2 56 ++ le_bytes 2 2 ++
  le_bytes 6 0 ++ phdr_bytes text0 ++ phdr_bytes data ++ le_bytes 4 SVC0_INSN ++
  [1; 2; 3; 4; 5; 6; 7; 8].

Definition exec0 : list Z := exec_with data0.

Definition mon0 : monitor := Monitor (0x1000000000, 0x1000100000) own_empty [].

Definition host0 : lhost :=
  LHost 4096 true tramp0 mon0 mon0 (Some 0x81ed) (fun _ => true) (fun _ => Some 0x400000)
    (fun _ => true) (fun _ => 0).

Lemma mon0_ok : mon_ok 4096 mon0.
Proof. split; [reflexivity|constructor|constructor]. Qed.

Lemma tramp0_ok : tramp_ok tramp0.
Proof. repeat split; vm_compute; congruence. Qed.

Lemma bytes_decided (l : list Z) :
  forallb (fun b => (0 <=? b) && (b <? 256)) l = true -> Forall byte_ok l.
Proof.
  intros Hl. apply List.Forall_forall. intros b Hb. rewrite forallb_forall in Hl.
  specialize (Hl b Hb). unfold byte_ok. bprop. lia.
Qed.

Lemma exec0_bytes : Forall byte_ok exec0.
Proof. apply bytes_decided. vm_compute. reflexivity. Qed.

Lemma host0_reserve pl lf :
  cng_elf_plan_fd host0 exec0 false = (inr pl, lf) -> reserve_ok host0 pl.
Proof.
  intros E. vm_compute in E. injection E as <- <-. intros anon seg [= <-].
  destruct anon; vm_compute; (repeat split; congruence).
Qed.

Lemma elf_load_contained_witness :
  exists ld ops, cng_load_elf_fd host0 exec0 false = Some (inr ld, ops, false) /\
    length ops = 6%nat /\
    exists pl, contained 4096 (reserved host0 pl) None ops (Some (0x400000, 0x82000)).
Proof.
  destruct (elf_load_contained host0 exec0 false (or_introl eq_refl) exec0_bytes
    ltac:(vm_compute; reflexivity) tramp0_ok mon0_ok host0_reserve)
    as (res & ops & lf' & E & C).
  destruct (cng_elf_plan_fd host0 exec0 false) as [[rc|pl] lf1] eqn:Ep;
    [vm_compute in Ep; discriminate|].
  assert (E' := E). vm_compute in E'. injection E' as <- <- <-.
  eexists. eexists. split; [exact E|]. split; [reflexivity|]. exists pl. exact C.
Defined.

(** * The ELF loader: the protections the anonymous strategy leaves *)

(** The protection the last mprotect over [a] gave it. *)
Definition prot_after (acc : option Z) (ops : list mop) (a : Z) : option Z :=
  fold_left (fun acc op =>
    match op with
    | OpProtect lo n prot => if (lo <=? a) && (a <? lo + n) then Some prot else acc
    | _ => acc
    end) ops acc.

Lemma prot_after_app acc ops ops' a :
  prot_after acc (ops ++ ops') a = prot_after (prot_after acc ops a) ops' a.
Proof. apply fold_left_app. Qed.

(** The union of some segments' protections; [None] for no segment. *)
Definition union_prot (ps : list Elf64_Phdr) : option Z :=
  match ps with
  | [] => None
  | _ => Some (foldr Z.lor 0 (map (fun p => prot_of (p_flags p)) ps))
  end.

Lemma fold_union (c : Elf64_Phdr -> bool) ps : forall acc,
  fold_left (fun acc p => if c p then Some (Z.lor (default 0 acc) (prot_of (p_flags p))) else acc)
    ps acc =
  match List.filter c ps with
  | [] => acc
  | l => Some (Z.lor (default 0 acc) (foldr Z.lor 0 (map (fun p => prot_of (p_flags p)) l)))
  end.
Proof.
  induction ps as [|p ps IH]; intros acc; cbn [fold_left List.filter]; [done|].
  rewrite IH. destruct (c p); [|done]. cbn [map foldr].
  destruct (List.filter c ps); cbn [map foldr]; [by rewrite Z.lor_0_r|].
  f_equal. symmetry. apply Z.lor_assoc.
Qed.

Lemma filter_none {A} (c : A -> bool) l :
  (forall x, x ∈ l -> c x = false) -> List.filter c l = [].
Proof.
  induction l as [|x l IH]; intros Hc; cbn [List.filter]; [done|].
  rewrite (Hc x ltac:(left)). apply IH. intros y Hy. apply Hc. by right.
Qed.

Section Prot.
Context (H : lhost) (bias : Z).

Definition seg_covers (a : Z) (p : Elf64_Phdr) : bool :=
  is_load p && (seg_lo H bias p <=? a) && (a <? seg_hi H bias p).

(** What the page of [a] is to have: the union over the segments on it. *)
Definition page_prot (ps : list Elf64_Phdr) (a : Z) : option Z :=
  union_prot (List.filter (seg_covers a) ps).

Lemma run_prot_union ps lo hi :
  run_prot H bias ps lo hi = union_prot (List.filter
    (fun p => is_load p && (seg_lo H bias p <=? lo) && (hi <=? seg_hi H bias p)) ps).
Proof.
  unfold run_prot. rewrite fold_union. unfold union_prot.
  by destruct (List.filter _ ps).
Qed.

(** Both bounds of a segment are behind the edges left, or among them. *)
Definition bounds_left (ps : list Elf64_Phdr) (es : list Z) : Prop :=
  forall p, p ∈ ps -> is_load p = true ->
  forall x, x = seg_lo H bias p \/ x = seg_hi H bias p ->
  x ∈ es \/ es <> [] /\ Forall (Z.lt x) es.

(** Between two neighbouring edges nothing begins or ends. *)
Lemma run_prot_page ps a b es x :
  StronglySorted Z.lt (a :: b :: es) -> bounds_left ps (a :: b :: es) -> a <= x < b ->
  run_prot H bias ps a b = page_prot ps x.
Proof.
  intros Hs Hb Hx. rewrite run_prot_union. unfold page_prot. f_equal.
  apply List.filter_ext_in. intros p Hp%list_elem_of_In. unfold seg_covers.
  destruct (is_load p) eqn:El; [|done]. cbn [andb].
  assert (Hout : forall y, y = seg_lo H bias p \/ y = seg_hi H bias p -> y <= a \/ b <= y).
  { intros y Hy. destruct (Hb p Hp El y Hy) as [Hin|Hlt].
    - apply StronglySorted_inv in Hs as [Hs Ha]. apply StronglySorted_inv in Hs as [_ Hbs].
      rewrite !elem_of_cons in Hin. destruct Hin as [->|[->|Hin]]; [lia|lia|].
      rewrite Forall_forall in Hbs. specialize (Hbs y Hin). lia.
    - destruct Hlt as [_ Hlt]. apply Forall_cons_1 in Hlt as [? _]. lia. }
  pose proof (Hout _ (or_introl eq_refl)). pose proof (Hout _ (or_intror eq_refl)).
  apply eq_true_iff_eq. rewrite !andb_true_iff, !Z.leb_le, Z.ltb_lt. lia.
Qed.

Lemma bounds_tail ps a es :
  StronglySorted Z.lt (a :: es) -> es <> [] -> bounds_left ps (a :: es) -> bounds_left ps es.
Proof.
  intros Hs Hne Hb p Hp Hl x Hx. destruct (Hb p Hp Hl x Hx) as [Hin|[_ Hlt]].
  - apply elem_of_cons in Hin as [->|Hin]; [|by left]. right.
    split; [done|]. by apply StronglySorted_inv in Hs as [_ ?].
  - right. split; [done|]. by apply Forall_cons_1 in Hlt as [_ ?].
Qed.

(** Past the last edge no segment is left. *)
Lemma past_edges ps es x :
  bounds_left ps es -> Forall (fun e => e <= x) es -> page_prot ps x = None.
Proof.
  intros Hb Hx. unfold page_prot. replace (List.filter (seg_covers x) ps) with (@nil Elf64_Phdr); [done|].
  symmetry. apply filter_none. intros p Hp.
  destruct (is_load p) eqn:El; unfold seg_covers; rewrite El; [|done]. cbn [andb].
  apply andb_false_iff. right. apply Z.ltb_ge.
  destruct (Hb p Hp El _ (or_intror eq_refl)) as [Hin|[Hne Hlt]].
  - rewrite Forall_forall in Hx. by apply Hx.
  - destruct es as [|e es]; [done|].
    apply Forall_cons_1 in Hlt as [? _]. apply Forall_cons_1 in Hx as [? _]. lia.
Qed.

(** The runs give every address from the first edge on what its page is to
    have, and leave the others alone. *)
Lemma runs_prot ps es : forall k ops acc x,
  StronglySorted Z.lt es -> bounds_left ps es -> protect_runs H bias ps es k = (ops, None) ->
  prot_after acc ops x =
  match head es with
  | Some e => if x <? e then acc
              else match page_prot ps x with Some prot => Some prot | None => acc end
  | None => acc
  end.
Proof.
  induction es as [|a es IH]; intros k ops acc x Hs Hb; cbn [protect_runs head].
  { by intros [= <-]. }
  destruct es as [|b es].
  { intros [= <-]. cbn [prot_after fold_left]. destruct (Z.ltb_spec x a); [done|].
    rewrite (past_edges ps [a] x Hb); [done|]. by repeat constructor. }
  pose proof Hs as Hs'. apply StronglySorted_inv in Hs' as [Hs' Ha].
  apply Forall_cons_1 in Ha as [Hab _].
  pose proof (bounds_tail ps a (b :: es) Hs ltac:(done) Hb) as Hb'.
  destruct (run_prot H bias ps a b) as [prot|] eqn:Er.
  - case_if; [done|].
    destruct (protect_runs H bias ps (b :: es) (S k)) as [ops' rc] eqn:Ep. intros [= <- ->].
    cbn [prot_after fold_left]. fold (prot_after (if (a <=? x) && (x <? a + (b - a)) then
      Some prot else acc) ops' x).
    rewrite (IH _ _ _ x Hs' Hb' Ep). cbn [head]. replace (a + (b - a)) with b by lia.
    destruct (Z.ltb_spec x b) as [Hxb|Hxb].
    + destruct (Z.leb_spec a x) as [Hax|Hax], (Z.ltb_spec x a); cbn [andb]; try lia; [|done].
      by rewrite <-(run_prot_page ps a b es x Hs Hb), Er by lia.
    + rewrite andb_false_r. destruct (Z.ltb_spec x a); [lia|done].
  - intros Ep. rewrite (IH _ _ _ x Hs' Hb' Ep). cbn [head].
    destruct (Z.ltb_spec x b) as [Hxb|Hxb], (Z.ltb_spec x a); try lia; try done.
    by rewrite <-(run_prot_page ps a b es x Hs Hb), Er by lia.
Qed.

Lemma runs_prot_exact ps es k ops x :
  StronglySorted Z.lt es ->
  (forall p, p ∈ ps -> is_load p = true -> seg_lo H bias p ∈ es /\ seg_hi H bias p ∈ es) ->
  protect_runs H bias ps es k = (ops, None) -> prot_after None ops x = page_prot ps x.
Proof.
  intros Hs Hin Ep.
  assert (Hb : bounds_left ps es).
  { intros p Hp Hl y Hy. left. destruct (Hin p Hp Hl). by destruct Hy as [->| ->]. }
  rewrite (runs_prot ps es k ops None x Hs Hb Ep).
  assert (Hnone : (forall e, head es = Some e -> x < e) -> page_prot ps x = None).
  { intros Hlt. unfold page_prot. rewrite filter_none; [done|]. intros p Hp. unfold seg_covers.
    destruct (is_load p) eqn:El; [|done]. destruct (Hin p Hp El) as [Hlo _]. cbn [andb].
    apply andb_false_iff. left. apply Z.leb_gt. destruct es as [|e es]; [by apply elem_of_nil in Hlo|].
    specialize (Hlt e eq_refl). apply StronglySorted_inv in Hs as [_ He].
    apply elem_of_cons in Hlo as [->|Hlo]; [done|]. rewrite Forall_forall in He.
    specialize (He _ Hlo). lia. }
  destruct (head es) as [e|] eqn:Eh; [|by rewrite Hnone].
  destruct (Z.ltb_spec x e); [|by destruct (page_prot ps x)].
  by rewrite Hnone by (intros ? [= <-]; done).
Qed.
End Prot.

Lemma reads_prot f bias ps acc a : prot_after acc (read_segs f bias ps).1 a = acc.
Proof.
  revert acc. induction ps as [|p ps IH]; intros acc; cbn [read_segs]; [done|].
  case_if; [apply IH|]. destruct (pread_all f _ _); [|done].
  specialize (IH acc). destruct (read_segs f bias ps) as [ops ok]. exact IH.
Qed.

Lemma rewrite_prot H bias pool cr ps : forall st acc a,
  prot_after acc (rewrite_segs H bias pool cr ps st).1 a = acc.
Proof.
  induction ps as [|p ps IH]; intros st acc a; cbn [rewrite_segs]; [done|].
  case_if; [|apply IH]. destruct (cng_rewrite_seg _ _ _ _ _ _ _ _ _) as [st'|]; [|done].
  specialize (IH st' acc a). destruct (rewrite_segs _ _ _ _ ps st') as [ops r]. exact IH.
Qed.

Lemma rewrite_pass_prot H f bias pool ps rw acc a :
  rewrite_pass H f bias pool ps = Some rw -> a < pool -> prot_after acc rw a = acc.
Proof.
  unfold rewrite_pass. case_if; [by intros [= <-]|].
  destruct (rewrite_segs _ _ _ _ ps _) as [ops r] eqn:E. destruct r as [st|]; [|done].
  cbn [mbind option_bind]. intros [= <-] Ha. rewrite prot_after_app.
  pose proof (rewrite_prot H bias pool (cng_code_ranges (Some f)) ps
    (ScanSt (image f bias ps) 0 0) acc a) as E1. rewrite E in E1. cbn [fst] in E1. rewrite E1.
  case_if; [done|]. cbn [prot_after fold_left].
  by rewrite (proj2 (Z.leb_gt pool a)) by lia.
Qed.

(** Segments that share a page share its protection.  When the anonymous
    strategy has loaded an image the header pass accepted, the last mprotect
    over an address of the image gave it the union of the protections of all
    the segments that have bytes on its page, in whatever order the headers
    list them and however they overlap, and an address on a page of none was
    given no protection. *)
Theorem anon_protections_exact (H : lhost) (f : list Z) (lf lf' : bool) (pl : cng_elf_plan)
    (m : mapped_as) (Hpg : page_ok (h_page H)) (Hbytes : Forall byte_ok f)
    (Hplan : elf_read_headers H f lf = (inr pl, lf')) (Hres : reserve_ok H pl)
    (Hm : map_anon H f pl = Some m) (Hok : m_rc m = CNG_LOAD_OK) :
  forall a, u64 (m_bias m + pl_lo pl) <= a < u64 (m_bias m + pl_lo pl) + (pl_hi pl - pl_lo pl) ->
  prot_after None (m_ops m) a = page_prot H (m_bias m) (pl_ph pl) a.
Proof.
  assert (Hpl : plan_ok H pl) by (by eapply headers_ok).
  unfold map_anon in Hm. destruct (span_small H Hpg pl Hpl) as [E1 E2]. rewrite E1, E2 in Hm.
  destruct (h_reserve H true) as [seg|] eqn:Eseg; [|by injection Hm as <-].
  pose proof (placed H pl Hres seg true Eseg) as Hseg. pose proof Hseg as (_ & Hs0 & Hse & _).
  pose proof (plan_lo _ _ Hpl) as [Hlo _].
  fold (bias_at pl seg) in Hm. rewrite (wrapu_small 64 (seg + _)) in Hm by lia.
  destruct (read_segs f (bias_at pl seg) (pl_ph pl)) as [reads ok] eqn:Er.
  destruct ok; cbn [negb] in Hm; [|by injection Hm as <-].
  destruct (rewrite_pass H f (bias_at pl seg) _ (pl_ph pl)) as [rw|] eqn:Ew; [|done].
  cbn [mbind option_bind] in Hm.
  destruct (protect_runs H (bias_at pl seg) (pl_ph pl) _ 0) as [prots rc] eqn:Ep.
  destruct rc as [rc|]; injection Hm as <-; cbn [m_rc m_ops m_bias] in *.
  { apply protect_rc in Ep. unfold CNG_LOAD_EEXEC, CNG_LOAD_EMAP, CNG_LOAD_OK in *. lia. }
  unfold bias_at. rewrite (bias_place H Hpg pl seg Hpl Hseg) by lia. unfold place.
  fold (bias_at pl seg). intros a Ha.
  change (prot_after None (OpReserve seg (pl_hi pl - pl_lo pl + pool_len H) :: reads ++ rw ++ prots) a)
    with (prot_after None (reads ++ rw ++ prots) a).
  rewrite !prot_after_app. pose proof (reads_prot f (bias_at pl seg) (pl_ph pl) None a) as Hr.
  rewrite Er in Hr. cbn [fst] in Hr. rewrite Hr.
  rewrite (rewrite_pass_prot _ _ _ _ _ _ _ _ Ew) by lia.
  destruct (edges_of_spec H pl seg Hseg) as [Es Ein]. fold (bias_at pl seg) in Es, Ein.
  eapply runs_prot_exact; [exact Es| |exact Ep].
  intros p Hp Hl. split; apply Ein; exists p; tauto.
Qed.

(** The shared page of [exec0] is readable, writable and executable, the bss
    page readable and writable. *)
Lemma anon_protections_exact_witness :
  exists pl m, elf_read_headers host0 exec0 false = (inr pl, false) /\
    map_anon host0 exec0 pl = Some m /\
    prot_after None (m_ops m) 0x400010 = Some 7 /\ prot_after None (m_ops m) 0x401010 = Some 3.
Proof.
  destruct (elf_read_headers host0 exec0 false) as [[rc|pl] lf1] eqn:Ep;
    [vm_compute in Ep; discriminate|].
  assert (Hres : reserve_ok host0 pl) by (apply (host0_reserve pl lf1); exact Ep).
  destruct (map_anon host0 exec0 pl) as [m|] eqn:Em;
    [|assert (Ep' := Ep); vm_compute in Ep'; injection Ep' as <- <-; vm_compute in Em; discriminate].
  assert (P := fun Hok => anon_protections_exact host0 exec0 false lf1 pl m (or_introl eq_refl)
    exec0_bytes Ep Hres Em Hok).
  assert (Ep' := Ep). vm_compute in Ep'. injection Ep' as <- <-.
  assert (Em' := Em). vm_compute in Em'. injection Em' as <-.
  eexists. eexists. split; [reflexivity|]. split; [exact Em|].
  rewrite !(P eq_refl) by (vm_compute; split; congruence). split; vm_compute; reflexivity.
Defined.
