(* ===== verification/ElfMem.v ===== *)
(** * The ELF loader: the bytes a load leaves in memory *)

From Stdlib Require Import ZArith Lia Sorted.
From stdpp Require Import base numbers list.
From S2P Require Import Prelude Page Rewrite RewriteScan RewriteProps Ownmap OwnmapProps Elf ElfMap ElfProps.

Open Scope Z_scope.

(** ** Memory *)

Definition put (m : Z -> Z) (a n : Z) (g : Z -> Z) : Z -> Z :=
  fun b => if (a <=? b) && (b <? a + n) then g (b - a) else m b.

Lemma put_in m a n g b : a <= b < a + n -> put m a n g b = g (b - a).
Proof. intros Hb. unfold put. by rewrite (proj2 (Z.leb_le a b)), (proj2 (Z.ltb_lt b _)) by lia. Qed.

Lemma put_out m a n g b : ~ a <= b < a + n -> put m a n g b = m b.
Proof.
  intros Hb. unfold put. destruct (Z.leb_spec a b); [|done].
  by rewrite (proj2 (Z.ltb_ge b (a + n))) by lia.
Qed.

(** The byte [i] from [off] on; past the end of the file a mapping reads zero. *)
Definition file_at (f : list Z) (off i : Z) : Z := default 0 (f !! Z.to_nat (off + i)).

(** What an operation does to memory (the rewriter's calls are left out). *)
Definition mem_step (f : list Z) (m : Z -> Z) (op : mop) : Z -> Z :=
  match op with
  | OpReserve a n | OpZero a n | OpMapAnon a n _ => put m a n (fun _ => 0)
  | OpRead a n off | OpMapFile a n _ off => put m a n (file_at f off)
  | OpProtect _ _ _ | OpUnmap _ _ | OpRewrite _ _ _ _ => m
  end.

Definition mem_after (f : list Z) (m : Z -> Z) (ops : list mop) : Z -> Z :=
  fold_left (mem_step f) ops m.

Lemma mem_after_app f m ops ops' : mem_after f m (ops ++ ops') = mem_after f (mem_after f m ops) ops'.
Proof. apply fold_left_app. Qed.

Lemma mem_outside f pg lo hi ops : forall m b,
  Forall (op_in pg lo hi) ops -> ~ lo <= b < hi -> mem_after f m ops b = m b.
Proof.
  induction ops as [|op ops IH]; intros m b Ho Hb; [done|].
  apply Forall_cons_1 in Ho as [Hop Ho]. cbn [mem_after fold_left].
  change (mem_after f (mem_step f m op) ops b = m b). rewrite IH by done.
  destruct op; cbn [op_in mem_step] in *; unfold within in *; try done; apply put_out; lia.
Qed.

Lemma prots_mem H bias ps es : forall k f m ops rc,
  protect_runs H bias ps es k = (ops, rc) -> mem_after f m ops = m.
Proof.
  induction es as [|a es IH]; intros k f m ops rc; cbn [protect_runs]; [by intros [= <- _]|].
  destruct es as [|b es]; [by intros [= <- _]|].
  destruct (run_prot H bias ps a b) as [prot|]; [|apply IH].
  case_if; [by intros [= <- _]|].
  destruct (protect_runs H bias ps (b :: es) (S k)) as [ops' rc'] eqn:E. intros [= <- _].
  by apply (IH (S k) f m ops' rc').
Qed.

Section Mem.
Context (H : lhost) (f : list Z).
Notation pg := (h_page H).
Hypothesis Hpg : page_ok pg.
Hypothesis Hflen : Z.of_nat (length f) < 2 ^ 61.
Context (pl : cng_elf_plan) (seg : Z).
Hypothesis Hpl : plan_ok H pl.
Hypothesis Hseg : seg mod pg = 0 /\ 0 <= seg /\ seg + (pl_hi pl - pl_lo pl) <= 2 ^ 52 /\
  (pl_is_dyn pl = false -> seg = pl_lo pl).
Notation bias := (if pl_is_dyn pl then u64 (seg - pl_lo pl) else 0).
Notation place := (place pl seg).

(** The page range of a segment, as the headers have it. *)
Definition page_lo (p : Elf64_Phdr) : Z := cng_page_down pg (p_vaddr p).
Definition page_hi (p : Elf64_Phdr) : Z := cng_page_up pg (p_vaddr p + p_memsz p).

(** No two PT_LOADs on one page. *)
Definition apart (p q : Elf64_Phdr) : Prop :=
  is_load p = true -> is_load q = true -> page_hi p <= page_lo q \/ page_hi q <= page_lo p.

(** What byte [i] of a segment is to be. *)
Definition seg_byte (p : Elf64_Phdr) (i : Z) : Z :=
  if i <? p_filesz p then file_at f (p_offset p) i else 0.

Definition writable (p : Elf64_Phdr) : Prop := Z.land (prot_of (p_flags p)) PROT_WRITE <> 0.

Section Seg.
Context (p : Elf64_Phdr).
Hypothesis P1 : phdr_ok p.
Hypothesis P2 : fits H (pl_lo pl) (pl_hi pl) p.
Hypothesis Pf : p_offset p + p_filesz p <= Z.of_nat (length f).

Lemma place_in x y i : x <= p_vaddr p + i < y -> place x <= place (p_vaddr p + i) < place x + (y - x).
Proof. unfold ElfMap.place. lia. Qed.

(** The file part: the mapping, and the zeros after it in the last page. *)
Lemma file_part_mem k m ops k' i :
  (p_filesz p <> 0 -> congruent pg (p_offset p) (p_vaddr p) = true) ->
  map_file_part H bias p k = (ops, Some k') -> 0 <= i < p_memsz p ->
  i < p_filesz p \/ writable p -> p_filesz p <> 0 ->
  p_vaddr p + i < cng_page_up pg (p_vaddr p + p_filesz p) ->
  mem_after f m ops (place (p_vaddr p + i)) = seg_byte p i.
Proof.
  intros Hc. rewrite (file_part_form H Hpg pl seg Hpl Hseg p P1 P2 Hc).
  intros Ef Hi Hw Hz Hu. rewrite (proj2 (Z.eqb_neq _ _) Hz) in Ef. cbv zeta in Ef.
  pose proof (seg_pages H Hpg pl p P1 P2) as (Q1 & Q2 & Q3 & Q4 & Q5 & M1 & M2 & M3).
  pose proof P1 as [V1 V2 V3 V4]. pose proof (page_range _ Hpg) as Hr.
  apply (congruent_iff _ Hpg) in Hc; [|done].
  destruct (h_map H k); cbn [negb] in Ef; [|done]. injection Ef as <- _.
  set (d := cng_page_down pg (p_vaddr p)) in *.
  set (u := cng_page_up pg (p_vaddr p + p_filesz p)) in *.
  assert (Hoff : d = p_vaddr p - p_offset p mod pg).
  { rewrite Hc. unfold d, cng_page_down. rewrite (ldiff_page _ Hpg).
    pose proof (Z.div_mod (p_vaddr p) pg ltac:(lia)). lia. }
  pose proof (Z.mod_pos_bound (p_offset p) pg ltac:(lia)) as Hmb.
  pose proof (Z.mod_le (p_offset p) pg ltac:(lia) ltac:(lia)) as Hml.
  assert (Hs : s64 (p_offset p - (p_vaddr p - d)) = p_offset p - (p_vaddr p - d))
    by (apply wraps_small; lia).
  rewrite Hs. cbn [mem_after fold_left mem_step].
  assert (Hmap : put m (place d) (u - d) (file_at f (p_offset p - (p_vaddr p - d)))
    (place (p_vaddr p + i)) = file_at f (p_offset p) i).
  { rewrite put_in by (apply place_in; lia). unfold file_at. f_equal. f_equal. f_equal.
    unfold ElfMap.place. lia. }
  unfold seg_byte. destruct (Z.ltb_spec i (p_filesz p)) as [Hif|Hif].
  - case_if; cbn [fold_left mem_step]; [|done].
    rewrite put_out by (unfold ElfMap.place; lia). done.
  - destruct Hw as [Hw|Hw]; [lia|].
    rewrite (proj2 (Z.ltb_lt (p_filesz p) (p_memsz p))) by lia.
    rewrite (proj2 (Z.eqb_neq _ _) Hw), (proj2 (Z.ltb_lt _ _)) by (unfold ElfMap.place; lia).
    cbn [negb andb fold_left mem_step]. apply put_in. unfold ElfMap.place. lia.
Qed.

Lemma bss_mem k m ops k' i :
  map_bss H bias p k = (ops, Some k') -> 0 <= i < p_memsz p ->
  mem_after f m ops (place (p_vaddr p + i)) =
  if (p_filesz p =? 0) || (cng_page_up pg (p_vaddr p + p_filesz p) <=? p_vaddr p + i)
  then 0 else m (place (p_vaddr p + i)).
Proof.
  rewrite (bss_form H Hpg pl seg Hpl Hseg p P1 P2). intros Ef Hi. cbv zeta in Ef.
  pose proof (seg_pages H Hpg pl p P1 P2) as (Q1 & Q2 & Q3 & Q4 & Q5 & _).
  pose proof P1 as [V1 V2 V3 V4]. pose proof P2 as [F1 F2 F3 F4].
  destruct (page_up_spec _ Hpg (p_vaddr p + p_memsz p)) as [W _];
    [pose proof (page_range _ Hpg); lia|].
  set (x := if p_filesz p =? 0 then _ else _) in Ef.
  destruct (Z.ltb_spec (place x) (place (cng_page_up pg (p_vaddr p + p_memsz p)))) as [Hx|Hx].
  - injection Ef as <- _. cbn [mem_after fold_left mem_step]. unfold x in *.
    destruct (Z.eqb_spec (p_filesz p) 0) as [Ez|Ez]; cbn [orb].
    + apply put_in. unfold ElfMap.place. lia.
    + destruct (Z.leb_spec (cng_page_up pg (p_vaddr p + p_filesz p)) (p_vaddr p + i)).
      * apply put_in. unfold ElfMap.place. lia.
      * apply put_out. unfold ElfMap.place. lia.
  - injection Ef as <- _. cbn [mem_after fold_left]. unfold x in *.
    destruct (Z.eqb_spec (p_filesz p) 0) as [Ez|Ez]; [unfold ElfMap.place in *; lia|].
    rewrite (proj2 (Z.leb_gt _ _)); [done|]. unfold ElfMap.place in *. lia.
Qed.

Lemma file_seg_mem k m ops k' i :
  (p_filesz p <> 0 -> congruent pg (p_offset p) (p_vaddr p) = true) ->
  map_file_seg H bias p k = (ops, Some k') -> 0 <= i < p_memsz p ->
  i < p_filesz p \/ writable p ->
  mem_after f m ops (place (p_vaddr p + i)) = seg_byte p i.
Proof.
  intros Hc. unfold map_file_seg. destruct (map_file_part H bias p k) as [ops1 [k1|]] eqn:E1; [|done].
  destruct (map_bss H bias p k1) as [ops2 r] eqn:E2. intros [= <- ->] Hi Hw.
  rewrite mem_after_app, (bss_mem _ _ _ _ _ E2 Hi).
  pose proof (seg_pages H Hpg pl p P1 P2) as (Q1 & Q2 & Q3 & _). unfold seg_byte.
  destruct (Z.eqb_spec (p_filesz p) 0) as [Ez|Ez]; cbn [orb].
  { by rewrite (proj2 (Z.ltb_ge i (p_filesz p))) by lia. }
  destruct (Z.leb_spec (cng_page_up pg (p_vaddr p + p_filesz p)) (p_vaddr p + i)) as [Hu|Hu].
  { by rewrite (proj2 (Z.ltb_ge i (p_filesz p))) by lia. }
  by apply (file_part_mem k m ops1 k1 i Hc E1).
Qed.
End Seg.

(** ** All segments *)

Hypothesis Hin_file : forall p, p ∈ pl_ph pl -> is_load p = true ->
  p_offset p + p_filesz p <= Z.of_nat (length f).

Lemma apart_byte p q i :
  phdr_ok p -> fits H (pl_lo pl) (pl_hi pl) p -> apart p q -> is_load p = true ->
  is_load q = true -> 0 <= i < p_memsz p ->
  ~ place (page_lo q) <= place (p_vaddr p + i) < place (page_hi q).
Proof.
  intros P1 P2 Hap Hl Hq Hi. specialize (Hap Hl Hq). unfold page_lo, page_hi in *.
  pose proof P1 as [V1 V2 V3 V4]. pose proof P2 as [F1 F2 F3 F4].
  pose proof (page_range _ Hpg). destruct (page_down_spec _ Hpg (p_vaddr p)) as [D _].
  destruct (page_up_spec _ Hpg (p_vaddr p + p_memsz p)) as [W _]; [lia|].
  unfold ElfMap.place. lia.
Qed.

(** Segments elsewhere leave a byte alone. *)
Lemma file_segs_outside ps : forall k m ops ok b,
  (forall q, q ∈ ps -> q ∈ pl_ph pl) -> pl_file_ok pl = true ->
  map_file_segs H bias ps k = (ops, ok) ->
  (forall q, q ∈ ps -> is_load q = true -> ~ place (page_lo q) <= b < place (page_hi q)) ->
  mem_after f m ops b = m b.
Proof.
  induction ps as [|q ps IH]; intros k m ops ok b Hsub Hfo; cbn [map_file_segs].
  { by intros [= <- _]. }
  assert (Hsub' : forall r, r ∈ ps -> r ∈ pl_ph pl) by (intros r Hr; apply Hsub; by right).
  intros Em Hout. assert (Hout' : forall r, r ∈ ps -> is_load r = true ->
    ~ place (page_lo r) <= b < place (page_hi r)) by (intros r Hr; apply Hout; by right).
  destruct (is_load q) eqn:Hl; cbn [negb] in Em; [|by eapply IH].
  destruct (plan_seg H pl Hpl q ltac:(apply Hsub; left) Hl) as [P1 P2].
  destruct (map_file_seg H bias q k) as [ops1 r] eqn:E1.
  apply (map_file_seg_in H Hpg pl seg Hpl Hseg q P1 P2) in E1 as [M1 _].
  2: { pose proof (plan_file _ _ Hpl Hfo) as Hf. rewrite Forall_forall in Hf.
       apply Hf; [apply Hsub; left|done]. }
  specialize (Hout q ltac:(left) Hl).
  destruct r as [k'|].
  - destruct (map_file_segs H bias ps k') as [ops2 ok2] eqn:E2. injection Em as <- _.
    rewrite mem_after_app, (IH _ _ _ _ _ Hsub' Hfo E2 Hout'). by eapply mem_outside.
  - injection Em as <- _. by eapply mem_outside.
Qed.

Lemma file_segs_mem ps : forall k m ops p i,
  (forall q, q ∈ ps -> q ∈ pl_ph pl) -> pl_file_ok pl = true -> ForallOrdPairs apart ps ->
  map_file_segs H bias ps k = (ops, true) ->
  p ∈ ps -> is_load p = true -> 0 <= i < p_memsz p -> i < p_filesz p \/ writable p ->
  mem_after f m ops (place (p_vaddr p + i)) = seg_byte p i.
Proof.
  induction ps as [|q ps IH]; intros k m ops p i Hsub Hfo Hap Em Hp Hl Hi Hw;
    [by apply elem_of_nil in Hp|]. cbn [map_file_segs] in Em.
  assert (Hsub' : forall r, r ∈ ps -> r ∈ pl_ph pl) by (intros r Hr; apply Hsub; by right).
  inversion Hap as [|? ? Hq Hap']; subst.
  assert (Hcong : forall r, r ∈ q :: ps -> is_load r = true -> p_filesz r <> 0 ->
    congruent pg (p_offset r) (p_vaddr r) = true).
  { intros r Hr Hlr. pose proof (plan_file _ _ Hpl Hfo) as Hf. rewrite Forall_forall in Hf.
    apply Hf; [by apply Hsub|done]. }
  destruct (plan_seg H pl Hpl p (Hsub p Hp) Hl) as [P1 P2].
  destruct (is_load q) eqn:Hlq; cbn [negb] in Em.
  2: { apply elem_of_cons in Hp as [->|Hp]; [congruence|]. by eapply (IH k). }
  destruct (map_file_seg H bias q k) as [ops1 [k'|]] eqn:E1; [|done].
  destruct (map_file_segs H bias ps k') as [ops2 ok2] eqn:E2. injection Em as <- ->.
  rewrite mem_after_app. apply elem_of_cons in Hp as [->|Hp].
  - rewrite (file_segs_outside ps k' _ ops2 true) by
      (done || intros r Hr Hlr; apply (apart_byte q r i P1 P2); try done;
       rewrite Forall_forall in Hq; by apply Hq).
    eapply file_seg_mem; try done; [by apply Hin_file; [apply Hsub; left|]|].
    intros Hz. apply Hcong; [left|done|done].
  - by eapply (IH k').
Qed.

(** The anonymous strategy's reads. *)
Lemma reads_outside ps : forall m ops ok b,
  (forall q, q ∈ ps -> q ∈ pl_ph pl) -> read_segs f bias ps = (ops, ok) ->
  (forall q, q ∈ ps -> is_load q = true -> ~ place (page_lo q) <= b < place (page_hi q)) ->
  mem_after f m ops b = m b.
Proof.
  induction ps as [|q ps IH]; intros m ops ok b Hsub; cbn [read_segs]; [by intros [= <- _]|].
  assert (Hsub' : forall r, r ∈ ps -> r ∈ pl_ph pl) by (intros r Hr; apply Hsub; by right).
  intros Em Hout. assert (Hout' : forall r, r ∈ ps -> is_load r = true ->
    ~ place (page_lo r) <= b < place (page_hi r)) by (intros r Hr; apply Hout; by right).
  destruct (negb (is_load q) || (p_filesz q =? 0)) eqn:Es; [by eapply IH|]. bprop.
  destruct Es as [Hl Hz]. destruct (plan_seg H pl Hpl q ltac:(apply Hsub; left) Hl) as [P1 P2].
  specialize (Hout q ltac:(left) Hl).
  assert (Hone : forall off, put m (u64 (bias + p_vaddr q)) (p_filesz q) (file_at f off) b = m b).
  { intros off. apply put_out. rewrite (vaddr_place H Hpg pl seg Hpl Hseg q P1 P2).
    pose proof (seg_pages H Hpg pl q P1 P2). unfold page_lo, page_hi, ElfMap.place in *. lia. }
  destruct (pread_all f _ _).
  - destruct (read_segs f bias ps) as [ops' ok'] eqn:E. injection Em as <- _.
    change (mem_after f (put m (u64 (bias + p_vaddr q)) (p_filesz q)
      (file_at f (s64 (p_offset q)))) ops' b = m b).
    by rewrite (IH _ _ _ _ Hsub' eq_refl Hout').
  - injection Em as <- _. apply Hone.
Qed.

Lemma reads_mem ps : forall m ops p i,
  (forall q, q ∈ ps -> q ∈ pl_ph pl) -> ForallOrdPairs apart ps ->
  read_segs f bias ps = (ops, true) ->
  p ∈ ps -> is_load p = true -> 0 <= i < p_memsz p ->
  mem_after f m ops (place (p_vaddr p + i)) =
  if i <? p_filesz p then file_at f (p_offset p) i else m (place (p_vaddr p + i)).
Proof.
  induction ps as [|q ps IH]; intros m ops p i Hsub Hap Em Hp Hl Hi;
    [by apply elem_of_nil in Hp|]. cbn [read_segs] in Em.
  assert (Hsub' : forall r, r ∈ ps -> r ∈ pl_ph pl) by (intros r Hr; apply Hsub; by right).
  inversion Hap as [|? ? Hq Hap']; subst. rewrite Forall_forall in Hq.
  destruct (plan_seg H pl Hpl p (Hsub p Hp) Hl) as [P1 P2].
  destruct (negb (is_load q) || (p_filesz q =? 0)) eqn:Es.
  { apply elem_of_cons in Hp as [->|Hp]; [|by apply IH]. rewrite Hl in Es. cbn [negb orb] in Es.
    bprop. rewrite (proj2 (Z.ltb_ge i (p_filesz q))) by lia.
    eapply reads_outside; [exact Hsub'|exact Em|]. intros r Hr Hlr.
    apply (apart_byte q r i P1 P2); try done. by apply Hq. }
  bprop. destruct Es as [Hlq Hzq].
  destruct (plan_seg H pl Hpl q ltac:(apply Hsub; left) Hlq) as [Q1 Q2].
  destruct (pread_all f _ _); [|done]. destruct (read_segs f bias ps) as [ops' ok'] eqn:E.
  injection Em as <- ->.
  change (mem_after f (put m (u64 (bias + p_vaddr q)) (p_filesz q)
    (file_at f (s64 (p_offset q)))) ops' (place (p_vaddr p + i)) =
    if i <? p_filesz p then file_at f (p_offset p) i else m (place (p_vaddr p + i))).
  rewrite (vaddr_place H Hpg pl seg Hpl Hseg q Q1 Q2).
  apply elem_of_cons in Hp as [->|Hp].
  - rewrite (reads_outside ps _ ops' true _ Hsub' E) by
      (intros r Hr Hlr; apply (apart_byte q r i P1 P2); try done; by apply Hq).
    pose proof (Hin_file q ltac:(apply Hsub; left) Hl) as Hf. destruct P1 as [V1 V2 V3 V4].
    rewrite wraps_small by lia. destruct (Z.ltb_spec i (p_filesz q)).
    + rewrite put_in by (unfold ElfMap.place; lia). f_equal. unfold ElfMap.place. lia.
    + apply put_out. unfold ElfMap.place. lia.
  - rewrite (IH _ _ _ _ Hsub' Hap' eq_refl Hp Hl Hi). destruct (i <? p_filesz p); [done|].
    apply put_out. intros Hb. eapply (apart_byte p q i P1 P2); try done.
    { intros A B. destruct (Hq p Hp B A); [by right|by left]. }
    pose proof (seg_pages H Hpg pl q Q1 Q2). destruct Q1.
    unfold page_lo, page_hi, ElfMap.place in *. lia.
Qed.
End Mem.

Section Load.
Context (H : lhost) (f : list Z).
Notation pg := (h_page H).
Hypothesis Hpg : page_ok pg.
Hypothesis Hflen : Z.of_nat (length f) < 2 ^ 61.
Hypothesis Hrw : h_rewrite H = false.
Context (pl : cng_elf_plan).
Hypothesis Hpl : plan_ok H pl.
Hypothesis Hres : reserve_ok H pl.
Hypothesis Hin_file : forall p, p ∈ pl_ph pl -> is_load p = true ->
  p_offset p + p_filesz p <= Z.of_nat (length f).
Hypothesis Hap : ForallOrdPairs (apart H) (pl_ph pl).

Lemma image_address p i seg anon :
  h_reserve H anon = Some seg -> p ∈ pl_ph pl -> is_load p = true -> 0 <= i < p_memsz p ->
  u64 (bias_at pl seg + p_vaddr p) + i = place pl seg (p_vaddr p + i) /\
  seg <= place pl seg (p_vaddr p + i) < seg + (pl_hi pl - pl_lo pl).
Proof.
  intros E Hp Hl Hi. pose proof (placed H pl Hres seg anon E) as Hseg.
  destruct (plan_seg H pl Hpl p Hp Hl) as [P1 P2]. unfold bias_at.
  rewrite (vaddr_place H Hpg pl seg Hpl Hseg p P1 P2).
  pose proof (seg_ranges H Hpg pl p P1 P2). destruct P1. unfold place. lia.
Qed.

Lemma map_file_mem m0 p i :
  m_rc (map_file H pl) = CNG_LOAD_OK -> pl_file_ok pl = true ->
  p ∈ pl_ph pl -> is_load p = true -> 0 <= i < p_memsz p -> i < p_filesz p \/ writable p ->
  mem_after f m0 (m_ops (map_file H pl)) (u64 (m_bias (map_file H pl) + p_vaddr p) + i) =
  seg_byte f p i.
Proof.
  unfold map_file. destruct (h_reserve H false) as [seg|] eqn:E; [|done].
  pose proof (placed H pl Hres seg false E) as Hseg. fold (bias_at pl seg).
  destruct (map_file_segs H (bias_at pl seg) (pl_ph pl) 0) as [ops ok] eqn:Em.
  destruct ok; [|done]. intros _ Hfo Hp Hl Hi Hw. cbn [m_ops m_bias].
  destruct (image_address p i seg false E Hp Hl Hi) as [-> _].
  cbn [mem_after fold_left]. eapply (file_segs_mem H f Hpg Hflen pl seg); try done.
Qed.

Lemma map_anon_mem m0 m p i :
  map_anon H f pl = Some m -> m_rc m = CNG_LOAD_OK ->
  p ∈ pl_ph pl -> is_load p = true -> 0 <= i < p_memsz p ->
  mem_after f m0 (m_ops m) (u64 (m_bias m + p_vaddr p) + i) = seg_byte f p i.
Proof.
  unfold map_anon. destruct (span_small H Hpg pl Hpl) as [-> ->].
  destruct (h_reserve H true) as [seg|] eqn:E; [|by intros [= <-]].
  pose proof (placed H pl Hres seg true E) as Hseg. fold (bias_at pl seg).
  destruct (read_segs f (bias_at pl seg) (pl_ph pl)) as [reads ok] eqn:Er.
  destruct ok; cbn [negb]; [|by intros [= <-]].
  unfold rewrite_pass. rewrite Hrw. cbn [negb mbind option_bind].
  destruct (protect_runs H (bias_at pl seg) (pl_ph pl) _ 0) as [prots rc] eqn:Ep.
  destruct rc as [rc|].
  { intros [= <-] Hok. apply protect_rc in Ep. cbn [m_rc] in Hok.
    unfold CNG_LOAD_EEXEC, CNG_LOAD_EMAP, CNG_LOAD_OK in *. lia. }
  intros [= <-] _ Hp Hl Hi. cbn [m_ops m_bias].
  destruct (image_address p i seg true E Hp Hl Hi) as [-> Hrange].
  change (mem_after f (mem_step f m0 (OpReserve seg (pl_hi pl - pl_lo pl + pool_len H)))
    (reads ++ prots) (place pl seg (p_vaddr p + i)) = seg_byte f p i).
  rewrite mem_after_app, (prots_mem _ _ _ _ _ _ _ _ _ Ep).
  rewrite (reads_mem H f Hpg Hflen pl seg Hpl Hseg Hin_file (pl_ph pl) _ reads p i) by done.
  unfold seg_byte. destruct (i <? p_filesz p); [done|]. cbn [mem_step].
  pose proof (pool_range H). apply put_in. lia.
Qed.
End Load.

(** C15: A load puts the image where it belongs, by either strategy.  When an
    object whose segments lie on pages of their own was loaded without -R, byte
    [i] of every segment is the file's byte at [p_offset + i] as far as the file
    part goes and zero from there to [p_memsz], at the load bias plus
    [p_vaddr]; this holds of anonymous loads, of file-backed loads and of loads
    that fell back from the first to the second, the zeros of a segment that is
    not writable excepted where it was mapped from the file. *)
Theorem elf_memory_exact (H : lhost) (f : list Z) (lf lf1 lf2 : bool) (pl : cng_elf_plan)
    (ld : cng_loaded) (ops : list mop) (m0 : Z -> Z)
    (Hpg : page_ok (h_page H)) (Hbytes : Forall byte_ok f)
    (Hflen : Z.of_nat (length f) < 2 ^ 61) (Hrw : h_rewrite H = false)
    (Hplan : elf_read_headers H f lf = (inr pl, lf1)) (Hres : reserve_ok H pl)
    (Hfile : forall p, p ∈ pl_ph pl -> is_load p = true ->
       p_offset p + p_filesz p <= Z.of_nat (length f))
    (Hap : ForallOrdPairs (apart H) (pl_ph pl))
    (Hmap : cng_elf_map H f pl lf1 = Some (inr ld, ops, lf2)) :
  forall p i, p ∈ pl_ph pl -> is_load p = true -> 0 <= i < p_memsz p ->
    i < p_filesz p \/ writable p \/ lf2 = false ->
    mem_after f m0 ops (u64 (ld_base ld + p_vaddr p) + i) = seg_byte f p i.
Proof.
  assert (Hpl : plan_ok H pl) by (by eapply headers_ok).
  intros p i Hp Hl Hi Hw. unfold cng_elf_map in Hmap.
  destruct (lf1 && negb (pl_file_ok pl)) eqn:E1; [done|].
  destruct (negb (pl_is_dyn pl) && _); [done|].
  assert (File : m_rc (map_file H pl) = CNG_LOAD_OK -> pl_file_ok pl = true -> lf2 = true ->
    forall m0, mem_after f m0 (m_ops (map_file H pl))
      (u64 (m_bias (map_file H pl) + p_vaddr p) + i) = seg_byte f p i).
  { intros Hrc Hfo -> m. apply map_file_mem; try done. naive_solver. }
  destruct lf1; cbn [andb] in E1.
  - apply negb_false_iff in E1. cbn [mbind option_bind] in Hmap.
    destruct (Z.eqb_spec (m_rc (map_file H pl)) CNG_LOAD_EEXEC) as [Ee|_].
    { unfold map_file in Ee. destruct (h_reserve H false); [|done].
      destruct (map_file_segs _ _ _ _) as [? []]; done. }
    destruct (Z.eqb_spec (m_rc (map_file H pl)) CNG_LOAD_OK) as [Eo|]; [|done].
    injection Hmap as <- <- <-. by apply File.
  - destruct (map_anon H f pl) as [m|] eqn:Em; [|done]. cbn [mbind option_bind] in Hmap.
    destruct (Z.eqb_spec (m_rc m) CNG_LOAD_EEXEC) as [Ee|Ee].
    + destruct (pl_file_ok pl) eqn:Efo; cbn [negb] in Hmap; [|done].
      destruct (Z.eqb_spec (m_rc (map_file H pl)) CNG_LOAD_OK) as [Eo|]; [|done].
      injection Hmap as <- <- <-. rewrite mem_after_app. by apply File.
    + destruct (Z.eqb_spec (m_rc m) CNG_LOAD_OK) as [Eo|]; [|done].
      injection Hmap as <- <- <-. cbn [loaded ld_base]. by eapply map_anon_mem.
Qed.

(** [exec0] with its data on a page of its own, on a host that refuses
    anonymous executable memory. *)
Definition data1 : Elf64_Phdr := Phdr PT_LOAD 6 180 0x4010b4 8 0x1000.
Definition host1 : lhost :=
  LHost 4096 false tramp0 mon0 mon0 (Some 0x81ed) (fun _ => true) (fun _ => Some 0x400000)
    (fun _ => true) (fun k => - L_EACCES).

Lemma elf_memory_exact_witness :
  exists pl ld ops, cng_elf_map host1 (exec_with data1) pl false = Some (inr ld, ops, true) /\
    mem_after (exec_with data1) (fun _ => 255) ops (u64 (ld_base ld + 0x4010b4) + 7) = 8 /\
    mem_after (exec_with data1) (fun _ => 255) ops (u64 (ld_base ld + 0x4010b4) + 100) = 0.
Proof.
  destruct (elf_read_headers host1 (exec_with data1) false) as [[rc|pl] lf1] eqn:Ep;
    [vm_compute in Ep; discriminate|].
  assert (Ep' := Ep). vm_compute in Ep'. injection Ep' as Epl Elf1. subst lf1.
  destruct (cng_elf_map host1 (exec_with data1) pl false) as [[[[rc|ld] ops] lf2]|] eqn:Em;
    [subst pl; vm_compute in Em; discriminate| |subst pl; vm_compute in Em; discriminate].
  assert (lf2 = true) as -> by (subst pl; vm_compute in Em; congruence).
  assert (P := elf_memory_exact host1 (exec_with data1) false false true pl ld ops (fun _ => 255)
    (or_introl eq_refl) (bytes_decided (exec_with data1) eq_refl) ltac:(vm_compute; reflexivity) eq_refl Ep).
  exists pl, ld, ops. split; [exact Em|].
  assert (Hres : reserve_ok host1 pl).
  { subst pl. intros anon seg [= <-]. destruct anon; vm_compute; (repeat split; congruence). }
  assert (Q : forall i, 0 <= i < 0x1000 ->
    mem_after (exec_with data1) (fun _ => 255) ops (u64 (ld_base ld + 0x4010b4) + i) =
    seg_byte (exec_with data1) data1 i).
  { intros i Hi. refine (P Hres _ _ Em data1 i _ eq_refl Hi _).
    - subst pl. intros p Hp _. repeat (apply elem_of_cons in Hp as [->|Hp];
        [vm_compute; congruence|]). by apply elem_of_nil in Hp.
    - subst pl. constructor; [|by repeat constructor]. constructor; [|constructor].
      intros _ _. left. vm_compute. congruence.
    - subst pl. right. left.
    - right. left. vm_compute. congruence. }
  split; rewrite Q by lia; vm_compute; reflexivity.
Defined.
