(* ===== verification/Stack.v ===== *)
(** * The initial stack (src/src/loader/stack.c)

    Memory is a function from addresses to bytes; the stack's region is where
    the kernel put it.  Strings are the caller's copies, by value. *)

From Stdlib Require Import ZArith Lia.
From stdpp Require Import base numbers list.
From S2P Require Import Prelude Page Cred Elf.

Open Scope Z_scope.

(** ** Memory *)

Abbreviation smem := (Z -> Z).

Definition put_bytes (m : smem) (a : Z) (l : list Z) : smem :=
  fun b => if (a <=? b) && (b <? a + Z.of_nat (length l))
           then default 0 (l !! Z.to_nat (b - a)) else m b.

Definition get_bytes (m : smem) (a : Z) (n : nat) : list Z :=
  map (fun i => m (a + Z.of_nat i)) (seq 0 n).

Fixpoint word_bytes (n : nat) (v : Z) : list Z :=
  match n with O => [] | S n => v mod 256 :: word_bytes n (v / 256) end.

Definition word_of (l : list Z) : Z := foldr (fun b z => b + 256 * z) 0 l.

Definition put_word (m : smem) (a v : Z) : smem := put_bytes m a (word_bytes 8 v).
Definition get_word (m : smem) (a : Z) : Z := word_of (get_bytes m a 8).

(** ** Inputs and results *)

Definition AT_NULL := 0.
Definition AT_PHDR := 3.
Definition AT_PHENT := 4.
Definition AT_PHNUM := 5.
Definition AT_PAGESZ := 6.
Definition AT_BASE := 7.
Definition AT_FLAGS := 8.
Definition AT_ENTRY := 9.
Definition AT_UID := 11.
Definition AT_EUID := 12.
Definition AT_GID := 13.
Definition AT_EGID := 14.
Definition AT_PLATFORM := 15.
Definition AT_HWCAP := 16.
Definition AT_CLKTCK := 17.
Definition AT_SECURE := 23.
Definition AT_RANDOM := 25.
Definition AT_HWCAP2 := 26.
Definition AT_EXECFN := 31.
Definition AT_SYSINFO_EHDR := 33.
Definition AT_MINSIGSTKSZ := 51.

Definition GUEST_STACK_SIZE := Z.shiftl 64 20.

(** "aarch64" with its terminator. *)
Definition platform : list Z := [97; 97; 114; 99; 104; 54; 52; 0].

Record stack_in := StackIn {
  si_page : Z;
  si_argv : list (list Z);
  si_envp : list (list Z);
  si_execfn : option (list Z);
  si_host_auxv : list (Z * Z);       (* up to AT_NULL; empty for a null pointer *)
  si_prog : cng_loaded;
  si_interp : option cng_loaded;
  si_cred : option cng_cred;         (* the set under --fake-id *)
  si_mmap : option Z;                (* the region, where the kernel gives one *)
  si_guard : bool;                   (* mprotect of the guard *)
  si_getrandom : option (list Z) }.  (* 16 bytes, or fewer than asked *)

Record stack_globals := StackGlobals {
  g_stack_lo : Z; g_stack_len : Z;
  g_arg_start : Z; g_arg_end : Z; g_env_start : Z; g_env_end : Z }.

(** [cng_die], the 0 a caller answers E2BIG to, or the stack pointer, the
    memory and the globals. *)
Inductive stack_out :=
  | SDie
  | STooBig (unmap_lo unmap_len : Z)
  | SBuilt (sp : Z) (m : smem) (g : stack_globals).

(** ** Pieces *)

Fixpoint auxval (av : list (Z * Z)) (t : Z) : Z :=
  match av with
  | [] => 0
  | (t', v) :: av => if t' =? t then v else auxval av t
  end.

Definition str_len (s : list Z) : Z := Z.of_nat (length s) + 1.
Definition strs_len (ss : list (list Z)) : Z := foldr (fun s n => str_len s + n) 0 ss.

(** [PUT_STR] of each string, its address into the vector at [slot]. *)
Fixpoint put_strs (m : smem) (slot at_ : Z) (ss : list (list Z)) : smem * Z :=
  match ss with
  | [] => (m, at_)
  | s :: ss =>
      put_strs (put_word (put_bytes m at_ (s ++ [0])) slot at_) (slot + 8) (at_ + str_len s) ss
  end.

(** [w[idx++] = v[i]] over a vector. *)
Fixpoint copy_vec (m : smem) (dst src : Z) (n : nat) : smem :=
  match n with
  | O => m
  | S n => copy_vec (put_word m dst (get_word m src)) (dst + 8) (src + 8) n
  end.

Fixpoint put_words (m : smem) (dst : Z) (ws : list Z) : smem :=
  match ws with [] => m | w :: ws => put_words (put_word m dst w) (dst + 8) ws end.

(** An entry only where the host has one. *)
Definition aux_if (av : list (Z * Z)) (t : Z) : list (Z * Z) :=
  let v := auxval av t in if v =? 0 then [] else [(t, v)].

Definition aux_ids (I : stack_in) : Z * Z * Z * Z :=
  match si_cred I with
  | Some c => (i_r (c_u c), i_e (c_u c), i_r (c_g c), i_e (c_g c))
  | None => let av := si_host_auxv I in
            (auxval av AT_UID, auxval av AT_EUID, auxval av AT_GID, auxval av AT_EGID)
  end.

Definition build_aux (I : stack_in) (execfn_addr platform_addr random_addr : Z) : list (Z * Z) :=
  let av := si_host_auxv I in
  let '(uid, euid, gid, egid) := aux_ids I in
  let clk := auxval av AT_CLKTCK in
  [(AT_PHDR, ld_phdr (si_prog I)); (AT_PHENT, ld_phent (si_prog I));
   (AT_PHNUM, ld_phnum (si_prog I)); (AT_PAGESZ, si_page I);
   (AT_BASE, match si_interp I with Some i => ld_base i | None => 0 end);
   (AT_FLAGS, 0); (AT_ENTRY, ld_entry (si_prog I)); (AT_EXECFN, execfn_addr);
   (AT_PLATFORM, platform_addr); (AT_RANDOM, random_addr);
   (AT_UID, uid); (AT_EUID, euid); (AT_GID, gid); (AT_EGID, egid);
   (AT_SECURE, if negb (uid =? euid) || negb (gid =? egid) then 1 else 0);
   (AT_CLKTCK, if clk =? 0 then 100 else clk)]
  ++ aux_if av AT_HWCAP ++ aux_if av AT_HWCAP2 ++ aux_if av AT_SYSINFO_EHDR
  ++ aux_if av AT_MINSIGSTKSZ ++ [(AT_NULL, 0)].

(** The AT_RANDOM bytes. *)
Definition put_random (I : stack_in) (m : smem) (a : Z) : smem :=
  match si_getrandom I with
  | Some r => put_bytes m a r
  | None =>
      let hr := auxval (si_host_auxv I) AT_RANDOM in
      if hr =? 0 then put_bytes m a (replicate 16 0x5a)
      else put_bytes m a (get_bytes m hr 16)
  end.

(** The strings from [sp_str] on, the addresses into the two vectors at
    [bottom], and the zero word above them: the memory, the end of the argument
    strings and the end of the environment's. *)
Definition put_area (I : stack_in) (execfn : list Z) (m : smem) (bottom sp_str : Z)
    : smem * Z * Z :=
  let '(m, arg_end) := put_strs m bottom sp_str (si_argv I) in
  let '(m, env_end) := put_strs m (bottom + 8 * Z.of_nat (length (si_argv I))) arg_end
                         (si_envp I) in
  let m := put_bytes m env_end (execfn ++ [0]) in
  (put_word m (env_end + str_len execfn) 0, arg_end, env_end).

(** The vectors at [sp], the addresses read back from [bottom]. *)
Definition put_vectors (I : stack_in) (aux : list (Z * Z)) (m : smem) (bottom sp : Z) : smem :=
  let argc := Z.of_nat (length (si_argv I)) in
  let envc := Z.of_nat (length (si_envp I)) in
  let m := put_word m sp argc in
  let m := copy_vec m (sp + 8) bottom (length (si_argv I)) in
  let m := put_word m (sp + 8 * (argc + 1)) 0 in
  let m := copy_vec m (sp + 8 * (argc + 2)) (bottom + 8 * argc) (length (si_envp I)) in
  let m := put_word m (sp + 8 * (argc + envc + 2)) 0 in
  put_words m (sp + 8 * (argc + envc + 3)) (flat_map (fun e => [e.1; e.2]) aux).

Definition execfn_str (I : stack_in) : list Z :=
  match si_execfn I with
  | Some s => s
  | None => match si_argv I with s :: _ => s | [] => [] end
  end.

Definition areabytes (I : stack_in) : Z :=
  u64 (str_len (execfn_str I) + strs_len (si_argv I) + strs_len (si_envp I)).

(** The bytes the stack needs at most. *)
Definition stack_need (I : stack_in) : Z :=
  let argc := Z.of_nat (length (si_argv I)) in
  let envc := Z.of_nat (length (si_envp I)) in
  let strbytes := u64 (8 + areabytes I + 8 + 16) in
  u64 (2 * (argc + envc) * 8 + strbytes + (3 + 64 * 2) * 8 + 64).

(** ** [cng_build_stack] *)

Definition cng_build_stack (I : stack_in) (m : smem) : stack_out :=
  let argc := Z.of_nat (length (si_argv I)) in
  let envc := Z.of_nat (length (si_envp I)) in
  let guard := 256 * si_page I in
  let region := guard + GUEST_STACK_SIZE in
  match si_mmap I with
  | None => SDie
  | Some stk =>
      if negb (si_guard I) then SDie
      else
        let bottom := stk + guard in
        let top := bottom + GUEST_STACK_SIZE in
        if GUEST_STACK_SIZE <? stack_need I then STooBig stk region
        else
          let sp_str := top - 8 - areabytes I in
          let '(m, arg_end, env_end) := put_area I (execfn_str I) m bottom sp_str in
          let platform_addr := sp_str - 8 in
          let m := put_bytes m platform_addr platform in
          let random_addr := Z.ldiff (platform_addr - 16) 15 in
          let m := put_random I m random_addr in
          let aux := build_aux I env_end platform_addr random_addr in
          let words := 1 + (argc + 1) + (envc + 1) + Z.of_nat (length aux) * 2 in
          let sp := Z.ldiff (random_addr - words * 8) 15 in
          SBuilt sp (put_vectors I aux m bottom sp)
            (StackGlobals stk region sp_str arg_end arg_end env_end)
  end.
