(* ===== verification/StackProps.v ===== *)
(** * The initial stack: memory, strings and vectors *)

From Stdlib Require Import ZArith Lia.
From stdpp Require Import base numbers list.
From S2P Require Import Prelude Cred Page Elf Stack.

Open Scope Z_scope.

(** ** Bytes and words *)

Lemma put_bytes_out m a l b :
  b < a \/ a + Z.of_nat (length l) <= b -> put_bytes m a l b = m b.
Proof.
  intros H. unfold put_bytes. destruct (Z.leb_spec a b), (Z.ltb_spec b (a + Z.of_nat (length l)));
    cbn [andb]; lia || done.
Qed.

Lemma get_bytes_length m a n : length (get_bytes m a n) = n.
Proof. unfold get_bytes. by rewrite length_map, length_seq. Qed.

Lemma get_bytes_lookup m a n i : (i < n)%nat -> get_bytes m a n !! i = Some (m (a + Z.of_nat i)).
Proof.
  intros Hi. unfold get_bytes. change (map ?f ?l) with (f <$> l).
  rewrite list_lookup_fmap, lookup_seq_lt by lia. done.
Qed.

Lemma get_bytes_ext m m' a n :
  (forall b, a <= b < a + Z.of_nat n -> m' b = m b) -> get_bytes m' a n = get_bytes m a n.
Proof.
  intros He. unfold get_bytes. apply map_ext_in. intros i Hi%in_seq. apply He. lia.
Qed.

Lemma get_put_bytes m a l : get_bytes (put_bytes m a l) a (length l) = l.
Proof.
  apply list_eq. intros i. destruct (Nat.lt_ge_cases i (length l)) as [Hi|Hi].
  - rewrite get_bytes_lookup by done. unfold put_bytes.
    rewrite (proj2 (Z.leb_le _ _)), (proj2 (Z.ltb_lt _ _)) by lia. cbn [andb].
    replace (Z.to_nat (a + Z.of_nat i - a)) with i by lia.
    destruct (lookup_lt_is_Some_2 l i Hi) as [x Hx]. by rewrite Hx.
  - rewrite !lookup_ge_None_2; [done|done|by rewrite get_bytes_length].
Qed.

Lemma word_bytes_length n v : length (word_bytes n v) = n.
Proof. revert v. induction n as [|n IH]; intros v; cbn [word_bytes length]; [done|]. by rewrite IH. Qed.

Lemma word_of_bytes n : forall v, 0 <= v < 256 ^ Z.of_nat n -> word_of (word_bytes n v) = v.
Proof.
  induction n as [|n IH]; intros v Hv; [simpl in *; lia|].
  rewrite Nat2Z.inj_succ, Z.pow_succ_r in Hv by lia. cbn [word_bytes]. unfold word_of. cbn [foldr].
  fold (word_of (word_bytes n (v / 256))). rewrite IH.
  - pose proof (Z.div_mod v 256). lia.
  - split; [apply Z.div_pos; lia|apply Z.div_lt_upper_bound; lia].
Qed.

Lemma put_word_out m a v b : b < a \/ a + 8 <= b -> put_word m a v b = m b.
Proof. intros H. apply put_bytes_out. by rewrite word_bytes_length. Qed.

Lemma get_put_word m a v : 0 <= v < 2 ^ 64 -> get_word (put_word m a v) a = v.
Proof.
  intros Hv. unfold get_word, put_word.
  pose proof (get_put_bytes m a (word_bytes 8 v)) as E. rewrite word_bytes_length in E.
  rewrite E. by apply word_of_bytes.
Qed.

Lemma get_word_ext m m' a :
  (forall b, a <= b < a + 8 -> m' b = m b) -> get_word m' a = get_word m a.
Proof. intros He. unfold get_word. f_equal. by apply get_bytes_ext. Qed.

(** ** Strings behind a vector *)

(** The vector at [slot] points at the strings of [ss], which lie one behind
    the other from [at_] on. *)
Definition strings_at (m : smem) (slot at_ : Z) (ss : list (list Z)) : Prop :=
  forall i s, ss !! i = Some s ->
    get_word m (slot + 8 * Z.of_nat i) = at_ + strs_len (take i ss) /\
    get_bytes m (at_ + strs_len (take i ss)) (S (length s)) = s ++ [0].

Lemma strs_len_cons s ss : strs_len (s :: ss) = str_len s + strs_len ss.
Proof. done. Qed.

Lemma strs_len_nonneg ss : 0 <= strs_len ss.
Proof.
  induction ss as [|s ss IH]; [done|]. rewrite strs_len_cons. unfold str_len. lia.
Qed.

Lemma strs_len_take ss : forall i s,
  ss !! i = Some s -> strs_len (take i ss) + str_len s <= strs_len ss.
Proof.
  induction ss as [|x ss IH]; intros [|i] s; cbn [lookup list_lookup take]; try done.
  - intros [= ->]. rewrite strs_len_cons. pose proof (strs_len_nonneg ss).
    change (strs_len []) with 0. lia.
  - intros H. apply IH in H. rewrite !strs_len_cons. lia.
Qed.

(** What a store elsewhere leaves alone. *)
Lemma strings_at_frame m m' slot at_ ss :
  strings_at m slot at_ ss ->
  (forall b, slot <= b < slot + 8 * Z.of_nat (length ss) \/ at_ <= b < at_ + strs_len ss ->
     m' b = m b) ->
  strings_at m' slot at_ ss.
Proof.
  intros Hs He i s Hi. destruct (Hs i s Hi) as [H1 H2].
  pose proof (lookup_lt_Some _ _ _ Hi) as Hlt. pose proof (strs_len_take _ _ _ Hi) as Ht.
  pose proof (strs_len_nonneg (take i ss)) as H0. unfold str_len in Ht. split.
  - rewrite <-H1. apply get_word_ext. intros b Hb. apply He. lia.
  - rewrite <-H2. apply get_bytes_ext. intros b Hb. apply He. lia.
Qed.

Lemma put_strs_spec ss : forall m slot at_ m' e,
  put_strs m slot at_ ss = (m', e) ->
  slot + 8 * Z.of_nat (length ss) <= at_ -> 0 <= at_ -> at_ + strs_len ss < 2 ^ 64 ->
  e = at_ + strs_len ss /\ strings_at m' slot at_ ss /\
  forall b, ~ (slot <= b < slot + 8 * Z.of_nat (length ss)) -> ~ (at_ <= b < at_ + strs_len ss) ->
    m' b = m b.
Proof.
  induction ss as [|s ss IH]; intros m slot at_ m' e; cbn [put_strs].
  { intros [= <- <-] _ _ _. change (strs_len []) with 0. split; [lia|]. split; [by intros i s Hi|done]. }
  rewrite strs_len_cons. cbn [length]. intros E Hd H0 Hb.
  pose proof (strs_len_nonneg ss) as Hn. unfold str_len in *.
  apply IH in E as (-> & I2 & I3); [|lia|lia|lia]. split; [lia|].
  assert (Hl : Z.of_nat (length (s ++ [0])) = Z.of_nat (length s) + 1)
    by (rewrite length_app; simpl; lia).
  assert (Hstr : get_bytes (put_word (put_bytes m at_ (s ++ [0])) slot at_) at_ (S (length s)) = s ++ [0]).
  { rewrite <-(get_put_bytes m at_ (s ++ [0])) at 2. rewrite length_app, Nat.add_comm.
    apply get_bytes_ext. intros b Hb'. apply put_word_out. lia. }
  split.
  - intros [|i] x Hx; cbn [lookup list_lookup take] in *.
    + injection Hx as <-. change (strs_len []) with 0. rewrite !Z.add_0_r. split.
      * etransitivity; [apply get_word_ext; intros b Hb'; apply I3; lia|].
        apply get_put_word. lia.
      * rewrite <-Hstr. apply get_bytes_ext. intros b Hb'. apply I3; lia.
    + rewrite strs_len_cons. destruct (I2 i x Hx) as [J1 J2]. unfold str_len.
      replace (slot + 8 * Z.of_nat (S i)) with (slot + 8 + 8 * Z.of_nat i) by lia.
      replace (at_ + (Z.of_nat (length s) + 1 + strs_len (take i ss)))
        with (at_ + (Z.of_nat (length s) + 1) + strs_len (take i ss)) by lia. done.
  - intros b H1 H2. rewrite I3 by lia. rewrite put_word_out by lia. apply put_bytes_out. lia.
Qed.

(** ** Vectors *)

Lemma copy_vec_spec n : forall m dst src,
  src + 8 * Z.of_nat n <= dst ->
  let m' := copy_vec m dst src n in
  (forall i, (i < n)%nat -> 0 <= get_word m (src + 8 * Z.of_nat i) < 2 ^ 64 ->
     get_word m' (dst + 8 * Z.of_nat i) = get_word m (src + 8 * Z.of_nat i)) /\
  forall b, b < dst \/ dst + 8 * Z.of_nat n <= b -> m' b = m b.
Proof.
  induction n as [|n IH]; intros m dst src Hd; cbn [copy_vec]; [split; [lia|done]|].
  set (m1 := put_word m dst (get_word m src)).
  destruct (IH m1 (dst + 8) (src + 8) ltac:(lia)) as [I1 I2].
  assert (Hsrc : forall i, (i < S n)%nat -> get_word m1 (src + 8 * Z.of_nat i)
    = get_word m (src + 8 * Z.of_nat i)).
  { intros i Hi. apply get_word_ext. intros b Hb. apply put_word_out. lia. }
  split.
  - intros [|i] Hi Hw.
    + rewrite !Z.add_0_r in *. etransitivity.
      { apply get_word_ext. intros b Hb. apply I2. lia. } by apply get_put_word.
    + pose proof (Hsrc (S i) Hi) as Es.
      replace (src + 8 * Z.of_nat (S i)) with (src + 8 + 8 * Z.of_nat i) in * by lia.
      replace (dst + 8 * Z.of_nat (S i)) with (dst + 8 + 8 * Z.of_nat i) by lia.
      rewrite I1 by (lia || by rewrite Es). exact Es.
  - intros b Hb. rewrite I2 by lia. apply put_word_out. lia.
Qed.

Lemma copy_vec_strings m dst src at_ ss :
  strings_at m src at_ ss -> src + 8 * Z.of_nat (length ss) <= dst ->
  dst + 8 * Z.of_nat (length ss) <= at_ -> 0 <= at_ -> at_ + strs_len ss < 2 ^ 64 ->
  strings_at (copy_vec m dst src (length ss)) dst at_ ss.
Proof.
  intros Hs Hd Ha H0 Hb i s Hi. destruct (Hs i s Hi) as [H1 H2].
  destruct (copy_vec_spec (length ss) m dst src Hd) as [C1 C2].
  pose proof (lookup_lt_Some _ _ _ Hi) as Hlt. pose proof (strs_len_take _ _ _ Hi) as Ht.
  pose proof (strs_len_nonneg (take i ss)) as Hn. unfold str_len in Ht. split.
  - rewrite C1 by (lia || rewrite H1; lia). exact H1.
  - rewrite <-H2. apply get_bytes_ext. intros b Hb'. apply C2. lia.
Qed.

Lemma put_words_spec ws : forall m dst,
  let m' := put_words m dst ws in
  (forall i w, ws !! i = Some w -> 0 <= w < 2 ^ 64 -> get_word m' (dst + 8 * Z.of_nat i) = w) /\
  forall b, b < dst \/ dst + 8 * Z.of_nat (length ws) <= b -> m' b = m b.
Proof.
  induction ws as [|w ws IH]; intros m dst; cbn [put_words length]; [by split|].
  destruct (IH (put_word m dst w) (dst + 8)) as [I1 I2]. split.
  - intros [|i] x; cbn [lookup list_lookup].
    + intros [= <-] Hw. rewrite Z.add_0_r. etransitivity.
      { apply get_word_ext. intros b Hb. apply I2. lia. } by apply get_put_word.
    + intros Hx Hw. replace (dst + 8 * Z.of_nat (S i)) with (dst + 8 + 8 * Z.of_nat i) by lia.
      by apply I1.
  - intros b Hb. rewrite I2 by lia. apply put_word_out. lia.
Qed.

(** ** Alignment *)

Lemma align16 x : Z.ldiff x 15 <= x < Z.ldiff x 15 + 16 /\ Z.ldiff x 15 mod 16 = 0.
Proof.
  change 15 with (Z.ones 4). rewrite Z.ldiff_ones_r by lia.
  rewrite Z.shiftl_mul_pow2, Z.shiftr_div_pow2 by lia. change (2 ^ 4) with 16.
  pose proof (Z.div_mod x 16). pose proof (Z.mod_pos_bound x 16).
  split; [lia|]. by apply Z.mod_mul.
Qed.

(** * The initial stack: theorems *)

Section Stack.
Context (I : stack_in).
Notation argc := (Z.of_nat (length (si_argv I))).
Notation envc := (Z.of_nat (length (si_envp I))).
Notation area := (str_len (execfn_str I) + strs_len (si_argv I) + strs_len (si_envp I)).

(** ** The strings *)

Lemma area_spec m bottom sp_str m' arg_end env_end :
  put_area I (execfn_str I) m bottom sp_str = (m', arg_end, env_end) ->
  0 <= bottom -> bottom + 8 * (argc + envc) <= sp_str -> sp_str + area + 8 < 2 ^ 63 ->
  arg_end = sp_str + strs_len (si_argv I) /\ env_end = arg_end + strs_len (si_envp I) /\
  strings_at m' bottom sp_str (si_argv I) /\
  strings_at m' (bottom + 8 * argc) arg_end (si_envp I) /\
  get_bytes m' env_end (S (length (execfn_str I))) = execfn_str I ++ [0] /\
  get_word m' (sp_str + area) = 0 /\
  forall b, ~ (bottom <= b < bottom + 8 * (argc + envc)) -> ~ (sp_str <= b < sp_str + area + 8) ->
    m' b = m b.
Proof.
  intros E H0 Hd Hb. unfold put_area in E.
  pose proof (strs_len_nonneg (si_argv I)) as N1. pose proof (strs_len_nonneg (si_envp I)) as N2.
  unfold str_len in *. set (x := execfn_str I) in *.
  assert (Hl : Z.of_nat (length (x ++ [0])) = Z.of_nat (length x) + 1)
    by (rewrite length_app; simpl; lia).
  destruct (put_strs m bottom sp_str (si_argv I)) as [m1 e1] eqn:E1.
  apply put_strs_spec in E1 as (-> & S1 & F1); [|lia|lia|lia].
  destruct (put_strs m1 _ _ (si_envp I)) as [m2 e2] eqn:E2.
  apply put_strs_spec in E2 as (-> & S2 & F2); [|lia|lia|lia].
  injection E as <- <- <-. split; [done|]. split; [done|].
  set (e := sp_str + strs_len (si_argv I) + strs_len (si_envp I)) in *.
  set (m3 := put_bytes m2 e (x ++ [0])).
  assert (F3 : forall b, b < e -> put_word m3 (e + (Z.of_nat (length x) + 1)) 0 b = m2 b).
  { intros b Hlt. rewrite put_word_out by lia. apply put_bytes_out. lia. }
  split; [|split; [|split; [|split]]].
  - eapply strings_at_frame; [exact S1|]. intros b Hr. rewrite F3, F2 by lia. done.
  - eapply strings_at_frame; [exact S2|]. intros b Hr. apply F3. lia.
  - pose proof (get_put_bytes m2 e (x ++ [0])) as G. rewrite length_app, Nat.add_comm in G.
    etransitivity; [|exact G]. apply get_bytes_ext. intros b Hr. apply put_word_out.
    simpl in Hr. lia.
  - replace (sp_str + _) with (e + (Z.of_nat (length x) + 1)) by lia. by apply get_put_word.
  - intros b H1 H2. rewrite put_word_out by lia. unfold m3.
    rewrite put_bytes_out, F2, F1 by lia. done.
Qed.

(** ** The vectors *)

(** The pairs from [a] on. *)
Definition aux_at (m : smem) (a : Z) (aux : list (Z * Z)) : Prop :=
  forall i t v, aux !! i = Some (t, v) ->
    get_word m (a + 16 * Z.of_nat i) = t /\ get_word m (a + 16 * Z.of_nat i + 8) = v.

Lemma pairs_lookup (aux : list (Z * Z)) : forall i t v,
  aux !! i = Some (t, v) ->
  flat_map (fun e => [e.1; e.2]) aux !! (2 * i)%nat = Some t /\
  flat_map (fun e => [e.1; e.2]) aux !! (2 * i + 1)%nat = Some v.
Proof.
  induction aux as [|[t' v'] aux IH]; intros [|i] t v; cbn [lookup list_lookup]; try done.
  - by intros [= -> ->].
  - intros Hi. replace (2 * S i)%nat with (S (S (2 * i))) by lia. by apply IH.
Qed.

Lemma pairs_length (aux : list (Z * Z)) :
  length (flat_map (fun e => [e.1; e.2]) aux) = (2 * length aux)%nat.
Proof. induction aux as [|e aux IH]; [done|]. cbn [flat_map app length]. rewrite IH. lia. Qed.

Definition words_len (aux : list (Z * Z)) : Z := 8 * (argc + envc + 3 + 2 * Z.of_nat (length aux)).

Lemma vectors_spec aux m bottom sp arg_start env_start :
  strings_at m bottom arg_start (si_argv I) ->
  strings_at m (bottom + 8 * argc) env_start (si_envp I) ->
  0 <= bottom -> bottom + 8 * (argc + envc) <= sp -> sp + words_len aux <= arg_start ->
  arg_start + strs_len (si_argv I) = env_start -> env_start + strs_len (si_envp I) < 2 ^ 63 ->
  Forall (fun e => 0 <= e.1 < 2 ^ 64 /\ 0 <= e.2 < 2 ^ 64) aux ->
  let m' := put_vectors I aux m bottom sp in
  get_word m' sp = argc /\
  strings_at m' (sp + 8) arg_start (si_argv I) /\
  get_word m' (sp + 8 * (argc + 1)) = 0 /\
  strings_at m' (sp + 8 * (argc + 2)) env_start (si_envp I) /\
  get_word m' (sp + 8 * (argc + envc + 2)) = 0 /\
  aux_at m' (sp + 8 * (argc + envc + 3)) aux /\
  forall b, b < sp \/ sp + words_len aux <= b -> m' b = m b.
Proof.
  unfold words_len. intros SA SE H0 Hd Hw Ee Hb Haux.
  pose proof (strs_len_nonneg (si_argv I)) as N1. pose proof (strs_len_nonneg (si_envp I)) as N2.
  unfold put_vectors.
  set (m1 := put_word m sp argc).
  assert (F1 : forall b, b < sp \/ sp + 8 <= b -> m1 b = m b) by (intros; by apply put_word_out).
  destruct (copy_vec_spec (length (si_argv I)) m1 (sp + 8) bottom ltac:(lia)) as [_ F2].
  set (m2 := copy_vec m1 (sp + 8) bottom (length (si_argv I))) in *.
  assert (S2 : strings_at m2 (sp + 8) arg_start (si_argv I)).
  { apply copy_vec_strings; try lia. eapply strings_at_frame; [exact SA|].
    intros b Hr. apply F1. lia. }
  set (m3 := put_word m2 (sp + 8 * (argc + 1)) 0).
  assert (F3 : forall b, b < sp + 8 * (argc + 1) \/ sp + 8 * (argc + 1) + 8 <= b -> m3 b = m2 b)
    by (intros; by apply put_word_out).
  destruct (copy_vec_spec (length (si_envp I)) m3 (sp + 8 * (argc + 2)) (bottom + 8 * argc)
    ltac:(lia)) as [_ F4].
  set (m4 := copy_vec m3 (sp + 8 * (argc + 2)) (bottom + 8 * argc) (length (si_envp I))) in *.
  assert (S4 : strings_at m4 (sp + 8 * (argc + 2)) env_start (si_envp I)).
  { apply copy_vec_strings; try lia. eapply strings_at_frame; [exact SE|].
    intros b Hr. rewrite F3, F2, F1 by lia. done. }
  set (m5 := put_word m4 (sp + 8 * (argc + envc + 2)) 0).
  assert (F5 : forall b, b < sp + 8 * (argc + envc + 2) \/ sp + 8 * (argc + envc + 2) + 8 <= b ->
    m5 b = m4 b) by (intros; by apply put_word_out).
  destruct (put_words_spec (flat_map (fun e => [e.1; e.2]) aux) m5
    (sp + 8 * (argc + envc + 3))) as [W6 F6]. rewrite pairs_length in F6.
  set (m6 := put_words m5 _ _) in *.
  split; [|split; [|split; [|split; [|split; [|split]]]]].
  - etransitivity; [apply get_word_ext; intros b Hr; rewrite F6, F5, F4, F3, F2 by lia; reflexivity|].
    apply get_put_word. lia.
  - eapply strings_at_frame; [exact S2|]. intros b Hr. rewrite F6, F5, F4, F3 by lia. done.
  - etransitivity; [apply get_word_ext; intros b Hr; rewrite F6, F5, F4 by lia; reflexivity|].
    by apply get_put_word.
  - eapply strings_at_frame; [exact S4|]. intros b Hr. rewrite F6, F5 by lia. done.
  - etransitivity; [apply get_word_ext; intros b Hr; rewrite F6 by lia; reflexivity|].
    by apply get_put_word.
  - intros i t v Hi. destruct (pairs_lookup _ _ _ _ Hi) as [L1 L2].
    rewrite Forall_forall in Haux. destruct (Haux _ (list_elem_of_lookup_2 _ _ _ Hi)) as [B1 B2].
    apply (W6 _ _ L1) in B1. apply (W6 _ _ L2) in B2.
    split; [rewrite <-B1|rewrite <-B2]; f_equal; lia.
  - intros b Hr. rewrite F6, F5, F4, F3, F2, F1 by lia. done.
Qed.
(** ** The auxiliary vector *)

Definition is_word (v : Z) : Prop := 0 <= v < 2 ^ 64.

Lemma aux_if_length av t : (length (aux_if av t) <= 1)%nat.
Proof. unfold aux_if. case_if; simpl; lia. Qed.

Lemma aux_length x p r : (length (build_aux I x p r) <= 21)%nat.
Proof.
  unfold build_aux. destruct (aux_ids I) as [[[uid euid] gid] egid].
  rewrite !length_app. cbn [length].
  pose proof (aux_if_length (si_host_auxv I) AT_HWCAP).
  pose proof (aux_if_length (si_host_auxv I) AT_HWCAP2).
  pose proof (aux_if_length (si_host_auxv I) AT_SYSINFO_EHDR).
  pose proof (aux_if_length (si_host_auxv I) AT_MINSIGSTKSZ). lia.
Qed.

(** The entries other than the three addresses are words or they are not,
    wherever the strings are. *)
Lemma aux_words x p r :
  Forall (fun e => is_word e.1 /\ is_word e.2) (build_aux I 0 0 0) ->
  is_word x -> is_word p -> is_word r ->
  Forall (fun e => 0 <= e.1 < 2 ^ 64 /\ 0 <= e.2 < 2 ^ 64) (build_aux I x p r).
Proof.
  unfold build_aux. destruct (aux_ids I) as [[[uid euid] gid] egid].
  rewrite !Forall_app, !Forall_cons. unfold is_word. cbn [fst snd]. tauto.
Qed.

(** ** The random bytes *)

Hypothesis Hrandom : forall l, si_getrandom I = Some l -> length l = 16%nat.

Lemma put_random_out m a b : b < a \/ a + 16 <= b -> put_random I m a b = m b.
Proof.
  intros Hb. unfold put_random. destruct (si_getrandom I) as [l|] eqn:E.
  - apply put_bytes_out. rewrite (Hrandom l eq_refl). simpl. lia.
  - case_if; apply put_bytes_out; rewrite ?length_replicate, ?get_bytes_length; simpl; lia.
Qed.

Lemma put_random_bytes m a l :
  si_getrandom I = Some l -> get_bytes (put_random I m a) a 16 = l.
Proof.
  intros E. unfold put_random. rewrite E, <-(Hrandom l E). apply get_put_bytes.
Qed.

(** The strings, the platform name below them and the random bytes at [r]
    below that. *)
Lemma strings_spec m bottom str r m1 arg_end env_end :
  put_area I (execfn_str I) m bottom str = (m1, arg_end, env_end) ->
  0 <= bottom -> bottom + 8 * (argc + envc) <= r -> r + 16 <= str - 8 -> str + area + 8 < 2 ^ 63 ->
  let m2 := put_random I (put_bytes m1 (str - 8) platform) r in
  arg_end = str + strs_len (si_argv I) /\ env_end = arg_end + strs_len (si_envp I) /\
  strings_at m2 bottom str (si_argv I) /\
  strings_at m2 (bottom + 8 * argc) arg_end (si_envp I) /\
  get_bytes m2 env_end (S (length (execfn_str I))) = execfn_str I ++ [0] /\
  get_bytes m2 (str - 8) 8 = platform /\
  (forall l, si_getrandom I = Some l -> get_bytes m2 r 16 = l) /\
  forall b, ~ (bottom <= b < bottom + 8 * (argc + envc)) -> ~ (r <= b < str + area + 8) ->
    m2 b = m b.
Proof.
  intros E1 H0 Hd Hr Hb m2. apply area_spec in E1 as (Ae & Ee & A1 & A2 & A3 & A4 & A5); [|lia..].
  pose proof (strs_len_nonneg (si_argv I)) as N1. pose proof (strs_len_nonneg (si_envp I)) as N2.
  assert (Hx : str_len (execfn_str I) = Z.of_nat (length (execfn_str I)) + 1) by done.
  assert (F2 : forall b, b < r \/ r + 16 <= b < str - 8 \/ str <= b -> m2 b = m1 b).
  { intros b Hb'. unfold m2. rewrite put_random_out by lia. apply put_bytes_out.
    cbn [length platform]. lia. }
  split; [done|]. split; [done|]. split; [|split; [|split; [|split; [|split]]]].
  - eapply strings_at_frame; [exact A1|]. intros b Hb'. apply F2. lia.
  - eapply strings_at_frame; [exact A2|]. intros b Hb'. apply F2. lia.
  - rewrite <-A3. apply get_bytes_ext. intros b Hb'. apply F2. lia.
  - etransitivity; [|exact (get_put_bytes m1 (str - 8) platform)]. cbn [length platform].
    apply get_bytes_ext. intros b Hb'. apply put_random_out. simpl in Hb'. lia.
  - intros l Hl. by apply put_random_bytes.
  - intros b H1 H2. rewrite F2, A5 by lia. done.
Qed.

(** ** What the program finds at [sp] *)

Record stack_view (m0 : smem) (stk sp : Z) (m : smem) (g : stack_globals) (x p r : Z) : Prop := View {
  v_align : sp mod 16 = 0;
  v_room : stk + 256 * si_page I + 8 * (argc + envc) <= sp;
  v_argc : get_word m sp = argc;
  v_argv : strings_at m (sp + 8) (g_arg_start g) (si_argv I);
  v_argv_end : get_word m (sp + 8 * (argc + 1)) = 0;
  v_envp : strings_at m (sp + 8 * (argc + 2)) (g_env_start g) (si_envp I);
  v_envp_end : get_word m (sp + 8 * (argc + envc + 2)) = 0;
  v_aux : aux_at m (sp + 8 * (argc + envc + 3)) (build_aux I x p r);
  v_arg_end : g_arg_end g = g_arg_start g + strs_len (si_argv I);
  v_env : g_env_start g = g_arg_end g /\ g_env_end g = g_env_start g + strs_len (si_envp I);
  v_execfn : x = g_env_end g /\ get_bytes m x (S (length (execfn_str I))) = execfn_str I ++ [0];
  v_top : x + str_len (execfn_str I) + 8 = stk + 256 * si_page I + GUEST_STACK_SIZE;
  v_platform : get_bytes m p 8 = platform;
  v_random : r mod 16 = 0 /\ forall l, si_getrandom I = Some l -> get_bytes m r 16 = l;
  v_globals : g_stack_lo g = stk /\ g_stack_len g = 256 * si_page I + GUEST_STACK_SIZE;
  v_outside : forall b, ~ (stk + 256 * si_page I <= b <
    stk + 256 * si_page I + GUEST_STACK_SIZE) -> m b = m0 b }.

Lemma need_small :
  16 * (argc + envc) + area < 2 ^ 62 ->
  areabytes I = area /\
  stack_need I = 16 * (argc + envc) + area + 32 + 1048 + 64.
Proof.
  intros Hs. pose proof (strs_len_nonneg (si_argv I)). pose proof (strs_len_nonneg (si_envp I)).
  assert (Ea : areabytes I = area) by (apply wrapu_small; unfold str_len in *; lia).
  split; [done|]. unfold stack_need. rewrite Ea. unfold str_len in *.
  rewrite (wrapu_small 64 (8 + _ + _ + _)) by lia. rewrite wrapu_small by lia. lia.
Qed.
End Stack.

(** C16: The initial stack is what the program's start-up code expects to read,
    or nothing at all.  Where the vectors and strings fit the region, the stack
    pointer is 16-byte aligned and holds the argument count; the argument and
    environment vectors follow, each ended by a null, each entry the address of
    its string; the argument strings lie one behind the other, the environment's
    right behind them, the path of the program behind those under a zero word at
    the very top; the auxiliary vector follows the environment's, its AT_EXECFN,
    AT_PLATFORM and AT_RANDOM the addresses of those bytes, the last 16-byte
    aligned; the globals give the bounds of the strings; no byte outside the
    region above its guard is written.  Where they do not fit, the region is
    given back whole. *)
Theorem initial_stack_readable (I : stack_in) (m : smem) (stk : Z)
    (Hpg : page_ok (si_page I)) (Hmap : si_mmap I = Some stk) (Hguard : si_guard I = true)
    (Hstk : 0 < stk /\ stk + 256 * si_page I + GUEST_STACK_SIZE < 2 ^ 62)
    (Hrandom : forall l, si_getrandom I = Some l -> length l = 16%nat)
    (Haux : Forall (fun e => is_word e.1 /\ is_word e.2) (build_aux I 0 0 0)) :
  let n := 16 * Z.of_nat (length (si_argv I) + length (si_envp I)) +
    (str_len (execfn_str I) + strs_len (si_argv I) + strs_len (si_envp I)) in
  n < 2 ^ 62 ->
  if n + 1144 <=? GUEST_STACK_SIZE then
    exists sp m' g x p r, cng_build_stack I m = SBuilt sp m' g /\ stack_view I m stk sp m' g x p r
  else cng_build_stack I m = STooBig stk (256 * si_page I + GUEST_STACK_SIZE).
Proof.
  intros n Hn. unfold n in *. clear n. rewrite Nat2Z.inj_add in *.
  destruct (need_small I Hn) as [Ea En]. unfold cng_build_stack. rewrite Hmap, Hguard, Ea, En.
  cbn [negb]. set (area := str_len (execfn_str I) + strs_len (si_argv I) + strs_len (si_envp I)) in *.
  set (argc := Z.of_nat (length (si_argv I))) in *. set (envc := Z.of_nat (length (si_envp I))) in *.
  destruct (Z.leb_spec (16 * (argc + envc) + area + 1144) GUEST_STACK_SIZE) as [Hfit|Hbig].
  2: { by rewrite (proj2 (Z.ltb_lt _ _)) by lia. }
  rewrite (proj2 (Z.ltb_ge _ _)) by lia.
  pose proof (page_range _ Hpg) as Hr. set (bottom := stk + 256 * si_page I) in *.
  set (str := bottom + GUEST_STACK_SIZE - 8 - area) in *.
  pose proof (strs_len_nonneg (si_argv I)) as N1. pose proof (strs_len_nonneg (si_envp I)) as N2.
  assert (Hx : 0 < str_len (execfn_str I)) by (unfold str_len; lia).
  destruct (align16 (str - 8 - 16)) as [R1 R2]. set (r := Z.ldiff (str - 8 - 16) 15) in *.
  destruct (put_area I (execfn_str I) m bottom str) as [[m1 arg_end] env_end] eqn:E1.
  destruct (strings_spec I Hrandom m bottom str r m1 arg_end env_end E1)
    as (Ae & Ee & V1 & V2 & V3 & V4 & V5 & V6); fold argc envc area; try (unfold str in *; lia).
  fold argc envc area in V2, V6.
  set (m2 := put_random I (put_bytes m1 (str - 8) platform) r) in *.
  pose proof (aux_length I env_end (str - 8) r) as HL.
  set (aux := build_aux I env_end (str - 8) r) in *.
  set (words := 1 + (argc + 1) + (envc + 1) + Z.of_nat (length aux) * 2).
  destruct (align16 (r - words * 8)) as [S1 S2]. set (sp := Z.ldiff (r - words * 8) 15) in *.
  assert (Hroom : bottom + 8 * (argc + envc) <= sp) by (unfold words, str, argc, envc in *; lia).
  assert (Hw : words_len I aux = words * 8) by (unfold words_len, words; fold argc envc; lia).
  assert (Hwords : Forall (fun e => 0 <= e.1 < 2 ^ 64 /\ 0 <= e.2 < 2 ^ 64) aux)
    by (apply aux_words; unfold is_word, str in *; lia || done).
  destruct (vectors_spec I aux m2 bottom sp str arg_end V1 V2) as (W1 & W2 & W3 & W4 & W5 & W6 & W7);
    fold argc envc; try done; try (unfold str in *; lia).
  fold argc envc in W1, W3, W4, W5, W6. rewrite Hw in W7.
  set (m3 := put_vectors I aux m2 bottom sp) in *.
  assert (G : forall a n l, r <= a -> get_bytes m2 a n = l -> get_bytes m3 a n = l).
  { intros a n l Ha <-. apply get_bytes_ext. intros b Hb. apply W7. lia. }
  exists sp, m3, (StackGlobals stk (256 * si_page I + GUEST_STACK_SIZE) str arg_end arg_end env_end),
    env_end, (str - 8), r.
  split; [done|]. split; cbn [g_arg_start g_arg_end g_env_start g_env_end g_stack_lo g_stack_len];
    fold argc envc bottom; try done.
  - split; [done|]. apply G; [lia|done].
  - unfold str, area in *. lia.
  - apply G; [lia|done].
  - split; [done|]. intros l Hl. apply G; [lia|by apply V5].
  - intros b Hb. rewrite W7, V6 by (unfold str in *; lia). done.
Qed.

(** Two arguments and one variable, with fresh random bytes. *)
Definition stack0 : stack_in :=
  StackIn 4096 [[108; 115]; [45; 97]] [[65; 61; 49]] (Some [47; 98]) [(AT_HWCAP, 255); (AT_UID, 7)]
    (Loaded 0x4000b0 0x400040 56 2 0 0x400000 0x402000 0x400000 0x2000 [] false None) None None
    (Some 0x7f0000000000) true (Some (replicate 16 9)).

Lemma initial_stack_readable_witness :
  exists sp m' g, cng_build_stack stack0 (fun _ => 1) = SBuilt sp m' g /\
    get_word m' sp = 2 /\
    get_bytes m' (get_word m' (sp + 16)) 3 = [45; 97; 0] /\
    get_bytes m' (g_env_start g) 4 = [65; 61; 49; 0].
Proof.
  destruct (initial_stack_readable stack0 (fun _ => 1) 0x7f0000000000) as
    (sp & m' & g & x & p & r & E & V).
  - left. reflexivity.
  - reflexivity.
  - reflexivity.
  - vm_compute. split; congruence.
  - intros l [= <-]. reflexivity.
  - repeat (constructor; [vm_compute; repeat split; congruence|]). constructor.
  - vm_compute. reflexivity.
  - exists sp, m', g. split; [exact E|].
    destruct (v_argv _ _ _ _ _ _ _ _ _ V 1%nat [45; 97] eq_refl) as [A1 A2].
    destruct (v_envp _ _ _ _ _ _ _ _ _ V 0%nat [65; 61; 49] eq_refl) as [_ B2].
    split; [exact (v_argc _ _ _ _ _ _ _ _ _ V)|]. split.
    + replace (sp + 16) with (sp + 8 + 8 * Z.of_nat 1) by lia. rewrite A1. exact A2.
    + cbn [take] in B2. change (strs_len []) with 0 in B2. rewrite Z.add_0_r in B2. exact B2.
Defined.
