(* ===== verification/ProcStat.v ===== *)
(** * Decimal text

    What the readers of text files in the monitor share: a run of decimal
    digits read into a machine word, and the reference printer it inverts. *)

From Stdlib Require Import ZArith Ascii String Lia.
From S2P Require Import Prelude Fmt FmtProps.
From stdpp Require Import base numbers strings list.

Open Scope Z_scope.

(** [for (; *p >= '0' && *p <= '9'; p++) t = t * 10 + (T)( *p - '0')] with the
    sum wrapped by [wr], the width of [T]. *)
Definition dec_step (wr : Z -> Z) (t : Z) (c : ascii) : Z := wr (t * 10 + digit_val c).

Definition read_dec (wr : Z -> Z) (p : cstr) : Z :=
  foldl (dec_step wr) 0 (take_while is_dig p).

(** A number as %u and %llu print it. *)
Definition dec (n : Z) : cstr := digits lower_digits 10 n.

Definition no_digit_ahead (p : cstr) : Prop :=
  forall c r, p = c :: r -> is_dig c = false.

Lemma dec_chars n : 0 <= n -> Forall (fun c => is_dig c = true) (dec n).
Proof.
  intros Hn. unfold dec, digits. case_if; [by repeat constructor|]. apply Forall_rev.
  generalize 64%nat. intros fuel. clear Eif. revert n Hn.
  induction fuel as [|fuel IH]; intros n Hn; cbn [digits_loop]; [constructor|].
  case_if; [constructor|]. constructor; [|apply IH, Z.div_pos; lia].
  pose proof (Z.mod_pos_bound n 10 ltac:(lia)) as B.
  destruct (lower_digits !! Z.to_nat (n mod 10)) as [c|] eqn:E; [|done]. cbn [default from_option].
  assert (K : (Z.to_nat (n mod 10) < 10)%nat) by lia.
  revert E K. generalize (Z.to_nat (n mod 10)). intros i E K.
  do 10 (destruct i as [|i]; [injection E as <-; done|]). lia.
Qed.

Lemma dec_nonempty n : 0 <= n < 2 ^ 64 -> dec n <> [].
Proof.
  intros H E. pose proof (digits_length lower_digits 10 n ltac:(lia) H) as L.
  unfold dec in E. rewrite E in L. simpl in L. lia.
Qed.

Lemma digit_val_pos c : is_dig c = true -> pos c lower_digits = digit_val c.
Proof. destruct c as [[] [] [] [] [] [] [] []]; (discriminate || reflexivity). Qed.

Lemma digit_val_range c : is_dig c = true -> 0 <= digit_val c <= 9.
Proof. unfold is_dig. bprop. lia. Qed.

(** The prefixes of a run of digits are no larger than the whole, so a value
    that fits is read without a wrap. *)
Lemma fold_dec_grows l : Forall (fun c => is_dig c = true) l ->
  forall t, 0 <= t -> t <= foldl (fun v c => v * 10 + digit_val c) t l.
Proof.
  induction 1 as [|c l Hc _ IH]; intros t Ht; cbn [foldl]; [lia|].
  pose proof (digit_val_range c Hc). etrans; [|apply IH]; lia.
Qed.

Lemma fold_dec_exact (wr : Z -> Z) M l :
  (forall x, 0 <= x < M -> wr x = x) -> Forall (fun c => is_dig c = true) l ->
  forall t, 0 <= t -> foldl (fun v c => v * 10 + digit_val c) t l < M ->
  foldl (dec_step wr) t l = foldl (fun v c => v * 10 + digit_val c) t l.
Proof.
  intros Hw. induction 1 as [|c l Hc Hl IH]; intros t Ht Hm; cbn [foldl] in *; [done|].
  pose proof (digit_val_range c Hc).
  pose proof (fold_dec_grows l Hl (t * 10 + digit_val c) ltac:(lia)).
  unfold dec_step at 2. rewrite Hw by lia. apply IH; [lia|done].
Qed.

Lemma fold_dec_value l : Forall (fun c => is_dig c = true) l ->
  foldl (fun v c => v * 10 + digit_val c) 0 l = value lower_digits 10 l.
Proof.
  unfold value. generalize 0. intros t H. revert t.
  induction H as [|c l Hc _ IH]; intros t; cbn [foldl]; [done|].
  by rewrite (digit_val_pos c Hc), IH.
Qed.

(** A printed number followed by something else reads back, in any word it
    fits. *)
Lemma read_dec_dec (wr : Z -> Z) M n p :
  (forall x, 0 <= x < M -> wr x = x) -> 0 <= n < 2 ^ 64 -> n < M -> no_digit_ahead p ->
  read_dec wr (dec n ++ p) = n.
Proof.
  intros Hw Hn HM Hp. unfold read_dec. rewrite take_while_app by (apply dec_chars; lia).
  replace (take_while is_dig p) with (@nil ascii).
  2: { destruct p as [|c r]; [done|]. simpl. by rewrite (Hp c r). }
  rewrite app_nil_r. pose proof (dec_chars n ltac:(lia)) as Hd.
  assert (V : foldl (fun v c => v * 10 + digit_val c) 0 (dec n) = n).
  { rewrite fold_dec_value by done. apply digits_value; [by left|lia|lia]. }
  rewrite (fold_dec_exact wr M) by (done || lia). done.
Qed.

Lemma drop_digits_dec n p :
  0 <= n -> no_digit_ahead p -> drop_while is_dig (dec n ++ p) = p.
Proof.
  intros Hn Hp. rewrite drop_while_app by (by apply dec_chars).
  destruct p as [|c r]; [done|]. simpl. by rewrite (Hp c r).
Qed.

Lemma u64_exact x : 0 <= x < 2 ^ 64 -> u64 x = x.
Proof. apply wrapu_small. Qed.

Lemma s32_exact x : 0 <= x < 2 ^ 31 -> s32 x = x.
Proof. intros. apply wraps_small; lia. Qed.

(** ** Formats of the monitor *)

(** A whole output that fits is what the buffer gets. *)
Lemma snprintf_fits cap fmt args out :
  renders fmt args out -> Z.of_nat (length out) < cap ->
  cng_snprintf cap fmt args = Some (Some out, Z.of_nat (length out)).
Proof.
  intros Hr Hc. unfold cng_snprintf, cng_vsnprintf, fmt_run.
  rewrite (fmt_loop_renders _ _ _ Hr) by done. cbn [mbind option_bind].
  rewrite put_buffer by (done || simpl; lia). cbn [f_buf f_total f_cap].
  rewrite (proj2 (Z.eqb_neq cap 0)) by lia. do 3 f_equal. apply take_ge. simpl. lia.
Qed.

Lemma renders_char c f args out :
  Ascii.eqb c "%" = false -> renders f args out -> renders (c :: f) args (c :: out).
Proof.
  intros Hc Hr. apply (renders_turn c f args [c] f args out); [|done].
  unfold fmt_turn. by rewrite Hc.
Qed.

Lemma fmt_d_dec z : 0 <= z < 2 ^ 31 -> fmt_d false 0 0 z = dec z.
Proof.
  intros Hz. unfold fmt_d. cbn [negb Z.eqb]. rewrite wraps_small by lia.
  rewrite (proj2 (Z.ltb_ge z 0)) by lia. unfold pad.
  rewrite (Z2Nat.nonpos (0 - _)) by (cbn [length]; lia). done.
Qed.

Lemma renders_d f z args out :
  0 <= z < 2 ^ 31 -> renders f args out ->
  renders ("%"%char :: "d"%char :: f) (AInt z :: args) (dec z ++ out).
Proof.
  intros Hz Hr. eapply renders_turn; [|exact Hr]. rewrite <-fmt_d_dec by done. reflexivity.
Qed.

Lemma renders_s f s args out :
  Z.of_nat (length s) < 2 ^ 31 -> renders f args out ->
  renders ("%"%char :: "s"%char :: f) (AStr (Some s) :: args) (s ++ out).
Proof.
  intros Hs Hr. eapply renders_turn; [|exact Hr]. 
  assert (E : pad false 0 (s32 (Z.of_nat (length s))) = []).
  { rewrite wraps_small by lia. unfold pad. by rewrite Z2Nat.nonpos by lia. }
  change (Some (pad false 0 (s32 (Z.of_nat (length s))) ++ s, f, args) = Some (s, f, args)).
  by rewrite E.
Qed.

(** Evaluate a format with no argument of its own width. *)
Ltac render :=
  repeat first [ apply renders_nil | apply renders_d; [lia|] | apply renders_s; [lia|]
               | apply renders_char; [reflexivity|] ].

(** * Reading a task's incarnation and thread group out of the host's /proc

    src/src/monitor/procreg.c, cng_proc_starttime and cng_proc_tgid.  The host's
    /proc is [pfs]: what the first bytes of a file of a directory are, with
    [None] where the directory or the file does not open or the read gives
    nothing.  The parsers read what the source reads, 511 bytes of it. *)

Definition pfs := cstr -> cstr -> option cstr.

Definition SPC : ascii := " "%char.
Definition TAB : ascii := "009"%char.
Definition NL : ascii := "010"%char.
Definition PAREN : ascii := ")"%char.

(** [buf[r] = '\0'] after a read of at most [sizeof buf - 1] bytes: the C string
    the parser walks. *)
Definition read_text (cap : nat) (f : cstr) : cstr :=
  take_while (fun c => negb (Ascii.eqb c NUL)) (take (pred cap) f).

(** ** The path *)

(** [do { num[ni++] = '0' + v % 10; v /= 10; } while (v > 0 && ni < 15)], the
    digits from the lowest; [fuel] is what is left of the 15. *)
Fixpoint num_loop (fuel : nat) (v : Z) : cstr :=
  match fuel with
  | O => []
  | S fuel =>
      ascii_of_nat (Z.to_nat (48 + Z.rem v 10)) ::
      (if 0 <? Z.quot v 10 then num_loop fuel (Z.quot v 10) else [])
  end.

Definition proc_dir (pid : Z) : cstr :=
  take 63 (cs "/proc/" ++ rev (num_loop 15 pid)).

(** ** starttime *)

(** [strrchr(buf, ')')], and what is past it. *)
Fixpoint after_last (c : ascii) (s : cstr) : option cstr :=
  match s with
  | [] => None
  | x :: s' =>
      match after_last c s' with
      | Some r => Some r
      | None => if Ascii.eqb x c then Some s' else None
      end
  end.

Definition is_spc (c : ascii) : bool := Ascii.eqb c SPC.
Definition not_spc (c : ascii) : bool := negb (Ascii.eqb c SPC).

(** The walk over the fields: the starttime and the zombie verdict. *)
Fixpoint stat_fields (fuel : nat) (p : cstr) (field : Z) (is_z : bool) (nthr : Z) : Z * bool :=
  match fuel with
  | O => (0, false)
  | S fuel =>
      match drop_while is_spc p with
      | [] => (0, false)
      | c :: r =>
          let p := c :: r in
          let field := field + 1 in
          let is_z := if field =? 1 then Ascii.eqb c "Z"%char else is_z in
          let nthr := if field =? 18 then read_dec u64 p else nthr in
          if field =? 20 then
            let t := read_dec u64 p in
            (if t =? 0 then 1 else t, is_z && (nthr <=? 1))
          else stat_fields fuel (drop_while not_spc p) field is_z nthr
      end
  end.

Definition parse_stat (buf : cstr) : Z * bool :=
  match after_last PAREN buf with
  | None => (0, false)
  | Some p => stat_fields (S (length p)) p 0 false 1
  end.

(** The return value and what [*zombie_out] is left. *)
Definition cng_proc_starttime (fs : pfs) (pid : Z) : Z * bool :=
  match fs (proc_dir pid) (cs "stat") with
  | None => (0, false)
  | Some f => match f with [] => (0, false) | _ => parse_stat (read_text 512 f) end
  end.

(** ** The thread group *)

Definition is_blank (c : ascii) : bool := Ascii.eqb c SPC || Ascii.eqb c TAB.

(** [strchr(p, '\n')], and what is past it. *)
Fixpoint after_first (c : ascii) (s : cstr) : option cstr :=
  match s with
  | [] => None
  | x :: s' => if Ascii.eqb x c then Some s' else after_first c s'
  end.

Fixpoint tgid_lines (fuel : nat) (p : cstr) : Z :=
  match fuel with
  | O => -1
  | S fuel =>
      match p with
      | [] => -1
      | _ =>
          if strneq p (cs "Tgid:") 5 then
            let v := read_dec s32 (drop_while is_blank (drop 5 p)) in
            if 0 <? v then v else -1
          else match after_first NL p with
               | None => -1
               | Some p' => tgid_lines fuel p'
               end
      end
  end.

Definition cng_proc_tgid (fs : pfs) (tid : Z) : Z :=
  if tid <=? 0 then -1
  else match cng_snprintf 32 (cs "/proc/%d") [AInt tid] with
       | Some (Some path, _) =>
           match fs path (cs "status") with
           | None | Some [] => -1
           | Some f =>
               let buf := read_text 512 f in
               tgid_lines (S (length buf)) buf
           end
       | _ => -1
       end.

(** ** The parsers on the kernel's own text *)

Lemma take_while_all {A} (q : A -> bool) l :
  Forall (fun x => q x = true) l -> take_while q l = l.
Proof. induction 1 as [|x l Hx _ IH]; simpl; [done|]. by rewrite Hx, IH. Qed.

Lemma after_last_split c a b :
  Forall (fun x => x <> c) b -> after_last c (a ++ c :: b) = Some b.
Proof.
  intros Hb. assert (N : after_last c b = None).
  { induction Hb as [|x b Hx _ IH]; [done|]. simpl. rewrite IH.
    destruct (Ascii.eqb_spec x c); done. }
  induction a as [|x a IH]; simpl.
  - rewrite N. destruct (Ascii.eqb_spec c c); done.
  - by rewrite IH.
Qed.

Lemma after_first_split c a b :
  Forall (fun x => x <> c) a -> after_first c (a ++ c :: b) = Some b.
Proof.
  induction 1 as [|x a Hx _ IH]; simpl; destruct (Ascii.eqb_spec c c); try done;
  destruct (Ascii.eqb_spec x c); done.
Qed.

(** A field of the line: not empty, and none of the characters the parser stops
    at. *)
Definition field_ok (f : cstr) : Prop :=
  f <> [] /\ Forall (fun c => c <> SPC /\ c <> PAREN /\ c <> NUL) f.

Definition spaced (fields : list cstr) : cstr := concat (map (cons SPC) fields).

Lemma drop_spc_field f r : field_ok f -> drop_while is_spc (SPC :: f ++ r) = f ++ r.
Proof.
  intros [Hne Hf]. destruct f as [|c f]; [done|]. inversion_clear Hf as [|? ? Hc _]. simpl.
  unfold is_spc at 1. destruct (Ascii.eqb_spec c SPC) as [->|]; [by destruct Hc|done].
Qed.

Definition space_ahead (p : cstr) : Prop := p = [] \/ exists r, p = SPC :: r.

Lemma drop_field f r : field_ok f -> space_ahead r -> drop_while not_spc (f ++ r) = r.
Proof.
  intros [_ Hf] Hr. rewrite drop_while_app.
  - destruct Hr as [->|[r' ->]]; done.
  - eapply Forall_impl; [exact Hf|]. intros c [Hc _]. unfold not_spc.
    destruct (Ascii.eqb_spec c SPC); done.
Qed.

Lemma spaced_ahead fields r :
  space_ahead r -> space_ahead (spaced fields ++ r).
Proof.
  intros Hr. destruct fields as [|f fs]; [done|]. right. unfold spaced. simpl. eauto.
Qed.

(** One turn of the walk, short of the twentieth field. *)
Lemma stat_fields_step fuel f r field z n :
  field_ok f -> space_ahead r -> field + 1 <> 20 ->
  stat_fields (S fuel) (SPC :: f ++ r) field z n =
  stat_fields fuel r (field + 1)
    (if field + 1 =? 1 then bool_decide (head f = Some "Z"%char) else z)
    (if field + 1 =? 18 then read_dec u64 (f ++ r) else n).
Proof.
  intros Hf Hr H20. cbn [stat_fields]. rewrite drop_spc_field by done.
  destruct f as [|c f]; [by destruct Hf|]. cbn [app].
  destruct (Z.eqb_spec (field + 1) 20); [done|].
  pose proof (drop_field (c :: f) r Hf Hr) as D. cbn [app] in D. rewrite D. f_equal.
  case_if; [|done]. cbn [head].
  destruct (Ascii.eqb_spec c "Z"%char) as [->|]; case_bool_decide; congruence.
Qed.

Lemma stat_fields_last fuel f r z n :
  field_ok f ->
  stat_fields (S fuel) (SPC :: f ++ r) 19 z n =
  (if read_dec u64 (f ++ r) =? 0 then 1 else read_dec u64 (f ++ r), z && (n <=? 1)).
Proof.
  intros Hf. cbn [stat_fields]. rewrite drop_spc_field by done.
  destruct f as [|c f]; [by destruct Hf|]. reflexivity.
Qed.

Lemma spaced_cons f fs r : spaced (f :: fs) ++ r = SPC :: f ++ spaced fs ++ r.
Proof. unfold spaced. simpl. by rewrite <-app_assoc. Qed.

Lemma spaced_length fields :
  Forall field_ok fields -> (length fields <= length (spaced fields))%nat.
Proof.
  induction 1 as [|f fs Hf _ IH]; [done|]. rewrite <-(app_nil_r (spaced _)), spaced_cons.
  cbn [length]. rewrite !length_app. lia.
Qed.

(** The walk over fields none of which is the twentieth or is numbered 1 or 18. *)
Lemma stat_fields_skip fields : Forall field_ok fields -> forall fuel r k z n,
  space_ahead r -> 1 <= k -> (k + Z.of_nat (length fields) < 18 \/ 18 <= k) ->
  k + Z.of_nat (length fields) < 20 ->
  stat_fields (length fields + fuel) (spaced fields ++ r) k z n =
  stat_fields fuel r (k + Z.of_nat (length fields)) z n.
Proof.
  induction 1 as [|f fs Hf Hfs IH]; intros fuel r k z n Hr Hk1 Hk Hk20.
  { simpl. by rewrite Z.add_0_r. }
  rewrite spaced_cons. cbn [length] in *. cbn [Nat.add].
  rewrite stat_fields_step by (done || lia || by apply spaced_ahead).
  rewrite (proj2 (Z.eqb_neq (k + 1) 1)) by lia.
  rewrite (proj2 (Z.eqb_neq (k + 1) 18)) by lia.
  rewrite IH by (done || lia). f_equal. lia.
Qed.

(** The whole walk: state, sixteen fields, num_threads, one field, starttime. *)
Lemma stat_fields_line f1 l17 f18 f19 f20 r fuel :
  Forall field_ok (f1 :: l17 ++ [f18; f19; f20]) -> length l17 = 16%nat ->
  space_ahead r -> (20 <= fuel)%nat ->
  stat_fields fuel (spaced (f1 :: l17 ++ [f18; f19; f20]) ++ r) 0 false 1 =
  (let t := read_dec u64 (f20 ++ r) in
   (if t =? 0 then 1 else t,
    bool_decide (head f1 = Some "Z"%char) && (read_dec u64 (f18 ++ spaced [f19; f20] ++ r) <=? 1))).
Proof.
  intros Hf Hl Hr Hfuel. inversion_clear Hf as [|? ? H1 Hf']. apply Forall_app in Hf' as [H17 H3].
  inversion_clear H3 as [|? ? H18 H3']. inversion_clear H3' as [|? ? H19 H4].
  inversion_clear H4 as [|? ? H20 _].
  replace fuel with (S (length l17 + S (S (S (fuel - 20)))))%nat by lia.
  rewrite spaced_cons, stat_fields_step by (done || lia || by apply spaced_ahead).
  change (0 + 1 =? 1) with true. change (0 + 1 =? 18) with false. cbn [Z.add].
  assert (E : spaced (l17 ++ [f18; f19; f20]) ++ r =
    spaced l17 ++ spaced [f18; f19; f20] ++ r).
  { unfold spaced. by rewrite map_app, concat_app, <-app_assoc. }
  rewrite E, stat_fields_skip by (done || lia || by apply spaced_ahead).
  rewrite Hl, !spaced_cons.
  rewrite stat_fields_step by (done || lia || (right; eauto)).
  rewrite stat_fields_step by (done || lia || (right; eauto)).
  change (1 + Z.of_nat 16 + 1 + 1) with 19. rewrite stat_fields_last by done.
  reflexivity.
Qed.

(** The number the path names. *)
Lemma num_loop_digits fuel : forall v fuel', 0 < v < 10 ^ Z.of_nat fuel -> (fuel <= fuel')%nat ->
  num_loop fuel v = digits_loop fuel' lower_digits 10 v.
Proof.
  induction fuel as [|fuel IH]; intros v fuel' Hv Hf.
  { change (10 ^ Z.of_nat 0) with 1 in Hv. lia. }
  destruct fuel' as [|fuel']; [lia|]. cbn [num_loop digits_loop].
  rewrite (proj2 (Z.eqb_neq v 0)), Z.rem_mod_nonneg, Z.quot_div_nonneg by lia.
  pose proof (Z.mod_pos_bound v 10 ltac:(lia)) as B. f_equal.
  { assert (C : forallb (fun i => Ascii.eqb (ascii_of_nat (Z.to_nat (48 + i)))
      (default "0"%char (lower_digits !! Z.to_nat i))) (seqZ 0 10) = true) by reflexivity.
    rewrite forallb_forall in C. apply Ascii.eqb_eq, C, list_elem_of_In, elem_of_seqZ. lia. }
  rewrite Nat2Z.inj_succ, Z.pow_succ_r in Hv by lia. destruct (Z.ltb_spec 0 (v / 10)).
  - apply IH; [|lia]. split; [done|]. apply Z.div_lt_upper_bound; lia.
  - assert (v / 10 = 0) as -> by (pose proof (Z.div_pos v 10); lia). by destruct fuel'.
Qed.

Lemma proc_dir_dec pid : 0 < pid < 2 ^ 31 -> proc_dir pid = cs "/proc/" ++ dec pid.
Proof.
  intros H. unfold proc_dir, dec, digits. rewrite (proj2 (Z.eqb_neq pid 0)) by lia.
  rewrite (num_loop_digits 15 pid 64) by (split_and?; lia).
  pose proof (digits_length lower_digits 10 pid ltac:(lia) ltac:(lia)) as L.
  unfold digits in L. rewrite (proj2 (Z.eqb_neq pid 0)) in L by lia.
  apply take_ge. rewrite length_app. change (length (cs "/proc/")) with 6%nat. lia.
Qed.

(** What [read_text] keeps of a line whose first part is NUL-free and fits. *)
Lemma read_text_app cap a b :
  Forall (fun c => c <> NUL) a -> (length a < cap)%nat ->
  read_text cap (a ++ b) = a ++ read_text (cap - length a) b.
Proof.
  intros Ha Hl. unfold read_text. rewrite take_app, take_ge by lia.
  rewrite take_while_app.
  - do 3 f_equal. lia.
  - eapply Forall_impl; [exact Ha|]. intros c Hc. destruct (Ascii.eqb_spec c NUL); done.
Qed.

Lemma read_text_incl cap b P : Forall P b -> Forall P (read_text cap b).
Proof.
  intros H. assert (T : forall q l, Forall P l -> Forall P (take_while q l)).
  { intros q l. induction 1 as [|x l Hx _ IH]; simpl; [constructor|]. case_if; auto. }
  apply T. by apply Forall_take.
Qed.

Lemma read_text_ahead cap b : space_ahead b -> space_ahead (read_text cap b).
Proof.
  intros [->|[r ->]]; unfold read_text; [rewrite take_nil; by left|].
  destruct (pred cap) as [|k]; [by left|]. right. simpl. eauto.
Qed.

Lemma field_no {c} f : field_ok f -> c = SPC \/ c = PAREN \/ c = NUL -> Forall (fun x => x <> c) f.
Proof.
  intros [_ Hf] Hc. eapply Forall_impl; [exact Hf|]. cbn. intros x (? & ? & ?).
  by destruct Hc as [->|[->| ->]].
Qed.

Lemma spaced_no c fields : Forall field_ok fields -> c = PAREN \/ c = NUL ->
  Forall (fun x => x <> c) (spaced fields).
Proof.
  intros H Hc. induction H as [|f fs Hf _ IH]; [constructor|].
  rewrite <-(app_nil_r (spaced _)), spaced_cons. constructor; [by destruct Hc as [->| ->]|].
  rewrite app_nil_r. apply Forall_app. split; [|done]. apply field_no; tauto.
Qed.

(** The start time field and its neighbours read back. *)
Lemma field_reads n p : 0 <= n < 2 ^ 64 -> space_ahead p -> read_dec u64 (dec n ++ p) = n.
Proof.
  intros Hn Hp. apply (read_dec_dec u64 (2 ^ 64)); [apply u64_exact|lia|lia|].
  destruct Hp as [->|[r ->]]; [by intros ? ? [=]|]. by intros ? ? [= <- <-].
Qed.

Lemma dec_field n : 0 <= n < 2 ^ 64 -> field_ok (dec n).
Proof.
  intros Hn. split; [by apply dec_nonempty|]. eapply Forall_impl; [apply dec_chars; lia|].
  intros c Hc. repeat split; intros ->; done.
Qed.

Lemma nonempty_match {A B} (l : list A) (x y : B) :
  l <> [] -> match l with [] => x | _ :: _ => y end = y.
Proof. by destruct l. Qed.

(** The line of /proc/<pid>/stat up to its starttime, as the kernel prints it:
    [who] is the pid and the opening parenthesis, then the command name, which
    may hold anything but a NUL. *)
Definition stat_line (who comm : cstr) (state : cstr) (l17 : list cstr) (nthr : Z)
    (f19 : cstr) (start : Z) : cstr :=
  who ++ comm ++ PAREN :: spaced (state :: l17 ++ [dec nthr; f19; dec start]).

(** A process's incarnation is read exactly.  From any stat line the kernel
    prints, a command name full of spaces and parentheses included, of which the
    first 511 bytes reach the start time, the parser returns that start time (1
    for 0, which means gone), and calls the process a zombie exactly when its
    state is Z and it has no other thread. *)
Theorem starttime_of_line fs pid who comm state l17 nthr f19 start tail :
  0 < pid < 2 ^ 31 ->
  fs (cs "/proc/" ++ dec pid) (cs "stat") =
    Some (stat_line who comm state l17 nthr f19 start ++ tail) ->
  Forall (fun c => c <> NUL) (who ++ comm) ->
  field_ok state -> Forall field_ok l17 -> length l17 = 16%nat -> field_ok f19 ->
  0 <= nthr < 2 ^ 64 -> 0 <= start < 2 ^ 64 ->
  space_ahead tail -> Forall (fun c => c <> PAREN) tail ->
  (length (stat_line who comm state l17 nthr f19 start) <= 511)%nat ->
  cng_proc_starttime fs pid =
  (Z.max 1 start, bool_decide (head state = Some "Z"%char) && (nthr <=? 1)).
Proof.
  intros Hp Hfs Hnul Hst H17 Hl H19 Hn Hs Ht Htp Hlen. unfold cng_proc_starttime.
  rewrite proc_dir_dec, Hfs by done.
  assert (Hok : Forall field_ok (state :: l17 ++ [dec nthr; f19; dec start])).
  { constructor; [done|]. apply Forall_app. split; [done|].
    repeat (constructor; [by (done || apply dec_field)|]). constructor. }
  rewrite nonempty_match by (unfold stat_line; by destruct who, comm).
  rewrite read_text_app.
  2: { unfold stat_line. rewrite app_assoc. apply Forall_app. split; [done|].
       constructor; [done|]. apply spaced_no; tauto. }
  2: lia.
  set (tl := read_text _ tail). assert (Htl : space_ahead tl) by (by apply read_text_ahead).
  unfold parse_stat, stat_line. rewrite app_assoc, <-app_assoc. cbn [app].
  rewrite after_last_split.
  2: { apply Forall_app. split; [apply spaced_no; tauto|]. by apply read_text_incl. }
  pose proof (spaced_length _ Hok) as Hlf. rewrite length_cons, length_app in Hlf.
  rewrite stat_fields_line.
  2-4: done.
  2: { rewrite length_app. cbn [length] in Hlf. lia. }
  cbn zeta. rewrite !field_reads by (done || right; unfold spaced; simpl; eauto).
  f_equal. destruct (Z.eqb_spec start 0); lia.
Qed.

Lemma starttime_of_line_witness :
  let line := stat_line (cs "7 (") (cs "a) Z 1 (b") (cs "Z") (replicate 16 (cs "0")) 3 (cs "0") 4242 in
  let fs := fun d f => if streq d (cs "/proc/7") && streq f (cs "stat") then Some (line ++ cs " 0 0")
                       else None in
  cng_proc_starttime fs 7 = (Z.max 1 4242, false).
Proof.
  intros line fs.
  apply (starttime_of_line fs 7 (cs "7 (") (cs "a) Z 1 (b") (cs "Z") (replicate 16 (cs "0")) 3
    (cs "0") 4242 (cs " 0 0")); try lia; try reflexivity.
  - repeat (constructor; [vm_compute; congruence|]). constructor.
  - split; [done|]. by repeat constructor.
  - apply Forall_replicate. split; [done|]. by repeat constructor.
  - split; [done|]. by repeat constructor.
  - right. eauto.
  - by repeat constructor.
  - vm_compute. lia.
Defined.

(** ** The Tgid line *)

Lemma tgid_skip fuel lines p :
  Forall (fun l => Forall (fun c => c <> NL) l /\ strneq (l ++ [NL]) (cs "Tgid:") 5 = false) lines ->
  tgid_lines (length lines + fuel) (concat (map (fun l => l ++ [NL]) lines) ++ p) =
  tgid_lines fuel p.
Proof.
  induction 1 as [|l lines [Hl Hno] _ IH]; [done|]. cbn [length map concat Nat.add].
  rewrite <-!app_assoc. cbn [app tgid_lines].
  rewrite nonempty_match by (by destruct l).
  replace (strneq (l ++ NL :: _) (cs "Tgid:") 5) with false.
  - rewrite after_first_split by done. exact IH.
  - symmetry. revert Hno. unfold strneq. rewrite !bool_decide_eq_false. intros Hno Hq. apply Hno.
    rewrite <-Hq. destruct (Nat.le_gt_cases 5 (length (l ++ [NL]))) as [H5|H5].
    + rewrite (cons_middle NL l (_ ++ p)), app_assoc. by rewrite (take_app_le (l ++ [NL])).
    + exfalso. assert (HNL : (take 5 (cs "Tgid:")) !! (length l) = Some NL).
      { rewrite <-Hq, lookup_take_lt by (rewrite length_app in H5; simpl in H5; lia).
        rewrite lookup_app_r, Nat.sub_diag by lia. done. }
      apply list_elem_of_lookup_2 in HNL. vm_compute in HNL.
      repeat (apply elem_of_cons in HNL as [[=]|HNL]). by apply elem_of_nil in HNL.
Qed.

Lemma tgid_line k tgid tl :
  0 < tgid < 2 ^ 31 -> no_digit_ahead tl ->
  tgid_lines (S k) ((cs "Tgid:" ++ TAB :: dec tgid) ++ tl) = tgid.
Proof.
  intros Hg Htl. cbn [tgid_lines]. rewrite nonempty_match by done.
  assert (E : strneq ((cs "Tgid:" ++ TAB :: dec tgid) ++ tl) (cs "Tgid:") 5 = true).
  { unfold strneq. by rewrite bool_decide_eq_true. }
  rewrite E. change (drop 5 _) with (TAB :: dec tgid ++ tl).
  pose proof (dec_chars tgid ltac:(lia)) as Hc. pose proof (dec_nonempty tgid ltac:(lia)) as Hne.
  assert (D : drop_while is_blank (TAB :: dec tgid ++ tl) = dec tgid ++ tl).
  { destruct (dec tgid) as [|c r]; [done|]. inversion_clear Hc as [|? ? Hd _]. simpl.
    unfold is_blank. destruct (Ascii.eqb_spec c SPC) as [->|]; [done|].
    by destruct (Ascii.eqb_spec c TAB) as [->|]. }
  rewrite D, (read_dec_dec s32 (2 ^ 31)) by (apply s32_exact || done || lia).
  by rewrite (proj2 (Z.ltb_lt 0 tgid)) by lia.
Qed.

Definition text_lines (lines : list cstr) : cstr := concat (map (fun l => l ++ [NL]) lines).

Lemma text_lines_facts lines :
  Forall (fun l => Forall (fun c => c <> NL /\ c <> NUL) l) lines ->
  Forall (fun c => c <> NUL) (text_lines lines) /\ (length lines <= length (text_lines lines))%nat.
Proof.
  induction 1 as [|l lines Hl _ [IH1 IH2]]; [by split|]. unfold text_lines in *. cbn [map concat].
  split; [|cbn [length]; rewrite !length_app; simpl; lia].
  apply Forall_app. split; [|done]. apply Forall_app. split; [|by repeat constructor].
  eapply Forall_impl; [exact Hl|]. by intros c [].
Qed.

(** The thread group is read exactly from a status file whose Tgid line is
    within the first 511 bytes, whatever the lines before it. *)
Lemma tgid_of_status fs tid lines tgid tail :
  0 < tid < 2 ^ 31 -> 0 < tgid < 2 ^ 31 ->
  fs (cs "/proc/" ++ dec tid) (cs "status") =
    Some (text_lines lines ++ (cs "Tgid:" ++ TAB :: dec tgid) ++ NL :: tail) ->
  Forall (fun l => Forall (fun c => c <> NL /\ c <> NUL) l /\
                   strneq (l ++ [NL]) (cs "Tgid:") 5 = false) lines ->
  (length (text_lines lines) + 28 <= 511)%nat ->
  cng_proc_tgid fs tid = tgid.
Proof.
  intros Ht Hg Hfs Hl Hlen. unfold cng_proc_tgid. rewrite (proj2 (Z.leb_gt tid 0)) by lia.
  rewrite (snprintf_fits 32 (cs "/proc/%d") _ (cs "/proc/" ++ dec tid)).
  2: { rewrite <-(app_nil_r (dec tid)). unfold cs. cbn [String.list_ascii_of_string app]. render. }
  2: { pose proof (digits_length lower_digits 10 tid ltac:(lia) ltac:(lia)).
       rewrite !length_app. change (length (cs "/proc/")) with 6%nat. unfold dec. lia. }
  rewrite Hfs, nonempty_match by (destruct lines as [|[|? ?] ?]; done).
  set (mid := cs "Tgid:" ++ TAB :: dec tgid).
  pose proof (digits_length lower_digits 10 tgid ltac:(lia) ltac:(lia)) as Hd.
  assert (Hm : (length mid <= 28)%nat).
  { unfold mid. rewrite length_app. change (length (cs "Tgid:")) with 5%nat.
    cbn [length]. unfold dec. lia. }
  destruct (text_lines_facts lines) as [Hpre Hk].
  { eapply Forall_impl; [exact Hl|]. by intros l []. }
  rewrite app_assoc, read_text_app.
  2: { apply Forall_app. split; [done|]. unfold mid.
       repeat (apply Forall_cons; split; [done|]). eapply Forall_impl; [apply dec_chars; lia|].
       by intros c Hc ->. }
  2: { rewrite length_app. lia. }
  set (tl := read_text _ (NL :: tail)).
  assert (Htl : no_digit_ahead tl).
  { subst tl. unfold read_text. destruct (pred _); [by intros ? ? [=]|]. simpl.
    by intros ? ? [= <- <-]. }
  rewrite <-app_assoc, length_app.
  replace (S (length (text_lines lines) + length (mid ++ tl))) with
    (length lines + S (length (text_lines lines) - length lines + length (mid ++ tl)))%nat by lia.
  unfold text_lines at 2. rewrite tgid_skip; [by apply tgid_line|].
  eapply Forall_impl; [exact Hl|]. intros l [H ?]. split; [|done].
  eapply Forall_impl; [exact H|]. by intros c [].
Qed.
