(* ===== verification/Procreg.v ===== *)
(** * The guest process registry (src/src/monitor/procreg.c)

    A table shared by every guest process: an array of pids, 0 where a slot is
    free, and beside it one entry per slot with what /proc and a socket peer are
    told of the process.  There is no exit hook, so a slot outlives its process,
    and every reader checks the start time the entry carries against the one the
    host reports for the pid.

    Each operation is a function on the registry as the process that runs it has
    it: the shared table and its own remembered slot.  What it reads outside is
    the [world]: its pid, the host's /proc and its fake identity.  An operation
    here runs to its end; the interleaving of the lock's steps is in
    [ProcregLock].  Entry buffers have their full capacity, as the arrays do. *)

From Stdlib Require Import ZArith Ascii String Lia.
From S2P Require Import Prelude Fmt ProcStat IpcData Cred.
From stdpp Require Import base numbers strings list.

Open Scope Z_scope.

Definition CNG_PROCREG_MAX : nat := 4096.
Definition CNG_PROCREG_CMDLINE : nat := 1024.
Definition CNG_PROCREG_ENVIRON : nat := 4096.
Definition CNG_PROCREG_AUXV : nat := 512.
Definition CNG_PROCREG_GROUPS : nat := 1024.
Definition CNG_PROCREG_PATH : nat := 512.

(** ** Data *)

Record cng_procargs := Args {
  pa_arg_start : Z; pa_arg_end : Z; pa_env_start : Z; pa_env_end : Z; pa_kernel : Z }.

Definition no_args := Args 0 0 0 0 0.

(** The uid and gid quadruples are the credential set's. *)
Record cng_procids := Ids {
  pi_fake : Z; pi_u : idset; pi_g : idset;
  pi_claim : Z; pi_claim_uid : Z; pi_claim_gid : Z }.

Record proc_ent := Ent {
  e_seq : Z; e_start : Z;
  e_cmd_len : Z; e_env_len : Z; e_auxv_len : Z; e_exe_len : Z; e_cwd_len : Z;
  e_cmd : list ascii; e_env : list ascii; e_auxv : list ascii;
  e_exe : list ascii; e_cwd : list ascii;
  e_args : cng_procargs; e_ids : cng_procids;
  e_ngroups : Z; e_groups : list Z }.

Record proc_tab := Tab { t_pid : list Z; t_ent : list proc_ent }.

(** [g_tab] with [g_tab_n], and the remembered slot with the pid it held. *)
Record preg := Preg { g_tab : option proc_tab; g_tab_n : nat; g_hint_slot : Z; g_hint_pid : Z }.

Record world := World {
  w_self : Z;
  w_proc : pfs;
  w_fake : bool;
  w_cred : cng_cred;
  w_tgkill : Z -> bool  (* tgkill of this process's group with signal 0 finds the task *) }.

Definition starttime (w : world) (pid : Z) : Z := fst (cng_proc_starttime (w_proc w) pid).

(** One consistent read of an entry's payload: each buffer cut at its count. *)
Record cng_procsnap := Snap {
  sn_cmd : list ascii; sn_env : list ascii; sn_auxv : list ascii;
  sn_exe : list ascii; sn_cwd : list ascii;
  sn_args : cng_procargs; sn_ids : cng_procids; sn_groups : list Z }.

(** ** The table *)

(** [memcpy(dst, src, length src)] into an array. *)
Definition put_array {A} (dst src : list A) : list A := src ++ drop (length src) dst.

Definition set_ent (t : proc_tab) (i : nat) (e : proc_ent) : proc_tab :=
  Tab (t_pid t) (<[i := e]> (t_ent t)).
Definition set_pid (t : proc_tab) (i : nat) (pid : Z) : proc_tab :=
  Tab (<[i := pid]> (t_pid t)) (t_ent t).

Definition with_tab (st : preg) (t : proc_tab) : preg :=
  Preg (Some t) (g_tab_n st) (g_hint_slot st) (g_hint_pid st).

Definition with_seq (e : proc_ent) (s : Z) : proc_ent :=
  Ent s (e_start e) (e_cmd_len e) (e_env_len e) (e_auxv_len e) (e_exe_len e) (e_cwd_len e)
    (e_cmd e) (e_env e) (e_auxv e) (e_exe e) (e_cwd e) (e_args e) (e_ids e)
    (e_ngroups e) (e_groups e).
Definition with_start (e : proc_ent) (s : Z) : proc_ent :=
  Ent (e_seq e) s (e_cmd_len e) (e_env_len e) (e_auxv_len e) (e_exe_len e) (e_cwd_len e)
    (e_cmd e) (e_env e) (e_auxv e) (e_exe e) (e_cwd e) (e_args e) (e_ids e)
    (e_ngroups e) (e_groups e).
Definition with_cwd (e : proc_ent) (cwd : list ascii) (n : Z) : proc_ent :=
  Ent (e_seq e) (e_start e) (e_cmd_len e) (e_env_len e) (e_auxv_len e) (e_exe_len e) n
    (e_cmd e) (e_env e) (e_auxv e) (e_exe e) cwd (e_args e) (e_ids e)
    (e_ngroups e) (e_groups e).
Definition with_ids (e : proc_ent) (ids : cng_procids) (ng : Z) (gs : list Z) : proc_ent :=
  Ent (e_seq e) (e_start e) (e_cmd_len e) (e_env_len e) (e_auxv_len e) (e_exe_len e) (e_cwd_len e)
    (e_cmd e) (e_env e) (e_auxv e) (e_exe e) (e_cwd e) (e_args e) ids ng gs.

(** ** Finding a slot *)

(** The 64-bit load of two neighbouring slots. *)
Definition pid_pair (a b : Z) : Z := u32 a + 2 ^ 32 * u32 b.

Fixpoint scan_pairs (l : list Z) (i : Z) (pid : Z) : Z :=
  match l with
  | a :: b :: l =>
      let w := pid_pair a b in
      if s32 (u32 w) =? pid then i
      else if s32 (u32 (Z.shiftr w 32)) =? pid then i + 1
      else scan_pairs l (i + 2) pid
  | [a] => if a =? pid then i else -1
  | [] => -1
  end.

Definition scan_for (t : proc_tab) (n : nat) (pid : Z) : Z :=
  scan_pairs (take n (t_pid t)) 0 pid.

Definition slot_of (st : preg) (pid : Z) : preg * Z :=
  match g_tab st with
  | None => (st, -1)
  | Some t =>
      if pid <=? 0 then (st, -1)
      else
        let h := g_hint_slot st in
        if (0 <=? h) && (h <? Z.of_nat (g_tab_n st)) && (g_hint_pid st =? pid)
           && bool_decide (t_pid t !! Z.to_nat h = Some pid)
        then (st, h)
        else
          let found := scan_for t (g_tab_n st) pid in
          if found <? 0 then (st, -1)
          else (Preg (Some t) (g_tab_n st) found pid, found)
  end.

(** The entry of a slot that [slot_of] found. *)
Definition ent_at (st : preg) (i : Z) : option proc_ent :=
  t ← g_tab st; t_ent t !! Z.to_nat i.

Definition put_ent (st : preg) (i : Z) (e : proc_ent) : preg :=
  match g_tab st with
  | Some t => with_tab st (set_ent t (Z.to_nat i) e)
  | None => st
  end.

(** ** The entry's lock *)

(** The compare-and-swap of an even count to the odd one after it, [spins]
    times; the entry, and the odd count or 0. *)
Fixpoint seq_acquire (spins : nat) (e : proc_ent) : proc_ent * Z :=
  match spins with
  | O => (e, 0)
  | S spins =>
      let s := e_seq e in
      if negb (has_flag s 1) then (with_seq e (u32 (s + 1)), u32 (s + 1))
      else seq_acquire spins e
  end.

Definition seq_release (e : proc_ent) (odd : Z) : proc_ent := with_seq e (u32 (odd + 1)).

(** ** Claiming a slot *)

(** The table, and whether the compare-and-swap of the pid was won. *)
Definition slot_take (t : proc_tab) (i : nat) (want pid : Z) : proc_tab * bool :=
  match t_ent t !! i with
  | None => (t, false)
  | Some e =>
      let '(e, s) := seq_acquire 1024 e in
      let unlock e := if s =? 0 then e else seq_release e s in
      if bool_decide (t_pid t !! i = Some want)
      then (set_ent (set_pid t i pid) i (unlock (with_start e 0)), true)
      else (set_ent t i (unlock e), false)
  end.

(** The two passes over the table: a free slot, then one whose process is gone. *)
Fixpoint free_pass (idx : list nat) (t : proc_tab) (pid : Z) : proc_tab * option nat :=
  match idx with
  | [] => (t, None)
  | i :: idx =>
      if negb (default 0 (t_pid t !! i) =? 0) then free_pass idx t pid
      else match slot_take t i 0 pid with
           | (t, true) => (t, Some i)
           | (t, false) => free_pass idx t pid
           end
  end.

Fixpoint dead_pass (w : world) (idx : list nat) (t : proc_tab) (pid : Z) : proc_tab * option nat :=
  match idx with
  | [] => (t, None)
  | i :: idx =>
      let dead := default 0 (t_pid t !! i) in
      if (dead <=? 0) || negb (starttime w dead =? 0) then dead_pass w idx t pid
      else match slot_take t i dead pid with
           | (t, true) => (t, Some i)
           | (t, false) => dead_pass w idx t pid
           end
  end.

(** The registry and the slot, or -1 where the table is full or absent. *)
Definition slot_for (w : world) (st : preg) (pid : Z) : preg * Z :=
  match g_tab st with
  | None => (st, -1)
  | Some _ =>
      if pid <=? 0 then (st, -1)
      else
        let '(st, have) := slot_of st pid in
        if 0 <=? have then (st, have)
        else match g_tab st with
             | None => (st, -1)
             | Some t =>
                 match free_pass (seq 0 (g_tab_n st)) t pid with
                 | (t, Some i) => (with_tab st t, Z.of_nat i)
                 | (t, None) =>
                     match dead_pass w (seq 0 (g_tab_n st)) t pid with
                     | (t, Some i) => (with_tab st t, Z.of_nat i)
                     | (t, None) => (with_tab st t, -1)
                     end
                 end
             end
  end.

(** ** What is published *)

(** A NULL vector is [None].  The array after the copy, and the byte count. *)
Fixpoint join_loop (vec : list cstr) (dst : list ascii) (n cap : nat) : list ascii * nat :=
  match vec with
  | [] => (dst, n)
  | s :: vec =>
      let l := S (length s) in
      if (cap <? n + l)%nat then (dst, n)
      else join_loop vec (take n dst ++ put_array (drop n dst) (s ++ [NUL])) (n + l) cap
  end.

Definition join_vec (dst : list ascii) (cap : nat) (vec : option (list cstr)) : list ascii * Z :=
  match vec with
  | None => (dst, 0)
  | Some vec => let '(dst, n) := join_loop vec dst 0 cap in (dst, Z.of_nat n)
  end.

Definition copy_path (dst : list ascii) (cap : nat) (s : option cstr) : list ascii * Z :=
  match s with
  | None => (dst, 0)
  | Some s =>
      let l := Nat.min (length s) cap in
      (put_array dst (take l s), u16 (Z.of_nat l))
  end.

(** Our ids as the live fake set has them, and its groups. *)
Definition ids_live (w : world) : cng_procids * list Z :=
  (Ids (if w_fake w then 1 else 0) (c_u (w_cred w)) (c_g (w_cred w)) 0 0 0,
   c_groups (w_cred w)).

(** [e->ngroups = ids_live(&e->ids, e->groups)]. *)
Definition put_ids (w : world) (e : proc_ent) : proc_ent :=
  let '(ids, gs) := ids_live w in
  with_ids e ids (Z.of_nat (length gs)) (put_array (e_groups e) gs).

Record pubargs := PubArgs {
  pb_argv : option (list cstr); pb_envp : option (list cstr);
  pb_auxv : option (list ascii); pb_auxv_len : nat;
  pb_args : option cng_procargs; pb_exe : option cstr; pb_cwd : option cstr }.

(** The stores of a publish, under the lock. *)
Definition publish_ent (w : world) (start : Z) (p : pubargs) (e : proc_ent) : proc_ent :=
  let auxv_len := Nat.min (pb_auxv_len p) CNG_PROCREG_AUXV in
  let '(cmd, cmd_len) := join_vec (e_cmd e) CNG_PROCREG_CMDLINE (pb_argv p) in
  let '(env, env_len) := join_vec (e_env e) CNG_PROCREG_ENVIRON (pb_envp p) in
  let auxv := match pb_auxv p with
              | Some a => put_array (e_auxv e) (take auxv_len a)
              | None => e_auxv e
              end in
  let '(exe, exe_len) := copy_path (e_exe e) CNG_PROCREG_PATH (pb_exe p) in
  let '(cwd, cwd_len) := copy_path (e_cwd e) CNG_PROCREG_PATH (pb_cwd p) in
  put_ids w
    (Ent (e_seq e) start cmd_len env_len (Z.of_nat auxv_len) exe_len cwd_len
       cmd env auxv exe cwd (default no_args (pb_args p)) (e_ids e)
       (e_ngroups e) (e_groups e)).

Definition cng_procreg_publish (w : world) (p : pubargs) (st : preg) : preg :=
  let start := starttime w (w_self w) in
  let '(st, i) := slot_for w st (w_self w) in
  match (if i <? 0 then None else ent_at st i) with
  | None => st
  | Some e =>
      let '(e, s) := seq_acquire (Z.to_nat (2 ^ 20)) e in
      let '(e, s) :=
        if s =? 0
        then seq_acquire (Z.to_nat (2 ^ 20)) (with_seq e (u32 (Z.lor (e_seq e) 1 + 1)))
        else (e, s) in
      if s =? 0 then put_ent st i e
      else put_ent st i (seq_release (publish_ent w start p e) s)
  end.

(** ** Reading *)

(** The counts and buffers of an entry, each count cut at its capacity. *)
Definition snap_of (e : proc_ent) : cng_procsnap :=
  let cut n cap (b : list ascii) := take (Z.to_nat (Z.min n (Z.of_nat cap))) b in
  Snap (cut (e_cmd_len e) CNG_PROCREG_CMDLINE (e_cmd e))
       (cut (e_env_len e) CNG_PROCREG_ENVIRON (e_env e))
       (cut (e_auxv_len e) CNG_PROCREG_AUXV (e_auxv e))
       (cut (e_exe_len e) CNG_PROCREG_PATH (e_exe e))
       (cut (e_cwd_len e) CNG_PROCREG_PATH (e_cwd e))
       (e_args e) (e_ids e)
       (take (Z.to_nat (Z.min (e_ngroups e) (Z.of_nat CNG_PROCREG_GROUPS))) (e_groups e)).

(** The bounded retry of a seqlock read.  [body] is what is read between the two
    loads of the count, [None] where the slot no longer holds the pid. *)
Fixpoint seq_read {A} (tries : nat) (e : proc_ent) (body : option A) : option A :=
  match tries with
  | O => None
  | S tries =>
      if has_flag (e_seq e) 1 then seq_read tries e body
      else body
  end.

Definition slot_holds (st : preg) (i pid : Z) : bool :=
  match g_tab st with
  | Some t => bool_decide (t_pid t !! Z.to_nat i = Some pid)
  | None => false
  end.

Definition cng_procreg_get (w : world) (st : preg) (pid : Z) : preg * option cng_procsnap :=
  let '(st, slot) := slot_of st pid in
  if slot <? 0 then (st, None)
  else match ent_at st slot with
       | None => (st, None)
       | Some e =>
           (st,
            '(start, sn) ← seq_read 100 e
              (if slot_holds st slot pid then Some (e_start e, snap_of e) else None);
            if negb (pid =? w_self w) && ((start =? 0) || negb (start =? starttime w pid))
            then None else Some sn)
       end.

Definition cng_procreg_args (st : preg) (pid : Z) : preg * option cng_procargs :=
  let '(st, slot) := slot_of st pid in
  if slot <? 0 then (st, None)
  else match ent_at st slot with
       | None => (st, None)
       | Some e =>
           (st, seq_read 100 e (if slot_holds st slot pid then Some (e_args e) else None))
       end.

(** The ids and, beside them, the groups. *)
Definition cng_procreg_cred (w : world) (st : preg) (pid : Z)
    : preg * option (cng_procids * list Z) :=
  let self := pid =? w_self w in
  let '(st, slot) := slot_of st pid in
  let hit :=
    if slot <? 0 then None
    else e ← ent_at st slot;
         '(start, r) ← seq_read 100 e
           (if slot_holds st slot pid
            then Some (e_start e, (e_ids e, sn_groups (snap_of e))) else None);
         if self || (negb (start =? 0) && (start =? starttime w pid)) then Some r else None in
  (st, match hit with
       | Some r => Some r
       | None => if self then Some (ids_live w) else None
       end).

Definition cng_procreg_ids (w : world) (st : preg) (pid : Z) : preg * option cng_procids :=
  let '(st, r) := cng_procreg_cred w st pid in (st, fst <$> r).

(** Is [pid] a guest process?  A reused pid has its slot freed. *)
Definition cng_procreg_has (w : world) (st : preg) (pid : Z) : preg * bool :=
  if pid <=? 0 then (st, false)
  else if pid =? w_self w then (st, true)
  else
    let '(st, i) := slot_of st pid in
    if i <? 0 then (st, false)
    else match ent_at st i with
         | None => (st, false)
         | Some e =>
             if e_start e =? 0 then (st, false)
             else
               let live := starttime w pid in
               if live =? e_start e then (st, true)
               else if live =? 0 then (st, false)
               else (if slot_holds st i pid
                     then match g_tab st with
                          | Some t => with_tab st (set_pid t (Z.to_nat i) 0)
                          | None => st
                          end
                     else st, false)
         end.

Definition cng_procreg_has_task (w : world) (st : preg) (tid : Z) : preg * bool :=
  let '(st, r) := cng_procreg_has w st tid in
  if r then (st, true)
  else if (0 <? tid) && w_tgkill w tid then (st, true)
  else
    let tgid := cng_proc_tgid (w_proc w) tid in
    if (0 <? tgid) && negb (tgid =? tid) then cng_procreg_has w st tgid else (st, false).

Definition cng_procreg_slots (st : preg) : Z :=
  match g_tab st with Some _ => Z.of_nat (g_tab_n st) | None => 0 end.

Definition cng_procreg_pid_at (w : world) (st : preg) (i : Z) : preg * Z :=
  match g_tab st with
  | None => (st, 0)
  | Some t =>
      if (i <? 0) || (Z.of_nat (g_tab_n st) <=? i) then (st, 0)
      else
        let pid := default 0 (t_pid t !! Z.to_nat i) in
        if (pid <=? 0) || negb (scan_for t (g_tab_n st) pid =? i) then (st, 0)
        else let '(st, r) := cng_procreg_has w st pid in (st, if r then pid else 0)
  end.

(** Any guest still alive? *)
Definition cng_procreg_table_live (w : world) (t : proc_tab) : bool :=
  existsb (fun pid => (0 <? pid) && negb (starttime w pid =? 0)) (take CNG_PROCREG_MAX (t_pid t)).

(** ** Updates *)

(** The stores of a fork's copy: the forker's payload, under the child's stamp. *)
Definition fork_ent (start : Z) (sn : cng_procsnap) (e : proc_ent) : proc_ent :=
  let len {A} (l : list A) := Z.of_nat (length l) in
  Ent (e_seq e) start (len (sn_cmd sn)) (len (sn_env sn)) (len (sn_auxv sn))
    (len (sn_exe sn)) (len (sn_cwd sn))
    (put_array (e_cmd e) (sn_cmd sn)) (put_array (e_env e) (sn_env sn))
    (put_array (e_auxv e) (sn_auxv sn)) (put_array (e_exe e) (sn_exe sn))
    (put_array (e_cwd e) (sn_cwd sn)) (sn_args sn)
    (let i := sn_ids sn in
     Ids (pi_fake i) (pi_u i) (pi_g i) 0 (pi_claim_uid i) (pi_claim_gid i))
    (len (sn_groups sn)) (put_array (e_groups e) (sn_groups sn)).

Definition fork_copy (w : world) (st : preg) (forker child : Z) : preg :=
  match g_tab st with
  | None => st
  | Some _ =>
      if (forker <=? 0) || (child <=? 0) then st
      else
        let '(st, snap) := cng_procreg_get w st forker in
        match snap with
        | None => st
        | Some sn =>
            let start := starttime w child in
            let '(st, i) := slot_for w st child in
            match (if i <? 0 then None else ent_at st i) with
            | None => st
            | Some e =>
                if negb (start =? 0) && (e_start e =? start) then st
                else
                  let '(e, s) := seq_acquire (Z.to_nat 4096) e in
                  if s =? 0 then st
                  else if negb (start =? 0) && (e_start e =? start)
                       then put_ent st i (seq_release e s)
                       else put_ent st i (seq_release (fork_ent start sn e) s)
            end
        end
  end.

Definition cng_procreg_fork (w : world) (st : preg) (child : Z) : preg :=
  fork_copy w st (w_self w) child.

(** Our own slot, and its entry with the lock taken. *)
Definition own_write (w : world) (st : preg) : preg * option (Z * proc_ent * Z) :=
  match g_tab st with
  | None => (st, None)
  | Some _ =>
      let '(st, slot) := slot_of st (w_self w) in
      if slot <? 0 then (st, None)
      else match ent_at st slot with
           | None => (st, None)
           | Some e =>
               let '(e, s) := seq_acquire (Z.to_nat (2 ^ 20)) e in
               (st, if s =? 0 then None else Some (slot, e, s))
           end
  end.

Definition cng_procreg_set_ids (w : world) (st : preg) : preg :=
  match own_write w st with
  | (st, Some (i, e, s)) => put_ent st i (seq_release (put_ids w e) s)
  | (st, None) => st
  end.

Definition cng_procreg_set_cwd (w : world) (st : preg) (cwd : option cstr) : preg :=
  match g_tab st with
  | None => st
  | Some _ =>
      let '(st, slot) := slot_of st (w_self w) in
      if slot <? 0 then st
      else match ent_at st slot with
           | None => st
           | Some e =>
               let '(e, s) := seq_acquire (Z.to_nat 4096) e in
               if s =? 0 then st
               else
                 let '(b, n) := copy_path (e_cwd e) CNG_PROCREG_PATH cwd in
                 put_ent st slot (seq_release (with_cwd e b n) s)
           end
  end.

Definition cng_procreg_claim (w : world) (st : preg) (uid gid : Z) : preg :=
  match g_tab st with
  | None => st
  | Some _ =>
      let '(st, slot) := slot_of st (w_self w) in
      if slot <? 0 then st
      else match ent_at st slot with
           | None => st
           | Some e =>
               let i := e_ids e in
               if negb (pi_claim i =? 0) && (pi_claim_uid i =? uid) && (pi_claim_gid i =? gid)
               then st
               else match own_write w st with
                    | (st, Some (slot, e, s)) =>
                        let i := e_ids e in
                        put_ent st slot
                          (seq_release (with_ids e (Ids (pi_fake i) (pi_u i) (pi_g i) 1 uid gid)
                                          (e_ngroups e) (e_groups e)) s)
                    | (st, None) => st
                    end
           end
  end.

(** ** The child's half of a fork *)

(** Is [pid]'s slot stamped with [start], and not in the middle of a write? *)
Definition fork_published (st : preg) (pid start : Z) : preg * bool :=
  let '(st, i) := slot_of st pid in
  if i <? 0 then (st, false)
  else match ent_at st i with
       | None => (st, false)
       | Some e => (st, negb (has_flag (e_seq e) 1) && (e_start e =? start))
       end.

Definition FORK_WAIT_YIELDS : nat := 64.
Definition FORK_WAIT_NAPS : nat := 100.

(** The waiting turns.  [seen t] is the table as turn [t] finds it, and
    [parent t] the forker's start time and zombie state then.  Whether the
    parent's copy was seen, and the registry at that point. *)
Fixpoint fork_turns (fuel : nat) (t : nat) (seen : nat -> proc_tab) (parent : nat -> Z * bool)
    (st : preg) (me start : Z) : preg * bool :=
  match fuel with
  | O => (st, false)
  | S fuel =>
      let st := with_tab st (seen t) in
      let '(st, done) := fork_published st me start in
      if done then (st, true)
      else if (t <? FORK_WAIT_YIELDS)%nat then fork_turns fuel (S t) seen parent st me start
      else if ((t - FORK_WAIT_YIELDS) mod 16 =? 0)%nat
              && ((fst (parent t) =? 0) || snd (parent t))
      then (st, false)
      else fork_turns fuel (S t) seen parent st me start
  end.

Definition fork_wait (w : world) (seen : nat -> proc_tab) (parent : nat -> Z * bool)
    (st : preg) (forker : Z) : preg :=
  match g_tab st with
  | None => st
  | Some _ =>
      if forker <=? 0 then st
      else
        let me := w_self w in
        let start := starttime w me in
        if start =? 0 then st
        else
          let '(st, fi) := slot_of st forker in
          match (if fi <? 0 then None else ent_at st fi) with
          | None => st
          | Some e =>
              if e_start e =? 0 then st
              else
                let '(st, done) :=
                  fork_turns (FORK_WAIT_YIELDS + FORK_WAIT_NAPS) 0 seen parent st me start in
                if done then st else fork_copy w st forker me
          end
  end.

Definition cng_procreg_fork_child (w : world) (seen : nat -> proc_tab)
    (parent : nat -> Z * bool) (st : preg) (forker : Z) : preg :=
  cng_procreg_set_ids w (fork_wait w seen parent st forker).
