(* ===== verification/ProcregFacts.v ===== *)
(** * Lemmas on the guest process registry

    The registry's invariant, the three ways its table changes (an entry
    written, a slot claimed, a slot freed), and what finding and claiming a slot
    give. *)

From Stdlib Require Import ZArith Ascii String Lia.
From S2P Require Import Prelude Fmt ProcStat IpcData Cred Procreg.
From stdpp Require Import base numbers strings list.

Open Scope Z_scope.

(** ** The invariant *)

(** Every field of an entry is of its width and every count within its buffer. *)
Record ent_ok (e : proc_ent) : Prop := {
  eo_seq : 0 <= e_seq e < 2 ^ 32;
  eo_start : 0 <= e_start e < 2 ^ 64;
  eo_cmd : 0 <= e_cmd_len e <= Z.of_nat CNG_PROCREG_CMDLINE;
  eo_env : 0 <= e_env_len e <= Z.of_nat CNG_PROCREG_ENVIRON;
  eo_auxv : 0 <= e_auxv_len e <= Z.of_nat CNG_PROCREG_AUXV;
  eo_exe : 0 <= e_exe_len e <= Z.of_nat CNG_PROCREG_PATH;
  eo_cwd : 0 <= e_cwd_len e <= Z.of_nat CNG_PROCREG_PATH;
  eo_groups : 0 <= e_ngroups e <= Z.of_nat CNG_PROCREG_GROUPS;
  eo_bufs : length (e_cmd e) = CNG_PROCREG_CMDLINE /\ length (e_env e) = CNG_PROCREG_ENVIRON /\
            length (e_auxv e) = CNG_PROCREG_AUXV /\ length (e_exe e) = CNG_PROCREG_PATH /\
            length (e_cwd e) = CNG_PROCREG_PATH /\ length (e_groups e) = CNG_PROCREG_GROUPS }.

Definition pid_ok (p : Z) : Prop := 0 <= p < 2 ^ 31.

(** No pid but 0 is in two slots. *)
Definition slots_unique (pids : list Z) : Prop :=
  forall i j p, pids !! i = Some p -> pids !! j = Some p -> p <> 0 -> i = j.

(** [G pid start]: the incarnation of [pid] that started at [start] is a guest's.
    Whatever a claimed slot is stamped with is one of them. *)
Definition stamped (G : Z -> Z -> Prop) (t : proc_tab) : Prop :=
  forall i p e, t_pid t !! i = Some p -> t_ent t !! i = Some e ->
  p <> 0 -> e_start e <> 0 -> G p (e_start e).

Record tab_inv (G : Z -> Z -> Prop) (n : nat) (t : proc_tab) : Prop := {
  ti_pids : length (t_pid t) = n;
  ti_ents : length (t_ent t) = n;
  ti_pid : Forall pid_ok (t_pid t);
  ti_ent : Forall ent_ok (t_ent t);
  ti_unique : slots_unique (t_pid t);
  ti_stamp : stamped G t }.

Definition reg_inv (G : Z -> Z -> Prop) (st : preg) : Prop :=
  forall t, g_tab st = Some t -> tab_inv G (g_tab_n st) t.

Definition world_ok (w : world) : Prop :=
  0 < w_self w < 2 ^ 31 /\ (length (c_groups (w_cred w)) <= CNG_PROCREG_GROUPS)%nat.

(** What finding a slot needs of the table; two slots may hold one pid. *)
Definition reg_shape (st : preg) : Prop :=
  forall t, g_tab st = Some t ->
  length (t_pid t) = g_tab_n st /\ length (t_ent t) = g_tab_n st /\ Forall pid_ok (t_pid t).

Lemma reg_inv_shape G st : reg_inv G st -> reg_shape st.
Proof. intros Hi t Ht. destruct (Hi t Ht). done. Qed.

(** ** The three changes *)

Section Changes.
Context {G : Z -> Z -> Prop} {n : nat}.

Lemma inv_write t i p e :
  tab_inv G n t -> t_pid t !! i = Some p -> ent_ok e ->
  (p <> 0 -> e_start e <> 0 -> G p (e_start e)) -> tab_inv G n (set_ent t i e).
Proof.
  intros [H1 H2 H3 H4 H5 H6] Hp He Hg. constructor; cbn [set_ent t_pid t_ent]; try done.
  - by rewrite length_insert.
  - by apply Forall_insert.
  - intros j q f Hq Hf Hq0 Hf0. cbn [set_pid set_ent t_pid t_ent] in Hq, Hf.
    apply list_lookup_insert_Some in Hf.
    destruct Hf as [(-> & <- & _)|[_ Hf]]; [|by eapply H6].
    rewrite Hp in Hq. injection Hq as <-. by apply Hg.
Qed.

Lemma inv_claim t i p e :
  tab_inv G n t -> 0 < p < 2 ^ 31 -> (forall j, t_pid t !! j <> Some p) -> ent_ok e ->
  e_start e = 0 -> tab_inv G n (set_ent (set_pid t i p) i e).
Proof.
  intros [H1 H2 H3 H4 H5 H6] Hp Hfree He H0.
  constructor; cbn [set_ent set_pid t_pid t_ent].
  - by rewrite length_insert.
  - by rewrite length_insert.
  - apply Forall_insert; [done|]. split; lia.
  - by apply Forall_insert.
  - intros j k q Hj Hk Hq. apply list_lookup_insert_Some in Hj, Hk.
    destruct Hj as [(? & ? & _)|[_ Hj]], Hk as [(? & ? & _)|[_ Hk]]; subst;
      [done| | |by eapply H5]; edestruct Hfree; eauto.
  - intros j q f Hq Hf Hq0 Hf0. cbn [set_pid set_ent t_pid t_ent] in Hq, Hf.
    apply list_lookup_insert_Some in Hf.
    destruct Hf as [(-> & <- & _)|[Hne Hf]]; [done|].
    rewrite list_lookup_insert_ne in Hq by done. by eapply H6.
Qed.

Lemma inv_free t i : tab_inv G n t -> tab_inv G n (set_pid t i 0).
Proof.
  intros [H1 H2 H3 H4 H5 H6]. constructor; cbn [set_pid t_pid t_ent]; try done.
  - by rewrite length_insert.
  - apply Forall_insert; [done|]. split; lia.
  - intros j k q Hj Hk Hq. apply list_lookup_insert_Some in Hj, Hk.
    destruct Hj as [(_ & <- & _)|[_ Hj]]; [done|].
    destruct Hk as [(_ & <- & _)|[_ Hk]]; [done|]. by eapply H5.
  - intros j q f Hq Hf Hq0 Hf0. cbn [set_pid set_ent t_pid t_ent] in Hq, Hf.
    apply list_lookup_insert_Some in Hq.
    destruct Hq as [(_ & <- & _)|[_ Hq]]; [done|]. by eapply H6.
Qed.
End Changes.

Lemma inv_mono (G H : Z -> Z -> Prop) n t :
  (forall p s, G p s -> H p s) -> tab_inv G n t -> tab_inv H n t.
Proof.
  intros HG [H1 H2 H3 H4 H5 H6]. constructor; try done.
  intros i p e ? ? ? ?. apply HG. by eapply H6.
Qed.

(** ** The scan *)

(** The reference: the first slot that holds [pid]. *)
Fixpoint first_slot (l : list Z) (i : Z) (pid : Z) : Z :=
  match l with
  | [] => -1
  | p :: l => if p =? pid then i else first_slot l (i + 1) pid
  end.

Lemma pair_halves a b :
  pid_ok a -> pid_ok b ->
  s32 (u32 (pid_pair a b)) = a /\ s32 (u32 (Z.shiftr (pid_pair a b) 32)) = b.
Proof.
  intros [Ha1 Ha2] [Hb1 Hb2]. unfold pid_pair. rewrite !(wrapu_small 32 a), !(wrapu_small 32 b) by lia.
  split.
  - unfold wrapu at 1. rewrite (Z.mul_comm (2 ^ 32)), Z.mod_add by lia.
    rewrite Z.mod_small, wraps_small by lia. done.
  - rewrite Z.shiftr_div_pow2, (Z.mul_comm (2 ^ 32)), Z.div_add, Z.div_small by lia.
    rewrite wrapu_small, wraps_small by lia. done.
Qed.

(** The scan by pairs finds what a scan by slots finds. *)
Lemma scan_first l : Forall pid_ok l -> forall i pid, scan_pairs l i pid = first_slot l i pid.
Proof.
  induction l as [l IH] using (induction_ltof1 _ (@length Z)). unfold ltof in IH.
  destruct l as [|a [|b l]]; intros Hl i pid; [done|done|].
  inversion_clear Hl as [|? ? Ha Hl']. inversion_clear Hl' as [|? ? Hb Hl].
  cbn [scan_pairs first_slot]. destruct (pair_halves a b Ha Hb) as [-> ->].
  case_if; [done|]. case_if; [done|]. rewrite IH by (done || simpl; lia). f_equal. lia.
Qed.

Lemma first_slot_spec l pid : forall i, 0 <= i ->
  (first_slot l i pid = -1 /\ (forall j, l !! j <> Some pid)) \/
  (exists k, first_slot l i pid = i + Z.of_nat k /\ l !! k = Some pid /\
             forall j, (j < k)%nat -> l !! j <> Some pid).
Proof.
  induction l as [|p l IH]; intros i Hi; cbn [first_slot]; [by left|].
  destruct (Z.eqb_spec p pid) as [->|Hne].
  { right. exists 0%nat. rewrite Z.add_0_r. repeat split. intros; lia. }
  destruct (IH (i + 1) ltac:(lia)) as [[E H]|(k & E & Hk & Hmin)].
  - left. split; [done|]. intros [|j]; cbn; [congruence|apply H].
  - right. exists (S k). rewrite E. split; [lia|]. split; [done|].
    intros [|j] Hj; cbn; [congruence|]. apply Hmin. lia.
Qed.

Lemma scan_for_spec n t pid :
  length (t_pid t) = n -> Forall pid_ok (t_pid t) ->
  (scan_for t n pid = -1 /\ (forall j, t_pid t !! j <> Some pid)) \/
  (exists k, scan_for t n pid = Z.of_nat k /\ t_pid t !! k = Some pid /\ (k < n)%nat /\
             forall j, (j < k)%nat -> t_pid t !! j <> Some pid).
Proof.
  intros Hn Hok. unfold scan_for. rewrite take_ge by lia. rewrite scan_first by done.
  destruct (first_slot_spec (t_pid t) pid 0 ltac:(lia)) as [|(k & E & Hk & Hmin)]; [by left|].
  right. exists k. rewrite E. split; [lia|]. split; [done|]. split; [|done].
  rewrite <-Hn. by eapply lookup_lt_Some.
Qed.

(** ** Finding a slot *)

(** Finding never changes the table, and finds a slot exactly where there is
    one, whatever slot is remembered. *)
Lemma slot_of_shape st pid st' i :
  reg_shape st -> slot_of st pid = (st', i) ->
  g_tab st' = g_tab st /\ g_tab_n st' = g_tab_n st /\
  ((i = -1 /\ (0 < pid -> forall t, g_tab st = Some t -> forall j, t_pid t !! j <> Some pid)) \/
   (exists k t, i = Z.of_nat k /\ g_tab st = Some t /\ 0 < pid /\ t_pid t !! k = Some pid /\
      (k < g_tab_n st)%nat)).
Proof.
  intros Hi E. unfold slot_of in E. destruct (g_tab st) as [t|] eqn:Et.
  2: { injection E as <- <-. rewrite Et. repeat split. left. split; [done|]. by intros _ t [=]. }
  destruct (Z.leb_spec pid 0).
  { injection E as <- <-. rewrite Et. repeat split. left. split; [done|]. lia. }
  case_if_in E.
  - injection E as <- <-. bprop. destruct Eif as (((H1 & H2) & _) & H4). rewrite Et.
    repeat split. right. exists (Z.to_nat (g_hint_slot st)), t. repeat split; (done || lia).
  - destruct (Hi t Et) as (Hl & _ & Hok).
    pose proof (scan_for_spec (g_tab_n st) t pid Hl Hok) as [[E1 H1]|(k & E1 & Hk & Hn & _)];
      rewrite E1 in E.
    + injection E as <- <-. rewrite Et. repeat split. left. split; [done|].
      intros _ t' [= <-]. done.
    + rewrite (proj2 (Z.ltb_ge _ _)) in E by lia. injection E as <- <-. cbn.
      repeat split. right. exists k, t. repeat split; done.
Qed.

Lemma slot_of_spec G st pid st' i :
  reg_inv G st -> slot_of st pid = (st', i) ->
  g_tab st' = g_tab st /\ g_tab_n st' = g_tab_n st /\
  ((i = -1 /\ (0 < pid -> forall t, g_tab st = Some t -> forall j, t_pid t !! j <> Some pid)) \/
   (exists k t, i = Z.of_nat k /\ g_tab st = Some t /\ 0 < pid /\ t_pid t !! k = Some pid /\
      (k < g_tab_n st)%nat)).
Proof. intros Hi. by apply slot_of_shape, (reg_inv_shape G). Qed.

Lemma slot_of_inv G st pid st' i :
  reg_inv G st -> slot_of st pid = (st', i) -> reg_inv G st'.
Proof.
  intros Hi E. destruct (slot_of_spec _ _ _ _ _ Hi E) as (E1 & E2 & _).
  intros t. rewrite E1, E2. apply Hi.
Qed.

(** ** The lock *)

Lemma odd_flag s : has_flag s 1 = Z.odd s.
Proof.
  unfold has_flag. rewrite Z.land_ones with (n := 1) by lia. rewrite Zmod_odd. by destruct (Z.odd s).
Qed.

(** With no writer inside, the first attempt takes the lock. *)
Lemma seq_acquire_even spins e :
  (0 < spins)%nat -> Z.odd (e_seq e) = false ->
  seq_acquire spins e = (with_seq e (u32 (e_seq e + 1)), u32 (e_seq e + 1)).
Proof. intros Hs Ho. destruct spins; [lia|]. cbn. by rewrite odd_flag, Ho. Qed.

Lemma seq_acquire_odd spins e :
  Z.odd (e_seq e) = true -> seq_acquire spins e = (e, 0).
Proof. intros Ho. induction spins; cbn; [done|]. by rewrite odd_flag, Ho. Qed.

Lemma even_bound s : 0 <= s < 2 ^ 32 -> Z.odd s = false -> s <= 2 ^ 32 - 2.
Proof.
  intros Hs Ho. destruct (Z.eq_dec s (2 ^ 32 - 1)) as [->|]; [discriminate|lia].
Qed.

(** Either way, only the count has moved, and the odd count is not 0. *)
Lemma seq_acquire_spec spins e e' s :
  0 <= e_seq e < 2 ^ 32 -> seq_acquire spins e = (e', s) ->
  (s = 0 /\ e' = e) \/ (s = e_seq e + 1 /\ 0 < s < 2 ^ 32 /\ Z.odd s = true /\ e' = with_seq e s).
Proof.
  intros Hs E. destruct (Z.odd (e_seq e)) eqn:Ho.
  - rewrite seq_acquire_odd in E by done. injection E as <- <-. by left.
  - destruct spins; [injection E as <- <-; by left|].
    rewrite seq_acquire_even in E by (done || lia). injection E as <- <-. right.
    pose proof (even_bound _ Hs Ho). rewrite wrapu_small by lia.
    repeat split; try lia. by rewrite Z.odd_add, Ho.
Qed.

Lemma with_seq_ok e s : ent_ok e -> 0 <= s < 2 ^ 32 -> ent_ok (with_seq e s).
Proof. intros [] Hs. by constructor. Qed.

Lemma release_ok e s : ent_ok e -> ent_ok (seq_release e s).
Proof. intros He. apply with_seq_ok; [done|]. by apply wrapu_range. Qed.

Lemma acquire_ok spins e e' s : ent_ok e -> seq_acquire spins e = (e', s) -> ent_ok e'.
Proof.
  intros He E. destruct (seq_acquire_spec _ _ _ _ (eo_seq _ He) E)
    as [[_ ->]|(_ & ? & _ & ->)]; [done|]. apply with_seq_ok; [done|lia].
Qed.

Lemma acquire_same spins e e' s :
  seq_acquire spins e = (e', s) -> exists q, e' = with_seq e q.
Proof.
  induction spins as [|spins IH]; cbn; intros E.
  - injection E as <- <-. exists (e_seq e). by destruct e.
  - case_if_in E; [injection E as <- <-; eauto|by apply IH].
Qed.

(** A seqlock read with no writer inside reads at once; with one, never. *)
Lemma seq_read_spec {A} tries e (body : option A) :
  seq_read tries e body = if (tries =? 0)%nat || Z.odd (e_seq e) then None else body.
Proof.
  induction tries as [|m IH]; cbn; [done|]. rewrite odd_flag. destruct (Z.odd (e_seq e)) eqn:E; [|done].
  rewrite IH. by destruct (m =? 0)%nat.
Qed.

(** ** Claiming a slot *)

(** The slot [k] is [pid]'s in [t']: it was, or it was free or its process gone,
    and is claimed with no stamp. *)
Definition held (w : world) (pid : Z) (t t' : proc_tab) (k : nat) : Prop :=
  (t' = t /\ t_pid t !! k = Some pid) \/
  (exists old e e', (forall j, t_pid t !! j <> Some pid) /\ t_pid t !! k = Some old /\
     (old = 0 \/ 0 < old /\ starttime w old = 0) /\ t_ent t !! k = Some e /\ ent_ok e' /\
     e_start e' = 0 /\ Z.odd (e_seq e') = Z.odd (e_seq e) /\
     t' = set_ent (set_pid t k pid) k e').

Lemma slot_take_spec G n t i want pid e :
  tab_inv G n t -> t_pid t !! i = Some want -> t_ent t !! i = Some e ->
  exists e', ent_ok e' /\ e_start e' = 0 /\ Z.odd (e_seq e') = Z.odd (e_seq e) /\
    slot_take t i want pid = (set_ent (set_pid t i pid) i e', true).
Proof.
  intros Hi Hp He. unfold slot_take. rewrite He.
  assert (Hok : ent_ok e) by (eapply Forall_lookup_1; [apply Hi|done]).
  destruct (seq_acquire 1024 e) as [e1 s] eqn:E.
  pose proof (seq_acquire_spec _ _ _ _ (eo_seq _ Hok) E) as Hs.
  pose proof (acquire_ok _ _ _ _ Hok E) as Hok1.
  rewrite bool_decide_eq_true_2 by done.
  assert (Hok2 : ent_ok (with_start e1 0)) by (destruct Hok1; by constructor).
  destruct Hs as [[-> ->]|(-> & ? & Ho & ->)].
  - exists (with_start e 0). split; [done|]. split; [done|]. split; [done|]. done.
  - rewrite (proj2 (Z.eqb_neq _ 0)) by lia.
    exists (seq_release (with_start (with_seq e (e_seq e + 1)) 0) (e_seq e + 1)).
    split; [by apply release_ok|]. split; [done|]. split; [|done]. cbn.
    assert (M : forall x, Z.odd (u32 x) = Z.odd x).
    { intros x. rewrite <-!Z.bit0_odd. unfold wrapu. by rewrite Z.mod_pow2_bits_low by lia. }
    rewrite M, <-Z.add_assoc, Z.odd_add. by destruct (Z.odd (e_seq e)).
Qed.

Section Passes.
Context (G : Z -> Z -> Prop) (n : nat) (w : world) (t : proc_tab) (pid : Z).
Hypothesis (Hi : tab_inv G n t) (Hnew : forall j, t_pid t !! j <> Some pid).

(** A pass that skips slots of one kind stops at the first of the other. *)
Lemma free_pass_spec idx : Forall (fun i => (i < n)%nat) idx ->
  (free_pass idx t pid = (t, None) /\ Forall (fun i => t_pid t !! i <> Some 0) idx) \/
  (exists t' k, free_pass idx t pid = (t', Some k) /\ In k idx /\ held w pid t t' k).
Proof.
  induction 1 as [|i idx Hlt _ IH]; cbn [free_pass]; [by left|].
  destruct (lookup_lt_is_Some_2 (t_pid t) i) as [p Hp]; [by rewrite (ti_pids _ _ _ Hi)|].
  destruct (lookup_lt_is_Some_2 (t_ent t) i) as [e He]; [by rewrite (ti_ents _ _ _ Hi)|].
  rewrite Hp. cbn [default from_option id]. destruct (Z.eqb_spec p 0) as [->|Hne]; cbn [negb].
  - destruct (slot_take_spec G n t i 0 pid e Hi Hp He) as (e' & H1 & H2 & H3 & ->).
    right. exists (set_ent (set_pid t i pid) i e'), i. split; [done|]. split; [by left|]. right.
    exists 0, e, e'. repeat (split; [by eauto|]). done.
  - destruct IH as [[-> HF]|(t' & k & -> & Hk & Hh)].
    + left. split; [done|]. constructor; [congruence|done].
    + right. exists t', k. split; [done|]. split; [by right|done].
Qed.

Lemma dead_pass_spec idx : Forall (fun i => (i < n)%nat) idx ->
  (dead_pass w idx t pid = (t, None) /\
   Forall (fun i => forall p, t_pid t !! i = Some p -> 0 < p -> starttime w p <> 0) idx) \/
  (exists t' k, dead_pass w idx t pid = (t', Some k) /\ In k idx /\ held w pid t t' k).
Proof.
  induction 1 as [|i idx Hlt _ IH]; cbn [dead_pass]; [by left|].
  destruct (lookup_lt_is_Some_2 (t_pid t) i) as [p Hp]; [by rewrite (ti_pids _ _ _ Hi)|].
  destruct (lookup_lt_is_Some_2 (t_ent t) i) as [e He]; [by rewrite (ti_ents _ _ _ Hi)|].
  rewrite Hp. cbn [default from_option id].
  destruct ((p <=? 0) || negb (starttime w p =? 0)) eqn:Ec; bprop.
  - destruct IH as [[-> HF]|(t' & k & -> & Hk & Hh)].
    + left. split; [done|]. constructor; [|done]. intros q Hq Hpos.
      rewrite Hp in Hq. injection Hq as <-. destruct Ec; [lia|done].
    + right. exists t', k. split; [done|]. split; [by right|done].
  - destruct Ec as [Hpos H0].
    destruct (slot_take_spec G n t i p pid e Hi Hp He) as (e' & H1 & H2 & H3 & ->).
    right. exists (set_ent (set_pid t i pid) i e'), i. split; [done|]. split; [by left|]. right.
    exists p, e, e'. split; [done|]. split; [done|]. split; [right; done|].
    repeat (split; [by eauto|]). done.
Qed.
End Passes.

Lemma held_inv G n w pid t t' k :
  tab_inv G n t -> 0 < pid < 2 ^ 31 -> held w pid t t' k ->
  tab_inv G n t' /\ t_pid t' !! k = Some pid /\ (k < n)%nat /\
  exists e, t_ent t' !! k = Some e /\ ent_ok e.
Proof.
  intros Hi Hp [[-> Hk]|(old & e & e' & Hnew & Hk & _ & He & Hok & H0 & _ & ->)].
  - assert (Hlt : (k < n)%nat) by (rewrite <-(ti_pids _ _ _ Hi); by eapply lookup_lt_Some).
    destruct (lookup_lt_is_Some_2 (t_ent t) k) as [e He]; [by rewrite (ti_ents _ _ _ Hi)|].
    repeat (split; [done|]). exists e. split; [done|]. eapply Forall_lookup_1; [apply Hi|done].
  - assert (Hlt : (k < n)%nat) by (rewrite <-(ti_pids _ _ _ Hi); by eapply lookup_lt_Some).
    split; [by apply inv_claim|]. cbn [set_ent set_pid t_pid t_ent].
    split; [apply list_lookup_insert_eq; by rewrite (ti_pids _ _ _ Hi)|].
    split; [done|]. exists e'. split; [|done].
    apply list_lookup_insert_eq. by rewrite (ti_ents _ _ _ Hi).
Qed.

(** A process gets its own slot, or a free one, or a dead one's, or there is
    none of these. *)
Lemma slot_for_spec G w st pid st' i :
  reg_inv G st -> 0 < pid < 2 ^ 31 -> slot_for w st pid = (st', i) ->
  g_tab_n st' = g_tab_n st /\
  ((i = -1 /\ g_tab st' = g_tab st /\
    forall t j p, g_tab st = Some t -> t_pid t !! j = Some p ->
                  p <> pid /\ p <> 0 /\ starttime w p <> 0) \/
   (exists k t t', i = Z.of_nat k /\ g_tab st = Some t /\ g_tab st' = Some t' /\
      held w pid t t' k)).
Proof.
  intros Hi Hp E. unfold slot_for in E. destruct (g_tab st) as [t|] eqn:Et.
  2: { injection E as <- <-. split; [done|]. left. split; [done|]. by rewrite Et. }
  rewrite (proj2 (Z.leb_gt pid 0)) in E by lia.
  destruct (slot_of st pid) as [st1 have] eqn:E1.
  destruct (slot_of_spec _ _ _ _ _ Hi E1) as (T1 & N1 & [[-> Hnew]|(k & t1 & -> & Ht & _ & Hk & _)]).
  2: { rewrite (proj2 (Z.leb_le _ _)) in E by lia. injection E as <- <-. split; [done|]. right.
       rewrite Et in Ht. injection Ht as <-. exists k, t, t. rewrite T1, Et.
       split; [done|]. split; [done|]. split; [done|]. by left. }
  cbn [Z.leb Z.compare] in E. rewrite T1, Et, N1 in E.
  specialize (Hnew ltac:(lia) t Et). pose proof (Hi t Et) as Hti.
  assert (HF : Forall (fun i => (i < g_tab_n st)%nat) (seq 0 (g_tab_n st))).
  { apply Forall_forall. intros x Hx%list_elem_of_In%in_seq. lia. }
  destruct (free_pass_spec G _ w t pid Hti Hnew _ HF) as [[E2 F2]|(t' & k & E2 & _ & Hh)];
    rewrite E2 in E.
  2: { injection E as <- <-. split; [done|]. right. by exists k, t, t'. }
  destruct (dead_pass_spec G _ w t pid Hti Hnew _ HF) as [[E3 F3]|(t' & k & E3 & _ & Hh)];
    rewrite E3 in E.
  2: { injection E as <- <-. split; [done|]. right. by exists k, t, t'. }
  injection E as <- <-. split; [done|]. left. split; [done|]. split; [done|].
  intros t' j p [= <-] Hj.
  assert (Hin : j ∈ seq 0 (g_tab_n st)).
  { apply list_elem_of_In, in_seq. apply lookup_lt_Some in Hj.
    rewrite (ti_pids _ _ _ Hti) in Hj. lia. }
  rewrite Forall_forall in F2, F3. pose proof (F2 j Hin) as G2. pose proof (F3 j Hin p Hj) as G3.
  assert (p <> 0) by congruence. split; [intros ->; by apply (Hnew j)|]. split; [done|].
  apply G3. pose proof (Forall_lookup_1 _ _ _ _ (ti_pid _ _ _ Hti) Hj) as []. lia.
Qed.

(** ** Stamps *)

Lemma read_dec_range p : 0 <= read_dec u64 p < 2 ^ 64.
Proof.
  unfold read_dec. generalize (take_while is_dig p). intros l.
  assert (G : forall t, 0 <= t < 2 ^ 64 -> 0 <= foldl (dec_step u64) t l < 2 ^ 64).
  { induction l as [|c l IH]; intros t Ht; cbn [foldl]; [done|]. apply IH. by apply wrapu_range. }
  apply G. lia.
Qed.

Lemma stat_fields_range fuel : forall p field z n,
  0 <= fst (stat_fields fuel p field z n) < 2 ^ 64.
Proof.
  induction fuel as [|fuel IH]; intros p field z n; cbn [stat_fields]; [cbn; lia|].
  destruct (drop_while is_spc p) as [|c r]; [cbn; lia|].
  destruct (field + 1 =? 20); [|apply IH]. cbn [fst].
  case_if; [lia|apply read_dec_range].
Qed.

Lemma starttime_range w pid : 0 <= starttime w pid < 2 ^ 64.
Proof.
  unfold starttime, cng_proc_starttime. destruct (w_proc w _ _) as [[|c f]|]; [cbn; lia| |cbn; lia].
  unfold parse_stat. destruct (after_last _ _); [apply stat_fields_range|cbn; lia].
Qed.

(** ** Payload *)

Lemma put_array_length {A} (dst src : list A) :
  (length src <= length dst)%nat -> length (put_array dst src) = length dst.
Proof. intros H. unfold put_array. rewrite length_app, length_drop. lia. Qed.

Lemma put_array_take {A} (dst src : list A) : take (length src) (put_array dst src) = src.
Proof. unfold put_array. by rewrite take_app_length. Qed.

(** The longest prefix of a vector that fits, cut at an element boundary. *)
Fixpoint fits (vec : list cstr) (n cap : nat) : list cstr :=
  match vec with
  | [] => []
  | s :: vec => if (cap <? n + S (length s))%nat then [] else s :: fits vec (n + S (length s)) cap
  end.

Definition nul_join (vec : list cstr) : cstr := concat (map (fun s => s ++ [NUL]) vec).

Lemma join_loop_spec cap vec : forall dst n dst' m,
  length dst = cap -> (n <= cap)%nat -> join_loop vec dst n cap = (dst', m) ->
  length dst' = cap /\ (n <= m <= cap)%nat /\
  take m dst' = take n dst ++ nul_join (fits vec n cap) /\
  m = (n + length (nul_join (fits vec n cap)))%nat.
Proof.
  induction vec as [|s vec IH]; intros dst n dst' m Hl Hn E; cbn [join_loop fits] in *.
  { injection E as <- <-. unfold nul_join. simpl. rewrite app_nil_r. repeat split; (done || lia). }
  destruct (Nat.ltb_spec cap (n + S (length s))).
  { injection E as <- <-. unfold nul_join. simpl. rewrite app_nil_r. repeat split; (done || lia). }
  assert (L : length (s ++ [NUL]) = S (length s)) by (rewrite length_app; simpl; lia).
  assert (P : length (put_array (drop n dst) (s ++ [NUL])) = (cap - n)%nat).
  { rewrite put_array_length; rewrite length_drop; lia. }
  apply IH in E; [|rewrite length_app, P, length_take; lia|lia].
  destruct E as (H1 & H2 & H3 & H4). unfold nul_join in *. cbn [map concat].
  rewrite length_app, L. split; [done|]. split; [lia|]. split; [|lia].
  rewrite H3, app_assoc. f_equal.
  rewrite take_app, (take_ge (take n dst)) by (rewrite length_take; lia). f_equal.
  rewrite length_take, Hl, Nat.min_l by lia. replace (n + S (length s) - n)%nat with (S (length s)) by lia.
  by rewrite <-L, put_array_take.
Qed.

(** What a vector comes to in the table. *)
Definition joined (cap : nat) (vec : option (list cstr)) : cstr :=
  nul_join (fits (default [] vec) 0 cap).

Lemma join_vec_spec cap vec dst dst' m :
  length dst = cap -> join_vec dst cap vec = (dst', m) ->
  length dst' = cap /\ 0 <= m <= Z.of_nat cap /\ take (Z.to_nat m) dst' = joined cap vec.
Proof.
  intros Hl E. unfold join_vec, joined in *. destruct vec as [vec|]; cbn [default from_option id].
  - destruct (join_loop vec dst 0 cap) as [d k] eqn:Ej. injection E as <- <-.
    destruct (join_loop_spec cap vec dst 0 d k Hl ltac:(lia) Ej) as (H1 & H2 & H3 & _).
    split; [done|]. split; [lia|]. by rewrite Nat2Z.id.
  - injection E as <- <-. repeat split; (done || lia).
Qed.

Lemma copy_path_spec cap s dst dst' m :
  length dst = cap -> Z.of_nat cap < 2 ^ 16 -> copy_path dst cap s = (dst', m) ->
  length dst' = cap /\ 0 <= m <= Z.of_nat cap /\
  take (Z.to_nat m) dst' = take cap (default [] s).
Proof.
  intros Hl Hc E. unfold copy_path in E. destruct s as [s|]; cbn [default from_option id].
  - injection E as <- <-. rewrite wrapu_small by lia. rewrite Nat2Z.id.
    assert (L : length (take (Nat.min (length s) cap) s) = Nat.min (length s) cap)
      by (rewrite length_take; lia).
    split; [rewrite put_array_length; lia|]. split; [lia|].
    rewrite <-L at 1. rewrite put_array_take.
    destruct (Nat.le_gt_cases (length s) cap); [by rewrite !take_ge by lia|].
    by rewrite Nat.min_r by lia.
  - injection E as <- <-. rewrite take_nil. repeat split; (done || lia).
Qed.

(** The arguments are what their lengths say. *)
Definition pub_ok_args (p : pubargs) : Prop :=
  match pb_auxv p with
  | Some a => (pb_auxv_len p <= length a)%nat
  | None => pb_auxv_len p = 0%nat
  end.

Definition pub_snap (w : world) (p : pubargs) : cng_procsnap :=
  Snap (joined CNG_PROCREG_CMDLINE (pb_argv p)) (joined CNG_PROCREG_ENVIRON (pb_envp p))
       (take (Nat.min (pb_auxv_len p) CNG_PROCREG_AUXV) (default [] (pb_auxv p)))
       (take CNG_PROCREG_PATH (default [] (pb_exe p)))
       (take CNG_PROCREG_PATH (default [] (pb_cwd p)))
       (default no_args (pb_args p)) (fst (ids_live w)) (snd (ids_live w)).

Lemma cut_min n cap {A} (b : list A) :
  0 <= n <= Z.of_nat cap -> take (Z.to_nat (Z.min n (Z.of_nat cap))) b = take (Z.to_nat n) b.
Proof. intros. by rewrite Z.min_l by lia. Qed.

(** A publish leaves a well-typed entry, and a read of it is what was given. *)
Lemma publish_ent_spec w start p e :
  ent_ok e -> world_ok w -> pub_ok_args p -> 0 <= start < 2 ^ 64 ->
  ent_ok (publish_ent w start p e) /\ e_seq (publish_ent w start p e) = e_seq e /\
  e_start (publish_ent w start p e) = start /\ snap_of (publish_ent w start p e) = pub_snap w p.
Proof.
  intros [? ? ? ? ? ? ? ? (B1 & B2 & B3 & B4 & B5 & B6)] [_ Hg] Hp Hs. unfold publish_ent.
  destruct (join_vec (e_cmd e) _ _) as [cmd cl] eqn:E1.
  destruct (join_vec (e_env e) _ _) as [env el] eqn:E2.
  destruct (copy_path (e_exe e) _ _) as [exe xl] eqn:E3.
  destruct (copy_path (e_cwd e) _ _) as [cwd wl] eqn:E4.
  apply join_vec_spec in E1 as (L1 & R1 & T1), E2 as (L2 & R2 & T2); [|done..].
  apply copy_path_spec in E3 as (L3 & R3 & T3), E4 as (L4 & R4 & T4); [|done..].
  set (al := Nat.min (pb_auxv_len p) CNG_PROCREG_AUXV).
  set (av := match pb_auxv p with Some a => _ | None => _ end).
  assert (HA : length av = CNG_PROCREG_AUXV /\ take al av = take al (default [] (pb_auxv p))).
  { unfold pub_ok_args in Hp. subst av al. destruct (pb_auxv p) as [a|]; cbn [default from_option id].
    - assert (L : length (take (Nat.min (pb_auxv_len p) CNG_PROCREG_AUXV) a) =
        Nat.min (pb_auxv_len p) CNG_PROCREG_AUXV) by (rewrite length_take; lia).
      split; [rewrite put_array_length; lia|]. rewrite <-L at 1. by rewrite put_array_take.
    - by rewrite Hp. }
  destruct HA as [L5 T5]. assert (L6 : length (put_array (e_groups e) (c_groups (w_cred w))) =
    CNG_PROCREG_GROUPS) by (rewrite put_array_length; lia).
  split; [|split; [done|split; [done|]]].
  - constructor; cbn; try done; lia.
  - unfold snap_of, pub_snap. cbn. rewrite !cut_min by lia.
    rewrite T1, T2, T3, T4, !Nat2Z.id, T5, put_array_take. done.
Qed.

Definition snap_ok (sn : cng_procsnap) : Prop :=
  (length (sn_cmd sn) <= CNG_PROCREG_CMDLINE /\ length (sn_env sn) <= CNG_PROCREG_ENVIRON /\
   length (sn_auxv sn) <= CNG_PROCREG_AUXV /\ length (sn_exe sn) <= CNG_PROCREG_PATH /\
   length (sn_cwd sn) <= CNG_PROCREG_PATH /\ length (sn_groups sn) <= CNG_PROCREG_GROUPS)%nat.

Lemma snap_of_ok e : ent_ok e -> snap_ok (snap_of e).
Proof.
  intros []. unfold snap_ok, snap_of. cbn. rewrite !length_take. repeat split; lia.
Qed.

(** A child inherits its forker's payload, but no claim made under its ids. *)
Definition inherited (sn : cng_procsnap) : cng_procsnap :=
  let i := sn_ids sn in
  Snap (sn_cmd sn) (sn_env sn) (sn_auxv sn) (sn_exe sn) (sn_cwd sn) (sn_args sn)
    (Ids (pi_fake i) (pi_u i) (pi_g i) 0 (pi_claim_uid i) (pi_claim_gid i)) (sn_groups sn).

Lemma fork_ent_spec start sn e :
  ent_ok e -> snap_ok sn -> 0 <= start < 2 ^ 64 ->
  ent_ok (fork_ent start sn e) /\ e_start (fork_ent start sn e) = start /\
  snap_of (fork_ent start sn e) = inherited sn.
Proof.
  intros [? ? ? ? ? ? ? ? (B1 & B2 & B3 & B4 & B5 & B6)] (S1 & S2 & S3 & S4 & S5 & S6) Hs.
  split; [|split; [done|]].
  - constructor; cbn; try done; try lia. rewrite !put_array_length by lia. done.
  - unfold snap_of, inherited, fork_ent. cbn. rewrite !cut_min, !Nat2Z.id by lia.
    by rewrite !put_array_take.
Qed.

Lemma put_ids_ok w e : ent_ok e -> world_ok w -> ent_ok (put_ids w e).
Proof.
  intros [? ? ? ? ? ? ? ? (B1 & B2 & B3 & B4 & B5 & B6)] [_ Hg].
  assert (length (put_array (e_groups e) (c_groups (w_cred w))) = CNG_PROCREG_GROUPS)
    by (rewrite put_array_length; lia).
  constructor; cbn; try done; lia.
Qed.

(** ** Writing an entry *)

Section Write.
Context (G : Z -> Z -> Prop).

Lemma put_ent_inv st t k p e :
  reg_inv G st -> g_tab st = Some t -> t_pid t !! k = Some p -> ent_ok e ->
  (p <> 0 -> e_start e <> 0 -> G p (e_start e)) -> reg_inv G (put_ent st (Z.of_nat k) e).
Proof.
  intros Hi Ht Hp He Hg t'. unfold put_ent. rewrite Ht. cbn [with_tab g_tab g_tab_n].
  intros [= <-]. rewrite Nat2Z.id. eapply inv_write; eauto.
Qed.

Lemma slot_ent st t k p :
  reg_inv G st -> g_tab st = Some t -> t_pid t !! k = Some p ->
  exists e, ent_at st (Z.of_nat k) = Some e /\ t_ent t !! k = Some e /\ ent_ok e /\
            (p <> 0 -> e_start e <> 0 -> G p (e_start e)).
Proof.
  intros Hi Ht Hp. pose proof (Hi t Ht) as Hti. unfold ent_at. rewrite Ht, Nat2Z.id. cbn.
  destruct (lookup_lt_is_Some_2 (t_ent t) k) as [e He].
  { rewrite (ti_ents _ _ _ Hti), <-(ti_pids _ _ _ Hti). by eapply lookup_lt_Some. }
  exists e. split; [done|]. split; [done|].
  split; [eapply Forall_lookup_1; [apply Hti|done]|]. intros. by eapply (ti_stamp _ _ _ Hti).
Qed.

(** A change of the own entry that keeps its stamp. *)
Lemma own_write_inv w st st' i e s :
  reg_inv G st -> own_write w st = (st', Some (i, e, s)) ->
  exists k t e0 q, i = Z.of_nat k /\ g_tab st' = Some t /\ g_tab st = Some t /\
    g_tab_n st' = g_tab_n st /\ t_pid t !! k = Some (w_self w) /\
    t_ent t !! k = Some e0 /\ e = with_seq e0 q /\ ent_ok e /\ reg_inv G st' /\ 0 < w_self w /\
    (e_start e <> 0 -> G (w_self w) (e_start e)).
Proof.
  intros Hi E. unfold own_write in E. destruct (g_tab st) as [t0|] eqn:Et; [|done].
  destruct (slot_of st (w_self w)) as [st1 slot] eqn:E1.
  pose proof (slot_of_inv _ _ _ _ _ Hi E1) as Hi1.
  destruct (slot_of_spec _ _ _ _ _ Hi E1) as (T1 & N1 & [[-> _]|(k & t & -> & Ht & Hpos & Hk & _)]);
    [done|].
  rewrite (proj2 (Z.ltb_ge _ _)) in E by lia. rewrite Ht in T1.
  destruct (slot_ent st1 t k _ Hi1 T1 Hk) as (e0 & Ee & He0 & Hok & Hg). rewrite Ee in E.
  destruct (seq_acquire _ e0) as [e1 s1] eqn:Eq. destruct (s1 =? 0); [done|].
  injection E as <- <- <- <-. destruct (acquire_same _ _ _ _ Eq) as [q ->].
  exists k, t, e0, q. rewrite Et in Ht. injection Ht as ->.
  repeat (split; [done|]). split; [by eapply acquire_ok|]. split; [done|]. split; [done|].
  apply Hg. lia.
Qed.

Lemma own_write_none w st st' :
  reg_inv G st -> own_write w st = (st', None) -> reg_inv G st'.
Proof.
  intros Hi E. unfold own_write in E. destruct (g_tab st) as [t0|] eqn:Et; [|by injection E as <-].
  destruct (slot_of st (w_self w)) as [st1 slot] eqn:E1.
  pose proof (slot_of_inv _ _ _ _ _ Hi E1) as Hi1.
  case_if_in E; [by injection E as <-|]. destruct (ent_at st1 slot); [|by injection E as <-].
  destruct (seq_acquire _ p). destruct (z =? 0); [|done]. by injection E as <-.
Qed.
End Write.
