(* ===== verification/ProcregProps.v ===== *)
(** * What the guest process registry guarantees *)

From Stdlib Require Import ZArith Ascii String Lia.
From S2P Require Import Prelude Fmt ProcStat IpcData Cred Procreg ProcregFacts.
From stdpp Require Import base numbers strings list.

Open Scope Z_scope.

(** ** Every operation keeps the invariant *)

Section Preserve.
Context (G : Z -> Z -> Prop) (w : world).
Hypothesis (Hw : world_ok w).

Lemma slot_for_inv st pid st' i :
  reg_inv G st -> 0 < pid < 2 ^ 31 -> slot_for w st pid = (st', i) ->
  reg_inv G st' /\
  (i = -1 \/ exists k t, i = Z.of_nat k /\ g_tab st' = Some t /\ t_pid t !! k = Some pid).
Proof.
  intros Hi Hp E.
  destruct (slot_for_spec G w st pid st' i Hi Hp E)
    as (N & [(-> & T & _)|(k & t & t' & -> & Ht & Ht' & Hh)]).
  - split; [|by left]. intros t. rewrite T, N. apply Hi.
  - destruct (held_inv _ _ _ _ _ _ _ (Hi t Ht) Hp Hh) as (Hi' & Hk & _).
    split; [|right; by exists k, t']. intros t2. rewrite Ht', N. by intros [= <-].
Qed.

Lemma publish_inv st p :
  reg_inv G st -> pub_ok_args p ->
  (starttime w (w_self w) <> 0 -> G (w_self w) (starttime w (w_self w))) ->
  reg_inv G (cng_procreg_publish w p st).
Proof.
  intros Hi Hp Hg. unfold cng_procreg_publish.
  destruct (slot_for w st (w_self w)) as [st1 i] eqn:E.
  destruct (slot_for_inv _ _ _ _ Hi (proj1 Hw) E) as (Hi1 & [->|(k & t & -> & Ht & Hk)]); [done|].
  rewrite (proj2 (Z.ltb_ge _ _)) by lia.
  destruct (slot_ent G st1 t k _ Hi1 Ht Hk) as (e & -> & _ & Hok & Hst).
  destruct (seq_acquire _ e) as [e1 s1] eqn:E1.
  assert (He1 : ent_ok e1 /\ e_start e1 = e_start e).
  { split; [by eapply acquire_ok|]. by destruct (acquire_same _ _ _ _ E1) as [q ->]. }
  match goal with |- context [if s1 =? 0 then ?a else ?b] => destruct (if s1 =? 0 then a else b)
    as [e2 s2] eqn:E2 end.
  assert (He2 : ent_ok e2 /\ e_start e2 = e_start e).
  { destruct He1 as [H1 H2]. destruct (s1 =? 0); [|by injection E2 as <- <-].
    assert (ent_ok (with_seq e1 (u32 (Z.lor (e_seq e1) 1 + 1))))
      by (apply with_seq_ok; [done|by apply wrapu_range]).
    split; [by eapply acquire_ok|]. destruct (acquire_same _ _ _ _ E2) as [q ->]. done. }
  destruct He2 as [Hok2 Hs2]. destruct (s2 =? 0).
  - eapply put_ent_inv; eauto. by rewrite Hs2.
  - destruct (publish_ent_spec w (starttime w (w_self w)) p e2 Hok2 Hw Hp)
      as (Hok3 & _ & Hs3 & _); [apply starttime_range|].
    eapply put_ent_inv; [done..|by apply release_ok|]. cbn [seq_release with_seq e_start].
    rewrite Hs3. auto.
Qed.

Lemma get_inv st pid st' r :
  reg_inv G st -> cng_procreg_get w st pid = (st', r) ->
  reg_inv G st' /\ (forall sn, r = Some sn -> snap_ok sn).
Proof.
  intros Hi E. unfold cng_procreg_get in E. destruct (slot_of st pid) as [st1 i] eqn:E1.
  pose proof (slot_of_inv _ _ _ _ _ Hi E1) as Hi1.
  destruct (slot_of_spec _ _ _ _ _ Hi E1) as (T1 & N1 & [[-> _]|(k & t & -> & Ht & _ & Hk & _)]).
  { injection E as <- <-. done. }
  rewrite (proj2 (Z.ltb_ge _ _)) in E by lia. rewrite Ht in T1.
  destruct (slot_ent G st1 t k _ Hi1 T1 Hk) as (e & Ee & _ & Hok & _). rewrite Ee in E.
  apply pair_equal_spec in E as [<- <-]. split; [done|]. intros sn Hsn.
  rewrite seq_read_spec in Hsn. cbn [Nat.eqb orb] in Hsn. destruct (Z.odd (e_seq e)); [done|].
  destruct (slot_holds st1 (Z.of_nat k) pid); [|done]. cbn in Hsn.
  case_if_in Hsn; [done|]. injection Hsn as <-. by apply snap_of_ok.
Qed.

Lemma get_same_tab st pid st' r :
  reg_inv G st -> cng_procreg_get w st pid = (st', r) ->
  g_tab st' = g_tab st /\ g_tab_n st' = g_tab_n st.
Proof.
  intros Hi E. unfold cng_procreg_get in E. destruct (slot_of st pid) as [st1 i] eqn:E1.
  destruct (slot_of_spec _ _ _ _ _ Hi E1) as (T1 & N1 & _).
  case_if_in E; [by injection E as <- _|].
  destruct (ent_at st1 i); apply pair_equal_spec in E as [<- _]; done.
Qed.

Lemma fork_copy_inv st forker child :
  reg_inv G st -> 0 < child < 2 ^ 31 ->
  (forall sn, snd (cng_procreg_get w st forker) = Some sn -> starttime w child <> 0 ->
     G child (starttime w child)) ->
  reg_inv G (fork_copy w st forker child).
Proof.
  intros Hi Hc Hg. unfold fork_copy. destruct (g_tab st) as [t0|] eqn:Et; [|done].
  case_if; [done|]. destruct (cng_procreg_get w st forker) as [st1 r] eqn:E1.
  destruct (get_inv _ _ _ _ Hi E1) as [Hi1 Hsn]. destruct r as [sn|]; [|done].
  destruct (slot_for w st1 child) as [st2 i] eqn:E2.
  destruct (slot_for_inv _ _ _ _ Hi1 Hc E2) as (Hi2 & [->|(k & t & -> & Ht & Hk)]); [done|].
  rewrite (proj2 (Z.ltb_ge _ _)) by lia.
  destruct (slot_ent G st2 t k _ Hi2 Ht Hk) as (e & -> & _ & Hok & Hst).
  case_if; [done|]. destruct (seq_acquire _ e) as [e1 s1] eqn:E3.
  pose proof (acquire_ok _ _ _ _ Hok E3) as Hok1. destruct (acquire_same _ _ _ _ E3) as [q ->].
  destruct (s1 =? 0); [done|]. case_if.
  - eapply put_ent_inv; [done..|by apply release_ok|]. exact Hst.
  - destruct (fork_ent_spec (starttime w child) sn _ Hok1 (Hsn sn eq_refl) (starttime_range w child))
      as (Hok2 & Hs2 & _).
    eapply put_ent_inv; [done..|by apply release_ok|]. cbn [seq_release with_seq e_start].
    rewrite Hs2. intros _. by apply (Hg sn).
Qed.

Lemma set_ids_inv st : reg_inv G st -> reg_inv G (cng_procreg_set_ids w st).
Proof.
  intros Hi. unfold cng_procreg_set_ids. destruct (own_write w st) as [st1 [[[i e] s]|]] eqn:E.
  - destruct (own_write_inv G w _ _ _ _ _ Hi E)
      as (k & t & e0 & q & -> & Ht & _ & _ & Hk & _ & _ & Hok & Hi1 & _ & Hg).
    eapply put_ent_inv; [done..|by apply release_ok, put_ids_ok|]. by intros _.
  - by eapply own_write_none.
Qed.

Lemma claim_ids_ok e ids :
  ent_ok e -> ent_ok (with_ids e ids (e_ngroups e) (e_groups e)).
Proof. intros []. by constructor. Qed.

Lemma claim_inv st uid gid : reg_inv G st -> reg_inv G (cng_procreg_claim w st uid gid).
Proof.
  intros Hi. unfold cng_procreg_claim. destruct (g_tab st) as [t0|]; [|done].
  destruct (slot_of st (w_self w)) as [st1 slot] eqn:E1.
  pose proof (slot_of_inv _ _ _ _ _ Hi E1) as Hi1. case_if; [done|].
  destruct (ent_at st1 slot) as [e|]; [|done]. case_if; [done|].
  destruct (own_write w st1) as [st2 [[[i e'] s]|]] eqn:E.
  - destruct (own_write_inv G w _ _ _ _ _ Hi1 E)
      as (k & t & e0 & q & -> & Ht & _ & _ & Hk & _ & _ & Hok & Hi2 & _ & Hg).
    eapply put_ent_inv; [done..|by apply release_ok, claim_ids_ok|]. by intros _.
  - by eapply own_write_none.
Qed.

Lemma set_cwd_inv st cwd : reg_inv G st -> reg_inv G (cng_procreg_set_cwd w st cwd).
Proof.
  intros Hi. unfold cng_procreg_set_cwd. destruct (g_tab st) as [t0|]; [|done].
  destruct (slot_of st (w_self w)) as [st1 slot] eqn:E1.
  pose proof (slot_of_inv _ _ _ _ _ Hi E1) as Hi1.
  destruct (slot_of_spec _ _ _ _ _ Hi E1) as (T1 & N1 & [[-> _]|(k & t & -> & Ht & _ & Hk & _)]);
    [done|].
  rewrite (proj2 (Z.ltb_ge _ _)) by lia. rewrite Ht in T1.
  destruct (slot_ent G st1 t k _ Hi1 T1 Hk) as (e & -> & _ & Hok & Hst).
  destruct (seq_acquire _ e) as [e1 s1] eqn:E3.
  pose proof (acquire_ok _ _ _ _ Hok E3) as Hok1. destruct (acquire_same _ _ _ _ E3) as [q ->].
  destruct (s1 =? 0); [done|]. destruct (copy_path _ _ cwd) as [b n] eqn:Ec.
  destruct (eo_bufs _ Hok1) as (? & ? & ? & ? & B5 & ?).
  destruct (copy_path_spec _ _ _ _ _ B5 ltac:(done) Ec) as (L & R & _).
  eapply put_ent_inv; [done..|apply release_ok|exact Hst].
  destruct Hok1. constructor; try done.
Qed.

Lemma has_inv st pid : reg_inv G st -> reg_inv G (fst (cng_procreg_has w st pid)).
Proof.
  intros Hi. unfold cng_procreg_has. repeat (case_if; [done|]).
  destruct (slot_of st pid) as [st1 i] eqn:E1. pose proof (slot_of_inv _ _ _ _ _ Hi E1) as Hi1.
  case_if; [done|]. destruct (ent_at st1 i); [|done]. repeat (case_if; [done|]). cbn [fst].
  case_if; [|done]. destruct (g_tab st1) as [t|] eqn:Et; [|done].
  intros t'. cbn. intros [= <-]. by apply inv_free, Hi1.
Qed.

Lemma has_task_inv st tid : reg_inv G st -> reg_inv G (fst (cng_procreg_has_task w st tid)).
Proof.
  intros Hi. unfold cng_procreg_has_task. pose proof (has_inv st tid Hi) as H1.
  destruct (cng_procreg_has w st tid) as [st1 r]. cbn [fst] in H1.
  repeat (case_if; [done || by apply has_inv|]). done.
Qed.

Lemma pid_at_inv st i : reg_inv G st -> reg_inv G (fst (cng_procreg_pid_at w st i)).
Proof.
  intros Hi. unfold cng_procreg_pid_at. destruct (g_tab st) as [t|]; [|done].
  repeat (case_if; [done|]).
  pose proof (has_inv st (default 0 (t_pid t !! Z.to_nat i)) Hi) as H1.
  by destruct (cng_procreg_has w st _).
Qed.
End Preserve.

(** ** Runs *)

(** One operation of one process, in the world it runs in and with whatever slot
    that process remembers. *)
Inductive proc_op :=
  | OPublish (p : pubargs)
  | OFork (forker child : Z)
  | OSetCwd (cwd : option cstr)
  | OSetIds
  | OClaim (uid gid : Z)
  | OHas (pid : Z)
  | OHasTask (tid : Z)
  | OPidAt (i : Z)
  | OGet (pid : Z)
  | OArgs (pid : Z)
  | OCred (pid : Z).

Record event := Event { ev_world : world; ev_slot : Z; ev_pid : Z; ev_op : proc_op }.

Definition in_process (st : preg) (slot pid : Z) : preg := Preg (g_tab st) (g_tab_n st) slot pid.

Definition apply_op (w : world) (st : preg) (o : proc_op) : preg :=
  match o with
  | OPublish p => cng_procreg_publish w p st
  | OFork forker child => fork_copy w st forker child
  | OSetCwd cwd => cng_procreg_set_cwd w st cwd
  | OSetIds => cng_procreg_set_ids w st
  | OClaim uid gid => cng_procreg_claim w st uid gid
  | OHas pid => fst (cng_procreg_has w st pid)
  | OHasTask tid => fst (cng_procreg_has_task w st tid)
  | OPidAt i => fst (cng_procreg_pid_at w st i)
  | OGet pid => fst (cng_procreg_get w st pid)
  | OArgs pid => fst (cng_procreg_args st pid)
  | OCred pid => fst (cng_procreg_cred w st pid)
  end.

(** The incarnations an operation makes guests: the publisher itself, and the
    child of a registered process. *)
Definition made_guest (w : world) (st : preg) (o : proc_op) : list (Z * Z) :=
  match o with
  | OPublish _ => [(w_self w, starttime w (w_self w))]
  | OFork forker child =>
      match snd (cng_procreg_get w st forker) with
      | Some _ => [(child, starttime w child)]
      | None => []
      end
  | _ => []
  end.

Definition event_ok (ev : event) : Prop :=
  world_ok (ev_world ev) /\
  match ev_op ev with
  | OPublish p => pub_ok_args p
  | OFork _ child => 0 < child < 2 ^ 31
  | _ => True
  end.

Fixpoint run (evs : list event) (st : preg) (log : list (Z * Z)) : preg * list (Z * Z) :=
  match evs with
  | [] => (st, log)
  | ev :: evs =>
      let st := in_process st (ev_slot ev) (ev_pid ev) in
      run evs (apply_op (ev_world ev) st (ev_op ev))
          (log ++ made_guest (ev_world ev) st (ev_op ev))
  end.

(** A fresh mapping is zero. *)
Definition ent0 : proc_ent :=
  Ent 0 0 0 0 0 0 0 (replicate CNG_PROCREG_CMDLINE NUL) (replicate CNG_PROCREG_ENVIRON NUL)
    (replicate CNG_PROCREG_AUXV NUL) (replicate CNG_PROCREG_PATH NUL)
    (replicate CNG_PROCREG_PATH NUL) no_args (Ids 0 (IdSet 0 0 0 0) (IdSet 0 0 0 0) 0 0 0) 0
    (replicate CNG_PROCREG_GROUPS 0).

Definition fresh (n : nat) : preg := Preg (Some (Tab (replicate n 0) (replicate n ent0))) n (-1) 0.

Lemma fresh_inv G n : reg_inv G (fresh n).
Proof.
  intros t [= <-]. constructor; cbn [t_pid t_ent fresh g_tab_n].
  - by rewrite length_replicate.
  - by rewrite length_replicate.
  - apply Forall_replicate. split; lia.
  - apply Forall_replicate. constructor; cbn [ent0 e_seq e_start e_cmd_len e_env_len e_auxv_len
      e_exe_len e_cwd_len e_ngroups e_cmd e_env e_auxv e_exe e_cwd e_groups]; try lia.
    by rewrite !length_replicate.
  - intros i j p Hp _ Hp0. apply lookup_replicate in Hp as [-> _]. done.
  - intros i p e Hp _ Hp0. apply lookup_replicate in Hp as [-> _]. done.
Qed.

Definition in_log (log : list (Z * Z)) (p s : Z) : Prop := (p, s) ∈ log.

Lemma apply_op_inv G w st o :
  world_ok w -> event_ok (Event w 0 0 o) -> reg_inv G st ->
  (forall p s, (p, s) ∈ made_guest w st o -> G p s) -> reg_inv G (apply_op w st o).
Proof.
  intros Hw [_ Ho] Hi Hm. destruct o; cbn [apply_op made_guest ev_op] in *.
  - apply publish_inv; [done..|]. intros _. apply Hm. by left.
  - apply fork_copy_inv; [done..|]. intros sn Hsn _. apply Hm. rewrite Hsn. by left.
  - by apply set_cwd_inv.
  - by apply set_ids_inv.
  - by apply claim_inv.
  - by apply has_inv.
  - by apply has_task_inv.
  - by apply pid_at_inv.
  - destruct (cng_procreg_get w st pid) as [st1 r] eqn:E. by destruct (get_inv G w _ _ _ _ Hi E).
  - unfold cng_procreg_args. destruct (slot_of st pid) as [st1 i] eqn:E.
    pose proof (slot_of_inv _ _ _ _ _ Hi E). case_if; [done|]. by destruct (ent_at st1 i).
  - unfold cng_procreg_cred. destruct (slot_of st pid) as [st1 i] eqn:E.
    by apply (slot_of_inv _ _ _ _ _ Hi E).
Qed.

Lemma run_inv evs : forall st log st' log',
  Forall event_ok evs -> reg_inv (in_log log) st -> run evs st log = (st', log') ->
  reg_inv (in_log log') st'.
Proof.
  induction evs as [|ev evs IH]; intros st log st' log' Ho Hi E; cbn [run] in E.
  { by injection E as <- <-. }
  inversion_clear Ho as [|? ? [Hw Hev] Ho']. eapply IH; [done| |exact E]. 
  assert (Hi' : reg_inv (in_log (log ++ made_guest (ev_world ev)
    (in_process st (ev_slot ev) (ev_pid ev)) (ev_op ev))) (in_process st (ev_slot ev) (ev_pid ev))).
  { intros t Ht. eapply inv_mono; [|by apply Hi]. intros p s Hps. apply elem_of_app. by left. }
  apply apply_op_inv; [done|by split|done|]. intros p s Hps. apply elem_of_app. by right.
Qed.


(** The host's /proc with the processes [live], by pid and start time. *)
Definition stat_text (pid start : Z) : cstr :=
  stat_line (dec pid ++ cs " (") (cs "a) (b") (cs "S") (replicate 16 (cs "0")) 1 (cs "0") start.
Definition host_with (live : list (Z * Z)) : pfs :=
  fun dir file =>
    match filter (fun q => cs "/proc/" ++ dec q.1 = dir) live with
    | (pid, start) :: _ => if streq file (cs "stat") then Some (stat_text pid start) else None
    | [] => None
    end.
Definition demo_world (self : Z) (live : list (Z * Z)) : world :=
  World self (host_with live) true (Cred (IdSet 0 0 0 0) (IdSet 0 0 0 0) []) (fun _ => false).
Definition demo_args : pubargs :=
  PubArgs (Some [cs "sh"; cs "-c"]) (Some [cs "A=1"]) None 0 None (Some (cs "/bin/sh"))
    (Some (cs "/")).


(** ** What an answer says *)

Lemma has_stamp G w st pid :
  reg_inv G st -> pid <> w_self w -> snd (cng_procreg_has w st pid) = true ->
  starttime w pid <> 0 /\ G pid (starttime w pid).
Proof.
  intros Hi Hne. unfold cng_procreg_has. destruct (Z.leb_spec pid 0); [done|].
  rewrite (proj2 (Z.eqb_neq pid (w_self w))) by done.
  destruct (slot_of st pid) as [st1 i] eqn:E1. pose proof (slot_of_inv _ _ _ _ _ Hi E1) as Hi1.
  destruct (slot_of_spec _ _ _ _ _ Hi E1) as (T1 & N1 & [[-> _]|(k & t & -> & Ht & _ & Hk & _)]);
    [done|].
  rewrite (proj2 (Z.ltb_ge _ _)) by lia. rewrite Ht in T1.
  destruct (slot_ent G st1 t k _ Hi1 T1 Hk) as (e & -> & _ & Hok & Hst).
  destruct (Z.eqb_spec (e_start e) 0); [done|].
  destruct (Z.eqb_spec (starttime w pid) (e_start e)) as [->|]; [|by case_if].
  intros _. split; [done|]. apply Hst; [lia|done].
Qed.

(** The slot behind an answer of [cng_procreg_get] or [cng_procreg_cred]. *)
Lemma hit_stamp G st pid st1 i e :
  reg_inv G st -> slot_of st pid = (st1, i) -> i <? 0 = false -> ent_at st1 i = Some e ->
  e_start e <> 0 -> G pid (e_start e).
Proof.
  intros Hi E1 Hneg He H0. pose proof (slot_of_inv _ _ _ _ _ Hi E1) as Hi1.
  destruct (slot_of_spec _ _ _ _ _ Hi E1) as (T1 & N1 & [[-> _]|(k & t & -> & Ht & ? & Hk & _)]);
    [done|].
  rewrite Ht in T1. destruct (slot_ent G st1 t k _ Hi1 T1 Hk) as (e' & He' & _ & _ & Hst).
  rewrite He in He'. injection He' as <-. apply Hst; [lia|done].
Qed.

Lemma get_stamp G w st pid sn :
  reg_inv G st -> pid <> w_self w -> snd (cng_procreg_get w st pid) = Some sn ->
  starttime w pid <> 0 /\ G pid (starttime w pid).
Proof.
  intros Hi Hne. unfold cng_procreg_get. destruct (slot_of st pid) as [st1 i] eqn:E1.
  destruct (i <? 0) eqn:Ei; [done|]. destruct (ent_at st1 i) as [e|] eqn:Ee; [|done].
  cbn [snd]. rewrite seq_read_spec. cbn [Nat.eqb orb]. destruct (Z.odd (e_seq e)); [done|].
  destruct (slot_holds st1 i pid); [|done]. cbn.
  rewrite (proj2 (Z.eqb_neq pid (w_self w))) by done. cbn [negb andb].
  destruct (Z.eqb_spec (e_start e) 0); [done|]. cbn [orb].
  destruct (Z.eqb_spec (e_start e) (starttime w pid)) as [E|]; [|done].
  intros _. rewrite <-E. split; [done|]. by eapply hit_stamp.
Qed.

Lemma cred_stamp G w st pid r :
  reg_inv G st -> pid <> w_self w -> snd (cng_procreg_cred w st pid) = Some r ->
  starttime w pid <> 0 /\ G pid (starttime w pid).
Proof.
  intros Hi Hne. unfold cng_procreg_cred. destruct (slot_of st pid) as [st1 i] eqn:E1.
  rewrite (proj2 (Z.eqb_neq pid (w_self w))) by done. cbn [snd orb].
  destruct (i <? 0) eqn:Ei; [done|]. destruct (ent_at st1 i) as [e|] eqn:Ee; [|done].
  cbn [mbind option_bind]. rewrite seq_read_spec. cbn [Nat.eqb orb].
  destruct (Z.odd (e_seq e)); [done|]. destruct (slot_holds st1 i pid); [|done].
  cbn [mbind option_bind]. destruct (Z.eqb_spec (e_start e) 0); [done|]. cbn [negb andb].
  destruct (Z.eqb_spec (e_start e) (starttime w pid)) as [E|]; [|done].
  intros _. rewrite <-E. split; [done|]. by eapply hit_stamp.
Qed.

(** C22: Only a guest is ever shown as one.  After any operations of any
    processes on a fresh table, whatever slots they remember, a pid other than
    the asker's that the registry answers for is running, and exactly this
    incarnation of it, by its start time, published itself or was forked by a
    process that was registered then.  A pid the host has since handed to a
    foreign process is not answered for. *)
Theorem registry_reveals_only_guests n evs st log w slot hint pid :
  run evs (fresh n) [] = (st, log) -> Forall event_ok evs -> pid <> w_self w ->
  (let st := in_process st slot hint in
   snd (cng_procreg_has w st pid) = true \/
   is_Some (snd (cng_procreg_get w st pid)) \/ is_Some (snd (cng_procreg_cred w st pid))) ->
  starttime w pid <> 0 /\ (pid, starttime w pid) ∈ log.
Proof.
  intros E Ho Hne. assert (Hi : reg_inv (in_log log) st).
  { eapply run_inv; [done| |exact E]. apply fresh_inv. }
  assert (Hi' : reg_inv (in_log log) (in_process st slot hint)) by exact Hi.
  intros [H|[[sn H]|[r H]]].
  - by apply (has_stamp _ _ _ _ Hi').
  - by apply (get_stamp _ _ _ _ _ Hi' Hne H).
  - by apply (cred_stamp _ _ _ _ _ Hi' Hne H).
Qed.

Lemma registry_reveals_only_guests_witness :
  let w := demo_world 7 [(7, 100); (9, 200)] in
  let evs := [Event w (-1) 0 (OPublish demo_args); Event w 0 7 (OFork 7 9)] in
  let '(st, log) := run evs (fresh 2) [] in
  starttime (demo_world 8 [(9, 200)]) 9 <> 0 /\
  (9, starttime (demo_world 8 [(9, 200)]) 9) ∈ log.
Proof.
  intros w evs. destruct (run evs (fresh 2) []) as [st log] eqn:E.
  apply (registry_reveals_only_guests 2 evs st log (demo_world 8 [(9, 200)]) (-1) 0 9 E).
  - repeat constructor; vm_compute; congruence || lia.
  - vm_compute. congruence.
  - left. assert (Est : st = (run evs (fresh 2) []).1) by (by rewrite E).
    rewrite Est. vm_compute. reflexivity.
Defined.

(** ** What is published reads back *)

(** There is a slot for [pid]: its own, a free one or one of a process gone. *)
Definition has_room (w : world) (st : preg) (pid : Z) : Prop :=
  exists t j p, g_tab st = Some t /\ t_pid t !! j = Some p /\
                (p = pid \/ p = 0 \/ starttime w p = 0).

Lemma slot_for_room G w st pid st' i :
  reg_inv G st -> 0 < pid < 2 ^ 31 -> has_room w st pid -> slot_for w st pid = (st', i) ->
  exists k t t', i = Z.of_nat k /\ g_tab st = Some t /\ g_tab st' = Some t' /\
                 held w pid t t' k.
Proof.
  intros Hi Hp (t & j & p & Ht & Hj & Hroom) E.
  destruct (slot_for_spec G w st pid st' i Hi Hp E) as (_ & [(-> & _ & Hno)|H]); [|exact H].
  destruct (Hno t j p Ht Hj) as (? & ? & ?). naive_solver.
Qed.

(** A read of the one slot that holds [pid]. *)
Lemma get_value G w st t k pid e :
  reg_inv G st -> g_tab st = Some t -> t_pid t !! k = Some pid -> t_ent t !! k = Some e ->
  0 < pid ->
  snd (cng_procreg_get w st pid) =
  if Z.odd (e_seq e) then None
  else if negb (pid =? w_self w) && ((e_start e =? 0) || negb (e_start e =? starttime w pid))
       then None else Some (snap_of e).
Proof.
  intros Hi Ht Hk He Hpos. unfold cng_procreg_get.
  destruct (slot_of st pid) as [st1 i] eqn:E1.
  destruct (slot_of_spec _ _ _ _ _ Hi E1) as (T1 & N1 & [[-> Hno]|(k' & t1 & -> & Ht1 & _ & Hk' & _)]).
  { by destruct (Hno Hpos t Ht k). }
  rewrite Ht in Ht1. injection Ht1 as <-. rewrite Ht in T1.
  assert (k' = k) as ->.
  { pose proof (Hi t Ht) as Hti. apply (ti_unique _ _ _ Hti k' k pid Hk' Hk). lia. }
  rewrite (proj2 (Z.ltb_ge _ _)) by lia. unfold ent_at, slot_holds. rewrite T1, Nat2Z.id.
  cbn [mbind option_bind]. rewrite He. cbn [snd]. rewrite seq_read_spec. cbn [Nat.eqb orb].
  destruct (Z.odd (e_seq e)); [done|]. by rewrite bool_decide_eq_true_2 by done.
Qed.

Lemma get_settled G w st t k pid e :
  reg_inv G st -> g_tab st = Some t -> t_pid t !! k = Some pid -> t_ent t !! k = Some e ->
  0 < pid -> Z.odd (e_seq e) = false ->
  pid = w_self w \/ e_start e <> 0 /\ starttime w pid = e_start e ->
  snd (cng_procreg_get w st pid) = Some (snap_of e).
Proof.
  intros Hi Ht Hk He Hpos Hev Hst. rewrite (get_value G w st t k pid e) by done. rewrite Hev.
  destruct Hst as [->|[H0 ->]]; [by rewrite Z.eqb_refl|].
  rewrite Z.eqb_refl, (proj2 (Z.eqb_neq _ 0)) by done. by rewrite andb_false_r.
Qed.

Lemma get_absent G w st t pid :
  reg_inv G st -> g_tab st = Some t -> (forall j, t_pid t !! j <> Some pid) ->
  snd (cng_procreg_get w st pid) = None.
Proof.
  intros Hi Ht Hno. unfold cng_procreg_get. destruct (slot_of st pid) as [st1 i] eqn:E1.
  destruct (slot_of_spec _ _ _ _ _ Hi E1) as (_ & _ & [[-> _]|(k & t1 & -> & Ht1 & _ & Hk & _)]);
    [done|]. rewrite Ht in Ht1. injection Ht1 as <-. by destruct (Hno k).
Qed.

(** A read is decided by the slot of the pid asked about alone. *)
Lemma get_frame G G' w st st' t t' pid :
  reg_inv G st -> reg_inv G' st' -> g_tab st = Some t -> g_tab st' = Some t' -> 0 < pid ->
  (forall j, t_pid t !! j = Some pid <-> t_pid t' !! j = Some pid) ->
  (forall j, t_pid t !! j = Some pid -> t_ent t' !! j = t_ent t !! j) ->
  snd (cng_procreg_get w st' pid) = snd (cng_procreg_get w st pid).
Proof.
  intros Hi Hi' Ht Ht' Hpos Hp He.
  destruct (decide (pid ∈ t_pid t)) as [Hin|Hout].
  - apply list_elem_of_lookup in Hin as [k Hk].
    destruct (slot_ent G st t k pid Hi Ht Hk) as (e & _ & Hek & _).
    rewrite (get_value G w st t k pid e) by done.
    rewrite (get_value G' w st' t' k pid e); [done..| | |done]; [by apply Hp|by rewrite He].
  - assert (N : forall j, t_pid t !! j <> Some pid).
    { intros j Hj. apply Hout. by eapply list_elem_of_lookup_2. }
    rewrite (get_absent G w st t pid) by done. apply (get_absent G' w st' t'); [done..|].
    intros j Hj. by apply (N j), Hp.
Qed.

Lemma u32_odd x : Z.odd (u32 x) = Z.odd x.
Proof. rewrite <-!Z.bit0_odd. unfold wrapu. by rewrite Z.mod_pow2_bits_low by lia. Qed.

Lemma release_even e s : Z.odd s = true -> Z.odd (e_seq (seq_release e s)) = false.
Proof. intros Hs. cbn. by rewrite u32_odd, Z.odd_add, Hs. Qed.

Lemma snap_release e s : snap_of (seq_release e s) = snap_of e.
Proof. done. Qed.

Lemma publish_ent_frame w start p e q :
  publish_ent w start p (with_seq e q) = with_seq (publish_ent w start p e) q.
Proof.
  unfold publish_ent. cbn. destruct (join_vec (e_cmd e) _ _), (join_vec (e_env e) _ _),
    (copy_path (e_exe e) _ _), (copy_path (e_cwd e) _ _). done.
Qed.

(** Whatever state its lock was left in, a publisher ends with its entry
    written and settled. *)
Lemma publish_entry w p st st1 k t e :
  slot_for w st (w_self w) = (st1, Z.of_nat k) -> g_tab st1 = Some t -> t_ent t !! k = Some e ->
  ent_ok e ->
  exists e', cng_procreg_publish w p st = with_tab st1 (set_ent t k e') /\
    Z.odd (e_seq e') = false /\ 0 <= e_seq e' < 2 ^ 32 /\
    exists q, e' = with_seq (publish_ent w (starttime w (w_self w)) p e) q.
Proof.
  intros E Ht He Hok. unfold cng_procreg_publish. rewrite E, (proj2 (Z.ltb_ge _ _)) by lia.
  unfold ent_at, put_ent. rewrite Ht, Nat2Z.id. cbn [mbind option_bind]. rewrite He.
  assert (A : forall e0 s0, Z.odd (e_seq e0) = false -> 0 <= e_seq e0 < 2 ^ 32 ->
    s0 = u32 (e_seq e0 + 1) -> Z.odd s0 = true /\ s0 <> 0).
  { intros e0 s0 Ho Hr ->. pose proof (even_bound _ Hr Ho). rewrite wrapu_small by lia.
    split; [by rewrite Z.odd_add, Ho|lia]. }
  destruct (Z.odd (e_seq e)) eqn:Ho.
  - rewrite seq_acquire_odd by done. cbn [Z.eqb].
    assert (Ev : Z.odd (u32 (Z.lor (e_seq e) 1 + 1)) = false).
    { rewrite u32_odd, Z.odd_add. replace (Z.odd (Z.lor (e_seq e) 1)) with true; [done|].
      rewrite <-Z.bit0_odd, Z.lor_spec. by rewrite orb_true_r. }
    rewrite seq_acquire_even by (done || apply (Z2Nat.inj_lt 0); lia).
    cbn [with_seq e_seq]. set (s := u32 (u32 (Z.lor (e_seq e) 1 + 1) + 1)).
    destruct (A (with_seq e (u32 (Z.lor (e_seq e) 1 + 1))) s Ev) as [Hs Hs0];
      [by apply wrapu_range|done|].
    rewrite (proj2 (Z.eqb_neq s 0)) by done.
    eexists. split; [done|]. split; [by apply release_even|].
    split; [by apply wrapu_range|]. eexists. unfold seq_release. rewrite !publish_ent_frame. reflexivity.
  - rewrite seq_acquire_even by (done || apply (Z2Nat.inj_lt 0); lia).
    destruct (A e _ Ho (eo_seq _ Hok) eq_refl) as [Hs Hs0].
    rewrite (proj2 (Z.eqb_neq _ 0)) by done. cbv iota. rewrite (proj2 (Z.eqb_neq _ 0)) by done.
    eexists. split; [done|]. split; [by apply release_even|].
    split; [by apply wrapu_range|]. eexists. unfold seq_release. rewrite !publish_ent_frame. reflexivity.
Qed.

(** Claiming and writing the slot of one process leaves every other running one
    its own. *)
Lemma held_frame w pid t t' k e' q :
  held w pid t t' k -> q <> pid -> 0 < q -> starttime w q <> 0 ->
  (forall j, t_pid t !! j = Some q <-> t_pid (set_ent t' k e') !! j = Some q) /\
  (forall j, t_pid t !! j = Some q -> t_ent (set_ent t' k e') !! j = t_ent t !! j).
Proof.
  intros Hh Hq Hpos Hlive. destruct Hh as [[-> Hk]|(old & e & e1 & Hnew & Hk & Hold & _ & _ & _ & _ & ->)];
    cbn [set_ent set_pid t_pid t_ent].
  - split; [done|]. intros j Hj. apply list_lookup_insert_ne. congruence.
  - assert (Hne : forall j, t_pid t !! j = Some q -> j <> k).
    { intros j Hj ->. rewrite Hk in Hj. injection Hj as ->.
      destruct Hold as [->|[_ Hd]]; [lia|done]. }
    split.
    + intros j. split.
      * intros Hj. rewrite list_lookup_insert_ne; [done|]. intros ->. by apply (Hne j).
      * intros Hj. apply list_lookup_insert_Some in Hj as [(_ & ? & _)|[_ ?]]; [congruence|done].
    + intros j Hj. specialize (Hne j Hj). by rewrite !list_lookup_insert_ne by congruence.
Qed.

Definition reg_wf (st : preg) : Prop := reg_inv (fun _ _ => True) st.



(** The write of a fork's copy into a settled, unstamped slot. *)
Lemma fork_write e sn start :
  ent_ok e -> snap_ok sn -> 0 < start < 2 ^ 64 -> Z.odd (e_seq e) = false -> e_start e = 0 ->
  exists e', Z.odd (e_seq e') = false /\ e_start e' = start /\ snap_of e' = inherited sn /\
  forall st i,
    (if negb (start =? 0) && (e_start e =? start) then st
     else let '(e, s) := seq_acquire (Z.to_nat 4096) e in
          if s =? 0 then st
          else if negb (start =? 0) && (e_start e =? start)
               then put_ent st i (seq_release e s)
               else put_ent st i (seq_release (fork_ent start sn e) s)) = put_ent st i e'.
Proof.
  intros Hok Hsn Hs Hev H0. pose proof (eo_seq _ Hok) as Hr. pose proof (even_bound _ Hr Hev).
  rewrite seq_acquire_even by (done || lia). rewrite (wrapu_small 32 (e_seq e + 1)) by lia.
  destruct (fork_ent_spec start sn (with_seq e (e_seq e + 1))) as (Hok2 & Hs2 & Hsn2);
    [apply with_seq_ok; [done|lia]|done|lia|].
  exists (seq_release (fork_ent start sn (with_seq e (e_seq e + 1))) (e_seq e + 1)).
  split; [apply release_even; by rewrite Z.odd_add, Hev|]. split; [done|]. split; [done|].
  intros st i. cbn [with_seq e_start]. rewrite H0, (proj2 (Z.eqb_neq 0 start)) by lia.
  rewrite andb_false_r. by rewrite (proj2 (Z.eqb_neq _ 0)) by lia.
Qed.

(** A child the table does not hold yet inherits what its forker published, its
    claim apart, and under its own stamp: where there is room and no writer was
    killed inside a lock. *)
Theorem fork_inherits st w child sn w' slot hint :
  reg_wf st -> world_ok w -> 0 < child < 2 ^ 31 ->
  snd (cng_procreg_get w st (w_self w)) = Some sn -> has_room w st child ->
  starttime w child <> 0 ->
  (forall t, g_tab st = Some t -> (forall j, t_pid t !! j <> Some child) /\
             Forall (fun e => Z.odd (e_seq e) = false) (t_ent t)) ->
  w_self w' = child \/ starttime w' child = starttime w child ->
  snd (cng_procreg_get w' (in_process (cng_procreg_fork w st child) slot hint) child) =
    Some (inherited sn).
Proof.
  intros Hi Hw Hc Hsn Hroom Hs0 Hnew Hsame.
  assert (Hwf : reg_wf (cng_procreg_fork w st child)) by (by apply fork_copy_inv).
  unfold cng_procreg_fork, fork_copy in *.
  destruct Hroom as (t & j & p & Ht & Hj & Hroom). destruct (Hnew t Ht) as [Hno Heven].
  destruct Hw as [Hself Hg]. rewrite Ht in *.
  rewrite (proj2 (Z.leb_gt (w_self w) 0)), (proj2 (Z.leb_gt child 0)) in * by lia. cbn [orb] in *.
  destruct (cng_procreg_get w st (w_self w)) as [st1 r] eqn:E1. cbn [snd] in Hsn. subst r.
  destruct (get_inv (fun _ _ => True) w st _ _ _ Hi E1) as [Hi1 Hok_sn].
  destruct (get_same_tab (fun _ _ => True) w st _ _ _ Hi E1) as [T1 N1]. rewrite Ht in T1.
  destruct (slot_for w st1 child) as [st2 i] eqn:E2.
  destruct (slot_for_room _ w st1 child st2 i Hi1 Hc) as (k & t0 & t2 & -> & T0 & T2 & Hh);
    [by exists t, j, p|done|].
  rewrite T1 in T0. injection T0 as <-. rewrite (proj2 (Z.ltb_ge _ _)) in * by lia.
  destruct Hh as [[_ Hk]|(old & e0 & e & _ & Hk & _ & He0 & Hok & H0 & Hodd & ->)];
    [by destruct (Hno k)|].
  assert (Hlt : (k < length (t_pid t))%nat) by (by eapply lookup_lt_Some).
  assert (Hle : (k < length (t_ent t))%nat) by (by eapply lookup_lt_Some).
  assert (Hat : ent_at st2 (Z.of_nat k) = Some e).
  { unfold ent_at. rewrite T2, Nat2Z.id. cbn. by apply list_lookup_insert_eq. }
  rewrite Hat in *. rewrite (Forall_lookup_1 _ _ _ _ Heven He0) in Hodd.
  pose proof (starttime_range w child).
  destruct (fork_write e sn (starttime w child) Hok) as (e' & Hev & Hst & Hsnap & Ew);
    [by apply Hok_sn|lia|done..|]. rewrite Ew in *.
  assert (Htab : g_tab (in_process (put_ent st2 (Z.of_nat k) e') slot hint) =
    Some (set_ent (set_ent (set_pid t k child) k e) k e')).
  { unfold put_ent, in_process. by rewrite T2, Nat2Z.id. }
  assert (Hwf' : reg_wf (in_process (put_ent st2 (Z.of_nat k) e') slot hint)) by exact Hwf.
  rewrite <-Hsnap. apply (get_settled (fun _ _ => True) w' _ _ k child e' Hwf' Htab).
  - cbn. by apply list_lookup_insert_eq.
  - cbn. apply list_lookup_insert_eq. by rewrite length_insert.
  - lia.
  - done.
  - rewrite Hst. destruct Hsame as [->|?]; auto.
Qed.

(** * A walk over the guest processes

    cng_procreg_pid_at, asked of every slot in turn, is how the monitor lists
    guests.  Two slots can hold one pid, when a forking parent and its child each
    claimed one, so nothing here assumes they do not. *)

Fixpoint walk (w : world) (idx : list nat) (st : preg) : preg * list Z :=
  match idx with
  | [] => (st, [])
  | i :: idx =>
      let '(st, p) := cng_procreg_pid_at w st (Z.of_nat i) in
      let '(st, l) := walk w idx st in
      (st, if p =? 0 then l else p :: l)
  end.

(** The slot [j] says [p] is a guest: it is the asker, or the stamp is that of
    the process that runs. *)
Definition vouched (w : world) (t : proc_tab) (j : nat) (p : Z) : Prop :=
  p = w_self w \/
  exists e, t_ent t !! j = Some e /\ e_start e <> 0 /\ starttime w p = e_start e.

(** The only change a question makes: a slot that does not vouch for the pid it
    holds may be freed. *)
Definition freed (w : world) (t t' : proc_tab) : Prop :=
  t_ent t' = t_ent t /\ length (t_pid t') = length (t_pid t) /\
  forall j, t_pid t' !! j = t_pid t !! j \/
    (t_pid t' !! j = Some 0 /\ exists p, t_pid t !! j = Some p /\ ~ vouched w t j p).

Lemma freed_refl w t : freed w t t.
Proof. repeat split. intros j. by left. Qed.

Lemma freed_one w t k p :
  t_pid t !! k = Some p -> ~ vouched w t k p -> freed w t (set_pid t k 0).
Proof.
  intros Hk Hv. split; [done|]. cbn. split; [by rewrite length_insert|]. intros j.
  destruct (decide (j = k)) as [->|]; [|left; by rewrite list_lookup_insert_ne].
  right. split; [|by exists p]. apply list_lookup_insert_eq. by eapply lookup_lt_Some.
Qed.

Lemma vouched_ents w t t' j p : t_ent t' = t_ent t -> vouched w t' j p <-> vouched w t j p.
Proof. intros E. unfold vouched. by rewrite E. Qed.

Lemma freed_trans w t1 t2 t3 : freed w t1 t2 -> freed w t2 t3 -> freed w t1 t3.
Proof.
  intros (E1 & L1 & H1) (E2 & L2 & H2). split; [congruence|]. split; [congruence|]. intros j.
  destruct (H2 j) as [->|[-> (p & Hp & Hv)]]; [apply H1|]. right. split; [done|].
  rewrite (vouched_ents w t1 t2) in Hv by done.
  destruct (H1 j) as [E|[E (q & Hq & Hvq)]]; [|by exists q].
  exists p. by rewrite <-E.
Qed.

Lemma freed_shape w n t t' slot hint slot' hint' :
  freed w t t' -> reg_shape (Preg (Some t) n slot hint) -> reg_shape (Preg (Some t') n slot' hint').
Proof.
  intros (E & L & H) Hs t0 [= <-]. destruct (Hs t eq_refl) as (L1 & L2 & HF). cbn in *.
  split; [congruence|]. split; [congruence|]. apply Forall_lookup_2. intros j p Hp.
  destruct (H j) as [Ej|[Ej _]]; rewrite Ej in Hp; [by eapply Forall_lookup_1|].
  injection Hp as <-. split; lia.
Qed.

(** One question. *)
Lemma has_effect w t n slot hint pid st' r :
  reg_shape (Preg (Some t) n slot hint) ->
  cng_procreg_has w (Preg (Some t) n slot hint) pid = (st', r) ->
  exists t' slot' hint', st' = Preg (Some t') n slot' hint' /\ freed w t t' /\
  (forall j q, t_pid t !! j = Some q -> q <> pid -> t_pid t' !! j = Some q) /\
  (r = true -> t' = t /\ 0 < pid /\
     (pid = w_self w \/ exists k, t_pid t !! k = Some pid /\ vouched w t k pid)) /\
  (r = false -> pid <= 0 \/ pid <> w_self w /\
     ((forall k, t_pid t !! k <> Some pid) \/
      exists k, t_pid t !! k = Some pid /\ ~ vouched w t k pid)).
Proof.
  intros Hs E. unfold cng_procreg_has in E. set (st := Preg (Some t) n slot hint) in *.
  destruct (Z.leb_spec pid 0).
  { injection E as <- <-. exists t, slot, hint. split; [done|]. split; [apply freed_refl|].
    split; [done|]. split; [done|]. by left. }
  destruct (Z.eqb_spec pid (w_self w)) as [->|Hne].
  { injection E as <- <-. exists t, slot, hint. split; [done|]. split; [apply freed_refl|].
    split; [done|]. split; [|done]. intros _. by auto. }
  destruct (slot_of st pid) as [st1 i] eqn:E1.
  destruct (slot_of_shape _ _ _ _ Hs E1) as (T1 & N1 & Hi). destruct st1 as [ot n1 s1 h1].
  cbn in T1, N1. subst ot n1.
  destruct Hi as [[-> Hno]|(k & t0 & -> & [= <-] & _ & Hk & Hlt)].
  { injection E as <- <-. exists t, s1, h1. split; [done|]. split; [apply freed_refl|].
    split; [done|]. split; [done|]. intros _. right. split; [done|]. left. by apply Hno. }
  destruct (Hs t eq_refl) as (L1 & L2 & _). cbn in L1, L2, Hlt.
  destruct (lookup_lt_is_Some_2 (t_ent t) k) as [e He]; [lia|].
  rewrite (proj2 (Z.ltb_ge _ _)) in E by lia. unfold ent_at, slot_holds in E. cbn in E.
  rewrite Nat2Z.id, He in E. rewrite bool_decide_eq_true_2 in E by done. cbv zeta iota in E.
  assert (NV : e_start e = 0 \/ starttime w pid <> e_start e -> ~ vouched w t k pid).
  { intros Hc [?|(e1 & He1 & ? & ?)]; [done|]. rewrite He in He1. injection He1 as <-. tauto. }
  destruct (Z.eqb_spec (e_start e) 0) as [H0|H0].
  { injection E as <- <-. exists t, s1, h1. split; [done|]. split; [apply freed_refl|].
    split; [done|]. split; [done|]. intros _. right. split; [done|]. right. exists k. auto. }
  destruct (Z.eqb_spec (starttime w pid) (e_start e)) as [H1|H1].
  { injection E as <- <-. exists t, s1, h1. split; [done|]. split; [apply freed_refl|].
    split; [done|]. split; [|done]. intros _. split; [done|]. split; [done|]. right. exists k. split; [done|].
    right. by exists e. }
  case_if_in E; injection E as <- <-.
  - exists t, s1, h1. split; [done|]. split; [apply freed_refl|]. split; [done|]. split; [done|].
    intros _. right. split; [done|]. right. exists k. auto.
  - exists (set_pid t k 0), s1, h1. split; [done|]. split; [eapply freed_one; eauto|].
    split; [|split; [done|]].
    { intros j q Hj Hq. cbn. rewrite list_lookup_insert_ne; [done|]. congruence. }
    intros _. right. split; [done|]. right. exists k. auto.
Qed.

(** The slot [i] is the first that holds [p]. *)
Definition first_of (t : proc_tab) (i : nat) (p : Z) : Prop :=
  t_pid t !! i = Some p /\ forall j, (j < i)%nat -> t_pid t !! j <> Some p.

(** What a question about the slot [i] answers and leaves. *)
Definition asked (w : world) (t : proc_tab) (n i : nat) (st' : preg) (v : Z) : Prop :=
  exists t' slot' hint', st' = Preg (Some t') n slot' hint' /\ freed w t t' /\
  (forall j q, t_pid t !! j = Some q -> t_pid t' !! j = Some q \/ first_of t i q) /\
  (v <> 0 -> t' = t /\ 0 < v /\ first_of t i v /\ exists k, t_pid t !! k = Some v /\ vouched w t k v) /\
  (v = 0 -> forall p, 0 < p -> first_of t i p ->
     exists k, t_pid t !! k = Some p /\ ~ vouched w t k p).

Lemma pid_at_effect w t n slot hint i st' v :
  reg_shape (Preg (Some t) n slot hint) -> (i < n)%nat ->
  cng_procreg_pid_at w (Preg (Some t) n slot hint) (Z.of_nat i) = (st', v) ->
  asked w t n i st' v.
Proof.
  intros Hs Hi E. unfold cng_procreg_pid_at in E. cbn [g_tab g_tab_n] in E.
  destruct (Hs t eq_refl) as (L1 & L2 & HF). cbn in L1, L2.
  rewrite (proj2 (Z.ltb_ge _ _)), (proj2 (Z.leb_gt _ _)) in E by lia. cbn [orb] in E.
  rewrite Nat2Z.id in E. destruct (lookup_lt_is_Some_2 (t_pid t) i) as [p Hp]; [lia|].
  rewrite Hp in E. cbn [default from_option id] in E.
  assert (Same : forall v0, v0 = 0 -> (p <= 0 \/ ~ first_of t i p) ->
    (Preg (Some t) n slot hint, v0) = (st', v) -> asked w t n i st' v).
  { intros v0 -> Hc [= <- <-]. exists t, slot, hint. split; [done|]. split; [apply freed_refl|].
    split; [by left|]. split; [done|]. intros _ q Hq [Hq1 Hq2]. rewrite Hp in Hq1.
    injection Hq1 as <-. destruct Hc as [|Hc]; [lia|]. by destruct Hc. }
  destruct (Z.leb_spec p 0); cbn [orb] in E; [by eapply Same; eauto|].
  destruct (scan_for_spec n t p L1 HF) as [[_ Hno]|(k & Esc & Hk & _ & Hmin)].
  { by destruct (Hno i). }
  rewrite Esc in E. destruct (Z.eqb_spec (Z.of_nat k) (Z.of_nat i)) as [Eki|Hki]; cbn [negb] in E.
  2: { eapply (Same 0); [done| |exact E]. right. intros [_ Hf].
       destruct (Nat.lt_total k i) as [?|[?|Hlt]]; [by apply (Hf k)|lia|by apply (Hmin i)]. }
  apply Nat2Z.inj in Eki. subst k. assert (Hf : first_of t i p) by done.
  destruct (cng_procreg_has w _ p) as [st1 r] eqn:Eh. injection E as <- <-.
  destruct (has_effect _ _ _ _ _ _ _ _ Hs Eh) as (t' & s' & h' & -> & Hfr & Hkeep & Ht & Hfalse).
  exists t', s', h'. split; [done|]. split; [done|]. split; [|split].
  - intros j q Hq. destruct (decide (q = p)) as [->|]; [by right|]. left. by apply Hkeep.
  - destruct r; [|done]. intros _. destruct (Ht eq_refl) as (-> & _ & Hv).
    split; [done|]. split; [done|]. split; [done|]. destruct Hv as [->|Hv]; [|done].
    exists i. split; [done|]. by left.
  - destruct r; [lia|]. intros _ q Hq [Hq1 Hq2]. rewrite Hp in Hq1. injection Hq1 as <-.
    destruct (Hfalse eq_refl) as [?|[_ [Hno|Hv]]]; [lia|by destruct (Hno i)|done].
Qed.

(** What a walk from slot [lo] on lists: each once, each vouched for; every guest
    whose first slot is not before [lo] and whose slots all vouch for it; and
    none whose first slot is. *)
Lemma walk_lists w n m : forall lo t slot hint st' l,
  reg_shape (Preg (Some t) n slot hint) -> (lo + m <= n)%nat ->
  walk w (seq lo m) (Preg (Some t) n slot hint) = (st', l) ->
  NoDup l /\
  (forall p, In p l -> 0 < p /\ (exists k, t_pid t !! k = Some p /\ vouched w t k p) /\
     forall j, (j < lo)%nat -> t_pid t !! j <> Some p) /\
  (forall p i, 0 < p -> first_of t i p -> (lo <= i < lo + m)%nat ->
     (forall k, t_pid t !! k = Some p -> vouched w t k p) -> In p l).
Proof.
  induction m as [|m IH]; intros lo t slot hint st' l Hs Hm E; cbn [seq walk] in E.
  { injection E as <- <-. split; [constructor|]. split; [done|]. intros; lia. }
  destruct (cng_procreg_pid_at w _ (Z.of_nat lo)) as [st1 v] eqn:E1.
  destruct (pid_at_effect w t n slot hint lo st1 v Hs ltac:(lia) E1)
    as (t1 & s1 & h1 & -> & Hfr & Hkeep & Hyes & Hno).
  destruct (walk w (seq (S lo) m) _) as [st2 l2] eqn:E2. injection E as <- <-.
  pose proof Hfr as (He & Hl & Hf).
  destruct (IH (S lo) t1 s1 h1 _ _ (freed_shape _ _ _ _ _ _ _ _ Hfr Hs) ltac:(lia) E2)
    as (N & Sd & C).
  assert (Back : forall j p, 0 < p -> t_pid t1 !! j = Some p -> t_pid t !! j = Some p).
  { intros j p Hp Hj. destruct (Hf j) as [Ej|[Ej _]]; rewrite Ej in Hj; [done|].
    injection Hj as <-. lia. }
  assert (Sd' : forall p, In p l2 -> 0 < p /\ (exists k, t_pid t !! k = Some p /\ vouched w t k p) /\
    forall j, (j < lo)%nat -> t_pid t !! j <> Some p).
  { intros p Hp. destruct (Sd p Hp) as (Hpos & (k & Hk & Hv) & Hlo). split; [done|]. split.
    - exists k. split; [by apply Back|]. by rewrite <-(vouched_ents w t t1).
    - intros j Hj Hjp. destruct (Hkeep j p Hjp) as [Hj1|[_ Hmin]]; [by apply (Hlo j); [lia|]|].
      by apply (Hmin j). }
  split; [|split].
  - destruct (Z.eqb_spec v 0) as [|Hv]; [done|]. constructor; [|done].
    destruct (Hyes Hv) as (-> & _ & [Hvl _] & _). rewrite list_elem_of_In. intros Hin.
    by destruct (Sd v Hin) as (_ & _ & Hlo); apply (Hlo lo); [lia|].
  - intros p Hp. destruct (Z.eqb_spec v 0) as [|Hv]; [by apply Sd'|].
    destruct Hp as [<-|Hp]; [|by apply Sd'].
    destruct (Hyes Hv) as (_ & Hpos & [_ Hmin] & Hk). done.
  - intros p i Hp [Hi Hmin] Hr Hall. destruct (decide (i = lo)) as [->|Hne].
    + destruct (Z.eqb_spec v 0) as [->|Hv].
      * destruct (Hno eq_refl p Hp (conj Hi Hmin)) as (k & Hk & Hv). by destruct (Hv (Hall k Hk)).
      * left. destruct (Hyes Hv) as (_ & _ & [Hvl _] & _). congruence.
    + assert (H1 : In p l2); [|case_if; [done|by right]].
      apply (C p i Hp); [|lia|].
      * split.
        { destruct (Hf i) as [->|[_ (q & Hq & Hv)]]; [done|]. rewrite Hi in Hq.
          injection Hq as <-. by destruct (Hv (Hall i Hi)). }
        intros j Hj Hj1. by apply (Hmin j Hj), Back.
      * intros k Hk. rewrite (vouched_ents w t t1) by done. apply Hall. by apply Back.
Qed.

Lemma first_of_exists t p : p ∈ t_pid t -> exists i, first_of t i p.
Proof.
  intros H. destruct (first_slot_spec (t_pid t) p 0 ltac:(lia)) as [[_ Hno]|(k & _ & Hk & Hmin)].
  - apply list_elem_of_lookup in H as [j Hj]. by destruct (Hno j).
  - exists k. by split.
Qed.

(** A walk over the slots lists each guest process exactly once.  In any
    table, even one where two slots hold the same pid, the walk names no process
    twice, names only the asker and processes that a slot stamps with the start
    time they run with, and names every one whose slots all do. *)
Theorem walk_lists_guests_once w n t slot hint :
  reg_shape (Preg (Some t) n slot hint) ->
  let l := snd (walk w (seq 0 n) (Preg (Some t) n slot hint)) in
  NoDup l /\
  (forall p, In p l -> exists k, t_pid t !! k = Some p /\ vouched w t k p) /\
  (forall p, 0 < p -> p ∈ t_pid t ->
     (forall k, t_pid t !! k = Some p -> vouched w t k p) -> In p l).
Proof.
  intros Hs l. destruct (walk w (seq 0 n) (Preg (Some t) n slot hint)) as [st' l'] eqn:E.
  destruct (walk_lists w n n 0 t slot hint st' l' Hs ltac:(lia) E) as (H1 & H2 & H3).
  split; [done|]. split; [by intros p Hp; destruct (H2 p Hp) as (_ & ? & _)|].
  intros p Hp Hin Hall. destruct (first_of_exists t p Hin) as [i Hi].
  apply (H3 p i); [done..| |done]. destruct (Hs t eq_refl) as (L & _). cbn in L.
  destruct Hi as [Hi _]. apply lookup_lt_Some in Hi. lia.
Qed.

Definition two_slots : proc_tab :=
  Tab [9; 0; 9; 7] [with_start ent0 200; ent0; with_start ent0 200; with_start ent0 50].

Lemma walk_lists_guests_once_witness :
  let w := demo_world 8 [(9, 200); (7, 60)] in
  NoDup (snd (walk w (seq 0 4) (Preg (Some two_slots) 4 (-1) 0))) /\
  snd (walk w (seq 0 4) (Preg (Some two_slots) 4 (-1) 0)) = [9].
Proof.
  intros w. split; [|vm_compute; reflexivity].
  assert (Hs : reg_shape (Preg (Some two_slots) 4 (-1) 0)).
  { intros t [= <-]. split; [reflexivity|]. split; [reflexivity|].
    apply Forall_forall. intros p Hp. cbn in Hp.
    repeat (apply elem_of_cons in Hp as [->|Hp]; [split; lia|]). by apply elem_of_nil in Hp. }
  exact (proj1 (walk_lists_guests_once w 4 two_slots (-1) 0 Hs)).
Defined.
