(* ===== verification/ProcregLock.v ===== *)
(** * The registry entry's lock: interleavings

    src/src/monitor/procreg.c, seq_acquire and seq_release, the writers that use
    them (publish, fork_copy, slot_take, the small updates) and the read loop of
    cng_procreg_get.  One slot, any number of readers, and writers that exclude
    each other by the compare-and-swap of the count from even to odd.  A writer
    may be killed inside its window; the slot's owner then resets the count
    (publish) and a claimer goes ahead without the lock (slot_take).

    The steps are loads, stores and atomic operations on single words in any
    order the processes run them, on a sequentially consistent memory.  Word 0 of
    the payload is the start time.  The fields prefixed [l_] are ghosts: no step's
    outcome depends on them. *)

From Stdlib Require Import ZArith Lia.
From S2P Require Import Prelude.
From stdpp Require Import base numbers list gmap.

Open Scope Z_scope.

Inductive holder := HFree | HHeld | HGone.

#[export] Instance holder_eq_dec : EqDecision holder.
Proof. solve_decision. Defined.

(** Where a read is: it has an even count; it has found the pid in place and has
    read the words [got]; its re-check held.  Ghosts: how often the count had
    moved ([v], and [v'] at the re-check), the number of completed writes ([k])
    and whether an abandoned one was on view ([d]), when the count was loaded. *)
Inductive sreader :=
  | SSeq (s : Z) (v : Z) (k : nat) (d : bool)
  | SRead (s : Z) (got : list (nat * Z)) (v : Z) (k : nat) (d : bool)
  | SDone (got : list (nat * Z)) (v v' : Z) (k : nat) (d : bool).

Record slot := Slot {
  s_pid : Z;
  s_seq : Z;
  s_data : list Z;
  s_holder : holder;
  s_readers : gmap Z sreader;
  l_moves : Z;
  l_hist : list (list Z);
  l_dirty : bool }.

Inductive lock_label :=
  | KAcquire                 (** the compare-and-swap of an even count to odd *)
  | KWrite (i : nat) (x : Z) (** one word of the payload *)
  | KClaim (want pid : Z)    (** slot_take's compare-and-swap of the pid *)
  | KRelease                 (** the count to even *)
  | KKill                    (** the writer is killed inside its window *)
  | KReset                   (** publish, after its spin: the count to even *)
  | KForce (want pid : Z)    (** slot_take with the lock not to be had *)
  | KScrub (pid : Z)         (** cng_procreg_has frees the slot of a reused pid *)
  | KBegin (t : Z)           (** a reader loads an even count *)
  | KPid (t : Z) (pid : Z)   (** and finds the pid in place *)
  | KWord (t : Z) (i : nat)  (** and reads a word *)
  | KCheck (t : Z).          (** and loads the count again *)

Definition upd (st : slot) (pid seq : Z) (data : list Z) (h : holder) : slot :=
  Slot pid seq data h (s_readers st) (l_moves st) (l_hist st) (l_dirty st).

Definition set_sreader (st : slot) (t : Z) (r : option sreader) : slot :=
  Slot (s_pid st) (s_seq st) (s_data st) (s_holder st) (partial_alter (fun _ => r) t (s_readers st))
    (l_moves st) (l_hist st) (l_dirty st).

Definition writer_move (l : lock_label) (st : slot) : option slot :=
  match l with
  | KAcquire =>
      if Z.odd (s_seq st) then None
      else Some (Slot (s_pid st) (u32 (s_seq st + 1)) (s_data st) HHeld (s_readers st)
                   (l_moves st + 1) (l_hist st) (l_dirty st))
  | KWrite i x =>
      match s_holder st with
      | HHeld => Some (upd st (s_pid st) (s_seq st) (<[i := x]> (s_data st)) HHeld)
      | _ => None
      end
  | KClaim want pid =>
      match s_holder st with
      | HHeld => if s_pid st =? want
                 then Some (upd st pid (s_seq st) (<[0%nat := 0]> (s_data st)) HHeld) else None
      | _ => None
      end
  | KRelease =>
      match s_holder st with
      | HHeld => Some (Slot (s_pid st) (u32 (s_seq st + 1)) (s_data st) HFree (s_readers st)
                         (l_moves st + 1) (s_data st :: l_hist st) false)
      | _ => None
      end
  | KKill =>
      match s_holder st with
      | HHeld => Some (upd st (s_pid st) (s_seq st) (s_data st) HGone)
      | _ => None
      end
  | KReset =>
      match s_holder st with
      | HGone => Some (Slot (s_pid st) (u32 (Z.lor (s_seq st) 1 + 1)) (s_data st) HFree
                         (s_readers st) (l_moves st + 1) (l_hist st) true)
      | _ => None
      end
  | KForce want pid =>
      match s_holder st with
      | HGone => if s_pid st =? want
                 then Some (upd st pid (s_seq st) (<[0%nat := 0]> (s_data st)) HGone) else None
      | _ => None
      end
  | KScrub pid =>
      if s_pid st =? pid then Some (upd st 0 (s_seq st) (s_data st) (s_holder st)) else None
  | _ => None
  end.

Definition reader_move (l : lock_label) (st : slot) : option slot :=
  match l with
  | KBegin t =>
      match s_readers st !! t with
      | Some (SSeq _ _ _ _) | Some (SRead _ _ _ _ _) => None
      | _ => if Z.odd (s_seq st) then None
             else Some (set_sreader st t
                          (Some (SSeq (s_seq st) (l_moves st) (length (l_hist st)) (l_dirty st))))
      end
  | KPid t pid =>
      match s_readers st !! t with
      | Some (SSeq s v k d) =>
          if s_pid st =? pid then Some (set_sreader st t (Some (SRead s [] v k d)))
          else Some (set_sreader st t None)
      | _ => None
      end
  | KWord t i =>
      match s_readers st !! t with
      | Some (SRead s got v k d) =>
          x ← s_data st !! i; Some (set_sreader st t (Some (SRead s ((i, x) :: got) v k d)))
      | _ => None
      end
  | KCheck t =>
      match s_readers st !! t with
      | Some (SRead s got v k d) =>
          Some (set_sreader st t
                  (if s_seq st =? s then Some (SDone got v (l_moves st) k d) else None))
      | _ => None
      end
  | _ => None
  end.

Definition lock_step (l : lock_label) (st : slot) : option slot :=
  match l with
  | KBegin _ | KPid _ _ | KWord _ _ | KCheck _ => reader_move l st
  | _ => writer_move l st
  end.

Fixpoint lock_run (ls : list lock_label) (st : slot) : option slot :=
  match ls with
  | [] => Some st
  | l :: ls => st' ← lock_step l st; lock_run ls st'
  end.

Definition slot_init (pid : Z) (data : list Z) : slot :=
  Slot pid 0 data HFree ∅ 0 [data] false.

(** ** The invariant *)

Definition kth_write (st : slot) (k : nat) : option (list Z) :=
  l_hist st !! (length (l_hist st) - k)%nat.

Definition words_of (data : list Z) (got : list (nat * Z)) : Prop :=
  Forall (fun g => data !! g.1 = Some g.2) got.

(** While the count has not moved since [v], nothing has been written, and what
    is there is the [k]th completed write unless an abandoned one shows. *)
Definition sreader_ok (st : slot) (r : sreader) : Prop :=
  match r with
  | SSeq s v k d =>
      s = u32 v /\ Z.odd v = false /\ v <= l_moves st /\ (k <= length (l_hist st))%nat /\
      (l_moves st = v -> d = l_dirty st /\ k = length (l_hist st))
  | SRead s got v k d =>
      s = u32 v /\ Z.odd v = false /\ v <= l_moves st /\ (k <= length (l_hist st))%nat /\
      (l_moves st = v -> d = l_dirty st /\ k = length (l_hist st) /\ words_of (s_data st) got)
  | SDone got v v' k d =>
      u32 v' = u32 v /\ v <= v' <= l_moves st /\ (k <= length (l_hist st))%nat /\
      (v' = v -> d = false -> exists data, kth_write st k = Some data /\ words_of data got)
  end.

Record slot_ok (st : slot) : Prop := {
  so_seq : s_seq st = u32 (l_moves st);
  so_odd : Z.odd (l_moves st) = bool_decide (s_holder st <> HFree);
  so_clean : s_holder st = HFree -> l_dirty st = false -> l_hist st !! 0%nat = Some (s_data st);
  so_hist : (0 < length (l_hist st))%nat;
  so_readers : map_Forall (fun _ r => sreader_ok st r) (s_readers st) }.

Lemma slot_init_ok pid data : slot_ok (slot_init pid data).
Proof. constructor; cbn; [done|done|done|lia|]. apply map_Forall_empty. Qed.

(** A step that leaves the count where it is, and the payload where the count is
    even, keeps what readers know. *)
Lemma sreader_frame st st' r :
  l_moves st' = l_moves st -> l_hist st' = l_hist st -> l_dirty st' = l_dirty st ->
  (Z.odd (l_moves st) = false -> s_data st' = s_data st) ->
  sreader_ok st r -> sreader_ok st' r.
Proof.
  intros Em Eh Ed Hd. destruct r as [s v k d|s got v k d|got v v' k d]; unfold sreader_ok, kth_write;
    rewrite Em, Eh, ?Ed; [done| |done].
  intros (? & Hv & ? & ? & Hs). repeat (split; [done|]). intros E.
  destruct (Hs E) as (? & ? & ?). split; [done|]. split; [done|]. rewrite Hd; [done|].
  by rewrite E.
Qed.

(** A step that moves the count cuts every unfinished read off. *)
Lemma sreader_move st st' r pre :
  l_moves st' = l_moves st + 1 -> l_hist st' = pre ++ l_hist st ->
  sreader_ok st r -> sreader_ok st' r.
Proof.
  intros Em Eh. destruct r as [s v k d|s got v k d|got v v' k d]; unfold sreader_ok, kth_write;
    rewrite Em, Eh, length_app.
  - intros (? & ? & ? & ? & _). repeat (split; [done || lia|]). lia.
  - intros (? & ? & ? & ? & _). repeat (split; [done || lia|]). lia.
  - intros (? & ? & ? & Hs). repeat (split; [done || lia|]). intros E1 E2.
    destruct (Hs E1 E2) as (data & Hk & Hw). exists data. split; [|done].
    rewrite lookup_app_r by lia. rewrite <-Hk. f_equal. lia.
Qed.

Lemma readers_frame st st' :
  (forall r, sreader_ok st r -> sreader_ok st' r) ->
  map_Forall (fun _ r => sreader_ok st r) (s_readers st) ->
  map_Forall (fun _ r => sreader_ok st' r) (s_readers st).
Proof. intros H HF t r E. apply H. by apply (HF t). Qed.

Lemma held_odd st : slot_ok st -> s_holder st <> HFree -> Z.odd (l_moves st) = true.
Proof. intros Hi H. rewrite (so_odd _ Hi). by apply bool_decide_eq_true. Qed.

Lemma u32_odd_moves st : slot_ok st -> Z.odd (s_seq st) = Z.odd (l_moves st).
Proof.
  intros Hi. rewrite (so_seq _ Hi), <-!Z.bit0_odd. unfold wrapu. by rewrite Z.mod_pow2_bits_low by lia.
Qed.

(** A writer's step inside its window. *)
Lemma inside_ok st pid data h :
  slot_ok st -> s_holder st <> HFree -> h <> HFree ->
  slot_ok (upd st pid (s_seq st) data h).
Proof.
  intros Hi Hh Hh'. pose proof (held_odd st Hi Hh) as Ho. destruct Hi as [I1 I2 I3 I4 I5].
  constructor; cbn.
  - done.
  - rewrite Ho. symmetry. by apply bool_decide_eq_true.
  - by intros ->.
  - done.
  - apply (readers_frame st); [|done]. intros r. apply sreader_frame; [done..|].
    by rewrite Ho.
Qed.

Lemma writer_move_ok l st st' : slot_ok st -> writer_move l st = Some st' -> slot_ok st'.
Proof.
  intros Hi E. pose proof (u32_odd_moves st Hi) as Hodd. pose proof Hi as [I1 I2 I3 I4 I5].
  destruct l; cbn in E; try done.
  - destruct (Z.odd (s_seq st)) eqn:Eo; [done|]. injection E as <-. constructor; cbn.
    + by rewrite I1, wrapu_add_l.
    + by rewrite Z.odd_add, <-Hodd.
    + done.
    + done.
    + apply (readers_frame st); [|done]. intros r. by apply (sreader_move st _ r []).
  - destruct (s_holder st) eqn:Eh; try done. injection E as <-. apply inside_ok; by rewrite ?Eh.
  - destruct (s_holder st) eqn:Eh; try done. case_if_in E; [|done]. injection E as <-.
    apply inside_ok; by rewrite ?Eh.
  - destruct (s_holder st) eqn:Eh; try done. injection E as <-.
    assert (Ho : Z.odd (l_moves st) = true) by (apply held_odd; by rewrite ?Eh).
    constructor; cbn.
    + by rewrite I1, wrapu_add_l.
    + by rewrite Z.odd_add, Ho.
    + done.
    + lia.
    + apply (readers_frame st); [|done]. intros r. by apply (sreader_move st _ r [s_data st]).
  - destruct (s_holder st) eqn:Eh; try done. injection E as <-. apply inside_ok; by rewrite ?Eh.
  - destruct (s_holder st) eqn:Eh; try done. injection E as <-.
    assert (Ho : Z.odd (l_moves st) = true) by (apply held_odd; by rewrite ?Eh).
    assert (El : Z.lor (s_seq st) 1 = s_seq st).
    { apply Z.bits_inj'. intros n Hn. rewrite Z.lor_spec.
      destruct (decide (n = 0)) as [->|]; [by rewrite Z.bit0_odd, Hodd, Ho|].
      rewrite (Z.bits_above_log2 1 n) by (cbn; lia). by rewrite orb_false_r. }
    constructor; cbn.
    + by rewrite El, I1, wrapu_add_l.
    + by rewrite Z.odd_add, Ho.
    + done.
    + done.
    + apply (readers_frame st); [|done]. intros r. by apply (sreader_move st _ r []).
  - destruct (s_holder st) eqn:Eh; try done. case_if_in E; [|done]. injection E as <-.
    apply inside_ok; by rewrite ?Eh.
  - case_if_in E; [|done]. injection E as <-. constructor; cbn; try done.
Qed.

(** A change of one reader's place. *)
Lemma set_sreader_ok st t r :
  slot_ok st -> (forall x, r = Some x -> sreader_ok st x) -> slot_ok (set_sreader st t r).
Proof.
  intros [I1 I2 I3 I4 I5] Hr. constructor; cbn; try done.
  intros u x. destruct (decide (u = t)) as [->|Hne].
  - rewrite lookup_partial_alter_eq. intros E. by apply (Hr x).
  - rewrite lookup_partial_alter_ne by done. intros E. by apply (I5 u x).
Qed.

Lemma reader_move_ok l st st' : slot_ok st -> reader_move l st = Some st' -> slot_ok st'.
Proof.
  intros Hi E. pose proof (u32_odd_moves st Hi) as Hodd.
  destruct l; cbn in E; try done.
  - assert (E' : Z.odd (s_seq st) = false /\ st' = set_sreader st t
      (Some (SSeq (s_seq st) (l_moves st) (length (l_hist st)) (l_dirty st)))).
    { destruct (s_readers st !! t) as [[]|]; try done;
        destruct (Z.odd (s_seq st)); try done; by injection E as <-. }
    destruct E' as [Eo ->]. apply set_sreader_ok; [done|]. intros x [= <-].
    cbn. rewrite (so_seq _ Hi), <-Hodd. repeat split; (done || lia).
  - destruct (s_readers st !! t) as [[s v k d| |]|] eqn:Er; try done.
    pose proof (so_readers _ Hi t _ Er) as (? & ? & ? & ? & Hs).
    case_if_in E; injection E as <-; apply set_sreader_ok; [done| |done|done].
    intros x [= <-]. repeat (split; [done|]). intros Ev. destruct (Hs Ev). repeat split; try done.
    constructor.
  - destruct (s_readers st !! t) as [[|s got v k d|]|] eqn:Er; try done.
    pose proof (so_readers _ Hi t _ Er) as (? & ? & ? & ? & Hs).
    destruct (s_data st !! i) as [x|] eqn:Ex; [|done]. injection E as <-.
    apply set_sreader_ok; [done|]. intros y [= <-]. repeat (split; [done|]). intros Ev.
    destruct (Hs Ev) as (? & ? & ?). split; [done|]. split; [done|]. by constructor.
  - destruct (s_readers st !! t) as [[|s got v k d|]|] eqn:Er; try done.
    pose proof (so_readers _ Hi t _ Er) as (-> & Hev & ? & ? & Hs). injection E as <-.
    apply set_sreader_ok; [done|]. intros y Hy. destruct (Z.eqb_spec (s_seq st) (u32 v)) as [Eq|];
      [|done]. injection Hy as <-. cbn. rewrite (so_seq _ Hi) in Eq.
    split; [done|]. split; [lia|]. split; [done|]. intros Ev ->.
    destruct (Hs Ev) as (Hd & -> & Hw). exists (s_data st). split; [|done].
    unfold kth_write. rewrite Nat.sub_diag. apply (so_clean _ Hi); [|done].
    pose proof (so_odd _ Hi) as Ho. rewrite Ev, Hev in Ho.
    destruct (s_holder st); [done|by rewrite bool_decide_eq_true_2 in Ho..].
Qed.

Lemma lock_run_ok ls : forall st st', slot_ok st -> lock_run ls st = Some st' -> slot_ok st'.
Proof.
  induction ls as [|l ls IH]; intros st st' Hi E; cbn in E; [by injection E as <-|].
  destruct (lock_step l st) as [st1|] eqn:E1; [|done]. cbn in E. apply (IH st1); [|done].
  destruct l; cbn [lock_step] in E1;
    first [by apply (writer_move_ok _ _ _ Hi E1) | by apply (reader_move_ok _ _ _ Hi E1)].
Qed.


(** A write and two reads: one the write overtakes, one after it. *)
Definition overtaken : list lock_label :=
  [KBegin 1; KPid 1 9; KWord 1 0; KAcquire; KWrite 0 8; KCheck 1; KWrite 1 8; KRelease;
   KBegin 1; KPid 1 9; KWord 1 0; KWord 1 1; KCheck 1].


(** The exception is real: after the owner resets the count of a writer that was
    killed half-way, and before it takes the lock itself, the half-written
    payload passes for a complete one. *)
Theorem reset_shows_abandoned_write :
  match lock_run [KAcquire; KWrite 0 8; KKill; KReset; KBegin 1; KPid 1 9; KWord 1 0; KWord 1 1;
                  KCheck 1] (slot_init 9 [5; 5]) with
  | Some st => s_readers st !! 1 = Some (SDone [(1%nat, 5); (0%nat, 8)] 2 2 1 true) /\
               Forall (fun w => ~ words_of w [(1%nat, 5); (0%nat, 8)]) (l_hist st)
  | None => False
  end.
Proof.
  vm_compute. split; [done|]. constructor; [|constructor].
  intros H. inversion_clear H as [|? ? _ H']. inversion_clear H' as [|? ? H _]. discriminate H.
Qed.
