(* ===== verification/Resolve.v ===== *)
(** * The path walk of the dispatcher (src/src/monitor/dispatch.c)

    cng_resolve_lim resolves a guest path to a host path the way the kernel
    resolves a name, one component at a time against a resolved prefix, with
    symbolic links followed inside the guest's view, the links of /proc that
    belong to the host handled apart, and the constraints of openat2 applied on
    the way.  Modelled with it: the recognition of /proc and /dev names
    (parse_int_run, proc_pid_prefix, proc_magic, dev_magic), the guest-visible
    target of exe, cwd and root (proc_self_fixup) and the guest name of a host
    directory (host_dir_guest).

    The walk's buffers [rest] and [canon] are the strings in them; the pointer
    into [rest] is the string from there on.  What the kernel and the
    link-to-symlink emulation answer is [renv]. *)

From stdpp Require Import base list strings gmap numbers.
From Stdlib Require Import ZArith Ascii Lia.
From S2P Require Import Prelude Path.

Open Scope nat_scope.

Definition ENOENT := 2%Z.
Definition EACCES := 13%Z.
Definition EXDEV := 18%Z.
Definition ENOTDIR := 20%Z.
Definition ENAMETOOLONG := 36%Z.
Definition ELOOP := 40%Z.

Record renv := REnv {
  r_self : Z;                           (* getpid *)
  r_exe : option cstr;                  (* cng_g_exe_guest *)
  r_snap : Z -> option (cstr * cstr);   (* cng_procreg_get: the exe and the cwd *)
  r_readlink : cstr -> option cstr;     (* readlinkat of a host path; None: error or empty *)
  r_mode : cstr -> Z + Z;               (* newfstatat, following: an error or the mode *)
  r_pin_mode : cstr -> Z + Z;           (* cng_pin_fstatat *)
  r_l2s : bool;                         (* cng_g_l2s *)
  r_l2s_resolve : cstr -> option cstr;  (* cng_l2s_resolve answering 1: the data file *)
  r_l2s_target : cstr -> option cstr    (* cng_l2s_untranslate_target *) }.

Definition is_dir_mode (m : Z) : bool := (Z.land m 61440 =? 16384)%Z. (* S_IFMT, S_IFDIR *)

(** The constraints of an openat2. *)
Record cng_res_limit := ResLimit {
  l_no_symlinks : bool; l_no_magiclinks : bool; l_no_xdev : bool;
  l_beneath : bool; l_in_root : bool;
  l_scope : option cstr; l_xdev_base : option cstr;
  l_check_dotdot : bool }.

(** ** Names of /proc *)

(** The digits from [q] on, added to [v]; [None] past INT_MAX. *)
Fixpoint int_run (q : cstr) (v : Z) : option (Z * cstr) :=
  match q with
  | c :: q' =>
      if is_digit c then
        let v := (v * 10 + digit_val c)%Z in
        if (0x7fffffff <? v)%Z then None else int_run q' v
      else Some (v, q)
  | [] => Some (v, [])
  end.

Definition parse_int_run (q : cstr) : option (Z * cstr) :=
  match q with
  | c :: q' =>
      if negb (is_digit c)
         || (Ascii.eqb c "0"%char && match q' with d :: _ => is_digit d | [] => false end)
      then None else int_run q 0
  | [] => None
  end.

Definition proc_pid_prefix (p : cstr) (self_only : bool) : nat :=
  if negb (strneq p (cs "/proc/") 6) then 0
  else
    let q := drop 6 p in
    if strneq q (cs "self/") 5 then 11
    else if strneq q (cs "thread-self/") 12 then 18
    else if self_only then 0
    else
      let n := length (take_while is_digit q) in
      if (n =? 0) || negb (char_is q n SLASH) then 0 else 6 + n + 1.

Definition proc_pid_visible (G : genv) (canon : cstr) : bool :=
  if negb (proc_pid_prefix canon true =? 0) then true
  else match parse_int_run (drop 6 canon) with
       | Some (pid, _) => g_procreg_has G pid
       | None => false
       end.

Definition proc_fd_dir (canon : cstr) : bool :=
  let pl := proc_pid_prefix canon false in
  negb (pl =? 0) && streq (drop pl canon) (cs "fd").

Definition self_target (E : renv) (fs : cng_fs) (leaf : cstr) : option cstr :=
  if char_is leaf 0 "e"%char then r_exe E
  else if char_is leaf 0 "c"%char
       then Some (fst (strlcpy (if length (f_cwd fs) =? 0 then [SLASH] else f_cwd fs) CNG_PATH_MAX))
       else Some [SLASH].

(** The bytes the caller gets: the target cut at [bufsz]. *)
Definition proc_self_fixup (E : renv) (fs : cng_fs) (canon : cstr) (bufsz : nat) : option cstr :=
  let pl := proc_pid_prefix canon false in
  if pl =? 0 then None
  else
    let leaf := drop pl canon in
    if negb (streq leaf (cs "exe") || streq leaf (cs "cwd") || streq leaf (cs "root")) then None
    else
      val ← (if negb (proc_pid_prefix canon true =? 0) then self_target E fs leaf
             else
               '(pid, _) ← parse_int_run (drop 6 canon);
               if (pid =? r_self E)%Z then self_target E fs leaf
               else if char_is leaf 0 "r"%char then Some [SLASH]
               else
                 '(exe, cwd) ← r_snap E pid;
                 let src := if char_is leaf 0 "e"%char then exe else cwd in
                 if length src =? 0
                 then if char_is leaf 0 "e"%char then None else Some [SLASH]
                 else Some src);
      Some (take bufsz val).

Inductive magic := MagicNone | MagicGuest | MagicHost | MagicLong.

(** The verdict, and what [cur] is left as. *)
Definition proc_magic (G : genv) (E : renv) (fs : cng_fs) (cur : cstr) (sz : nat) : magic * cstr :=
  let pl := proc_pid_prefix cur false in
  if pl =? 0 then (MagicNone, cur)
  else if negb (proc_pid_visible G cur) then (MagicNone, cur)
  else
    let rest := drop pl cur in
    if strneq rest (cs "fd") 2 && at_boundary rest 2 then
      if at_end rest 2 then (MagicHost, cur)
      else match parse_int_run (drop 3 rest) with
           | Some (_, d) => if at_boundary d 0 then (MagicHost, cur) else (MagicNone, cur)
           | None => (MagicNone, cur)
           end
    else
      let vl := if strneq rest (cs "exe") 3 || strneq rest (cs "cwd") 3 then 3
                else if strneq rest (cs "root") 4 then 4 else 0 in
      if (vl =? 0) || negb (at_boundary rest vl) then (MagicNone, cur)
      else if CNG_PATH_MAX <=? pl + vl then (MagicNone, cur)
      else match proc_self_fixup E fs (take (pl + vl) cur) CNG_PATH_MAX with
           | None => (MagicNone, cur)
           | Some tmp =>
               let n := length tmp in
               if (CNG_PATH_MAX <=? n) || (CNG_PATH_MAX - n <=? length (drop vl rest))
               then (MagicLong, cur)
               else match cng_path_canon (tmp ++ drop vl rest) sz with
                    | Some c => (MagicGuest, c)
                    | None => (MagicLong, cur)
                    end
           end.

Definition alias_to (base rest : cstr) (sz : nat) : option cstr :=
  if (CNG_PATH_MAX - length base <=? length rest) || (sz <=? length base + length rest)
  then None else Some (base ++ rest).

(** [Some cur'], unchanged where it is none of the aliases; [None] for -1. *)
Definition dev_magic (G : genv) (cur : cstr) (sz : nat) : option cstr :=
  if g_no_dev G || negb (strneq cur (cs "/dev/") 5) then Some cur
  else
    let leaf := drop 5 cur in
    if strneq leaf (cs "fd") 2 && at_boundary leaf 2
    then alias_to (cs "/proc/self/fd") (drop 2 leaf) sz
    else if streq leaf (cs "stdin") then alias_to (cs "/proc/self/fd/0") [] sz
    else if streq leaf (cs "stdout") then alias_to (cs "/proc/self/fd/1") [] sz
    else if streq leaf (cs "stderr") then alias_to (cs "/proc/self/fd/2") [] sz
    else Some cur.

(** ** The guest name of a host directory *)

Fixpoint dev_node_guest (G : genv) (fs : cng_fs) (nodes : list (cstr * cstr)) (hdir : cstr)
    (sz : nat) : option cstr :=
  match nodes with
  | [] => None
  | (name, h) :: nodes =>
      if (length h =? 0) || negb (strneq hdir h (length h) && at_boundary hdir (length h))
      then dev_node_guest G fs nodes hdir sz
      else
        let g := cs "/dev/" ++ name in
        let tail := drop (length h) hdir in
        if (sz <=? length g) || (sz - length g <=? length tail) then None
        else match translate_mnt_1 G fs (g ++ tail) CNG_PATH_MAX with
             | Some (back, _) => if streq back hdir then Some (g ++ tail)
                                 else dev_node_guest G fs nodes hdir sz
             | None => dev_node_guest G fs nodes hdir sz
             end
  end.

Definition host_dir_guest (G : genv) (fs : cng_fs) (hdir : cstr) (sz : nat) : option cstr :=
  match untranslate_1 fs hdir sz with
  | Some g => Some g
  | None =>
      let by_proc :=
        if negb (g_no_proc G) && strneq hdir (cs "/proc") 5 && at_boundary hdir 5 then
          if length hdir <? sz then
            match translate_mnt_1 G fs hdir CNG_PATH_MAX with
            | Some (back, _) => if streq back hdir then Some hdir else None
            | None => None
            end
          else None
        else None in
      match by_proc with
      | Some g => Some g
      | None => if g_no_dev G then None else dev_node_guest G fs (cng_dev_nodes G) hdir sz
      end
  end.

(** ** The walk *)

Definition canon_push (c : cstr) (sz : nat) (comp : cstr) : option cstr :=
  let n := if streq c [SLASH] then 0 else length c in
  if sz <? n + 1 + length comp + 1 then None else Some (take n c ++ SLASH :: comp).

(** From the last slash on, dropped; a first or missing slash leaves the root. *)
Definition canon_pop (c : cstr) : cstr :=
  match drop_while not_slash (reverse c) with
  | [] | [_] => [SLASH]
  | _ :: r => reverse r
  end.

Definition splice_rest (sz : nat) (tgt remainder : cstr) : option cstr :=
  let n := length tgt in
  if (CNG_PATH_MAX <=? n) || (CNG_PATH_MAX - n <=? length remainder) then None
  else if length (tgt ++ remainder) <? sz then Some (tgt ++ remainder) else None.

(** Which of the limit's verdicts an error is recorded as. *)
Inductive why := Plain | Limit | DotDot.

Inductive wres :=
  | WErr (e : Z) (w : why)
  | WOut (host : cstr).

(** The prefix, what is left of the name, whether it must be a directory and
    how many links were followed. *)
Record wstate := WState { w_canon : cstr; w_p : cstr; w_dir : bool; w_links : nat }.

Inductive turn_res := TStop (r : wres) | TNext (st : wstate) | TEnd.

Section Walk.
Context (G : genv) (E : renv) (fs : cng_fs) (lim : option cng_res_limit) (deref_final : bool).

Definition lim_is (f : cng_res_limit -> bool) : bool :=
  match lim with Some l => f l | None => false end.

(** The scope of a BENEATH or IN_ROOT lookup. *)
Definition scope : option cstr :=
  match lim with
  | Some l => if l_beneath l || l_in_root l then l_scope l else None
  | None => None
  end.

Definition translate (canon : cstr) (sz : nat) : option cstr :=
  fst <$> translate_mnt_1 G fs canon sz.

Definition mount_eqb (a b : mount) : bool :=
  match a, b with
  | MBind i, MBind j => i =? j
  | MRootfs, MRootfs | MProc, MProc | MDev, MDev => true
  | _, _ => false
  end.

Definition xdev_hit (start : mount) (canon : cstr) : bool :=
  lim_is l_no_xdev && negb (mount_eqb (mount_of_1 G fs canon) start).

(** What a ".." out of [canon] earns under the check of what it leaves. *)
Definition dotdot_err (canon : cstr) : Z :=
  if lim_is l_check_dotdot then
    match translate canon CNG_PATH_MAX with
    | None => 0
    | Some dh =>
        match r_pin_mode E dh with
        | inl e => e
        | inr m => if is_dir_mode m then 0 else - ENOTDIR
        end
    end%Z
  else 0%Z.

(** A link's expansion: the name goes on from [tgt]. *)
Definition expand (canon tgt p : cstr) (nlinks : nat) : turn_res :=
  if 40 <? nlinks + 1 then TStop (WErr (- ELOOP) Plain)
  else match splice_rest CNG_PATH_MAX tgt p with
       | None => TStop (WErr (- ENAMETOOLONG) Plain)
       | Some rest => TNext (WState canon rest (cng_path_wants_dir rest) (nlinks + 1))
       end.

Definition hand_over (canon p : cstr) (outsz : nat) : turn_res :=
  match join_checked canon p outsz with
  | Some out => TStop (WOut out)
  | None => TStop (WErr (- ENAMETOOLONG) Plain)
  end.

(** A descriptor's own link, or the directory they live in. *)
Definition walk_fd_link (canon p : cstr) (last want_dir : bool) (nlinks outsz : nat) : turn_res :=
  if proc_fd_dir canon then
    if negb last then TNext (WState canon p want_dir nlinks) else hand_over canon p outsz
  else if negb last || deref_final || want_dir then
    match r_readlink E canon with
    | Some t =>
        let real := take (CNG_PATH_MAX - 1) t in
        if char_is real 0 SLASH
           && match r_mode E canon with inr m => is_dir_mode m | inl _ => false end
        then match host_dir_guest G fs real CNG_PATH_MAX with
             | None => TStop (WErr (- EACCES) Plain)
             | Some gdir =>
                 if negb last then expand [SLASH] gdir p nlinks else hand_over canon p outsz
             end
        else hand_over canon p outsz
    | None => hand_over canon p outsz
    end
  else hand_over canon p outsz.

(** The name past the last slash. *)
Definition base_name (s : cstr) : cstr := reverse (take_while not_slash (reverse s)).

(** The text of a link under RESOLVE_NO_SYMLINKS: refused, or the emulation's
    own, whose data file the walk goes on from. *)
Definition no_symlink_text (host link : cstr) : option cstr :=
  match (if r_l2s E then r_l2s_resolve E host else None) with
  | None => None
  | Some d =>
      if negb (streq (base_name link) (base_name d)) then
        match host_dir_guest G fs d CNG_PATH_MAX with
        | Some dg => Some (fst (strlcpy dg CNG_PATH_MAX))
        | None => Some link
        end
      else Some link
  end.

(** An ordinary component that may be a symbolic link. *)
Definition walk_link (canon p : cstr) (want_dir : bool) (nlinks : nat) : turn_res :=
  let stay := TNext (WState canon p want_dir nlinks) in
  match translate canon CNG_PATH_MAX with
  | None => stay
  | Some host =>
      match r_readlink E host with
      | None => stay
      | Some t =>
          let link := take (CNG_PATH_MAX - 1) t in
          match (if lim_is l_no_symlinks then no_symlink_text host link else Some link) with
          | None => TStop (WErr (- ELOOP) Limit)
          | Some link =>
              if 40 <? nlinks + 1 then TStop (WErr (- ELOOP) Plain)
              else if char_is link 0 SLASH then
                let link :=
                  match (if r_l2s E then r_l2s_target E link else None) with
                  | Some tmp => fst (strlcpy tmp CNG_PATH_MAX)
                  | None => link
                  end in
                if bool_decide (is_Some scope) && lim_is l_beneath
                then TStop (WErr (- EXDEV) Limit)
                else expand (default [SLASH] scope) link p nlinks
              else expand (canon_pop canon) link p nlinks
          end
      end
  end.

(** A component other than "." and "..". *)
Definition walk_name (start : mount) (canon comp p : cstr) (last want_dir : bool)
    (nlinks outsz : nat) : turn_res :=
  match canon_push canon CNG_PATH_MAX comp with
  | None => TStop (WErr (- ENAMETOOLONG) Plain)
  | Some canon =>
      if xdev_hit start canon then TStop (WErr (- EXDEV) Limit)
      else match dev_magic G canon CNG_PATH_MAX with
      | None => TStop (WErr (- ENAMETOOLONG) Plain)
      | Some canon =>
          let '(mg, canon) := proc_magic G E fs canon CNG_PATH_MAX in
          let magic_link :=
            match mg with
            | MagicGuest | MagicLong => true
            | MagicHost => negb (proc_fd_dir canon)
            | MagicNone => false
            end in
          if magic_link && (lim_is l_no_magiclinks || lim_is l_no_symlinks)
          then TStop (WErr (- ELOOP) Limit)
          else if magic_link && bool_decide (is_Some scope) then TStop (WErr (- EXDEV) Limit)
          else match mg with
          | MagicLong => TStop (WErr (- ENAMETOOLONG) Plain)
          | MagicHost => walk_fd_link canon p last want_dir nlinks outsz
          | MagicGuest => expand [SLASH] canon p nlinks
          | MagicNone =>
              if last && negb deref_final && negb want_dir
              then TNext (WState canon p want_dir nlinks)
              else walk_link canon p want_dir nlinks
          end
      end
  end.

Definition walk_turn (start : mount) (outsz : nat) (st : wstate) : turn_res :=
  let canon := w_canon st in
  match drop_while is_slash (w_p st) with
  | [] => TEnd
  | c :: r =>
      let comp := take_while not_slash (c :: r) in
      let p := drop_while not_slash (c :: r) in
      let last := forallb is_slash p in
      if streq comp [DOT] then TNext (WState canon p (w_dir st) (w_links st))
      else if streq comp [DOT; DOT] then
        if bool_decide (scope = Some canon) then
          if lim_is l_beneath then TStop (WErr (- EXDEV) Limit)
          else TNext (WState canon p (w_dir st) (w_links st))
        else if negb (dotdot_err canon =? 0)%Z then TStop (WErr (dotdot_err canon) DotDot)
        else
          let canon := canon_pop canon in
          if xdev_hit start canon then TStop (WErr (- EXDEV) Limit)
          else TNext (WState canon p (w_dir st) (w_links st))
      else walk_name start canon comp p last (w_dir st) (w_links st) outsz
  end.

(** What is done with the prefix once the name is used up. *)
Definition walk_end (start : mount) (outsz : nat) (st : wstate) : wres :=
  let canon := w_canon st in
  if xdev_hit start canon then WErr (- EXDEV) Limit
  else
    let cl := length canon in
    let need := w_dir st && negb (cl =? 0) && negb (char_is canon (cl - 1) SLASH) in
    if need && (CNG_PATH_MAX <? cl + 2) then WErr (- ENAMETOOLONG) Plain
    else match translate (if need then canon ++ [SLASH] else canon) outsz with
         | Some out => WOut out
         | None => WErr (- ENAMETOOLONG) Plain
         end.

(** One turn of the loop per unit of fuel. *)
Fixpoint walk_loop (fuel : nat) (start : mount) (outsz : nat) (st : wstate) : option wres :=
  match fuel with
  | O => None
  | S fuel =>
      match walk_turn start outsz st with
      | TStop r => Some r
      | TEnd => Some (walk_end start outsz st)
      | TNext st => walk_loop fuel start outsz st
      end
  end.

(** A turn uses up a component or a link: 41 names of under 4096 bytes are
    enough. *)
Definition walk_fuel : nat := 41 * CNG_PATH_MAX.

Definition cng_resolve_lim (path : cstr) (outsz : nat) : option wres :=
  if length path =? 0 then Some (WErr (- ENOENT) Plain)
  else if bool_decide (is_Some scope) && char_is path 0 SLASH && lim_is l_beneath
  then Some (WErr (- EXDEV) Limit)
  else
    let base := match scope with
                | Some s => s
                | None => if char_is path 0 SLASH then [SLASH]
                          else if length (f_cwd fs) =? 0 then [SLASH] else f_cwd fs
                end in
    if (CNG_PATH_MAX <=? length base) || (CNG_PATH_MAX <=? length path)
    then Some (WErr (- ENAMETOOLONG) Plain)
    else
      let start :=
        if lim_is l_no_xdev then
          mount_of_1 G fs
            (match lim ≫= l_xdev_base with
             | Some b => if length b =? 0 then base else b
             | None => base
             end)
        else MRootfs in
      walk_loop walk_fuel start outsz (WState base path (cng_path_wants_dir path) 0).
End Walk.

Definition cng_resolve (G : genv) (E : renv) (fs : cng_fs) (deref_final : bool) (path : cstr)
    (outsz : nat) : option wres :=
  cng_resolve_lim G E fs None deref_final path outsz.
