(* ===== verification/ResolveFacts.v ===== *)
(** * Lemmas on the dispatcher's path walk

    The walk's prefix is the name of a stack of components; what its string
    operations do to the stack; and that a turn always uses something up. *)

From stdpp Require Import base list strings gmap numbers.
From Stdlib Require Import ZArith Ascii Lia.
From S2P Require Import Prelude Path PathCanon PathFacts Resolve.

Open Scope nat_scope.

(** ** The prefix as a stack of components *)

Definition comps (st : list cstr) : Prop := Forall normal_comp st.

Lemma comps_snoc st c : comps st -> normal_comp c -> comps (st ++ [c]).
Proof. intros. apply Forall_app. split; [done|]. by constructor. Qed.

Lemma comps_take n st : comps st -> comps (take n st).
Proof. apply Forall_take. Qed.

#[export] Hint Resolve comps_snoc comps_take : cng.

Lemma name_of_render st : st <> [] -> name_of st = render st.
Proof. by destruct st. Qed.

Lemma render_head st : st <> [] -> exists r, render st = SLASH :: r.
Proof. destruct st as [|c st]; [done|]. unfold render. simpl. eauto. Qed.

(** A name other than the root is its components. *)
Lemma name_root st : comps st -> name_of st = [SLASH] -> st = [].
Proof.
  intros H E. destruct st as [|c st]; [done|]. inversion_clear H as [|? ? (Hc & _) _].
  unfold name_of, render in E. simpl in E. by destruct c.
Qed.

Lemma name_inj st st' : comps st -> comps st' -> name_of st = name_of st' -> st = st'.
Proof.
  intros H H' E. destruct (decide (st = [])) as [->|Hne].
  { symmetry. apply name_root; [done|]. by rewrite <-E. }
  destruct (decide (st' = [])) as [->|Hne'].
  { by apply name_root. }
  rewrite !name_of_render in E by done.
  pose proof (split_render_nonempty st (normal_slash_free _ H) Hne) as S1.
  rewrite E, split_render_nonempty in S1 by (done || by apply normal_slash_free). by injection S1.
Qed.

Lemma pop_name st : comps st -> canon_pop (name_of st) = name_of (take (length st - 1) st).
Proof.
  intros H. destruct st as [|c st _] using rev_ind; [reflexivity|].
  apply Forall_app in H as [Hst [(_ & _ & _ & Hf) _]%Forall_cons_1].
  rewrite length_app. simpl. rewrite Nat.add_sub, take_app_length.
  rewrite name_of_render by (by destruct st). unfold canon_pop.
  rewrite render_snoc, reverse_app, reverse_cons, <-app_assoc, drop_while_app
    by (by apply Forall_reverse).
  simpl. destruct st as [|d st].
  - done.
  - destruct (render_head (d :: st) ltac:(done)) as [r Er]. rewrite Er, reverse_cons.
    destruct (reverse r ++ [SLASH]) as [|x y] eqn:Ex; [by destruct (reverse r)|].
    rewrite <-Ex, <-reverse_cons, <-Er, reverse_involutive. done.
Qed.

Lemma push_name st sz c s :
  canon_push (name_of st) sz c = Some s -> comps st -> s = name_of (st ++ [c]) /\ length s < sz.
Proof.
  intros E H. unfold canon_push in E. destruct (streq (name_of st) [SLASH]) eqn:Es.
  - apply streq_true, name_root in Es as ->; [|done]. case_if_in E; [done|]. injection E as <-.
    bprop. unfold name_of, render. simpl. rewrite app_nil_r. split; [done|]. simpl. lia.
  - assert (st <> []) by (by intros ->). case_if_in E; [done|]. injection E as <-. bprop.
    rewrite name_of_render in * by done. rewrite take_ge by done.
    rewrite (name_of_render (st ++ [c])) by (by destruct st). rewrite render_snoc.
    split; [done|]. rewrite length_app. simpl. lia.
Qed.

(** The first component of a name that starts with it. *)
Lemma render_first st c r :
  Forall slash_free st -> slash_free c -> render st = SLASH :: c ++ SLASH :: r ->
  exists st', st = c :: st' /\ render st' = SLASH :: r.
Proof.
  intros H Hc E. assert (Hne : st <> []) by (by intros ->).
  pose proof (split_render_nonempty st H Hne) as S1. rewrite E in S1. simpl in S1.
  rewrite split_slash_comp in S1 by done. injection S1 as S1. exists (split_slash r).
  split; [done|]. apply render_split.
Qed.

Lemma slash_free_cs c : forallb not_slash c = true -> slash_free c.
Proof.
  induction c as [|x c IH]; intros H; [constructor|]. apply andb_true_iff in H as [Hx Hc].
  constructor; [done|]. by apply IH.
Qed.

Lemma alias_to_name base rest sz s :
  alias_to base rest sz = Some s -> s = base ++ rest /\ length s < sz.
Proof.
  intros Et. unfold alias_to in Et. case_if_in Et; [done|]. injection Et as <-. bprop.
  rewrite length_app. split; [done|]. lia.
Qed.

(** What [dev_magic] makes of a name: itself, or a descriptor's name in /proc. *)
Lemma dev_magic_name G st sz s :
  comps st -> dev_magic G (name_of st) sz = Some s ->
  s = name_of st \/
  g_no_dev G = false /\ head st = Some (cs "dev") /\
  exists st', comps st' /\ s = name_of (cs "proc" :: cs "self" :: cs "fd" :: st') /\ length s < sz.
Proof.
  intros H E. unfold dev_magic in E. destruct (g_no_dev G) eqn:Eg; [injection E as <-; by left|].
  cbn [orb] in E. destruct (strneq (name_of st) (cs "/dev/") 5) eqn:Ed; cbn [negb] in E.
  2: { injection E as <-. by left. }
  apply (strneq_prefix (name_of st) (cs "/dev/")) in Ed as [leaf El].
  assert (Hne : st <> []) by (intros ->; discriminate El).
  rewrite name_of_render in * by done.
  destruct (render_first st (cs "dev") leaf) as (st1 & -> & E1);
    [by apply normal_slash_free|by apply slash_free_cs|done|].
  inversion_clear H as [|? ? _ H1]. rewrite El in E. change (drop 5 _) with leaf in E.
  destruct (strneq leaf (cs "fd") 2 && at_boundary leaf 2) eqn:Efd.
  - apply (under_spec leaf (cs "fd")) in Efd as (rest & -> & Hb). right. split; [done|].
    split; [done|]. apply alias_to_name in E as [-> Hl]. change (drop 2 _) with rest in *.
    destruct Hb as [->|[r ->]].
    + exists []. split; [constructor|]. split; [done|exact Hl].
    + assert (E2 : exists st2, st1 = cs "fd" :: st2 /\ render st2 = SLASH :: r).
      { apply render_first; [by apply normal_slash_free|by apply slash_free_cs|done]. }
      destruct E2 as (st2 & -> & E2). inversion_clear H1 as [|? ? _ H2].
      exists st2. split; [done|]. split; [|exact Hl].
      unfold name_of. change (render (cs "proc" :: cs "self" :: cs "fd" :: st2)) with
        (cs "/proc/self/fd" ++ render st2). by rewrite E2.
  - assert (D : forall d, normal_comp d -> s = cs "/proc/self/fd/" ++ d /\ length s < sz ->
      s = render (cs "dev" :: st1) \/ false = false /\ head (cs "dev" :: st1) = Some (cs "dev") /\
      exists st', comps st' /\ s = name_of (cs "proc" :: cs "self" :: cs "fd" :: st') /\ length s < sz).
    { intros d Hd [-> Hl]. right. split; [done|]. split; [done|]. exists [d].
      split; [by constructor|]. split; [|done]. unfold name_of, render. simpl.
      by rewrite app_nil_r. }
    assert (N : forall d, forallb not_slash [d] = true -> d <> DOT -> normal_comp [d]).
    { intros d Hd1 Hd2. split; [done|]. split; [congruence|]. split; [done|].
      by apply slash_free_cs. }
    case_if_in E; [apply alias_to_name in E as [Es Hl]; apply (D ["0"%char]); [by apply N|done]|].
    case_if_in E; [apply alias_to_name in E as [Es Hl]; apply (D ["1"%char]); [by apply N|done]|].
    case_if_in E; [apply alias_to_name in E as [Es Hl]; apply (D ["2"%char]); [by apply N|done]|].
    left. injection E as <-. by rewrite El.
Qed.

(** ** What a turn does *)

(** A name of the host's own for an open file of a visible process, or for the
    directory of them. *)
Definition fd_name (G : genv) (c : cstr) : Prop :=
  let pl := proc_pid_prefix c false in
  pl <> 0 /\ proc_pid_visible G c = true /\
  exists rest, drop pl c = cs "fd" ++ rest /\
    (rest = [] \/ exists n d, rest = SLASH :: d /\ fst <$> parse_int_run d = Some n).

Lemma proc_magic_host G E fs c sz c' :
  proc_magic G E fs c sz = (MagicHost, c') -> c' = c /\ fd_name G c.
Proof.
  unfold proc_magic. destruct (Nat.eqb_spec (proc_pid_prefix c false) 0) as [|Hpl]; [done|].
  destruct (proc_pid_visible G c) eqn:Ev; cbn [negb]; [|done].
  destruct (strneq (drop (proc_pid_prefix c false) c) (cs "fd") 2 && _) eqn:Efd.
  - apply (under_spec _ (cs "fd")) in Efd as (rest & Er & Hb). intros H.
    assert (c' = c /\ (rest = [] \/ exists n d, rest = SLASH :: d /\
      fst <$> parse_int_run d = Some n)) as [-> Hrest].
    { rewrite Er in H. destruct Hb as [->|[r ->]]; [by injection H as <-; auto|].
      change (at_end (cs "fd" ++ SLASH :: r) 2) with false in H. cbv iota in H.
      change (drop 3 (cs "fd" ++ SLASH :: r)) with r in H.
      destruct (parse_int_run r) as [[n d]|] eqn:Ep; [|done].
      case_if_in H; [|done]. injection H as <-. split; [done|]. right. exists n, r.
      by rewrite Ep. }
    split; [done|]. split; [done|]. split; [done|]. by exists rest.
  - case_if; [done|]. case_if; [done|]. destruct (proc_self_fixup _ _ _ _); [|done].
    case_if; [done|]. by destruct (cng_path_canon _ _).
Qed.

Lemma proc_magic_none G E fs c sz c' :
  proc_magic G E fs c sz = (MagicNone, c') -> c' = c.
Proof.
  unfold proc_magic. intros H. repeat case_match; by simplify_eq.
Qed.

Section Turn.
Context (G : genv) (E : renv) (fs : cng_fs) (lim : option cng_res_limit) (deref_final : bool).
Context (start : mount) (outsz : nat).

(** The prefixes a component leads to before any link is followed. *)
Definition named (cst cst' : list cstr) : Prop :=
  exists c, normal_comp c /\ length (name_of cst') < CNG_PATH_MAX /\
    (cst' = cst ++ [c] \/
     g_no_dev G = false /\ head (cst ++ [c]) = Some (cs "dev") /\
     exists st', comps st' /\ cst' = cs "proc" :: cs "self" :: cs "fd" :: st').

(** Where a turn leaves the prefix when it follows no link. *)
Definition moved (cst cst' : list cstr) : Prop :=
  cst' = cst \/
  (scope lim <> Some (name_of cst) /\ cst' = take (length cst - 1) cst) \/
  named cst cst'.

(** Where following a link leaves it. *)
Definition jumped (cst : list cstr) (canon : cstr) : Prop :=
  canon = default [SLASH] (scope lim) \/
  exists cst1, named cst cst1 /\ canon = name_of (take (length cst1 - 1) cst1).

(** No link of a directory: the kernel cannot walk on from it. *)
Definition not_a_dir (c : cstr) : Prop :=
  proc_fd_dir c = false /\
  match r_readlink E c with
  | Some t => char_is (take (CNG_PATH_MAX - 1) t) 0 SLASH = false \/
              match r_mode E c with inr m => is_dir_mode m = false | inl _ => True end
  | None => True
  end.

Inductive turn_ok (cst : list cstr) (st : wstate) : turn_res -> Prop :=
  | ok_end : turn_ok cst st TEnd
  | ok_err e w : turn_ok cst st (TStop (WErr e w))
  | ok_out cst' p :
      named cst cst' -> fd_name G (name_of cst') ->
      (scope lim <> None -> proc_fd_dir (name_of cst') = true) ->
      (forallb is_slash p = true \/ not_a_dir (name_of cst')) ->
      length (name_of cst' ++ p) < outsz -> turn_ok cst st (TStop (WOut (name_of cst' ++ p)))
  | ok_step cst' p :
      moved cst cst' -> length p < length (w_p st) ->
      turn_ok cst st (TNext (WState (name_of cst') p (w_dir st) (w_links st)))
  | ok_jump canon p :
      jumped cst canon -> length p < CNG_PATH_MAX -> w_links st < 40 ->
      turn_ok cst st (TNext (WState canon p (cng_path_wants_dir p) (w_links st + 1))).

Lemma hand_over_ok cst st cst' p :
  named cst cst' -> fd_name G (name_of cst') ->
  (scope lim <> None -> proc_fd_dir (name_of cst') = true) ->
  (forallb is_slash p = true \/ not_a_dir (name_of cst')) ->
  turn_ok cst st (hand_over (name_of cst') p outsz).
Proof.
  intros H1 H2 H3 H4. unfold hand_over. destruct (join_checked _ _ _) as [out|] eqn:Ej;
    [|constructor]. apply join_checked_Some in Ej as [-> Hl]. apply ok_out; [done..|]. by rewrite length_app.
Qed.

Lemma expand_ok cst st canon tgt p :
  jumped cst canon -> turn_ok cst st (expand canon tgt p (w_links st)).
Proof.
  intros Hj. unfold expand. destruct (Nat.ltb_spec 40 (w_links st + 1)); [constructor|].
  destruct (splice_rest _ _ _) as [rest|] eqn:Es; [|constructor].
  unfold splice_rest in Es. case_if_in Es; [done|]. case_if_in Es; [|done]. injection Es as <-.
  bprop. by apply ok_jump; [|lia|lia].
Qed.

Lemma walk_fd_link_ok cst st cst' p :
  named cst cst' -> fd_name G (name_of cst') ->
  (scope lim <> None -> proc_fd_dir (name_of cst') = true) ->
  length p < length (w_p st) ->
  turn_ok cst st (walk_fd_link G E fs deref_final (name_of cst') p (forallb is_slash p)
                    (w_dir st) (w_links st) outsz).
Proof.
  intros H1 H2 H3 Hp. unfold walk_fd_link.
  pose proof (hand_over_ok cst st cst' p H1 H2 H3) as Hh.
  destruct (proc_fd_dir (name_of cst')) eqn:Efd.
  { destruct (forallb is_slash p) eqn:El; cbn [negb]; [by apply Hh; left|].
    apply ok_step; [|done]. by right; right. }
  assert (Hns : scope lim = None).
  { destruct (scope lim); [|done]. by specialize (H3 ltac:(done)). }
  destruct (forallb is_slash p) eqn:El; cbn [negb orb].
  { destruct (deref_final || w_dir st); [|by apply Hh; left].
    destruct (r_readlink E _); [|by apply Hh; left]. case_if; [|by apply Hh; left].
    destruct (host_dir_guest _ _ _ _); [|constructor]. apply Hh. by left. }
  destruct (r_readlink E (name_of cst')) as [t|] eqn:Er.
  2: { apply Hh. right. split; [done|]. by rewrite Er. }
  destruct (char_is _ 0 SLASH && _) eqn:Ec.
  - destruct (host_dir_guest _ _ _ _) as [gdir|]; [|constructor].
    apply expand_ok. left. by rewrite Hns.
  - apply Hh. right. split; [done|]. rewrite Er. apply andb_false_iff in Ec as [Ec|Ec]; [by left|].
    right. by destruct (r_mode E _).
Qed.

Lemma walk_link_ok cst st cst' p :
  comps cst' -> named cst cst' -> length p < length (w_p st) ->
  turn_ok cst st (walk_link G E fs lim (name_of cst') p (w_dir st) (w_links st)).
Proof.
  intros Hc H1 Hp. assert (Hstay : turn_ok cst st
    (TNext (WState (name_of cst') p (w_dir st) (w_links st)))).
  { apply ok_step; [|done]. by right; right. }
  assert (Hpop : jumped cst (canon_pop (name_of cst'))).
  { right. exists cst'. split; [done|]. by apply pop_name. }
  unfold walk_link. destruct (translate _ _ _ _) as [host|]; [|done].
  destruct (r_readlink E host) as [t|]; [|done].
  destruct (if lim_is lim l_no_symlinks then _ else _) as [link|]; [|constructor].
  case_if; [constructor|]. case_if; [|by apply expand_ok].
  case_if; [constructor|]. apply expand_ok. by left.
Qed.

(** Every component the walk takes off the name is one. *)
Lemma turn_comp p c r :
  drop_while is_slash p = c :: r ->
  slash_free (take_while not_slash (c :: r)) /\ take_while not_slash (c :: r) <> [] /\
  length (drop_while not_slash (c :: r)) < length p.
Proof.
  intros Ed. pose proof (drop_while_head _ _ _ _ Ed) as Hc. split; [apply take_while_Forall|].
  assert (Hn : not_slash c = true) by (unfold not_slash; by rewrite Hc). simpl. rewrite Hn.
  split; [done|]. pose proof (drop_while_length is_slash p) as L. rewrite Ed in L. simpl in L.
  pose proof (drop_while_length not_slash r). lia.
Qed.

Lemma walk_name_ok cst st comp p :
  comps cst -> normal_comp comp -> length p < length (w_p st) ->
  turn_ok cst st (walk_name G E fs lim deref_final start (name_of cst) comp p (forallb is_slash p)
                    (w_dir st) (w_links st) outsz).
Proof.
  intros Hc Hn Hp. unfold walk_name. destruct (canon_push _ _ _) as [s|] eqn:Epush; [|constructor].
  apply push_name in Epush as [-> Hl]; [|done]. case_if; [constructor|].
  destruct (dev_magic _ _ _) as [s|] eqn:Edev; [|constructor].
  assert (Hnamed : exists cst', s = name_of cst' /\ comps cst' /\ named cst cst').
  { apply dev_magic_name in Edev; [|by apply comps_snoc].
    destruct Edev as [->|(Hg & Hh & st' & Hst & -> & Hl')].
    - exists (cst ++ [comp]). split; [done|]. split; [by apply comps_snoc|]. exists comp. auto.
    - exists (cs "proc" :: cs "self" :: cs "fd" :: st'). split; [done|].
      split; [|by exists comp; eauto 10].
      repeat (constructor; [repeat split; [done..|by apply slash_free_cs]|]). done. }
  destruct Hnamed as (cst' & -> & Hc' & Hnm).
  destruct (proc_magic _ _ _ _ _) as [mg c'] eqn:Em.
  destruct mg.
  - apply proc_magic_none in Em as ->. cbn [andb]. case_if; [|by apply walk_link_ok].
    apply ok_step; [by right; right|done].
  - cbn [andb]. case_if; [constructor|]. case_bool_decide as Hs; [constructor|].
    apply expand_ok. left. destruct (scope lim); [by destruct Hs|done].
  - apply proc_magic_host in Em as [-> Hfd]. case_if; [constructor|]. case_if; [constructor|].
    apply walk_fd_link_ok; [done..| |done]. intros Hs. apply andb_false_iff in Eif1 as [E1|E1].
    + by apply negb_false_iff in E1.
    + apply bool_decide_eq_false in E1. destruct (scope lim); [|done]. by destruct E1.
  - repeat (case_if; [constructor|]). constructor.
Qed.

Lemma walk_turn_ok cst st :
  comps cst -> w_canon st = name_of cst ->
  turn_ok cst st (walk_turn G E fs lim deref_final start outsz st).
Proof.
  intros Hc Ec. unfold walk_turn. rewrite Ec.
  destruct (drop_while is_slash (w_p st)) as [|c r] eqn:Ed; [constructor|].
  destruct (turn_comp _ _ _ Ed) as (Hf & Hne & Hl).
  set (comp := take_while not_slash (c :: r)) in *. set (p := drop_while not_slash (c :: r)) in *.
  assert (Hstay : turn_ok cst st (TNext (WState (name_of cst) p (w_dir st) (w_links st)))).
  { apply ok_step; [by left|done]. }
  destruct (streq comp [DOT]) eqn:E1; [done|].
  destruct (streq comp [DOT; DOT]) eqn:E2.
  - case_bool_decide as Hs; [by case_if; [constructor|]|]. case_if; [constructor|].
    rewrite pop_name by done. case_if; [constructor|]. apply ok_step; [|done].
    right. left. done.
  - apply walk_name_ok; [done| |done].
    unfold streq in E1, E2. apply bool_decide_eq_false in E1, E2. done.
Qed.
End Turn.
