(* ===== verification/ResolveProps.v ===== *)
(** * What the dispatcher's path walk guarantees *)

From stdpp Require Import base list strings gmap numbers.
From Stdlib Require Import ZArith Ascii Lia.
From S2P Require Import Prelude Path PathCanon PathFacts PathProps Resolve ResolveFacts.

Open Scope nat_scope.

Section Walks.
Context (G : genv) (E : renv) (fs : cng_fs) (lim : option cng_res_limit) (deref_final : bool).
Context (start : mount) (outsz : nat).

(** The scope, where there is one, is a canonical guest name. *)
Definition scope_ok : Prop := forall s, scope lim = Some s -> canonical s.

Lemma named_comps cst cst' : comps cst -> named G cst cst' -> comps cst'.
Proof.
  intros Hc (c & Hn & _ & [->|(_ & _ & st' & Hst & ->)]); [by apply comps_snoc|].
  repeat (constructor; [repeat split; [done..|by apply slash_free_cs]|]). done.
Qed.

Lemma moved_comps cst cst' : comps cst -> moved G lim cst cst' -> comps cst'.
Proof.
  intros Hc [->|[[_ ->]|H]]; [done|by apply comps_take|by eapply named_comps].
Qed.

Lemma jumped_comps cst canon :
  scope_ok -> comps cst -> jumped G lim cst canon -> exists cst', canon = name_of cst' /\ comps cst'.
Proof.
  intros Hs Hc [->|(cst1 & Hn & ->)].
  - destruct (scope lim) as [s|] eqn:E1; [|exists []; split; [done|constructor]].
    destruct (Hs s E1) as (st & Hst & ->). by exists st.
  - exists (take (length cst1 - 1) cst1). split; [done|]. apply comps_take. by eapply named_comps.
Qed.

(** What is left to do, in components and links. *)
Definition measure (st : wstate) : nat := (40 - w_links st) * CNG_PATH_MAX + length (w_p st).

(** Any property of stacks of components that every turn keeps holds of the
    prefix the walk ends with, and the walk does end. *)
Lemma walk_loop_ind (P : list cstr -> Prop) (Q : wres -> Prop) :
  scope_ok ->
  (forall cst cst', comps cst -> P cst -> moved G lim cst cst' -> P cst') ->
  (forall cst cst', comps cst -> P cst -> jumped G lim cst (name_of cst') -> comps cst' -> P cst') ->
  (forall e w, Q (WErr e w)) ->
  (forall cst cst' p, comps cst -> P cst -> named G cst cst' -> fd_name G (name_of cst') ->
     (scope lim <> None -> proc_fd_dir (name_of cst') = true) ->
     (forallb is_slash p = true \/ not_a_dir E (name_of cst')) ->
     length (name_of cst' ++ p) < outsz -> Q (WOut (name_of cst' ++ p))) ->
  (forall cst st, comps cst -> P cst -> w_canon st = name_of cst ->
     Q (walk_end G fs lim start outsz st)) ->
  forall fuel cst st, comps cst -> P cst -> w_canon st = name_of cst -> measure st < fuel ->
  exists r, walk_loop G E fs lim deref_final fuel start outsz st = Some r /\ Q r.
Proof.
  intros Hs Hm Hj He Ho Hend. induction fuel as [|fuel IH]; intros cst st Hc HP Hw Hf; [lia|].
  cbn [walk_loop]. pose proof (walk_turn_ok G E fs lim deref_final start outsz cst st Hc Hw) as Ht.
  destruct Ht as [|e w|cst' p H1 H2 H3 H4 H5|cst' p H1 H2|canon p H1 H2 H3].
  - eexists. split; [done|]. eapply Hend; eauto.
  - eexists. by split.
  - eexists. split; [done|]. eapply Ho; eauto.
  - apply (IH cst'); [by apply (moved_comps cst cst')|by apply (Hm cst cst')|done|].
    unfold measure in *. cbn [w_links w_p]. lia.
  - destruct (jumped_comps cst canon Hs Hc H1) as (cst' & -> & Hc').
    apply (IH cst'); [done|by apply (Hj cst cst')|done|]. unfold measure in *. cbn [w_links w_p].
    assert (M : 40 - w_links st = S (40 - (w_links st + 1))) by lia.
    rewrite M, Nat.mul_succ_l in Hf. lia.
Qed.

Lemma measure_start base path : length path < CNG_PATH_MAX ->
  measure (WState base path (cng_path_wants_dir path) 0) < walk_fuel.
Proof. intros H. unfold measure, walk_fuel. cbn [w_links w_p]. lia. Qed.
End Walks.

(** ** The whole call *)

Section Call.
Context (G : genv) (E : renv) (fs : cng_fs) (lim : option cng_res_limit) (deref_final : bool).
Hypothesis (Hcwd : canonical (f_cwd fs)).
Hypothesis (Hscope : scope_ok lim).

(** The prefix a lookup starts with. *)
Definition walk_base (path : cstr) : cstr :=
  match scope lim with
  | Some s => s
  | None => if char_is path 0 SLASH then [SLASH]
            else if length (f_cwd fs) =? 0 then [SLASH] else f_cwd fs
  end.

Lemma walk_base_comps path : exists cst, walk_base path = name_of cst /\ comps cst.
Proof.
  assert (R : exists cst, [SLASH] = name_of cst /\ comps cst) by (exists []; split; [done|constructor]).
  unfold walk_base. destruct (scope lim) as [s|] eqn:Es.
  - destruct (Hscope s Es) as (st & Hst & ->). by exists st.
  - case_if; [done|]. case_if; [done|]. destruct Hcwd as (st & Hst & ->). by exists st.
Qed.

(** The call returns, and what it returns is decided by the prefixes it went
    through. *)
Lemma resolve_ind (P : list cstr -> Prop) (Q : wres -> Prop) path outsz :
  (forall cst, walk_base path = name_of cst -> comps cst -> P cst) ->
  (forall cst cst', comps cst -> P cst -> moved G lim cst cst' -> P cst') ->
  (forall cst cst', comps cst -> P cst -> jumped G lim cst (name_of cst') -> comps cst' -> P cst') ->
  (forall e w, Q (WErr e w)) ->
  (forall cst cst' p, comps cst -> P cst -> named G cst cst' -> fd_name G (name_of cst') ->
     (scope lim <> None -> proc_fd_dir (name_of cst') = true) ->
     (forallb is_slash p = true \/ not_a_dir E (name_of cst')) ->
     length (name_of cst' ++ p) < outsz -> Q (WOut (name_of cst' ++ p))) ->
  (forall start cst st, comps cst -> P cst -> w_canon st = name_of cst ->
     Q (walk_end G fs lim start outsz st)) ->
  exists r, cng_resolve_lim G E fs lim deref_final path outsz = Some r /\ Q r.
Proof.
  intros Hb Hm Hj He Ho Hend. unfold cng_resolve_lim. case_if; [by eauto|]. case_if; [by eauto|].
  fold (walk_base path). destruct (_ || _) eqn:El; [by eauto|]. bprop. destruct El as [_ El].
  destruct (walk_base_comps path) as (cst & Eb & Hc).
  eapply (walk_loop_ind G E fs lim deref_final _ outsz P Q Hscope Hm Hj He Ho); [by eauto|exact Hc|
    by apply Hb|exact Eb|by apply measure_start].
Qed.
End Call.

(** C17: Every resolution comes to an end.  Whatever the guest's symbolic links
    say, loops included, the walk of any name under any constraints returns a
    host path or an error within its 41 names of less than 4096 bytes. *)
Theorem resolve_terminates G E fs lim deref_final path outsz :
  canonical (f_cwd fs) -> scope_ok lim ->
  exists r, cng_resolve_lim G E fs lim deref_final path outsz = Some r.
Proof.
  intros Hcwd Hs.
  destruct (resolve_ind G E fs lim deref_final Hcwd Hs (fun _ => True) (fun _ => True) path outsz)
    as (r & H & _); eauto.
Qed.

(** A view in which /a links to /b and /b to /a. *)
Definition loop_env : renv :=
  REnv 1 None (fun _ => None)
    (fun h => if streq h (cs "/data/rootfs/a") then Some (cs "b")
              else if streq h (cs "/data/rootfs/b") then Some (cs "/a") else None)
    (fun _ => inl (-2)%Z) (fun _ => inl (-2)%Z) false (fun _ => None) (fun _ => None).

Lemma resolve_terminates_witness :
  (exists r, cng_resolve_lim genv0 loop_env fs0 None true (cs "a") CNG_PATH_MAX = Some r) /\
  cng_resolve_lim genv0 loop_env fs0 None true (cs "a") CNG_PATH_MAX =
    Some (WErr (- ELOOP) Plain).
Proof.
  split; [|vm_compute; reflexivity].
  apply (resolve_terminates genv0 loop_env fs0 None true (cs "a") CNG_PATH_MAX);
    [apply fs0_wf|by intros s [=]].
Defined.

(** ** Containment *)

Lemma walk_end_out G fs lim start outsz st out :
  walk_end G fs lim start outsz st = WOut out ->
  exists s m, translate_mnt_1 G fs s outsz = Some (out, m) /\
    (s = w_canon st \/ s = w_canon st ++ [SLASH]).
Proof.
  unfold walk_end. case_if; [done|]. case_if; [done|]. unfold translate.
  destruct (translate_mnt_1 _ _ _ _) as [[o m]|] eqn:Et; [|done]. cbn. intros [= <-].
  eexists _, m. split; [exact Et|]. case_if; auto.
Qed.


(** Descriptor 3 is a directory of the view, and /etc/x links to its parent's
    passwd. *)
Definition demo_env : renv :=
  REnv 1 None (fun _ => None)
    (fun h => if streq h (cs "/proc/self/fd/3") then Some (cs "/data/rootfs/home/u")
              else if streq h (cs "/data/rootfs/home/u/x") then Some (cs "/../../etc/passwd")
              else None)
    (fun h => if streq h (cs "/proc/self/fd/3") then inr 16877%Z else inl (-2)%Z)
    (fun _ => inr 16877%Z) false (fun _ => None) (fun _ => None).


(** ** Scoped lookups *)

Section Scoped.
Context (G : genv) (E : renv) (fs : cng_fs) (lim : option cng_res_limit) (deref_final : bool).
Context (S : list cstr).
Hypothesis (HS : comps S) (Hlim : scope lim = Some (name_of S)).
Hypothesis (Hdev : S = [] \/ head S <> Some (cs "dev") \/ g_no_dev G = true).

Definition beneath (cst : list cstr) : Prop := exists st, cst = S ++ st.

Lemma beneath_root cst : S = [] -> beneath cst.
Proof. intros H. exists cst. by rewrite H. Qed.

(** A /dev alias is met only under the root. *)
Lemma alias_beneath st c cst' :
  g_no_dev G = false -> head ((S ++ st) ++ [c]) = Some (cs "dev") -> beneath cst'.
Proof.
  intros Hg Hh. destruct Hdev as [H|[Hd|Hd]]; [by apply beneath_root| |by rewrite Hd in Hg].
  apply beneath_root. destruct S as [|d S']; [done|]. simpl in Hh, Hd. by rewrite Hh in Hd.
Qed.

Lemma named_beneath cst cst' : beneath cst -> named G cst cst' -> beneath cst'.
Proof.
  intros [st ->] (c & _ & _ & [->|(Hg & Hh & st' & _ & ->)]).
  - exists (st ++ [c]). by rewrite app_assoc.
  - by eapply alias_beneath.
Qed.

Lemma take_beneath st : st <> [] -> beneath (take (length (S ++ st) - 1) (S ++ st)).
Proof.
  intros Hne. destruct st as [|x st _] using rev_ind; [done|].
  exists st. rewrite app_assoc, length_app. simpl. by rewrite Nat.add_sub, take_app_length.
Qed.

Lemma moved_beneath cst cst' : comps cst -> beneath cst -> moved G lim cst cst' -> beneath cst'.
Proof.
  intros Hc Hb [->|[[Hs ->]|H]]; [done| |by eapply named_beneath]. destruct Hb as [st ->].
  apply take_beneath. intros ->. rewrite app_nil_r in Hs. by rewrite Hlim in Hs.
Qed.

Lemma jumped_beneath cst cst' :
  comps cst -> beneath cst -> jumped G lim cst (name_of cst') -> comps cst' -> beneath cst'.
Proof.
  intros Hc Hb [Ej|(cst1 & Hn & Ej)] Hc'.
  - rewrite Hlim in Ej. cbn in Ej. apply name_inj in Ej as ->; [|done..]. exists [].
    by rewrite app_nil_r.
  - pose proof (named_comps G cst cst1 Hc Hn) as Hc1.
    apply name_inj in Ej as ->; [|done|by apply comps_take].
    destruct Hb as [st ->]. destruct Hn as (c & _ & _ & [->|(Hg & Hh & st' & _ & ->)]).
    + rewrite <-app_assoc. apply take_beneath. by destruct st.
    + by eapply alias_beneath.
Qed.

Lemma scoped_ok : scope_ok lim.
Proof. intros s Es. rewrite Hlim in Es. injection Es as <-. by exists S. Qed.
End Scoped.

(** C40: A scoped lookup stays in its scope.  Under RESOLVE_BENEATH or
    RESOLVE_IN_ROOT, the file a name is resolved to is one below the scope's
    directory in the guest's view, whatever absolute names, ".." runs and
    symbolic links it goes through: the host path handed over is the translation
    of a name beneath the scope, or is itself one, that of a directory of
    descriptors.  (The scope is not a directory in /dev, or /dev is off.) *)
Theorem scoped_lookup_stays_beneath G E fs lim deref_final S path outsz out :
  canonical (f_cwd fs) -> comps S -> scope lim = Some (name_of S) ->
  S = [] \/ head S <> Some (cs "dev") \/ g_no_dev G = true ->
  cng_resolve_lim G E fs lim deref_final path outsz = Some (WOut out) ->
  exists st, comps (S ++ st) /\
    ((exists s m, translate_mnt_1 G fs s outsz = Some (out, m) /\
        (s = name_of (S ++ st) \/ s = name_of (S ++ st) ++ [SLASH])) \/
     (exists p, out = name_of (S ++ st) ++ p /\ forallb is_slash p = true /\
        proc_fd_dir (name_of (S ++ st)) = true)).
Proof.
  intros Hcwd HS Hlim Hdev H. set (Q := fun r => forall o, r = WOut o -> exists st, comps (S ++ st) /\
    ((exists s m, translate_mnt_1 G fs s outsz = Some (o, m) /\
        (s = name_of (S ++ st) \/ s = name_of (S ++ st) ++ [SLASH])) \/
     (exists p, o = name_of (S ++ st) ++ p /\ forallb is_slash p = true /\
        proc_fd_dir (name_of (S ++ st)) = true))).
  destruct (resolve_ind G E fs lim deref_final Hcwd (scoped_ok lim S HS Hlim) (beneath S) Q path outsz)
    as (r & Hr & HQ).
  - intros cst Eb Hc. unfold walk_base in Eb. rewrite Hlim in Eb.
    apply name_inj in Eb as <-; [|done..]. exists []. by rewrite app_nil_r.
  - intros cst cst' Hc Hb Hm. eapply (moved_beneath G lim S) with (cst := cst); eassumption.
  - intros cst cst' Hc Hb Hj Hc'. eapply (jumped_beneath G lim S) with (cst := cst); eassumption.
  - done.
  - intros cst cst' p Hc Hb Hn Hfd Hs Hp Hl o [= <-].
    assert (Hb' : beneath S cst') by (eapply named_beneath; eassumption). destruct Hb' as [st ->]. exists st.
    split; [by apply (named_comps G cst)|]. right. exists p. rewrite Hlim in Hs.
    specialize (Hs ltac:(done)). split; [done|]. split; [|done].
    destruct Hp as [Hp|[Hp _]]; [done|]. by rewrite Hs in Hp.
  - intros start cst st Hc [st' ->] Ew o Ho. apply walk_end_out in Ho as (s & m & Ht & Hst).
    exists st'. split; [done|]. left. exists s, m. rewrite <-Ew. done.
  - rewrite H in Hr. injection Hr as <-. by apply HQ.
Qed.

Definition lim_in (s : string) (b : bool) : cng_res_limit :=
  ResLimit false false false b (negb b) (Some (cs s)) None false.

Lemma scoped_lookup_stays_beneath_witness :
  let lim := Some (lim_in "/home/u" false) in
  let out := cs "/data/rootfs/home/u/etc/passwd" in
  cng_resolve_lim genv0 demo_env fs0 lim true (cs "../x") CNG_PATH_MAX = Some (WOut out) /\
  exists st, comps ([cs "home"; cs "u"] ++ st) /\
    ((exists s m, translate_mnt_1 genv0 fs0 s CNG_PATH_MAX = Some (out, m) /\
        (s = name_of ([cs "home"; cs "u"] ++ st) \/ s = name_of ([cs "home"; cs "u"] ++ st) ++ [SLASH])) \/
     (exists p, out = name_of ([cs "home"; cs "u"] ++ st) ++ p /\ forallb is_slash p = true /\
        proc_fd_dir (name_of ([cs "home"; cs "u"] ++ st)) = true)).
Proof.
  intros lim out. assert (H : cng_resolve_lim genv0 demo_env fs0 lim true (cs "../x") CNG_PATH_MAX =
    Some (WOut out)) by (vm_compute; reflexivity).
  split; [exact H|].
  apply (scoped_lookup_stays_beneath genv0 demo_env fs0 lim true [cs "home"; cs "u"] (cs "../x")
    CNG_PATH_MAX out); [apply fs0_wf| |reflexivity|right; left; done|exact H].
  repeat (constructor; [repeat split; [done..|by apply slash_free_cs]|]). constructor.
Defined.

(** The exception is real: /dev/fd stands for /proc/self/fd, and the walk goes
    there from a scope of /dev without asking whether it is beneath it.  A lookup
    that must stay beneath /dev reaches the guest's /etc. *)
Theorem scoped_lookup_leaves_dev :
  cng_resolve_lim genv0 demo_env fs0 (Some (lim_in "/dev" true)) true
    (cs "fd/../../../etc/passwd") CNG_PATH_MAX = Some (WOut (cs "/data/rootfs/etc/passwd")).
Proof. vm_compute. reflexivity. Qed.
