(* ===== verification/ResolveRef.v ===== *)
(** * The path walk is the kernel's

    A reference for the resolution of a name, on stacks of components instead of
    bytes: "" and "." are skipped, ".." pops where the walk has physically got to,
    a symbolic link's text takes the place of its name, an absolute one from the
    root of the view, and 40 links are the most that are followed.  The
    dispatcher's byte-level walk computes it. *)

From Stdlib Require Import ZArith Ascii Lia.
From S2P Require Import Prelude Path PathCanon PathFacts PathProps Resolve ResolveFacts ResolveProps.
From stdpp Require Import base numbers strings gmap list.

Open Scope nat_scope.

(** ** The reference *)

(** Whether a name must be a directory: its last component is "" or ".". *)
Definition wants_dir (segs : list cstr) : bool :=
  bool_decide (last segs = Some [] \/ last segs = Some [DOT]).

Definition is_abs (t : cstr) : bool := char_is t 0 SLASH.

(** The stack a name resolves to and whether it must be a directory; too many
    links; a name past PATH_MAX on the way; or one that is not the view's own. *)
Inductive rres := RName (st : list cstr) (want : bool) | RLoop | RLong | RSpecial.

#[export] Instance rres_eq_dec : EqDecision rres.
Proof. solve_decision. Defined.

Section Reference.
Context (lnk : list cstr -> option cstr).  (* the text of the link at a name *)
Context (special : list cstr -> bool).
Context (deref_final : bool).

Fixpoint ref_walk (fuel : nat) (segs st : list cstr) (want : bool) (n : nat) : option rres :=
  match fuel with
  | O => None
  | S fuel =>
      match segs with
      | [] => Some (RName st want)
      | s :: segs =>
          if bool_decide (s = [] \/ s = [DOT]) then ref_walk fuel segs st want n
          else if bool_decide (s = DOTDOT) then ref_walk fuel segs (take (length st - 1) st) want n
          else if CNG_PATH_MAX <=? length (name_of (st ++ [s])) then Some RLong
          else if special (st ++ [s]) then Some RSpecial
          else if forallb (fun s => bool_decide (s = [])) segs && negb deref_final && negb want
          then ref_walk fuel segs (st ++ [s]) want n
          else match lnk (st ++ [s]) with
               | None => ref_walk fuel segs (st ++ [s]) want n
               | Some t =>
                   if 40 <? n + 1 then Some RLoop
                   else if CNG_PATH_MAX <=? length t + length (render segs) then Some RLong
                   else
                     let segs := split_slash t ++ segs in
                     ref_walk fuel segs (if is_abs t then [] else st) (wants_dir segs) (n + 1)
               end
      end
  end.

(** A component or a link per unit: 41 names of at most 4096 components. *)
Definition ref_fuel : nat := 41 * S CNG_PATH_MAX.

Lemma split_length p : length (split_slash p) <= S (length p).
Proof.
  induction p as [|c p IH]; [done|]. simpl. destruct (is_slash c); simpl; [lia|].
  pose proof (split_slash_nonempty p). destruct (split_slash p); [done|]. cbn [length] in *. lia.
Qed.

Lemma render_length segs : length segs <= length (render segs).
Proof.
  induction segs as [|s segs IH]; [done|]. unfold render in *. simpl. rewrite length_app. lia.
Qed.

Lemma ref_total fuel segs st want n :
  (40 - n) * S CNG_PATH_MAX + length segs < fuel ->
  exists r, ref_walk fuel segs st want n = Some r.
Proof.
  revert segs st want n. induction fuel as [|fuel IH]; intros segs st want n Hf; [by apply Nat.nlt_0_r in Hf|].
  cbn [ref_walk]. destruct segs as [|s segs]; [by eauto|]. cbn [length] in Hf.
  case_if; [apply IH; lia|]. case_if; [apply IH; lia|]. case_if; [by eauto|].
  case_if; [by eauto|]. case_if; [apply IH; lia|].
  destruct (lnk _) as [t|]; [|apply IH; lia].
  destruct (Nat.ltb_spec 40 (n + 1)); [by eauto|].
  destruct (Nat.leb_spec CNG_PATH_MAX (length t + length (render segs))) as [|Hl]; [by eauto|].
  apply IH. rewrite length_app. pose proof (split_length t). pose proof (render_length segs).
  replace (40 - n) with (S (40 - (n + 1))) in Hf by lia. rewrite Nat.mul_succ_l in Hf. lia.
Qed.
End Reference.

(** ** Components and bytes *)

Lemma wants_rev_true r : wants_dir_rev r true = true.
Proof. induction r as [|c r IH]; simpl; [done|]. repeat case_if; done. Qed.

Lemma split_snoc q c :
  not_slash c = true ->
  exists l s, split_slash q = l ++ [s] /\ split_slash (q ++ [c]) = l ++ [s ++ [c]].
Proof.
  intros Hc. unfold not_slash in Hc. apply negb_true_iff in Hc.
  induction q as [|x q (l & s & E1 & E2)].
  - exists [], []. simpl. by rewrite Hc.
  - simpl. rewrite E1, E2. destruct (is_slash x).
    + by exists ([] :: l), s.
    + destruct l as [|a l]; simpl; [by exists [], (x :: s)|by exists ((x :: a) :: l), s].
Qed.

(** The last component is empty exactly at the start and after a slash. *)
Lemma split_last_nil q :
  last (split_slash q) = Some [] <-> match reverse q with [] => True | c :: _ => is_slash c = true end.
Proof.
  destruct q as [|c q _] using rev_ind; [by split|]. rewrite reverse_app. simpl.
  destruct (is_slash c) eqn:Hc.
  - apply is_slash_true in Hc as ->. rewrite (split_slash_app q []). simpl. by rewrite last_snoc.
  - assert (Hn : not_slash c = true) by (unfold not_slash; by rewrite Hc).
    destruct (split_snoc q c Hn) as (l & s & _ & ->). rewrite last_snoc. split; [|done].
    intros [= H]. by destruct s.
Qed.

Lemma wants_dir_split p : p <> [] -> cng_path_wants_dir p = wants_dir (split_slash p).
Proof.
  intros Hp. destruct p as [|c q _] using rev_ind; [done|]. clear Hp.
  unfold cng_path_wants_dir, wants_dir. rewrite reverse_app. simpl.
  destruct (is_slash c) eqn:Hc.
  - rewrite wants_rev_true. symmetry. apply bool_decide_eq_true. left.
    apply is_slash_true in Hc as ->. rewrite (split_slash_app q []). simpl. by rewrite last_snoc.
  - assert (Hn : not_slash c = true) by (unfold not_slash; by rewrite Hc).
    destruct (split_snoc q c Hn) as (l & s & E1 & ->). rewrite last_snoc.
    pose proof (split_last_nil q) as Hl. rewrite E1, last_snoc in Hl.
    destruct (Ascii.eqb_spec c DOT) as [->|Hd]; cbn [andb].
    + destruct (reverse q) as [|d r] eqn:Er; cbn.
      * symmetry. apply bool_decide_eq_true. right. destruct Hl as [_ Hl].
        specialize (Hl I). by injection Hl as ->.
      * destruct (is_slash d).
        -- rewrite wants_rev_true. symmetry. apply bool_decide_eq_true. right.
           destruct Hl as [_ Hl]. specialize (Hl eq_refl). by injection Hl as ->.
        -- symmetry. apply bool_decide_eq_false. intros [H|H]; [by destruct s|].
           destruct s as [|x [|? ?]]; [|discriminate H..]. by destruct Hl as [Hl _]; discriminate Hl.
    + symmetry. apply bool_decide_eq_false. intros [H|H]; [by destruct s|].
      destruct s as [|x [|? ?]]; cbn in H; congruence.
Qed.

(** The first component of a name, and what is left of it. *)
Lemma split_first p s segs :
  split_slash p = s :: segs ->
  slash_free s /\ p = s ++ render segs /\ (boundary (render segs)).
Proof.
  revert s segs. induction p as [|c p IH]; intros s segs H.
  - injection H as <- <-. split; [constructor|]. split; [done|]. by left.
  - simpl in H. destruct (is_slash c) eqn:Hc.
    + injection H as <- <-. apply is_slash_true in Hc as ->. split; [constructor|].
      rewrite render_split. split; [done|]. right. by exists p.
    + pose proof (split_slash_nonempty p) as Hne. destruct (split_slash p) as [|s' segs'] eqn:Ep; [done|].
      injection H as <- <-. destruct (IH s' segs' eq_refl) as (H1 & H2 & H3).
      split; [|split; [by rewrite H2 at 1|done]]. constructor; [|done]. unfold not_slash. by rewrite Hc.
Qed.

Lemma split_render segs : Forall slash_free segs -> split_slash (render segs) = [] :: segs.
Proof.
  intros H. destruct segs as [|s segs]; [done|]. by apply split_render_nonempty.
Qed.

Lemma splice_split t segs :
  Forall slash_free segs -> split_slash (t ++ render segs) = split_slash t ++ segs.
Proof.
  intros H. destruct segs as [|s segs]; [by rewrite !app_nil_r|].
  destruct (render_head (s :: segs) ltac:(done)) as [r Er]. rewrite Er, split_slash_app.
  f_equal. pose proof (split_render (s :: segs) H) as Es. rewrite Er in Es. simpl in Es. by injection Es.
Qed.

Lemma all_slashes segs : Forall slash_free segs ->
  forallb is_slash (render segs) = forallb (fun s => bool_decide (s = [])) segs.
Proof.
  induction 1 as [|s segs Hs _ IH]; [done|]. unfold render in *. simpl. rewrite forallb_app, IH.
  destruct Hs as [|c s Hc _]; [done|]. unfold not_slash in Hc. apply negb_true_iff in Hc.
  simpl. by rewrite Hc.
Qed.

(** ** The walk computes the reference *)

Section Refine.
Context (G : genv) (E : renv) (fs : cng_fs) (deref_final : bool) (start : mount) (outsz : nat).
Hypothesis (Hl2s : r_l2s E = false).
Hypothesis (Hlink : forall h, r_readlink E h <> Some []).

(** The link at a name, as the kernel reports it through the translation. *)
Definition view_link (st : list cstr) : option cstr :=
  host ← translate G fs (name_of st) CNG_PATH_MAX;
  take (CNG_PATH_MAX - 1) <$> r_readlink E host.

(** The names of /proc and /dev that stand for something else. *)
Definition view_special (st : list cstr) : bool :=
  negb (bool_decide (dev_magic G (name_of st) CNG_PATH_MAX = Some (name_of st)) &&
        match fst (proc_magic G E fs (name_of st) CNG_PATH_MAX) with MagicNone => true | _ => false end).

(** What is answered for a name: its translation, with the slash that asks for a
    directory. *)
Definition answer (r : rres) : wres :=
  match r with
  | RName st want =>
      let slash := want && negb (bool_decide (st = [])) in
      let name := name_of st ++ if slash then [SLASH] else [] in
      if slash && (CNG_PATH_MAX <=? length name) then WErr (- ENAMETOOLONG) Plain
      else match translate G fs name outsz with
           | Some out => WOut out
           | None => WErr (- ENAMETOOLONG) Plain
           end
  | RLoop => WErr (- ELOOP) Plain
  | RLong | RSpecial => WErr (- ENAMETOOLONG) Plain
  end.

Notation walk := (walk_loop G E fs None deref_final).
Notation reference := (ref_walk view_link view_special deref_final).

Lemma name_last st : comps st ->
  negb (length (name_of st) =? 0) && negb (char_is (name_of st) (length (name_of st) - 1) SLASH) =
  negb (bool_decide (st = [])).
Proof.
  intros Hc. destruct (decide (st = [])) as [->|Hne]; [by rewrite bool_decide_eq_true_2|].
  rewrite (bool_decide_eq_false_2 (st = [])) by done.
  assert (Hcn : canonical (name_of st)) by (by exists st).
  rewrite canonical_last; [|done|by intros Hr%name_root]. cbn [negb]. rewrite andb_true_r.
  pose proof (canonical_nonempty _ Hcn). by destruct (length (name_of st)); [lia|].
Qed.

Lemma walk_end_answers st p want n : comps st ->
  walk_end G fs None start outsz (WState (name_of st) p want n) = answer (RName st want).
Proof.
  intros Hc. unfold walk_end, answer. cbn [w_canon w_dir xdev_hit lim_is andb].
  assert (Hn : want && negb (length (name_of st) =? 0) &&
    negb (char_is (name_of st) (length (name_of st) - 1) SLASH) = want && negb (bool_decide (st = [])))
    by (by rewrite <-andb_assoc, name_last).
  rewrite Hn. destruct (want && negb (bool_decide (st = []))); [|by rewrite app_nil_r].
  rewrite length_app. cbn [andb length].
  replace (CNG_PATH_MAX <=? length (name_of st) + 1) with (CNG_PATH_MAX <? length (name_of st) + 2)
    by (apply eq_true_iff_eq; rewrite Nat.ltb_lt, Nat.leb_le; lia). done.
Qed.

Lemma walk_slash fuel canon p want n :
  walk fuel start outsz (WState canon (SLASH :: p) want n) =
  walk fuel start outsz (WState canon p want n).
Proof. by destruct fuel. Qed.

Lemma walk_empty fuel st want n : comps st ->
  walk (S fuel) start outsz (WState (name_of st) [] want n) = Some (answer (RName st want)).
Proof. intros Hc. by rewrite <-(walk_end_answers st [] want n Hc). Qed.

(** A component of the name, at the walk's own position. *)
Lemma walk_comp fuel st s segs want n :
  slash_free s -> boundary (render segs) -> s <> [] ->
  walk (S fuel) start outsz (WState (name_of st) (s ++ render segs) want n) =
  match
    (if streq s [DOT] then TNext (WState (name_of st) (render segs) want n)
     else if streq s [DOT; DOT] then TNext (WState (canon_pop (name_of st)) (render segs) want n)
     else walk_name G E fs None deref_final start (name_of st) s (render segs)
            (forallb is_slash (render segs)) want n outsz)
  with
  | TStop r => Some r
  | TEnd => Some (walk_end G fs None start outsz (WState (name_of st) (s ++ render segs) want n))
  | TNext st => walk fuel start outsz st
  end.
Proof.
  intros Hs Hb Hne. cbn [walk_loop]. unfold walk_turn. cbn [w_p w_canon w_dir w_links].
  assert (Ed : drop_while is_slash (s ++ render segs) = s ++ render segs).
  { destruct Hs as [|c s Hc _]; [done|]. simpl. unfold not_slash in Hc.
    apply negb_true_iff in Hc. by rewrite Hc. }
  rewrite Ed. destruct (s ++ render segs) as [|c r] eqn:Esr; [by destruct s|]. rewrite <-Esr.
  rewrite take_while_app, drop_while_app by done.
  assert (Eb : take_while not_slash (render segs) = [] /\ drop_while not_slash (render segs) = render segs)
    by (by destruct Hb as [->|[r' ->]]).
  destruct Eb as [-> ->]. rewrite app_nil_r. done.
Qed.

Lemma push_exact st c : comps st ->
  canon_push (name_of st) CNG_PATH_MAX c =
  if CNG_PATH_MAX <=? length (name_of (st ++ [c])) then None else Some (name_of (st ++ [c])).
Proof.
  intros Hc. destruct (canon_push _ _ _) as [s|] eqn:Ep.
  - apply push_name in Ep as [-> Hl]; [|done]. by destruct (Nat.leb_spec CNG_PATH_MAX (length (name_of (st ++ [c])))); [lia|].
  - unfold canon_push in Ep. case_if_in Ep; [|done]. bprop.
    destruct (Nat.leb_spec CNG_PATH_MAX (length (name_of (st ++ [c])))) as [|Hl]; [done|exfalso].
    rewrite name_of_render in Hl by (by destruct st). rewrite render_snoc, length_app in Hl. simpl in Hl.
    case_if_in Eif.
    + bprop. lia.
    + destruct (decide (st = [])) as [->|Hne]; [done|]. rewrite name_of_render in Eif by done. lia.
Qed.

Lemma splice_exact t q :
  splice_rest CNG_PATH_MAX t q = if CNG_PATH_MAX <=? length t + length q then None else Some (t ++ q).
Proof.
  unfold splice_rest. rewrite length_app.
  destruct (Nat.leb_spec CNG_PATH_MAX (length t + length q)), (Nat.leb_spec CNG_PATH_MAX (length t)),
    (Nat.leb_spec (CNG_PATH_MAX - length t) (length q)); try lia; try done.
  cbn [orb]. by destruct (Nat.ltb_spec (length t + length q) CNG_PATH_MAX); [|lia].
Qed.

(** A name of the view's own: the walk goes on from it, or from its link's text. *)
Lemma name_step st s segs want n :
  comps st -> Forall slash_free segs -> view_special (st ++ [s]) = false -> normal_comp s ->
  walk_name G E fs None deref_final start (name_of st) s (render segs)
    (forallb is_slash (render segs)) want n outsz =
  if CNG_PATH_MAX <=? length (name_of (st ++ [s])) then TStop (WErr (- ENAMETOOLONG) Plain)
  else if forallb (fun s => bool_decide (s = [])) segs && negb deref_final && negb want
  then TNext (WState (name_of (st ++ [s])) (render segs) want n)
  else match view_link (st ++ [s]) with
       | None => TNext (WState (name_of (st ++ [s])) (render segs) want n)
       | Some t =>
           if 40 <? n + 1 then TStop (WErr (- ELOOP) Plain)
           else if CNG_PATH_MAX <=? length t + length (render segs)
           then TStop (WErr (- ENAMETOOLONG) Plain)
           else TNext (WState (name_of (if is_abs t then [] else st)) (t ++ render segs)
                         (wants_dir (split_slash t ++ segs)) (n + 1))
       end.
Proof.
  intros Hc Hsegs Hsp Hs. unfold walk_name. rewrite push_exact by done. case_if; [done|].
  cbn [xdev_hit lim_is andb]. unfold view_special in Hsp. apply negb_false_iff, andb_true_iff in Hsp as [Hd Hm].
  apply bool_decide_eq_true in Hd. rewrite Hd.
  destruct (proc_magic _ _ _ _ _) as [mg c'] eqn:Em. cbn [fst] in Hm. destruct mg; try done.
  apply proc_magic_none in Em as ->. cbn [andb]. rewrite all_slashes by done. case_if; [done|].
  unfold walk_link, view_link, expand. destruct (translate _ _ _ _) as [host|]; [|done].
  cbn [mbind option_bind]. destruct (r_readlink E host) as [t|] eqn:Er; [|done].
  cbn [fmap option_fmap option_map lim_is scope]. rewrite Hl2s. set (t' := take _ t).
  assert (Hne : t' ++ render segs <> []).
  { subst t'. destruct t as [|x t]; [by apply Hlink in Er|]. done. }
  rewrite splice_exact, pop_name by (by apply comps_snoc).
  rewrite length_app. cbn [length]. rewrite Nat.add_sub, take_app_length.
  rewrite <-splice_split, <-(wants_dir_split _ Hne) by done. unfold is_abs.
  case_if; [done|]. case_if; by destruct (CNG_PATH_MAX <=? length t' + length (render segs)).
Qed.

(** What is left of a name, in bytes and in components. *)
Definition left_of (p : cstr) (segs : list cstr) : Prop :=
  split_slash p = segs \/ split_slash p = [] :: segs.

Lemma left_slash p segs :
  left_of p ([] :: segs) ->
  (p = [] /\ segs = []) \/ exists p', p = SLASH :: p' /\ left_of p' segs.
Proof.
  assert (N : forall p segs, split_slash p = [] :: segs ->
    (p = [] /\ segs = []) \/ exists p', p = SLASH :: p' /\ split_slash p' = segs).
  { intros q l H. destruct (split_first _ _ _ H) as (_ & -> & _). destruct l as [|s l]; [by left|].
    right. destruct (render_head (s :: l) ltac:(done)) as [r Er]. cbn [app] in *. rewrite Er in *.
    exists r. split; [done|]. simpl in H. by injection H. }
  intros [H|H]; apply N in H as [[-> E']|(p' & -> & H)]; [by auto|by right; exists p'; split; [|left]|done|].
  right. exists p'. split; [done|]. by right.
Qed.

Lemma left_comp p s segs :
  left_of p (s :: segs) -> s <> [] ->
  slash_free s /\ Forall slash_free segs /\ boundary (render segs) /\
  (p = s ++ render segs \/ p = SLASH :: s ++ render segs).
Proof.
  assert (N : forall p s segs, split_slash p = s :: segs ->
    slash_free s /\ Forall slash_free segs /\ boundary (render segs) /\ p = s ++ render segs).
  { intros q s' l H. destruct (split_first _ _ _ H) as (H1 & H2 & H3).
    pose proof (split_slash_Forall q) as Hf. rewrite H in Hf. inversion_clear Hf. done. }
  intros [H|H] Hs.
  - apply N in H as (? & ? & ? & ->). auto.
  - pose proof (or_introl H : left_of p ([] :: s :: segs)) as Hl.
    apply left_slash in Hl as [[_ ?]|(p' & -> & _)]; [done|]. simpl in H. injection H as H.
    apply N in H as (? & ? & ? & ->). auto.
Qed.

Lemma left_render segs : Forall slash_free segs -> left_of (render segs) segs.
Proof. intros H. right. by apply split_render. Qed.

(** One ordinary component, given that the walk refines the reference from what
    is left of the name. *)
Lemma name_refines rf segs st s want n r fuel :
  (forall segs st p want n fuel, comps st -> left_of p segs ->
     reference rf segs st want n = Some r -> r <> RSpecial ->
     measure (WState (name_of st) p want n) < fuel ->
     walk fuel start outsz (WState (name_of st) p want n) = Some (answer r)) ->
  comps st -> normal_comp s -> Forall slash_free segs -> r <> RSpecial ->
  measure (WState (name_of st) (render segs) want n) < fuel ->
  (if CNG_PATH_MAX <=? length (name_of (st ++ [s])) then Some RLong
   else if view_special (st ++ [s]) then Some RSpecial
   else if forallb (fun s => bool_decide (s = [])) segs && negb deref_final && negb want
   then reference rf segs (st ++ [s]) want n
   else match view_link (st ++ [s]) with
        | None => reference rf segs (st ++ [s]) want n
        | Some t =>
            if 40 <? n + 1 then Some RLoop
            else if CNG_PATH_MAX <=? length t + length (render segs) then Some RLong
            else reference rf (split_slash t ++ segs) (if is_abs t then [] else st)
                   (wants_dir (split_slash t ++ segs)) (n + 1)
        end) = Some r ->
  match walk_name G E fs None deref_final start (name_of st) s (render segs)
          (forallb is_slash (render segs)) want n outsz with
  | TStop w => Some w
  | TEnd => Some (walk_end G fs None start outsz (WState (name_of st) (s ++ render segs) want n))
  | TNext st => walk fuel start outsz st
  end = Some (answer r).
Proof.
  intros IH Hc Hn Hsegs Hr Hm Href. pose proof (left_render segs Hsegs) as Hl.
  destruct (CNG_PATH_MAX <=? length (name_of (st ++ [s]))) eqn:Elong.
  { injection Href as <-. unfold walk_name. by rewrite push_exact, Elong by done. }
  destruct (view_special (st ++ [s])) eqn:Esp; [by injection Href as <-|].
  rewrite name_step, Elong by done.
  assert (Hstay : reference rf segs (st ++ [s]) want n = Some r ->
    walk fuel start outsz (WState (name_of (st ++ [s])) (render segs) want n) = Some (answer r))
    by (intros H; eapply IH; eauto using comps_snoc).
  case_if; [by apply Hstay|]. destruct (view_link _) as [t|]; [|by apply Hstay].
  destruct (Nat.ltb_spec 40 (n + 1)) as [|Hn40]; [by injection Href as <-|].
  destruct (Nat.leb_spec CNG_PATH_MAX (length t + length (render segs))) as [|Hlen];
    [by injection Href as <-|].
  eapply IH; [|left; by apply splice_split|exact Href|done|].
  - case_if; [constructor|done].
  - unfold measure in *. cbn [w_p w_links] in *. rewrite length_app.
    replace (40 - n) with (S (40 - (n + 1))) in Hm by lia. rewrite Nat.mul_succ_l in Hm. lia.
Qed.

(** The walk returns what the reference resolves the name to. *)
Lemma walk_refines rf segs st p want n r fuel :
  comps st -> left_of p segs -> reference rf segs st want n = Some r -> r <> RSpecial ->
  measure (WState (name_of st) p want n) < fuel ->
  walk fuel start outsz (WState (name_of st) p want n) = Some (answer r).
Proof.
  revert segs st p want n fuel.
  induction rf as [|rf IH]; intros segs st p want n fuel Hc Hl Href Hr Hf; [done|].
  destruct fuel as [|fuel]; [lia|]. cbn [ref_walk] in Href. destruct segs as [|s segs].
  { injection Href as <-. destruct Hl as [Hl|Hl]; [by destruct (split_slash_nonempty p)|].
    destruct (split_first _ _ _ Hl) as (_ & -> & _).
    by apply walk_empty. }
  destruct (decide (s = [])) as [->|Hs].
  { rewrite bool_decide_eq_true_2 in Href by auto.
    apply left_slash in Hl as [[-> ->]|(p' & -> & Hl)].
    - destruct rf; [done|]. injection Href as <-. by apply walk_empty.
    - rewrite walk_slash. eapply IH; [done|exact Hl|exact Href|done|]. unfold measure in *. cbn [w_p w_links length] in *. lia. }
  apply left_comp in Hl as (Hsf & Hsegs & Hb & Hp); [|done].
  assert (Hw : walk (S fuel) start outsz (WState (name_of st) p want n) =
    walk (S fuel) start outsz (WState (name_of st) (s ++ render segs) want n))
    by (destruct Hp as [->| ->]; [done|by rewrite walk_slash]).
  assert (Hm : measure (WState (name_of st) (render segs) want n) < fuel).
  { unfold measure in *. cbn [w_p w_links] in *. destruct s; [done|].
    destruct Hp as [->| ->]; cbn [length app] in Hf; rewrite length_app in Hf; lia. }
  rewrite Hw, walk_comp by done. clear Hw Hp Hf. pose proof (left_render segs Hsegs) as Hl.
  destruct (streq s [DOT]) eqn:Ed.
  { apply streq_true in Ed as ->. rewrite bool_decide_eq_true_2 in Href by auto. by eapply IH. }
  rewrite bool_decide_eq_false_2 in Href by (intros [->| ->]; done).
  destruct (streq s [DOT; DOT]) eqn:Edd.
  { apply streq_true in Edd as ->. rewrite bool_decide_eq_true_2 in Href by done.
    rewrite pop_name by done. eapply IH; eauto using comps_take. }
  rewrite bool_decide_eq_false_2 in Href by (intros ->; done).
  assert (Hn : normal_comp s) by (repeat split; [done|intros ->; done|intros ->; done|done]).
  eapply name_refines; eauto.
Qed.
End Refine.


(** A relative link to a directory, an absolute one out of it, and a file. *)
Definition links_env : renv :=
  REnv 1 None (fun _ => None)
    (fun h => if streq h (cs "/data/rootfs/home/u/d") then Some (cs "../../etc/x/.")
              else if streq h (cs "/data/rootfs/etc/x") then Some (cs "/var//lib")
              else None)
    (fun _ => inl (-2)%Z) (fun _ => inl (-2)%Z) false (fun _ => None) (fun _ => None).

