(* ===== verification/L2sName.v ===== *)
(** * Names of the hard-link emulation (src/src/monitor/l2s.c)

    A group of emulated hard links keeps its file under a hidden name
    ".l2s.<ino>" and its link count in the name of a marker
    ".l2s.<ino>.<count>"; proot's groups have names of their own.  Modelled here:
    the parsers, the builder, the tests on paths; and that the exact parsers
    accept just what the builder writes. *)

From Stdlib Require Import ZArith Ascii String Lia.
From S2P Require Import Prelude Path PathCanon PathFacts Fmt FmtProps ProcStat Resolve.
From stdpp Require Import base numbers strings gmap list.

Open Scope Z_scope.

Definition ULL_MAX : Z := 2 ^ 64 - 1.

Definition L2S_PREFIX : cstr := cs ".l2s.".
Definition L2S_PREFIX_LEN : nat := 5.

(** ** Numbers *)

(** The digits from [p] on, added to [v]; whether the value left 64 bits; and
    what follows. *)
Fixpoint u64_run (p : cstr) (v : Z) (wide : bool) : bool * Z * cstr :=
  match p with
  | c :: p' =>
      if is_dig c then
        let d := digit_val c in
        if (ULL_MAX - d) / 10 <? v then u64_run p' v true else u64_run p' (v * 10 + d) wide
      else (wide, v, p)
  | [] => (wide, v, [])
  end.

(** [None] for no digits. *)
Definition parse_u64 (p : cstr) : option (bool * Z * cstr) :=
  match p with
  | c :: _ => if is_dig c then Some (u64_run p 0 false) else None
  | [] => None
  end.

(** [want]: the caller asks for the number, not only for the grammar. *)
Definition parse_field (p : cstr) (want : bool) : option (Z * cstr) :=
  '(wide, v, rest) ← parse_u64 p;
  if negb wide || negb want then Some (v, rest) else None.

Definition parse_data (name : cstr) (want : bool) : option Z :=
  if negb (strneq name L2S_PREFIX L2S_PREFIX_LEN) then None
  else
    '(v, rest) ← parse_field (drop L2S_PREFIX_LEN name) want;
    if at_end rest 0 then Some v else None.

Definition parse_marker (name : cstr) (want : bool) : option (Z * Z) :=
  if negb (strneq name L2S_PREFIX L2S_PREFIX_LEN) then None
  else
    '(v, rest) ← parse_field (drop L2S_PREFIX_LEN name) want;
    if negb (char_is rest 0 DOT) then None
    else
      '(c, rest) ← parse_field (drop 1 rest) want;
      if at_end rest 0 then Some (v, c) else None.

Definition cng_l2s_hidden (name : cstr) : bool :=
  bool_decide (is_Some (parse_data name false)) || bool_decide (is_Some (parse_marker name false)).

(** ** Paths *)

Definition l2s_basename (path : cstr) : cstr := reverse (take_while not_slash (reverse path)).

Definition l2s_dirname (path : cstr) (sz : nat) : cstr :=
  match drop_while not_slash (reverse path) with
  | [] | [_] => fst (strlcpy [SLASH] sz)
  | _ :: r => take (sz - 1) (reverse r)
  end.

(** ** The builder *)

(** What [put_u64] appends; the position moves by all of it, whatever is
    stored. *)
Definition put_u64 (v : Z) (width : nat) : cstr :=
  replicate (width - length (dec v)) "0"%char ++ dec v.

Definition parse_data_exact (name : cstr) : option Z :=
  v ← parse_data name true;
  if streq (put_u64 v 1) (drop L2S_PREFIX_LEN name) then Some v else None.

Definition parse_marker_exact (name : cstr) : option (Z * Z) :=
  '(v, c) ← parse_marker name true;
  let tmp := put_u64 v 1 in
  let tmp := if (length tmp <? 47)%nat then tmp ++ [DOT] else tmp in
  let tmp := tmp ++ put_u64 c 4 in
  if (47 <? length tmp)%nat then None
  else if streq tmp (drop L2S_PREFIX_LEN name) then Some (v, c) else None.

(** [None] for -ENAMETOOLONG; a count only where there is one. *)
Definition build_name (sz : nat) (dir : cstr) (ino : Z) (count : option Z) : option cstr :=
  let cap := (sz - 1)%nat in
  let dl := length dir in
  let need_sep := negb (negb (dl =? 0)%nat && char_is dir (dl - 1) SLASH) in
  if (cap <? dl)%nat then None
  else
    let out := if need_sep && (dl <? cap)%nat then dir ++ [SLASH] else dir in
    let out := out ++ L2S_PREFIX in
    if (cap <=? length out)%nat then None
    else
      let out := out ++ put_u64 ino 1 in
      let out := match count with
                 | Some c => (if (length out <? cap)%nat then out ++ [DOT] else out) ++ put_u64 c 4
                 | None => out
                 end in
      if (cap <? length out)%nat then None else Some out.

(** ** Which paths can be the emulation's *)

(** Absolute, and no component is empty, "." or "..". *)
Definition l2s_canonical (p : cstr) : bool :=
  match p with
  | c :: r =>
      is_slash c &&
      forallb (fun s => negb (bool_decide (s = [] \/ s = [DOT] \/ s = DOTDOT))) (split_slash r)
  | [] => false
  end.

Definition l2s_store_shaped (p : cstr) : bool :=
  let at_ := (length p - length (l2s_basename p))%nat in
  (6 <=? at_)%nat && strneq (drop (at_ - 6) p) (cs "/.l2s/") 6.

Definition l2s_under_proc (p : cstr) : bool :=
  strneq p (cs "/proc") 5 && at_boundary p 5.

(** ** proot's names *)

Definition PR_MAX_COUNT : Z := 9999.
Definition PR_TMP_SUFFIX : cstr := cs ".cng".

Definition pr_prefix_len (name : cstr) : nat :=
  if strneq name (cs ".l2s.") 5 then 5
  else if strneq name (cs ".proot.l2s.") 11 then 11 else 0.

Definition pr_four (s : cstr) : bool :=
  forallb (fun i => match s !! i with Some c => is_dig c | None => false end) (seq 0 4).

Definition pr_is_ind (name : cstr) : bool :=
  let pl := pr_prefix_len name in
  let n := length name in
  negb (pl =? 0)%nat && (pl + 1 + 4 <=? n)%nat && (n <=? 240)%nat && pr_four (drop (n - 4) name).

(** The count in a data name of the indirection [ind], a zero read as one. *)
Definition pr_data_of (dn ind : cstr) : option Z :=
  let il := length ind in
  if negb (strneq dn ind il) || negb (char_is dn il DOT) || negb (pr_four (drop (il + 1) dn))
     || negb (at_end dn (il + 5))
  then None
  else
    let c := foldl (fun c x => c * 10 + digit_val x) 0 (take 4 (drop (il + 1) dn)) in
    Some (if c =? 0 then 1 else c).

Definition pr_is_data (dn : cstr) : bool :=
  let n := length dn in
  if (n <? 6)%nat || (256 <=? n - 5)%nat then false
  else
    let ind := take (n - 5) dn in
    pr_is_ind ind && bool_decide (is_Some (pr_data_of dn ind)).
