(* ===== verification/L2s.v ===== *)
(** * The hard-link emulation (src/src/monitor/l2s.c)

    Every path is a host path.  The host's files are a tree keyed by path; the
    system calls the emulation makes on it are functions of a small state monad,
    and each of them may fail: the errors of the calls to come are a list in the
    state, used up one by one, an entry that is not negative (and the end of the
    list) standing for a call that is not refused.  A file has an inode, a mode
    and contents.  The update lock is a file of the store; the processes that
    wait for it are not modelled, so an operation runs from its lock to its
    unlock. *)

From Stdlib Require Import ZArith Ascii String Lia.
From S2P Require Import Prelude Path PathCanon PathFacts Fmt ProcStat Resolve L2sName.
From stdpp Require Import base numbers strings gmap list.

Open Scope Z_scope.

Definition EPERM := 1.
Definition EINTR := 4.
Definition EIO := 5.
Definition EEXIST := 17.
Definition EISDIR := 21.
Definition EINVAL := 22.
Definition EROFS := 30.
Definition EMLINK := 31.
Definition ENOSYS := 38.
Definition ENOTEMPTY := 39.

Definition S_IFMT := 61440.
Definition S_IFREG := 32768.

(** ** The host's files *)

Inductive node :=
  | NDir
  | NLink (text : cstr)
  | NNode (ino mode : Z) (body : cstr).

#[export] Instance node_eq_dec : EqDecision node.
Proof. solve_decision. Defined.

Definition is_lnk (x : node) : bool := match x with NLink _ => true | _ => false end.
Definition is_dir (x : node) : bool := match x with NDir => true | _ => false end.
Definition is_reg (x : node) : bool :=
  match x with NNode _ m _ => Z.land m S_IFMT =? S_IFREG | _ => false end.
Definition is_data (x : node) : bool := negb (is_dir x) && negb (is_lnk x).

Record host := Host {
  h_tree : gmap cstr node;
  h_faults : list Z;
  h_next : Z }.           (* the inode number of the next new file *)

Definition M (A : Type) : Type := host -> A * host.
Definition ret {A} (a : A) : M A := fun h => (a, h).
Definition mthen {A B} (m : M A) (k : A -> M B) : M B := fun h => let '(a, h) := m h in k a h.

Declare Scope l2s_scope.
Notation "x <- m ;; k" := (mthen m (fun x => k)) (at level 65, m at next level, right associativity) : l2s_scope.
Notation "m ;;; k" := (mthen m (fun _ => k)) (at level 65, right associativity) : l2s_scope.
Open Scope l2s_scope.

(** ** System calls *)

(** The verdict of the next call: an error, or 0. *)
Definition fault : M Z := fun h =>
  match h_faults h with
  | [] => (0, h)
  | e :: fs => ((if e <? 0 then e else 0), Host (h_tree h) fs (h_next h))
  end.

(** A call that is not refused does [f] to the tree. *)
Definition call {A} (refused : Z -> A) (f : host -> A * host) : M A :=
  e <- fault ;; if e <? 0 then ret (refused e) else f.

Definition set_tree (t : gmap cstr node) (h : host) : host := Host t (h_faults h) (h_next h).

(** The directory a path is in is one. *)
Definition parent_ok (t : gmap cstr node) (p : cstr) : bool :=
  match t !! l2s_dirname p (S (length p)) with Some NDir => true | _ => false end.

Definition l2s_lstat (p : cstr) : M (Z + node) :=
  call inl (fun h => (match h_tree h !! p with Some x => inr x | None => inl (- ENOENT) end, h)).

Definition l2s_readlink (p : cstr) (n : nat) : M (Z + cstr) :=
  call inl (fun h => (match h_tree h !! p with
                      | Some (NLink t) => inr (take n t)
                      | Some _ => inl (- EINVAL)
                      | None => inl (- ENOENT)
                      end, h)).

Definition l2s_symlink (target linkpath : cstr) : M Z :=
  call id (fun h =>
    let t := h_tree h in
    if negb (parent_ok t linkpath) || (length target =? 0)%nat then (- ENOENT, h)
    else if bool_decide (is_Some (t !! linkpath)) then (- EEXIST, h)
    else (0, set_tree (<[linkpath := NLink target]> t) h)).

(** The name [k] under [o], spelt under [n]. *)
Definition respell (o n k : cstr) : cstr :=
  if strneq k o (length o) && at_boundary k (length o) then n ++ drop (length o) k else k.

Definition has_below (t : gmap cstr node) (p : cstr) : bool :=
  bool_decide (filter (fun '(k, _) => strneq k (p ++ [SLASH]) (length p + 1) = true)
                 (map_to_list t) <> []).

Definition l2s_rename (o n : cstr) : M Z :=
  call id (fun h =>
    let t := h_tree h in
    match t !! o with
    | None => (- ENOENT, h)
    | Some x =>
        if negb (parent_ok t n) then (- ENOENT, h)
        else if streq o n then (0, h)
        else if is_dir x then
          match t !! n with
          | Some y =>
              if negb (is_dir y) then (- ENOTDIR, h)
              else if has_below t n then (- ENOTEMPTY, h)
              else (0, set_tree (kmap (respell o n) (delete n t)) h)
          | None => (0, set_tree (kmap (respell o n) t) h)
          end
        else match t !! n with
             | Some NDir => (- EISDIR, h)
             | _ => (0, set_tree (<[n := x]> (delete o t)) h)
             end
    end).

Definition swap_names (a b k : cstr) : cstr :=
  if strneq k a (length a) && at_boundary k (length a) then b ++ drop (length a) k
  else respell b a k.

Definition l2s_unlink (p : cstr) : M Z :=
  call id (fun h =>
    match h_tree h !! p with
    | None => (- ENOENT, h)
    | Some NDir => (- EISDIR, h)
    | Some _ => (0, set_tree (delete p (h_tree h)) h)
    end).

Definition pin_mkdir (p : cstr) : M Z :=
  call id (fun h =>
    let t := h_tree h in
    if bool_decide (is_Some (t !! p)) then (- EEXIST, h)
    else if negb (parent_ok t p) then (- ENOENT, h)
    else (0, set_tree (<[p := NDir]> t) h)).

(** Opening a file to write it, made where it is missing; no link is followed. *)
Definition open_create (p : cstr) (mode : Z) : M Z :=
  call id (fun h =>
    let t := h_tree h in
    match t !! p with
    | Some NDir => (- EISDIR, h)
    | Some (NLink _) => (- ELOOP, h)
    | Some (NNode _ _ _) => (0, h)
    | None =>
        if negb (parent_ok t p) then (- ENOENT, h)
        else (0, Host (<[p := NNode (h_next h) (S_IFREG + mode) []]> t) (h_faults h) (h_next h + 1))
    end).

Definition l2s_touch (p : cstr) : M unit := open_create p 384 ;;; ret tt. (* 0600 *)

(** Opening what is there, as a directory or as a file. *)
Definition open_dir (p : cstr) : M Z :=
  call id (fun h => (match h_tree h !! p with
                     | Some NDir => 0 | Some _ => - ENOTDIR | None => - ENOENT end, h)).

Definition open_file (p : cstr) : M Z :=
  call id (fun h => (match h_tree h !! p with
                     | Some (NLink _) => - ELOOP | Some _ => 0 | None => - ENOENT end, h)).

(** The names in a directory. *)
Definition entry_of (dir k : cstr) : option cstr :=
  let pre := if streq dir [SLASH] then dir else dir ++ [SLASH] in
  let nm := drop (length pre) k in
  if strneq k pre (length pre) && negb (length nm =? 0)%nat && forallb not_slash nm
  then Some nm else None.

Definition entries (t : gmap cstr node) (dir : cstr) : list cstr :=
  omap (fun '(k, _) => entry_of dir k) (map_to_list t).

Definition list_dir (dir : cstr) : M (option (list cstr)) :=
  r <- open_dir dir ;;
  fun h => ((if r <? 0 then None else Some (entries (h_tree h) dir)), h).

(** Every wait a signal interrupts is repeated. *)
Fixpoint flock_wait (faults : list Z) : Z * list Z :=
  match faults with
  | [] => (0, [])
  | e :: fs => if e =? - EINTR then flock_wait fs else ((if e <? 0 then e else 0), fs)
  end.

Definition flock : M Z := fun h =>
  let '(r, fs) := flock_wait (h_faults h) in (r, Host (h_tree h) fs (h_next h)).

(** ** Markers *)

Fixpoint find_in (names : list cstr) (ino : Z) : option Z :=
  match names with
  | [] => None
  | nm :: names =>
      match parse_marker_exact nm with
      | Some (dino, dc) => if dino =? ino then Some dc else find_in names ino
      | None => find_in names ino
      end
  end.

Definition find_marker (dir : cstr) (ino : Z) : M (option Z) :=
  l <- list_dir dir ;;
  ret (l ≫= fun names => find_in names ino).

(** ** The environment: the view, and what the host refuses *)

Record lenv := LEnv {
  l_g : genv;
  l_view : option cng_fs;      (* cng_g_fs *)
  l_home : option cng_fs;      (* g_home *)
  l_no_rename2 : bool;         (* cng_blocked[__NR_renameat2] *)
  l_proc : cstr -> Z + node;   (* what a path of the host's /proc leads to *)
  l_fd : Z -> option cstr      (* the host path behind a descriptor *) }.

Section L2s.
Context (E : lenv).

Definition l2s_exchange (a b : cstr) : M Z :=
  if l_no_rename2 E then ret (- ENOSYS)
  else call id (fun h =>
    let t := h_tree h in
    match t !! a, t !! b with
    | Some x, Some y =>
        (0, set_tree (if is_dir x || is_dir y then kmap (swap_names a b) t
                      else <[a := y]> (<[b := x]> t)) h)
    | _, _ => (- ENOENT, h)
    end).

(** A path that is not of /proc is never followed. *)
Definition l2s_statf (p : cstr) : M (Z + node) :=
  if l2s_under_proc p then call inl (fun h => (l_proc E p, h)) else l2s_lstat p.

(** ** The store and the lock *)

Definition l2s_store_dir (sz : nat) : M (Z + cstr) :=
  let root := match l_view E with Some fs => f_rootfs fs | None => [] end in
  if (sz <=? length root + 6)%nat then ret (inl (- ENAMETOOLONG))
  else
    let out := root ++ cs "/.l2s" in
    r <- pin_mkdir out ;;
    if (r <? 0) && negb (r =? - EEXIST) then ret (inl r)
    else
      st <- l2s_lstat out ;;
      match st with
      | inr x => if is_dir x then ret (inr out) else ret (inl (- ENOTDIR))
      | inl _ => ret (inl (- ENOTDIR))
      end.

(** Whether the lock is held. *)
Definition l2s_lock (data : cstr) : M bool :=
  sd <- l2s_store_dir CNG_PATH_MAX ;;
  fd <- match sd with
        | inr lk => if (length lk + 7 <? CNG_PATH_MAX)%nat then open_create (lk ++ cs "/.lock") 384
                    else ret (-1)
        | inl _ => ret (-1)
        end ;;
  fd <- (if fd <? 0 then
           st <- l2s_lstat data ;;
           match st with
           | inr x => if is_reg x
                      then fd <- open_file data ;; if fd <? 0 then open_file data else ret fd
                      else ret fd
           | inl _ => ret fd
           end
         else ret fd) ;;
  fd <- (if fd <? 0 then open_dir (l2s_dirname data CNG_PATH_MAX) else ret fd) ;;
  if fd <? 0 then ret false
  else r <- flock ;; ret (negb (r <? 0)).

(** ** Which links are ours *)

Definition cng_l2s_deny (dirfd : Z) (gp : cstr) : bool :=
  if (length gp =? 0)%nat then false
  else if cng_l2s_hidden (l2s_basename gp) then true
  else if char_is gp 0 SLASH || (s32 dirfd =? -100) then
    match l_view E with
    | Some fs =>
        match abscanon_1 fs gp CNG_PATH_MAX with
        | Some canon => strneq canon (cs "/.l2s") 5 && at_boundary canon 5
        | None => false
        end
    | None => false
    end
  else false.

Definition l2s_owned (p : cstr) : bool :=
  match l_view E with
  | None => true
  | Some fs =>
      bool_decide (is_Some (host_dir_guest (l_g E) fs p CNG_PATH_MAX)) ||
      match l_home E with
      | Some home => bool_decide (is_Some (untranslate_1 home p CNG_PATH_MAX))
      | None => false
      end
  end.

(** -ENAMETOOLONG, or the name in this rootfs's store where it is another. *)
Definition l2s_store_heal (tgt : cstr) (sz : nat) : M (Z + option cstr) :=
  if negb (l2s_store_shaped tgt) then ret (inr None)
  else
    sd <- l2s_store_dir CNG_PATH_MAX ;;
    match sd with
    | inl _ => ret (inr None)
    | inr store =>
        let b := l2s_basename tgt in
        if (sz <=? length store + 1 + length b)%nat then ret (inl (- ENAMETOOLONG))
        else
          let out := store ++ SLASH :: b in
          ret (inr (if streq out tgt then None else Some out))
    end.

(** The file at [p], if it can be a group's data. *)
Definition data_at (p : cstr) : M bool :=
  st <- l2s_lstat p ;; ret (match st with inr x => is_data x | inl _ => false end).

Inductive located :=
  | LErr (e : Z)
  | LNone                              (* 0: an ordinary symlink *)
  | LData (data : cstr) (heal : bool). (* 1 *)

Definition l2s_locate (host_ tgt : cstr) (dsz : nat) : M located :=
  let b := l2s_basename tgt in
  if negb (bool_decide (is_Some (parse_data_exact b))) then ret LNone
  else if negb (char_is tgt 0 SLASH) then
    if negb (streq b tgt) then ret LNone
    else
      let dir := l2s_dirname host_ CNG_PATH_MAX in
      let dl := length dir in
      let sep := negb (negb (dl =? 0)%nat && char_is dir (dl - 1) SLASH) in
      if (dsz <=? dl + (if sep then 1 else 0) + length b)%nat then ret (LErr (- ENAMETOOLONG))
      else
        let data := dir ++ (if sep then [SLASH] else []) ++ b in
        ok <- data_at data ;; ret (if ok then LData data false else LNone)
  else if negb (l2s_canonical tgt) then ret LNone
  else
    let stale :=
      k <- l2s_store_heal tgt dsz ;;
      match k with
      | inl e => ret (LErr e)
      | inr None => ret LNone
      | inr (Some data) => ok <- data_at data ;; ret (if ok then LData data true else LNone)
      end in
    if l2s_owned tgt then
      if (dsz <=? length tgt)%nat then ret (LErr (- ENAMETOOLONG))
      else ok <- data_at tgt ;; if ok then ret (LData tgt false) else stale
    else stale.

(** ** proot's groups *)

Record pr_group := PrGroup { g_ind : cstr; g_data : cstr; g_count : Z }.

Definition pr_dl (g : pr_group) : nat := length (g_ind g) - length (l2s_basename (g_ind g)).

(** [None] for -ENAMETOOLONG. *)
Definition pr_set_data (g : pr_group) (dn : cstr) : option pr_group :=
  if (CNG_PATH_MAX <=? pr_dl g + length dn)%nat then None
  else Some (PrGroup (g_ind g) (take (pr_dl g) (g_ind g) ++ dn) (g_count g)).

Inductive chain := CNone | CCut (g : pr_group) | CWhole (g : pr_group). (* 0, -ENOENT, 1 *)

Definition pr_chain (g : pr_group) : M chain :=
  let ib := l2s_basename (g_ind g) in
  st <- l2s_lstat (g_ind g) ;;
  match st with
  | inl _ => ret CNone
  | inr x =>
      if negb (is_lnk x) then ret CNone
      else
        t <- l2s_readlink (g_ind g) (CNG_PATH_MAX - 1) ;;
        match t with
        | inl _ => ret CNone
        | inr t2 =>
            if (length t2 =? 0)%nat then ret CNone
            else
              let db := l2s_basename t2 in
              match pr_data_of db ib with
              | None => ret CNone
              | Some c =>
                  match pr_set_data (PrGroup (g_ind g) (g_data g) c) db with
                  | None => ret CNone
                  | Some g =>
                      if negb (streq t2 (g_data g))
                         && negb (l2s_canonical t2 && l2s_store_shaped t2
                                  && l2s_store_shaped (g_ind g))
                      then ret CNone
                      else
                        st <- l2s_lstat (g_data g) ;;
                        ret (match st with
                              | inl e => if e =? - ENOENT then CCut g else CNone
                              | inr x => if is_data x then CWhole g else CNone
                              end)
                  end
              end
        end
  end.

(** The data names of the indirection [ib] in a directory: none, the one, or
    more than one. *)
Fixpoint pr_scan (dir ib : cstr) (names : list cstr) (found : option (cstr * Z)) :
    M (option (option (cstr * Z))) :=
  match names with
  | [] => ret (Some found)
  | nm :: names =>
      match pr_data_of nm ib with
      | None => pr_scan dir ib names found
      | Some nc =>
          ok <- data_at ((if streq dir [SLASH] then dir else dir ++ [SLASH]) ++ nm) ;;
          if negb ok then pr_scan dir ib names found
          else match found with
               | Some _ => ret None
               | None => pr_scan dir ib names (Some (fst (strlcpy nm 256), nc))
               end
      end
  end.

Definition pr_find_data (g : pr_group) : M (Z + pr_group) :=
  let dir := l2s_dirname (g_ind g) CNG_PATH_MAX in
  l <- list_dir dir ;;
  match l with
  | None => ret (inl (- ENOENT))
  | Some names =>
      r <- pr_scan dir (l2s_basename (g_ind g)) names None ;;
      ret (match r with
            | None => inl (- EIO)
            | Some None => inl (- ENOENT)
            | Some (Some (dn, c)) =>
                match pr_set_data (PrGroup (g_ind g) (g_data g) c) dn with
                | Some g => inr g
                | None => inl (- ENAMETOOLONG)
                end
            end)
  end.

Definition pr_repoint (g : pr_group) : M Z :=
  if (CNG_PATH_MAX <? length (g_ind g) + 5)%nat then ret (- ENAMETOOLONG)
  else
    let tmp := g_ind g ++ PR_TMP_SUFFIX in
    l2s_unlink tmp ;;;
    r <- l2s_symlink (g_data g) tmp ;;
    if r =? 0 then
      r <- l2s_rename tmp (g_ind g) ;;
      if r <? 0 then l2s_unlink tmp ;;; ret r else ret r
    else ret r.

(** The chain under the lock, made whole where it is cut. *)
Definition pr_settle (g : pr_group) : M (option pr_group) :=
  r <- pr_chain g ;;
  match r with
  | CWhole g => ret (Some g)
  | CNone => ret None
  | CCut g =>
      f <- pr_find_data g ;;
      match f with
      | inl _ => ret None
      | inr g => r <- pr_repoint g ;; ret (if r =? 0 then Some g else None)
      end
  end.

Definition pr_adjust (g : pr_group) (delta : Z) : M (Z * pr_group) :=
  if (delta <? 0) && (g_count g <=? 1) then
    l2s_unlink (g_data g) ;;; l2s_unlink (g_ind g) ;;; ret (0, g)
  else if (0 <? delta) && (PR_MAX_COUNT <=? g_count g) then ret (- EMLINK, g)
  else
    let nc := g_count g + delta in
    let ib := l2s_basename (g_ind g) in
    if (256 <? length ib + 6)%nat then ret (- ENAMETOOLONG, g)
    else match pr_set_data g (ib ++ DOT :: put_u64 nc 4) with
         | None => ret (- ENAMETOOLONG, g)
         | Some g' =>
             r <- l2s_rename (g_data g) (g_data g') ;;
             r <- (if r =? 0 then
                     r <- pr_repoint g' ;;
                     if r <? 0 then l2s_rename (g_data g') (g_data g) ;;; ret r else ret r
                   else ret r) ;;
             if r <? 0 then ret (r, g) else ret (0, PrGroup (g_ind g') (g_data g') nc)
         end.

Fixpoint pr_look (n : nat) (g : pr_group) : M chain :=
  r <- pr_chain g ;;
  match n, r with
  | S n, CCut _ => pr_look n g
  | _, _ => ret r
  end.

Definition pr_chain_look (g : pr_group) : M chain := pr_look 3 g.

Definition pr_member (host_ tgt : cstr) : M (option pr_group) :=
  if negb (char_is tgt 0 SLASH) || negb (pr_is_ind (l2s_basename tgt)) || negb (l2s_canonical tgt)
  then ret None
  else
    r <- (if l2s_owned tgt && (length tgt <? CNG_PATH_MAX)%nat
          then pr_chain_look (PrGroup tgt [] 0) else ret CNone) ;;
    match r with
    | CWhole g | CCut g => ret (Some g)
    | CNone =>
        k <- l2s_store_heal tgt CNG_PATH_MAX ;;
        match k with
        | inr (Some ind) =>
            r <- pr_chain_look (PrGroup ind [] 0) ;;
            match r with
            | CWhole g | CCut g =>
                l2s_unlink host_ ;;; l2s_symlink (g_ind g) host_ ;;; ret (Some g)
            | CNone => ret None
            end
        | _ => ret None
        end
    end.

Definition pr_data_here (host_ : cstr) : M (option pr_group) :=
  let n := length host_ in
  if negb (pr_is_data (l2s_basename host_)) || (CNG_PATH_MAX <=? n - 5)%nat
     || negb (l2s_canonical host_) || negb (l2s_owned host_)
  then ret None
  else
    r <- pr_chain (PrGroup (take (n - 5) host_) [] 0) ;;
    ret (match r with
          | CWhole g => if streq (g_data g) host_ then Some g else None
          | _ => None
          end).

Definition pr_from_data (data : cstr) : option pr_group :=
  let n := length data in
  if (n <? 6)%nat || (CNG_PATH_MAX <=? n - 5)%nat then None
  else Some (PrGroup (take (n - 5) data) [] 0).

Definition pr_link (data dst : cstr) : M Z :=
  match pr_from_data data with
  | None => ret (- ENAMETOOLONG)
  | Some g =>
      l2s_lock data ;;;
      k <- pr_settle g ;;
      match k with
      | None => ret (- ENOENT)
      | Some g =>
          rg <- pr_adjust g 1 ;;
          let '(r, g) := rg in
          if r =? 0 then
            r <- l2s_symlink (g_ind g) dst ;;
            if r <? 0 then pr_adjust g (-1) ;;; ret r else ret r
          else ret r
      end
  end.

Definition pr_drop (data : cstr) : M unit :=
  match pr_from_data data with
  | None => ret tt
  | Some g =>
      l2s_lock data ;;;
      k <- pr_settle g ;;
      match k with
      | None => ret tt
      | Some g => pr_adjust g (-1) ;;; ret tt
      end
  end.

Definition cng_l2s_untranslate_target (tgt : cstr) (sz : nat) : option cstr :=
  let b := l2s_basename tgt in
  if negb (char_is tgt 0 SLASH) || negb (l2s_canonical tgt)
     || negb (bool_decide (is_Some (parse_data_exact b)) || pr_is_ind b || pr_is_data b)
  then None
  else match (fs ← l_view E; host_dir_guest (l_g E) fs tgt sz) with
       | Some g => Some g
       | None =>
           if negb (l2s_store_shaped tgt) then None
           else if (sz <=? 6)%nat then None
           else Some (cs "/.l2s/" ++ fst (strlcpy b (sz - 6)))
       end.

(** ** Core *)

(** The count the marker of a data file gives, 0 where it has none. *)
Definition marker_count (data : cstr) (ino : Z) : M Z :=
  c <- find_marker (l2s_dirname data CNG_PATH_MAX) ino ;; ret (default 0 c).

(** The data file and the count of a link of ours; the count is read where
    [want]. *)
Definition cng_l2s_resolve (host_ : cstr) (dsz : nat) (want : bool) : M (Z + option (cstr * Z)) :=
  st <- l2s_lstat host_ ;;
  match st with
  | inl e => ret (inl e)
  | inr x =>
      if negb (is_lnk x) then ret (inr None)
      else
        t <- l2s_readlink host_ (CNG_PATH_MAX - 1) ;;
        match t with
        | inl e => ret (inl e)
        | inr tgt =>
            k <- l2s_locate host_ tgt dsz ;;
            match k with
            | LErr e => ret (inl e)
            | LNone =>
                m <- pr_member host_ tgt ;;
                ret (match m with
                      | None => inr None
                      | Some g => if (dsz <=? length (g_data g))%nat then inl (- ENAMETOOLONG)
                                  else inr (Some (g_data g, g_count g))
                      end)
            | LData data heal =>
                (if heal then l2s_unlink host_ ;;; l2s_symlink data host_ ;;; ret tt else ret tt) ;;;
                c <- (if want then
                        marker_count data (default 0 (parse_data (l2s_basename data) true))
                      else ret 0) ;;
                ret (inr (Some (data, c)))
            end
        end
  end.

Definition proot_target (host_ : cstr) (dsz : nat) : M (Z + option (cstr * Z)) :=
  g <- pr_data_here host_ ;;
  ret (match g with
        | None => inr None
        | Some g => if (dsz <=? length host_)%nat then inl (- ENAMETOOLONG)
                    else inr (Some (host_, g_count g))
        end).

(** The same for a path a follow has already taken to the data file. *)
Definition l2s_target (host_ : cstr) (dsz : nat) (want : bool) : M (Z + option (cstr * Z)) :=
  r <- cng_l2s_resolve host_ dsz want ;;
  match r with
  | inl e => ret (inl e)
  | inr (Some d) => ret (inr (Some d))
  | inr None =>
      match parse_data_exact (l2s_basename host_) with
      | Some ino =>
          if l2s_canonical host_ && l2s_owned host_ then
            match build_name dsz (l2s_dirname host_ CNG_PATH_MAX) ino None with
            | None => ret (inl (- ENAMETOOLONG))
            | Some data =>
                c <- (if want then marker_count host_ ino else ret 0) ;;
                ret (inr (Some (data, c)))
            end
          else proot_target host_ dsz
      | None => proot_target host_ dsz
      end
  end.

(** The contents of [src] copied into a new file. *)
Definition create_excl (dst : cstr) (mode : Z) : M Z :=
  call id (fun h =>
    let t := h_tree h in
    if bool_decide (is_Some (t !! dst)) then (- EEXIST, h)
    else if negb (parent_ok t dst) then (- ENOENT, h)
    else (0, Host (<[dst := NNode (h_next h) (S_IFREG + mode) []]> t) (h_faults h) (h_next h + 1))).

Definition write_body (dst body : cstr) : M Z :=
  call id (fun h =>
    (0, match h_tree h !! dst with
        | Some (NNode i m _) => set_tree (<[dst := NNode i m body]> (h_tree h)) h
        | _ => h
        end)).

Definition l2s_materialize (src dst : cstr) : M Z :=
  st <- l2s_statf src ;;
  match st with
  | inl e => ret e
  | inr x =>
      match x with
      | NNode _ m body =>
          if negb (is_reg x) then ret (- EPERM)
          else
            in_ <- (if l2s_under_proc src then call id (fun h => (0, h)) else open_file src) ;;
            if in_ <? 0 then ret in_
            else
              e <- fault ;; (* fstat *)
              let mode := if e <? 0 then 420 else Z.land m 4095 in
              out <- create_excl dst mode ;;
              if out <? 0 then ret out
              else
                rc <- write_body dst body ;;
                if rc <? 0 then l2s_unlink dst ;;; ret rc else ret 0
      | _ => ret (- EPERM)
      end
  end.

Definition l2s_copy_symlink (src dst : cstr) : M Z :=
  t <- l2s_readlink src (CNG_PATH_MAX - 1) ;;
  match t with
  | inl e => ret e
  | inr tgt =>
      if cng_l2s_hidden (l2s_basename tgt) then ret (- EPERM)
      else l2s_symlink tgt dst
  end.

Definition l2s_link_source (src : cstr) (own : bool) : M (Z + option (cstr * Z)) :=
  r <- cng_l2s_resolve src CNG_PATH_MAX true ;;
  match r with
  | inl e => ret (inl e)
  | inr (Some d) => ret (inr (Some d))
  | inr None =>
      if negb own then ret (inr None)
      else
        ok <- data_at src ;;
        match (if ok then parse_data_exact (l2s_basename src) else None) with
        | Some ino =>
            c <- marker_count src ino ;;
            ret (inr (Some (fst (strlcpy src CNG_PATH_MAX), c)))
        | None =>
            g <- pr_data_here src ;;
            ret (inr (match g with
                       | Some g => Some (fst (strlcpy src CNG_PATH_MAX), g_count g)
                       | None => None
                       end))
        end
  end.

(** The file [src] moved to [data], a symlink with the text [tgt] in its name. *)
Definition l2s_swap_in (src data tgt : cstr) : M Z :=
  r <- l2s_symlink tgt data ;;
  r <- (if r =? 0 then
          r <- l2s_exchange src data ;;
          if r =? 0 then ret None else l2s_unlink data ;;; ret (Some r)
        else ret (Some r)) ;;
  match r with
  | None => ret 0
  | Some _ =>
      st <- l2s_lstat data ;;
      stray <- match st with
               | inl _ => ret false
               | inr x =>
                   if is_lnk x then
                     t <- l2s_readlink data (CNG_PATH_MAX - 1) ;;
                     ret (match t with inr old => negb (streq old tgt) | inl _ => true end)
                   else ret true
               end ;;
      if stray : bool then ret (- EEXIST)
      else
        r <- l2s_rename src data ;;
        if r <? 0 then ret r
        else
          r <- l2s_symlink tgt src ;;
          if r <? 0 then l2s_rename data src ;;; ret r else ret r
  end.

Definition l2s_swap_out (src data : cstr) : M unit :=
  r <- l2s_exchange src data ;;
  if r =? 0 then l2s_unlink data ;;; ret tt
  else l2s_unlink src ;;; l2s_rename data src ;;; ret tt.

(** The rest of a first link once [src] is the data file [data] in [dir]: the
    marker, and the new name with the text [tgt]. *)
Definition first_names (src dst dir data tgt : cstr) (ino : Z) : M Z :=
  let newm := build_name CNG_PATH_MAX dir ino (Some 2) in
  match newm with Some m => l2s_touch m | None => ret tt end ;;;
  sr <- l2s_symlink tgt dst ;;
  if sr <? 0 then
    match newm with Some m => l2s_unlink m ;;; ret tt | None => ret tt end ;;;
    l2s_swap_out src data ;;; ret sr
  else ret 0.

(** 0, an error, or 1 where [dst] is to be a copy. *)
Definition l2s_first_link (src dst ddir : cstr) (own : bool) : M Z :=
  st <- l2s_lstat src ;;
  match st with
  | inl _ => ret (- ENOENT)
  | inr x =>
      if is_lnk x && negb (l2s_under_proc src) then l2s_copy_symlink src dst
      else match x with
      | NNode ino _ _ =>
          if negb own then ret 1
          else
            sd <- l2s_store_dir CNG_PATH_MAX ;;
            (* [mv]: None where the name does not fit; [Some (0, data)] once moved *)
            mv <- match sd with
                  | inr store =>
                      match build_name CNG_PATH_MAX store ino None with
                      | None => ret None
                      | Some data => r <- l2s_swap_in src data data ;; ret (Some (r, store, data))
                      end
                  | inl _ => ret (Some (-1, [], []))
                  end ;;
            match mv with
            | None => ret (- ENAMETOOLONG)
            | Some (r, store, data) =>
                if r =? 0 then first_names src dst store data data ino
                else
                  let sdir := l2s_dirname src CNG_PATH_MAX in
                  if negb (streq sdir ddir) then ret 1
                  else match build_name CNG_PATH_MAX sdir ino None with
                       | None => ret (- ENAMETOOLONG)
                       | Some data =>
                           r <- l2s_swap_in src data (l2s_basename data) ;;
                           if r <? 0 then ret r
                           else first_names src dst sdir data (l2s_basename data) ino
                       end
            end
      | _ => ret 1
      end
  end.

(** A new name [dst] of the group of [data]. *)
Definition l2s_join (data dst ddir : cstr) (count : Z) : M Z :=
  let ino := default 0 (parse_data (l2s_basename data) true) in
  let sdir := l2s_dirname data CNG_PATH_MAX in
  held <- l2s_lock data ;;
  count <- (if held : bool then c <- find_marker sdir ino ;; ret (default 0 c) else ret count) ;;
  let nc := (if count =? 0 then 1 else count) + 1 in
  match build_name CNG_PATH_MAX sdir ino (Some nc) with
  | None => ret (- ENAMETOOLONG)
  | Some newm =>
      let oldm := if count =? 0 then None else build_name CNG_PATH_MAX sdir ino (Some count) in
      bumped <- match oldm with
                | Some oldm => r <- l2s_rename oldm newm ;; ret (r =? 0)
                | None => ret false
                end ;;
      (if bumped : bool then ret tt else l2s_touch newm) ;;;
      sr <- (if streq sdir ddir then l2s_symlink (l2s_basename data) dst else l2s_symlink data dst) ;;
      if sr <? 0 then
        (if bumped then l2s_rename newm (default [] oldm) else l2s_unlink newm) ;;; ret sr
      else ret 0
  end.

Definition cng_l2s_link (src dst : cstr) : M Z :=
  st <- l2s_lstat dst ;;
  match st with
  | inr _ => ret (- EEXIST)
  | inl _ =>
      let ddir := l2s_dirname dst CNG_PATH_MAX in
      let own := l2s_canonical src && l2s_owned src in
      let join d := (if pr_is_data (l2s_basename (fst d)) then pr_link (fst d) dst
                     else l2s_join (fst d) dst ddir (snd d)) in
      s <- l2s_link_source src own ;;
      match s with
      | inr (Some d) => join d
      | _ =>
          l2s_lock src ;;;
          s <- l2s_link_source src own ;;
          match s with
          | inr None =>
              r <- l2s_first_link src dst ddir own ;;
              if r =? 1 then l2s_materialize src dst else ret r
          | inr (Some d) => join d
          | inl e => ret e
          end
      end
  end.

Definition cng_l2s_rename_prep (srch : cstr) (sz : nat) : M (option cstr) :=
  st <- l2s_lstat srch ;;
  match st with
  | inr (NLink _) =>
      t <- l2s_readlink srch (CNG_PATH_MAX - 1) ;;
      match t with
      | inr tgt =>
          if char_is tgt 0 SLASH then ret None
          else k <- l2s_locate srch tgt sz ;;
               ret (match k with LData d _ => Some d | _ => None end)
      | inl _ => ret None
      end
  | _ => ret None
  end.

Definition cng_l2s_rename_fixup (dsth absdata : cstr) : M unit :=
  if streq (l2s_dirname dsth CNG_PATH_MAX) (l2s_dirname absdata CNG_PATH_MAX) then ret tt
  else l2s_unlink dsth ;;; l2s_symlink absdata dsth ;;; ret tt.

Definition cng_l2s_decref (data : cstr) (count : Z) : M unit :=
  if pr_is_data (l2s_basename data) then pr_drop data
  else match parse_data (l2s_basename data) true with
  | None => ret tt
  | Some ino =>
      let dir := l2s_dirname data CNG_PATH_MAX in
      held <- l2s_lock data ;;
      c <- (if held : bool then find_marker dir ino else ret None) ;;
      let count := default count c in
      if count <=? 1 then
        l2s_unlink data ;;;
        match build_name CNG_PATH_MAX dir ino (Some (if count =? 0 then 1 else count)) with
        | Some m => l2s_unlink m ;;; ret tt
        | None => ret tt
        end
      else
        match build_name CNG_PATH_MAX dir ino (Some count),
              build_name CNG_PATH_MAX dir ino (Some (count - 1)) with
        | Some m, Some newm => l2s_rename m newm ;;; ret tt
        | _, _ => ret tt
        end
  end.

(** unlinkat of a file, for the host path its name resolves to: the count goes
    down once the name is gone, unless the data file is on a read-only mount. *)
Definition view_ro (p : cstr) : bool :=
  match l_view E with Some fs => host_ro_1 fs p | None => false end.

Definition do_unlinkat (p : cstr) : M Z :=
  d <- cng_l2s_resolve p CNG_PATH_MAX true ;;
  if view_ro p then ret (- EROFS)
  else
    r <- l2s_unlink p ;;
    match d with
    | inr (Some (data, cnt)) =>
        if (r =? 0) && negb (view_ro data) then cng_l2s_decref data cnt ;;; ret r else ret r
    | _ => ret r
    end.

(** The file and the link count reported for a name. *)
Definition cng_l2s_stat (host_ : cstr) : M (Z + option (node * Z)) :=
  r <- l2s_target host_ CNG_PATH_MAX true ;;
  match r with
  | inl e => ret (inl e)
  | inr None => ret (inr None)
  | inr (Some (data, c)) =>
      st <- l2s_statf data ;;
      ret (match st with
            | inl e => inl e
            | inr x => inr (Some (x, u32 (if c =? 0 then 1 else c)))
            end)
  end.

(** newfstatat of a name that is not followed: the emulation's answer, or the
    kernel's own, for a file that has the one name. *)
Definition do_fstatat (p : cstr) : M (Z + node * Z) :=
  r <- cng_l2s_stat p ;;
  match r with
  | inr (Some a) => ret (inr a)
  | _ => st <- l2s_lstat p ;; ret (match st with inl e => inl e | inr x => inr (x, 1) end)
  end.

(** The live count of a descriptor's file, where it is a group's. *)
Definition l2s_fd_count (fd : Z) : M (option Z) :=
  e <- fault ;;
  match (if e <? 0 then None else l_fd E (u32 fd)) with
  | None => ret None
  | Some t =>
      let path := take (CNG_PATH_MAX - 1) t in
      g <- pr_data_here path ;;
      match g with
      | Some g => ret (Some (g_count g))
      | None =>
          match parse_data_exact (l2s_basename path) with
          | Some ino =>
              if l2s_canonical path && l2s_owned path then
                c <- find_marker (l2s_dirname path CNG_PATH_MAX) ino ;;
                ret (c ← c; Some (if c =? 0 then 1 else c))
              else ret None
          | None => ret None
          end
      end
  end.
End L2s.
