(* ===== verification/L2sNameProps.v ===== *)
(** * The names of the hard-link emulation are exact

    What the builder writes the parsers read back, and nothing else. *)

From Stdlib Require Import ZArith Ascii String Lia.
From S2P Require Import Prelude Path PathCanon PathFacts Fmt FmtProps ProcStat Resolve ResolveFacts L2sName.
From stdpp Require Import base numbers strings gmap list.

Open Scope Z_scope.

Definition in_u64 (v : Z) : Prop := 0 <= v < 2 ^ 64.

(** The names a group of inode [i] has. *)
Definition data_name (i : Z) : cstr := L2S_PREFIX ++ put_u64 i 1.
Definition marker_name (i c : Z) : cstr := data_name i ++ DOT :: put_u64 c 4.

(** ** Numbers *)

Lemma put_u64_digits v w : in_u64 v -> Forall (fun c => is_dig c = true) (put_u64 v w).
Proof.
  intros [Hv _]. unfold put_u64. apply Forall_app. split; [by apply Forall_replicate|].
  by apply dec_chars.
Qed.

Lemma put_u64_length v w : in_u64 v -> (w <= 4)%nat -> (1 <= length (put_u64 v w) <= 22)%nat.
Proof.
  intros Hv Hw. pose proof (digits_length lower_digits 10 v ltac:(lia) Hv) as L.
  unfold put_u64. rewrite length_app, length_replicate. unfold dec in *. lia.
Qed.

Lemma fold_dec_ge l : Forall (fun c => is_dig c = true) l -> forall t, 0 <= t ->
  t <= foldl (fun v c => v * 10 + digit_val c) t l.
Proof. apply fold_dec_grows. Qed.

Lemma u64_run_fits l rest v :
  Forall (fun c => is_dig c = true) l -> no_digit_ahead rest -> 0 <= v ->
  foldl (fun v c => v * 10 + digit_val c) v l < 2 ^ 64 ->
  u64_run (l ++ rest) v false = (false, foldl (fun v c => v * 10 + digit_val c) v l, rest).
Proof.
  intros Hl Hr. revert v. induction Hl as [|c l Hc Hl IH]; intros v Hv Hm; cbn [foldl app u64_run] in *.
  - destruct rest as [|c r]; [done|]. cbn [u64_run]. by rewrite (Hr c r).
  - rewrite Hc. pose proof (digit_val_range c Hc).
    pose proof (fold_dec_grows l Hl (v * 10 + digit_val c) ltac:(lia)) as G.
    destruct (Z.ltb_spec ((ULL_MAX - digit_val c) / 10) v) as [Hlt|_].
    + exfalso. assert (K : v <= (ULL_MAX - digit_val c) / 10).
      { apply Z.div_le_lower_bound; unfold ULL_MAX; lia. }
      lia.
    + apply IH; [lia|done].
Qed.

(** A number is never read out of the 64 bits. *)
Lemma u64_run_range p v w w' v' r :
  in_u64 v -> u64_run p v w = (w', v', r) -> in_u64 v' /\ (w' = false -> w = false).
Proof.
  revert v w. induction p as [|c p IH]; intros v w Hv E; cbn [u64_run] in E.
  - by injection E as <- <- <-.
  - destruct (is_dig c) eqn:Hc; [|by injection E as <- <- <-].
    pose proof (digit_val_range c Hc).
    destruct (Z.ltb_spec ((ULL_MAX - digit_val c) / 10) v) as [|Hle].
    + apply IH in E as [? H']; [|done]. split; [done|]. intros Hw. by specialize (H' Hw).
    + apply IH in E; [done|]. unfold in_u64 in *.
      pose proof (Z.mul_div_le (ULL_MAX - digit_val c) 10 ltac:(lia)). unfold ULL_MAX in *. lia.
Qed.

Lemma put_u64_value v w : in_u64 v ->
  foldl (fun v c => v * 10 + digit_val c) 0 (put_u64 v w) = v.
Proof.
  intros Hv. unfold put_u64. rewrite foldl_app. induction (w - _)%nat as [|n IH].
  - simpl. rewrite fold_dec_value by (apply dec_chars; apply Hv).
    apply digits_value; [by left|lia|done].
  - cbn [replicate foldl]. exact IH.
Qed.

Lemma parse_field_put v w rest want :
  in_u64 v -> (w <= 4)%nat -> no_digit_ahead rest ->
  parse_field (put_u64 v w ++ rest) want = Some (v, rest).
Proof.
  intros Hv Hw Hr. unfold parse_field, parse_u64. pose proof (put_u64_length v w Hv Hw) as L.
  pose proof (put_u64_digits v w Hv) as D. pose proof (put_u64_value v w Hv) as V.
  destruct (put_u64 v w) as [|c l] eqn:Ep; [simpl in L; lia|]. cbn [app].
  rewrite (Forall_inv D). change (c :: l ++ rest) with ((c :: l) ++ rest).
  rewrite (u64_run_fits (c :: l) rest 0 D Hr ltac:(lia)) by (rewrite V; apply Hv).
  rewrite V. done.
Qed.

Lemma parse_field_range p v r : parse_field p true = Some (v, r) -> in_u64 v.
Proof.
  unfold parse_field, parse_u64. destruct p as [|c p]; [done|]. destruct (is_dig c); [|done].
  cbn [mbind option_bind]. destruct (u64_run (c :: p) 0 false) as [[w v'] r'] eqn:Eu. case_if; [|done].
  intros [= <- <-]. apply u64_run_range in Eu as [? _]; done.
Qed.

Lemma parse_field_end v w want :
  in_u64 v -> (w <= 4)%nat -> parse_field (put_u64 v w) want = Some (v, []).
Proof.
  intros Hv Hw. pose proof (parse_field_put v w [] want Hv Hw) as H. rewrite app_nil_r in H.
  apply H. by intros c r.
Qed.

(** ** The parsers and the builder *)

Lemma no_digit_dot r : no_digit_ahead (DOT :: r).
Proof. by intros c r' [= <- _]. Qed.

Lemma no_digit_nil : no_digit_ahead [].
Proof. by intros c r. Qed.

#[export] Hint Resolve no_digit_dot no_digit_nil : cng.

Lemma prefix_ok r : strneq (L2S_PREFIX ++ r) L2S_PREFIX L2S_PREFIX_LEN = true.
Proof. done. Qed.

Lemma prefix_split name :
  strneq name L2S_PREFIX L2S_PREFIX_LEN = true -> name = L2S_PREFIX ++ drop L2S_PREFIX_LEN name.
Proof. intros H. apply (strneq_prefix name L2S_PREFIX) in H as [r ->]. done. Qed.

Lemma parse_data_name i want : in_u64 i -> parse_data (data_name i) want = Some i.
Proof.
  intros Hi. unfold parse_data, data_name. rewrite prefix_ok. cbn [negb].
  change (drop L2S_PREFIX_LEN (L2S_PREFIX ++ put_u64 i 1)) with (put_u64 i 1).
  by rewrite parse_field_end by (done || lia).
Qed.

Lemma parse_marker_name i c want : in_u64 i -> in_u64 c ->
  parse_marker (marker_name i c) want = Some (i, c).
Proof.
  intros Hi Hc. unfold parse_marker, marker_name, data_name. rewrite <-app_assoc, prefix_ok. cbn [negb].
  change (drop L2S_PREFIX_LEN (L2S_PREFIX ++ ?r)) with r.
  rewrite parse_field_put by (done || auto with cng || lia).
  cbn [mbind option_bind]. change (char_is (DOT :: _) 0 DOT) with true. cbn [negb drop]. rewrite drop_0.
  by rewrite parse_field_end by (done || lia).
Qed.

(** A data file's name is the builder's, and no other. *)
Lemma parse_data_exact_iff name i :
  parse_data_exact name = Some i <-> in_u64 i /\ name = data_name i.
Proof.
  unfold parse_data_exact. split.
  - intros H. apply bind_Some in H as (v & Hv & H). case_if_in H; [|done]. injection H as ->.
    apply streq_true in Eif. unfold parse_data in Hv. case_if_in Hv; [done|].
    apply negb_false_iff, prefix_split in Eif0. apply bind_Some in Hv as ([v' r] & Hf & Hv).
    case_if_in Hv; [|done]. injection Hv as ->. split; [by eapply parse_field_range|].
    rewrite Eif0. unfold data_name. by rewrite Eif.
  - intros [Hi ->]. rewrite parse_data_name by done. cbn [mbind option_bind].
    by rewrite (proj2 (streq_true _ _)).
Qed.

Lemma marker_tmp_length i c : in_u64 i -> in_u64 c ->
  (length (put_u64 i 1 ++ DOT :: put_u64 c 4) <= 45)%nat.
Proof.
  intros Hi Hc. pose proof (put_u64_length i 1 Hi ltac:(lia)). pose proof (put_u64_length c 4 Hc ltac:(lia)).
  rewrite length_app. cbn [length]. lia.
Qed.

Lemma marker_tmp i : in_u64 i ->
  (if (length (put_u64 i 1) <? 47)%nat then put_u64 i 1 ++ [DOT] else put_u64 i 1) = put_u64 i 1 ++ [DOT].
Proof.
  intros Hi. pose proof (put_u64_length i 1 Hi ltac:(lia)).
  by destruct (Nat.ltb_spec (length (put_u64 i 1)) 47); [|lia].
Qed.

(** A marker's name is the builder's, and no other. *)
Lemma parse_marker_exact_iff name i c :
  parse_marker_exact name = Some (i, c) <-> in_u64 i /\ in_u64 c /\ name = marker_name i c.
Proof.
  unfold parse_marker_exact. split.
  - intros H. apply bind_Some in H as ([v c'] & Hv & H). unfold parse_marker in Hv.
    case_if_in Hv; [done|]. apply negb_false_iff, prefix_split in Eif.
    apply bind_Some in Hv as ([v1 r1] & Hf1 & Hv). case_if_in Hv; [done|].
    apply bind_Some in Hv as ([v2 r2] & Hf2 & Hv). case_if_in Hv; [|done]. injection Hv as <- <-.
    apply parse_field_range in Hf1, Hf2. rewrite (marker_tmp v1) in H by done.
    case_if_in H; [done|]. case_if_in H; [|done]. injection H as <- <-. apply streq_true in Eif3.
    split; [done|]. split; [done|]. rewrite Eif, <-Eif3. unfold marker_name, data_name.
    by rewrite <-!app_assoc.
  - intros (Hi & Hc & ->). rewrite parse_marker_name by done. cbn [mbind option_bind].
    rewrite (marker_tmp i) by done. rewrite <-app_assoc. cbn [app].
    pose proof (marker_tmp_length i c Hi Hc).
    destruct (Nat.ltb_spec 47 (length (put_u64 i 1 ++ DOT :: put_u64 c 4))); [lia|].
    unfold marker_name, data_name. rewrite <-app_assoc.
    change (drop L2S_PREFIX_LEN (L2S_PREFIX ++ ?r)) with r. by rewrite (proj2 (streq_true _ _)).
Qed.

Lemma hidden_exact name : cng_l2s_hidden name = false ->
  parse_data_exact name = None /\ parse_marker_exact name = None.
Proof.
  intros H. unfold cng_l2s_hidden in H. apply orb_false_iff in H as [H1 H2].
  apply bool_decide_eq_false in H1, H2. split.
  - destruct (parse_data_exact name) as [i|] eqn:E; [|done]. exfalso. apply H1.
    apply parse_data_exact_iff in E as [Hi ->]. by rewrite parse_data_name.
  - destruct (parse_marker_exact name) as [[i c]|] eqn:E; [|done]. exfalso. apply H2.
    apply parse_marker_exact_iff in E as (Hi & Hc & ->). by rewrite parse_marker_name.
Qed.

Lemma data_name_inj i j : in_u64 i -> in_u64 j -> data_name i = data_name j -> i = j.
Proof.
  intros Hi Hj E. pose proof (parse_data_name i true Hi) as H. rewrite E, parse_data_name in H by done.
  by injection H.
Qed.

Lemma marker_name_inj i c j d : in_u64 i -> in_u64 c -> in_u64 j -> in_u64 d ->
  marker_name i c = marker_name j d -> i = j /\ c = d.
Proof.
  intros Hi Hc Hj Hd E. pose proof (parse_marker_name i c true Hi Hc) as H.
  rewrite E, parse_marker_name in H by done. by injection H.
Qed.

(** A data name has no second dot. *)
Lemma data_marker_apart i j c : in_u64 i -> in_u64 j -> data_name i <> marker_name j c.
Proof.
  intros Hi Hj E. unfold marker_name, data_name in E. rewrite <-app_assoc in E.
  apply app_inv_head in E. pose proof (put_u64_digits i 1 Hi) as D. rewrite E in D.
  apply Forall_app in D as [_ D]. by apply Forall_inv in D.
Qed.

Lemma name_slash_free s : Forall (fun c => is_dig c = true) s -> slash_free s.
Proof.
  intros H. eapply Forall_impl; [exact H|]. intros c Hc. unfold not_slash.
  destruct (is_slash c) eqn:Es; [|done]. apply is_slash_true in Es as ->. done.
Qed.

Lemma data_name_slash_free i : in_u64 i -> slash_free (data_name i).
Proof.
  intros Hi. apply Forall_app. split; [by apply slash_free_cs|].
  by apply name_slash_free, put_u64_digits.
Qed.

Lemma marker_name_slash_free i c : in_u64 i -> in_u64 c -> slash_free (marker_name i c).
Proof.
  intros Hi Hc. apply Forall_app. split; [by apply data_name_slash_free|].
  constructor; [done|]. by apply name_slash_free, put_u64_digits.
Qed.

(** No data name of ours is one of proot's. *)
Lemma data_name_not_proot i : in_u64 i -> pr_is_data (data_name i) = false.
Proof.
  intros Hi. unfold pr_is_data. case_if; [done|]. apply orb_false_iff in Eif as [_ _].
  set (ind := take (length (data_name i) - 5) (data_name i)).
  destruct (pr_is_ind ind) eqn:Ei; [|done]. cbn [andb]. apply bool_decide_eq_false. intros [c Hc].
  unfold pr_data_of in Hc. case_if_in Hc; [done|].
  apply orb_false_iff in Eif as [Eif _]. apply orb_false_iff in Eif as [Eif _].
  apply orb_false_iff in Eif as [_ Eif]. apply negb_false_iff in Eif.
  unfold pr_is_ind in Ei. repeat (apply andb_true_iff in Ei as [Ei ?]). bprop.
  assert (L : (10 <= length ind)%nat).
  { assert (P : pr_prefix_len ind = 0%nat \/ pr_prefix_len ind = 5%nat \/ pr_prefix_len ind = 11%nat)
      by (unfold pr_prefix_len; repeat case_if; auto). lia. }
  unfold char_is in Eif. apply bool_decide_eq_true in Eif. unfold data_name in Eif.
  rewrite lookup_app_r in Eif by (simpl; lia).
  pose proof (put_u64_digits i 1 Hi) as D. rewrite Forall_lookup in D. by apply D in Eif.
Qed.
