(* ===== verification/L2sFacts.v ===== *)
(** * Lemmas on the hard-link emulation

    The paths of the store, and what each operation does on a host that refuses
    nothing. *)

From Stdlib Require Import ZArith Ascii String Lia.
From S2P Require Import Prelude Path PathCanon PathFacts PathRev Fmt ProcStat Resolve ResolveFacts L2sName L2s L2sNameProps.
From stdpp Require Import base numbers strings gmap list.

Open Scope Z_scope.
Open Scope l2s_scope.

(** ** Paths *)

Lemma basename_app d nm : slash_free nm -> l2s_basename (d ++ SLASH :: nm) = nm.
Proof.
  intros H. unfold l2s_basename. rewrite reverse_app, reverse_cons, <-app_assoc.
  rewrite take_while_app by (by apply Forall_reverse). simpl. by rewrite app_nil_r, reverse_involutive.
Qed.

Lemma dirname_app d nm sz : slash_free nm -> d <> [] ->
  l2s_dirname (d ++ SLASH :: nm) sz = take (sz - 1) d.
Proof.
  intros H Hd. unfold l2s_dirname. rewrite reverse_app, reverse_cons, <-app_assoc.
  rewrite drop_while_app by (by apply Forall_reverse). simpl.
  destruct (reverse d) as [|x r] eqn:Er.
  - apply (f_equal reverse) in Er. by rewrite reverse_involutive in Er.
  - by rewrite <-Er, reverse_involutive.
Qed.

Lemma dirname_in d nm sz : slash_free nm -> d <> [] -> (length d < sz)%nat ->
  l2s_dirname (d ++ SLASH :: nm) sz = d.
Proof. intros. rewrite dirname_app by done. apply take_ge. lia. Qed.

Lemma parent_ok_in t d nm : slash_free nm -> d <> [] -> t !! d = Some NDir ->
  parent_ok t (d ++ SLASH :: nm) = true.
Proof.
  intros H Hd Ht. unfold parent_ok. rewrite dirname_in; [by rewrite Ht|done|done|].
  rewrite length_app. simpl. lia.
Qed.

(** The split of a path at its last slash. *)
Lemma path_split p : l2s_canonical p = true ->
  exists d nm, p = d ++ SLASH :: nm /\ slash_free nm /\ nm <> [].
Proof.
  intros H. destruct p as [|c r]; [done|]. cbn [l2s_canonical] in H.
  apply andb_true_iff in H as [Hc H]. apply is_slash_true in Hc as ->.
  pose proof (split_slash_Forall r) as Hf. pose proof (split_slash_nonempty r) as Hne.
  pose proof (render_split r) as Hr.
  destruct (split_slash r) as [|nm l _] using rev_ind; [done|].
  rewrite render_snoc in Hr. exists (render l), nm. rewrite <-Hr. split; [done|].
  apply Forall_app in Hf as [_ Hf]. apply Forall_inv in Hf. split; [done|].
  rewrite forallb_app in H. apply andb_true_iff in H as [_ H]. simpl in H. rewrite andb_true_r in H.
  apply negb_true_iff, bool_decide_eq_false in H. intros ->. apply H. by left.
Qed.

Lemma canonical_app d nm :
  l2s_canonical d = true -> slash_free nm -> nm <> [] -> nm <> [DOT] -> nm <> DOTDOT ->
  l2s_canonical (d ++ SLASH :: nm) = true.
Proof.
  intros Hd Hf H1 H2 H3. destruct d as [|c r]; [done|]. cbn [app l2s_canonical] in *.
  apply andb_true_iff in Hd as [-> Hd]. rewrite split_slash_app, forallb_app, Hd.
  rewrite split_slash_free by done. cbn [forallb andb]. rewrite andb_true_r.
  apply negb_true_iff, bool_decide_eq_false. by intros [|[|]].
Qed.

Lemma slash_free_true nm : slash_free nm -> forallb not_slash nm = true.
Proof. induction 1 as [|x nm Hx _ IH]; [done|]. simpl. by rewrite Hx, IH. Qed.

(** ** Directory listings *)

Lemma entry_of_iff dir k nm : dir <> [SLASH] ->
  entry_of dir k = Some nm <-> k = dir ++ SLASH :: nm /\ slash_free nm /\ nm <> [].
Proof.
  intros Hd. unfold entry_of. assert (E : streq dir [SLASH] = false).
  { destruct (streq dir [SLASH]) eqn:E; [by apply streq_true in E|done]. }
  rewrite E. split.
  - intros H. case_if_in H; [|done]. injection H as <-. apply andb_true_iff in Eif as [Eif H2].
    apply andb_true_iff in Eif as [H1 H3]. apply strneq_prefix in H1 as [r ->].
    rewrite drop_app_length in *. rewrite <-app_assoc. split; [done|].
    split; [by apply slash_free_cs|]. intros ->. done.
  - intros (-> & Hf & Hne). replace (dir ++ SLASH :: nm) with ((dir ++ [SLASH]) ++ nm) by (by rewrite <-app_assoc).
    rewrite drop_app_length. rewrite (proj2 (strneq_prefix _ _)) by (by exists nm).
    destruct nm as [|x nm]; [done|]. cbn [length Nat.eqb negb andb].
    by rewrite (slash_free_true _ Hf).
Qed.

Lemma entries_elem t dir nm : dir <> [SLASH] ->
  nm ∈ entries t dir <-> is_Some (t !! (dir ++ SLASH :: nm)) /\ slash_free nm /\ nm <> [].
Proof.
  intros Hd. unfold entries. rewrite list_elem_of_omap. split.
  - intros ([k x] & Hk & He). apply entry_of_iff in He as (-> & ? & ?); [|done].
    apply elem_of_map_to_list in Hk. split; [by eexists|done].
  - intros ([x Hx] & Hf & Hne). exists (dir ++ SLASH :: nm, x). split; [by apply elem_of_map_to_list|].
    by apply entry_of_iff.
Qed.

Lemma find_in_Some names i c : find_in names i = Some c ->
  exists nm, nm ∈ names /\ parse_marker_exact nm = Some (i, c).
Proof.
  induction names as [|nm names IH]; [done|]. cbn [find_in].
  destruct (parse_marker_exact nm) as [[j d]|] eqn:Ep.
  - destruct (Z.eqb_spec j i) as [->|].
    + intros [= ->]. exists nm. split; [left|done].
    + intros H. apply IH in H as (m & ? & ?). exists m. split; [by right|done].
  - intros H. apply IH in H as (m & ? & ?). exists m. split; [by right|done].
Qed.

Lemma find_in_exists names i c nm : nm ∈ names -> parse_marker_exact nm = Some (i, c) ->
  is_Some (find_in names i).
Proof.
  intros Hin Hp. induction Hin as [nm names|nm m names _ IH]; cbn [find_in].
  - rewrite Hp, Z.eqb_refl. by eexists.
  - destruct (parse_marker_exact m) as [[j d]|]; [|by apply IH]. case_if; [by eexists|by apply IH].
Qed.

(** ** Calls that are not refused *)

Lemma mthen_eq {A B} (m : M A) (k : A -> M B) h a h' : m h = (a, h') -> mthen m k h = k a h'.
Proof. intros H. unfold mthen. by rewrite H. Qed.

Lemma mthen_ret {A B} (a : A) (k : A -> M B) h : mthen (ret a) k h = k a h.
Proof. done. Qed.

(** One call of a sequence, by the equation of what it does. *)
Ltac run H := erewrite mthen_eq by (eapply H; try eassumption; eauto with cng); cbv beta iota zeta.

Section Runs.
Context (t : gmap cstr node) (n : Z).

Lemma lstat_run p :
  l2s_lstat p (Host t [] n) =
  (match t !! p with Some x => inr x | None => inl (- ENOENT) end, Host t [] n).
Proof. done. Qed.

Lemma lstat_some p x : t !! p = Some x -> l2s_lstat p (Host t [] n) = (inr x, Host t [] n).
Proof. intros H. by rewrite lstat_run, H. Qed.

Lemma lstat_none p : t !! p = None -> l2s_lstat p (Host t [] n) = (inl (- ENOENT), Host t [] n).
Proof. intros H. by rewrite lstat_run, H. Qed.

Lemma readlink_some p text : t !! p = Some (NLink text) -> (length text < CNG_PATH_MAX)%nat ->
  l2s_readlink p (CNG_PATH_MAX - 1) (Host t [] n) = (inr text, Host t [] n).
Proof. intros H Hl. unfold l2s_readlink. cbn -[CNG_PATH_MAX Nat.sub take]. by rewrite H, take_ge by lia. Qed.

Lemma data_at_some p x : t !! p = Some x -> data_at p (Host t [] n) = (is_data x, Host t [] n).
Proof. intros H. unfold data_at. by rewrite (mthen_eq _ _ _ _ _ (lstat_some p x H)). Qed.

Lemma symlink_new text p : parent_ok t p = true -> text <> [] -> t !! p = None ->
  l2s_symlink text p (Host t [] n) = (0, Host (<[p := NLink text]> t) [] n).
Proof.
  intros H1 H2 H3. unfold l2s_symlink. cbn. rewrite H1. cbn [negb orb].
  destruct text as [|c text]; [done|]. cbn [length Nat.eqb]. rewrite bool_decide_eq_false_2; [done|].
  rewrite H3. by intros [? ?].
Qed.

Lemma symlink_there text p x : parent_ok t p = true -> text <> [] -> t !! p = Some x ->
  l2s_symlink text p (Host t [] n) = (- EEXIST, Host t [] n).
Proof.
  intros H1 H2 H3. unfold l2s_symlink. cbn. rewrite H1. cbn [negb orb].
  destruct text as [|c text]; [done|]. cbn [length Nat.eqb]. rewrite bool_decide_eq_true_2; [done|].
  by rewrite H3.
Qed.

Lemma rename_new o p x : t !! o = Some x -> is_dir x = false -> parent_ok t p = true -> o <> p ->
  t !! p = None -> l2s_rename o p (Host t [] n) = (0, Host (<[p := x]> (delete o t)) [] n).
Proof.
  intros H1 H2 H3 H4 H5. unfold l2s_rename. cbn. rewrite H1, H3. cbn [negb].
  destruct (streq o p) eqn:E; [by apply streq_true in E|]. by rewrite H2, H5.
Qed.

Lemma unlink_some p x : t !! p = Some x -> is_dir x = false ->
  l2s_unlink p (Host t [] n) = (0, Host (delete p t) [] n).
Proof. intros H1 H2. unfold l2s_unlink, call, mthen. cbn. rewrite H1. by destruct x. Qed.

Lemma touch_new p : t !! p = None -> parent_ok t p = true ->
  l2s_touch p (Host t [] n) = (tt, Host (<[p := NNode n (S_IFREG + 384) []]> t) [] (n + 1)).
Proof. intros H1 H2. unfold l2s_touch, open_create, call, mthen. cbn. by rewrite H1, H2. Qed.

Lemma list_dir_run d : t !! d = Some NDir ->
  list_dir d (Host t [] n) = (Some (entries t d), Host t [] n).
Proof. intros H. unfold list_dir, open_dir, call, mthen. cbn. by rewrite H. Qed.

Lemma exchange_run E a b x y : l_no_rename2 E = false -> t !! a = Some x -> t !! b = Some y ->
  is_dir x = false -> is_dir y = false ->
  l2s_exchange E a b (Host t [] n) = (0, Host (<[a := y]> (<[b := x]> t)) [] n).
Proof. intros H1 H2 H3 H4 H5. unfold l2s_exchange. rewrite H1. cbn. by rewrite H2, H3, H4, H5. Qed.
End Runs.

(** ** The store of a view *)

Definition store (fs : cng_fs) : cstr := f_rootfs fs ++ SLASH :: cs ".l2s".

(** The view's rootfs is not the host's root, and its store a plain path. *)
Record lview (E : lenv) (fs : cng_fs) : Prop := LView {
  lv_view : l_view E = Some fs;
  lv_wf : fs_wf fs;
  lv_root : f_rootfs fs <> [];
  lv_canon : l2s_canonical (store fs) = true;
  lv_proc : l2s_under_proc (store fs) = false }.

Section Store.
Context (E : lenv) (fs : cng_fs) (Hv : lview E fs).

Notation store := (store fs).
Definition lockf : cstr := store ++ SLASH :: cs ".lock".
Definition dataf (i : Z) : cstr := store ++ SLASH :: data_name i.
Definition mark (i c : Z) : cstr := store ++ SLASH :: marker_name i c.

Lemma store_length : (6 <= length store < 517)%nat.
Proof.
  pose proof (fw_rsz fs (lv_wf _ _ Hv)) as H. pose proof (lv_root _ _ Hv) as Hr.
  unfold HOST_SZ in H. unfold L2sFacts.store. rewrite length_app. simpl.
  destruct (f_rootfs fs); [done|]. simpl in *. lia.
Qed.

Lemma store_ne : store <> [] /\ store <> [SLASH].
Proof. pose proof store_length. split; intros H'; rewrite H' in *; simpl in *; lia. Qed.

Lemma store_app_inj a b : store ++ SLASH :: a = store ++ SLASH :: b -> a = b.
Proof. intros H. apply app_inv_head in H. by injection H. Qed.

Lemma below_store a : store ++ SLASH :: a <> store.
Proof. intros H. apply (f_equal length) in H. rewrite length_app in H. simpl in H. lia. Qed.

Lemma dataf_inj i j : in_u64 i -> in_u64 j -> dataf i = dataf j -> i = j.
Proof. intros Hi Hj H. apply store_app_inj in H. by apply data_name_inj. Qed.

Lemma mark_inj i c j d : in_u64 i -> in_u64 c -> in_u64 j -> in_u64 d ->
  mark i c = mark j d -> i = j /\ c = d.
Proof. intros Hi Hc Hj Hd H. apply store_app_inj in H. by apply marker_name_inj. Qed.

Lemma dataf_mark i j c : in_u64 i -> in_u64 j -> dataf i <> mark j c.
Proof. intros Hi Hj H. apply store_app_inj in H. exact (data_marker_apart i j c Hi Hj H). Qed.

Lemma dataf_lock i : dataf i <> lockf.
Proof. intros H. apply store_app_inj, (f_equal (.!! 2%nat)) in H. discriminate H. Qed.

Lemma mark_lock i c : mark i c <> lockf.
Proof. intros H. apply store_app_inj, (f_equal (.!! 2%nat)) in H. discriminate H. Qed.

Lemma dataf_length i : in_u64 i -> (length (dataf i) < 560)%nat.
Proof.
  intros Hi. pose proof store_length. pose proof (put_u64_length i 1 Hi ltac:(lia)).
  unfold dataf, data_name. rewrite length_app. cbn [length]. rewrite length_app.
  change (length L2S_PREFIX) with 5%nat. lia.
Qed.

Lemma store_no_sep : negb (negb (length store =? 0)%nat && char_is store (length store - 1) SLASH) = true.
Proof.
  unfold L2sFacts.store. rewrite length_app. cbn [length]. unfold char_is.
  rewrite lookup_app_r by (simpl; lia).
  replace (length (f_rootfs fs) + S (length (cs ".l2s")) - 1 - length (f_rootfs fs))%nat with 4%nat by (simpl; lia).
  cbn. by rewrite andb_false_r.
Qed.

Lemma build_data i : in_u64 i -> build_name CNG_PATH_MAX store i None = Some (dataf i).
Proof.
  intros Hi. pose proof (dataf_length i Hi) as L. pose proof store_length as LS.
  unfold build_name. rewrite store_no_sep.
  assert (E2 : ((store ++ [SLASH]) ++ L2S_PREFIX) ++ put_u64 i 1 = dataf i)
    by (unfold dataf, data_name; by rewrite <-!app_assoc).
  assert (L2 : (length ((store ++ [SLASH]) ++ L2S_PREFIX) <= length (dataf i))%nat)
    by (rewrite <-E2, (length_app _ (put_u64 i 1)); lia).
  destruct (Nat.ltb_spec (CNG_PATH_MAX - 1) (length store)); [unfold CNG_PATH_MAX in *; lia|].
  destruct (Nat.ltb_spec (length store) (CNG_PATH_MAX - 1)); [|unfold CNG_PATH_MAX in *; lia]. cbn [andb].
  destruct (Nat.leb_spec (CNG_PATH_MAX - 1) (length ((store ++ [SLASH]) ++ L2S_PREFIX)));
    [unfold CNG_PATH_MAX in *; lia|].
  rewrite E2. destruct (Nat.ltb_spec (CNG_PATH_MAX - 1) (length (dataf i))); [unfold CNG_PATH_MAX in *; lia|done].
Qed.

Lemma build_mark i c : in_u64 i -> in_u64 c ->
  build_name CNG_PATH_MAX store i (Some c) = Some (mark i c).
Proof.
  intros Hi Hc. pose proof (build_data i Hi) as Hd. pose proof (dataf_length i Hi) as L.
  pose proof (put_u64_length c 4 Hc ltac:(lia)) as Lc. unfold build_name in *. cbv zeta in *.
  destruct (CNG_PATH_MAX - 1 <? length store)%nat; [done|].
  set (out := (if _ && _ then _ else _) ++ L2S_PREFIX) in *.
  destruct (CNG_PATH_MAX - 1 <=? length out)%nat; [done|].
  destruct (CNG_PATH_MAX - 1 <? length (out ++ put_u64 i 1))%nat; [done|]. injection Hd as Hd.
  rewrite Hd. destruct (Nat.ltb_spec (length (dataf i)) (CNG_PATH_MAX - 1)); [|unfold CNG_PATH_MAX in *; lia].
  assert (E2 : (dataf i ++ [DOT]) ++ put_u64 c 4 = mark i c)
    by (unfold mark, marker_name, dataf; by rewrite <-!app_assoc).
  rewrite <-E2 in *. rewrite !length_app. cbn [length].
  destruct (Nat.ltb_spec (CNG_PATH_MAX - 1) (length (dataf i) + 1 + length (put_u64 c 4)));
    [unfold CNG_PATH_MAX in *; lia|done].
Qed.

(** ** The store is the guest's own *)

Lemma owned_below_root p :
  path_under p (f_rootfs fs) -> (length p < 600)%nat -> l2s_owned E p = true.
Proof.
  intros Hu Hl. unfold l2s_owned. rewrite (lv_view _ _ Hv). apply orb_true_iff. left.
  apply bool_decide_eq_true. unfold host_dir_guest. pose proof (lv_wf _ _ Hv) as Hwf.
  assert (H : is_Some (untranslate_1 fs p CNG_PATH_MAX)); [|by destruct H as [g ->]].
  unfold untranslate_1. rewrite (fw_rlen fs Hwf).
  rewrite (proj2 (host_under_spec p (f_rootfs fs))) by (by right). cbn [fst snd].
  assert (J : forall pfx k, (length pfx < GUEST_SZ)%nat ->
    is_Some (out ← join_checked pfx (drop k p) CNG_PATH_MAX;
             Some (if (length out =? 0)%nat then fst (strlcpy [SLASH] CNG_PATH_MAX) else out))).
  { intros pfx k Hp. rewrite (proj2 (join_checked_Some pfx (drop k p) CNG_PATH_MAX (pfx ++ drop k p))).
    - by eexists.
    - split; [done|]. rewrite length_drop. unfold GUEST_SZ, CNG_PATH_MAX in *. lia. }
  destruct (best_host_spec p (f_binds fs) 0 RRootfs (length (f_rootfs fs)))
    as [[-> _]|(k & l & -> & _ & [(b & Hb & _) _])].
  - apply (J []). unfold GUEST_SZ. simpl. lia.
  - cbn [mbind option_bind]. rewrite Nat.add_0_l, Hb. cbn [fmap option_fmap option_map mbind option_bind].
    apply J. by apply bw_gsz, (fs_wf_bind fs k).
Qed.

Lemma below_root a : path_under (store ++ SLASH :: a) (f_rootfs fs).
Proof.
  exists (SLASH :: cs ".l2s" ++ SLASH :: a). split.
  - unfold L2sFacts.store. by rewrite <-app_assoc.
  - right. eauto.
Qed.

Lemma dataf_owned i : in_u64 i -> l2s_owned E (dataf i) = true.
Proof.
  intros Hi. apply owned_below_root; [apply below_root|]. pose proof (dataf_length i Hi). lia.
Qed.

Lemma dataf_canonical i : in_u64 i -> l2s_canonical (dataf i) = true.
Proof.
  intros Hi. apply canonical_app; [apply (lv_canon _ _ Hv)|by apply data_name_slash_free|done..].
Qed.

Lemma dataf_not_proc i : l2s_under_proc (dataf i) = false.
Proof.
  pose proof (lv_proc _ _ Hv) as H. pose proof store_length as L. unfold l2s_under_proc in *.
  unfold dataf, strneq, at_boundary, char_is, at_end in *.
  rewrite take_app_le, lookup_app_l by lia. done.
Qed.

Lemma dataf_basename i : in_u64 i -> l2s_basename (dataf i) = data_name i.
Proof. intros Hi. by apply basename_app, data_name_slash_free. Qed.

Lemma dataf_dirname i : in_u64 i -> l2s_dirname (dataf i) CNG_PATH_MAX = store.
Proof.
  intros Hi. pose proof store_length. apply dirname_in; [by apply data_name_slash_free| |].
  - apply store_ne.
  - unfold CNG_PATH_MAX. lia.
Qed.

Lemma dataf_ne i : dataf i <> [].
Proof. unfold dataf. by destruct store. Qed.

Lemma store_parent t nm : slash_free nm -> t !! store = Some NDir ->
  parent_ok t (store ++ SLASH :: nm) = true.
Proof. intros H1 H2. apply parent_ok_in; [done|apply store_ne|done]. Qed.
End Store.

#[global] Arguments store : simpl never.
#[global] Arguments dataf : simpl never.
#[global] Arguments mark : simpl never.
#[global] Arguments lockf : simpl never.
