(* ===== verification/L2sGroup.v ===== *)
(** * Groups of emulated hard links

    What the store holds between operations, and what resolving, joining and
    leaving a group do to it on a host that refuses nothing. *)

From Stdlib Require Import ZArith Ascii String Lia.
From S2P Require Import Prelude Path PathCanon PathFacts PathRev Fmt ProcStat Resolve ResolveFacts L2sName L2s L2sNameProps L2sFacts.
From stdpp Require Import base numbers strings gmap list.

Open Scope Z_scope.
Open Scope l2s_scope.

Section Group.
Context (E : lenv) (fs : cng_fs) (Hv : lview E fs).

Notation store := (store fs).
Notation dataf := (dataf fs).
Notation mark := (mark fs).
Notation lockf := (lockf fs).

(** A name that is the guest's to link: of the view, and none of the
    emulation's own. *)
Record ordinary (p : cstr) : Prop := Ordinary {
  o_canon : l2s_canonical p = true;
  o_owned : l2s_owned E p = true;
  o_length : (length p < CNG_PATH_MAX)%nat;
  o_hidden : cng_l2s_hidden (l2s_basename p) = false;
  o_proot : pr_is_data (l2s_basename p) = false;
  o_store : p <> store;
  o_below : forall r, p <> store ++ SLASH :: r }.

(** The group of the inode [i], whose names are [L]: the file under its hidden
    name, a link to it at each of the names and nowhere else, and one marker,
    which counts them. *)
Record group (t : gmap cstr node) (i : Z) (L : gset cstr) : Prop := Group {
  gr_store : t !! store = Some NDir;
  gr_data : exists m b, t !! dataf i = Some (NNode i m b);
  gr_links : forall p, t !! p = Some (NLink (dataf i)) <-> p ∈ L;
  gr_names : forall p, p ∈ L -> ordinary p;
  gr_some : L <> ∅;
  gr_size : in_u64 (Z.of_nat (size L));
  gr_mark : exists j m b, t !! mark i (Z.of_nat (size L)) = Some (NNode j m b);
  gr_one : forall c, in_u64 c -> is_Some (t !! mark i c) -> c = Z.of_nat (size L) }.

Record nogroup (t : gmap cstr node) (i : Z) : Prop := NoGroup {
  ng_data : t !! dataf i = None;
  ng_links : forall p, t !! p <> Some (NLink (dataf i));
  ng_mark : forall c, in_u64 c -> t !! mark i c = None }.

(** The host's tree between operations; [n] is the next inode. *)
Record inv (t : gmap cstr node) (n : Z) : Prop := Inv {
  inv_root : t !! f_rootfs fs = Some NDir;
  inv_store : t !! store = None \/ t !! store = Some NDir;
  inv_lock : t !! lockf = None \/ exists i m b, t !! lockf = Some (NNode i m b);
  inv_uniq : forall p q i m b m' b',
    t !! p = Some (NNode i m b) -> t !! q = Some (NNode i m' b') -> p = q;
  inv_next : forall p i m b, t !! p = Some (NNode i m b) -> i < n;
  inv_tree : forall p, ordinary p -> is_Some (t !! p) -> parent_ok t p = true;
  inv_group : forall i, in_u64 i -> (exists L, group t i L) \/ nogroup t i }.

(** What taking the lock needs of the tree. *)
Record lockable (t : gmap cstr node) : Prop := Lockable {
  lk_root : t !! f_rootfs fs = Some NDir;
  lk_store : t !! store = None \/ t !! store = Some NDir;
  lk_lock : t !! lockf = None \/ exists i m b, t !! lockf = Some (NNode i m b) }.

Lemma inv_lockable t n : inv t n -> lockable t.
Proof. intros H. constructor; apply H. Qed.

(** ** The marker *)

(** The inode [i] has one marker, that of the count [c]. *)
Record marked (t : gmap cstr node) (i c : Z) (x : node) : Prop := Marked {
  mk_store : t !! store = Some NDir;
  mk_count : in_u64 c;
  mk_mark : t !! mark i c = Some x;
  mk_data : is_data x = true;
  mk_one : forall d, in_u64 d -> is_Some (t !! mark i d) -> d = c }.

Lemma group_marked t i L : group t i L -> exists x, marked t i (Z.of_nat (size L)) x.
Proof.
  intros Hg. destruct (gr_mark _ _ _ Hg) as (j & m & b & Hm). exists (NNode j m b).
  constructor; [apply Hg..|done|done|apply Hg].
Qed.

Lemma find_marker_run t n i c x : in_u64 i -> marked t i c x ->
  find_marker store i (Host t [] n) = (Some c, Host t [] n).
Proof.
  intros Hi Hm. unfold find_marker. rewrite (mthen_eq _ _ _ _ _ (list_dir_run t n store (mk_store _ _ _ _ Hm))).
  cbn [mbind option_bind]. unfold ret. f_equal.
  destruct (store_ne E fs Hv) as [_ Hs]. pose proof (mk_count _ _ _ _ Hm) as Hz.
  assert (Hin : marker_name i c ∈ entries t store).
  { apply entries_elem; [done|]. split; [eexists; apply (mk_mark _ _ _ _ Hm)|].
    split; [by apply marker_name_slash_free|]. done. }
  destruct (find_in_exists _ i c _ Hin) as [d Hd]. { by apply parse_marker_exact_iff. }
  rewrite Hd. f_equal. apply find_in_Some in Hd as (nm & Hnm & Hp).
  apply parse_marker_exact_iff in Hp as (_ & Hcu & ->).
  apply entries_elem in Hnm as [Hs' _]; [|done]. by apply (mk_one _ _ _ _ Hm).
Qed.

Lemma marker_count_run t n i L : in_u64 i -> group t i L ->
  marker_count (dataf i) i (Host t [] n) = (Z.of_nat (size L), Host t [] n).
Proof.
  intros Hi Hg. unfold marker_count. rewrite (dataf_dirname E fs Hv) by done.
  destruct (group_marked t i L Hg) as [x Hm].
  by rewrite (mthen_eq _ _ _ _ _ (find_marker_run t n i _ x Hi Hm)).
Qed.

(** ** Resolving a name *)

Lemma locate_data t n i L p : in_u64 i -> group t i L ->
  l2s_locate E p (dataf i) CNG_PATH_MAX (Host t [] n) = (LData (dataf i) false, Host t [] n).
Proof.
  intros Hi Hg. unfold l2s_locate. rewrite (dataf_basename fs) by done.
  rewrite bool_decide_eq_true_2 by (rewrite (proj2 (parse_data_exact_iff _ i)); [by eexists|done]).
  cbn [negb]. pose proof (dataf_canonical E fs Hv i Hi) as Hc.
  assert (Hs : char_is (dataf i) 0 SLASH = true).
  { destruct (dataf i) as [|c r] eqn:Ed; [done|]. cbn in Hc. apply andb_true_iff in Hc as [Hc _].
    apply is_slash_true in Hc as ->. done. }
  rewrite Hs, Hc, (dataf_owned E fs Hv) by done. cbn [negb].
  pose proof (dataf_length E fs Hv i Hi).
  destruct (Nat.leb_spec CNG_PATH_MAX (length (dataf i))); [unfold CNG_PATH_MAX in *; lia|].
  destruct (gr_data _ _ _ Hg) as (m & b & Hd).
  by rewrite (mthen_eq _ _ _ _ _ (data_at_some t n (dataf i) _ Hd)).
Qed.

Lemma resolve_member t n i L p want : in_u64 i -> group t i L -> p ∈ L ->
  cng_l2s_resolve E p CNG_PATH_MAX want (Host t [] n) =
  (inr (Some (dataf i, if want then Z.of_nat (size L) else 0)), Host t [] n).
Proof.
  intros Hi Hg Hp. apply (gr_links _ _ _ Hg) in Hp. unfold cng_l2s_resolve.
  rewrite (mthen_eq _ _ _ _ _ (lstat_some t n p _ Hp)). cbn [is_lnk negb].
  pose proof (dataf_length E fs Hv i Hi).
  rewrite (mthen_eq _ _ _ _ _ (readlink_some t n p _ Hp ltac:(unfold CNG_PATH_MAX; lia))).
  rewrite (mthen_eq _ _ _ _ _ (locate_data t n i L p Hi Hg)).
  rewrite mthen_ret.
  rewrite (dataf_basename fs), parse_data_name by done. cbn [default from_option id].
  destruct want; [|done]. by rewrite (mthen_eq _ _ _ _ _ (marker_count_run t n i L Hi Hg)).
Qed.

Lemma resolve_plain t n p x want dsz : t !! p = Some x -> is_lnk x = false ->
  cng_l2s_resolve E p dsz want (Host t [] n) = (inr None, Host t [] n).
Proof.
  intros Hp Hx. unfold cng_l2s_resolve. rewrite (mthen_eq _ _ _ _ _ (lstat_some t n p _ Hp)).
  by rewrite Hx.
Qed.

(** ** What leaves a group as it is *)

Record same_group (t t' : gmap cstr node) (i : Z) : Prop := SameGroup {
  sg_store : t !! store = Some NDir -> t' !! store = Some NDir;
  sg_data : t' !! dataf i = t !! dataf i;
  sg_mark : forall c, in_u64 c -> t' !! mark i c = t !! mark i c;
  sg_links : forall p, t' !! p = Some (NLink (dataf i)) <-> t !! p = Some (NLink (dataf i)) }.

Lemma group_same t t' i L : same_group t t' i -> group t i L -> group t' i L.
Proof.
  intros [S1 S2 S3 S4] [G1 G2 G3 G4 G5 G6 G7 G8]. constructor; [auto| |naive_solver|done..| |].
  - by rewrite S2.
  - by rewrite S3.
  - intros c Hc. rewrite S3 by done. by apply G8.
Qed.

Lemma nogroup_same t t' i : same_group t t' i -> nogroup t i -> nogroup t' i.
Proof.
  intros [S1 S2 S3 S4] [N1 N2 N3]. constructor; [by rewrite S2| |intros; rewrite S3; auto].
  intros p Hp. apply S4 in Hp. by apply N2 in Hp.
Qed.

Lemma either_same t t' i : same_group t t' i ->
  (exists L, group t i L) \/ nogroup t i -> (exists L, group t' i L) \/ nogroup t' i.
Proof.
  intros H [[L Hg]|Hn]; [left; exists L; by eapply group_same|right; by eapply nogroup_same].
Qed.

(** ** The store and the lock *)

Definition store_tree (t : gmap cstr node) : gmap cstr node :=
  match t !! store with Some _ => t | None => <[store := NDir]> t end.

Lemma store_dir_run t n : lockable t ->
  l2s_store_dir E CNG_PATH_MAX (Host t [] n) = (inr store, Host (store_tree t) [] n).
Proof.
  intros Hi. unfold l2s_store_dir. rewrite (lv_view _ _ Hv).
  change (f_rootfs fs ++ cs "/.l2s") with store.
  assert (Hp : parent_ok t store = true).
  { apply parent_ok_in; [by apply slash_free_cs|apply (lv_root _ _ Hv)|apply (lk_root _ Hi)]. }
  pose proof (store_length E fs Hv) as L.
  assert (L2 : length store = (length (f_rootfs fs) + 5)%nat)
    by (unfold L2sFacts.store; by rewrite length_app).
  destruct (Nat.leb_spec CNG_PATH_MAX (length (f_rootfs fs) + 6)); [unfold CNG_PATH_MAX in *; lia|].
  unfold store_tree, pin_mkdir, call, mthen, l2s_lstat, call, mthen. cbn.
  destruct (lk_store _ Hi) as [Es|Es]; rewrite Es.
  - rewrite bool_decide_eq_false_2 by (by intros [? ?]). rewrite Hp. cbn.
    by rewrite lookup_insert_eq.
  - rewrite bool_decide_eq_true_2 by (by eexists). change ((- EEXIST <? 0) && _) with false. cbn.
    by rewrite Es.
Qed.

(** The tree once the lock has been asked for. *)
Definition lock_tree (t : gmap cstr node) (n : Z) : gmap cstr node :=
  match t !! lockf with
  | Some _ => store_tree t
  | None => <[lockf := NNode n (S_IFREG + 384) []]> (store_tree t)
  end.

Definition lock_next (t : gmap cstr node) (n : Z) : Z :=
  match t !! lockf with Some _ => n | None => n + 1 end.

Lemma lockf_store : lockf <> store.
Proof. apply below_store. Qed.

Lemma store_tree_other t p : p <> store -> store_tree t !! p = t !! p.
Proof. intros H. unfold store_tree. destruct (t !! store); [done|]. by rewrite lookup_insert_ne. Qed.

Lemma store_tree_store t : lockable t -> store_tree t !! store = Some NDir.
Proof.
  intros Hi. unfold store_tree. destruct (lk_store _ Hi) as [Es|Es]; rewrite Es; [|done].
  by rewrite lookup_insert_eq.
Qed.

Lemma lock_tree_other t n p : p <> store -> p <> lockf -> lock_tree t n !! p = t !! p.
Proof.
  intros H1 H2. unfold lock_tree. destruct (t !! lockf); [by apply store_tree_other|].
  rewrite lookup_insert_ne by done. by apply store_tree_other.
Qed.

Lemma lock_run x t n : lockable t ->
  l2s_lock E x (Host t [] n) = (true, Host (lock_tree t n) [] (lock_next t n)).
Proof.
  intros Hi. unfold l2s_lock. rewrite (mthen_eq _ _ _ _ _ (store_dir_run t n Hi)). cbv beta iota.
  pose proof (store_length E fs Hv) as L.
  destruct (Nat.ltb_spec (length store + 7) CNG_PATH_MAX); [|unfold CNG_PATH_MAX in *; lia].
  change (store ++ cs "/.lock") with lockf.
  assert (Ho : open_create lockf 384 (Host (store_tree t) [] n) =
    (0, Host (lock_tree t n) [] (lock_next t n))).
  { unfold open_create, call, mthen. cbn. unfold lock_tree, lock_next.
    rewrite (store_tree_other t lockf) by apply lockf_store.
    destruct (lk_lock _ Hi) as [El|(i & m & b & El)]; rewrite El; [|done].
    assert (Hp : parent_ok (store_tree t) lockf = true).
    { apply (store_parent E fs Hv); [by apply slash_free_cs|by apply (store_tree_store t)]. }
    by rewrite Hp. }
  rewrite (mthen_eq _ _ _ _ _ Ho). cbv beta iota. done.
Qed.

Lemma same_group_lock t n i : in_u64 i -> lockable t -> same_group t (lock_tree t n) i.
Proof.
  intros Hi Hinv. constructor.
  - intros _. unfold lock_tree. destruct (t !! lockf); [by apply (store_tree_store t)|].
    rewrite lookup_insert_ne by apply lockf_store. by apply (store_tree_store t).
  - apply lock_tree_other; [apply below_store|apply dataf_lock].
  - intros c _. apply lock_tree_other; [apply below_store|apply mark_lock].
  - intros p. destruct (decide (p = store)) as [->|Hs].
    { unfold lock_tree. assert (X : store_tree t !! store = Some NDir) by (by apply (store_tree_store t)).
      destruct (t !! lockf); [|rewrite lookup_insert_ne by apply lockf_store]; rewrite X;
        destruct (lk_store _ Hinv) as [->| ->]; done. }
    destruct (decide (p = lockf)) as [->|Hl]; [|by rewrite lock_tree_other].
    unfold lock_tree. destruct (lk_lock _ Hinv) as [->|(j & m & b & El)].
    + by rewrite lookup_insert_eq.
    + rewrite El. by rewrite store_tree_other, El by apply lockf_store.
Qed.

(** A file in the locked tree was there before, or is the lock. *)
Lemma lock_tree_node t n p i m b : lockable t -> lock_tree t n !! p = Some (NNode i m b) ->
  t !! p = Some (NNode i m b) \/ (p = lockf /\ i = n /\ t !! lockf = None).
Proof.
  intros Hinv H. destruct (decide (p = lockf)) as [->|Hl].
  - unfold lock_tree in H. destruct (t !! lockf) as [x|] eqn:El.
    + left. by rewrite store_tree_other, El in H by apply lockf_store.
    + right. rewrite lookup_insert_eq in H. by injection H as <- _ _.
  - destruct (decide (p = store)) as [->|Hs]; [|left; by rewrite lock_tree_other in H].
    exfalso. assert (X : store_tree t !! store = Some NDir) by (by apply (store_tree_store t)).
    unfold lock_tree in H. destruct (t !! lockf); [by rewrite X in H|].
    rewrite lookup_insert_ne in H by apply lockf_store. by rewrite X in H.
Qed.

Lemma lock_next_le t n : n <= lock_next t n.
Proof. unfold lock_next. destruct (t !! lockf); lia. Qed.

Lemma root_store : f_rootfs fs <> store /\ f_rootfs fs <> lockf.
Proof.
  assert (L : forall r, f_rootfs fs <> f_rootfs fs ++ SLASH :: r).
  { intros r H. apply (f_equal length) in H. rewrite length_app in H. simpl in H. lia. }
  split; [apply L|]. unfold L2sFacts.lockf, L2sFacts.store. rewrite <-app_assoc. apply L.
Qed.

(** No operation takes a directory away. *)
Definition dirs_kept (t t' : gmap cstr node) : Prop :=
  forall d, t !! d = Some NDir -> t' !! d = Some NDir.

Lemma parent_mono t t' p : dirs_kept t t' -> parent_ok t p = true -> parent_ok t' p = true.
Proof.
  intros Hd H. unfold parent_ok in *. destruct (t !! l2s_dirname p (S (length p))) as [[| |]|] eqn:Ed; try done.
  by rewrite (Hd _ Ed).
Qed.

Lemma lock_dirs t n : lockable t -> dirs_kept t (lock_tree t n).
Proof.
  intros Hi d Hd. destruct (decide (d = lockf)) as [->|Hl].
  { destruct (lk_lock _ Hi) as [El|(j & m & b & El)]; rewrite El in Hd; done. }
  destruct (decide (d = store)) as [->|Hs]; [|by rewrite lock_tree_other].
  unfold lock_tree. destruct (t !! lockf); [by apply (store_tree_store t)|].
  rewrite lookup_insert_ne by apply lockf_store. by apply (store_tree_store t).
Qed.

Lemma lock_store t n : lockable t -> lock_tree t n !! store = Some NDir.
Proof.
  intros Hl. unfold lock_tree. pose proof (store_tree_store t Hl) as X.
  destruct (t !! lockf); [done|]. by rewrite lookup_insert_ne by apply lockf_store.
Qed.

Lemma lock_lockable t n : lockable t -> lockable (lock_tree t n).
Proof.
  intros Hl. destruct root_store as [R1 R2]. constructor.
  - rewrite lock_tree_other by done. apply (lk_root _ Hl).
  - right. by apply lock_store.
  - right. unfold lock_tree. destruct (lk_lock _ Hl) as [->|(j & m & b & El)].
    + rewrite lookup_insert_eq. eauto.
    + rewrite El, store_tree_other, El by apply lockf_store. eauto.
Qed.

Lemma lock_marked t n i c x : lockable t -> marked t i c x -> marked (lock_tree t n) i c x.
Proof.
  intros Hl [M1 M2 M3 M4 M5].
  assert (K : forall d, lock_tree t n !! mark i d = t !! mark i d).
  { intros d. apply lock_tree_other; [apply below_store|apply mark_lock]. }
  constructor; [by apply lock_store|done|by rewrite K|done|].
  intros d Hd. rewrite K. by apply M5.
Qed.

Lemma lock_files t n :
  lockable t ->
  (forall p q i m b m' b', t !! p = Some (NNode i m b) -> t !! q = Some (NNode i m' b') -> p = q) ->
  (forall p i m b, t !! p = Some (NNode i m b) -> i < n) ->
  (forall p q i m b m' b', lock_tree t n !! p = Some (NNode i m b) ->
     lock_tree t n !! q = Some (NNode i m' b') -> p = q) /\
  (forall p i m b, lock_tree t n !! p = Some (NNode i m b) -> i < lock_next t n).
Proof.
  intros Hl H1 H2. split.
  - intros p q i m b m' b' Hp Hq. apply lock_tree_node in Hp, Hq; [|done..].
    destruct Hp as [Hp|(-> & -> & Hn)], Hq as [Hq|(-> & Hj & Hn')].
    + by eapply H1.
    + subst i. apply H2 in Hp. lia.
    + apply H2 in Hq. lia.
    + done.
  - intros p i m b Hp. pose proof (lock_next_le t n).
    apply lock_tree_node in Hp as [Hp|(-> & -> & Hn)]; [|unfold lock_next; rewrite Hn; lia|done].
    apply H2 in Hp. lia.
Qed.

Lemma lock_inv t n : inv t n -> inv (lock_tree t n) (lock_next t n).
Proof.
  intros Hi. pose proof (inv_lockable t n Hi) as Hl. pose proof (lock_lockable t n Hl) as Hl'.
  destruct (lock_files t n Hl (inv_uniq _ _ Hi) (inv_next _ _ Hi)) as [F1 F2].
  constructor; [apply Hl'..|exact F1|exact F2| |].
  - intros p Ho Hp. apply (parent_mono t); [by apply lock_dirs|]. apply (inv_tree _ _ Hi p Ho).
    by rewrite lock_tree_other in Hp by (apply Ho).
  - intros i Hu. eapply either_same; [by apply same_group_lock|]. by apply (inv_group _ _ Hi).
Qed.
End Group.
