(* ===== verification/L2sOps.v ===== *)
(** * Links and unlinks keep the groups

    What cng_l2s_link and unlinkat do on a host that refuses nothing, in terms of
    the groups in the store. *)

From Stdlib Require Import ZArith Ascii String Lia.
From S2P Require Import Prelude Path PathCanon PathFacts PathRev Fmt ProcStat Resolve ResolveFacts L2sName L2s L2sNameProps L2sFacts L2sGroup.
From stdpp Require Import base numbers strings gmap list.

Open Scope Z_scope.
Open Scope l2s_scope.

(** ** One host name per inode *)

Definition files_ok (t : gmap cstr node) (n : Z) : Prop :=
  (forall p q i m b m' b',
     t !! p = Some (NNode i m b) -> t !! q = Some (NNode i m' b') -> p = q) /\
  (forall p i m b, t !! p = Some (NNode i m b) -> i < n).

Lemma files_delete t n p : files_ok t n -> files_ok (delete p t) n.
Proof.
  intros [H1 H2]. split.
  - intros q q' i m b m' b' Hq Hq'. apply lookup_delete_Some in Hq as [_ Hq], Hq' as [_ Hq'].
    by eapply H1.
  - intros q i m b Hq. apply lookup_delete_Some in Hq as [_ Hq]. by eapply H2.
Qed.

Lemma files_link t n p text : files_ok t n -> files_ok (<[p := NLink text]> t) n.
Proof.
  intros [H1 H2]. split.
  - intros q q' i m b m' b' Hq Hq'. apply lookup_insert_Some in Hq as [[_ ?]|[_ Hq]]; [done|].
    apply lookup_insert_Some in Hq' as [[_ ?]|[_ Hq']]; [done|]. by eapply H1.
  - intros q i m b Hq. apply lookup_insert_Some in Hq as [[_ ?]|[_ Hq]]; [done|]. by eapply H2.
Qed.

(** A file moved to another name. *)
Lemma files_move t n o p x : files_ok t n -> t !! o = Some x -> files_ok (<[p := x]> (delete o t)) n.
Proof.
  intros [H1 H2] Ho.
  assert (K : forall q i m b, <[p := x]> (delete o t) !! q = Some (NNode i m b) ->
    (q = p /\ x = NNode i m b) \/ (q <> p /\ q <> o /\ t !! q = Some (NNode i m b))).
  { intros q i m b Hq. apply lookup_insert_Some in Hq as [[-> ->]|[Hne Hq]]; [by left|].
    apply lookup_delete_Some in Hq as [Hne' Hq]. by right. }
  split.
  - intros q q' i m b m' b' Hq Hq'. apply K in Hq, Hq'.
    destruct Hq as [[-> ->]|(N1 & N2 & Hq)], Hq' as [[-> E']|(N1' & N2' & Hq')].
    + done.
    + exfalso. apply N2'. by eapply H1.
    + exfalso. subst x. apply N2. by eapply H1.
    + by eapply H1.
  - intros q i m b Hq. apply K in Hq as [[-> ->]|(_ & _ & Hq)]; by eapply H2.
Qed.

Lemma files_new t n p m b : files_ok t n -> t !! p = None -> files_ok (<[p := NNode n m b]> t) (n + 1).
Proof.
  intros [H1 H2] Hn. split.
  - intros q q' i m1 b1 m2 b2 Hq Hq'.
    apply lookup_insert_Some in Hq as [[<- Eq]|[_ Hq]], Hq' as [[<- Eq']|[_ Hq']]; [done| | |by eapply H1].
    + injection Eq as <- _ _. apply H2 in Hq'. lia.
    + injection Eq' as <- _ _. apply H2 in Hq. lia.
  - intros q i m1 b1 Hq. apply lookup_insert_Some in Hq as [[_ Eq]|[_ Hq]]; [injection Eq; lia|].
    apply H2 in Hq. lia.
Qed.

Section Ops.
Context (E : lenv) (fs : cng_fs) (Hv : lview E fs).

Notation store := (store fs).
Notation dataf := (dataf fs).
Notation mark := (mark fs).
Notation lockf := (lockf fs).
Notation inv := (inv E fs).
Notation group := (group E fs).
Notation nogroup := (nogroup fs).
Notation ordinary := (ordinary E fs).
Notation same_group := (same_group fs).

Lemma inv_files t n : inv t n -> files_ok t n.
Proof. intros H. split; [apply (inv_uniq _ _ _ _ H)|apply (inv_next _ _ _ _ H)]. Qed.

Lemma is_data_node x : is_data x = true -> exists i m b, x = NNode i m b.
Proof. destruct x; try done. eauto. Qed.

(** An ordinary name is none of the store's. *)
Lemma ordinary_apart p : ordinary p ->
  p <> store /\ p <> lockf /\ (forall i, p <> dataf i) /\ (forall i c, p <> mark i c).
Proof. intros H. split; [apply H|]. split; [apply H|]. split; intros; apply H. Qed.

(** The directory of an ordinary name is not the store. *)
Lemma ordinary_dirname p : ordinary p -> streq store (l2s_dirname p CNG_PATH_MAX) = false.
Proof.
  intros Ho. destruct (streq _ _) eqn:Es; [|done]. exfalso. apply streq_true in Es.
  destruct (path_split p (o_canon _ _ _ Ho)) as (d & nm & -> & Hf & Hne).
  destruct (decide (d = [])) as [->|Hd].
  - unfold l2s_dirname in Es. cbn [app] in Es. rewrite reverse_cons in Es.
    rewrite drop_while_app in Es by (by apply Forall_reverse). simpl in Es.
    destruct (store_ne E fs Hv) as [_ N]. done.
  - rewrite dirname_in in Es; [|done|done|].
    + subst d. by apply (o_below _ _ _ Ho nm).
    + pose proof (o_length _ _ _ Ho) as L. rewrite length_app in L. lia.
Qed.

(** ** Changes that are no business of a group *)

Record apart (j : Z) (p : cstr) : Prop := Apart {
  ap_store : p <> store; ap_data : p <> dataf j; ap_mark : forall c, in_u64 c -> p <> mark j c }.

Lemma ordinary_is_apart j p : ordinary p -> apart j p.
Proof. intros H. destruct (ordinary_apart p H) as (? & ? & ? & ?). by constructor. Qed.

Lemma mark_apart i j c : in_u64 i -> in_u64 j -> in_u64 c -> i <> j -> apart j (mark i c).
Proof.
  intros Hi Hj Hc Hne. constructor.
  - apply below_store.
  - intros H. by apply (dataf_mark fs j i c).
  - intros d Hd H. by apply mark_inj in H as [? _].
Qed.

Lemma dataf_apart i j : in_u64 i -> in_u64 j -> i <> j -> apart j (dataf i).
Proof.
  intros Hi Hj Hne. constructor.
  - apply below_store.
  - intros H. by apply dataf_inj in H.
  - intros c _. by apply dataf_mark.
Qed.

Lemma same_group_insert t j p x : apart j p -> x <> NLink (dataf j) ->
  t !! p <> Some (NLink (dataf j)) -> same_group t (<[p := x]> t) j.
Proof.
  intros [A1 A2 A3] Hx Hp. constructor.
  - by rewrite lookup_insert_ne.
  - by rewrite lookup_insert_ne.
  - intros c Hc. rewrite lookup_insert_ne; [done|]. by apply A3.
  - intros q. rewrite lookup_insert_Some. split; [|intros H].
    + by intros [[_ ->]|[_ H]].
    + right. split; [|done]. intros ->. by rewrite H in Hp.
Qed.

Lemma same_group_delete t j p : apart j p -> t !! p <> Some (NLink (dataf j)) ->
  same_group t (delete p t) j.
Proof.
  intros [A1 A2 A3] Hp. constructor.
  - by rewrite lookup_delete_ne.
  - by rewrite lookup_delete_ne.
  - intros c Hc. rewrite lookup_delete_ne; [done|]. by apply A3.
  - intros q. rewrite lookup_delete_Some. split; [by intros [_ H]|]. intros H. split; [|done].
    intros ->. by rewrite H in Hp.
Qed.

Lemma same_group_trans t1 t2 t3 j : same_group t1 t2 j -> same_group t2 t3 j -> same_group t1 t3 j.
Proof.
  intros [A1 A2 A3 A4] [B1 B2 B3 B4]. constructor; [auto|congruence| |].
  - intros c Hc. by rewrite B3, A3.
  - intros p. by rewrite B4, A4.
Qed.

(** ** Joining a group *)

Definition join_tree (t : gmap cstr node) (i c : Z) (x : node) (dst : cstr) : gmap cstr node :=
  <[dst := NLink (dataf i)]> (<[mark i (c + 1) := x]> (delete (mark i c) t)).

Section Join.
Context (t : gmap cstr node) (n i : Z) (L : gset cstr) (x : node) (dst : cstr).
Notation c := (Z.of_nat (size L)).
Hypothesis (Hi : in_u64 i) (Hg : group t i L) (Hx : t !! mark i c = Some x) (Hxd : is_data x = true).
Hypothesis (Ho : ordinary dst) (Hdst : t !! dst = None) (Hc : in_u64 (c + 1)).

Lemma count_in : in_u64 c.
Proof. apply (gr_size _ _ _ _ _ Hg). Qed.

Lemma next_mark_free : t !! mark i (c + 1) = None.
Proof.
  destruct (t !! mark i (c + 1)) eqn:Em; [|done].
  assert (c + 1 = c) by (apply (gr_one _ _ _ _ _ Hg); [done|by rewrite Em]). lia.
Qed.

Lemma marks_ne : mark i c <> mark i (c + 1).
Proof. intros H. apply mark_inj in H as [_ H]; [lia|done|apply count_in|done|done]. Qed.

Lemma dst_notin : dst ∉ L.
Proof. intros H. apply (gr_links _ _ _ _ _ Hg) in H. by rewrite Hdst in H. Qed.

Lemma join_lookup p : p <> dst -> p <> mark i (c + 1) -> p <> mark i c ->
  join_tree t i c x dst !! p = t !! p.
Proof. intros. unfold join_tree. by rewrite !lookup_insert_ne, lookup_delete_ne. Qed.

Lemma join_group : group (join_tree t i c x dst) i ({[dst]} ∪ L).
Proof.
  destruct (ordinary_apart dst Ho) as (O1 & O2 & O3 & O4). pose proof count_in as Hc0.
  assert (Hsz : Z.of_nat (size ({[dst]} ∪ L)) = c + 1).
  { rewrite size_union, size_singleton by (pose proof dst_notin; set_solver). lia. }
  constructor; rewrite ?Hsz.
  - rewrite join_lookup; [apply (gr_store _ _ _ _ _ Hg)|done|apply not_eq_sym, below_store..].
  - rewrite join_lookup; [apply (gr_data _ _ _ _ _ Hg)|done|by apply dataf_mark..].
  - intros p. rewrite elem_of_union, elem_of_singleton, <-(gr_links _ _ _ _ _ Hg p).
    unfold join_tree. destruct (decide (p = dst)) as [->|N1]; [rewrite lookup_insert_eq; by split; [left|]|].
    rewrite lookup_insert_ne by done. destruct (decide (p = mark i (c + 1))) as [->|N2].
    { rewrite lookup_insert_eq, next_mark_free. split; [intros [= ->]; done|]. by intros [?|?]. }
    rewrite lookup_insert_ne by done. destruct (decide (p = mark i c)) as [->|N3].
    { rewrite lookup_delete_eq, Hx. split; [done|]. intros [?|[= ->]]; done. }
    rewrite lookup_delete_ne by done. split; [by right|by intros [?|?]].
  - intros p [->%elem_of_singleton|Hp]%elem_of_union; [done|]. by apply (gr_names _ _ _ _ _ Hg).
  - pose proof dst_notin. set_solver.
  - done.
  - apply is_data_node in Hxd as (j & m & b & ->). exists j, m, b. unfold join_tree.
    rewrite lookup_insert_ne by done. by rewrite lookup_insert_eq.
  - intros d Hd. unfold join_tree. rewrite lookup_insert_ne by done.
    destruct (decide (d = c + 1)) as [->|Hne]; [done|].
    rewrite lookup_insert_ne by (intros H; apply mark_inj in H as [_ ?]; [lia|done..]).
    intros [y Hy]. apply lookup_delete_Some in Hy as [N Hy].
    exfalso. apply N. f_equal. symmetry. apply (gr_one _ _ _ _ _ Hg); [done|by rewrite Hy].
Qed.

Lemma join_same j : in_u64 j -> i <> j -> same_group t (join_tree t i c x dst) j.
Proof.
  intros Hj Hne. pose proof count_in as Hc0.
  assert (Hxl : x <> NLink (dataf j)) by (intros ->; done).
  unfold join_tree. eapply same_group_trans; [|eapply same_group_trans].
  - apply (same_group_delete t j (mark i c)); [by apply mark_apart|]. rewrite Hx. congruence.
  - apply (same_group_insert _ j (mark i (c + 1)) x); [by apply mark_apart|done|].
    rewrite lookup_delete_ne by apply marks_ne. by rewrite next_mark_free.
  - destruct (ordinary_apart dst Ho) as (O1 & O2 & O3 & O4).
    apply same_group_insert; [by apply ordinary_is_apart| |].
    + intros H. injection H as H. by apply dataf_inj in H.
    + rewrite lookup_insert_ne, lookup_delete_ne by done. by rewrite Hdst.
Qed.

Lemma join_files : files_ok t n -> files_ok (join_tree t i c x dst) n.
Proof. intros Hf. apply files_link. by apply files_move. Qed.

Lemma join_dirs : dirs_kept t (join_tree t i c x dst).
Proof.
  intros d Hd. rewrite join_lookup; [done| | |]; intros ->.
  - by rewrite Hdst in Hd.
  - by rewrite next_mark_free in Hd.
  - rewrite Hx in Hd. by injection Hd as ->.
Qed.
End Join.

(** ** The invariant across a change *)

Lemma inv_step t n t' n' :
  inv t n -> lockable fs t' -> dirs_kept t t' -> files_ok t' n' ->
  (forall p, ordinary p -> is_Some (t' !! p) -> parent_ok t p = true) ->
  (forall i, in_u64 i -> (exists L, group t' i L) \/ nogroup t' i) -> inv t' n'.
Proof.
  intros Hi [L1 L2 L3] Hd [F1 F2] Ht Hg. constructor; [done..| |done].
  intros p Ho Hp. apply (parent_mono t); [done|]. by apply Ht.
Qed.

(** The lock can be had as before where it and the directories stay. *)
Lemma lockable_step t t' : lockable fs t -> t !! store = Some NDir -> dirs_kept t t' ->
  t' !! lockf = t !! lockf -> lockable fs t'.
Proof.
  intros [L1 L2 L3] Hs Hd Hl. constructor; [by apply Hd|right; by apply Hd|by rewrite Hl].
Qed.

Lemma join_inv t n i L x dst :
  inv t n -> in_u64 i -> group t i L -> t !! mark i (Z.of_nat (size L)) = Some x ->
  is_data x = true -> ordinary dst -> t !! dst = None -> parent_ok t dst = true ->
  in_u64 (Z.of_nat (size L) + 1) -> inv (join_tree t i (Z.of_nat (size L)) x dst) n.
Proof.
  intros Hinv Hi Hg Hx Hxd Ho Hdst Hp Hc. destruct (ordinary_apart dst Ho) as (O1 & O2 & O3 & O4).
  eapply inv_step; [exact Hinv| |by eapply join_dirs| | |].
  - eapply lockable_step; [by eapply inv_lockable|apply (gr_store _ _ _ _ _ Hg)|by eapply join_dirs|].
    apply join_lookup; [done|apply not_eq_sym, mark_lock..].
  - eapply join_files; [done|by apply inv_files].
  - intros p Hop Hsome. destruct (decide (p = dst)) as [->|Hne]; [done|].
    destruct (ordinary_apart p Hop) as (P1 & P2 & P3 & P4).
    rewrite join_lookup in Hsome by done. by apply (inv_tree _ _ _ _ Hinv).
  - intros j Hj. destruct (decide (i = j)) as [<-|Hne].
    + left. eexists. by eapply join_group.
    + eapply either_same; [by eapply join_same|]. by apply (inv_group _ _ _ _ Hinv).
Qed.

Lemma parent_rename t p o q x :
  parent_ok t p = true -> t !! o = Some x -> is_data x = true -> t !! q = None ->
  parent_ok (<[q := x]> (delete o t)) p = true.
Proof.
  intros Hp Ho Hx Hq. eapply parent_mono; [|exact Hp]. intros d Hd.
  rewrite lookup_insert_ne by (intros ->; by rewrite Hq in Hd).
  rewrite lookup_delete_ne; [done|]. intros ->. rewrite Ho in Hd. by injection Hd as ->.
Qed.

Lemma join_run t n i L dst cnt :
  inv t n -> in_u64 i -> group t i L -> ordinary dst -> t !! dst = None ->
  parent_ok t dst = true -> in_u64 (Z.of_nat (size L) + 1) ->
  exists x, lock_tree fs t n !! mark i (Z.of_nat (size L)) = Some x /\ is_data x = true /\
    l2s_join E (dataf i) dst (l2s_dirname dst CNG_PATH_MAX) cnt (Host t [] n) =
    (0, Host (join_tree (lock_tree fs t n) i (Z.of_nat (size L)) x dst) [] (lock_next fs t n)).
Proof.
  intros Hinv Hi Hg Ho Hdst Hp Hc. pose proof (inv_lockable _ _ _ _ Hinv) as Hl.
  destruct (ordinary_apart dst Ho) as (O1 & O2 & O3 & O4).
  destruct (group_marked _ _ _ _ _ Hg) as [x Hm].
  pose proof (lock_marked fs t n i _ x Hl Hm) as Hm1. pose proof Hm1 as [M1 M2 M3 M4 M5].
  exists x. split; [done|]. split; [done|]. set (t1 := lock_tree fs t n) in *. set (n1 := lock_next fs t n).
  set (c := Z.of_nat (size L)) in *.
  assert (Hc0 : c <> 0).
  { pose proof (gr_some _ _ _ _ _ Hg) as Hne. unfold c. intros H0. apply Hne, leibniz_equiv, size_empty_inv. lia. }
  assert (Hfree : t1 !! mark i (c + 1) = None).
  { destruct (t1 !! mark i (c + 1)) eqn:Em; [|done]. assert (c + 1 = c) by (apply M5; [done|by rewrite Em]). lia. }
  unfold l2s_join. rewrite (dataf_basename fs), (dataf_dirname E fs Hv), parse_data_name by done.
  cbn [default from_option id]. rewrite (mthen_eq _ _ _ _ _ (lock_run E fs Hv (dataf i) t n Hl)). fold t1 n1.
  assert (Hf : (c0 <- find_marker store i ;; ret (default 0 c0)) (Host t1 [] n1) = (c, Host t1 [] n1)).
  { by rewrite (mthen_eq _ _ _ _ _ (find_marker_run E fs Hv t1 n1 i c x Hi Hm1)). }
  rewrite (mthen_eq _ _ _ _ _ Hf), (proj2 (Z.eqb_neq c 0) Hc0), (build_mark E fs Hv i (c + 1)) by done.
  rewrite (build_mark E fs Hv i c) by done. cbv iota zeta.
  assert (Hr : (r <- l2s_rename (mark i c) (mark i (c + 1)) ;; ret (r =? 0)) (Host t1 [] n1) =
    (true, Host (<[mark i (c + 1) := x]> (delete (mark i c) t1)) [] n1)).
  { erewrite mthen_eq; [|apply rename_new; [done|by destruct x|
      apply (store_parent E fs Hv); [by apply marker_name_slash_free|done]| |done]]; [done|].
    intros H. apply mark_inj in H as [_ H]; [lia|done..]. }
  rewrite (mthen_eq _ _ _ _ _ Hr), mthen_ret. rewrite (ordinary_dirname dst Ho).
  erewrite mthen_eq; [|apply symlink_new].
  - done.
  - apply parent_rename; [|done..]. eapply parent_mono; [by apply lock_dirs|done].
  - apply dataf_ne.
  - rewrite lookup_insert_ne, lookup_delete_ne by done. unfold t1. by rewrite lock_tree_other.
Qed.

(** ** The first link of a file *)

Definition first_tree (t : gmap cstr node) (i : Z) (x k : node) (src dst : cstr) : gmap cstr node :=
  <[dst := NLink (dataf i)]> (<[mark i 2 := k]> (<[src := NLink (dataf i)]> (<[dataf i := x]> t))).

Lemma swap_in_run t n i src x :
  in_u64 i -> t !! src = Some x -> is_data x = true -> ordinary src -> parent_ok t src = true ->
  t !! store = Some NDir -> t !! dataf i = None ->
  l2s_swap_in E src (dataf i) (dataf i) (Host t [] n) =
  (0, Host (<[src := NLink (dataf i)]> (<[dataf i := x]> t)) [] n).
Proof.
  intros Hi Hs Hx Ho Hp Hst Hd. destruct (ordinary_apart src Ho) as (_ & _ & O3 & _).
  assert (Hpd : forall t', t' !! store = Some NDir -> parent_ok t' (dataf i) = true).
  { intros t' H'. apply (store_parent E fs Hv); [by apply data_name_slash_free|done]. }
  assert (Hxd : is_dir x = false) by (by destruct x).
  unfold l2s_swap_in. rewrite (mthen_eq _ _ _ _ _ (symlink_new t n _ _ (Hpd t Hst) (dataf_ne fs i) Hd)).
  cbv iota. change (0 =? 0) with true. cbv iota.
  destruct (l_no_rename2 E) eqn:Er.
  - assert (Hx' : l2s_exchange E src (dataf i) (Host (<[dataf i := NLink (dataf i)]> t) [] n) =
      (- ENOSYS, Host (<[dataf i := NLink (dataf i)]> t) [] n)) by (unfold l2s_exchange; by rewrite Er).
    assert (Hu : l2s_unlink (dataf i) (Host (<[dataf i := NLink (dataf i)]> t) [] n) = (0, Host t [] n)).
    { erewrite unlink_some; [|by rewrite lookup_insert_eq|done]. by rewrite delete_insert_id. }
    assert (Hb : (r <- l2s_exchange E src (dataf i) ;;
       if r =? 0 then ret None else l2s_unlink (dataf i) ;;; ret (Some r))
       (Host (<[dataf i := NLink (dataf i)]> t) [] n) = (Some (- ENOSYS), Host t [] n)).
    { rewrite (mthen_eq _ _ _ _ _ Hx'). change (- ENOSYS =? 0) with false. cbv iota.
      by rewrite (mthen_eq _ _ _ _ _ Hu). }
    rewrite (mthen_eq _ _ _ _ _ Hb), (mthen_eq _ _ _ _ _ (lstat_none t n _ Hd)), mthen_ret.
    rewrite (mthen_eq _ _ _ _ _ (rename_new t n src (dataf i) x Hs Hxd (Hpd t Hst) (O3 i) Hd)).
    change (0 <? 0) with false. cbv iota.
    assert (Hmap : <[src := NLink (dataf i)]> (<[dataf i := x]> (delete src t)) =
      <[src := NLink (dataf i)]> (<[dataf i := x]> t)).
    { rewrite <-delete_insert_ne, insert_delete_eq by (first [apply O3|apply not_eq_sym, O3]). done. }
    erewrite mthen_eq; [|apply symlink_new; [|apply dataf_ne|]].
    + change (0 <? 0) with false. cbv iota. by rewrite Hmap.
    + by apply parent_rename.
    + rewrite lookup_insert_ne by (first [apply O3|apply not_eq_sym, O3]). apply lookup_delete_eq.
  - assert (Hx' : l2s_exchange E src (dataf i) (Host (<[dataf i := NLink (dataf i)]> t) [] n) =
      (0, Host (<[src := NLink (dataf i)]> (<[dataf i := x]> t)) [] n)).
    { erewrite exchange_run; [|done|by rewrite lookup_insert_ne by (first [apply O3|apply not_eq_sym, O3])|
        apply lookup_insert_eq|done|done]. by rewrite insert_insert_eq. }
    assert (Hb : (r <- l2s_exchange E src (dataf i) ;;
       if r =? 0 then ret None else l2s_unlink (dataf i) ;;; ret (Some r))
       (Host (<[dataf i := NLink (dataf i)]> t) [] n) =
       (None, Host (<[src := NLink (dataf i)]> (<[dataf i := x]> t)) [] n))
      by (by rewrite (mthen_eq _ _ _ _ _ Hx')).
    by rewrite (mthen_eq _ _ _ _ _ Hb).
Qed.

Section First.
Context (t : gmap cstr node) (n i m : Z) (b : cstr) (src dst : cstr).
Notation x := (NNode i m b).
Notation k := (NNode n (S_IFREG + 384) []).
Notation t' := (first_tree t i x k src dst).
Hypothesis (Hi : in_u64 i) (Hg : nogroup t i) (Hst : t !! store = Some NDir).
Hypothesis (Hs : t !! src = Some x) (Hos : ordinary src).
Hypothesis (Hod : ordinary dst) (Hdst : t !! dst = None).

Lemma two_in : in_u64 2.
Proof. unfold in_u64. lia. Qed.

Lemma src_dst : src <> dst.
Proof. intros ->. by rewrite Hdst in Hs. Qed.

Lemma first_lookup p : p <> dst -> p <> mark i 2 -> p <> src -> p <> dataf i -> t' !! p = t !! p.
Proof. intros. unfold first_tree. by rewrite !lookup_insert_ne. Qed.

Lemma first_src : t' !! src = Some (NLink (dataf i)).
Proof.
  destruct (ordinary_apart src Hos) as (_ & _ & _ & O4). unfold first_tree.
  rewrite lookup_insert_ne by (apply not_eq_sym, src_dst). rewrite lookup_insert_ne by done.
  apply lookup_insert_eq.
Qed.

Lemma first_data : t' !! dataf i = Some x.
Proof.
  destruct (ordinary_apart src Hos) as (_ & _ & O3 & _), (ordinary_apart dst Hod) as (_ & _ & O3' & _).
  unfold first_tree. rewrite lookup_insert_ne by done.
  rewrite lookup_insert_ne by (apply not_eq_sym; by apply dataf_mark).
  rewrite lookup_insert_ne by done. apply lookup_insert_eq.
Qed.

Lemma first_mark c : in_u64 c -> t' !! mark i c = if c =? 2 then Some k else None.
Proof.
  intros Hc.
  destruct (ordinary_apart src Hos) as (_ & _ & _ & O4), (ordinary_apart dst Hod) as (_ & _ & _ & O4').
  unfold first_tree. rewrite lookup_insert_ne by done. destruct (Z.eqb_spec c 2) as [->|Hne].
  - apply lookup_insert_eq.
  - rewrite lookup_insert_ne by (intros H; apply mark_inj in H as [_ H]; [lia|done|apply two_in|done..]).
    rewrite lookup_insert_ne by done. rewrite lookup_insert_ne by (by apply dataf_mark).
    by apply (ng_mark _ _ _ Hg).
Qed.

Lemma first_group : group t' i {[src; dst]}.
Proof.
  destruct (ordinary_apart src Hos) as (S1 & S2 & S3 & S4), (ordinary_apart dst Hod) as (D1 & D2 & D3 & D4).
  assert (Hsz : size ({[src; dst]} : gset cstr) = 2%nat).
  { rewrite size_union, !size_singleton by (pose proof src_dst; set_solver). done. }
  constructor; rewrite ?Hsz.
  - rewrite first_lookup; [done|done|apply not_eq_sym, below_store|done|apply not_eq_sym, below_store].
  - exists m, b. apply first_data.
  - intros p. rewrite elem_of_union, !elem_of_singleton. split.
    + unfold first_tree. intros H. apply lookup_insert_Some in H as [[-> _]|[_ H]]; [by right|].
      apply lookup_insert_Some in H as [[_ ?]|[_ H]]; [done|].
      apply lookup_insert_Some in H as [[-> _]|[_ H]]; [by left|].
      apply lookup_insert_Some in H as [[_ ?]|[_ H]]; [done|]. by apply (ng_links _ _ _ Hg) in H.
    + intros [->| ->]; [apply first_src|]. unfold first_tree. apply lookup_insert_eq.
  - intros p [->%elem_of_singleton| ->%elem_of_singleton]%elem_of_union; done.
  - set_solver.
  - apply two_in.
  - change (Z.of_nat 2) with 2. rewrite (first_mark 2) by apply two_in. eauto.
  - intros c Hc. rewrite first_mark by done. change (Z.of_nat 2) with 2.
    destruct (Z.eqb_spec c 2); [done|]. by intros [? ?].
Qed.

Lemma first_same j : in_u64 j -> i <> j -> same_group t t' j.
Proof.
  intros Hj Hne. destruct (ordinary_apart src Hos) as (S1 & S2 & S3 & S4), (ordinary_apart dst Hod) as (D1 & D2 & D3 & D4).
  assert (Hl : NLink (dataf i) <> NLink (dataf j)) by (intros H; injection H as H; by apply dataf_inj in H).
  unfold first_tree. eapply same_group_trans; [|eapply same_group_trans; [|eapply same_group_trans]].
  - apply (same_group_insert t j (dataf i) x); [by apply dataf_apart|done|by rewrite (ng_data _ _ _ Hg)].
  - apply (same_group_insert _ j src (NLink (dataf i))); [by apply ordinary_is_apart|done|].
    rewrite lookup_insert_ne by done. by rewrite Hs.
  - apply (same_group_insert _ j (mark i 2) k); [apply mark_apart; auto using two_in|done|].
    rewrite !lookup_insert_ne by (done || by apply dataf_mark). by rewrite (ng_mark _ _ _ Hg) by apply two_in.
  - apply (same_group_insert _ j dst (NLink (dataf i))); [by apply ordinary_is_apart|done|].
    rewrite !lookup_insert_ne by (done || apply src_dst). by rewrite Hdst.
Qed.

Lemma first_files : files_ok t n -> files_ok t' (n + 1).
Proof.
  intros Hf. destruct (ordinary_apart src Hos) as (S1 & S2 & S3 & S4). unfold first_tree.
  apply files_link, files_new.
  - assert (Hmap : <[src := NLink (dataf i)]> (<[dataf i := x]> t) =
      <[src := NLink (dataf i)]> (<[dataf i := x]> (delete src t))).
    { rewrite <-delete_insert_ne by done. by rewrite insert_delete_eq. }
    rewrite Hmap. apply files_link. by apply files_move.
  - rewrite !lookup_insert_ne by (done || by apply dataf_mark). apply (ng_mark _ _ _ Hg), two_in.
Qed.

Lemma first_dirs : dirs_kept t t'.
Proof.
  intros d Hd. rewrite first_lookup; [done|..]; intros ->.
  - by rewrite Hdst in Hd.
  - by rewrite (ng_mark _ _ _ Hg) in Hd by apply two_in.
  - by rewrite Hs in Hd.
  - by rewrite (ng_data _ _ _ Hg) in Hd.
Qed.

Lemma first_inv : inv t n -> parent_ok t dst = true -> inv t' (n + 1).
Proof.
  intros Hinv Hp. destruct (ordinary_apart src Hos) as (S1 & S2 & S3 & S4), (ordinary_apart dst Hod) as (D1 & D2 & D3 & D4).
  eapply inv_step; [exact Hinv| |apply first_dirs|by apply first_files, inv_files| |].
  - eapply lockable_step; [by eapply inv_lockable|done|apply first_dirs|].
    apply first_lookup; [done|apply not_eq_sym, mark_lock|done|apply not_eq_sym, dataf_lock].
  - intros p Ho Hsome. destruct (ordinary_apart p Ho) as (P1 & P2 & P3 & P4).
    destruct (decide (p = dst)) as [->|N1]; [done|]. destruct (decide (p = src)) as [->|N2].
    + apply (inv_tree _ _ _ _ Hinv); [done|by rewrite Hs].
    + apply (inv_tree _ _ _ _ Hinv); [done|]. by rewrite first_lookup in Hsome.
  - intros j Hj. destruct (decide (i = j)) as [<-|Hne].
    + left. eexists. apply first_group.
    + eapply either_same; [by apply first_same|]. by apply (inv_group _ _ _ _ Hinv).
Qed.
End First.

(** ** cng_l2s_link *)

Lemma link_source_plain t n src x : ordinary src -> t !! src = Some x -> is_data x = true ->
  l2s_link_source E src true (Host t [] n) = (inr None, Host t [] n).
Proof.
  intros Ho Hs Hx. unfold l2s_link_source. assert (Hl : is_lnk x = false) by (by destruct x).
  rewrite (mthen_eq _ _ _ _ _ (resolve_plain E t n src x true CNG_PATH_MAX Hs Hl)). cbv iota.
  cbn [negb]. rewrite (mthen_eq _ _ _ _ _ (data_at_some t n src x Hs)), Hx.
  destruct (hidden_exact _ (o_hidden _ _ _ Ho)) as [-> _]. cbv iota.
  assert (Hh : pr_data_here E src (Host t [] n) = (None, Host t [] n)).
  { unfold pr_data_here. by rewrite (o_proot _ _ _ Ho). }
  by rewrite (mthen_eq _ _ _ _ _ Hh).
Qed.

Lemma first_names_run t n i m b src dst :
  in_u64 i -> nogroup t i -> t !! store = Some NDir -> t !! src = Some (NNode i m b) ->
  ordinary src -> ordinary dst -> t !! dst = None -> parent_ok t dst = true ->
  first_names E src dst store (dataf i) (dataf i) i
    (Host (<[src := NLink (dataf i)]> (<[dataf i := NNode i m b]> t)) [] n) =
  (0, Host (first_tree t i (NNode i m b) (NNode n (S_IFREG + 384) []) src dst) [] (n + 1)).
Proof.
  intros Hi Hg Hst Hs Hos Hod Hdst Hp.
  destruct (ordinary_apart src Hos) as (S1 & S2 & S3 & S4), (ordinary_apart dst Hod) as (D1 & D2 & D3 & D4).
  set (t2 := <[src := _]> _). pose proof two_in as H2.
  assert (Hd : dirs_kept t t2).
  { intros d Hd. unfold t2. rewrite !lookup_insert_ne; [done|intros <-..].
    - by rewrite (ng_data _ _ _ Hg) in Hd.
    - by rewrite Hs in Hd. }
  assert (Hm : t2 !! mark i 2 = None).
  { unfold t2. rewrite !lookup_insert_ne by (done || by apply dataf_mark). by apply (ng_mark _ _ _ Hg). }
  unfold first_names. rewrite (build_mark E fs Hv i 2) by done.
  erewrite mthen_eq; [|apply touch_new; [done|apply (store_parent E fs Hv); [by apply marker_name_slash_free|by apply Hd]]].
  erewrite mthen_eq; [|apply symlink_new; [|apply dataf_ne|]].
  - done.
  - eapply parent_mono; [|exact Hp]. intros d Hdd. rewrite lookup_insert_ne; [by apply Hd|].
    intros <-. apply Hd in Hdd. by rewrite Hm in Hdd.
  - rewrite lookup_insert_ne by done. unfold t2. rewrite !lookup_insert_ne; [done|done|].
    intros ->. by rewrite Hdst in Hs.
Qed.

Lemma first_link_run t n i m b src dst :
  in_u64 i -> nogroup t i -> lockable fs t -> t !! store = Some NDir -> t !! src = Some (NNode i m b) ->
  ordinary src -> ordinary dst -> t !! dst = None -> parent_ok t dst = true -> parent_ok t src = true ->
  l2s_first_link E src dst (l2s_dirname dst CNG_PATH_MAX) true (Host t [] n) =
  (0, Host (first_tree t i (NNode i m b) (NNode n (S_IFREG + 384) []) src dst) [] (n + 1)).
Proof.
  intros Hi Hg Hl Hst Hs Hos Hod Hdst Hp Hps. unfold l2s_first_link.
  rewrite (mthen_eq _ _ _ _ _ (lstat_some t n src _ Hs)). cbn [is_lnk andb negb].
  assert (Hsd : l2s_store_dir E CNG_PATH_MAX (Host t [] n) = (inr store, Host t [] n)).
  { rewrite (store_dir_run E fs Hv t n Hl). unfold store_tree. by rewrite Hst. }
  rewrite (mthen_eq _ _ _ _ _ Hsd). cbv iota. rewrite (build_data E fs Hv i Hi).
  pose proof (swap_in_run t n i src _ Hi Hs eq_refl Hos Hps Hst (ng_data _ _ _ Hg)) as Hsw.
  assert (Hmv : (r <- l2s_swap_in E src (dataf i) (dataf i) ;; ret (Some (r, store, dataf i))) (Host t [] n) =
    (Some (0, store, dataf i), Host (<[src := NLink (dataf i)]> (<[dataf i := NNode i m b]> t)) [] n))
    by (by rewrite (mthen_eq _ _ _ _ _ Hsw)).
  rewrite (mthen_eq _ _ _ _ _ Hmv). cbv iota. change (0 =? 0) with true. cbv iota.
  by apply first_names_run.
Qed.

(** A file of its own becomes a group of two. *)
Lemma link_plain_run t n i m b src dst :
  inv t n -> in_u64 i -> nogroup t i -> t !! src = Some (NNode i m b) ->
  ordinary src -> ordinary dst -> t !! dst = None -> parent_ok t dst = true ->
  cng_l2s_link E src dst (Host t [] n) =
  (0, Host (first_tree (lock_tree fs t n) i (NNode i m b)
              (NNode (lock_next fs t n) (S_IFREG + 384) []) src dst) [] (lock_next fs t n + 1)).
Proof.
  intros Hinv Hi Hg Hs Hos Hod Hdst Hp. pose proof (inv_lockable _ _ _ _ Hinv) as Hl.
  destruct (ordinary_apart src Hos) as (S1 & S2 & S3 & S4), (ordinary_apart dst Hod) as (D1 & D2 & D3 & D4).
  unfold cng_l2s_link. rewrite (mthen_eq _ _ _ _ _ (lstat_none t n dst Hdst)). cbv iota.
  rewrite (o_canon _ _ _ Hos), (o_owned _ _ _ Hos). cbn [andb].
  rewrite (mthen_eq _ _ _ _ _ (link_source_plain t n src _ Hos Hs eq_refl)). cbv iota.
  rewrite (mthen_eq _ _ _ _ _ (lock_run E fs Hv src t n Hl)).
  set (t1 := lock_tree fs t n). set (n1 := lock_next fs t n).
  assert (Hs1 : t1 !! src = Some (NNode i m b)) by (unfold t1; by rewrite lock_tree_other).
  rewrite (mthen_eq _ _ _ _ _ (link_source_plain t1 n1 src _ Hos Hs1 eq_refl)). cbv iota.
  pose proof (lock_dirs fs t n Hl) as Hd.
  assert (Hps : parent_ok t1 src = true).
  { eapply parent_mono; [exact Hd|]. apply (inv_tree _ _ _ _ Hinv); [done|by rewrite Hs]. }
  erewrite mthen_eq; [|apply first_link_run; [done| | | |exact Hs1|done|done| | |done]].
  - change (0 =? 1) with false. done.
  - eapply nogroup_same; [by apply same_group_lock|done].
  - by apply lock_lockable.
  - by apply lock_store.
  - unfold t1. by rewrite lock_tree_other.
  - by eapply parent_mono.
Qed.

(** A name of a group gives it another. *)
Lemma link_member_run t n i L src dst :
  inv t n -> in_u64 i -> group t i L -> src ∈ L -> ordinary dst -> t !! dst = None ->
  parent_ok t dst = true -> in_u64 (Z.of_nat (size L) + 1) ->
  exists x, lock_tree fs t n !! mark i (Z.of_nat (size L)) = Some x /\ is_data x = true /\
    cng_l2s_link E src dst (Host t [] n) =
    (0, Host (join_tree (lock_tree fs t n) i (Z.of_nat (size L)) x dst) [] (lock_next fs t n)).
Proof.
  intros Hinv Hi Hg Hs Hod Hdst Hp Hc. pose proof (gr_names _ _ _ _ _ Hg _ Hs) as Hos.
  destruct (join_run t n i L dst (Z.of_nat (size L)) Hinv Hi Hg Hod Hdst Hp Hc) as (x & H1 & H2 & H3).
  exists x. split; [done|]. split; [done|]. rewrite <-H3.
  unfold cng_l2s_link. rewrite (mthen_eq _ _ _ _ _ (lstat_none t n dst Hdst)). cbv iota.
  rewrite (o_canon _ _ _ Hos), (o_owned _ _ _ Hos). cbn [andb].
  assert (Hsrc : l2s_link_source E src true (Host t [] n) =
    (inr (Some (dataf i, Z.of_nat (size L))), Host t [] n)).
  { unfold l2s_link_source. by rewrite (mthen_eq _ _ _ _ _ (resolve_member E fs Hv t n i L src true Hi Hg Hs)). }
  rewrite (mthen_eq _ _ _ _ _ Hsrc). cbn [fst snd].
  by rewrite (dataf_basename fs), data_name_not_proot by done.
Qed.

(** ** Leaving a group *)

Definition leave_tree (t1 : gmap cstr node) (i c : Z) (x : node) : gmap cstr node :=
  if c <=? 1 then delete (mark i 1) (delete (dataf i) t1)
  else <[mark i (c - 1) := x]> (delete (mark i c) t1).

Section Leave.
Context (t : gmap cstr node) (n i : Z) (L : gset cstr) (x : node) (p : cstr).
Notation c := (Z.of_nat (size L)).
Notation t0 := (delete p t).
Notation t1 := (lock_tree fs (delete p t) n).
Notation t' := (leave_tree t1 i c x).
Hypothesis (Hinv : inv t n) (Hi : in_u64 i) (Hg : group t i L) (Hp : p ∈ L).
Hypothesis (Hm : marked fs t i c x).

Lemma leaver_link : t !! p = Some (NLink (dataf i)).
Proof. by apply (gr_links _ _ _ _ _ Hg). Qed.

Lemma leaver_ordinary : ordinary p.
Proof. by apply (gr_names _ _ _ _ _ Hg). Qed.

Lemma size_pos : 1 <= c.
Proof.
  pose proof (gr_some _ _ _ _ _ Hg) as Hne.
  assert (size L <> 0%nat); [|lia]. intros H0. apply Hne, leibniz_equiv, size_empty_inv, H0.
Qed.

Lemma leave_lockable : lockable fs t0.
Proof.
  pose proof (inv_lockable _ _ _ _ Hinv) as [L1 L2 L3]. destruct (ordinary_apart p leaver_ordinary) as (O1 & O2 & _).
  assert (Hr : p <> f_rootfs fs) by (intros Hr; by rewrite <-Hr, leaver_link in L1).
  constructor; rewrite lookup_delete_ne by done; done.
Qed.

Lemma leave_marked : marked fs t1 i c x.
Proof.
  apply lock_marked; [apply leave_lockable|]. destruct Hm as [M1 M2 M3 M4 M5].
  destruct (ordinary_apart p leaver_ordinary) as (O1 & O2 & O3 & O4).
  constructor; [by rewrite lookup_delete_ne|done|by rewrite lookup_delete_ne|done|].
  intros d Hd. rewrite lookup_delete_ne by done. by apply M5.
Qed.

(** The locked tree without the name. *)
Lemma leave_t1 q : q <> p -> q <> store -> q <> lockf -> t1 !! q = t !! q.
Proof. intros. by rewrite lock_tree_other, lookup_delete_ne. Qed.

Lemma leave_t1_p : t1 !! p = None.
Proof.
  destruct (ordinary_apart p leaver_ordinary) as (O1 & O2 & _).
  rewrite lock_tree_other by done. apply lookup_delete_eq.
Qed.

Lemma leave_links q : t1 !! q = Some (NLink (dataf i)) <-> q ∈ L ∖ {[p]}.
Proof.
  rewrite elem_of_difference, elem_of_singleton, <-(gr_links _ _ _ _ _ Hg q).
  rewrite (sg_links _ _ _ _ (same_group_lock fs t0 n i Hi leave_lockable) q), lookup_delete_Some.
  naive_solver.
Qed.

Lemma leave_data : t1 !! dataf i = t !! dataf i.
Proof.
  destruct (ordinary_apart p leaver_ordinary) as (O1 & O2 & O3 & O4).
  apply leave_t1; [done|apply below_store|apply dataf_lock].
Qed.

Lemma prev_mark_free : 1 < c -> t1 !! mark i (c - 1) = None.
Proof.
  intros H1. destruct (t1 !! mark i (c - 1)) eqn:Em; [|done].
  pose proof leave_marked as [_ M2 _ _ M5].
  assert (c - 1 = c); [|lia]. apply M5; [unfold in_u64 in *; lia|by rewrite Em].
Qed.

Lemma leave_group : 1 < c -> group t' i (L ∖ {[p]}).
Proof.
  intros H1. unfold leave_tree. destruct (Z.leb_spec c 1); [lia|].
  pose proof leave_marked as [M1 M2 M3 M4 M5]. pose proof (prev_mark_free H1) as Hf.
  assert (Hc1 : in_u64 (c - 1)) by (unfold in_u64 in *; lia).
  assert (Hsz : Z.of_nat (size (L ∖ {[p]})) = c - 1).
  { rewrite size_difference by set_solver. rewrite size_singleton. lia. }
  assert (Hne : mark i c <> mark i (c - 1)) by (intros H'; apply mark_inj in H' as [_ ?]; [lia|done..]).
  assert (K : forall q, q <> mark i (c - 1) -> q <> mark i c ->
    <[mark i (c - 1) := x]> (delete (mark i c) t1) !! q = t1 !! q)
    by (intros q Q1 Q2; by rewrite lookup_insert_ne, lookup_delete_ne).
  constructor; rewrite ?Hsz.
  - rewrite K by (apply not_eq_sym, below_store). done.
  - rewrite K, leave_data by (by apply dataf_mark). apply (gr_data _ _ _ _ _ Hg).
  - intros q. rewrite <-leave_links. destruct (decide (q = mark i (c - 1))) as [->|N1].
    { rewrite lookup_insert_eq, Hf. split; [intros [= ->]; done|done]. }
    destruct (decide (q = mark i c)) as [->|N2]; [|by rewrite K].
    rewrite lookup_insert_ne, lookup_delete_eq, M3 by done. split; [done|intros [= ->]; done].
  - intros q Hq. apply (gr_names _ _ _ _ _ Hg). set_solver.
  - intros He. rewrite He, size_empty in Hsz. lia.
  - done.
  - rewrite lookup_insert_eq. apply is_data_node in M4 as (j & m & b & ->). eauto.
  - intros d Hd. destruct (decide (d = c - 1)) as [->|Hdne]; [done|].
    rewrite lookup_insert_ne by (intros H'; apply mark_inj in H' as [_ ?]; [lia|done..]).
    intros [y Hy]. apply lookup_delete_Some in Hy as [N Hy]. exfalso. apply N. f_equal.
    symmetry. apply M5; [done|by rewrite Hy].
Qed.

Lemma leave_nogroup : c <= 1 -> nogroup t' i.
Proof.
  intros H1. pose proof size_pos. unfold leave_tree. destruct (Z.leb_spec c 1); [|lia].
  pose proof leave_marked as [M1 M2 M3 M4 M5].
  assert (Hc : c = 1) by lia. assert (H1u : in_u64 1) by (unfold in_u64; lia).
  assert (HL : L ∖ {[p]} = ∅).
  { apply leibniz_equiv, size_empty_inv. rewrite size_difference by set_solver. rewrite size_singleton. lia. }
  constructor.
  - rewrite lookup_delete_ne by (apply not_eq_sym; by apply dataf_mark). apply lookup_delete_eq.
  - intros q Hq. apply lookup_delete_Some in Hq as [_ Hq]. apply lookup_delete_Some in Hq as [_ Hq].
    apply leave_links in Hq. rewrite HL in Hq. set_solver.
  - intros d Hd. destruct (decide (d = 1)) as [->|Hne]; [apply lookup_delete_eq|].
    rewrite lookup_delete_ne by (intros H'; apply mark_inj in H' as [_ ?]; [lia|done..]).
    rewrite lookup_delete_ne by (by apply dataf_mark).
    destruct (t1 !! mark i d) eqn:Em; [|done]. exfalso. apply Hne. rewrite <-Hc. apply M5; [done|by rewrite Em].
Qed.

Lemma leave_same j : in_u64 j -> i <> j -> same_group t t' j.
Proof.
  intros Hj Hne. pose proof leave_marked as [M1 M2 M3 M4 M5]. pose proof size_pos.
  assert (Hxl : x <> NLink (dataf j)) by (intros ->; done).
  assert (Hl : NLink (dataf i) <> NLink (dataf j)) by (intros H'; injection H' as H'; by apply dataf_inj in H').
  apply (same_group_trans t t1).
  { apply (same_group_trans t t0); [|by apply same_group_lock, leave_lockable].
    apply same_group_delete; [apply ordinary_is_apart, leaver_ordinary|]. rewrite leaver_link. congruence. }
  unfold leave_tree. destruct (Z.leb_spec c 1) as [Hc|Hc].
  - assert (H1u : in_u64 1) by (unfold in_u64; lia). apply (same_group_trans _ (delete (dataf i) t1)).
    + apply same_group_delete; [by apply dataf_apart|]. rewrite leave_data.
      destruct (gr_data _ _ _ _ _ Hg) as (m & b & ->). done.
    + apply same_group_delete; [by apply mark_apart|]. rewrite lookup_delete_ne by (by apply dataf_mark).
      replace 1 with c by lia. rewrite M3. congruence.
  - assert (Hc1 : in_u64 (c - 1)) by (unfold in_u64 in *; lia).
    apply (same_group_trans _ (delete (mark i c) t1)).
    + apply same_group_delete; [by apply mark_apart|]. rewrite M3. congruence.
    + apply same_group_insert; [by apply mark_apart|done|].
      rewrite lookup_delete_ne by (intros H'; apply mark_inj in H' as [_ ?]; [lia|done..]).
      by rewrite prev_mark_free.
Qed.

(** What leaving does not touch. *)
Lemma leave_lookup q : q <> p -> q <> store -> q <> lockf -> q <> dataf i ->
  (forall d, q <> mark i d) -> t' !! q = t !! q.
Proof.
  intros. rewrite <-leave_t1 by done. unfold leave_tree. case_if.
  - by rewrite !lookup_delete_ne.
  - by rewrite lookup_insert_ne, lookup_delete_ne.
Qed.

Lemma leave_files : files_ok t' (lock_next fs t0 n).
Proof.
  pose proof leave_marked as [_ _ M3 _ _].
  assert (Hf : files_ok t1 (lock_next fs t0 n)).
  { destruct (files_delete t n p (inv_files t n Hinv)) as [F1 F2].
    by apply lock_files; [apply leave_lockable|..]. }
  unfold leave_tree. case_if; [by apply files_delete, files_delete|]. by apply files_move.
Qed.

Lemma leave_dirs : dirs_kept t t'.
Proof.
  pose proof leave_marked as [_ _ M3 M4 _]. pose proof size_pos.
  assert (Hd1 : dirs_kept t t1).
  { intros d Hd. apply lock_dirs; [apply leave_lockable|]. rewrite lookup_delete_ne; [done|].
    intros H'. by rewrite <-H', leaver_link in Hd. }
  assert (Hmk : forall d, t1 !! d = Some NDir -> d <> mark i c).
  { intros d Hd ->. rewrite M3 in Hd. by injection Hd as ->. }
  intros d Hd. apply Hd1 in Hd. unfold leave_tree. destruct (Z.leb_spec c 1) as [Hc|Hc].
  - replace 1 with c by lia. rewrite lookup_delete_ne by (by apply not_eq_sym, Hmk).
    rewrite lookup_delete_ne; [done|]. intros H'. rewrite <-H', leave_data in Hd.
    destruct (gr_data _ _ _ _ _ Hg) as (m & b & Hx). by rewrite Hx in Hd.
  - rewrite lookup_insert_ne by (intros H'; by rewrite <-H', prev_mark_free in Hd).
    by rewrite lookup_delete_ne by (by apply not_eq_sym, Hmk).
Qed.

Lemma leave_inv : inv t' (lock_next fs t0 n).
Proof.
  pose proof leave_lockable as Hl0. eapply inv_step; [exact Hinv| |apply leave_dirs|apply leave_files| |].
  - pose proof (lock_lockable fs t0 n Hl0) as [L1 L2 L3].
    constructor; [apply leave_dirs, (inv_root _ _ _ _ Hinv)|right; apply leave_dirs, (gr_store _ _ _ _ _ Hg)|].
    unfold leave_tree. case_if; rewrite ?lookup_insert_ne, !lookup_delete_ne by
      (apply dataf_lock || apply mark_lock); done.
  - intros q Ho Hq. destruct (ordinary_apart q Ho) as (Q1 & Q2 & Q3 & Q4).
    destruct (decide (q = p)) as [Hqp|Hqp].
    + rewrite Hqp. apply (inv_tree _ _ _ _ Hinv); [apply leaver_ordinary|]. by rewrite leaver_link.
    + apply (inv_tree _ _ _ _ Hinv); [done|]. by rewrite leave_lookup in Hq.
  - intros j Hj. destruct (decide (i = j)) as [<-|Hne].
    + destruct (Z.le_gt_cases c 1); [right; by apply leave_nogroup|left; eexists; apply leave_group; lia].
    + eapply either_same; [by apply leave_same|]. by apply (inv_group _ _ _ _ Hinv).
Qed.

Lemma decref_run cnt :
  cng_l2s_decref E (dataf i) cnt (Host t0 [] n) = (tt, Host t' [] (lock_next fs t0 n)).
Proof.
  pose proof leave_lockable as Hl0. pose proof leave_marked as Hm1. pose proof Hm1 as [M1 M2 M3 M4 M5].
  pose proof size_pos. unfold cng_l2s_decref. rewrite (dataf_basename fs), data_name_not_proot, parse_data_name by done.
  rewrite (dataf_dirname E fs Hv) by done. rewrite (mthen_eq _ _ _ _ _ (lock_run E fs Hv (dataf i) t0 n Hl0)).
  set (n1 := lock_next fs t0 n). cbv iota.
  rewrite (mthen_eq _ _ _ _ _ (find_marker_run E fs Hv t1 n1 i c x Hi Hm1)). cbn [default from_option id].
  unfold leave_tree. destruct (Z.leb_spec c 1) as [Hc|Hc].
  - assert (H1u : in_u64 1) by (unfold in_u64; lia). destruct (gr_data _ _ _ _ _ Hg) as (m & b & Hd).
    erewrite mthen_eq; [|eapply unlink_some; [rewrite leave_data; exact Hd|done]].
    replace (if c =? 0 then 1 else c) with 1 by (destruct (Z.eqb_spec c 0); lia).
    rewrite (build_mark E fs Hv i 1) by done. erewrite mthen_eq; [done|].
    eapply unlink_some with (x := x); [|by clear - M4; destruct x].
    rewrite lookup_delete_ne by (by apply dataf_mark). replace 1 with c by lia. exact M3.
  - assert (Hc1 : in_u64 (c - 1)) by (unfold in_u64 in *; lia).
    rewrite (build_mark E fs Hv i c), (build_mark E fs Hv i (c - 1)) by done.
    erewrite mthen_eq; [done|].
    apply rename_new; [done|by clear - M4; destruct x| | |by apply prev_mark_free].
    + apply (store_parent E fs Hv); [by apply marker_name_slash_free|done].
    + intros H'. apply mark_inj in H' as [_ ?]; [lia|done..].
Qed.
End Leave.
End Ops.
