(* ===== verification/L2sProps.v ===== *)
(** * Emulated hard links are hard links

    The abstract file system: names, each with the file it leads to; link gives a
    file a further name, unlink takes one away, and the link count of a file is
    the number of its names.  The emulation implements it. *)

From Stdlib Require Import ZArith Ascii String Lia.
From S2P Require Import Prelude Path PathCanon PathFacts PathRev PathProps Fmt ProcStat Resolve ResolveFacts L2sName L2s L2sNameProps L2sFacts L2sGroup L2sOps.
From stdpp Require Import base numbers strings gmap list.

Open Scope Z_scope.
Open Scope l2s_scope.

Definition inode (x : node) : Z := match x with NNode i _ _ => i | _ => -1 end.

Definition u64b (i : Z) : bool := (0 <=? i) && (i <? 2 ^ 64).

Lemma u64b_iff i : u64b i = true <-> in_u64 i.
Proof. unfold u64b, in_u64. rewrite andb_true_iff, Z.leb_le, Z.ltb_lt. done. Qed.

(** What the guest has at a name: a link of a group stands for its file. *)
Definition view_at (fs : cng_fs) (t : gmap cstr node) (p : cstr) : option node :=
  x ← t !! p;
  match x with
  | NLink text =>
      match t !! text with
      | Some (NNode i m b) => if streq text (dataf fs i) && u64b i then Some (NNode i m b) else Some x
      | _ => Some x
      end
  | _ => Some x
  end.

(** The names of a file, and how many there are. *)
Definition names_of (A : gmap cstr node) (i : Z) : gset cstr :=
  dom (filter (fun '(_, x) => inode x = i) A).

Definition nlink (A : gmap cstr node) (x : node) : Z := Z.of_nat (size (names_of A (inode x))).

Inductive lop := OLink (src dst : cstr) | OUnlink (p : cstr).

Section Spec.
Context (E : lenv) (fs : cng_fs) (Hv : lview E fs).
Hypothesis (Hro : forall i, in_u64 i -> host_ro_1 fs (dataf fs i) = false).

Notation ordinary := (ordinary E fs).
Notation inv := (inv E fs).
Notation group := (group E fs).
Notation nogroup := (nogroup fs).
Notation dataf := (dataf fs).
Notation mark := (mark fs).
Notation view_at := (view_at fs).

(** A step of the abstract file system. *)
Inductive spec_step (A : gmap cstr node) : lop -> gmap cstr node -> Prop :=
  | spec_link src dst x :
      A !! src = Some x -> is_data x = true -> in_u64 (inode x) -> A !! dst = None ->
      ordinary dst -> A !! l2s_dirname dst (S (length dst)) = Some NDir -> nlink A x + 1 < 2 ^ 32 ->
      spec_step A (OLink src dst) (<[dst := x]> A)
  | spec_unlink p x :
      A !! p = Some x -> is_data x = true -> in_u64 (inode x) -> host_ro_1 fs p = false ->
      spec_step A (OUnlink p) (delete p A).

Inductive spec_run (A : gmap cstr node) : list lop -> gmap cstr node -> Prop :=
  | spec_nil : spec_run A [] A
  | spec_cons op ops A1 A' : spec_step A op A1 -> spec_run A1 ops A' -> spec_run A (op :: ops) A'.

(** The host's tree shows the guest [A]. *)
Definition shows (t : gmap cstr node) (A : gmap cstr node) : Prop :=
  forall p x, A !! p = Some x <-> ordinary p /\ view_at t p = Some x.

Definition run_op (op : lop) : M Z :=
  match op with OLink src dst => cng_l2s_link E src dst | OUnlink p => do_unlinkat E p end.

Fixpoint run_ops (ops : list lop) : M (list Z) :=
  match ops with
  | [] => ret []
  | op :: ops => r <- run_op op ;; rs <- run_ops ops ;; ret (r :: rs)
  end.

(** ** The view *)

Lemma view_node t p x : t !! p = Some x -> is_lnk x = false -> view_at t p = Some x.
Proof. intros H Hl. unfold L2sProps.view_at. rewrite H. by destruct x. Qed.

Lemma view_link t p i m b : in_u64 i -> t !! p = Some (NLink (dataf i)) ->
  t !! dataf i = Some (NNode i m b) -> view_at t p = Some (NNode i m b).
Proof.
  intros Hi Hp Hd. unfold L2sProps.view_at. rewrite Hp. cbn [mbind option_bind]. rewrite Hd.
  by rewrite (proj2 (streq_true _ _)), (proj2 (u64b_iff i)).
Qed.

(** A file in the view is at its own name, or behind a link of its group. *)
Lemma view_data t p i m b : view_at t p = Some (NNode i m b) ->
  t !! p = Some (NNode i m b) \/
  in_u64 i /\ t !! p = Some (NLink (dataf i)) /\ t !! dataf i = Some (NNode i m b).
Proof.
  unfold L2sProps.view_at. intros H. apply bind_Some in H as (x & Hx & H).
  destruct x as [|text|j m' b']; [done| |by left; rewrite Hx, H].
  destruct (t !! text) as [[| |j m' b']|] eqn:Et; try done.
  case_if_in H; [|done]. injection H as -> -> ->. apply andb_true_iff in Eif as [E1 E2].
  apply streq_true in E1 as ->. apply u64b_iff in E2. by right.
Qed.

Lemma view_frame t t' p : t' !! p = t !! p ->
  (forall i, in_u64 i -> t !! p = Some (NLink (dataf i)) -> t' !! dataf i = t !! dataf i) ->
  view_at t' p = view_at t p.
Proof.
  intros Hp Hd. unfold L2sProps.view_at. rewrite Hp. destruct (t !! p) as [[|text|]|] eqn:Ep; try done.
  cbn [mbind option_bind].
  assert (K : forall u, match u with
     | Some (NNode i m b) => if streq text (dataf i) && u64b i then Some (NNode i m b) else Some (NLink text)
     | _ => Some (NLink text) end = Some (NLink text) \/
     exists i m b, u = Some (NNode i m b) /\ text = dataf i /\ in_u64 i).
  { intros [[| |i m b]|]; [by left..| |by left]. case_if; [right|by left].
    apply andb_true_iff in Eif as [E1 E2]. apply streq_true in E1. apply u64b_iff in E2. eauto 6. }
  destruct (K (t !! text)) as [K1|(i & m & b & _ & -> & Hi)]; [|by rewrite Hd].
  destruct (K (t' !! text)) as [K2|(i & m & b & _ & -> & Hi)]; [by rewrite K1, K2|by rewrite Hd].
Qed.

Lemma names_elem A i p : p ∈ names_of A i <-> exists x, A !! p = Some x /\ inode x = i.
Proof.
  unfold names_of. rewrite elem_of_dom. split.
  - intros [x Hx]. apply map_lookup_filter_Some in Hx as [Hx Hi]. eauto.
  - intros (x & Hx & Hi). exists x. by apply map_lookup_filter_Some.
Qed.

Lemma inode_data x i : in_u64 i -> inode x = i -> exists m b, x = NNode i m b.
Proof. intros Hi Hx. destruct x; cbn in Hx; [unfold in_u64 in Hi; lia..|]. subst. eauto. Qed.

Section State.
Context (t : gmap cstr node) (n : Z) (A : gmap cstr node).
Hypothesis (Hinv : inv t n) (Hsh : shows t A).

(** A file with a group has no name of its own. *)
Lemma group_no_node i L p m b : group t i L -> ordinary p -> t !! p <> Some (NNode i m b).
Proof.
  intros Hg Ho Hp. destruct (gr_data _ _ _ _ _ Hg) as (m' & b' & Hd).
  assert (Hpd : p = dataf i) by (eapply (inv_uniq _ _ _ _ Hinv); eassumption).
  by apply (ordinary_apart E fs p Ho) in Hpd.
Qed.

Lemma names_group i L : in_u64 i -> group t i L -> names_of A i = L.
Proof.
  intros Hi Hg. apply leibniz_equiv. intros p. rewrite names_elem. split.
  - intros (x & Hx & Hix). apply inode_data in Hix as (m & b & ->); [|done].
    apply Hsh in Hx as [Ho Hx]. apply view_data in Hx as [Hx|(_ & Hx & _)].
    + by apply (group_no_node i L) in Hx.
    + by apply (gr_links _ _ _ _ _ Hg).
  - intros Hp. destruct (gr_data _ _ _ _ _ Hg) as (m & b & Hd). exists (NNode i m b). split; [|done].
    apply Hsh. split; [by apply (gr_names _ _ _ _ _ Hg)|].
    apply view_link; [done|by apply (gr_links _ _ _ _ _ Hg)|done].
Qed.

Lemma names_plain i p m b : in_u64 i -> nogroup t i -> ordinary p -> t !! p = Some (NNode i m b) ->
  names_of A i = {[p]}.
Proof.
  intros Hi Hn Ho Hp. apply leibniz_equiv. intros q. rewrite names_elem, elem_of_singleton. split.
  - intros (x & Hx & Hix). apply inode_data in Hix as (m' & b' & ->); [|done].
    apply Hsh in Hx as [_ Hx]. apply view_data in Hx as [Hx|(_ & Hx & _)].
    + by eapply (inv_uniq _ _ _ _ Hinv).
    + by apply (ng_links _ _ _ Hn) in Hx.
  - intros ->. exists (NNode i m b). split; [|done]. apply Hsh. split; [done|]. by apply view_node.
Qed.

(** The two ways a name has a file. *)
Lemma file_cases p i m b : A !! p = Some (NNode i m b) -> in_u64 i ->
  ordinary p /\
  ((nogroup t i /\ t !! p = Some (NNode i m b)) \/
   (exists L, group t i L /\ p ∈ L /\ t !! dataf i = Some (NNode i m b))).
Proof.
  intros Hp Hi. apply Hsh in Hp as [Ho Hp]. split; [done|].
  destruct (inv_group _ _ _ _ Hinv i Hi) as [[L Hg]|Hn].
  - right. exists L. split; [done|]. apply view_data in Hp as [Hp|(_ & Hp & Hd)].
    + by apply (group_no_node i L) in Hp.
    + split; [by apply (gr_links _ _ _ _ _ Hg)|done].
  - left. split; [done|]. apply view_data in Hp as [Hp|(_ & Hp & _)]; [done|].
    by apply (ng_links _ _ _ Hn) in Hp.
Qed.

Lemma shows_insert t' dst x : ordinary dst -> view_at t' dst = Some x ->
  (forall q, ordinary q -> q <> dst -> view_at t' q = view_at t q) -> shows t' (<[dst := x]> A).
Proof.
  intros Ho Hd Hq p y. rewrite lookup_insert_Some. split.
  - intros [[<- <-]|[Hne Hp]]; [done|]. apply Hsh in Hp as [Hop Hp]. split; [done|]. by rewrite Hq.
  - intros [Hop Hp]. destruct (decide (p = dst)) as [->|Hne]; [left; by rewrite Hd in Hp; injection Hp|].
    right. split; [done|]. apply Hsh. split; [done|]. by rewrite <-Hq.
Qed.

Lemma shows_delete t' p : t' !! p = None ->
  (forall q, ordinary q -> q <> p -> view_at t' q = view_at t q) -> shows t' (delete p A).
Proof.
  intros Hd Hq q y. rewrite lookup_delete_Some. split.
  - intros [Hne Hp]. apply Hsh in Hp as [Hop Hp]. split; [done|]. by rewrite Hq.
  - intros [Hop Hp]. destruct (decide (q = p)) as [->|Hne].
    { unfold L2sProps.view_at in Hp. by rewrite Hd in Hp. }
    split; [done|]. apply Hsh. split; [done|]. by rewrite <-Hq.
Qed.

(** Names the lock leaves alone. *)
Lemma lock_view q : ordinary q -> lock_tree fs t n !! q = t !! q.
Proof. intros Ho. destruct (ordinary_apart E fs q Ho) as (? & ? & _). by apply lock_tree_other. Qed.

Lemma lock_dataf i : lock_tree fs t n !! dataf i = t !! dataf i.
Proof. apply lock_tree_other; [apply below_store|apply dataf_lock]. Qed.

Lemma step_link_plain i m b src dst :
  in_u64 i -> nogroup t i -> t !! src = Some (NNode i m b) -> ordinary src -> ordinary dst ->
  t !! dst = None -> parent_ok t dst = true ->
  exists t' n', cng_l2s_link E src dst (Host t [] n) = (0, Host t' [] n') /\
    inv t' n' /\ shows t' (<[dst := NNode i m b]> A).
Proof.
  intros Hi Hn Hs Hos Hod Hdst Hp. pose proof (inv_lockable _ _ _ _ Hinv) as Hl.
  eexists _, _. split; [by eapply (link_plain_run E fs Hv)|].
  assert (Hn1 : nogroup (lock_tree fs t n) i) by (eapply nogroup_same; [by apply same_group_lock|done]).
  assert (Hst : lock_tree fs t n !! store fs = Some NDir) by (by apply lock_store).
  assert (Hs1 : lock_tree fs t n !! src = Some (NNode i m b)) by (by rewrite lock_view).
  assert (Hd1 : lock_tree fs t n !! dst = None) by (by rewrite lock_view).
  split.
  { apply (first_inv E fs); try done; [by apply (lock_inv E fs)|].
    by apply (parent_mono t); [apply lock_dirs|]. }
  pose proof (first_data E fs (lock_tree fs t n) (lock_next fs t n) i m b src dst Hi Hos Hod) as Hd'.
  apply shows_insert; [done| |].
  - apply view_link; [done| |done]. unfold first_tree. apply lookup_insert_eq.
  - intros q Hoq Hne. destruct (ordinary_apart E fs q Hoq) as (Q1 & Q2 & Q3 & Q4).
    destruct (decide (q = src)) as [->|Hqs].
    + rewrite (view_node t src _ Hs) by done. apply view_link; [done| |done].
      by apply (first_src E fs _ _ _ _ _ _ _ Hs1).
    + apply view_frame.
      * rewrite (first_lookup fs) by done. by apply lock_view.
      * intros j Hj Hqj. assert (Hij : i <> j) by (intros ->; by apply (ng_links _ _ _ Hn) in Hqj).
        rewrite (sg_data _ _ _ _ (first_same E fs _ _ _ _ _ _ _ Hi Hn1 Hs1 Hos Hod Hd1 j Hj Hij)).
        apply lock_dataf.
Qed.

Lemma step_link_member i L m b src dst :
  in_u64 i -> group t i L -> src ∈ L -> t !! dataf i = Some (NNode i m b) -> ordinary dst ->
  t !! dst = None -> parent_ok t dst = true -> in_u64 (Z.of_nat (size L) + 1) ->
  exists t' n', cng_l2s_link E src dst (Host t [] n) = (0, Host t' [] n') /\
    inv t' n' /\ shows t' (<[dst := NNode i m b]> A).
Proof.
  intros Hi Hg Hs Hd Hod Hdst Hp Hc. pose proof (inv_lockable _ _ _ _ Hinv) as Hl.
  destruct (link_member_run E fs Hv t n i L src dst) as (x & Hx & Hxd & Hrun); try done.
  eexists _, _. split; [exact Hrun|].
  assert (Hg1 : group (lock_tree fs t n) i L) by (eapply group_same; [by apply same_group_lock|done]).
  assert (Hd1 : lock_tree fs t n !! dst = None) by (by rewrite lock_view).
  destruct (ordinary_apart E fs dst Hod) as (D1 & D2 & D3 & D4).
  assert (Hdd : join_tree fs (lock_tree fs t n) i (Z.of_nat (size L)) x dst !! dataf i =
    Some (NNode i m b)).
  { rewrite join_lookup; [by rewrite lock_dataf|done|by apply dataf_mark..]. }
  split.
  { apply (join_inv E fs); try done; [by apply (lock_inv E fs)|].
    by apply (parent_mono t); [apply lock_dirs|]. }
  apply shows_insert; [done| |].
  - apply view_link; [done| |done]. unfold join_tree. apply lookup_insert_eq.
  - intros q Hoq Hne. destruct (ordinary_apart E fs q Hoq) as (Q1 & Q2 & Q3 & Q4).
    apply view_frame.
    + rewrite join_lookup by done. by apply lock_view.
    + intros j Hj Hqj. destruct (decide (i = j)) as [<-|Hij]; [by rewrite Hdd, Hd|].
      rewrite (sg_data _ _ _ _ (join_same E fs _ _ _ _ _ Hi Hg1 Hx Hxd Hod Hd1 Hc j Hj Hij)).
      apply lock_dataf.
Qed.

Lemma step_unlink_plain i m b p :
  in_u64 i -> nogroup t i -> t !! p = Some (NNode i m b) -> ordinary p -> host_ro_1 fs p = false ->
  exists t' n', do_unlinkat E p (Host t [] n) = (0, Host t' [] n') /\
    inv t' n' /\ shows t' (delete p A).
Proof.
  intros Hi Hn Hp Ho Hr. exists (delete p t), n. pose proof (inv_lockable _ _ _ _ Hinv) as [L1 L2 L3].
  destruct (ordinary_apart E fs p Ho) as (P1 & P2 & P3 & P4).
  assert (Hdirs : dirs_kept t (delete p t)).
  { intros d Hd. rewrite lookup_delete_ne; [done|]. intros <-. by rewrite Hp in Hd. }
  split; [|split].
  - unfold do_unlinkat, view_ro. rewrite (lv_view _ _ Hv), Hr.
    rewrite (mthen_eq _ _ _ _ _ (resolve_plain E t n p _ true CNG_PATH_MAX Hp eq_refl)).
    by rewrite (mthen_eq _ _ _ _ _ (unlink_some t n p _ Hp eq_refl)).
  - eapply inv_step; [exact Hinv| |done|apply files_delete; by eapply inv_files| |].
    + constructor; [by apply Hdirs|by rewrite lookup_delete_ne|by rewrite lookup_delete_ne].
    + intros q Hoq [y Hq]. apply lookup_delete_Some in Hq as [_ Hq].
      apply (inv_tree _ _ _ _ Hinv); [done|by rewrite Hq].
    + intros j Hj. eapply either_same; [|by apply (inv_group _ _ _ _ Hinv)].
      apply (same_group_delete fs); [by apply (ordinary_is_apart E fs)|by rewrite Hp].
  - apply shows_delete; [apply lookup_delete_eq|]. intros q Hoq Hne. apply view_frame.
    + by rewrite lookup_delete_ne.
    + intros j _ _. by rewrite lookup_delete_ne.
Qed.

Lemma step_unlink_member i L p :
  in_u64 i -> group t i L -> p ∈ L -> host_ro_1 fs p = false ->
  exists t' n', do_unlinkat E p (Host t [] n) = (0, Host t' [] n') /\
    inv t' n' /\ shows t' (delete p A).
Proof.
  intros Hi Hg Hp Hr. destruct (group_marked _ _ _ _ _ Hg) as [x Hm].
  pose proof (gr_names _ _ _ _ _ Hg p Hp) as Ho. pose proof (proj2 (gr_links _ _ _ _ _ Hg p) Hp) as Hpl.
  destruct (ordinary_apart E fs p Ho) as (P1 & P2 & P3 & P4).
  eexists _, _. split; [|split; [by eapply (leave_inv E fs Hv t n i L x p)|]].
  - unfold do_unlinkat, view_ro. rewrite (lv_view _ _ Hv), Hr.
    rewrite (mthen_eq _ _ _ _ _ (resolve_member E fs Hv t n i L p true Hi Hg Hp)).
    rewrite (mthen_eq _ _ _ _ _ (unlink_some t n p _ Hpl eq_refl)), (Hro i Hi).
    change ((0 =? 0) && negb false) with true. cbv iota.
    by rewrite (mthen_eq _ _ _ _ _ (decref_run E fs Hv t n i L x p Hinv Hi Hg Hp Hm _)).
  - pose proof (leave_t1_p E fs t n i L p Hg Hp) as Hp1. apply shows_delete.
    + unfold leave_tree. case_if; [by rewrite !lookup_delete_ne|by rewrite lookup_insert_ne, lookup_delete_ne].
    + intros q Hoq Hne. destruct (ordinary_apart E fs q Hoq) as (Q1 & Q2 & Q3 & Q4).
      apply view_frame; [by apply leave_lookup|].
      intros j Hj Hqj. destruct (decide (i = j)) as [<-|Hij].
      2: { by apply (sg_data _ _ _ _ (leave_same E fs t n i L x p Hinv Hi Hg Hp Hm j Hj Hij)). }
      apply (gr_links _ _ _ _ _ Hg) in Hqj.
      assert (H2 : 1 < Z.of_nat (size L)).
      { assert (H2 : (size ({[p; q]} : gset cstr) <= size L)%nat) by (apply subseteq_size; set_solver).
        rewrite size_union, !size_singleton in H2 by set_solver. lia. }
      unfold leave_tree. destruct (Z.leb_spec (Z.of_nat (size L)) 1); [lia|].
      rewrite lookup_insert_ne, lookup_delete_ne by (apply not_eq_sym; by apply dataf_mark).
      by apply (leave_data E fs t n i L p).
Qed.

(** What stat reports of a name. *)
Lemma fstatat_run p x : A !! p = Some x -> is_data x = true -> in_u64 (inode x) ->
  nlink A x < 2 ^ 32 ->
  do_fstatat E p (Host t [] n) = (inr (x, nlink A x), Host t [] n).
Proof.
  intros Hp Hx Hi Hl. apply is_data_node in Hx as (i & m & b & ->). cbn [inode] in *.
  destruct (file_cases p i m b Hp Hi) as [Ho [[Hn Ht]|(L & Hg & HpL & Hd)]].
  - unfold nlink. cbn [inode]. rewrite (names_plain i p m b Hi Hn Ho Ht), size_singleton.
    assert (Htg : l2s_target E p CNG_PATH_MAX true (Host t [] n) = (inr None, Host t [] n)).
    { unfold l2s_target.
      rewrite (mthen_eq _ _ _ _ _ (resolve_plain E t n p _ true CNG_PATH_MAX Ht eq_refl)).
      destruct (hidden_exact _ (o_hidden _ _ _ Ho)) as [-> _]. unfold proot_target.
      assert (Hh : pr_data_here E p (Host t [] n) = (None, Host t [] n))
        by (unfold pr_data_here; by rewrite (o_proot _ _ _ Ho)).
      by rewrite (mthen_eq _ _ _ _ _ Hh). }
    assert (Hst : cng_l2s_stat E p (Host t [] n) = (inr None, Host t [] n))
      by (unfold cng_l2s_stat; by rewrite (mthen_eq _ _ _ _ _ Htg)).
    unfold do_fstatat. rewrite (mthen_eq _ _ _ _ _ Hst). by rewrite (mthen_eq _ _ _ _ _ (lstat_some t n p _ Ht)).
  - unfold nlink in *. cbn [inode] in *. rewrite (names_group i L Hi Hg) in *.
    assert (Hst : cng_l2s_stat E p (Host t [] n) =
      (inr (Some (NNode i m b, Z.of_nat (size L))), Host t [] n)).
    { unfold cng_l2s_stat. erewrite mthen_eq.
      2: { unfold l2s_target. rewrite (mthen_eq _ _ _ _ _ (resolve_member E fs Hv t n i L p true Hi Hg HpL)).
           reflexivity. }
      cbv iota. unfold l2s_statf. rewrite (dataf_not_proc E fs Hv).
      rewrite (mthen_eq _ _ _ _ _ (lstat_some t n _ _ Hd)). unfold ret. do 4 f_equal.
      pose proof (size_pos E fs t i L Hg). destruct (Z.eqb_spec (Z.of_nat (size L)) 0); [lia|].
      apply wrapu_small. lia. }
    unfold do_fstatat. by rewrite (mthen_eq _ _ _ _ _ Hst).
Qed.

Lemma spec_step_runs op A' : spec_step A op A' ->
  exists t' n', run_op op (Host t [] n) = (0, Host t' [] n') /\ inv t' n' /\ shows t' A'.
Proof.
  intros Hs. inversion Hs as [src dst x Hx Hxd Hi Hdst Hod Hpar Hnl|p x Hx Hxd Hi Hr]; subst; cbn [run_op].
  - apply is_data_node in Hxd as (i & m & b & ->). cbn [inode] in *.
    assert (Hpk : parent_ok t dst = true).
    { unfold parent_ok. apply Hsh in Hpar as [_ Hpar]. unfold L2sProps.view_at in Hpar.
      apply bind_Some in Hpar as (y & -> & Hy). destruct y; [done| |done].
      by destruct (t !! text) as [[| |]|]; try done; case_if_in Hy. }
    assert (Hfree : t !! dst = None).
    { destruct (t !! dst) as [y|] eqn:Ey; [|done]. exfalso.
      assert (Hy : is_Some (view_at t dst)).
      { unfold L2sProps.view_at. rewrite Ey. cbn [mbind option_bind].
        destruct y; [by eexists| |by eexists]. destruct (t !! text) as [[| |]|]; try (by eexists).
        by case_if; eexists. }
      destruct Hy as [z Hz]. rewrite (proj2 (Hsh dst z)) in Hdst; done. }
    destruct (file_cases src i m b Hx Hi) as [Ho [[Hn Ht]|(L & Hg & HpL & Hd)]].
    + by apply step_link_plain.
    + unfold nlink in Hnl. cbn [inode] in Hnl. rewrite (names_group i L Hi Hg) in Hnl.
      eapply step_link_member; try done. unfold in_u64. lia.
  - apply is_data_node in Hxd as (i & m & b & ->). cbn [inode] in *.
    destruct (file_cases p i m b Hx Hi) as [Ho [[Hn Ht]|(L & Hg & HpL & Hd)]].
    + by eapply step_unlink_plain.
    + by eapply step_unlink_member.
Qed.
End State.

Lemma spec_run_runs ops A A' : spec_run A ops A' -> forall t n, inv t n -> shows t A ->
  exists t' n', run_ops ops (Host t [] n) = (replicate (length ops) 0, Host t' [] n') /\
    inv t' n' /\ shows t' A'.
Proof.
  induction 1 as [A|A op ops A1 A' Hs _ IH]; intros t n Hi Hsh.
  - exists t, n. done.
  - destruct (spec_step_runs t n A Hi Hsh op A1 Hs) as (t1 & n1 & Hr & Hi1 & Hs1).
    destruct (IH t1 n1 Hi1 Hs1) as (t2 & n2 & Hr2 & Hi2 & Hs2). exists t2, n2.
    split; [|done]. cbn [run_ops]. rewrite (mthen_eq _ _ _ _ _ Hr).
    by rewrite (mthen_eq _ _ _ _ _ Hr2).
Qed.
End Spec.

(** C2: Emulated hard links are hard links.  On a host that refuses nothing, every
    sequence of links and unlinks the abstract file system allows succeeds under
    the emulation, whether renameat2 is available or not; after it the guest sees
    at each of its names the file the abstract file system has there, its
    contents included, and stat reports of every file as many links as it has
    names.  The store's invariant holds again. *)
Theorem l2s_refines_hard_links E fs ops A A' t n :
  lview E fs -> (forall i, in_u64 i -> host_ro_1 fs (dataf fs i) = false) ->
  inv E fs t n -> shows E fs t A -> spec_run E fs A ops A' ->
  exists t' n', run_ops E ops (Host t [] n) = (replicate (length ops) 0, Host t' [] n') /\
    inv E fs t' n' /\ shows E fs t' A' /\
    forall p x, A' !! p = Some x -> is_data x = true -> in_u64 (inode x) -> nlink A' x < 2 ^ 32 ->
      do_fstatat E p (Host t' [] n') = (inr (x, nlink A' x), Host t' [] n').
Proof.
  intros Hv Hro Hi Hsh Hr.
  destruct (spec_run_runs E fs Hv Hro ops A A' Hr t n Hi Hsh) as (t' & n' & H1 & H2 & H3).
  exists t', n'. split; [done|]. split; [done|]. split; [done|].
  intros p x Hp Hx Hix Hl. by apply (fstatat_run E fs Hv t' n' A').
Qed.

(** ** A rootfs with a file and a directory *)

Definition demo_lenv : lenv :=
  LEnv genv0 (Some fs0) None false (fun _ => inl (-2)) (fun _ => None).

Definition demo_file : node := NNode 7 33188 (cs "hi").

Definition demo_names : gmap cstr node :=
  <[cs "/data/rootfs" := NDir]> (<[cs "/data/rootfs/a" := demo_file]>
  (<[cs "/data/rootfs/d" := NDir]> ∅)).

Definition demo_tree : gmap cstr node :=
  <[cs "/" := NDir]> (<[cs "/data" := NDir]> demo_names).

Lemma demo_view : lview demo_lenv fs0.
Proof. constructor; [done|exact fs0_wf|done|by vm_compute|by vm_compute]. Qed.

Lemma demo_ro i : in_u64 i -> host_ro_1 fs0 (dataf fs0 i) = false.
Proof. intros _. unfold dataf. generalize (data_name i). intros s. by vm_compute. Qed.

(** The names of the tree, one by one. *)
Ltac demo_cases H :=
  unfold demo_tree, demo_names in H;
  repeat (let K := fresh "K" in
          apply lookup_insert_Some in H as [[K H]|[_ H]]; [first [discriminate K|subst]|]);
  [..|by rewrite lookup_empty in H].

Ltac demo_ordinary :=
  constructor; [by vm_compute|by vm_compute|apply Nat.ltb_lt; by vm_compute|by vm_compute..|
    let r := fresh in intros r; discriminate].

Lemma demo_below r : demo_tree !! (store fs0 ++ SLASH :: r) = None.
Proof. destruct (demo_tree !! _) as [x|] eqn:H; [|done]. demo_cases H. Qed.

Lemma demo_inv : inv demo_lenv fs0 demo_tree 100.
Proof.
  constructor.
  - by vm_compute.
  - left. by vm_compute.
  - left. by vm_compute.
  - intros p q i m b m' b' Hp Hq. demo_cases Hp; try done. demo_cases Hq; done.
  - intros p i m b Hp. demo_cases Hp; try done. unfold demo_file in Hp. injection Hp as <- _ _. lia.
  - intros p _ [x Hp]. demo_cases Hp; by vm_compute.
  - intros i Hi. right. constructor; [apply demo_below| |intros c _; apply demo_below].
    intros p Hp. demo_cases Hp; done.
Qed.

Lemma demo_shows : shows demo_lenv fs0 demo_tree demo_names.
Proof.
  intros p x. split.
  - intros Hp. split.
    + unfold demo_names in Hp.
      repeat (apply lookup_insert_Some in Hp as [[<- _]|[_ Hp]]; [demo_ordinary|]).
      by rewrite lookup_empty in Hp.
    + demo_cases Hp; by vm_compute.
  - intros [Ho Hp]. unfold view_at in Hp. apply bind_Some in Hp as (y & Hy & Hp).
    pose proof (o_owned _ _ _ Ho) as Hw. pose proof (o_canon _ _ _ Ho) as Hc.
    demo_cases Hy; first [by vm_compute in Hw|by vm_compute in Hc|injection Hp as <-; by vm_compute].
Qed.

Definition demo_ops : list lop :=
  [OLink (cs "/data/rootfs/a") (cs "/data/rootfs/d/b");
   OLink (cs "/data/rootfs/d/b") (cs "/data/rootfs/c");
   OUnlink (cs "/data/rootfs/a")].

Definition demo_after : gmap cstr node :=
  delete (cs "/data/rootfs/a") (<[cs "/data/rootfs/c" := demo_file]>
    (<[cs "/data/rootfs/d/b" := demo_file]> demo_names)).

Lemma demo_spec : spec_run demo_lenv fs0 demo_names demo_ops demo_after.
Proof.
  assert (U : in_u64 (inode demo_file)) by (unfold in_u64; simpl; lia).
  eapply spec_cons; [apply (spec_link _ _ _ _ _ demo_file); try (by vm_compute); demo_ordinary|].
  eapply spec_cons; [apply (spec_link _ _ _ _ _ demo_file); try (by vm_compute); demo_ordinary|].
  eapply spec_cons; [apply (spec_unlink _ _ _ _ demo_file); by vm_compute|]. constructor.
Qed.

Lemma l2s_refines_hard_links_witness :
  exists t' n', run_ops demo_lenv demo_ops (Host demo_tree [] 100) = ([0; 0; 0], Host t' [] n') /\
    inv demo_lenv fs0 t' n' /\ shows demo_lenv fs0 t' demo_after /\
    forall p x, demo_after !! p = Some x -> is_data x = true -> in_u64 (inode x) ->
      nlink demo_after x < 2 ^ 32 ->
      do_fstatat demo_lenv p (Host t' [] n') = (inr (x, nlink demo_after x), Host t' [] n').
Proof.
  exact (l2s_refines_hard_links demo_lenv fs0 demo_ops demo_names demo_after demo_tree 100
    demo_view demo_ro demo_inv demo_shows demo_spec).
Defined.

(** The run in full: the two names left stand for the one file, whose count is
    two. *)
Example demo_run :
  fst ((rs <- run_ops demo_lenv demo_ops ;;
        b <- do_fstatat demo_lenv (cs "/data/rootfs/d/b") ;;
        c <- do_fstatat demo_lenv (cs "/data/rootfs/c") ;;
        a <- do_fstatat demo_lenv (cs "/data/rootfs/a") ;; ret (rs, b, c, a)) (Host demo_tree [] 100)) =
  ([0; 0; 0], inr (demo_file, 2), inr (demo_file, 2), inl (- ENOENT)).
Proof. vm_compute. reflexivity. Qed.
