(* ===== verification/L2sSafe.v ===== *)
(** * What no refusal of the host can break

    A small program logic for the emulation's calls that holds for every sequence
    of errors the host answers with; and with it, that a link never loses the
    file, and that no link text leads the emulation to a file that is not the
    guest's. *)

From Stdlib Require Import ZArith Ascii String Lia.
From S2P Require Import Prelude Path PathCanon PathFacts PathRev PathProps Fmt ProcStat Resolve ResolveFacts L2sName L2s L2sNameProps L2sFacts L2sGroup L2sOps L2sProps.
From stdpp Require Import base numbers strings gmap list.

Open Scope Z_scope.
Open Scope l2s_scope.

(** ** Triples *)


Definition tree : Type := gmap cstr node.


(** From a tree with [P], whatever is refused, [m] ends with an answer and a
    tree in [Q]. *)
Definition triple {A : Type} (P : tree -> Prop) (m : M A) (Q : A -> tree -> Prop) : Prop :=
  forall h, P (h_tree h) -> Q (m h).1 (h_tree (m h).2).

Lemma triple_ret {A : Type} (P : tree -> Prop) (a : A) (Q : A -> tree -> Prop) :
  (forall t, P t -> Q a t) -> triple P (ret a) Q.
Proof. intros H h. apply H. Qed.

Lemma triple_bind {A B : Type} (P : tree -> Prop) (m : M A) (k : A -> M B) (R : A -> tree -> Prop) (Q : B -> tree -> Prop) :
  triple P m R -> (forall a, triple (R a) (k a) Q) -> triple P (mthen m k) Q.
Proof.
  intros Hm Hk h HP. unfold mthen. specialize (Hm h HP). destruct (m h) as [a h'].
  by apply Hk.
Qed.

Lemma triple_weaken {A : Type} (P P' : tree -> Prop) (m : M A) (Q Q' : A -> tree -> Prop) :
  triple P m Q -> (forall t, P' t -> P t) -> (forall a t, Q a t -> Q' a t) -> triple P' m Q'.
Proof. intros H H1 H2 h HP. apply H2, H, H1, HP. Qed.

Lemma triple_fault (P : tree -> Prop) : triple P fault (fun _ => P).
Proof. intros h HP. unfold fault. by destruct (h_faults h). Qed.

Lemma triple_call {A : Type} (P : tree -> Prop) (refused : Z -> A) (f : host -> A * host) (Q : A -> tree -> Prop) :
  (forall e t, e < 0 -> P t -> Q (refused e) t) ->
  (forall h, P (h_tree h) -> Q (f h).1 (h_tree (f h).2)) -> triple P (call refused f) Q.
Proof.
  intros H1 H2. eapply triple_bind; [apply triple_fault|]. intros e. cbv beta.
  destruct (Z.ltb_spec e 0); [apply triple_ret; eauto|]. intros h. apply H2.
Qed.

(** A computation that keeps [P]. *)
Notation keeps P m := (triple P m (fun _ => P)).

(** ** The calls that take nothing away *)

Section Keep.
Context (q : cstr) (x : node).
Notation here := (fun t : gmap cstr node => t !! q = Some x).

Lemma keep_lstat p : keeps here (l2s_lstat p).
Proof. by apply triple_call. Qed.

Lemma keep_readlink p k : keeps here (l2s_readlink p k).
Proof. by apply triple_call. Qed.

Lemma keep_insert_new (t : gmap cstr node) p y : t !! q = Some x -> t !! p = None -> <[p := y]> t !! q = Some x.
Proof. intros H1 H2. rewrite lookup_insert_ne; [done|]. intros ->. by rewrite H2 in H1. Qed.

Lemma keep_symlink text p : keeps here (l2s_symlink text p).
Proof.
  apply triple_call; [done|]. intros h H. cbv beta zeta. case_if; [done|].
  destruct (h_tree h !! p) as [y|] eqn:Ep.
  - rewrite bool_decide_eq_true_2 by (by eexists). done.
  - rewrite bool_decide_eq_false_2 by (by intros [? ?]). by apply keep_insert_new.
Qed.

Lemma keep_mkdir p : keeps here (pin_mkdir p).
Proof.
  apply triple_call; [done|]. intros h H. cbv beta zeta. destruct (h_tree h !! p) as [y|] eqn:Ep.
  - rewrite bool_decide_eq_true_2 by (by eexists). done.
  - rewrite bool_decide_eq_false_2 by (by intros [? ?]). case_if; [done|]. by apply keep_insert_new.
Qed.

Lemma keep_open_create p mode : keeps here (open_create p mode).
Proof.
  apply triple_call; [done|]. intros h H. cbv beta zeta. destruct (h_tree h !! p) as [[| |]|] eqn:Ep; try done.
  case_if; [done|]. by apply keep_insert_new.
Qed.

Lemma keep_touch p : keeps here (l2s_touch p).
Proof. eapply triple_bind; [apply keep_open_create|]. intros. by apply triple_ret. Qed.

Lemma keep_open_dir p : keeps here (open_dir p).
Proof. by apply triple_call. Qed.

Lemma keep_open_file p : keeps here (open_file p).
Proof. by apply triple_call. Qed.

Lemma keep_flock : keeps here flock.
Proof. intros h H. unfold flock. by destruct (flock_wait (h_faults h)). Qed.

Lemma keep_unlink p : p <> q -> keeps here (l2s_unlink p).
Proof.
  intros Hne. apply triple_call; [done|]. intros h H. cbv beta.
  destruct (h_tree h !! p) as [[| |]|]; try done; by apply lookup_delete_Some.
Qed.

Lemma keep_store_dir E sz : keeps here (l2s_store_dir E sz).
Proof.
  unfold l2s_store_dir. case_if; [by apply triple_ret|].
  eapply triple_bind; [apply keep_mkdir|]. intros r. case_if; [by apply triple_ret|].
  eapply triple_bind; [apply keep_lstat|]. intros [|y]; [by apply triple_ret|].
  destruct (is_dir y); by apply triple_ret.
Qed.

Lemma keep_lock E data : keeps here (l2s_lock E data).
Proof.
  unfold l2s_lock. eapply triple_bind; [apply keep_store_dir|]. intros sd.
  eapply triple_bind.
  { instantiate (1 := fun _ => here). destruct sd as [|lk]; [by apply triple_ret|]. case_if; [apply keep_open_create|by apply triple_ret]. }
  intros fd. eapply triple_bind.
  { instantiate (1 := fun _ => here). case_if; [|by apply triple_ret]. eapply triple_bind; [apply keep_lstat|].
    intros [|y]; [by apply triple_ret|]. case_if; [|by apply triple_ret].
    eapply triple_bind; [apply keep_open_file|]. intros fd'. case_if; [apply keep_open_file|by apply triple_ret]. }
  intros fd'. eapply triple_bind.
  { instantiate (1 := fun _ => here). case_if; [apply keep_open_dir|by apply triple_ret]. }
  intros fd2. case_if; [by apply triple_ret|]. eapply triple_bind; [apply keep_flock|].
  intros. by apply triple_ret.
Qed.

Lemma keep_data_at p : keeps here (data_at p).
Proof. eapply triple_bind; [apply keep_lstat|]. intros. by apply triple_ret. Qed.

(** A copy is made in a new file, and only that one is taken away again. *)
Lemma keep_materialize E src dst : keeps here (l2s_materialize E src dst).
Proof.
  unfold l2s_materialize. eapply triple_bind.
  { instantiate (1 := fun _ => here). unfold l2s_statf. case_if; [by apply triple_call|apply keep_lstat]. }
  intros [e|y]; [by apply triple_ret|]. destruct y as [| |i m body]; [by apply triple_ret..|].
  case_if; [by apply triple_ret|]. eapply triple_bind.
  { instantiate (1 := fun _ => here). case_if; [by apply triple_call|apply keep_open_file]. }
  intros in_. case_if; [by apply triple_ret|]. eapply triple_bind; [apply triple_fault|]. intros e. cbv beta zeta.
  eapply triple_bind with (R := fun out (t : gmap cstr node) => t !! q = Some x /\ (0 <= out -> dst <> q)).
  { apply triple_call; [intros e' t He Ht; split; [done|intros; unfold id in *; lia]|]. intros h H. cbv beta zeta.
    destruct (h_tree h !! dst) as [z|] eqn:Ed.
    - rewrite bool_decide_eq_true_2 by (by eexists). split; [done|]. cbn. unfold EEXIST. lia.
    - rewrite bool_decide_eq_false_2 by (by intros [? ?]). case_if; [split; [done|cbn; unfold ENOENT; lia]|].
      split; [by apply keep_insert_new|]. intros _ ->. by rewrite Ed in H. }
  intros out. destruct (Z.ltb_spec out 0) as [|Hout]; [apply triple_ret; by intros t [? _]|].
  apply (triple_weaken (fun t : gmap cstr node => t !! q = Some x /\ dst <> q) _ _ (fun _ => here));
    [|intros t [? Hd]; split; [done|by apply Hd]|done].
  eapply triple_bind with (R := fun _ (t : gmap cstr node) => t !! q = Some x /\ dst <> q).
  { apply triple_call; [done|]. intros h [H Hne]. cbn. destruct (h_tree h !! dst) as [[| |]|]; try done.
    cbn. by rewrite lookup_insert_ne. }
  intros rc. case_if; [|apply triple_ret; by intros t [? _]].
  eapply triple_bind with (R := fun _ => here).
  { intros h [H Hne]. by apply (keep_unlink dst Hne). }
  intros. by apply triple_ret.
Qed.
End Keep.

#[export] Hint Resolve keep_lstat keep_readlink keep_symlink keep_mkdir keep_touch keep_store_dir
  keep_lock keep_data_at keep_materialize : cng.

Lemma triple_and {A : Type} (P1 P2 : tree -> Prop) (m : M A) (Q1 Q2 : A -> tree -> Prop) :
  triple P1 m Q1 -> triple P2 m Q2 -> triple (fun t => P1 t /\ P2 t) m (fun a t => Q1 a t /\ Q2 a t).
Proof. intros H1 H2 h [HP1 HP2]. split; [by apply H1|by apply H2]. Qed.

Lemma triple_or {A : Type} (P1 P2 : tree -> Prop) (m : M A) (Q : A -> tree -> Prop) :
  triple P1 m Q -> triple P2 m Q -> triple (fun t => P1 t \/ P2 t) m Q.
Proof. intros H1 H2 h [HP|HP]; [by apply H1|by apply H2]. Qed.

(** ** The names of a group, in whatever directory *)

Definition group_name (i : Z) (count : option Z) : cstr :=
  match count with None => data_name i | Some c => marker_name i c end.

Lemma build_name_shape sz dir i count out : build_name sz dir i count = Some out ->
  exists pre, out = pre ++ SLASH :: group_name i count /\ (pre = dir \/ dir = pre ++ [SLASH]).
Proof.
  unfold build_name. set (cap := (sz - 1)%nat). cbv zeta. intros H. case_if_in H; [done|].
  destruct (negb _) eqn:Es in H; cbn [andb] in H.
  - destruct (Nat.ltb_spec (length dir) cap) as [Hl|Hl].
    + exists dir. split; [|by left]. case_if_in H; [done|]. case_if_in H; [done|]. injection H as <-.
      bprop. destruct count as [c|].
      * destruct (Nat.ltb_spec (length (((dir ++ [SLASH]) ++ L2S_PREFIX) ++ put_u64 i 1)) cap).
        -- unfold group_name, marker_name, data_name. by rewrite <-!app_assoc.
        -- exfalso. rewrite length_app in Eif1. unfold put_u64 in Eif1 at 2.
           rewrite (length_app (replicate _ _)), length_replicate in Eif1. lia.
      * unfold group_name, data_name. by rewrite <-!app_assoc.
    + bprop. destruct (Nat.leb_spec cap (length (dir ++ L2S_PREFIX))) as [|Hb]; [done|].
      rewrite length_app in Hb. lia.
  - apply negb_false_iff, andb_true_iff in Es as [Es1 Es2]. unfold char_is in Es2.
    apply bool_decide_eq_true in Es2.
    destruct dir as [|y pre _] using rev_ind; [done|]. rewrite length_app in Es2. simpl in Es2.
    rewrite Nat.add_sub, lookup_app_r, Nat.sub_diag in Es2 by lia. injection Es2 as ->.
    exists pre. split; [|by right]. case_if_in H; [done|]. case_if_in H; [done|]. injection H as <-. bprop.
    destruct count as [c|].
    + destruct (Nat.ltb_spec (length (((pre ++ [SLASH]) ++ L2S_PREFIX) ++ put_u64 i 1)) cap).
      * unfold group_name, marker_name, data_name. by rewrite <-!app_assoc.
      * exfalso. rewrite length_app in Eif1. unfold put_u64 in Eif1 at 2.
        rewrite (length_app (replicate _ _)), length_replicate in Eif1. lia.
    + unfold group_name, data_name. by rewrite <-!app_assoc.
Qed.

(** ** The file is somewhere *)

Section Loss.
Context (E : lenv) (x : node) (src : cstr) (Hx : is_data x = true).

Lemma x_no_dir : is_dir x = false.
Proof. by destruct x. Qed.

Lemma triple_exchange d y (Hy : is_dir y = false) : src <> d ->
  triple (fun t : gmap cstr node => t !! src = Some x /\ t !! d = Some y) (l2s_exchange E src d)
    (fun r (t : gmap cstr node) =>
       (r = 0 /\ t !! src = Some y /\ t !! d = Some x) \/
       (r < 0 /\ t !! src = Some x /\ t !! d = Some y)).
Proof.
  intros Hne. unfold l2s_exchange. case_if.
  { apply triple_ret. intros t [? ?]. right. unfold ENOSYS. split; [lia|done]. }
  apply triple_call; [intros e t He [? ?]; by right|]. intros h [H1 H2]. cbv beta zeta.
  rewrite H1, H2, x_no_dir, Hy. left. cbn. split; [done|]. split; [apply lookup_insert_eq|].
  rewrite lookup_insert_ne by done. apply lookup_insert_eq.
Qed.

(** A rename of the file to where no directory is. *)
Lemma triple_rename o d : o <> d ->
  triple (fun t : gmap cstr node => t !! o = Some x) (l2s_rename o d)
    (fun r (t : gmap cstr node) =>
       (r = 0 /\ t !! d = Some x /\ t !! o = None) \/ (r < 0 /\ t !! o = Some x)).
Proof.
  intros Hne. apply triple_call; [intros e t He H; by right|]. intros h H. cbv beta zeta.
  rewrite H. case_if; [right; unfold ENOENT; cbn; split; [lia|done]|].
  destruct (streq o d) eqn:Es; [by apply streq_true in Es|]. rewrite x_no_dir.
  destruct (h_tree h !! d) as [[| |]|]; [right; unfold EISDIR; cbn; split; [lia|done]| | |];
    left; cbn; (split; [done|]; split; [apply lookup_insert_eq|]);
    rewrite lookup_insert_ne by done; apply lookup_delete_eq.
Qed.

Lemma triple_symlink_new text p q (y : node) :
  triple (fun t : gmap cstr node => t !! q = Some y) (l2s_symlink text p)
    (fun r (t : gmap cstr node) =>
       t !! q = Some y /\ (r = 0 /\ t !! p = Some (NLink text) /\ p <> q \/ r < 0)).
Proof.
  apply triple_call; [intros e t He H; by auto|]. intros h H. cbv beta zeta.
  case_if; [unfold ENOENT; cbn; split; [done|right; lia]|].
  destruct (h_tree h !! p) as [z|] eqn:Ep.
  - rewrite bool_decide_eq_true_2 by (by eexists). unfold EEXIST. cbn. split; [done|right; lia].
  - rewrite bool_decide_eq_false_2 by (by intros [? ?]). cbn.
    assert (p <> q) by (intros ->; by rewrite Ep in H).
    split; [by rewrite lookup_insert_ne|]. left. split; [done|]. split; [apply lookup_insert_eq|done].
Qed.

(** A symlink where there is nothing, or nothing still. *)
Lemma triple_symlink_back text p :
  triple (fun t : gmap cstr node => t !! p = None) (l2s_symlink text p)
    (fun r (t : gmap cstr node) => (r = 0 /\ t !! p = Some (NLink text)) \/ (r < 0 /\ t !! p = None)).
Proof.
  apply triple_call; [intros e t He H; by auto|]. intros h H. cbv beta zeta.
  case_if; [unfold ENOENT; cbn; right; split; [lia|done]|].
  rewrite bool_decide_eq_false_2 by (rewrite H; by intros [? ?]). left. cbn.
  split; [done|apply lookup_insert_eq].
Qed.

(** The file taken back to its empty name, or left where it is. *)
Lemma triple_rename_back d : src <> d ->
  triple (fun t : gmap cstr node => t !! d = Some x /\ t !! src = None) (l2s_rename d src)
    (fun _ (t : gmap cstr node) => t !! src = Some x \/ (t !! d = Some x /\ t !! src = None)).
Proof.
  intros Hne. apply triple_call; [intros e t He H; by right|]. intros h [H1 H2]. cbv beta zeta.
  rewrite H1. case_if; [by right|]. destruct (streq d src) eqn:Es; [by apply streq_true in Es|].
  rewrite x_no_dir, H2. left. apply lookup_insert_eq.
Qed.

(** The file at [src], or moved to [d] with nothing left in its name. *)
Definition moved_or_not (d : cstr) (t : gmap cstr node) : Prop :=
  t !! src = Some x \/ (t !! d = Some x /\ t !! src = None).

Lemma swap_by_rename d tgt : src <> d ->
  triple (fun t : gmap cstr node => t !! src = Some x)
    (st <- l2s_lstat d ;;
     stray <- match st with
              | inl _ => ret false
              | inr y =>
                  if is_lnk y then
                    t <- l2s_readlink d (CNG_PATH_MAX - 1) ;;
                    ret (match t with inr old => negb (streq old tgt) | inl _ => true end)
                  else ret true
              end ;;
     if stray : bool then ret (- EEXIST)
     else
       r <- l2s_rename src d ;;
       if r <? 0 then ret r
       else
         r <- l2s_symlink tgt src ;;
         if r <? 0 then l2s_rename d src ;;; ret r else ret r)
    (fun r (t : gmap cstr node) =>
       (r = 0 /\ t !! d = Some x /\ t !! src = Some (NLink tgt)) \/ (r < 0 /\ moved_or_not d t)).
Proof.
  intros Hne. eapply triple_bind; [apply keep_lstat|]. intros st.
  eapply triple_bind with (R := fun _ (t : gmap cstr node) => t !! src = Some x).
  { destruct st as [|y]; [by apply triple_ret|]. case_if; [|by apply triple_ret].
    eapply triple_bind; [apply keep_readlink|]. intros. by apply triple_ret. }
  intros [|]; [apply triple_ret; intros t H; right; split; [done|by left]|].
  eapply triple_bind; [by apply triple_rename|]. intros r. cbv beta.
  destruct (Z.ltb_spec r 0).
  { apply triple_ret. intros t [[-> _]|[_ H']]; [lia|]. right. split; [lia|by left]. }
  apply (triple_weaken (fun t : gmap cstr node => t !! d = Some x /\ t !! src = None) _ _
    (fun r (t : gmap cstr node) =>
       (r = 0 /\ t !! d = Some x /\ t !! src = Some (NLink tgt)) \/ (r < 0 /\ moved_or_not d t)));
    [|intros t [[_ ?]|[? _]]; [done|lia]|done].
  eapply triple_bind; [apply (triple_and _ _ _ _ _ (keep_symlink d x tgt src) (triple_symlink_back tgt src))|].
  intros r'. cbv beta. destruct (Z.ltb_spec r' 0) as [Hr|Hr].
  - eapply triple_bind with (R := fun _ => moved_or_not d).
    + apply (triple_weaken (fun t : gmap cstr node => t !! d = Some x /\ t !! src = None) _ _
        (fun _ => moved_or_not d)); [|intros t [? [[? _]|[_ ?]]]; [lia|done]|done].
      by apply triple_rename_back.
    + intros _. apply triple_ret. intros t Ht. right. split; [lia|done].
  - apply triple_ret. intros t [Hd [[-> Hs]|[? _]]]; [by left|lia].
Qed.

Lemma triple_swap_in d tgt : src <> d ->
  triple (fun t : gmap cstr node => t !! src = Some x) (l2s_swap_in E src d tgt)
    (fun r (t : gmap cstr node) =>
       (r = 0 /\ t !! d = Some x /\ t !! src = Some (NLink tgt)) \/ (r < 0 /\ moved_or_not d t)).
Proof.
  intros Hne. unfold l2s_swap_in. eapply triple_bind; [apply (triple_symlink_new tgt d src x)|].
  intros r. cbv beta. eapply triple_bind with (R := fun (o : option Z) (t : gmap cstr node) =>
    match o with
    | None => t !! d = Some x /\ t !! src = Some (NLink tgt)
    | Some _ => t !! src = Some x
    end).
  { destruct (Z.eqb_spec r 0) as [->|Hr]; [|apply triple_ret; by intros t [? _]].
    eapply triple_bind.
    - eapply triple_weaken; [apply (triple_exchange d (NLink tgt) eq_refl Hne)| |intros a t H; exact H].
      intros t [? [(_ & ? & _)|?]]; [done|lia].
    - intros r. cbv beta. destruct (Z.eqb_spec r 0) as [->|Hr].
      + apply triple_ret. intros t [(_ & ? & ?)|[? _]]; [done|lia].
      + eapply triple_bind with (R := fun _ (t : gmap cstr node) => t !! src = Some x).
        * eapply triple_weaken; [apply (keep_unlink src x d); by apply not_eq_sym| |done].
          intros t [(? & _)|(_ & ? & _)]; [lia|done].
        * intros. by apply triple_ret. }
  intros [e|]; cbv beta iota.
  - by apply swap_by_rename.
  - apply triple_ret. intros t [? ?]. by left.
Qed.

(** With nothing at [src], nothing is moved. *)
Lemma triple_swap_missing q d tgt : src <> d -> q <> d ->
  triple (fun t : gmap cstr node => t !! q = Some x /\ t !! src = None) (l2s_swap_in E src d tgt)
    (fun r (t : gmap cstr node) => r < 0 /\ t !! q = Some x).
Proof.
  intros Hne Hq. set (P := fun t : gmap cstr node => t !! q = Some x /\ t !! src = None).
  assert (Hlnk : triple P (l2s_symlink tgt d) (fun _ => P)).
  { apply triple_call; [done|]. intros h [H1 H2]. cbv beta zeta. case_if; [done|]. case_if; [done|].
    split; cbn; by rewrite lookup_insert_ne. }
  assert (Hunl : triple P (l2s_unlink d) (fun _ => P)).
  { apply triple_call; [done|]. intros h [H1 H2]. cbv beta.
    destruct (h_tree h !! d) as [[| |]|]; try done; split; cbn; by rewrite lookup_delete_ne. }
  assert (Hex : triple P (l2s_exchange E src d) (fun r t => r <> 0 /\ P t)).
  { unfold l2s_exchange. case_if; [by apply triple_ret|]. apply triple_call; [intros e t He H; split; [unfold id; lia|done]|].
    intros h [H1 H2]. cbv beta zeta. by rewrite H2. }
  assert (Hren : triple P (l2s_rename src d) (fun r t => r < 0 /\ P t)).
  { apply triple_call; [done|]. intros h [H1 H2]. cbv beta zeta. by rewrite H2. }
  unfold l2s_swap_in. eapply triple_bind; [exact Hlnk|]. intros r.
  eapply triple_bind with (R := fun (o : option Z) t => is_Some o /\ P t).
  { case_if; [|apply triple_ret; intros; split; [by eexists|done]].
    eapply triple_bind; [exact Hex|]. intros r'. cbv beta. destruct (Z.eqb_spec r' 0); [apply triple_ret; by intros t [? _]|].
    eapply triple_bind with (R := fun _ => P); [|intros; apply triple_ret; intros; split; [by eexists|done]].
    intros h [_ HP]. by apply Hunl. }
  intros [e|]; cbv beta iota; [|apply triple_ret; by intros t [[? ?] _]].
  assert (Hls : triple P (l2s_lstat d) (fun _ => P)) by (by apply triple_call).
  eapply (triple_bind _ _ _ (fun _ => P)); [intros h [_ HP]; by apply Hls|]. intros st.
  eapply triple_bind with (R := fun _ => P).
  { destruct st as [|y]; [by apply triple_ret|]. case_if; [|by apply triple_ret].
    eapply (triple_bind _ _ _ (fun _ => P)); [by apply triple_call|]. intros. by apply triple_ret. }
  intros [|]; [apply triple_ret; intros t [? _]; split; [unfold EEXIST; lia|done]|].
  eapply triple_bind; [exact Hren|]. intros r'. cbv beta. destruct (Z.ltb_spec r' 0).
  - apply triple_ret. intros t [? [? _]]. done.
  - intros h [? _]. lia.
Qed.

Lemma triple_swap_out d text : src <> d ->
  triple (fun t : gmap cstr node => t !! d = Some x /\ t !! src = Some (NLink text))
    (l2s_swap_out E src d)
    (fun _ (t : gmap cstr node) => t !! src = Some x \/ t !! d = Some x).
Proof.
  intros Hne. unfold l2s_swap_out.
  eapply triple_bind with (R := fun r (t : gmap cstr node) =>
    (r = 0 /\ t !! src = Some x) \/ (r <> 0 /\ t !! d = Some x /\ t !! src = Some (NLink text))).
  { unfold l2s_exchange. case_if; [apply triple_ret; by right|].
    apply triple_call; [intros e t He [? ?]; right; split; [unfold id; lia|done]|].
    intros h [H1 H2]. cbv beta zeta. rewrite H1, H2, x_no_dir. left. cbn. split; [done|apply lookup_insert_eq]. }
  intros r. cbv beta. destruct (Z.eqb_spec r 0) as [->|Hr].
  - eapply triple_bind with (R := fun _ (t : gmap cstr node) => t !! src = Some x).
    + eapply triple_weaken; [apply (keep_unlink src x d); by apply not_eq_sym| |done].
      by intros t [[_ ?]|[? _]].
    + intros. apply triple_ret. by left.
  - eapply triple_bind with (R := fun _ (t : gmap cstr node) => t !! d = Some x).
    + eapply triple_weaken; [apply (keep_unlink d x src); exact Hne| |done]. by intros t [[? _]|(_ & ? & _)].
    + intros _. eapply triple_bind; [apply (triple_rename d src); by apply not_eq_sym|].
      intros r'. apply triple_ret. intros t [(_ & ? & _)|[_ ?]]; auto.
Qed.

Lemma triple_first_names dst dir d tgt i : src <> d ->
  (forall m, build_name CNG_PATH_MAX dir i (Some 2) = Some m -> m <> d /\ m <> src) ->
  triple (fun t : gmap cstr node => t !! d = Some x /\ t !! src = Some (NLink tgt))
    (first_names E src dst dir d tgt i)
    (fun _ (t : gmap cstr node) => t !! src = Some x \/ t !! d = Some x).
Proof.
  intros Hne Hm. set (P := fun t : gmap cstr node => t !! d = Some x /\ t !! src = Some (NLink tgt)).
  assert (Hsym : triple P (l2s_symlink tgt dst) (fun _ => P)) by (apply triple_and; apply keep_symlink).
  unfold first_names. eapply (triple_bind _ _ _ (fun _ => P)).
  { destruct (build_name _ _ _ _) as [m|]; [|by apply triple_ret]. apply triple_and; apply keep_touch. }
  intros _. eapply (triple_bind _ _ _ (fun _ => P)); [exact Hsym|]. intros sr. case_if.
  - eapply (triple_bind _ _ _ (fun _ => P)).
    { destruct (build_name _ _ _ _) as [m|]; [|by apply triple_ret]. destruct (Hm m eq_refl) as [M1 M2].
      eapply (triple_bind _ _ _ (fun _ => P)); [apply triple_and; by apply keep_unlink|].
      intros. by apply triple_ret. }
    intros _. eapply triple_bind; [by apply triple_swap_out|]. intros. by apply triple_ret.
  - apply triple_ret. intros t [? _]. by right.
Qed.
End Loss.

(** ** Linking a file *)

Section Link.
Context (E : lenv) (fs : cng_fs) (Hv : lview E fs).
Context (i m : Z) (b src : cstr) (Hi : in_u64 i) (Ho : ordinary E fs src).
Notation x := (NNode i m b).

(** The file is at its name, or under its hidden one. *)
Definition safe (t : gmap cstr node) : Prop :=
  t !! src = Some x \/ exists q, l2s_basename q = data_name i /\ t !! q = Some x.

Lemma hidden_data : cng_l2s_hidden (data_name i) = true.
Proof. unfold cng_l2s_hidden. by rewrite parse_data_name. Qed.

Lemma hidden_marker c : in_u64 c -> cng_l2s_hidden (marker_name i c) = true.
Proof.
  intros Hc. unfold cng_l2s_hidden. rewrite parse_marker_name by done. by rewrite orb_true_r.
Qed.

Lemma hidden_not_src q : cng_l2s_hidden (l2s_basename q) = true -> q <> src.
Proof. intros H ->. by rewrite (o_hidden _ _ _ Ho) in H. Qed.

(** The names built in a directory: their last components, and that neither is
    the source. *)
Lemma built_data dir d : build_name CNG_PATH_MAX dir i None = Some d ->
  l2s_basename d = data_name i /\ src <> d /\
  forall m', build_name CNG_PATH_MAX dir i (Some 2) = Some m' -> m' <> d /\ m' <> src.
Proof.
  intros H. apply build_name_shape in H as (pre & -> & _). cbn [group_name].
  assert (B : l2s_basename (pre ++ SLASH :: data_name i) = data_name i)
    by (by apply basename_app, data_name_slash_free).
  split; [done|]. split.
  - apply not_eq_sym, hidden_not_src. rewrite B. apply hidden_data.
  - intros m' H'. apply build_name_shape in H' as (pre' & -> & _). cbn [group_name].
    assert (B' : l2s_basename (pre' ++ SLASH :: marker_name i 2) = marker_name i 2)
      by (apply basename_app, marker_name_slash_free; [done|apply two_in]).
    split.
    + intros H'. rewrite H', B in B'. by apply (data_marker_apart i i 2).
    + apply hidden_not_src. rewrite B'. apply hidden_marker, two_in.
Qed.

Lemma store_not_beside d d' :
  build_name CNG_PATH_MAX (store fs) i None = Some d ->
  build_name CNG_PATH_MAX (l2s_dirname src CNG_PATH_MAX) i None = Some d' -> d <> d'.
Proof.
  intros H H' <-. rewrite (build_data E fs Hv i Hi) in H. injection H as <-.
  apply build_name_shape in H' as (pre & Ed & Hpre). cbn [group_name] in Ed.
  assert (Hp : pre = store fs).
  { unfold dataf in Ed. change (SLASH :: data_name i) with ([SLASH] ++ data_name i) in Ed.
    rewrite !app_assoc in Ed. apply app_inv_tail in Ed. by apply app_inv_tail in Ed. }
  subst pre. destruct (path_split src (o_canon _ _ _ Ho)) as (d0 & nm & Es & Hf & _).
  destruct (store_ne E fs Hv) as [N1 N2]. destruct (decide (d0 = [])) as [->|Hd0].
  - assert (Hr : l2s_dirname src CNG_PATH_MAX = [SLASH]).
    { rewrite Es. unfold l2s_dirname. cbn [app]. rewrite reverse_cons, drop_while_app by (by apply Forall_reverse).
      done. }
    rewrite Hr in Hpre. destruct Hpre as [?|Hpre]; [done|]. by destruct (store fs) as [|? [|? ?]].
  - assert (Hd : l2s_dirname src CNG_PATH_MAX = d0).
    { rewrite Es. apply dirname_in; [done|done|]. pose proof (o_length _ _ _ Ho) as L.
      rewrite Es, length_app in L. lia. }
    rewrite Hd in Hpre. destruct Hpre as [<-|Hpre].
    + by apply (o_below _ _ _ Ho nm).
    + apply (o_below _ _ _ Ho (SLASH :: nm)). by rewrite Es, Hpre, <-app_assoc.
Qed.

Notation at_src := (fun t : gmap cstr node => t !! src = Some x).

Lemma store_dir_result sz :
  triple at_src (l2s_store_dir E sz)
    (fun sd (t : gmap cstr node) => t !! src = Some x /\ forall s, sd = inr s -> s = store fs).
Proof.
  unfold l2s_store_dir. rewrite (lv_view _ _ Hv). change (f_rootfs fs ++ cs "/.l2s") with (store fs).
  case_if; [by apply triple_ret|]. eapply triple_bind; [apply keep_mkdir|]. intros r.
  case_if; [by apply triple_ret|]. eapply triple_bind; [apply keep_lstat|]. intros [e|y]; [by apply triple_ret|].
  case_if; apply triple_ret; [|done]. intros t Ht. split; [done|]. by intros s [= <-].
Qed.

Lemma moved_safe d t : l2s_basename d = data_name i -> moved_or_not x src d t -> safe t.
Proof. intros Hd [?|[? _]]; [by left|right; by exists d]. Qed.

(** The second try of a first link, beside the source. *)
Lemma triple_beside dst d0 :
  (forall d, build_name CNG_PATH_MAX (l2s_dirname src CNG_PATH_MAX) i None = Some d -> d0 <> d) ->
  l2s_basename d0 = data_name i -> src <> d0 ->
  triple (moved_or_not x src d0)
    (match build_name CNG_PATH_MAX (l2s_dirname src CNG_PATH_MAX) i None with
     | None => ret (- ENAMETOOLONG)
     | Some data =>
         r <- l2s_swap_in E src data (l2s_basename data) ;;
         if r <? 0 then ret r
         else first_names E src dst (l2s_dirname src CNG_PATH_MAX) data (l2s_basename data) i
     end) (fun r t => safe t).
Proof.
  intros Hne Hb0 Hs0. destruct (build_name _ _ _ None) as [d|] eqn:Ed.
  2: { apply triple_ret. intros t. by apply moved_safe. }
  destruct (built_data _ d Ed) as (Hb & Hsd & Hmk). specialize (Hne d eq_refl).
  eapply triple_bind with (R := fun r (t : gmap cstr node) =>
    (r = 0 /\ t !! d = Some x /\ t !! src = Some (NLink (l2s_basename d))) \/ (r < 0 /\ safe t)).
  { apply triple_or.
    - eapply triple_weaken; [by apply (triple_swap_in E x src eq_refl)|done|].
      intros r t [?|[? Hm']]; [by left|right]. split; [done|]. by apply (moved_safe d).
    - eapply triple_weaken; [by apply (triple_swap_missing E x src d0)|done|].
      intros r t [Hr ?]. right. split; [done|]. right. by exists d0. }
  intros r. cbv beta. case_if.
  - bprop. apply triple_ret. intros t [[? _]|[_ ?]]; [lia|done].
  - bprop. eapply triple_weaken; [by apply (triple_first_names E x src eq_refl)| |].
    + intros t [(_ & ? & ?)|[? _]]; [done|lia].
    + intros _ t [?|?]; [by left|right; by exists d].
Qed.

(** Once the move into the store was tried. *)
Definition tried (mv : option (Z * cstr * cstr)) (t : gmap cstr node) : Prop :=
  match mv with
  | None => safe t
  | Some (r, st, d) =>
      (r = 0 /\ st = store fs /\ build_name CNG_PATH_MAX st i None = Some d /\
         t !! d = Some x /\ t !! src = Some (NLink d)) \/
      (r <> 0 /\ exists d', build_name CNG_PATH_MAX (store fs) i None = Some d' /\ moved_or_not x src d' t)
  end.

Lemma triple_first_link dst ddir own :
  triple at_src (l2s_first_link E src dst ddir own) (fun _ t => safe t).
Proof.
  unfold l2s_first_link. eapply triple_bind with (R := fun st (t : gmap cstr node) =>
    t !! src = Some x /\ forall y, st = inr y -> y = x).
  { apply triple_call; [done|]. intros h H. cbn. rewrite H. split; [done|]. by intros y [= <-]. }
  intros [e|y]; cbv beta iota; [apply triple_ret; intros t [? _]; by left|].
  intros h [Hs Hy]. specialize (Hy y eq_refl) as ->. cbn [is_lnk andb negb]. revert h Hs.
  match goal with |- forall h, _ -> safe (h_tree (?m h).2) => change (triple at_src m (fun _ t => safe t)) end.
  case_if; [apply triple_ret; by left|]. eapply triple_bind; [apply store_dir_result|]. intros sd.
  eapply triple_bind with (R := tried).
  { destruct sd as [e|st].
    - apply triple_ret. intros t [Ht _]. right. split; [done|]. exists (dataf fs i).
      split; [by apply (build_data E fs Hv)|by left].
    - intros h [Hs Hst]. specialize (Hst st eq_refl) as ->.
      destruct (build_name _ (store fs) i None) as [d|] eqn:Ed; [|by left].
      destruct (built_data _ d Ed) as (_ & Hsd & _).
      refine (triple_bind _ _ _ _ tried (triple_swap_in E x src eq_refl d d Hsd) _ h Hs). intros r. apply triple_ret.
      intros t [(-> & ? & ?)|[Hr Hm']]; [by left|right]. split; [lia|]. by exists d. }
  intros [[[r st] d]|]; cbv beta iota; [|by apply triple_ret]. destruct (Z.eqb_spec r 0) as [->|Hr].
  - intros h [(_ & -> & Ed & H1 & H2)|[? _]]; [|done]. destruct (built_data _ d Ed) as (Hb & Hsd & Hmk).
    destruct (triple_first_names E x src eq_refl dst (store fs) d d i Hsd Hmk h (conj H1 H2)) as [?|?];
      [by left|right; by exists d].
  - case_if; [apply triple_ret|].
    + intros t [[? _]|(_ & d' & Ed & Hm')]; [done|]. destruct (built_data _ d' Ed) as (Hb & _ & _).
      by apply (moved_safe d').
    + intros h [[? _]|(_ & d' & Ed & Hm')]; [done|]. destruct (built_data _ d' Ed) as (Hb & Hsd & _).
      apply (triple_beside dst d'); [|done|done|done]. intros d2 Ed2. by eapply store_not_beside.
Qed.

(** A file of its own is no member of a group, whatever is refused. *)
Lemma triple_link_source own :
  triple at_src (l2s_link_source E src own)
    (fun s (t : gmap cstr node) => t !! src = Some x /\ forall d, s <> inr (Some d)).
Proof.
  unfold l2s_link_source. eapply triple_bind with (R := fun s (t : gmap cstr node) =>
    t !! src = Some x /\ forall d, s <> inr (Some d)).
  { unfold cng_l2s_resolve. eapply triple_bind with (R := fun st (t : gmap cstr node) =>
      t !! src = Some x /\ forall y, st = inr y -> is_lnk y = false).
    { apply triple_call; [done|]. intros h H. cbn. rewrite H. split; [done|]. by intros y [= <-]. }
    intros [e|y]; cbv beta iota; [apply triple_ret; by intros t [? _]|].
    intros h [Hs Hy]. rewrite (Hy y eq_refl). done. }
  intros [e|[d|]]; cbv beta iota; [apply triple_ret; by intros t [? _]|apply triple_ret; by intros t [? H]; destruct (H d)|].
  case_if; [apply triple_ret; by intros t [? _]|].
  eapply (triple_bind _ _ _ (fun _ (t : gmap cstr node) => t !! src = Some x)).
  { eapply triple_weaken; [apply keep_data_at|by intros t [? _]|done]. }
  intros ok. destruct (hidden_exact _ (o_hidden _ _ _ Ho)) as [-> _].
  assert (Hn : (if ok then None else None : option Z) = None) by (by destruct ok). rewrite Hn.
  unfold pr_data_here. rewrite (o_proot _ _ _ Ho). cbn [negb orb].
  eapply (triple_bind _ _ _ (fun g (t : gmap cstr node) => g = None /\ t !! src = Some x)); [by apply triple_ret|].
  intros g h [-> H]. done.
Qed.

(** What is done under the lock. *)
Definition link_locked (dst : cstr) (own : bool) : M Z :=
  l2s_lock E src ;;;
  s <- l2s_link_source E src own ;;
  match s with
  | inr None =>
      r <- l2s_first_link E src dst (l2s_dirname dst CNG_PATH_MAX) own ;;
      if r =? 1 then l2s_materialize E src dst else ret r
  | inr (Some d) =>
      if pr_is_data (l2s_basename (fst d)) then pr_link E (fst d) dst
      else l2s_join E (fst d) dst (l2s_dirname dst CNG_PATH_MAX) (snd d)
  | inl e => ret e
  end.

Lemma triple_locked dst own : triple at_src (link_locked dst own) (fun _ t => safe t).
Proof.
  unfold link_locked. eapply triple_bind; [apply keep_lock|]. intros held. cbv beta.
  eapply triple_bind; [apply triple_link_source|].
  intros [e'|[d|]]; [apply triple_ret; intros t' [? _]; by left|intros h [_ H]; by destruct (H d)|].
  eapply triple_bind with (R := fun _ t => safe t).
  { eapply triple_weaken; [apply triple_first_link|by intros t' [? _]|done]. }
  intros r. cbv beta. case_if; [|by apply triple_ret].
  intros h [H|(q & Hq & H)]; [left|right; exists q; split; [done|]]; by apply keep_materialize.
Qed.

Lemma triple_link dst : triple at_src (cng_l2s_link E src dst) (fun _ t => safe t).
Proof.
  unfold cng_l2s_link. eapply triple_bind; [apply keep_lstat|].
  intros [e|y]; [|apply triple_ret; by left]. cbv beta iota zeta.
  eapply triple_bind; [apply triple_link_source|]. intros [e'|[d|]]; cbv beta iota.
  - eapply triple_weaken; [apply (triple_locked dst)|by intros t' [? _]|done].
  - intros h [_ H]. by destruct (H d).
  - eapply triple_weaken; [apply (triple_locked dst)|by intros t' [? _]|done].
Qed.
End Link.

(** C3: Whatever the host refuses, linking a file does not lose it.  For every
    sequence of errors the kernel answers the calls of a link with, the rollback's
    calls among them, the file with its inode, mode and contents is afterwards
    still under its name, or under the hidden name of its inode. *)
Theorem link_loses_no_file E fs i m b src dst t faults n :
  lview E fs -> in_u64 i -> ordinary E fs src -> t !! src = Some (NNode i m b) ->
  exists r t' faults' n', cng_l2s_link E src dst (Host t faults n) = (r, Host t' faults' n') /\
    (t' !! src = Some (NNode i m b) \/
     exists q, l2s_basename q = data_name i /\ t' !! q = Some (NNode i m b)).
Proof.
  intros Hv Hi Ho Hs. pose proof (triple_link E fs Hv i m b src Hi Ho dst (Host t faults n) Hs) as T.
  destruct (cng_l2s_link E src dst (Host t faults n)) as [r [t' f' n']].
  exists r, t', f', n'. split; [done|]. exact T.
Qed.

(** The store's first move is refused after the rename, and so is the way back:
    the file is under its hidden name. *)
Definition demo_faults : list Z := [0; 0; 0; 0; 0; 0; 0; 0; 0; 0; 0; 0; 0; -38; 0; 0; 0; -28; -28].

Lemma link_loses_no_file_witness :
  let src := cs "/data/rootfs/a" in
  (exists r t' faults' n',
    cng_l2s_link demo_lenv src (cs "/data/rootfs/c") (Host demo_tree demo_faults 100) =
      (r, Host t' faults' n') /\
    (t' !! src = Some (NNode 7 33188 (cs "hi")) \/
     exists q, l2s_basename q = data_name 7 /\ t' !! q = Some (NNode 7 33188 (cs "hi")))) /\
  let h := (cng_l2s_link demo_lenv src (cs "/data/rootfs/c") (Host demo_tree demo_faults 100)).2 in
  h_tree h !! src = None /\
  h_tree h !! cs "/data/rootfs/.l2s/.l2s.7" = Some (NNode 7 33188 (cs "hi")).
Proof.
  intros src. split; [|split; vm_compute; reflexivity].
  apply (link_loses_no_file demo_lenv fs0 7 33188 (cs "hi") src (cs "/data/rootfs/c") demo_tree
    demo_faults 100); [exact demo_view|unfold in_u64; lia|demo_ordinary|by vm_compute].
Defined.

(** * No link text leads out of the view

    A link is recognised by its text, and the text is the guest's.  Whatever tree
    the host has and whatever it refuses, the file the emulation takes a link for
    is one in a place of the guest's own. *)

Section Reach.
Context (E : lenv).

(** The path of the store. *)
Definition store_path : cstr :=
  match l_view E with Some fs => f_rootfs fs | None => [] end ++ cs "/.l2s".

(** A path the emulation may follow: one the view names, or a name in the
    store. *)
Definition own_path (p : cstr) : Prop :=
  (l2s_canonical p = true /\ l2s_owned E p = true) \/
  exists nm, slash_free nm /\ p = store_path ++ SLASH :: nm.

(** A file of the same directory as [q]. *)
Definition beside (q p : cstr) : Prop :=
  exists nm, slash_free nm /\ p = take (length q - length (l2s_basename q)) q ++ nm.

(** What a link at [p] may be taken for. *)
Definition placed (p data : cstr) : Prop :=
  own_path data \/
  (exists nm sep, slash_free nm /\ (sep = [] \/ sep = [SLASH]) /\
     data = l2s_dirname p CNG_PATH_MAX ++ sep ++ nm) \/
  (exists ind, own_path ind /\ beside ind data).

Lemma basename_slash_free p : slash_free (l2s_basename p).
Proof. apply Forall_reverse, take_while_Forall. Qed.

(** Answers of the right kind, from any tree and under any refusals. *)
Notation answers m R := (triple (fun _ => True) m (fun a _ => R a)).

Lemma answers_bind {A B : Type} (m : M A) (k : A -> M B) (R : A -> Prop) (Q : B -> Prop) :
  answers m R -> (forall a, R a -> answers (k a) Q) -> answers (mthen m k) Q.
Proof.
  intros Hm Hk. eapply triple_bind; [exact Hm|]. intros a h Ha. by apply (Hk a Ha).
Qed.

Lemma answers_ret {A : Type} (a : A) (Q : A -> Prop) : Q a -> answers (ret a) Q.
Proof. intros H. by apply triple_ret. Qed.

Lemma answers_any {A : Type} (m : M A) : answers m (fun _ => True).
Proof. by intros h. Qed.

Lemma store_dir_answers sz : answers (l2s_store_dir E sz) (fun r => forall s, r = inr s -> s = store_path).
Proof.
  unfold l2s_store_dir. cbv zeta. fold store_path. case_if; [by apply answers_ret|].
  eapply answers_bind; [apply answers_any|]. intros r _. case_if; [by apply answers_ret|].
  eapply answers_bind; [apply answers_any|]. intros [e|y] _; [by apply answers_ret|].
  case_if; apply answers_ret; [|done]. by intros s [= <-].
Qed.

Lemma store_heal_answers tgt sz :
  answers (l2s_store_heal E tgt sz) (fun r => forall p, r = inr (Some p) -> own_path p).
Proof.
  unfold l2s_store_heal. case_if; [by apply answers_ret|].
  eapply answers_bind; [apply store_dir_answers|]. intros [e|s] Hs; [by apply answers_ret|].
  cbv zeta. case_if; [by apply answers_ret|]. apply answers_ret. intros p.
  case_if; [done|]. intros [= <-]. right. exists (l2s_basename tgt). split; [apply basename_slash_free|].
  by rewrite (Hs s eq_refl).
Qed.

Lemma locate_answers p tgt dsz :
  answers (l2s_locate E p tgt dsz) (fun k => forall d heal, k = LData d heal -> placed p d).
Proof.
  unfold l2s_locate. case_if; [by apply answers_ret|]. case_if.
  - case_if; [by apply answers_ret|]. cbv zeta. case_if; [by apply answers_ret|].
    eapply answers_bind; [apply answers_any|]. intros ok _. apply answers_ret. intros d heal.
    destruct ok; [|done]. intros [= <- _]. right. left.
    eexists (l2s_basename tgt), _. split; [apply basename_slash_free|]. split; [|done].
    case_if; auto.
  - case_if; [by apply answers_ret|]. apply negb_false_iff in Eif1. cbv zeta.
    assert (Hst : answers (k <- l2s_store_heal E tgt dsz ;;
      match k with
      | inl e => ret (LErr e)
      | inr None => ret LNone
      | inr (Some data) => ok <- data_at data ;; ret (if ok then LData data true else LNone)
      end) (fun k => forall d heal, k = LData d heal -> placed p d)).
    { eapply answers_bind; [apply store_heal_answers|]. intros [e|[d|]] Hd; [by apply answers_ret| |by apply answers_ret].
      eapply answers_bind; [apply answers_any|]. intros ok _. apply answers_ret. intros d' heal.
      destruct ok; [|done]. intros [= <- _]. left. by apply Hd. }
    case_if; [|exact Hst]. case_if; [by apply answers_ret|].
    eapply answers_bind; [apply answers_any|]. intros ok _. destruct ok; [|exact Hst].
    apply answers_ret. intros d heal [= <- _]. left. by left.
Qed.

Definition chain_ok (ind : cstr) (c : chain) : Prop :=
  match c with CNone => True | CCut g | CWhole g => g_ind g = ind /\ beside ind (g_data g) end.

Lemma chain_answers g : answers (pr_chain g) (chain_ok (g_ind g)).
Proof.
  unfold pr_chain. eapply answers_bind; [apply answers_any|]. intros [e|y] _; [by apply answers_ret|].
  case_if; [by apply answers_ret|]. eapply answers_bind; [apply answers_any|].
  intros [e|t2] _; [by apply answers_ret|]. case_if; [by apply answers_ret|].
  destruct (pr_data_of _ _) as [c|]; [|by apply answers_ret].
  unfold pr_set_data. cbn [g_ind g_data]. case_if; [by apply answers_ret|]. case_if; [by apply answers_ret|].
  eapply answers_bind; [apply answers_any|]. intros st _. apply answers_ret.
  assert (B : beside (g_ind g) (take (length (g_ind g) - length (l2s_basename (g_ind g))) (g_ind g) ++
    l2s_basename t2)) by (exists (l2s_basename t2); split; [apply basename_slash_free|done]).
  destruct st as [e|z]; case_if; done.
Qed.

Lemma look_answers n g : answers (pr_look n g) (chain_ok (g_ind g)).
Proof.
  induction n as [|n IH]; cbn [pr_look]; (eapply answers_bind; [apply chain_answers|]); intros r Hr.
  - by apply answers_ret.
  - destruct r; [by apply answers_ret|exact IH|by apply answers_ret].
Qed.

Lemma member_answers p tgt :
  answers (pr_member E p tgt) (fun m => forall g, m = Some g -> own_path (g_ind g) /\ beside (g_ind g) (g_data g)).
Proof.
  unfold pr_member. case_if; [by apply answers_ret|].
  apply orb_false_iff in Eif as [_ Hc]. apply negb_false_iff in Hc.
  eapply answers_bind with (R := fun r => chain_ok tgt r /\ (r <> CNone -> own_path tgt)).
  { case_if; [|by apply answers_ret]. apply andb_true_iff in Eif as [Hw _].
    eapply triple_weaken; [apply (look_answers 3 (PrGroup tgt [] 0))|done|].
    intros r t Hr. cbv beta in *. split; [exact Hr|]. intros _. by left. }
  assert (K : forall ind r, own_path ind -> chain_ok ind r -> forall g,
    (r = CWhole g \/ r = CCut g) -> own_path (g_ind g) /\ beside (g_ind g) (g_data g)).
  { intros ind r Ho Hr g [-> | ->]; destruct Hr as [-> Hb]; done. }
  intros r [Hr Ho]. destruct r as [|g|g].
  2, 3: apply answers_ret; intros g' [= <-]; eapply (K tgt); [by apply Ho|exact Hr|by auto].
  eapply answers_bind; [apply store_heal_answers|]. intros [e|[ind|]] Hk; [by apply answers_ret| |by apply answers_ret].
  eapply answers_bind; [apply (look_answers 3 (PrGroup ind [] 0))|]. intros r Hr'. cbn [g_ind] in Hr'.
  destruct r as [|g|g]; [by apply answers_ret| |].
  all: eapply answers_bind; [apply answers_any|]; intros _ _; eapply answers_bind; [apply answers_any|]; intros _ _;
    apply answers_ret; intros g' [= <-]; eapply (K ind); [by apply Hk|exact Hr'|by auto].
Qed.

Lemma resolve_answers p dsz want :
  answers (cng_l2s_resolve E p dsz want) (fun r => forall d c, r = inr (Some (d, c)) -> placed p d).
Proof.
  unfold cng_l2s_resolve. eapply answers_bind; [apply answers_any|]. intros [e|y] _; [by apply answers_ret|].
  case_if; [by apply answers_ret|]. eapply answers_bind; [apply answers_any|].
  intros [e|tgt] _; [by apply answers_ret|]. eapply answers_bind; [apply locate_answers|].
  intros [e| |d heal] Hl; [by apply answers_ret| |].
  - eapply answers_bind; [apply member_answers|]. intros [g|] Hg; apply answers_ret; [|done].
    intros d c. case_if; [done|]. intros [= <- _]. right. right. exists (g_ind g). by apply Hg.
  - eapply answers_bind; [apply answers_any|]. intros _ _. eapply answers_bind; [apply answers_any|].
    intros c _. apply answers_ret. intros d' c' [= <- _]. by eapply Hl.
Qed.
End Reach.

(** C38: A link's text leads nowhere outside the view.  From every tree a host or a
    hostile image can hold, and whatever calls are refused, the file a symbolic
    link is taken for is one the view names, one in the rootfs's own store, one
    in the link's own directory, or, for a group of proot's, one beside an
    indirection of the first two kinds. *)
Theorem l2s_resolve_stays_in_view E p dsz want h data c h' :
  cng_l2s_resolve E p dsz want h = (inr (Some (data, c)), h') -> placed E p data.
Proof.
  intros H. pose proof (resolve_answers E p dsz want h I data c) as R. rewrite H in R. by apply R.
Qed.

(** Of two links the guest planted, one names a file of the host outside the
    view and stays an ordinary symlink; the other names a data file that is
    there. *)
Definition planted_tree : gmap cstr node :=
  <[cs "/data/rootfs/x" := NLink (cs "/data/other/.l2s.5")]>
  (<[cs "/data/other/.l2s.5" := NNode 5 33188 (cs "secret")]>
  (<[cs "/data/rootfs/y" := NLink (cs "/data/rootfs/d/.l2s.6")]>
  (<[cs "/data/rootfs/d/.l2s.6" := NNode 6 33188 (cs "own")]> demo_tree))).

Lemma l2s_resolve_stays_in_view_witness :
  (cng_l2s_resolve demo_lenv (cs "/data/rootfs/x") CNG_PATH_MAX false (Host planted_tree [] 100)).1 =
    inr None /\
  placed demo_lenv (cs "/data/rootfs/y") (cs "/data/rootfs/d/.l2s.6").
Proof.
  split; [vm_compute; reflexivity|].
  apply (l2s_resolve_stays_in_view demo_lenv (cs "/data/rootfs/y") CNG_PATH_MAX false
    (Host planted_tree [] 100) (cs "/data/rootfs/d/.l2s.6") 0 (Host planted_tree [] 100)).
  vm_compute. reflexivity.
Defined.
