(* ===== verification/Dents.v ===== *)
(** * Directory listings (src/src/monitor/dispatch.c, getdents64)

    A listing is filled into a batch buffer of the monitor's, edited there, and
    copied to the guest once.  Modelled: the records put in front of the
    kernel's own for names that only the path layer knows (bind destinations,
    device nodes), the loop that gives room back until the kernel can make
    progress, the filter that compacts the batch in place, the re-read of a
    batch that was hidden whole, and the copy-out with its rewind.

    The batch buffer is a list of bytes; a store or a string that leaves it is
    [None].  The kernel's directory stream is a parameter: a read at a position
    gives the return value, the bytes and the next position.  The published view
    is read as one value ([cng_fs_read_begin] to [cng_fs_read_retry], see
    Publish.v). *)

From Stdlib Require Import ZArith Ascii String Lia.
From S2P Require Import Prelude Path PathCanon PathFacts Fmt ProcStat Resolve Rt L2sName L2s.
From stdpp Require Import base numbers strings gmap list.

Open Scope Z_scope.

Definition DENTS_BOUNCE : Z := 32768.
Definition EFAULT := 14.
Definition DT_UNKNOWN := 0.
Definition DT_DIR := 4.
Definition DT_LNK := 10.

(** ** The batch buffer *)

Definition byte_of (z : Z) : ascii := ascii_of_N (Z.to_N (u8 z)).
Definition code (c : ascii) : Z := Z.of_N (N_of_ascii c).

(** A word as its [n] little-endian bytes, and back. *)
Definition le_bytes (n : nat) (z : Z) : cstr := byte_of <$> bytes_of n z.
Arguments le_bytes : simpl never.
Definition unle (l : cstr) : Z := le64 (code <$> l).

(** [memcpy(buf + o, s, length s)]. *)
Definition write_at (buf : cstr) (o : Z) (s : cstr) : option cstr :=
  let o := Z.to_nat o in
  if (o + length s <=? length buf)%nat
  then Some (take o buf ++ s ++ drop (o + length s) buf) else None.

Definition slice (buf : cstr) (o : Z) (n : nat) : cstr := take n (drop (Z.to_nat o) buf).

(** The unsigned short at [o]. *)
Definition u16_at (buf : cstr) (o : Z) : Z := unle (slice buf o 2).

Definition not_nul (c : ascii) : bool := negb (Ascii.eqb c NUL).

(** The C string at [o]; its terminator is in the buffer. *)
Definition str_at (buf : cstr) (o : Z) : option cstr :=
  match drop_while not_nul (drop (Z.to_nat o) buf) with
  | [] => None
  | _ :: _ => Some (take_while not_nul (drop (Z.to_nat o) buf))
  end.

(** ** The records the monitor adds *)

(** The bytes written, 0 where the record does not fit. *)
Definition put_dent (buf : cstr) (at_ cap : Z) (name : cstr) (ino dtype cookie : Z)
    : option (Z * cstr) :=
  let nl := Z.of_nat (length name) in
  if 255 <? nl then Some (0, buf)
  else
    let reclen := Z.land (19 + nl + 1 + 7) (Z.lnot 7) in
    if (at_ <? 0) || (cap <? 0) || (cap <? at_ + reclen) then Some (0, buf)
    else
      buf ← write_at buf at_ (replicate (Z.to_nat reclen) NUL);
      buf ← write_at buf at_ (le_bytes 8 ino);
      buf ← write_at buf (at_ + 8) (le_bytes 8 cookie);
      buf ← write_at buf (at_ + 16) (le_bytes 2 (u16 reclen));
      buf ← write_at buf (at_ + 18) [byte_of dtype];
      buf ← write_at buf (at_ + 19) (name ++ [NUL]);
      Some (reclen, buf).

(** What the calls other than the read answer: the readback of a descriptor's
    name, whether the directory has an entry of a name, the inode and mode of a
    host path followed and not followed, and whether the guest's buffer takes
    that many bytes. *)
Record denv := DEnv {
  d_l2s : bool;                        (* cng_g_l2s *)
  d_fd_link : Z -> option cstr;
  d_has : cstr -> bool;
  d_stat : cstr -> option (Z * Z);
  d_lstat : cstr -> option (Z * Z);
  d_takes : Z -> nat -> bool }.

Section Dents.
Context (E : lenv) (D : denv).

Fixpoint present_loop (fuel : nat) (name buf : cstr) (o used : Z) : option bool :=
  match fuel with
  | O => None
  | S fuel =>
      if o + 19 <=? used then
        let rl := u16_at buf (o + 16) in
        if rl =? 0 then Some false
        else
          nm ← str_at buf (o + 19);
          if streq nm name then Some true else present_loop fuel name buf (o + rl) used
      else Some false
  end.

Definition dent_present (name buf : cstr) (used : Z) : option bool :=
  r ← present_loop (S (Z.to_nat used)) name buf 0 used;
  Some (r || d_has D name).

Definition dtype_of (mode : Z) : Z := Z.land (Z.shiftr mode 12) 15.

(** The directory a bind's destination is an entry of, and the entry's name. *)
Definition bind_entry (b : cng_bind) : option (cstr * cstr) :=
  let g := b_guest b in
  if (b_base b =? 0)%nat || at_end g (b_base b) then None
  else
    let plen := pred (b_base b) in
    if (plen =? 0)%nat then Some ([SLASH], drop (b_base b) g)
    else if (CNG_PATH_MAX <=? plen)%nat then None
    else Some (take plen g, drop (b_base b) g).

Definition bind_attrs (i : Z) (b : cng_bind) : Z * Z :=
  match d_stat D (b_host b) with
  | Some (ino, mode) => (ino, dtype_of mode)
  | None => (u64 (0xffffffff - u32 i), DT_DIR)
  end.

Fixpoint inject_binds (bs : list cng_bind) (i : Z) (gdir buf : cstr) (used added cap : Z)
    : option (Z * cstr) :=
  match bs with
  | [] => Some (added, buf)
  | b :: bs =>
      match bind_entry b with
      | None => inject_binds bs (i + 1) gdir buf used added cap
      | Some (parent, base) =>
          if negb (streq parent gdir) then inject_binds bs (i + 1) gdir buf used added cap
          else
            there ← dent_present base buf (used + added);
            if (there : bool) then inject_binds bs (i + 1) gdir buf used added cap
            else
              let '(ino, type) := bind_attrs i b in
              '(k, buf) ← put_dent buf (used + added) cap base ino type (0x7fffffff00000000 + i);
              if k =? 0 then Some (added, buf)
              else inject_binds bs (i + 1) gdir buf used (added + k) cap
      end
  end.

Fixpoint inject_nodes (nodes : list (cstr * cstr)) (i : Z) (buf : cstr) (used added cap : Z)
    : option (Z * cstr) :=
  match nodes with
  | [] => Some (added, buf)
  | (name, hostp) :: nodes =>
      match d_lstat D hostp with
      | None => inject_nodes nodes (i + 1) buf used added cap
      | Some (ino, mode) =>
          there ← dent_present name buf (used + added);
          if (there : bool) then inject_nodes nodes (i + 1) buf used added cap
          else
            '(k, buf) ← put_dent buf (used + added) cap name ino (dtype_of mode)
                                 (0x7ffffffe00000000 + i);
            if k =? 0 then Some (added, buf)
            else inject_nodes nodes (i + 1) buf used (added + k) cap
      end
  end.

Definition inject_dents (fs : cng_fs) (gdir buf : cstr) (used cap : Z) : option (Z * cstr) :=
  '(added, buf) ← inject_binds (f_binds fs) 0 gdir buf used 0 cap;
  if negb (g_no_dev (l_g E)) && streq gdir (cs "/dev")
  then inject_nodes (cng_dev_nodes (l_g E)) 0 buf used added cap
  else Some (added, buf).

(** ** The records that are hidden, and those rewritten *)

Definition dirfd_host (dfd : Z) (sz : nat) : option cstr :=
  if s32 dfd <? 0 then None
  else
    t ← d_fd_link D (s32 dfd);
    let hp := take (sz - 1) t in
    if (length hp =? 0)%nat then None else Some hp.

Definition fd_is_host_proc (fd : Z) : bool :=
  match d_fd_link D (s32 fd) with
  | Some t => streq (take (CNG_PATH_MAX - 1) t) (cs "/proc")
  | None => false
  end.

Definition fd_is_rootfs_root (fd : Z) : bool :=
  match l_view E with
  | None => false
  | Some fs =>
      match d_fd_link D (s32 fd) with
      | None => false
      | Some t =>
          let hp := take (CNG_PATH_MAX - 1) t in
          let root := fst (strlcpy (f_rootfs fs) CNG_PATH_MAX) in
          negb (length hp =? 0)%nat
          && streq hp (if (length (f_rootfs fs) =? 0)%nat then [SLASH] else root)
      end
  end.

Definition first_digit (nm : cstr) : bool :=
  match nm with c :: _ => is_dig c | [] => false end.

Fixpoint have_pid_loop (fuel : nat) (buf : cstr) (base o n : Z) : option bool :=
  match fuel with
  | O => None
  | S fuel =>
      if o + 19 <=? n then
        let reclen := u16_at buf (base + o + 16) in
        if (reclen =? 0) || (n <? o + reclen) then Some false
        else
          c ← buf !! Z.to_nat (base + o + 19);
          if is_dig c then Some true else have_pid_loop fuel buf base (o + reclen) n
      else Some false
  end.

(** The batch is [n] bytes from [base] on. *)
Definition dents_have_pid (buf : cstr) (base n : Z) : option bool :=
  have_pid_loop (S (Z.to_nat n)) buf base 0 n.

Definition proc_name_visible (nm : cstr) : bool :=
  if negb (first_digit nm) then true
  else
    match parse_int_run nm with
    | Some (pid, []) => g_procreg_has (l_g E) pid
    | _ => true
    end.

Definition hide (at_root at_proc : bool) (nm : cstr) : bool :=
  (d_l2s D && (cng_l2s_hidden nm || (at_root && streq nm (cs ".l2s"))))
  || (at_proc && negb (proc_name_visible nm)).

(** The inode and type of an emulated link's file, for the entry [name] of the
    directory [dir], which is the one behind the descriptor [fd]. *)
Definition entry_path (dir name : cstr) : cstr :=
  dir ++ (if char_is dir (length dir - 1) SLASH then [] else [SLASH]) ++ name.

Definition l2s_fd_dir (fd : Z) (sz : nat) : M (option cstr) :=
  e <- fault ;;
  ret (if e <? 0 then None
       else t ← l_fd E (u32 fd);
            let p := take (sz - 1) t in if (length p =? 0)%nat then None else Some p).

Definition node_dirent (x : node) : Z * Z :=
  match x with
  | NNode ino mode _ => (ino, Z.shiftr (Z.land mode S_IFMT) 12)
  | NDir => (0, DT_DIR)
  | NLink _ => (0, DT_LNK)
  end.

Definition cng_l2s_dirent (dirfd : Z) (dir name : cstr) : M (option (Z * Z)) :=
  r <- l2s_readlink (entry_path dir name) (CNG_PATH_MAX - 1) ;;
  match r with
  | inl _ => ret None
  | inr tgt =>
      if (length tgt =? 0)%nat then ret None
      else
        let b := l2s_basename tgt in
        let abs := char_is tgt 0 SLASH in
        let data := bool_decide (is_Some (parse_data_exact b)) in
        if (if abs then negb (data || pr_is_ind b) else negb (streq b tgt) || negb data)
        then ret None
        else
          st <- (if negb abs then l2s_lstat (entry_path dir tgt)
                 else if l2s_canonical tgt && l2s_owned E tgt then l2s_lstat tgt
                 else ret (inl (-1))) ;;
          let stat :=
            host_ <- l2s_fd_dir dirfd CNG_PATH_MAX ;;
            match host_ with
            | None => ret None
            | Some d =>
                if (CNG_PATH_MAX <=? length d + 1 + length name)%nat then ret None
                else
                  s <- cng_l2s_stat E (entry_path d name) ;;
                  ret (match s with inr (Some (x, _)) => Some (node_dirent x) | _ => None end)
            end in
          match st with
          | inr x => if is_data x then ret (Some (node_dirent x))
                     else if negb abs then ret None else stat
          | inl _ => if negb abs then ret None else stat
          end
  end.

(** ** The call *)

(** The kernel's stream: a read at a position, into the guest's own buffer or
    into the batch buffer, of at most so many bytes gives the return value, the
    bytes it wrote and the next position; and what lseek answers at one. *)
Record stream := Stream {
  k_read : Z -> option Z -> Z -> Z * cstr * Z;
  k_tell : Z -> Z }.

Context (K : stream).

(** What the guest gets: the return value, the bytes in its buffer; and where
    the stream is left. *)
Record answer := Answer { a_ret : Z; a_out : cstr; a_pos : Z }.

Definition dents_out (guest : Z) (bnc : cstr) (n pos now : Z) : answer :=
  if n <=? 0 then Answer n [] now
  else if d_takes D guest (Z.to_nat n) then Answer n (take (Z.to_nat n) bnc) now
  else Answer (- EFAULT) [] (if 0 <=? pos then pos else now).

(** Give room back until the kernel makes progress: the injected bytes, the
    kernel's answer, what it wrote to the guest directly, the buffer and the
    position. *)
Fixpoint ask_loop (fuel : nat) (inject : option (cng_fs * cstr)) (bounce : bool)
    (a1 a2 ask injcap : Z) (bnc : cstr) (p : Z) : option (Z * Z * cstr * cstr * Z) :=
  match fuel with
  | O => None
  | S fuel =>
      '(pre, bnc) ← match inject with
                    | Some (fs, gdir) => inject_dents fs gdir bnc 0 injcap
                    | None => Some (0, bnc)
                    end;
      let '(n, bytes, p') :=
        if bounce then k_read K p None (ask - pre) else k_read K p (Some a1) (u32 a2) in
      bnc ← (if bounce && (0 <? n) then write_at bnc pre bytes else Some bnc);
      if (0 <=? n) || (pre =? 0) then Some (pre, n, bytes, bnc, p')
      else ask_loop fuel inject bounce a1 a2 ask (pre - 1) bnc p
  end.

(** One pass of the filter over the [n] bytes from [base] on: the bytes kept,
    moved to the front, and the buffer. *)
Fixpoint filter_loop (fuel : nat) (fd : Z) (at_root at_proc : bool) (base n w o : Z)
    (buf : cstr) (h : host) : option (Z * cstr * host) :=
  match fuel with
  | O => None
  | S fuel =>
      if o + 19 <=? n then
        let reclen := u16_at buf (base + o + 16) in
        if (reclen =? 0) || (n <? o + reclen) then Some (w, buf, h)
        else
          nm ← str_at buf (base + o + 19);
          if hide at_root at_proc nm
          then filter_loop fuel fd at_root at_proc base n w (o + reclen) buf h
          else
            dt ← code <$> buf !! Z.to_nat (base + o + 18);
            '(buf, h) ←
              (if d_l2s D && ((dt =? DT_LNK) || (dt =? DT_UNKNOWN)) then
                 let dir := default [] (d_fd_link D (s32 fd)) in
                 let '(r, h) := cng_l2s_dirent fd dir nm h in
                 match r with
                 | Some (ino, type) =>
                     buf ← write_at buf (base + o) (le_bytes 8 ino);
                     buf ← write_at buf (base + o + 18) [byte_of type];
                     Some (buf, h)
                 | None => Some (buf, h)
                 end
               else Some (buf, h));
            buf ← (if w =? o then Some buf
                   else write_at buf (base + w) (slice buf (base + o) (Z.to_nat reclen)));
            filter_loop fuel fd at_root at_proc base n (w + reclen) (o + reclen) buf h
      else Some (w, buf, h)
  end.

(** Filter, and read again while the whole batch is hidden. *)
Fixpoint view_loop (fuel : nat) (fd a1 : Z) (at_root at_proc : bool) (pre cap n pos : Z)
    (bnc : cstr) (now : Z) (h : host) : option (answer * host) :=
  match fuel with
  | O => None
  | S fuel =>
      '(w, bnc, h) ← filter_loop (S (Z.to_nat n)) fd at_root at_proc pre n 0 0 bnc h;
      if 0 <? w then Some (dents_out a1 bnc (pre + w) pos now, h)
      else
        let '(n, bytes, now) := k_read K now None cap in
        if n <=? 0 then
          Some (if pre =? 0 then Answer n [] now else dents_out a1 bnc pre pos now, h)
        else
          bnc ← write_at bnc pre bytes;
          view_loop fuel fd a1 at_root at_proc pre cap n pos bnc now h
  end.

(** [stack] is what the batch buffer holds before; [fuel] bounds the reads of
    batches that are hidden whole. *)
Definition do_getdents64 (fuel : nat) (stack : cstr) (a0 a1 a2 : Z) (p : Z) (h : host)
    : option (answer * host) :=
  let user := negb (a1 =? 0) in
  let pos := if user then k_tell K p else -1 in
  let first := pos =? 0 in
  let hdir := if first then dirfd_host a0 CNG_PATH_MAX else None in
  let inject := fs ← l_view E; hd ← hdir; g ← untranslate_1 fs hd CNG_PATH_MAX; Some (fs, g) in
  let at_proc := user && negb (g_no_proc (l_g E))
                 && (if first then match hdir with Some hd => streq hd (cs "/proc") | None => false end
                     else fd_is_host_proc a0) in
  let bounce := user && (bool_decide (is_Some inject) || d_l2s D || at_proc) in
  let ask := u32 a2 in
  let ask := if bounce && (DENTS_BOUNCE <? ask) then DENTS_BOUNCE else ask in
  '(pre, n, bytes, bnc, now) ←
     ask_loop (S (S (Z.to_nat ask))) inject bounce a1 a2 ask ask stack p;
  if (n <? 0) || negb bounce then Some (Answer n bytes now, h)
  else if n =? 0 then Some (dents_out a1 bnc pre pos now, h)
  else
    at_proc ← (if at_proc then dents_have_pid bnc pre n else Some false);
    if negb (d_l2s D) && negb at_proc then Some (dents_out a1 bnc (pre + n) pos now, h)
    else view_loop fuel a0 a1 (d_l2s D && fd_is_rootfs_root a0) at_proc pre (ask - pre) n pos bnc
                   now h.
End Dents.
