(* ===== verification/DentsFacts.v ===== *)
(** * Directory records: the batch buffer as a list of records

    The records of a batch, their encoding, and what the byte-level operations
    of the listing do to a buffer that holds encoded records. *)

From Stdlib Require Import ZArith Ascii String Lia.
From S2P Require Import Prelude Path PathCanon PathFacts Fmt ProcStat Resolve Rt L2sName L2s Dents.
From stdpp Require Import base numbers strings gmap list.

Open Scope Z_scope.

(** ** Records *)

(** A linux_dirent64; the bytes after the name's terminator are nobody's. *)
Record dent := Dent {
  t_ino : Z;
  t_off : Z;
  t_type : Z;
  t_name : cstr;
  t_pad : cstr }.

Definition reclen (r : dent) : Z := 20 + Z.of_nat (length (t_name r)) + Z.of_nat (length (t_pad r)).

Definition enc (r : dent) : cstr :=
  le_bytes 8 (t_ino r) ++ le_bytes 8 (t_off r) ++ le_bytes 2 (reclen r) ++ [byte_of (t_type r)]
  ++ t_name r ++ [NUL] ++ t_pad r.

Definition encs (l : list dent) : cstr := concat (enc <$> l).

Definition bsize (l : list dent) : Z := Z.of_nat (length (encs l)).

Definition dent_ok (r : dent) : Prop :=
  Forall (fun c => not_nul c = true) (t_name r) /\ reclen r < 65536.

(** ** Bytes *)

Lemma le_length n z : length (le_bytes n z) = n.
Proof. unfold le_bytes. rewrite length_fmap. revert z. induction n; intros z; simpl; auto. Qed.

Lemma code_byte_of z : code (byte_of z) = u8 z.
Proof.
  unfold code, byte_of. pose proof (wrapu_range 8 z ltac:(lia)) as B. change (2 ^ 8) with 256 in B.
  rewrite N_ascii_embedding by lia. lia.
Qed.

Lemma unle_le2 z : 0 <= z < 65536 -> unle (le_bytes 2 z) = z.
Proof.
  intros H. unfold unle, le_bytes. cbn [bytes_of fmap list_fmap foldr le64]. rewrite !code_byte_of.
  unfold wrapu. change (2 ^ 8) with 256. rewrite !Z.mod_mod by lia.
  rewrite (Z.mod_small (z / 256) 256).
  - pose proof (Z.div_mod z 256). cbn [le64 foldr]. lia.
  - split; [apply Z.div_pos; lia|apply Z.div_lt_upper_bound; lia].
Qed.

Lemma reclen_pos r : 20 <= reclen r.
Proof. unfold reclen. lia. Qed.

Lemma enc_length r : Z.of_nat (length (enc r)) = reclen r.
Proof.
  unfold enc, reclen. rewrite !length_app, !le_length. simpl. lia.
Qed.

Lemma bsize_nil : bsize [] = 0.
Proof. done. Qed.

Lemma bsize_cons r l : bsize (r :: l) = reclen r + bsize l.
Proof. unfold bsize, encs. cbn [fmap list_fmap concat]. rewrite length_app, <-enc_length. lia. Qed.

Lemma encs_app a b : encs (a ++ b) = encs a ++ encs b.
Proof. unfold encs. by rewrite fmap_app, concat_app. Qed.

Lemma bsize_app a b : bsize (a ++ b) = bsize a + bsize b.
Proof. unfold bsize. rewrite encs_app, length_app. lia. Qed.

Lemma bsize_nonneg l : 0 <= bsize l.
Proof. unfold bsize. lia. Qed.

Lemma bsize_pos l : l <> [] -> 20 <= bsize l.
Proof.
  destruct l as [|r l]; [done|]. intros _. rewrite bsize_cons.
  pose proof (reclen_pos r). pose proof (bsize_nonneg l). lia.
Qed.

Lemma encs_length l : length (encs l) = Z.to_nat (bsize l).
Proof. unfold bsize. lia. Qed.

Lemma encs_sing r : encs [r] = enc r.
Proof. unfold encs. cbn [fmap list_fmap concat]. apply app_nil_r. Qed.

Lemma encs_cons r l : encs (r :: l) = enc r ++ encs l.
Proof. done. Qed.

Lemma bsize_sing r : bsize [r] = reclen r.
Proof. rewrite bsize_cons, bsize_nil. lia. Qed.

Lemma length_size_le l : Z.of_nat (length l) <= bsize l.
Proof.
  induction l as [|r l IH]; [done|]. rewrite bsize_cons. pose proof (reclen_pos r).
  cbn [length]. lia.
Qed.

(** ** Reads and writes *)

Lemma slice_app a x b n : n = length x -> slice (a ++ x ++ b) (Z.of_nat (length a)) n = x.
Proof.
  intros ->. unfold slice. rewrite Nat2Z.id, drop_app_length, take_app_length. done.
Qed.

Lemma write_app a x y b :
  length y = length x -> write_at (a ++ x ++ b) (Z.of_nat (length a)) y = Some (a ++ y ++ b).
Proof.
  intros H. unfold write_at. rewrite Nat2Z.id, !length_app.
  rewrite (proj2 (Nat.leb_le _ _)) by lia. rewrite take_app_length.
  do 3 f_equal. rewrite H. rewrite (app_assoc a x b), <-length_app. by rewrite drop_app_length.
Qed.

(** The same at an offset given as a number. *)
Lemma slice_at a x b o n :
  o = Z.of_nat (length a) -> n = length x -> slice (a ++ x ++ b) o n = x.
Proof. intros -> ?. by apply slice_app. Qed.

Lemma write_to a x y b o :
  o = Z.of_nat (length a) -> length y = length x ->
  write_at (a ++ x ++ b) o y = Some (a ++ y ++ b).
Proof. intros -> ?. by apply write_app. Qed.

Lemma u16_at_app a z b o :
  o = Z.of_nat (length a) -> 0 <= z < 65536 -> u16_at (a ++ le_bytes 2 z ++ b) o = z.
Proof.
  intros -> H. unfold u16_at. rewrite slice_app by (by rewrite le_length). by apply unle_le2.
Qed.

Lemma str_at_app a s b o :
  o = Z.of_nat (length a) -> Forall (fun c => not_nul c = true) s ->
  str_at (a ++ s ++ [NUL] ++ b) o = Some s.
Proof.
  intros -> H. unfold str_at. rewrite Nat2Z.id, drop_app_length.
  rewrite drop_while_app, take_while_app by done. simpl. by rewrite app_nil_r.
Qed.

Lemma lookup_at (a : cstr) c b (o : nat) : o = length a -> (a ++ [c] ++ b) !! o = Some c.
Proof. intros ->. by rewrite lookup_app_r, Nat.sub_diag by lia. Qed.

(** The fields of a record in a buffer. *)
Section Fields.
Context (a b : cstr) (r : dent) (o : Z) (Ho : o = Z.of_nat (length a)) (Hok : dent_ok r).

Lemma rec_len : u16_at (a ++ enc r ++ b) (o + 16) = reclen r.
Proof.
  unfold enc. rewrite <-!app_assoc, (app_assoc (le_bytes 8 (t_ino r))), (app_assoc a).
  destruct Hok as [_ H]. pose proof (reclen_pos r).
  apply u16_at_app; [|lia]. rewrite !length_app, !le_length. lia.
Qed.

Lemma rec_name : str_at (a ++ enc r ++ b) (o + 19) = Some (t_name r).
Proof.
  unfold enc. rewrite <-!app_assoc.
  rewrite 4!app_assoc. apply str_at_app; [|apply Hok].
  rewrite !length_app, !le_length. simpl. lia.
Qed.

Lemma rec_type : (a ++ enc r ++ b) !! Z.to_nat (o + 18) = Some (byte_of (t_type r)).
Proof.
  unfold enc. rewrite <-!app_assoc. rewrite 3!app_assoc. apply lookup_at.
  rewrite !length_app, !le_length. lia.
Qed.

Lemma rec_first :
  (a ++ enc r ++ b) !! Z.to_nat (o + 19) =
  Some (match t_name r with c :: _ => c | [] => NUL end).
Proof.
  unfold enc. rewrite <-!app_assoc. rewrite 4!app_assoc.
  rewrite lookup_app_r by (rewrite !length_app, !le_length; simpl; lia).
  replace (_ - _)%nat with 0%nat by (rewrite !length_app, !le_length; simpl; lia).
  by destruct (t_name r).
Qed.

(** The inode and the type stored over those of a record. *)
Definition retype (ino type : Z) : dent := Dent ino (t_off r) type (t_name r) (t_pad r).

Lemma rec_retype ino type :
  (buf ← write_at (a ++ enc r ++ b) o (le_bytes 8 ino);
   write_at buf (o + 18) [byte_of type]) = Some (a ++ enc (retype ino type) ++ b).
Proof.
  unfold enc at 1. rewrite <-!app_assoc.
  rewrite (write_to a (le_bytes 8 (t_ino r))) by (done || by rewrite !le_length). cbn [mbind option_bind].
  rewrite 3!app_assoc.
  rewrite write_to with (x := [byte_of (t_type r)]);
    [|rewrite !length_app, !le_length; lia|done].
  f_equal. unfold enc, retype. cbn [t_ino t_off t_type t_name t_pad].
  by rewrite <-!app_assoc.
Qed.
End Fields.

(** ** Records the monitor writes *)

Definition mk_dent (name : cstr) (ino type cookie : Z) : dent :=
  Dent ino cookie type name
    (replicate (Z.to_nat (7 - (27 + Z.of_nat (length name)) mod 8)) NUL).

Lemma mk_reclen name ino type cookie :
  Z.land (19 + Z.of_nat (length name) + 1 + 7) (Z.lnot 7) = reclen (mk_dent name ino type cookie).
Proof.
  unfold reclen. cbn [t_name t_pad mk_dent]. rewrite length_replicate.
  set (n := Z.of_nat (length name)). replace (19 + n + 1 + 7) with (27 + n) by lia.
  rewrite <-Z.ldiff_land. change 7 with (Z.ones 3) at 1.
  rewrite Z.ldiff_ones_r, Z.shiftl_mul_pow2, Z.shiftr_div_pow2 by lia. change (2 ^ 3) with 8.
  pose proof (Z.div_mod (27 + n) 8 ltac:(lia)). pose proof (Z.mod_pos_bound (27 + n) 8 ltac:(lia)).
  lia.
Qed.

Lemma mk_reclen_bound name ino type cookie :
  (length name <= 255)%nat -> reclen (mk_dent name ino type cookie) <= 282.
Proof.
  intros H. unfold reclen. cbn [t_name t_pad mk_dent]. rewrite length_replicate.
  pose proof (Z.mod_pos_bound (27 + Z.of_nat (length name)) 8 ltac:(lia)). lia.
Qed.

(** A store of zeroes and then of the fields is the encoded record. *)
Lemma put_fields a b r :
  (forall c, c ∈ t_pad r -> c = NUL) -> reclen r < 65536 ->
  let o := Z.of_nat (length a) in
  (buf ← write_at (a ++ replicate (Z.to_nat (reclen r)) NUL ++ b) o (le_bytes 8 (t_ino r));
   buf ← write_at buf (o + 8) (le_bytes 8 (t_off r));
   buf ← write_at buf (o + 16) (le_bytes 2 (u16 (reclen r)));
   buf ← write_at buf (o + 18) [byte_of (t_type r)];
   buf ← write_at buf (o + 19) (t_name r ++ [NUL]);
   Some (reclen r, buf)) = Some (reclen r, a ++ enc r ++ b).
Proof.
  intros Hp Hr o. set (nl := length (t_name r)). set (pl := length (t_pad r)).
  assert (P : t_pad r = replicate pl NUL).
  { subst pl. clear -Hp. induction (t_pad r) as [|c l IH]; [done|]. cbn [length replicate].
    rewrite (Hp c) by left. f_equal. apply IH. intros d Hd. apply Hp. by right. }
  replace (Z.to_nat (reclen r)) with (8 + (8 + (2 + (1 + (nl + 1 + pl)))))%nat
    by (unfold reclen; fold nl pl; lia).
  rewrite !replicate_add, <-!app_assoc.
  rewrite (write_to a (replicate 8 NUL)) by (done || by rewrite le_length). cbn [mbind option_bind].
  rewrite app_assoc, write_to with (x := replicate 8 NUL);
    [|rewrite length_app, le_length; lia|by rewrite le_length]. cbn [mbind option_bind].
  rewrite app_assoc, write_to with (x := replicate 2 NUL);
    [|rewrite !length_app, !le_length; lia|by rewrite le_length]. cbn [mbind option_bind].
  rewrite app_assoc, write_to with (x := replicate 1 NUL);
    [|rewrite !length_app, !le_length; lia|done]. cbn [mbind option_bind].
  rewrite app_assoc. rewrite (app_assoc (replicate nl NUL) (replicate 1 NUL)).
  rewrite write_to with (x := replicate nl NUL ++ replicate 1 NUL);
    [|rewrite !length_app, !le_length; simpl; lia|rewrite !length_app, length_replicate; done].
  cbn [mbind option_bind]. rewrite wrapu_small by (pose proof (reclen_pos r); lia).
  unfold enc. rewrite P. by rewrite <-!app_assoc.
Qed.

Lemma put_dent_fits a x b cap name ino type cookie :
  let r := mk_dent name ino type cookie in
  (length name <= 255)%nat -> Z.of_nat (length x) = reclen r ->
  Z.of_nat (length a) + reclen r <= cap ->
  put_dent (a ++ x ++ b) (Z.of_nat (length a)) cap name ino type cookie
  = Some (reclen r, a ++ enc r ++ b).
Proof.
  intros r Hn Hx Hc. unfold put_dent. rewrite (proj2 (Z.ltb_ge _ _)) by lia.
  rewrite (mk_reclen name ino type cookie). fold r. pose proof (reclen_pos r).
  pose proof (mk_reclen_bound name ino type cookie Hn) as Hb. fold r in Hb.
  rewrite !(proj2 (Z.ltb_ge _ _)) by lia. cbn [orb].
  rewrite (write_to a x) by (done || rewrite length_replicate; lia). cbn [mbind option_bind].
  apply (put_fields a b r); [|lia].
  intros c Hc'. subst r. cbn [t_pad mk_dent] in Hc'. by apply elem_of_replicate in Hc' as [-> _].
Qed.

(** ** Walks over a batch *)

Definition named (name : cstr) (l : list dent) : bool :=
  existsb (fun r => streq (t_name r) name) l.

Lemma at_len (a : cstr) l : Z.of_nat (length (a ++ encs l)) = Z.of_nat (length a) + bsize l.
Proof. rewrite length_app. unfold bsize. lia. Qed.

Lemma present_loop_spec name l : Forall dent_ok l -> forall fuel a b,
  (length l < fuel)%nat ->
  present_loop fuel name (a ++ encs l ++ b) (Z.of_nat (length a)) (Z.of_nat (length a) + bsize l)
  = Some (named name l).
Proof.
  induction 1 as [|r l Hr _ IH]; intros fuel a b Hf; (destruct fuel as [|fuel]; [simpl in Hf; lia|]);
    cbn [present_loop].
  - rewrite bsize_nil, (proj2 (Z.leb_gt _ _)) by lia. done.
  - rewrite bsize_cons. pose proof (reclen_pos r). pose proof (bsize_nonneg l).
    rewrite (proj2 (Z.leb_le _ _)) by lia. rewrite encs_cons, <-app_assoc.
    rewrite rec_len, rec_name by done. rewrite (proj2 (Z.eqb_neq _ _)) by lia.
    cbn [mbind option_bind named existsb]. case_if; [done|].
    rewrite app_assoc. rewrite <-enc_length, Z.add_assoc, <-Nat2Z.inj_add, <-length_app.
    apply IH. cbn [length] in Hf. lia.
Qed.

Lemma dent_present_spec D name l b : Forall dent_ok l ->
  dent_present D name (encs l ++ b) (bsize l) = Some (named name l || d_has D name).
Proof.
  intros H. unfold dent_present.
  pose proof (present_loop_spec name l H (S (Z.to_nat (bsize l))) [] b) as P.
  change (Z.of_nat (length [])) with 0 in P. cbn [app] in P. rewrite Z.add_0_l in P.
  rewrite P; [done|].
  pose proof (length_size_le l). lia.
Qed.

Lemma have_pid_spec l : Forall dent_ok l -> forall fuel a base o b,
  (length l < fuel)%nat -> base + o = Z.of_nat (length a) ->
  have_pid_loop fuel (a ++ encs l ++ b) base o (o + bsize l)
  = Some (existsb (fun r => first_digit (t_name r)) l).
Proof.
  induction 1 as [|r l Hr _ IH]; intros fuel a base o b Hf Ho;
    (destruct fuel as [|fuel]; [simpl in Hf; lia|]); cbn [have_pid_loop].
  - rewrite bsize_nil, (proj2 (Z.leb_gt _ _)) by lia. done.
  - rewrite bsize_cons. pose proof (reclen_pos r). pose proof (bsize_nonneg l).
    rewrite (proj2 (Z.leb_le _ _)) by lia. rewrite encs_cons, <-app_assoc.
    rewrite rec_len, rec_first by done.
    rewrite (proj2 (Z.eqb_neq _ _)), (proj2 (Z.ltb_ge _ _)) by lia.
    cbn [mbind option_bind existsb orb].
    replace (is_dig _) with (first_digit (t_name r)) by (by destruct (t_name r)).
    case_if; [done|]. rewrite app_assoc, Z.add_assoc. apply IH; [cbn [length] in Hf; lia|].
    rewrite length_app, Nat2Z.inj_add, enc_length. lia.
Qed.

Lemma dents_have_pid_spec l a b : Forall dent_ok l ->
  dents_have_pid (a ++ encs l ++ b) (Z.of_nat (length a)) (bsize l)
  = Some (existsb (fun r => first_digit (t_name r)) l).
Proof.
  intros H. unfold dents_have_pid. pose proof (length_size_le l).
  rewrite <-(Z.add_0_l (bsize l)) at 2. apply have_pid_spec; [done|lia|lia].
Qed.

(** ** The overlay, record by record *)

Section Overlay.
Context (E : lenv) (D : denv).

(** The names an overlay adds to [used], in order, up to the first that does
    not fit. *)
Fixpoint pick (cands used : list dent) (cap : Z) : list dent :=
  match cands with
  | [] => used
  | r :: cands =>
      if named (t_name r) used || d_has D (t_name r) then pick cands used cap
      else if (255 <? Z.of_nat (length (t_name r))) || (cap <? bsize used + reclen r) then used
      else pick cands (used ++ [r]) cap
  end.

Fixpoint bind_cands (bs : list cng_bind) (i : Z) (gdir : cstr) : list dent :=
  match bs with
  | [] => []
  | b :: bs =>
      match bind_entry b with
      | Some (parent, base) =>
          if streq parent gdir
          then let '(ino, type) := bind_attrs D i b in
               mk_dent base ino type (0x7fffffff00000000 + i) :: bind_cands bs (i + 1) gdir
          else bind_cands bs (i + 1) gdir
      | None => bind_cands bs (i + 1) gdir
      end
  end.

Fixpoint node_cands (nodes : list (cstr * cstr)) (i : Z) : list dent :=
  match nodes with
  | [] => []
  | (name, hostp) :: nodes =>
      match d_lstat D hostp with
      | Some (ino, mode) =>
          mk_dent name ino (dtype_of mode) (0x7ffffffe00000000 + i) :: node_cands nodes (i + 1)
      | None => node_cands nodes (i + 1)
      end
  end.

Definition overlay (fs : cng_fs) (gdir : cstr) (cap : Z) : list dent :=
  let u := pick (bind_cands (f_binds fs) 0 gdir) [] cap in
  if negb (g_no_dev (l_g E)) && streq gdir (cs "/dev")
  then pick (node_cands (cng_dev_nodes (l_g E)) 0) u cap else u.

Definition nul_free (s : cstr) : Prop := Forall (fun c => not_nul c = true) s.

(** The records picked so far, at the front of a buffer of [cap] bytes or more. *)
Definition holds (cap : Z) (buf : cstr) (l : list dent) (n : Z) : Prop :=
  n = bsize l /\ bsize l <= cap /\ Forall dent_ok l /\ exists b, buf = encs l ++ b /\ cap <= Z.of_nat (length buf).

Lemma holds_present cap buf l n name :
  holds cap buf l n -> dent_present D name buf n = Some (named name l || d_has D name).
Proof. intros (-> & _ & Hl & b & -> & _). by apply dent_present_spec. Qed.

Lemma put_dent_refused buf at_ cap name ino type cookie :
  (255 <? Z.of_nat (length name)) || (cap <? at_ + reclen (mk_dent name ino type cookie)) = true ->
  put_dent buf at_ cap name ino type cookie = Some (0, buf).
Proof.
  intros H. unfold put_dent. destruct (255 <? _) eqn:E1; [done|]. cbn [orb] in H.
  rewrite (mk_reclen name ino type cookie), H, !orb_true_r. done.
Qed.

Lemma put_dent_holds cap buf l n name ino type cookie :
  let r := mk_dent name ino type cookie in
  holds cap buf l n -> nul_free name ->
  (255 <? Z.of_nat (length name)) || (cap <? n + reclen r) = false ->
  exists buf', put_dent buf n cap name ino type cookie = Some (reclen r, buf') /\
    length buf' = length buf /\ holds cap buf' (l ++ [r]) (n + reclen r).
Proof.
  intros r (-> & Hs & Hl & b & -> & Hc) Hn H. apply orb_false_iff in H as [H1 H2].
  apply Z.ltb_ge in H1, H2. pose proof (reclen_pos r).
  assert (Hb : (Z.to_nat (reclen r) <= length b)%nat).
  { rewrite length_app, Nat2Z.inj_add in Hc. change (Z.of_nat (length (encs l))) with (bsize l) in Hc. lia. }
  rewrite <-(take_drop (Z.to_nat (reclen r)) b).
  assert (Lt : length (take (Z.to_nat (reclen r)) b) = Z.to_nat (reclen r)) by (rewrite length_take; lia).
  exists (encs l ++ enc r ++ drop (Z.to_nat (reclen r)) b). repeat split.
  - apply put_dent_fits; [lia|fold r; lia|exact H2].
  - rewrite !length_app, Lt. pose proof (enc_length r). lia.
  - by rewrite bsize_app, bsize_sing.
  - rewrite bsize_app, bsize_sing. lia.
  - apply Forall_app. split; [done|]. constructor; [|constructor]. split; [done|].
    pose proof (mk_reclen_bound name ino type cookie). fold r in H0. lia.
  - exists (drop (Z.to_nat (reclen r)) b). rewrite encs_app, encs_sing, <-app_assoc. split; [done|].
    pose proof (enc_length r). rewrite !length_app in *. rewrite length_drop. lia.
Qed.
End Overlay.

(** * Directory listings: the loops on records

    What each loop of the listing does to a buffer of encoded records: the
    overlay it puts first, the records the filter keeps and rewrites. *)

(** ** The overlay *)

Section Overlay.
Context (E : lenv) (D : denv).

Definition binds_nul_free (bs : list cng_bind) : Prop := Forall (fun b => nul_free (b_guest b)) bs.

Lemma nul_free_drop n s : nul_free s -> nul_free (drop n s).
Proof. apply Forall_drop. Qed.

Lemma bind_entry_nul b parent base :
  nul_free (b_guest b) -> bind_entry b = Some (parent, base) -> nul_free base.
Proof.
  intros H. unfold bind_entry. repeat case_if; intros [=]; subst; by apply nul_free_drop.
Qed.

Lemma inject_binds_spec bs : binds_nul_free bs -> forall i gdir buf l n cap,
  holds cap buf l n -> exists n' buf',
  inject_binds D bs i gdir buf 0 n cap = Some (n', buf') /\ length buf' = length buf /\
  holds cap buf' (pick D (bind_cands D bs i gdir) l cap) n'.
Proof.
  induction 1 as [|b bs Hb _ IH]; intros i gdir buf l n cap H; cbn [inject_binds bind_cands]; [by eauto|].
  destruct (bind_entry b) as [[parent base]|] eqn:Eb; [|by apply IH].
  destruct (streq parent gdir) eqn:Es; cbn [negb]; [|by apply IH].
  rewrite Z.add_0_l, (holds_present D cap buf l n base H). cbn [mbind option_bind].
  destruct (bind_attrs D i b) as [ino type] eqn:Ea. cbn [pick]. cbn [t_name mk_dent].
  destruct (named base l || d_has D base) eqn:Ep; [by apply IH|]. clear Ep.
  set (r := mk_dent base ino type _). replace (bsize l) with n by apply H.
  destruct ((255 <? _) || _) eqn:Er.
  - rewrite put_dent_refused by exact Er. cbn [mbind option_bind]. rewrite Z.eqb_refl. by eauto.
  - destruct (put_dent_holds cap buf l n base ino type _ H (bind_entry_nul _ _ _ Hb Eb) Er)
      as (buf' & -> & L & H'). cbn [mbind option_bind].
    fold r in H' |- *. pose proof (reclen_pos r). rewrite (proj2 (Z.eqb_neq _ _)) by lia.
    destruct (IH (i + 1) gdir _ _ _ _ H') as (n2 & b2 & -> & L2 & H2). exists n2, b2.
    split_and!; [done|congruence|done].
Qed.

Lemma inject_nodes_spec nodes : Forall (fun nd : cstr * cstr => nul_free (fst nd)) nodes ->
  forall i buf l n cap, holds cap buf l n -> exists n' buf',
  inject_nodes D nodes i buf 0 n cap = Some (n', buf') /\ length buf' = length buf /\
  holds cap buf' (pick D (node_cands D nodes i) l cap) n'.
Proof.
  induction 1 as [|[name hostp] nodes Hb _ IH]; intros i buf l n cap H; cbn [inject_nodes node_cands];
    [by eauto|].
  destruct (d_lstat D hostp) as [[ino mode]|]; [|by apply IH].
  rewrite Z.add_0_l, (holds_present D cap buf l n name H). cbn [mbind option_bind pick t_name mk_dent].
  destruct (named name l || d_has D name) eqn:Ep; [by apply IH|]. clear Ep.
  set (r := mk_dent name ino _ _). replace (bsize l) with n by apply H.
  destruct ((255 <? _) || _) eqn:Er.
  - rewrite put_dent_refused by exact Er. cbn [mbind option_bind]. rewrite Z.eqb_refl. by eauto.
  - destruct (put_dent_holds cap buf l n name ino (dtype_of mode) _ H Hb Er)
      as (buf' & -> & L & H'). cbn [mbind option_bind].
    fold r in H' |- *. pose proof (reclen_pos r). rewrite (proj2 (Z.eqb_neq _ _)) by lia.
    destruct (IH (i + 1) _ _ _ _ H') as (n2 & b2 & -> & L2 & H2). exists n2, b2.
    split_and!; [done|congruence|done].
Qed.

Lemma nodes_nul_free : Forall (fun nd : cstr * cstr => nul_free (fst nd)) (cng_dev_nodes (l_g E)).
Proof. repeat constructor. Qed.

Lemma inject_dents_spec fs gdir buf cap :
  binds_nul_free (f_binds fs) -> 0 <= cap <= Z.of_nat (length buf) -> exists buf',
  inject_dents E D fs gdir buf 0 cap = Some (bsize (overlay E D fs gdir cap), buf') /\
  length buf' = length buf /\ holds cap buf' (overlay E D fs gdir cap) (bsize (overlay E D fs gdir cap)).
Proof.
  intros Hb Hc. unfold inject_dents, overlay.
  assert (H0 : holds cap buf [] 0).
  { split_and!; [done|rewrite bsize_nil; lia|constructor|]. exists buf. split; [done|lia]. }
  destruct (inject_binds_spec _ Hb 0 gdir _ _ _ _ H0) as (n1 & b1 & -> & L1 & H1).
  cbn [mbind option_bind]. case_if.
  - destruct (inject_nodes_spec _ nodes_nul_free 0 _ _ _ _ H1) as (n2 & b2 & -> & L2 & H2).
    destruct H2 as (-> & H2). exists b2. split_and!; [done|congruence|done|apply H2..].
  - destruct H1 as (-> & H1). exists b1. split_and!; [done|congruence|done|apply H1..].
Qed.

(** *** What the overlay has *)

Lemma pick_size cands : forall used cap, bsize used <= cap -> bsize (pick D cands used cap) <= cap.
Proof.
  induction cands as [|r cands IH]; intros used cap H; cbn [pick]; [done|].
  case_if; [by apply IH|]. case_if; [done|]. apply IH. rewrite bsize_app, bsize_sing.
  bprop. lia.
Qed.

Lemma overlay_size fs gdir cap : 0 <= cap -> bsize (overlay E D fs gdir cap) <= cap.
Proof.
  intros H. unfold overlay. case_if; repeat apply pick_size; rewrite bsize_nil; lia.
Qed.

Lemma pick_extends cands : forall used cap, exists l, pick D cands used cap = used ++ l.
Proof.
  induction cands as [|r cands IH]; intros used cap; cbn [pick]; [exists []; by rewrite app_nil_r|].
  case_if; [apply IH|]. case_if; [exists []; by rewrite app_nil_r|].
  destruct (IH (used ++ [r]) cap) as [l ->]. exists (r :: l). by rewrite <-app_assoc.
Qed.

(** A buffer no smaller than what was picked with more room picks the same. *)
Lemma pick_enough cands : forall used cap cap',
  bsize (pick D cands used cap') <= cap -> cap <= cap' ->
  pick D cands used cap = pick D cands used cap' .
Proof.
  induction cands as [|r cands IH]; intros used cap cap' H Hc; cbn [pick] in *; [done|].
  case_if; [by apply IH|].
  destruct (255 <? _); [done|]. cbn [orb] in *.
  destruct (cap' <? bsize used + reclen r) eqn:E1.
  - apply Z.ltb_lt in E1. by rewrite (proj2 (Z.ltb_lt _ _)) by lia.
  - destruct (pick_extends cands (used ++ [r]) cap') as [l El]. pose proof H as H'.
    rewrite El, !bsize_app, bsize_sing in H'. pose proof (bsize_nonneg l).
    rewrite (proj2 (Z.ltb_ge _ _)) by lia. by apply IH.
Qed.

Lemma overlay_enough fs gdir cap cap' :
  bsize (overlay E D fs gdir cap') <= cap -> cap <= cap' ->
  overlay E D fs gdir cap = overlay E D fs gdir cap'.
Proof.
  unfold overlay. intros H Hc. case_if; [|by apply pick_enough].
  rewrite (pick_enough (bind_cands D (f_binds fs) 0 gdir) [] cap cap'); [by apply pick_enough| |done].
  destruct (pick_extends (node_cands D (cng_dev_nodes (l_g E)) 0)
              (pick D (bind_cands D (f_binds fs) 0 gdir) [] cap') cap') as [l El].
  rewrite El, bsize_app in H. pose proof (bsize_nonneg l). lia.
Qed.

Lemma named_true name l : named name l = true <-> name ∈ t_name <$> l.
Proof.
  unfold named. rewrite existsb_exists, list_elem_of_fmap. split.
  - intros (r & Hr & Hn). apply streq_true in Hn. exists r. split; [done|by apply list_elem_of_In].
  - intros (r & -> & Hr). exists r. split; [by apply list_elem_of_In|by apply streq_true].
Qed.

(** No name is there twice, and none that the directory has an entry of. *)
Definition no_clash (l : list dent) : Prop :=
  NoDup (t_name <$> l) /\ Forall (fun r => d_has D (t_name r) = false) l.

Lemma pick_no_clash cands : forall used cap, no_clash used -> no_clash (pick D cands used cap).
Proof.
  induction cands as [|r cands IH]; intros used cap H; cbn [pick]; [done|].
  case_if; [by apply IH|]. case_if; [done|]. apply IH. apply orb_false_iff in Eif as [Hn Hh].
  destruct H as [H1 H2]. split.
  - rewrite fmap_app. apply NoDup_app. split_and!; [done| |apply NoDup_singleton].
    intros x Hx Hr. apply list_elem_of_singleton in Hr. subst x.
    apply named_true in Hx. by rewrite Hn in Hx.
  - apply Forall_app. auto.
Qed.

Lemma overlay_no_clash fs gdir cap : no_clash (overlay E D fs gdir cap).
Proof. unfold overlay. case_if; repeat apply pick_no_clash; (split; constructor). Qed.

(** Where there is room for all, a name is missing only if it is there already. *)
Lemma pick_complete cands : Forall (fun r => (length (t_name r) <= 255)%nat) cands ->
  forall used cap, bsize used + bsize cands <= cap ->
  Forall (fun r => t_name r ∈ t_name <$> pick D cands used cap \/ d_has D (t_name r) = true) cands /\
  bsize (pick D cands used cap) <= bsize used + bsize cands.
Proof.
  induction 1 as [|r cands Hr _ IH]; intros used cap Hc; cbn [pick]; [split; [constructor|]; rewrite bsize_nil; lia|].
  rewrite bsize_cons in Hc. pose proof (reclen_pos r). pose proof (bsize_nonneg cands). rewrite bsize_cons.
  assert (Ext : forall u x, x ∈ t_name <$> u -> x ∈ t_name <$> pick D cands u cap).
  { intros u x Hx. destruct (pick_extends cands u cap) as [l ->]. rewrite fmap_app. apply elem_of_app. by left. }
  case_if.
  - destruct (IH used cap ltac:(lia)) as [IH1 IH2]. split; [|lia]. constructor; [|done].
    apply orb_true_iff in Eif as [Hn|Hh]; [left|by right]. by apply Ext, named_true.
  - rewrite !(proj2 (Z.ltb_ge _ _)) by lia. cbn [orb].
    destruct (IH (used ++ [r]) cap) as [IH1 IH2]; [rewrite bsize_app, bsize_sing; lia|].
    split; [|rewrite bsize_app, bsize_sing in IH2; lia]. constructor; [|done].
    left. apply Ext. rewrite fmap_app. apply elem_of_app. right. by left.
Qed.

Lemma bind_cands_bound bs : Forall (fun b => (length (b_guest b) < GUEST_SZ)%nat) bs -> forall i gdir,
  Forall (fun r => (length (t_name r) <= 255)%nat) (bind_cands D bs i gdir) /\
  bsize (bind_cands D bs i gdir) <= 282 * Z.of_nat (length bs).
Proof.
  induction 1 as [|b bs Hb _ IH]; intros i gdir; cbn [bind_cands length];
    [split; [constructor|]; rewrite bsize_nil; lia|].
  destruct (IH (i + 1) gdir) as [IH1 IH2].
  destruct (bind_entry b) as [[parent base]|] eqn:Eb; [|split; [done|lia]].
  assert (Hl : (length base <= 255)%nat).
  { unfold bind_entry in Eb. unfold GUEST_SZ in Hb.
    repeat case_if_in Eb; injection Eb as <- <- || discriminate Eb; rewrite length_drop; lia. }
  case_if; [|split; [done|lia]]. destruct (bind_attrs D i b) as [ino type].
  split; [by constructor|]. rewrite bsize_cons.
  pose proof (mk_reclen_bound base ino type (9223372032559808512 + i) Hl). lia.
Qed.

Lemma node_cands_bound nodes : Forall (fun nd : cstr * cstr => (length (fst nd) <= 255)%nat) nodes ->
  forall i, Forall (fun r => (length (t_name r) <= 255)%nat) (node_cands D nodes i) /\
  bsize (node_cands D nodes i) <= 282 * Z.of_nat (length nodes).
Proof.
  induction 1 as [|[name hp] nodes Hb _ IH]; intros i; cbn [node_cands length];
    [split; [constructor|]; rewrite bsize_nil; lia|].
  destruct (IH (i + 1)) as [IH1 IH2]. destruct (d_lstat D hp) as [[ino mode]|]; [|split; [done|lia]].
  split; [by constructor|]. rewrite bsize_cons.
  pose proof (mk_reclen_bound name ino (dtype_of mode) (9223372028264841216 + i) Hb). lia.
Qed.

Lemma bind_cands_has b bs gdir base :
  b ∈ bs -> bind_entry b = Some (gdir, base) -> forall i,
  exists r, r ∈ bind_cands D bs i gdir /\ t_name r = base.
Proof.
  intros Hb He. induction Hb as [b bs|b b' bs Hb IH]; intros i; cbn [bind_cands].
  - rewrite He. rewrite (proj2 (streq_true _ _) eq_refl). destruct (bind_attrs D i b).
    eexists. split; [left|done].
  - destruct (IH He (i + 1)) as (r & Hr & Hn). exists r. split; [|done].
    destruct (bind_entry b') as [[parent base']|]; [|done]. case_if; [|done].
    destruct (bind_attrs D i b'). by right.
Qed.

(** The batch buffer has room for every mount point and device node. *)
Lemma overlay_complete fs gdir :
  Forall (fun b => (length (b_guest b) < GUEST_SZ)%nat) (f_binds fs) ->
  (length (f_binds fs) <= CNG_MAX_BINDS)%nat ->
  forall b base, b ∈ f_binds fs -> bind_entry b = Some (gdir, base) ->
  base ∈ t_name <$> overlay E D fs gdir DENTS_BOUNCE \/ d_has D base = true.
Proof.
  intros Hg Hn b base Hb He. unfold CNG_MAX_BINDS in Hn.
  destruct (bind_cands_bound _ Hg 0 gdir) as [L1 L2].
  destruct (pick_complete _ L1 [] DENTS_BOUNCE) as [P _]; [rewrite bsize_nil; unfold DENTS_BOUNCE; lia|].
  destruct (bind_cands_has b _ gdir base Hb He 0) as (r & Hr & <-).
  eapply Forall_forall in P; [|exact Hr]. destruct P as [P|]; [left|by right].
  unfold overlay. case_if; [|done].
  destruct (pick_extends (node_cands D (cng_dev_nodes (l_g E)) 0)
              (pick D (bind_cands D (f_binds fs) 0 gdir) [] DENTS_BOUNCE) DENTS_BOUNCE) as [l ->].
  rewrite fmap_app. apply elem_of_app. by left.
Qed.

Lemma overlay_nodes fs :
  Forall (fun b => (length (b_guest b) < GUEST_SZ)%nat) (f_binds fs) ->
  (length (f_binds fs) <= CNG_MAX_BINDS)%nat -> g_no_dev (l_g E) = false ->
  Forall (fun r => t_name r ∈ t_name <$> overlay E D fs (cs "/dev") DENTS_BOUNCE \/
                   d_has D (t_name r) = true) (node_cands D (cng_dev_nodes (l_g E)) 0).
Proof.
  intros Hg Hn Hd. unfold CNG_MAX_BINDS in Hn. unfold overlay. rewrite Hd.
  change (negb false && streq (cs "/dev") (cs "/dev")) with true. cbv iota.
  destruct (bind_cands_bound _ Hg 0 (cs "/dev")) as [L1 L2].
  destruct (pick_complete _ L1 [] DENTS_BOUNCE) as [_ S]; [rewrite bsize_nil; unfold DENTS_BOUNCE; lia|].
  destruct (node_cands_bound (cng_dev_nodes (l_g E))) with (i := 0) as [M1 M2].
  { repeat constructor; cbn; lia. }
  rewrite bsize_nil in S. change (length (cng_dev_nodes (l_g E))) with 14%nat in M2.
  apply pick_complete; [done|]. unfold DENTS_BOUNCE in *. lia.
Qed.
End Overlay.

(** ** The filter *)

Section Filter.
Context (E : lenv) (D : denv) (fd : Z).

Definition maybe_link (r : dent) : bool :=
  (u8 (t_type r) =? DT_LNK) || (u8 (t_type r) =? DT_UNKNOWN).

(** A record as the listing gives it: the kernel's, or with the inode and type
    the hard-link emulation has for the name. *)
Definition relist (r r' : dent) : Prop :=
  if d_l2s D && maybe_link r then
    exists h, r' = match fst (cng_l2s_dirent E fd (default [] (d_fd_link D (s32 fd))) (t_name r) h) with
                   | Some (ino, type) => retype r ino type
                   | None => r
                   end
  else r' = r.

Lemma relist_name r r' : relist r r' -> t_name r' = t_name r.
Proof.
  unfold relist. case_if; [|by intros ->]. intros [h ->]. by destruct (fst _) as [[??]|].
Qed.

Definition shown (at_root at_proc : bool) (r : dent) : bool := negb (hide E D at_root at_proc (t_name r)).

(** The bytes of a kept record moved down over those of dropped ones. *)
Lemma compact P x J e B w o :
  w = Z.of_nat (length (P ++ x)) -> o = w + Z.of_nat (length J) ->
  exists J', length J' = length J /\
    (if w =? o then Some (P ++ x ++ J ++ e ++ B)
     else write_at (P ++ x ++ J ++ e ++ B) w (slice (P ++ x ++ J ++ e ++ B) o (length e)))
    = Some (P ++ x ++ e ++ J' ++ B).
Proof.
  intros Hw Ho. case_if.
  - apply Z.eqb_eq in Eif. destruct J; [|simpl in Ho; lia]. by exists [].
  - set (y := J ++ e). exists (drop (length e) y).
    assert (Ly : length y = (length J + length e)%nat) by apply length_app.
    split; [rewrite length_drop; lia|].
    replace (slice _ o _) with e.
    2: { symmetry. rewrite (app_assoc P x), (app_assoc (P ++ x) J).
         apply slice_at; [|done]. rewrite Ho, Hw, !length_app. lia. }
    rewrite (app_assoc J e B). fold y. rewrite <-(take_drop (length e) y) at 1.
    rewrite <-(app_assoc (take _ _)), (app_assoc P x), write_to; [by rewrite <-app_assoc|done|].
    rewrite length_take. lia.
Qed.

(** The rewriting step of the filter, as the source has it. *)
Lemma rewrite_step a r b o h :
  o = Z.of_nat (length a) ->
  exists r' h', relist r r' /\ length (enc r') = length (enc r) /\
  (if d_l2s D && ((code (byte_of (t_type r)) =? DT_LNK) || (code (byte_of (t_type r)) =? DT_UNKNOWN)) then
     let dir := default [] (d_fd_link D (s32 fd)) in
     let '(q, h) := cng_l2s_dirent E fd dir (t_name r) h in
     match q with
     | Some (ino, type) =>
         buf ← write_at (a ++ enc r ++ b) o (le_bytes 8 ino);
         buf ← write_at buf (o + 18) [byte_of type];
         Some (buf, h)
     | None => Some (a ++ enc r ++ b, h)
     end
   else Some (a ++ enc r ++ b, h)) = Some (a ++ enc r' ++ b, h').
Proof.
  intros Ho. rewrite !code_byte_of. fold (maybe_link r).
  destruct (d_l2s D && maybe_link r) eqn:El; cycle 1.
  { exists r, h. split; [by unfold relist; rewrite El|done]. }
  cbv zeta. destruct (cng_l2s_dirent E fd _ (t_name r) h) as [q h'] eqn:Ed.
  assert (R : relist r (match q with Some (ino, type) => retype r ino type | None => r end)).
  { unfold relist. rewrite El. exists h. by rewrite Ed. }
  destruct q as [[ino type]|]; [|exists r, h'; by split_and!].
  exists (retype r ino type), h'. split_and!; [done|..].
  - apply Nat2Z.inj. by rewrite !enc_length.
  - pose proof (rec_retype a b r o Ho ino type) as W.
    destruct (write_at (a ++ enc r ++ b) o (le_bytes 8 ino)) as [u|]; [|done].
    cbn [mbind option_bind] in *. rewrite W. done.
Qed.

Lemma filter_loop_spec at_root at_proc todo : Forall dent_ok todo ->
  forall fuel base n w o P kept J B h,
  (length todo < fuel)%nat -> base = Z.of_nat (length P) -> w = bsize kept ->
  o = w + Z.of_nat (length J) -> n = o + bsize todo ->
  exists new rest h',
  filter_loop E D fuel fd at_root at_proc base n w o (P ++ encs kept ++ J ++ encs todo ++ B) h
  = Some (bsize (kept ++ new), P ++ encs (kept ++ new) ++ rest, h') /\
  Forall2 relist (filter (fun r => shown at_root at_proc r = true) todo) new /\
  Z.of_nat (length rest) = Z.of_nat (length J) + bsize todo - bsize new + Z.of_nat (length B).
Proof.
  induction 1 as [|r todo Hr _ IH]; intros fuel base n w o P kept J B h Hf Hbase Hw Ho Hn;
    (destruct fuel as [|fuel]; [simpl in Hf; lia|]); cbn [filter_loop].
  - rewrite bsize_nil in Hn. rewrite (proj2 (Z.leb_gt _ _)) by lia.
    exists [], (J ++ B), h. rewrite app_nil_r, bsize_nil, length_app. subst w.
    split_and!; [done|constructor|lia].
  - rewrite bsize_cons in Hn. pose proof (reclen_pos r). pose proof (bsize_nonneg todo).
    rewrite (proj2 (Z.leb_le _ _)) by lia.
    assert (Hpos : base + o = Z.of_nat (length (P ++ encs kept ++ J))).
    { rewrite !length_app. subst w. unfold bsize in Ho. lia. }
    replace (P ++ encs kept ++ J ++ encs (r :: todo) ++ B)
      with ((P ++ encs kept ++ J) ++ enc r ++ encs todo ++ B) by (by rewrite encs_cons, <-!app_assoc).
    rewrite rec_len, rec_name, rec_type by done.
    rewrite (proj2 (Z.eqb_neq _ _)), (proj2 (Z.ltb_ge _ _)) by lia. cbn [orb mbind option_bind].
    destruct (hide E D at_root at_proc (t_name r)) eqn:Eh.
    + rewrite filter_cons_False by (unfold shown; by rewrite Eh).
      destruct (IH fuel base n w (o + reclen r) P kept (J ++ enc r) B h) as (new & rest & h' & F & R & L);
        [simpl in Hf; lia|done|done|rewrite length_app, Nat2Z.inj_add, enc_length; lia|lia|].
      exists new, rest, h'. rewrite <-!app_assoc in F. rewrite <-!app_assoc.
      split_and!; [exact F|done|].
      rewrite L, length_app, Nat2Z.inj_add, enc_length, bsize_cons. lia.
    + rewrite filter_cons_True by (unfold shown; by rewrite Eh).
      cbn [fmap option_fmap option_map mbind option_bind].
      destruct (rewrite_step (P ++ encs kept ++ J) r (encs todo ++ B) (base + o) h Hpos)
        as (r' & h1 & Rr & Le & Hs).
      cbv zeta in Hs. rewrite Hs. cbn [mbind option_bind]. clear Hs.
      rewrite <-!app_assoc.
      replace (Z.to_nat (reclen r)) with (length (enc r')) by (rewrite Le; pose proof (enc_length r); lia).
      destruct (compact P (encs kept) J (enc r') (encs todo ++ B) (base + w) (base + o))
        as (J' & LJ & C); [rewrite at_len; lia|lia|].
      replace (w =? o) with (base + w =? base + o) by (destruct (Z.eqb_spec w o); bprop; lia).
      rewrite C. cbn [mbind option_bind]. clear C.
      assert (Er : reclen r' = reclen r) by (rewrite <-!enc_length; lia).
      destruct (IH fuel base n (w + reclen r) (o + reclen r) P (kept ++ [r']) J' B h1)
        as (new & rest & h' & F & R & L);
        [simpl in Hf; lia|done|rewrite bsize_app, bsize_sing; lia|lia|lia|].
      exists (r' :: new), rest, h'.
      rewrite encs_app, encs_sing in F. rewrite <-!app_assoc in F.
      split_and!; [exact F|by constructor|].
      rewrite L, bsize_cons, bsize_cons. lia.
Qed.
End Filter.
