(* ===== verification/DentsProps.v ===== *)
(** * Directory listings: what a guest reads

    A guest that reads a directory to its end is given the overlay, then the
    directory's own records less the hidden ones, each once and in order; the
    batch buffer is never left, and every read comes back. *)

From Stdlib Require Import ZArith Ascii String Lia.
From S2P Require Import Prelude Path PathCanon PathFacts Fmt ProcStat Resolve Rt L2sName L2s Dents DentsFacts.
From stdpp Require Import base numbers strings gmap list.

Open Scope Z_scope.

(** ** The kernel's stream

    getdents64 on a directory that does not change: the records from a position
    on, a batch of them at a time (never a part of one), an error that leaves the
    position where it was, 0 at the end.  A position the stream has moved to is
    positive, and a directory has its "." and "..". *)
Class dir_stream (D : denv) (K : stream) (rest : Z -> list dent) : Prop := DirStream {
  ds_ok : forall p, Forall dent_ok (rest p);
  ds_start : rest 0 <> [];
  ds_tell : forall p, 0 <= p -> k_tell K p = p;
  ds_end : forall p g c, rest p = [] -> k_read K p g c = (0, [], p);
  ds_read : forall p g c, 0 <= p -> rest p <> [] ->
    (exists e, e < 0 /\ k_read K p g c = (e, [], p)) \/
    (exists A B p', A <> [] /\ rest p = A ++ B /\ rest p' = B /\ 0 < p' /\ bsize A <= c /\
       k_read K p g c = (bsize A, encs A, p'));
  ds_null : forall p c, rest p <> [] -> exists e, e < 0 /\ k_read K p (Some 0) c = (e, [], p);
  ds_fits : forall p g c r l, 0 <= p -> rest p = r :: l -> reclen r <= c ->
    (forall a, g = Some a -> a <> 0 /\ d_takes D a (Z.to_nat c) = true) ->
    0 < fst (fst (k_read K p g c)) }.

Section Listing.
Context (E : lenv) (D : denv) (K : stream) (rest : Z -> list dent) {HK : dir_stream D K rest}.
Context (fd : Z).

(** The first record does not fit in [c] bytes. *)
Definition unfit (c : Z) (l : list dent) : Prop := exists r l', l = r :: l' /\ c < reclen r.

(** A read into the batch buffer. *)
Lemma read_cases p c : 0 <= p ->
  (rest p = [] /\ k_read K p None c = (0, [], p)) \/
  (exists e, e < 0 /\ unfit c (rest p) /\ k_read K p None c = (e, [], p)) \/
  (exists A B p', A <> [] /\ rest p = A ++ B /\ rest p' = B /\ 0 < p' /\ bsize A <= c /\
     k_read K p None c = (bsize A, encs A, p')).
Proof.
  intros Hp. destruct (rest p) as [|r l] eqn:Er; [left; split; [done|by apply ds_end]|right].
  destruct (ds_read p None c Hp ltac:(by rewrite Er)) as [(e & He & Hk)|H]; [left|right; by rewrite <-Er].
  exists e. split_and!; [done| |done]. exists r, l. split; [done|].
  destruct (Z_lt_le_dec c (reclen r)) as [|Hc]; [done|].
  pose proof (ds_fits p None c r l Hp Er Hc ltac:(done)) as F. rewrite Hk in F. simpl in F. lia.
Qed.

(** *** Filtering and reading again *)

(** The call has passed [A ++ C] of the stream and gave the overlay [ov] and
    what is shown of those records; [c] bytes were asked for. *)
Definition passed (sh : dent -> bool) (ov A R : list dent) (c : Z) (ans : answer) : Prop :=
  exists C R' new, R = C ++ R' /\ rest (a_pos ans) = R' /\ 0 < a_pos ans /\
    Forall2 (relist E D fd) (filter (fun r => sh r = true) (A ++ C)) new /\
    a_out ans = encs (ov ++ new) /\
    (filter (fun r => sh r = true) A <> [] -> C = []) /\
    ((0 < a_ret ans /\ a_ret ans = bsize (ov ++ new)) \/
     (ov ++ new = [] /\ ((a_ret ans = 0 /\ R' = []) \/ (a_ret ans < 0 /\ unfit c R')))).

Definition faulted (pos : Z) (a1 : Z) (ans : answer) : Prop :=
  a_ret ans = - EFAULT /\ a_out ans = [] /\ a_pos ans = pos /\ exists n, d_takes D a1 n = false.

Lemma dents_out_cases a1 l t pos now n :
  l <> [] -> 0 <= pos -> n = bsize l ->
  dents_out D a1 (encs l ++ t) n pos now = Answer (bsize l) (encs l) now \/
  faulted pos a1 (dents_out D a1 (encs l ++ t) n pos now).
Proof.
  intros Hl Hp ->. unfold dents_out. pose proof (bsize_pos l Hl).
  rewrite (proj2 (Z.leb_gt _ _)) by lia. destruct (d_takes D a1 _) eqn:Et.
  - left. f_equal. rewrite take_app_length'; [done|]. by rewrite encs_length.
  - right. rewrite (proj2 (Z.leb_le _ _)) by done. unfold faulted. cbn [a_ret a_out a_pos]. eauto.
Qed.

(** The overlay's records, or an empty answer, where nothing else is shown. *)
Lemma hidden_stop (sh : dent -> bool) ov A cap a1 t pos now n :
  filter (fun r => sh r = true) A = [] -> 0 < now -> 0 <= pos ->
  (n = 0 /\ rest now = []) \/ (n < 0 /\ unfit cap (rest now)) ->
  let ans := if bsize ov =? 0 then Answer n [] now
             else dents_out D a1 (encs ov ++ t) (bsize ov) pos now in
  passed sh ov A (rest now) cap ans \/ faulted pos a1 ans.
Proof.
  intros R Hnow Hpos Hn ans. subst ans. destruct ov as [|r ov].
  - left. exists [], (rest now), []. cbn [a_pos a_out a_ret]. rewrite !app_nil_r, R.
    split_and!; try done. by right.
  - pose proof (bsize_pos (r :: ov) ltac:(done)). rewrite (proj2 (Z.eqb_neq _ _)) by lia.
    destruct (dents_out_cases a1 (r :: ov) t pos now (bsize (r :: ov))) as [->|HF]; [done|done|done|left|by right].
    exists [], (rest now), []. cbn [a_pos a_out a_ret]. rewrite !app_nil_r, R.
    split_and!; try done. left. split; [lia|done].
Qed.

Lemma view_loop_spec at_root at_proc a1 ov cap pos : 0 <= pos -> forall fuel A t now n h,
  (length (rest now) < fuel)%nat -> Forall dent_ok A -> 0 < now -> n = bsize A ->
  cap <= bsize A + Z.of_nat (length t) ->
  exists ans h',
  view_loop E D K fuel fd a1 at_root at_proc (bsize ov) cap n pos (encs ov ++ encs A ++ t) now h
    = Some (ans, h') /\
  (passed (shown E D at_root at_proc) ov A (rest now) cap ans \/ faulted pos a1 ans).
Proof.
  intros Hpos. set (sh := shown E D at_root at_proc).
  induction fuel as [|fuel IH]; intros A t now n h Hf HA Hnow -> Hcap; [lia|]. cbn [view_loop].
  destruct (filter_loop_spec E D fd at_root at_proc A HA (S (Z.to_nat (bsize A))) (bsize ov)
              (bsize A) 0 0 (encs ov) [] [] t h) as (new & t' & h' & F & R & L);
    [pose proof (length_size_le A); lia|unfold bsize; lia|done|done|lia|].
  change (encs [] ++ [] ++ encs A ++ t) with (encs A ++ t) in F. rewrite F. clear F.
  cbn [mbind option_bind app]. simpl (Z.of_nat (length [])) in L. fold sh in R.
  destruct (decide (new = [])) as [->|Hne].
  - rewrite bsize_nil, Z.ltb_irrefl. cbn [encs concat fmap list_fmap app].
    apply Forall2_nil_inv_r in R. rewrite bsize_nil in L.
    destruct (read_cases now cap ltac:(lia))
      as [[Er Hk]|[(e & He & Hu & Hk)|(A2 & B & p' & HA2 & Er & Ep & Hp' & Hs & Hk)]]; rewrite Hk.
    + cbn [Z.leb Z.compare]. eexists _, _. split; [done|]. apply hidden_stop; auto.
    + rewrite (proj2 (Z.leb_le _ _)) by lia. eexists _, _. split; [done|]. apply hidden_stop; auto.
    + pose proof (bsize_pos A2 HA2). rewrite (proj2 (Z.leb_gt _ _)) by lia.
      rewrite <-(take_drop (length (encs A2)) t').
      rewrite write_to; [|done|rewrite length_take; unfold bsize in *; lia]. cbn [mbind option_bind].
      pose proof (ds_ok now) as Ok. rewrite Er in Ok. apply Forall_app in Ok as [Ok _].
      destruct (IH A2 (drop (length (encs A2)) t') p' (bsize A2) h') as (ans & h2 & F & Hans);
        [|done|done|done|rewrite length_drop; unfold bsize in *; lia|].
      { rewrite Ep. rewrite Er, length_app in Hf. destruct A2; [done|simpl in Hf; lia]. }
      exists ans, h2. split; [exact F|].
      destruct Hans as [(C & R' & new & Hc1 & Hc2 & Hc3 & Hc4 & Hc5 & _ & Hc6)|Hans]; [left|by right].
      exists (A2 ++ C), R', new. rewrite Er, <-Ep, Hc1, <-app_assoc, filter_app, R.
      split_and!; done.
  - pose proof (bsize_pos new Hne). rewrite (proj2 (Z.ltb_lt _ _)) by lia.
    assert (Hon : ov ++ new <> []) by (by intros [_ ?]%app_eq_nil).
    rewrite (app_assoc (encs ov)), <-encs_app.
    destruct (dents_out_cases a1 (ov ++ new) t' pos now (bsize ov + bsize new)) as [->|HF];
      [done|done|by rewrite bsize_app| |by eauto].
    eexists _, _. split; [done|]. left. exists [], (rest now), new. cbn [a_pos a_out a_ret].
    rewrite app_nil_r. split_and!; try done. left. pose proof (bsize_pos _ Hon). split; [lia|done].
Qed.

(** *** Making room *)

Definition ov_of (inject : option (cng_fs * cstr)) (cap : Z) : list dent :=
  match inject with Some (fs, gdir) => overlay E D fs gdir cap | None => [] end.

Definition inject_ok (inject : option (cng_fs * cstr)) : Prop :=
  forall fs gdir, inject = Some (fs, gdir) -> binds_nul_free (f_binds fs).

Lemma inject_spec inject cap buf :
  inject_ok inject -> 0 <= cap <= Z.of_nat (length buf) -> exists t,
  match inject with
  | Some (fs, gdir) => inject_dents E D fs gdir buf 0 cap
  | None => Some (0, buf)
  end = Some (bsize (ov_of inject cap), encs (ov_of inject cap) ++ t) /\
  bsize (ov_of inject cap) <= cap /\ length (encs (ov_of inject cap) ++ t) = length buf.
Proof.
  intros Hi Hc. destruct inject as [[fs gdir]|]; cbn [ov_of]; [|exists buf; split_and!; [done|rewrite bsize_nil; lia|done]].
  destruct (inject_dents_spec E D fs gdir buf cap (Hi _ _ eq_refl) Hc) as (buf' & -> & L & (_ & Hs & _ & t & -> & _)).
  by exists t.
Qed.

(** What the loop comes to: a read that gave records behind an overlay, the
    end of the stream, or an error with no overlay left. *)
Definition asked (ask p : Z) (ov : list dent) (len : nat) (n : Z) (bytes bnc : cstr) (p' : Z) : Prop :=
  (n = 0 /\ rest p = [] /\ p' = p) \/
  (n < 0 /\ ov = [] /\ bytes = [] /\ p' = p /\ unfit ask (rest p)) \/
  (exists A B t, A <> [] /\ rest p = A ++ B /\ rest p' = B /\ 0 < p' /\ n = bsize A /\
     bnc = encs ov ++ encs A ++ t /\ length bnc = len).

Lemma ask_loop_spec inject a1 a2 ask p : 0 <= p -> inject_ok inject -> forall fuel injcap bnc,
  0 <= injcap <= ask -> ask <= Z.of_nat (length bnc) -> (Z.to_nat injcap < fuel)%nat ->
  exists cap n bytes bnc' p',
  ask_loop E D K fuel inject true a1 a2 ask injcap bnc p
    = Some (bsize (ov_of inject cap), n, bytes, bnc', p') /\ 0 <= cap <= injcap /\
  asked ask p (ov_of inject cap) (length bnc) n bytes bnc' p' /\
  (forall r l, rest p = r :: l -> bsize (ov_of inject injcap) + reclen r <= ask -> cap = injcap).
Proof.
  intros Hp Hi. induction fuel as [|fuel IH]; intros injcap bnc Hc Hl Hf; [lia|]. cbn [ask_loop].
  destruct (inject_spec inject injcap bnc Hi ltac:(lia)) as (t & -> & Hs & Lt). cbn [mbind option_bind].
  set (ov := ov_of inject injcap) in *.
  destruct (read_cases p (ask - bsize ov) Hp)
    as [[Er Hk]|[(e & He & Hu & Hk)|(A & B & p' & HA & Er & Ep & Hp' & Hsz & Hk)]]; rewrite Hk.
  - exists injcap, 0, [], (encs ov ++ t), p. cbn [mbind option_bind]. split_and!; [done|lia|lia|by left|done].
  - rewrite (proj2 (Z.ltb_ge _ _)), (proj2 (Z.leb_gt _ _)) by lia. cbn [mbind option_bind orb].
    destruct Hu as (r & l & Er & Hr). case_if.
    + apply Z.eqb_eq in Eif. assert (Eo : ov = []).
      { clearbody ov. destruct ov as [|r' ov]; [done|]. pose proof (bsize_pos (r' :: ov) ltac:(done)). lia. }
      exists injcap, e, [], (encs ov ++ t), p. fold ov. split_and!; [done|lia|lia| |done]. right. left. split_and!; try done.
      exists r, l. split; [done|lia].
    + apply Z.eqb_neq in Eif. pose proof (bsize_nonneg ov).
      destruct (IH (bsize ov - 1) (encs ov ++ t)) as (cap & n & by_ & b' & p' & F & Hcap & Ha & _);
        [lia|rewrite Lt; lia|lia|]. rewrite Lt in Ha.
      exists cap, n, by_, b', p'. split_and!; [exact F|lia|lia|done|].
      intros r' l' E' Hr'. rewrite Er in E'. injection E' as -> ->. lia.
  - pose proof (bsize_pos A HA). rewrite (proj2 (Z.ltb_lt _ _)) by lia.
    assert (Ht : (length (encs A) <= length t)%nat) by (rewrite length_app in Lt; unfold bsize in *; lia).
    rewrite <-(take_drop (length (encs A)) t).
    rewrite write_to; [|done|rewrite length_take; lia]. cbn [mbind option_bind].
    rewrite (proj2 (Z.leb_le _ _)) by lia. cbn [orb].
    exists injcap, (bsize A), (encs A), (encs ov ++ encs A ++ drop (length (encs A)) t), p'.
    split_and!; [done|lia|lia| |done]. right. right. exists A, B, (drop (length (encs A)) t).
    split_and!; try done. rewrite <-Lt, !length_app, length_drop. lia.
Qed.

(** *** One call *)

Context (Hfd : 0 <= fd < 2 ^ 31).
Context (Hfs : forall fs, l_view E = Some fs -> binds_nul_free (f_binds fs)).

(** The directory is the host's /proc with its processes hidden; it is the root
    directory of the rootfs, which has the store. *)
Definition at_proc_dir : bool := negb (g_no_proc (l_g E)) && fd_is_host_proc D fd.
Definition at_root_dir : bool := d_l2s D && fd_is_rootfs_root E D fd.

(** The records a guest is to see of the directory's own. *)
Definition listed (r : dent) : bool := shown E D at_root_dir at_proc_dir r.

(** The host's /proc has no names of the hard-link emulation's. *)
Context (Hclean : at_proc_dir = true ->
  forall p r, r ∈ rest p -> hide E D at_root_dir false (t_name r) = false).

(** Where the overlay of the directory comes from. *)
Definition injected : option (cng_fs * cstr) :=
  fs ← l_view E; hd ← dirfd_host D fd CNG_PATH_MAX;
  g ← untranslate_1 fs hd CNG_PATH_MAX; Some (fs, g).

(** The overlay in front of a read at [p]. *)
Definition front (p cap : Z) : list dent := if p =? 0 then ov_of injected cap else [].

(** What of the guest's buffer a read can use. *)
Definition room (a2 : Z) : Z := Z.min (u32 a2) DENTS_BOUNCE.

Lemma injected_ok : inject_ok injected.
Proof.
  intros fs gdir H. unfold injected in H. destruct (l_view E) as [fs'|]; [|done].
  destruct (dirfd_host _ _ _) as [hd|]; [|done]. cbn [mbind option_bind] in H.
  destruct (untranslate_1 _ _ _); [|done]. injection H as <- _. by apply Hfs.
Qed.

Lemma s32_fd : s32 fd = fd.
Proof. apply wraps_small; lia. Qed.

Lemma first_is_proc :
  match dirfd_host D fd CNG_PATH_MAX with Some hd => streq hd (cs "/proc") | None => false end
  = fd_is_host_proc D fd.
Proof.
  unfold dirfd_host, fd_is_host_proc. rewrite s32_fd, (proj2 (Z.ltb_ge _ _)) by lia.
  destruct (d_fd_link D fd) as [t|]; [|done]. cbn [mbind option_bind].
  destruct (take _ t) as [|c u] eqn:Et; [by rewrite ?Et|]. by rewrite ?Et.
Qed.

(** The call for a buffer that is not NULL. *)
Lemma getdents_unfold fuel stack a1 a2 p h : a1 <> 0 -> 0 <= p ->
  do_getdents64 E D K fuel stack fd a1 a2 p h =
  (let inject := if p =? 0 then injected else None in
   let bounce := bool_decide (is_Some inject) || d_l2s D || at_proc_dir in
   let ask := if bounce && (DENTS_BOUNCE <? u32 a2) then DENTS_BOUNCE else u32 a2 in
   '(pre, n, bytes, bnc, now) ←
      ask_loop E D K (S (S (Z.to_nat ask))) inject bounce a1 a2 ask ask stack p;
   if (n <? 0) || negb bounce then Some (Answer n bytes now, h)
   else if n =? 0 then Some (dents_out D a1 bnc pre p now, h)
   else
     at_proc ← (if at_proc_dir then dents_have_pid bnc pre n else Some false);
     if negb (d_l2s D) && negb at_proc then Some (dents_out D a1 bnc (pre + n) p now, h)
     else view_loop E D K fuel fd a1 at_root_dir at_proc pre (ask - pre) n p bnc now h).
Proof.
  intros Ha Hp. unfold do_getdents64. rewrite (proj2 (Z.eqb_neq a1 0) Ha). cbn [negb andb].
  rewrite (ds_tell p Hp). unfold at_proc_dir, at_root_dir, injected. rewrite <-first_is_proc.
  destruct (p =? 0) eqn:Ep; [done|].
  replace (_ ← l_view E; _) with (@None (cng_fs * cstr)) by (by destruct (l_view E)).
  by rewrite first_is_proc.
Qed.

(** A call that leaves the stream where it was: the end, or an error. *)
Definition stayed (p a1 a2 : Z) (ans : answer) : Prop :=
  a_out ans = [] /\ a_pos ans = p /\
  ((a_ret ans = 0 /\ rest p = []) \/
   (a_ret ans < 0 /\ (a1 = 0 \/ unfit (room a2) (rest p) \/ exists n, d_takes D a1 n = false))).

(** A call that passes the records [A]: the guest has the overlay, at the start
    of the stream, and what is listed of them. *)
Definition moved (p a2 : Z) (ans : answer) : Prop :=
  exists A B new cap, A <> [] /\ rest p = A ++ B /\ rest (a_pos ans) = B /\ 0 < a_pos ans /\
    Forall2 (relist E D fd) (filter (fun r => listed r = true) A) new /\
    a_out ans = encs (front p cap ++ new) /\
    (forall r l, rest p = r :: l -> bsize (front p DENTS_BOUNCE) + reclen r <= room a2 ->
       front p cap = front p DENTS_BOUNCE) /\
    ((0 < a_ret ans /\ a_ret ans = bsize (front p cap ++ new)) \/
     (front p cap ++ new = [] /\
      ((a_ret ans = 0 /\ B = []) \/ (a_ret ans < 0 /\ unfit (room a2) B)))).

Lemma filter_same (f g : dent -> bool) (l : list dent) :
  (forall r, r ∈ l -> f r = g r) ->
  filter (fun r => f r = true) l = filter (fun r => g r = true) l.
Proof.
  induction l as [|r l IH]; intros H; [done|]. rewrite !filter_cons.
  pose proof (H r ltac:(left)) as Er. rewrite IH by (intros q Hq; apply H; by right).
  repeat case_decide; congruence.
Qed.

Lemma filter_every (f : dent -> bool) (l : list dent) :
  (forall r, r ∈ l -> f r = true) -> filter (fun r => f r = true) l = l.
Proof.
  induction l as [|r l IH]; intros H; [done|].
  rewrite filter_cons_True by (apply H; left). f_equal. apply IH. intros q Hq. apply H. by right.
Qed.

(** Only a name that starts with a digit can be a process's. *)
Lemma no_pid_shown at_root (A : list dent) : existsb (fun r => first_digit (t_name r)) A = false ->
  forall r, r ∈ A -> shown E D at_root true r = shown E D at_root false r.
Proof.
  intros H r Hr. unfold shown, hide, proc_name_visible.
  destruct (first_digit (t_name r)) eqn:Ef; [|done].
  assert (existsb (fun r => first_digit (t_name r)) A = true); [|congruence].
  apply existsb_exists. exists r. split; [by apply list_elem_of_In|done].
Qed.

Lemma unfit_room c a2 l : room a2 <= c -> unfit c l -> unfit (room a2) l.
Proof. intros H (r & l' & -> & Hr). exists r, l'. split; [done|lia]. Qed.

(** Without the emulation and outside the host's /proc everything is listed. *)
Lemma plain_listed r : d_l2s D = false -> at_proc_dir = false -> listed r = true.
Proof. intros H1 H2. unfold listed, shown, hide. by rewrite H1, H2. Qed.

Lemma relist_refl l : d_l2s D = false -> Forall2 (relist E D fd) l l.
Proof. intros H. induction l; constructor; [|done]. unfold relist. by rewrite H. Qed.

(** A NULL buffer, or a call that passes the records through. *)
Lemma direct_call p a1 a2 n bytes p' : 0 <= p ->
  k_read K p (Some a1) (u32 a2) = (n, bytes, p') ->
  (a1 <> 0 -> d_l2s D = false /\ at_proc_dir = false /\ (p = 0 -> injected = None)) ->
  stayed p a1 a2 (Answer n bytes p') \/ moved p a2 (Answer n bytes p').
Proof.
  intros Hp Hk Hd. destruct (rest p) as [|r l] eqn:Er.
  { rewrite ds_end in Hk by done. injection Hk as <- <- <-. left. split_and!; [done|done|by left]. }
  destruct (Z.eq_dec a1 0) as [->|Ha].
  { destruct (ds_null p (u32 a2) ltac:(by rewrite Er)) as (e & He & Hk'). rewrite Hk' in Hk.
    injection Hk as <- <- <-. left. split_and!; [done|done|]. right. split; [done|by left]. }
  destruct (ds_read p (Some a1) (u32 a2) Hp ltac:(by rewrite Er))
    as [(e & He & Hk')|(A & B & q & HA & EA & Eq & Hq & Hs & Hk')]; rewrite Hk' in Hk; injection Hk as <- <- <-.
  - left. split_and!; [done|done|]. right. split; [done|]. right.
    destruct (d_takes D a1 (Z.to_nat (u32 a2))) eqn:Et; [left|by eauto].
    destruct (Z_lt_le_dec (u32 a2) (reclen r)) as [Hr|Hr].
    + exists r, l. split; [done|]. unfold room. lia.
    + pose proof (ds_fits p (Some a1) (u32 a2) r l Hp Er Hr) as F. rewrite Hk' in F. simpl in F.
      specialize (F ltac:(intros a [= <-]; done)). lia.
  - right. destruct (Hd Ha) as (H1 & H2 & H3). pose proof (bsize_pos A HA).
    assert (Ef : forall cap, front p cap = []).
    { intros cap. unfold front. destruct (Z.eqb_spec p 0) as [e|]; [|done]. by rewrite (H3 e). }
    exists A, B, A, 0. rewrite !Ef. cbn [a_pos a_out a_ret app].
    rewrite (filter_every listed A) by (intros q' _; by apply plain_listed).
    split_and!; try done; [by apply relist_refl|]. left. split; [lia|done].
Qed.

(** What the filter's flag says of a batch. *)
Lemma pid_flag ov A t :
  Forall dent_ok A -> exists flag,
  (if at_proc_dir then dents_have_pid (encs ov ++ encs A ++ t) (bsize ov) (bsize A) else Some false)
    = Some flag /\
  (forall r, r ∈ A -> shown E D at_root_dir flag r = listed r) /\
  (flag = at_proc_dir \/ (flag = false /\ at_proc_dir = true)).
Proof.
  intros HA. unfold listed. destruct at_proc_dir; [|by exists false; auto].
  unfold bsize at 1. rewrite dents_have_pid_spec by done. eexists. split; [done|].
  destruct (existsb _ A) eqn:Ee; [by auto|]. split; [|by auto].
  intros r Hr. symmetry. by apply (no_pid_shown _ A).
Qed.

(** A batch [A] read behind the overlay, edited and given out. *)
Lemma batch_call fuel a1 p ov A B t ask now h :
  0 <= p -> rest p = A ++ B -> A <> [] -> rest now = B -> 0 < now -> (length B < fuel)%nat ->
  ask - bsize ov <= bsize A + Z.of_nat (length t) ->
  exists ans h',
  (at_proc ← (if at_proc_dir then dents_have_pid (encs ov ++ encs A ++ t) (bsize ov) (bsize A)
              else Some false);
   if negb (d_l2s D) && negb at_proc
   then Some (dents_out D a1 (encs ov ++ encs A ++ t) (bsize ov + bsize A) p now, h)
   else view_loop E D K fuel fd a1 at_root_dir at_proc (bsize ov) (ask - bsize ov) (bsize A) p
                  (encs ov ++ encs A ++ t) now h) = Some (ans, h') /\
  (passed listed ov A B (ask - bsize ov) ans \/ faulted p a1 ans).
Proof.
  intros Hp Er HA En Hn Hf Hl.
  pose proof (ds_ok p) as Ok. rewrite Er in Ok. apply Forall_app in Ok as [Ok _].
  destruct (pid_flag ov A t Ok) as (flag & -> & Hflag & Hcl). cbn [mbind option_bind].
  destruct (negb (d_l2s D) && negb flag) eqn:Ex.
  - apply andb_true_iff in Ex as [Ex%negb_true_iff Ey%negb_true_iff]. subst flag.
    eexists _, h. split; [done|]. rewrite app_assoc, <-encs_app.
    assert (Hov : ov ++ A <> []) by (by intros [_ ?]%app_eq_nil).
    destruct (dents_out_cases a1 (ov ++ A) t p now (bsize ov + bsize A)) as [->|];
      [done|done|by rewrite bsize_app|left|by right].
    exists [], B, A. cbn [a_pos a_out a_ret]. rewrite app_nil_r, filter_every.
    2: { intros r Hr. rewrite <-(Hflag r Hr). unfold shown, hide. by rewrite Ex. }
    pose proof (bsize_pos _ Hov). split_and!; try done; [by apply relist_refl|].
    left. split; [lia|done].
  - destruct (view_loop_spec at_root_dir flag a1 ov (ask - bsize ov) p Hp fuel A t now (bsize A) h)
      as (ans & h' & F & H); [by rewrite En|done|done|done|done|].
    exists ans, h'. split; [exact F|]. destruct H as [H|]; [left|by right].
    destruct H as (C & R' & new & H1 & H2 & H3 & H4 & H5 & H6 & H7). rewrite En in H1.
    assert (Es : filter (fun r => shown E D at_root_dir flag r = true) (A ++ C)
                 = filter (fun r => listed r = true) (A ++ C)).
    { destruct Hcl as [->|[-> Hpr]]; [done|]. rewrite H6, !app_nil_r; [by apply filter_same|].
      rewrite filter_every; [done|]. intros r Hr. unfold shown.
      rewrite (Hclean Hpr p r); [done|]. rewrite Er. apply elem_of_app. by left. }
    exists C, R', new. rewrite <-Es. split_and!; try done.
    intros Hne. apply H6. rewrite (filter_same _ listed); [done|]. done.
Qed.

Lemma ov_of_enough inject cap cap' :
  bsize (ov_of inject cap') <= cap -> cap <= cap' -> ov_of inject cap = ov_of inject cap'.
Proof. destruct inject as [[fs g]|]; [apply overlay_enough|done]. Qed.

Lemma ask_direct fuel a1 a2 ask bnc p n bytes p' :
  k_read K p (Some a1) (u32 a2) = (n, bytes, p') ->
  ask_loop E D K (S fuel) None false a1 a2 ask ask bnc p = Some (0, n, bytes, bnc, p').
Proof.
  intros Hk. cbn [ask_loop mbind option_bind]. rewrite Hk. cbn [andb mbind option_bind].
  by rewrite orb_true_r.
Qed.

Lemma passed_moved p a2 cap A B ans :
  rest p = A ++ B -> A <> [] ->
  (forall r l, rest p = r :: l -> bsize (front p DENTS_BOUNCE) + reclen r <= room a2 ->
     front p cap = front p DENTS_BOUNCE) ->
  passed listed (front p cap) A B (room a2 - bsize (front p cap)) ans -> moved p a2 ans.
Proof.
  intros Er HA Hc (C & R' & new & -> & H2 & H3 & H4 & H5 & _ & H7).
  exists (A ++ C), R', new, cap. rewrite Er, <-app_assoc in *.
  split_and!; try done; [by intros [? _]%app_eq_nil|].
  destruct H7 as [|[H7 H8]]; [by left|right]. split; [done|].
  apply app_eq_nil in H7 as [Hfr _]. rewrite Hfr, bsize_nil, Z.sub_0_r in H8. done.
Qed.

Lemma faulted_stayed p a1 a2 ans : faulted p a1 ans -> stayed p a1 a2 ans.
Proof.
  intros (H1 & H2 & H3 & H4). split_and!; [done|done|]. right. rewrite H1. split; [done|by auto].
Qed.

(** A read through the batch buffer. *)
Lemma bounce_call fuel stack a1 a2 p h inject :
  0 <= p -> Z.of_nat (length stack) = DENTS_BOUNCE -> (length (rest p) <= fuel)%nat ->
  inject = (if p =? 0 then injected else None) -> exists ans h',
  ('(pre, n, bytes, bnc, now) ←
     ask_loop E D K (S (S (Z.to_nat (room a2)))) inject true a1 a2 (room a2) (room a2) stack p;
   if (n <? 0) || negb true then Some (Answer n bytes now, h)
   else if n =? 0 then Some (dents_out D a1 bnc pre p now, h)
   else
     at_proc ← (if at_proc_dir then dents_have_pid bnc pre n else Some false);
     if negb (d_l2s D) && negb at_proc then Some (dents_out D a1 bnc (pre + n) p now, h)
     else view_loop E D K fuel fd a1 at_root_dir at_proc pre (room a2 - pre) n p bnc now h)
  = Some (ans, h') /\ (stayed p a1 a2 ans \/ moved p a2 ans).
Proof.
  intros Hp Hst Hf Hi.
  assert (Hio : inject_ok inject) by (subst inject; case_if; [apply injected_ok|done]).
  assert (Hov : forall cap, ov_of inject cap = front p cap).
  { intros. unfold front. subst inject. by case_if. }
  pose proof (wrapu_range 32 a2 ltac:(lia)).
  assert (Hr : 0 <= room a2 <= DENTS_BOUNCE) by (unfold room, DENTS_BOUNCE in *; lia).
  destruct (ask_loop_spec inject a1 a2 (room a2) p Hp Hio (S (S (Z.to_nat (room a2)))) (room a2) stack)
    as (cap & n & bytes & bnc & now & -> & Hcap & Ha & Hroom); [lia|lia|lia|].
  cbn [mbind option_bind negb orb]. rewrite orb_false_r, Hov in *.
  destruct Ha as [(-> & Er & ->)|[(Hn & Eo & -> & -> & Hu)|(A & B & t & HA & Er & En & Hnow & -> & -> & L)]].
  - rewrite Z.ltb_irrefl, Z.eqb_refl. eexists _, _. split; [done|]. left.
    assert (front p cap = []) as ->.
    { unfold front. destruct (Z.eqb_spec p 0) as [->|]; [|done]. by pose proof ds_start. }
    unfold dents_out. cbn [Z.leb Z.compare bsize encs length fmap list_fmap concat Z.of_nat].
    split_and!; [done|done|by left].
  - rewrite (proj2 (Z.ltb_lt _ _)) by done. eexists _, _. split; [done|]. left.
    split_and!; [done|done|]. right. auto.
  - pose proof (bsize_pos A HA). rewrite (proj2 (Z.ltb_ge _ _)), (proj2 (Z.eqb_neq _ _)) by lia.
    destruct (batch_call fuel a1 p (front p cap) A B t (room a2) now h) as (ans & h' & F & H');
      [done|done|done|done|done| | |].
    { rewrite Er, length_app in Hf. destruct A; [done|simpl in Hf; lia]. }
    { rewrite !length_app in L. unfold bsize. lia. }
    exists ans, h'. split; [exact F|]. destruct H' as [H'|H']; [right|left; by apply faulted_stayed].
    apply (passed_moved p a2 cap A B); [done|done| |done].
    intros r l El Hl. pose proof (reclen_pos r).
    assert (Eq : front p (room a2) = front p DENTS_BOUNCE).
    { rewrite <-!Hov in *. apply ov_of_enough; lia. }
    rewrite (Hroom r l El); [done|]. rewrite Eq. lia.
Qed.

(** Every call comes back, and leaves the stream or moves it. *)
Lemma call_spec fuel stack a1 a2 p h :
  0 <= p -> Z.of_nat (length stack) = DENTS_BOUNCE -> (length (rest p) <= fuel)%nat ->
  exists ans h', do_getdents64 E D K fuel stack fd a1 a2 p h = Some (ans, h') /\
  (stayed p a1 a2 ans \/ moved p a2 ans).
Proof.
  intros Hp Hst Hf. destruct (k_read K p (Some a1) (u32 a2)) as [[n bytes] p'] eqn:Hk.
  destruct (Z.eq_dec a1 0) as [->|Ha].
  { unfold do_getdents64. cbn [negb Z.eqb andb].
    replace (_ ← l_view E; _) with (@None (cng_fs * cstr)) by (by destruct (l_view E)).
    rewrite (ask_direct _ _ _ _ _ _ _ _ _ Hk). cbn [mbind option_bind]. rewrite orb_true_r.
    eexists _, _. split; [done|]. apply (direct_call p 0 a2 n bytes p' Hp Hk). done. }
  rewrite getdents_unfold by done. cbv zeta. set (inject := if p =? 0 then injected else None).
  destruct (_ || at_proc_dir) eqn:Eb; cbn [andb].
  - replace (if DENTS_BOUNCE <? u32 a2 then _ else _) with (room a2).
    2: { unfold room. destruct (Z.ltb_spec DENTS_BOUNCE (u32 a2)); lia. }
    by apply bounce_call.
  - apply orb_false_iff in Eb as [[Eb E2]%orb_false_iff E3]. apply bool_decide_eq_false in Eb.
    assert (En : inject = None) by (destruct inject; [by destruct Eb|done]). rewrite En.
    rewrite (ask_direct _ _ _ _ _ _ _ _ _ Hk). cbn [mbind option_bind negb]. rewrite orb_true_r.
    eexists _, _. split; [done|]. apply (direct_call p a1 a2 n bytes p' Hp Hk).
    intros _. split_and!; [done|done|]. intros ->. exact En.
Qed.
End Listing.
