(* ===== verification/DentsStream.v ===== *)
(** * Directory listings: a directory read to its end

    The calls of a guest on one descriptor, in any number and of any sizes,
    against the directory's view: the overlay of mount points and device nodes,
    then the directory's records that are not hidden. *)

From Stdlib Require Import ZArith Ascii String Lia.
From S2P Require Import Prelude Path PathCanon PathFacts PathProps Fmt ProcStat Resolve Rt L2sName L2s Dents DentsFacts DentsProps.
From stdpp Require Import base numbers strings gmap list.

Open Scope Z_scope.

(** A call: the guest's buffer, its size, and what the monitor's stack holds. *)
Record dcall := DCall { c_buf : Z; c_size : Z; c_stack : cstr }.

(** The calls, one after the other, on the descriptor [fd]. *)
Fixpoint readdir (E : lenv) (D : denv) (K : stream) (fuel : nat) (fd : Z) (calls : list dcall)
    (p : Z) (h : host) : option (list answer * Z) :=
  match calls with
  | [] => Some ([], p)
  | c :: calls =>
      '(ans, h) ← do_getdents64 E D K fuel (c_stack c) fd (c_buf c) (c_size c) p h;
      '(rest, p) ← readdir E D K fuel fd calls (a_pos ans) h;
      Some (ans :: rest, p)
  end.

Definition stack_ok (c : dcall) : Prop := Z.of_nat (length (c_stack c)) = DENTS_BOUNCE.

(** The view and the directory a listing is of. *)
Record dir_ok (E : lenv) (D : denv) (rest : Z -> list dent) (fd : Z) : Prop := DirOk {
  do_fd : 0 <= fd < 2 ^ 31;
  do_fs : forall fs, l_view E = Some fs -> binds_nul_free (f_binds fs);
  do_clean : at_proc_dir E D fd = true ->
    forall p r, r ∈ rest p -> hide E D (at_root_dir E D fd) false (t_name r) = false }.

Section Stream.
Context (E : lenv) (D : denv) (K : stream) (rest : Z -> list dent) {HK : dir_stream D K rest}.
Context (fd : Z) (Hok : dir_ok E D rest fd).

(** A call whose buffer can be written and has room for the overlay and any one
    record. *)
Definition ample (c : dcall) : Prop :=
  c_buf c <> 0 /\ (forall n, d_takes D (c_buf c) n = true) /\
  forall r, r ∈ rest 0 -> bsize (front E D fd 0 DENTS_BOUNCE) + reclen r <= room (c_size c).

(** What the calls of a run gave, from the position [p] on. *)
Definition gave (p : Z) (calls : list dcall) (anss : list answer) (p' : Z) : Prop :=
  exists A B ov new, rest p = A ++ B /\ rest p' = B /\ 0 <= p' /\
    Forall2 (relist E D fd) (filter (fun r => listed E D fd r = true) A) new /\
    concat (a_out <$> anss) = encs (ov ++ new) /\
    (ov = [] \/ exists cap, ov = front E D fd p cap) /\
    (Forall ample calls -> A <> [] -> ov = front E D fd p DENTS_BOUNCE) /\
    Forall (fun ans => a_ret ans = 0 -> B = []) anss /\
    (Forall ample calls -> B = [] \/ (length B + length calls <= length (rest p))%nat).

Lemma front_later p cap : 0 < p -> front E D fd p cap = [].
Proof. intros H. unfold front. by rewrite (proj2 (Z.eqb_neq _ _)) by lia. Qed.

Lemma ample_fits c p :
  ample c -> rest p `suffix_of` rest 0 -> ~ unfit (room (c_size c)) (rest p).
Proof.
  intros (_ & _ & H) [l Hs] (r & l' & Er & Hr). pose proof (bsize_nonneg (front E D fd 0 DENTS_BOUNCE)).
  specialize (H r). rewrite Hs, Er in H. specialize (H ltac:(apply elem_of_app; right; left)). lia.
Qed.

Lemma ample_moves c p ans :
  ample c -> rest p `suffix_of` rest 0 -> stayed D rest p (c_buf c) (c_size c) ans ->
  a_ret ans = 0 /\ rest p = [].
Proof.
  intros Ha Hs (_ & _ & [?|(_ & [H|[H|[n H]]])]); [done|exfalso..].
  - by apply (proj1 Ha).
  - by apply (ample_fits c p).
  - by rewrite (proj1 (proj2 Ha) n) in H.
Qed.

(** A call that leaves the stream where it was, before others. *)
Lemma gave_stayed p c calls ans anss p' :
  rest p `suffix_of` rest 0 -> stayed D rest p (c_buf c) (c_size c) ans ->
  gave p calls anss p' -> gave p (c :: calls) (ans :: anss) p'.
Proof.
  intros Hs St (A & B & ov & new & H1 & H2 & H3 & H4 & H5 & H6 & H7 & H8 & H9).
  exists A, B, ov, new. pose proof St as (Ho & _ & Hr).
  split_and!; try done.
  - cbn [fmap list_fmap concat]. by rewrite Ho.
  - intros Hc. apply H7. by inv Hc.
  - constructor; [|done]. intros H0. destruct Hr as [[_ Er]|[? _]]; [|lia].
    rewrite Er in H1. by apply eq_sym, app_eq_nil in H1 as [_ ?].
  - intros Hc. inv Hc. destruct (ample_moves c p ans) as [_ Er]; [done..|].
    left. rewrite Er in H1. by apply eq_sym, app_eq_nil in H1 as [_ ?].
Qed.

(** A call that passes records, before others. *)
Lemma gave_moved p c calls ans anss p' :
  rest p `suffix_of` rest 0 -> moved E D rest fd p (c_size c) ans ->
  gave (a_pos ans) calls anss p' -> gave p (c :: calls) (ans :: anss) p'.
Proof.
  intros Hs (A1 & B1 & new1 & cap & HA1 & E1 & E2 & Hp1 & R1 & O1 & F1 & T1)
    (A & B & ov & new & H1 & H2 & H3 & H4 & H5 & H6 & H7 & H8 & H9).
  rewrite H1 in E2, H9. subst B1.
  assert (ov = []) as -> by (destruct H6 as [|[cap' ->]]; [done|by apply front_later]).
  exists (A1 ++ A), B, (front E D fd p cap), (new1 ++ new).
  split_and!; try done.
  - by rewrite E1, app_assoc.
  - rewrite filter_app. by apply Forall2_app.
  - cbn [fmap list_fmap concat]. rewrite O1, H5, <-encs_app. f_equal. by rewrite app_nil_l, <-app_assoc.
  - right. by exists cap.
  - intros [Hc _]%Forall_cons _. destruct A1 as [|r A1]; [done|]. apply (F1 r (A1 ++ A ++ B)); [done|].
    destruct Hc as (_ & _ & Hroom). destruct Hs as [l Hs].
    specialize (Hroom r). rewrite Hs, E1 in Hroom.
    specialize (Hroom ltac:(apply elem_of_app; right; left)).
    unfold front in *. destruct (p =? 0); [done|]. rewrite bsize_nil.
    pose proof (bsize_nonneg (ov_of E D (injected E D fd) DENTS_BOUNCE)). cbn in Hroom. lia.
  - constructor; [|done]. intros H0. destruct T1 as [[? _]|[_ [[_ HB]|[? _]]]]; [lia| |lia].
    by apply app_eq_nil in HB as [_ ?].
  - intros [_ Hc]%Forall_cons. destruct (H9 Hc) as [|Hl]; [by left|right].
    rewrite E1, length_app. destruct A1; [done|]. cbn [length]. lia.
Qed.

Lemma readdir_gave fuel calls : Forall stack_ok calls -> (length (rest 0) <= fuel)%nat -> forall p h,
  0 <= p -> rest p `suffix_of` rest 0 ->
  exists anss p', readdir E D K fuel fd calls p h = Some (anss, p') /\
    length anss = length calls /\ gave p calls anss p'.
Proof.
  intros Hst Hf. induction Hst as [|c calls Hc _ IH]; intros p h Hp Hs; cbn [readdir].
  - exists [], p. split_and!; [done|done|]. exists [], (rest p), [], [].
    split_and!; try done; [by left|]. right. simpl. lia.
  - destruct Hok as [H1 H2 H3]. pose proof (suffix_length _ _ Hs).
    destruct (call_spec E D K rest fd H1 H2 H3 fuel (c_stack c) (c_buf c) (c_size c) p h Hp Hc ltac:(lia))
      as (ans & h' & -> & Ho). cbn [mbind option_bind].
    assert (Hn : 0 <= a_pos ans /\ rest (a_pos ans) `suffix_of` rest 0).
    { destruct Ho as [(_ & -> & _)|(A & B & new & cap & _ & Er & -> & Hpos & _)]; [done|].
      split; [lia|]. rewrite Er in Hs. etrans; [|exact Hs]. by exists A. }
    destruct (IH (a_pos ans) h' (proj1 Hn) (proj2 Hn)) as (anss & p' & -> & Hlen & Hg).
    cbn [mbind option_bind]. exists (ans :: anss), p'. split_and!; [done|cbn [length]; congruence|].
    destruct Ho as [Ho|Ho]; [|by apply gave_moved].
    apply gave_stayed; [done|done|]. destruct Ho as (_ & Hpos & _). by rewrite <-Hpos.
Qed.

Lemma relist_names l new :
  Forall2 (relist E D fd) l new -> t_name <$> new = t_name <$> l.
Proof.
  induction 1 as [|r r' l new Hr _ IH]; [done|]. cbn [fmap list_fmap].
  by rewrite (relist_name _ _ _ _ _ Hr), IH.
Qed.

Lemma front_no_clash p cap : no_clash D (front E D fd p cap).
Proof.
  assert (H0 : no_clash D []) by (split; constructor).
  unfold front, ov_of. case_if; [|done].
  destruct (injected E D fd) as [[fs g]|]; [apply overlay_no_clash|done].
Qed.

(** The overlay and what is listed of the directory have no name in common. *)
Lemma listing_nodup ov new :
  no_clash D ov -> NoDup (t_name <$> rest 0) -> (forall r, r ∈ rest 0 -> d_has D (t_name r) = true) ->
  Forall2 (relist E D fd) (filter (fun r => listed E D fd r = true) (rest 0)) new ->
  NoDup (t_name <$> (ov ++ new)).
Proof.
  intros [F1 F2] Hn Hd R. rewrite fmap_app, (relist_names _ _ R). apply NoDup_app. split_and!; [done| |].
  - intros x (r & -> & Hr)%list_elem_of_fmap (r' & Er & Hr')%list_elem_of_fmap.
    apply list_elem_of_filter in Hr' as [_ Hr'].
    pose proof (Hd r' Hr') as K1. rewrite <-Er in K1.
    eapply Forall_forall in F2; [|exact Hr]. by rewrite K1 in F2.
  - clear -Hn. induction (rest 0) as [|r l IH]; [constructor|].
    cbn [fmap list_fmap] in Hn. apply NoDup_cons in Hn as [H1 H2].
    destruct (decide (listed E D fd r = true)) as [Hl|Hl].
    + rewrite filter_cons_True by done. cbn [fmap list_fmap]. apply NoDup_cons. split; [|by apply IH].
      intros (r' & Er & [_ Hr']%list_elem_of_filter)%list_elem_of_fmap. apply H1.
      rewrite Er. by apply list_elem_of_fmap_2.
    + rewrite filter_cons_False by done. by apply IH.
Qed.

(** Every mount point of the directory is in the overlay, or on the disk. *)
Lemma front_mounts fs gdir b base :
  fs_wf fs -> injected E D fd = Some (fs, gdir) -> b ∈ f_binds fs ->
  bind_entry b = Some (gdir, base) ->
  base ∈ t_name <$> front E D fd 0 DENTS_BOUNCE \/ d_has D base = true.
Proof.
  intros Hw Hi Hb He. unfold front. cbn [Z.eqb]. rewrite Hi. cbn [ov_of].
  apply (overlay_complete E D fs gdir) with (b := b); [|apply fw_n, Hw|done|done].
  eapply Forall_impl; [apply fw_binds, Hw|]. intros b' Hb'. apply bw_gsz, Hb'.
Qed.
End Stream.

(** A directory as a list of records, a batch as long as fits. *)
Fixpoint take_fit (l : list dent) (c : Z) : list dent :=
  match l with
  | [] => []
  | r :: l => if reclen r <=? c then r :: take_fit l (c - reclen r) else []
  end.

Definition list_stream (D : denv) (l : list dent) : stream :=
  Stream
    (fun p g c =>
       let rest := drop (Z.to_nat p) l in
       let batch := take_fit rest c in
       if (length rest =? 0)%nat then (0, [], p)
       else if bool_decide (g = Some 0)
               || match g with Some a => negb (d_takes D a (Z.to_nat c)) | None => false end
       then (- EFAULT, [], p)
       else if (length batch =? 0)%nat then (- EINVAL, [], p)
       else (bsize batch, encs batch, Z.of_nat (Z.to_nat p + length batch)))
    (fun p => p).

Lemma take_fit_prefix l : forall c, exists B, l = take_fit l c ++ B /\ (0 <= c -> bsize (take_fit l c) <= c).
Proof.
  induction l as [|r l IH]; intros c; cbn [take_fit]; [exists []; split; [done|rewrite bsize_nil; lia]|].
  case_if; [|exists (r :: l); split; [done|rewrite bsize_nil; lia]].
  apply Z.leb_le in Eif. destruct (IH (c - reclen r)) as (B & Hl & Hs). exists B.
  split; [cbn [app]; congruence|]. intros Hc. rewrite bsize_cons. lia.
Qed.

#[export] Instance list_dir_stream D l :
  l <> [] -> Forall dent_ok l -> dir_stream D (list_stream D l) (fun p => drop (Z.to_nat p) l).
Proof.
  intros Hl Ho. split.
  - intros p. by apply Forall_drop.
  - done.
  - done.
  - intros p g c H. unfold list_stream. cbn [k_read]. by rewrite H.
  - intros p g c Hp H. unfold list_stream. cbn [k_read].
    rewrite (proj2 (Nat.eqb_neq _ _)) by (by destruct (drop _ l)).
    case_if; [left; eexists; split; [|done]; unfold EFAULT; lia|].
    case_if; [left; eexists; split; [|done]; unfold EINVAL; lia|right].
    set (t := take_fit (drop (Z.to_nat p) l) c) in *.
    destruct (take_fit_prefix (drop (Z.to_nat p) l) c) as (B & HB & Hs). fold t in HB, Hs.
    apply Nat.eqb_neq in Eif0. exists t, B, (Z.of_nat (Z.to_nat p + length t)). split_and!; try done.
    + by destruct t.
    + by rewrite Nat2Z.id, <-drop_drop, HB, drop_app_length.
    + lia.
    + apply Hs. destruct (Z_lt_le_dec c 0) as [Hc|]; [|done]. exfalso. apply Eif0. unfold t.
      destruct (drop _ l) as [|r l']; [done|]. cbn [take_fit]. pose proof (reclen_pos r).
      by rewrite (proj2 (Z.leb_gt _ _)) by lia.
  - intros p c H. unfold list_stream. cbn [k_read].
    rewrite (proj2 (Nat.eqb_neq _ _)) by (by destruct (drop _ l)).
    rewrite bool_decide_eq_true_2 by done. eexists. split; [|done]. unfold EFAULT. lia.
  - intros p g c r l' Hp Er Hr Hg. unfold list_stream. cbn [k_read]. rewrite Er.
    cbn [length Nat.eqb take_fit]. rewrite (proj2 (Z.leb_le _ _)) by done.
    replace (bool_decide _ || _) with false.
    2: { destruct g as [a|]; [|done]. destruct (Hg a eq_refl) as [Ha Ht].
         rewrite Ht, bool_decide_eq_false_2 by congruence. done. }
    cbn [length Nat.eqb fst]. pose proof (bsize_pos (r :: take_fit l' (c - reclen r)) ltac:(done)). lia.
Qed.

(** ** The listing *)

(** C27: A listing is the view of the directory.  Whatever calls a guest makes on a
    directory, with buffers of any sizes and addresses, each of them comes back,
    within the batch buffer; and what they gave, put together, is a part of the
    overlay of mount points and device nodes, no name of it twice or on the disk,
    and then the records of the directory the stream has passed, in their order,
    each once, less those that are hidden: the files of the hard-link emulation,
    and in the host's /proc the processes that are not the guest's.  A record is
    the kernel's, but for the inode and type of an emulated link.  A call that
    answers 0 has the whole directory behind it. *)
Theorem listing_refines_view (E : lenv) (D : denv) (K : stream) (rest : Z -> list dent) (fd : Z)
    (fuel : nat) (calls : list dcall) (h : host)
    (HK : dir_stream D K rest) (Hok : dir_ok E D rest fd)
    (Hst : Forall stack_ok calls) (Hfuel : (length (rest 0%Z) <= fuel)%nat) :
  exists anss p' A B ov new,
    readdir E D K fuel fd calls 0 h = Some (anss, p') /\ length anss = length calls /\
    rest 0%Z = A ++ B /\ rest p' = B /\
    concat (a_out <$> anss) = encs (ov ++ new) /\
    (ov = [] \/ exists cap, ov = ov_of E D (injected E D fd) cap) /\ no_clash D ov /\
    Forall2 (relist E D fd) (filter (fun r => listed E D fd r = true) A) new /\
    Forall (fun ans => a_ret ans = 0 -> B = []) anss.
Proof.
  destruct (readdir_gave E D K rest fd Hok fuel calls Hst Hfuel 0 h ltac:(done) ltac:(done))
    as (anss & p' & Hr & Hl & (A & B & ov & new & H1 & H2 & _ & H4 & H5 & H6 & _ & H8 & _)).
  exists anss, p', A, B, ov, new. split_and!; try done.
  destruct H6 as [->|[cap ->]]; [split; constructor|apply front_no_clash].
Qed.

(** C33: A directory read with a buffer of reasonable size is listed to its end,
    and nothing is missing.  When each buffer can be written and has room for the
    overlay and any one record, one call more than the directory has records is
    enough to come to its end, and then the guest has been given the whole
    overlay and every record that is not hidden.  Every mount point of the
    directory is among them, unless the directory has an entry of its name, and
    no name is listed twice. *)
Theorem listing_completes (E : lenv) (D : denv) (K : stream) (rest : Z -> list dent) (fd : Z)
    (fuel : nat) (calls : list dcall) (h : host)
    (HK : dir_stream D K rest) (Hok : dir_ok E D rest fd)
    (Hst : Forall stack_ok calls) (Hfuel : (length (rest 0%Z) <= fuel)%nat)
    (Hample : Forall (ample E D rest fd) calls) (Hmany : (length (rest 0%Z) < length calls)%nat)
    (Hhas : forall r, r ∈ rest 0%Z -> d_has D (t_name r) = true)
    (Hnodup : NoDup (t_name <$> rest 0%Z)) :
  exists anss p' new,
    readdir E D K fuel fd calls 0 h = Some (anss, p') /\ rest p' = [] /\
    let ov := ov_of E D (injected E D fd) DENTS_BOUNCE in
    concat (a_out <$> anss) = encs (ov ++ new) /\
    Forall2 (relist E D fd) (filter (fun r => listed E D fd r = true) (rest 0%Z)) new /\
    NoDup (t_name <$> (ov ++ new)) /\
    (forall fs gdir b base, injected E D fd = Some (fs, gdir) -> fs_wf fs -> b ∈ f_binds fs ->
       bind_entry b = Some (gdir, base) ->
       base ∈ t_name <$> ov \/ d_has D base = true).
Proof.
  destruct (readdir_gave E D K rest fd Hok fuel calls Hst Hfuel 0 h ltac:(done) ltac:(done))
    as (anss & p' & Hr & _ & (A & B & ov & new & H1 & H2 & _ & H4 & H5 & _ & H7 & _ & H9)).
  assert (B = []) as -> by (destruct (H9 Hample) as [|]; [done|lia]).
  rewrite app_nil_r in H1. subst A. specialize (H7 Hample ds_start). subst ov.
  exists anss, p', new. cbv zeta. change (ov_of E D (injected E D fd) DENTS_BOUNCE) with (front E D fd 0 DENTS_BOUNCE).
  split_and!; try done.
  - eapply listing_nodup; try done. apply front_no_clash.
  - intros. by eapply front_mounts.
Qed.

(** *** A directory *)

Definition demo_lenv' : lenv :=
  LEnv genv0 (Some fs0) None false (fun _ => inl (-2)) (fun _ => Some (cs "/data/rootfs")).

(** The root directory of the rootfs, with the store and a file. *)
Definition demo_dir : list dent :=
  [mk_dent (cs ".") 2 4 1; mk_dent (cs "..") 2 4 2; mk_dent (cs ".l2s") 9 4 3;
   mk_dent (cs "notes") 7 8 4].

Definition demo_denv : denv :=
  DEnv true (fun fd => if fd =? 3 then Some (cs "/data/rootfs") else None)
    (fun n => bool_decide (n ∈ t_name <$> demo_dir)) (fun _ => Some (5, 16877)) (fun _ => None)
    (fun _ _ => true).

Definition demo_stack : cstr := replicate 32768 NUL.
Definition demo_calls : list dcall := replicate 5 (DCall 4096 400 demo_stack).
Definition demo_host : host := Host ∅ [] 100.

Lemma demo_dir_stream :
  dir_stream demo_denv (list_stream demo_denv demo_dir) (fun p => drop (Z.to_nat p) demo_dir).
Proof.
  apply list_dir_stream; [done|].
  repeat (constructor; [split; [repeat constructor|by vm_compute]|]). constructor.
Qed.

Lemma demo_dir_ok : dir_ok demo_lenv' demo_denv (fun p => drop (Z.to_nat p) demo_dir) 3.
Proof.
  split; [lia| |].
  - intros fs [= <-]. repeat constructor.
  - intros H. vm_compute in H. discriminate H.
Qed.

Lemma demo_stacks : Forall stack_ok demo_calls.
Proof. apply Forall_replicate. by vm_compute. Qed.

(** The names a guest reads there: the mount point, and no store. *)
Lemma demo_listing :
  (fun r => concat (a_out <$> fst r)) <$>
    readdir demo_lenv' demo_denv (list_stream demo_denv demo_dir) 4 3 demo_calls 0 demo_host
  = Some (encs [mk_dent (cs "sdcard") 5 4 0x7fffffff00000000; mk_dent (cs ".") 2 4 1;
                mk_dent (cs "..") 2 4 2; mk_dent (cs "notes") 7 8 4]).
Proof. vm_compute. reflexivity. Qed.

Lemma listing_refines_view_witness : exists anss p' ov new,
  readdir demo_lenv' demo_denv (list_stream demo_denv demo_dir) 4 3 demo_calls 0 demo_host
    = Some (anss, p') /\ length anss = 5%nat /\ concat (a_out <$> anss) = encs (ov ++ new).
Proof.
  destruct (listing_refines_view demo_lenv' demo_denv (list_stream demo_denv demo_dir) _ 3 4
              demo_calls demo_host demo_dir_stream demo_dir_ok demo_stacks ltac:(by vm_compute))
    as (anss & p' & A & B & ov & new & H1 & H2 & _ & _ & H3 & _).
  exists anss, p', ov, new. split_and!; [exact H1|exact H2|exact H3].
Defined.

Lemma listing_completes_witness : exists anss p' new,
  readdir demo_lenv' demo_denv (list_stream demo_denv demo_dir) 4 3 demo_calls 0 demo_host
    = Some (anss, p') /\
  concat (a_out <$> anss)
  = encs (ov_of demo_lenv' demo_denv (injected demo_lenv' demo_denv 3) DENTS_BOUNCE ++ new).
Proof.
  destruct (listing_completes demo_lenv' demo_denv (list_stream demo_denv demo_dir) _ 3 4
              demo_calls demo_host demo_dir_stream demo_dir_ok demo_stacks)
    as (anss & p' & new & H1 & _ & H2 & _).
  - by vm_compute.
  - apply Forall_replicate. split_and!; [done|done|]. intros r Hr.
    change (drop (Z.to_nat 0) demo_dir) with demo_dir in Hr. unfold demo_dir in Hr.
    repeat (apply elem_of_cons in Hr as [->|Hr]; [by vm_compute|]). by apply elem_of_nil in Hr.
  - vm_compute. lia.
  - intros r Hr. cbn [d_has demo_denv]. apply bool_decide_eq_true_2. by apply list_elem_of_fmap_2.
  - apply (bool_decide_unpack _). by vm_compute.
  - exists anss, p', new. split; [exact H1|exact H2].
Defined.
