(* ===== verification/Pin.v ===== *)
(** * Pinned host paths (src/src/monitor/pin.c)

    A host path is handed to the kernel as an open directory and one name
    against it, so that nothing the guest renames meanwhile moves the call.  The
    host's files are inodes; the guest changes them at will, so every system
    call finds a tree of its own: the trees are a list in the state, one for
    each call in turn, and nothing is assumed to relate one to the next.  A
    descriptor holds an inode.  What a call other than an open does is not
    computed but written to a log, with the place it was made on. *)

From Stdlib Require Import ZArith Ascii String Lia.
From S2P Require Import Prelude Path PathCanon PathFacts Fmt ProcStat Resolve L2sName.
From stdpp Require Import base numbers strings gmap list.

Open Scope Z_scope.

Definition ENOENT := 2.
Definition EBADF := 9.
Definition EACCES := 13.
Definition ENOTDIR := 20.
Definition EINVAL := 22.
Definition EMFILE := 24.
Definition ENAMETOOLONG := 36.
Definition ENOSYS := 38.
Definition ELOOP := 40.

Definition AT_FDCWD := -100.
Definition AT_SYMLINK_NOFOLLOW := 0x100.
Definition O_CREAT := 64.
Definition O_NOFOLLOW := 32768.

Definition S_IFMT := 61440.
Definition S_IFDIR := 16384.
Definition S_IFREG := 32768.
Definition S_IFLNK := 40960.

(** ** The host *)

Inductive body :=
  | BDir (ents : gmap cstr Z)
  | BLink (text : cstr)
  | BOther (fmt : Z).          (* S_IFREG and the like *)

Record inode := Inode { i_perm : Z; i_uid : Z; i_body : body }.

Definition tree : Type := gmap Z inode.

(** st_mode. *)
Definition mode_of (n : inode) : Z :=
  Z.lor (match i_body n with BDir _ => S_IFDIR | BLink _ => S_IFLNK | BOther f => Z.land f S_IFMT end)
        (Z.land (i_perm n) 4095).

Definition ents_of (t : tree) (d : Z) : option (gmap cstr Z) :=
  n ← t !! d; match i_body n with BDir e => Some e | _ => None end.

(** Where a call was made: a name against a directory (followed or not if it is
    a link), an open file through its /proc/self/fd link, or a path as it
    stands. *)
Inductive place :=
  | AtDir (d : Z) (name : cstr) (nofollow : bool)
  | AtInode (i : Z)
  | AtPath (path : cstr)
  | AtNone.

Inductive op :=
  | OpOpen (flags mode : Z)
  | OpStat (atflags : Z)
  | OpStatx (atflags mask : Z)
  | OpReadlink
  | OpSymlink (target : cstr)
  | OpRename (flags : Z) (to : place)
  | OpUnlink (flags : Z)
  | OpMkdir (mode : Z)
  | OpChmod (mode : Z).

(** The kernel: where a path leads that is walked with the links on it, what is
    refused of a lookup in a directory, the name of an open directory, the
    number a new descriptor gets, and the answer of a call in the log. *)
Record kern := Kern {
  k_walk : tree -> Z -> cstr -> Z + Z;
  k_deny : tree -> Z -> cstr -> Z;
  k_path : tree -> Z -> option cstr;
  k_newfd : tree -> gmap Z Z -> option Z;   (* [None]: no descriptor to be had *)
  k_call : tree -> op -> place -> Z;
  k_uid : Z }.

Record world := World {
  w_trees : list tree;
  w_fds : gmap Z Z;
  w_log : list (op * place) }.

Definition M (A : Type) : Type := world -> A * world.
Definition ret {A} (a : A) : M A := fun w => (a, w).
Definition mthen {A B} (m : M A) (k : A -> M B) : M B := fun w => let '(a, w) := m w in k a w.

Declare Scope pin_scope.
Notation "x <- m ;; k" := (mthen m (fun x => k)) (at level 65, m at next level, right associativity) : pin_scope.
Notation "m ;;; k" := (mthen m (fun _ => k)) (at level 65, right associativity) : pin_scope.
Open Scope pin_scope.

(** The tree the next call finds. *)
Definition tick : M tree := fun w =>
  match w_trees w with
  | [] => (∅, w)
  | [t] => (t, w)
  | t :: ts => (t, World ts (w_fds w) (w_log w))
  end.

Definition one_comp (p : cstr) : bool :=
  negb (length p =? 0)%nat && forallb not_slash p && negb (streq p [DOT]) && negb (streq p DOTDOT).

Section Pin.
Context (G : genv) (view : option cng_fs) (K : kern).

(** *** System calls *)

Definition new_fd (t : tree) (i : Z) : M Z := fun w =>
  match k_newfd K t (w_fds w) with
  | Some fd => (fd, World (w_trees w) (<[fd := i]> (w_fds w)) (w_log w))
  | None => (- EMFILE, w)
  end.

Definition sys_close (fd : Z) : M unit := fun w =>
  (tt, World (w_trees w) (delete fd (w_fds w)) (w_log w)).

Definition fd_inode (fd : Z) : M (option Z) := fun w => (w_fds w !! fd, w).

(** One name in a directory, a link there not followed. *)
Definition lookup_comp (t : tree) (d : Z) (name : cstr) (dir : bool) : Z + Z :=
  let e := k_deny K t d name in
  if e <? 0 then inl e
  else
    match ents_of t d with
    | None => inl (- ENOTDIR)
    | Some ents =>
        match ents !! name with
        | None => inl (- ENOENT)
        | Some i => if dir && negb (bool_decide (is_Some (ents_of t i))) then inl (- ENOTDIR) else inr i
        end
    end.

(** openat with O_PATH. *)
Definition open_path (dfd : Z) (path : cstr) (dir nofollow : bool) : M Z :=
  t <- tick ;;
  d <- fd_inode dfd ;;
  match d with
  | None => ret (- EBADF)
  | Some d =>
      let r := if nofollow && one_comp path then lookup_comp t d path dir else k_walk K t d path in
      match r with
      | inl e => ret (if e <? 0 then e else - EACCES)
      | inr i => new_fd t i
      end
  end.

(** st_mode and st_uid of an open file. *)
Definition sys_fstat (fd : Z) : M (option (Z * Z)) :=
  t <- tick ;;
  i <- fd_inode fd ;;
  ret (i ← i; n ← t !! i; Some (mode_of n, i_uid n)).

Definition fd_mode (fd : Z) : M Z :=
  s <- sys_fstat fd ;; ret (match s with Some (m, _) => m | None => 0 end).

Definition PROC_FD : cstr := cs "/proc/self/fd/".

Definition fd_link (fd : Z) (sz : nat) : cstr := take (sz - 1) (PROC_FD ++ dec fd).

(** The descriptor a /proc/self/fd link names. *)
Definition link_fd (p : cstr) : option Z :=
  if negb (strneq p PROC_FD (length PROC_FD)) then None
  else
    let d := drop (length PROC_FD) p in
    if (length d =? 0)%nat || negb (forallb is_dig d) then None else Some (read_dec id d).

Definition place_of (fds : gmap Z Z) (dfd : Z) (name : cstr) (nofollow : bool) : place :=
  match link_fd name with
  | Some fd => match fds !! fd with Some i => AtInode i | None => AtNone end
  | None =>
      if char_is name 0 SLASH then AtPath name
      else match fds !! dfd with Some d => AtDir d name nofollow | None => AtNone end
  end.

Definition call_at (o : op) (p : place) : M Z :=
  t <- tick ;;
  fun w => (k_call K t o p, World (w_trees w) (w_fds w) (w_log w ++ [(o, p)])).

(** A call on a name; [nofollow] when its flags say so. *)
Definition sys_at (o : op) (dfd : Z) (name : cstr) (nofollow : bool) : M Z := fun w =>
  call_at o (place_of (w_fds w) dfd name nofollow) w.

(** *** Which directories are the host's *)

Definition under_proc (h : cstr) : bool := strneq h (cs "/proc") 5 && at_boundary h 5.

Definition dev_node_itself (h : cstr) : bool :=
  negb (g_no_dev G) && existsb (fun nd => streq h (snd nd)) (cng_dev_nodes G).

Definition pin_under (h pfx : cstr) (len : nat) : bool := strneq h pfx len && at_boundary h len.

Definition longer (h : cstr) (best : nat * cstr) (pfx : cstr) (len : nat) : nat * cstr :=
  if (fst best <? len)%nat && pin_under h pfx len then (length pfx, pfx) else best.

(** The prefix found, [] for none. *)
Definition prefix_of (h : cstr) (sz : nat) : cstr :=
  let best :=
    match view with
    | None => (0%nat, [])
    | Some fs =>
        let best := if negb (f_rlen fs =? 0)%nat && pin_under h (f_rootfs fs) (f_rlen fs)
                    then (length (f_rootfs fs), f_rootfs fs) else (0%nat, []) in
        foldl (fun best b => longer h best (b_host b) (b_hlen b)) best (f_binds fs)
    end in
  let best :=
    if g_no_dev G then best
    else foldl (fun best nd => if under_proc (snd nd) then best
                               else longer h best (snd nd) (length (snd nd))) best (cng_dev_nodes G) in
  if (sz <=? fst best)%nat then [] else take (sz - 1) (snd best).

(** *** The descriptor walk *)

Definition skip_slashes (p : cstr) : cstr := drop_while is_slash p.

Fixpoint walk_comps (fuel : nat) (cur : Z) (rest : cstr) : M Z :=
  match fuel with
  | O => ret cur
  | S fuel =>
      match skip_slashes rest with
      | [] => ret cur
      | r =>
          let comp := take_while not_slash r in
          if (256 <=? length comp)%nat then sys_close cur ;;; ret (- ENAMETOOLONG)
          else
            nx <- open_path cur comp true true ;;
            nx <- (if nx =? - ENOTDIR then
                     t <- tick ;;
                     d <- fd_inode cur ;;
                     ret (match d with
                          | Some d =>
                              match lookup_comp t d comp false with
                              | inr i => match t !! i with
                                         | Some n => if Z.land (mode_of n) S_IFMT =? S_IFLNK then - ELOOP else nx
                                         | None => nx
                                         end
                              | inl _ => nx
                              end
                          | None => nx
                          end)
                   else ret nx) ;;
            sys_close cur ;;;
            if nx <? 0 then ret nx else walk_comps fuel nx (drop_while not_slash r)
      end
  end.

Definition walk_dir (dir : cstr) : M Z :=
  let pfx := prefix_of dir CNG_PATH_MAX in
  cur <- open_path AT_FDCWD (if (length pfx =? 0)%nat then [SLASH] else pfx) true false ;;
  if cur <? 0 then ret cur else walk_comps (S (length dir)) cur (drop (length pfx) dir).

(** *** Pins *)

Record cng_pin := CngPin {
  p_dfd : Z;
  p_own : bool;
  p_pinned : bool;
  p_want_dir : bool;
  p_leaf : Z;
  p_name : cstr;
  p_link : cstr }.

(** The path's last component (with a slash, where one asks for a directory)
    and the directory before it; [None] for the root. *)
Definition strip_slashes (p : cstr) : cstr := reverse (drop_while is_slash (reverse p)).

Definition split_path (path : cstr) : option (cstr * cstr * bool) :=
  let body := strip_slashes path in
  let want := negb (length body =? length path)%nat in
  match body with
  | [] => None
  | _ =>
      let comp := reverse (take_while not_slash (reverse body)) in
      let cut := (length body - length comp)%nat in
      Some (comp ++ (if want then [SLASH] else []),
            take (if (1 <? cut)%nat then cut - 1 else 1) path, want)
  end.

Definition cng_pin_at (dirfd : Z) (path : cstr) : M (Z * cng_pin) :=
  let p := CngPin dirfd false false false (-1) path [] in
  if (length path =? 0)%nat then ret (0, p)
  else if negb (char_is path 0 SLASH) then
    ret (0, CngPin dirfd false true (char_is path (length path - 1) SLASH) (-1) path [])
  else if (length path =? 1)%nat || under_proc path || dev_node_itself path then ret (0, p)
  else
    match split_path path with
    | None => ret (0, CngPin dirfd false false true (-1) path [])
    | Some (name, dir, want) =>
        let p := CngPin dirfd false false want (-1) path [] in
        if (CNG_PATH_MAX <? length name + 1 + (if want then 0 else 1))%nat
        then ret (- ENAMETOOLONG, p)
        else
          fd <- open_path AT_FDCWD dir true false ;;
          if fd <? 0 then ret (fd, p)
          else
            t <- tick ;;
            i <- fd_inode fd ;;
            let real := r ← (i ← i; k_path K t i); Some (take (CNG_PATH_MAX - 1) r) in
            fd <- (if bool_decide (real = Some dir) && negb (length dir =? 0)%nat then ret fd
                   else sys_close fd ;;; walk_dir dir) ;;
            if fd <? 0 then ret (fd, p)
            else ret (0, CngPin fd true true want (-1) name [])
    end.

Definition cng_pin_leaf (p : cng_pin) (need_dir : bool) : M (Z * cng_pin) :=
  if negb (p_pinned p) || (0 <=? p_leaf p) then ret (- EINVAL, p)
  else if (CNG_PATH_MAX <=? length (p_name p))%nat then ret (- ENAMETOOLONG, p)
  else
    let nm := match strip_slashes (p_name p) with [] => take 1 (p_name p) | s => s end in
    fd <- open_path (p_dfd p) nm false true ;;
    if fd <? 0 then ret (fd, p)
    else
      m <- fd_mode fd ;;
      let m := Z.land m S_IFMT in
      if m =? S_IFLNK then sys_close fd ;;; ret (- ELOOP, p)
      else if (need_dir || p_want_dir p) && negb (m =? S_IFDIR) then sys_close fd ;;; ret (- ENOTDIR, p)
      else ret (0, CngPin (p_dfd p) (p_own p) (p_pinned p) (p_want_dir p) fd (p_name p) (fd_link fd 32)).

(** [None] for -1. *)
Definition cng_pin_spell (p : cng_pin) (sz : nat) : option cstr :=
  let whole := if (length (p_name p) <? sz)%nat then Some (p_name p) else None in
  if negb (p_pinned p) || (p_dfd p <? 0) then whole
  else
    let s := PROC_FD ++ dec (p_dfd p) ++ SLASH :: p_name p in
    if (length s <? sz)%nat then Some s else None.

Definition cng_unpin (p : cng_pin) : M unit :=
  (if 0 <=? p_leaf p then sys_close (p_leaf p) else ret tt) ;;;
  (if p_own p && (0 <=? p_dfd p) then sys_close (p_dfd p) else ret tt).

(** *** One call on a host path *)

Definition cng_pin_open (host : cstr) (flags mode : Z) : M Z :=
  rp <- cng_pin_at AT_FDCWD host ;;
  let '(r, p) := rp in
  rp <- (if negb (r =? 0) then ret (r, p)
         else if negb (p_pinned p) then
           r <- sys_at (OpOpen flags mode) AT_FDCWD (p_name p) (negb (Z.land flags O_NOFOLLOW =? 0)) ;;
           ret (r, p)
         else if p_want_dir p && (Z.land flags O_CREAT =? 0) then
           rp <- cng_pin_leaf p true ;;
           let '(r, p) := rp in
           if r =? 0 then
             let flags := Z.land flags (Z.lnot O_NOFOLLOW) in
             r <- sys_at (OpOpen flags mode) AT_FDCWD (p_link p) false ;; ret (r, p)
           else ret (r, p)
         else
           r <- sys_at (OpOpen (Z.lor flags O_NOFOLLOW) mode) (p_dfd p) (p_name p) true ;; ret (r, p)) ;;
  let '(r, p) := rp in
  cng_unpin p ;;; ret r.

(** The form of a stat: the flags, the descriptor and the name to use. *)
Definition stat_form (host : cstr) (atflags : Z) : M (Z * cng_pin * (Z * Z * cstr)) :=
  rp <- cng_pin_at AT_FDCWD host ;;
  let '(r, p) := rp in
  if negb (r =? 0) then ret (r, p, (atflags, 0, []))
  else if negb (p_pinned p) then ret (0, p, (atflags, p_dfd p, p_name p))
  else if p_want_dir p then
    rp <- cng_pin_leaf p true ;;
    let '(r, p) := rp in
    if negb (r =? 0) then ret (r, p, (atflags, 0, []))
    else ret (0, p, (Z.land atflags (Z.lnot AT_SYMLINK_NOFOLLOW), AT_FDCWD, p_link p))
  else ret (0, p, (Z.lor atflags AT_SYMLINK_NOFOLLOW, p_dfd p, p_name p)).

Definition nofollow_of (atflags : Z) : bool := negb (Z.land atflags AT_SYMLINK_NOFOLLOW =? 0).

Definition cng_pin_fstatat (host : cstr) (atflags : Z) : M Z :=
  x <- stat_form host atflags ;;
  let '(r, p, (atflags, dfd, name)) := x in
  r <- (if r =? 0 then sys_at (OpStat atflags) dfd name (nofollow_of atflags) else ret r) ;;
  cng_unpin p ;;; ret r.

(** [blocked] is cng_blocked[__NR_statx]. *)
Definition cng_pin_statx (blocked : bool) (host : cstr) (atflags mask : Z) : M Z :=
  if blocked then ret (- ENOSYS)
  else
    x <- stat_form host atflags ;;
    let '(r, p, (atflags, dfd, name)) := x in
    r <- (if r =? 0 then sys_at (OpStatx atflags mask) dfd name (nofollow_of atflags) else ret r) ;;
    cng_unpin p ;;; ret r.

(** The calls that never follow their last component. *)
Definition pin_plain (host : cstr) (o : op) : M Z :=
  rp <- cng_pin_at AT_FDCWD host ;;
  let '(r, p) := rp in
  r <- (if r =? 0 then sys_at o (p_dfd p) (p_name p) true else ret r) ;;
  cng_unpin p ;;; ret r.

Definition cng_pin_readlink (host : cstr) : M Z := pin_plain host OpReadlink.
Definition cng_pin_symlink (target host : cstr) : M Z := pin_plain host (OpSymlink target).
Definition cng_pin_unlink (host : cstr) (flags : Z) : M Z := pin_plain host (OpUnlink flags).
Definition cng_pin_mkdir (host : cstr) (mode : Z) : M Z := pin_plain host (OpMkdir mode).

Definition cng_pin_rename (from to : cstr) (flags : Z) : M Z :=
  rp <- cng_pin_at AT_FDCWD from ;;
  let '(r, a) := rp in
  r <- (if r =? 0 then
          rp <- cng_pin_at AT_FDCWD to ;;
          let '(r, b) := rp in
          r <- (if r =? 0 then fun w =>
                  sys_at (OpRename flags (place_of (w_fds w) (p_dfd b) (p_name b) true))
                         (p_dfd a) (p_name a) true w
                else ret r) ;;
          cng_unpin b ;;; ret r
        else ret r) ;;
  cng_unpin a ;;; ret r.
End Pin.
