(* ===== verification/PinProps.v ===== *)
(** * Pinned paths: no call leaves the view, and no descriptor is left open

    The guest may change its files between any two system calls of the monitor.
    What it cannot do is put a directory of the host's into its own view, or
    replace the directories the view hangs from. *)

From Stdlib Require Import ZArith Ascii String Lia.
From S2P Require Import Prelude Path PathCanon PathFacts Fmt FmtProps ProcStat Resolve L2sName Pin.
From stdpp Require Import base numbers strings gmap list.

Open Scope Z_scope.

(** A walk through directories, by names alone. *)
Fixpoint dir_walk (t : tree) (d : Z) (cs : list cstr) : option Z :=
  match cs with
  | [] => Some d
  | c :: cs => ents ← ents_of t d; i ← ents !! c; dir_walk t i cs
  end.

Lemma dir_walk_app t cs1 : forall d cs2,
  dir_walk t d (cs1 ++ cs2) = (i ← dir_walk t d cs1; dir_walk t i cs2).
Proof.
  induction cs1 as [|c cs1 IH]; intros d cs2; cbn [dir_walk app]; [done|].
  destruct (ents_of t d) as [ents|]; [|done]. cbn [mbind option_bind].
  destruct (ents !! c); [|done]. cbn [mbind option_bind]. apply IH.
Qed.

(** The numbers of descriptors. *)
Definition fd_ok (fd : Z) : Prop := 0 <= fd < 2 ^ 31.

Ltac flia := unfold fd_ok in *; lia.

Section Props.
Context (G : genv) (view : option cng_fs) (K : kern) (root : Z).

(** The directories the view hangs from: the rootfs, the sources of the binds,
    the directories behind the device nodes. *)
Definition host_prefix (s : cstr) : Prop :=
  (exists fs, view = Some fs /\ (s = f_rootfs fs \/ s ∈ b_host <$> f_binds fs)) \/
  (g_no_dev G = false /\ s ∈ snd <$> cng_dev_nodes G /\ under_proc s = false).

(** What the kernel's answers mean: a new descriptor is one that was free, and
    the name of an open directory is the path it is at, or was at before it was
    removed. *)
Record kern_ok : Prop := KernOk {
  ko_newfd : forall t fds fd, k_newfd K t fds = Some fd -> fd_ok fd /\ fds !! fd = None;
  ko_path : forall t i p, k_path K t i = Some p ->
    (exists cs, p = render cs /\ Forall normal_comp cs /\ dir_walk t root cs = Some i) \/
    (exists q, p = q ++ cs " (deleted)") }.

(** The inodes of the guest's view, in a tree the guest may have made: what is in
    a directory of the view is in the view, and the prefixes lead there. *)
Context (V : Z -> Prop).

Record view_ok (t : tree) : Prop := ViewOk {
  vo_closed : forall d ents c i, V d -> ents_of t d = Some ents -> ents !! c = Some i -> V i;
  vo_prefix : forall s d i, host_prefix s -> k_walk K t d s = inr i -> V i;
  vo_at : forall cs i, host_prefix (render cs) -> dir_walk t root cs = Some i -> V i }.

Definition ok (w : world) : Prop := w_trees w <> [] /\ Forall view_ok (w_trees w).

Context (HK : kern_ok).

Lemma tick_ok w : ok w -> exists t w', tick w = (t, w') /\ view_ok t /\ ok w' /\
  w_fds w' = w_fds w /\ w_log w' = w_log w.
Proof.
  intros [Hn Hf]. unfold tick. destruct (w_trees w) as [|t [|t' ts]] eqn:E; [done|..].
  - exists t, w. inv Hf. split_and!; try done. split; rewrite E; [done|by constructor].
  - inv Hf. eexists _, _. split_and!; try done.
Qed.

Lemma walk_inside t cs : view_ok t -> forall d i, V d -> dir_walk t d cs = Some i -> V i.
Proof.
  intros Ht. induction cs as [|c cs IH]; intros d i Hd H; cbn [dir_walk] in H; [by injection H as <-|].
  destruct (ents_of t d) as [ents|] eqn:E; [|done]. cbn [mbind option_bind] in H.
  destruct (ents !! c) as [j|] eqn:Ej; [|done]. cbn [mbind option_bind] in H.
  apply (IH j); [|done]. by apply (vo_closed t Ht d ents c).
Qed.

(** *** Opens *)

(** A name against a directory of the view, or a path that leads into it. *)
Definition leads (fds : gmap Z Z) (dfd : Z) (path : cstr) (nofollow : bool) : Prop :=
  (nofollow = true /\ one_comp path = true /\ exists d, fds !! dfd = Some d /\ V d) \/
  (nofollow && one_comp path = false /\ host_prefix path).

Lemma open_path_spec dfd path dir nofollow w :
  ok w -> exists r w', open_path K dfd path dir nofollow w = (r, w') /\ ok w' /\ w_log w' = w_log w /\
  ((r < 0 /\ w_fds w' = w_fds w) \/
   (exists i, fd_ok r /\ w_fds w !! r = None /\ w_fds w' = <[r := i]> (w_fds w) /\
      (leads (w_fds w) dfd path nofollow -> V i))).
Proof.
  intros Hw. unfold open_path, mthen. destruct (tick_ok w Hw) as (t & w1 & -> & Ht & Hw1 & F1 & L1).
  unfold fd_inode. destruct (w_fds w1 !! dfd) as [d|] eqn:Ed.
  2: { eexists _, _. split; [done|]. split_and!; [done|done|]. left. split; [unfold EBADF; flia|done]. }
  destruct (if nofollow && one_comp path then _ else _) as [e|i] eqn:Er.
  { eexists _, _. split; [done|]. split_and!; [done|done|]. left.
    split; [|done]. destruct (Z.ltb_spec e 0); unfold EACCES; flia. }
  unfold new_fd. destruct (k_newfd K t (w_fds w1)) as [fd|] eqn:En.
  2: { eexists _, _. split; [done|]. split_and!; [done|done|]. left. split; [unfold EMFILE; lia|done]. }
  destruct (ko_newfd HK _ _ _ En) as [N1 N2]. eexists _, _. split; [done|].
  rewrite F1 in *. split_and!; [done|done|]. right. exists i. split_and!; [done|done|done|].
  intros [(-> & Hc & d' & Ed' & Hd)|[Hc Hp]].
  - rewrite Hc in Er. cbn [andb] in Er. rewrite Ed in Ed'. injection Ed' as <-.
    unfold lookup_comp in Er. case_if_in Er; [done|]. destruct (ents_of t d) as [ents|] eqn:Ee; [|done].
    destruct (ents !! path) as [j|] eqn:Ej; [|done]. case_if_in Er; [done|]. injection Er as <-.
    by apply (vo_closed t Ht d ents path).
  - rewrite Hc in Er. by apply (vo_prefix t Ht path d).
Qed.

(** *** The prefix of a directory *)

Definition is_prefix_of (h s : cstr) : Prop := pin_under h s (length s) = true.

Definition best_ok (h : cstr) (best : nat * cstr) : Prop :=
  best = (0%nat, []) \/
  (fst best = length (snd best) /\ (0 < fst best)%nat /\ host_prefix (snd best) /\ is_prefix_of h (snd best)).

Lemma longer_ok h best pfx len :
  best_ok h best -> len = length pfx -> host_prefix pfx ->
  best_ok h (longer h best pfx len) /\ (fst best <= fst (longer h best pfx len))%nat /\
  (is_prefix_of h pfx -> (length pfx <= fst (longer h best pfx len))%nat).
Proof.
  intros Hb -> Hp. unfold longer, is_prefix_of. destruct (_ <? _)%nat eqn:E1; cbn [andb].
  - apply Nat.ltb_lt in E1. destruct (pin_under _ _ _) eqn:E2; cbn [fst].
    + split_and!; [|flia|done]. right. cbn [fst snd]. split_and!; [done|flia|done|done].
    + split_and!; [done|done|done].
  - apply Nat.ltb_ge in E1. split_and!; [done|done|flia].
Qed.

(** Prefixes tried one after the other. *)
Lemma fold_longer {A} (f : A -> cstr) (g : A -> nat) (skip : A -> bool) h l : forall best,
  best_ok h best ->
  Forall (fun x => skip x = false -> g x = length (f x) /\ host_prefix (f x)) l ->
  let best' := foldl (fun best x => if skip x then best else longer h best (f x) (g x)) best l in
  best_ok h best' /\ (fst best <= fst best')%nat /\
  Forall (fun x => skip x = false -> is_prefix_of h (f x) -> (length (f x) <= fst best')%nat) l.
Proof.
  induction l as [|x l IH]; intros best Hb Hl; cbn [foldl]; [by split_and!|].
  apply Forall_cons in Hl as [Hx Hl].
  set (b1 := if skip x then best else longer h best (f x) (g x)).
  assert (H1 : best_ok h b1 /\ (fst best <= fst b1)%nat /\
               (skip x = false -> is_prefix_of h (f x) -> (length (f x) <= fst b1)%nat)).
  { subst b1. destruct (skip x); [by split_and!|]. destruct (Hx eq_refl) as [Hg Hp].
    destruct (longer_ok h best (f x) (g x) Hb Hg Hp) as (? & ? & ?). by split_and!. }
  destruct H1 as (B1 & L1 & P1). destruct (IH b1 B1 Hl) as (B2 & L2 & P2). cbv zeta in *.
  split_and!; [done|flia|]. constructor; [|done]. intros Hs Hp. specialize (P1 Hs Hp). flia.
Qed.

(** The view is well formed, and the paths of the device nodes are short. *)
Context (Hview : forall fs, view = Some fs -> fs_wf fs).
Context (Hdev : Forall (fun nd : cstr * cstr => (length (snd nd) < CNG_PATH_MAX)%nat) (cng_dev_nodes G)).

Lemma host_prefix_short s : host_prefix s -> (length s < CNG_PATH_MAX)%nat.
Proof.
  intros [(fs & Hv & Hs)|(_ & Hs & _)].
  - destruct (Hview fs Hv) as [_ Hr _ Hb _ _ _ _]. unfold HOST_SZ, CNG_PATH_MAX in *.
    destruct Hs as [->|Hs]; [flia|]. apply list_elem_of_fmap in Hs as (b & -> & Hbs).
    eapply Forall_forall in Hb; [|exact Hbs]. pose proof (bw_hsz b Hb). unfold HOST_SZ in *. flia.
  - apply list_elem_of_fmap in Hs as (nd & -> & Hs). by eapply Forall_forall in Hdev.
Qed.

(** Before the device nodes. *)
Lemma mounts_best h fs : view = Some fs ->
  let best := if negb (f_rlen fs =? 0)%nat && pin_under h (f_rootfs fs) (f_rlen fs)
              then (length (f_rootfs fs), f_rootfs fs) else (0%nat, []) in
  best_ok h best /\ (f_rootfs fs <> [] -> is_prefix_of h (f_rootfs fs) -> (length (f_rootfs fs) <= fst best)%nat).
Proof.
  intros Hv. pose proof (fw_rlen fs (Hview fs Hv)) as Hr. cbv zeta. rewrite Hr. unfold is_prefix_of.
  destruct (length (f_rootfs fs) =? 0)%nat eqn:E0; cbn [negb andb].
  - split; [by left|]. intros Hn. destruct (f_rootfs fs); done.
  - apply Nat.eqb_neq in E0. destruct (pin_under _ _ _) eqn:E1; [|by split; [left|]].
    split; [|done]. right. cbn [fst snd]. split_and!; [done|flia| |done]. left. exists fs. auto.
Qed.

Lemma prefix_of_spec h s0 :
  host_prefix s0 -> s0 <> [] -> is_prefix_of h s0 ->
  let s := prefix_of G view h CNG_PATH_MAX in
  host_prefix s /\ is_prefix_of h s /\ s <> [].
Proof.
  intros H0 N0 P0. unfold prefix_of.
  set (b1 := match view with Some _ => _ | None => _ end).
  assert (H1 : best_ok h b1 /\
    forall fs, view = Some fs -> (s0 = f_rootfs fs \/ s0 ∈ b_host <$> f_binds fs) -> (length s0 <= fst b1)%nat).
  { subst b1. assert (Hd : view = None \/ exists fs, view = Some fs) by (destruct view; eauto).
    destruct Hd as [Ev|[fs Ev]]; rewrite Ev; [by split; [left|]|].
    destruct (mounts_best h fs Ev) as [B1 R1]. cbv zeta in B1, R1.
    pose proof (fw_binds fs (Hview fs Ev)) as Hb.
    destruct (fold_longer b_host b_hlen (fun _ => false) h (f_binds fs) _ B1) as (B2 & L2 & P2).
    { apply Forall_forall. intros b Hbs _. eapply Forall_forall in Hb; [|exact Hbs]. split; [apply bw_hlen, Hb|].
      left. exists fs. split; [done|right]. by apply list_elem_of_fmap_2. }
    cbv zeta in *. split; [exact B2|]. intros fs' Ev' Hs. injection Ev' as <-.
    destruct Hs as [->|(b & -> & Hbs)%list_elem_of_fmap]; [specialize (R1 N0 P0); flia|].
    eapply Forall_forall in P2; [|exact Hbs]. by apply P2. }
  destruct H1 as [B1 P1]. clearbody b1.
  set (b2 := if g_no_dev G then b1 else _).
  assert (H2 : best_ok h b2 /\ (length s0 <= fst b2)%nat).
  { subst b2. destruct (g_no_dev G) eqn:Eg.
    - split; [done|]. destruct H0 as [(fs & Hv & Hs)|[? _]]; [by apply (P1 fs)|congruence].
    - destruct (fold_longer snd (fun nd : cstr * cstr => length (snd nd)) (fun nd => under_proc (snd nd)) h
                  (cng_dev_nodes G) b1 B1) as (B2 & L2 & P2).
      { apply Forall_forall. intros nd Hnd Hu. split; [done|]. right.
        split_and!; [done|by apply list_elem_of_fmap_2|done]. }
      cbv zeta in *. split; [exact B2|]. destruct H0 as [(fs & Hv & Hs)|(_ & Hs & Hu)].
      + specialize (P1 fs Hv Hs). flia.
      + apply list_elem_of_fmap in Hs as (nd & -> & Hnd).
        eapply Forall_forall in P2; [|exact Hnd]. by apply P2. }
  destruct H2 as [B2 P2]. clearbody b2. destruct B2 as [->|(E2 & L2 & Hp & Hi)].
  { destruct s0; [done|]. simpl in P2. flia. }
  pose proof (host_prefix_short _ Hp) as Hl. cbv zeta.
  rewrite (proj2 (Nat.leb_gt _ _)) by flia. rewrite take_ge by flia.
  split_and!; [done|done|]. intros Hn. rewrite Hn in E2. simpl in E2. flia.
Qed.

(** *** The descriptor walk *)

(** A descriptor opened on top of [fds], or none. *)
Definition opened (fds : gmap Z Z) (r : Z) (w : world) (P : Z -> Prop) : Prop :=
  (r < 0 /\ w_fds w = fds) \/
  (exists i, fd_ok r /\ fds !! r = None /\ w_fds w = <[r := i]> fds /\ P i).

Lemma normal_one_comp c : normal_comp c -> one_comp c = true.
Proof.
  intros (H1 & H2 & H3 & H4). unfold one_comp.
  rewrite (proj2 (Nat.eqb_neq _ _)) by (by destruct c).
  replace (forallb not_slash c) with true.
  2: { symmetry. apply forallb_forall. intros x Hx. eapply Forall_forall in H4; [exact H4|].
       by apply list_elem_of_In. }
  unfold streq. rewrite !bool_decide_eq_false_2 by done. done.
Qed.

(** The look at a name that is not a directory. *)
Lemma recheck_spec cur comp nx w : ok w ->
  exists r w', (if nx =? - ENOTDIR then
     t <- tick ;;
     d <- fd_inode cur ;;
     ret (match d with
          | Some d =>
              match lookup_comp K t d comp false with
              | inr i => match t !! i with
                         | Some n => if Z.land (mode_of n) S_IFMT =? S_IFLNK then - ELOOP else nx
                         | None => nx
                         end
              | inl _ => nx
              end
          | None => nx
          end)
   else ret nx) w = (r, w') /\ ok w' /\ w_log w' = w_log w /\ w_fds w' = w_fds w /\
  (r = nx \/ (r < 0 /\ nx < 0)).
Proof.
  intros Hw. destruct (Z.eqb_spec nx (- ENOTDIR)) as [->|]; [|by eexists _, _; split_and!; eauto].
  unfold mthen. destruct (tick_ok w Hw) as (t & w1 & -> & _ & Hw1 & F1 & L1).
  unfold fd_inode, ret. eexists _, _. split; [done|]. split_and!; [done|done|done|].
  repeat case_match; auto. right. unfold ELOOP, ENOTDIR. flia.
Qed.

Lemma walk_comps_spec fuel : forall cur rest w i fds,
  ok w -> w_fds w = <[cur := i]> fds -> fds !! cur = None -> fd_ok cur ->
  exists r w', walk_comps K fuel cur rest w = (r, w') /\ ok w' /\ w_log w' = w_log w /\
  opened fds r w' (fun j => (exists cs, rest = render cs /\ Forall normal_comp cs) -> V i -> V j).
Proof.
  induction fuel as [|fuel IH]; intros cur rest w i fds Hw Hf Hc Hp; cbn [walk_comps].
  { exists cur, w. split_and!; try done. right. exists i. auto. }
  destruct (skip_slashes rest) as [|c0 r0] eqn:Es.
  { exists cur, w. split_and!; try done. right. exists i. auto. }
  set (rr := c0 :: r0) in *. assert (Hrr : rr <> []) by done. clearbody rr. set (comp := take_while not_slash rr).
  assert (Hdel : forall w0, w_fds w0 = <[cur := i]> fds -> delete cur (w_fds w0) = fds).
  { intros w0 ->. rewrite delete_insert_eq. by apply delete_id. }
  destruct (256 <=? length comp)%nat.
  { unfold mthen, sys_close. eexists _, _. split; [done|]. split_and!; [done|done|].
    left. cbn [w_fds]. split; [unfold ENAMETOOLONG; flia|by apply Hdel]. }
  unfold mthen at 1. destruct (open_path_spec cur comp true true w Hw) as (nx & w1 & -> & Hw1 & L1 & O1).
  unfold mthen at 1. destruct (recheck_spec cur comp nx w1 Hw1) as (nx2 & w2 & -> & Hw2 & L2 & F2 & R2).
  unfold mthen, sys_close. destruct O1 as [[Hn F1]|(j & Hn & Hfr & F1 & Hj)].
  - rewrite (proj2 (Z.ltb_lt _ _)) by flia. eexists _, _. split; [done|].
    split_and!; [done|cbn [w_log]; congruence|]. left. cbn [w_fds]. split; [flia|]. apply Hdel. congruence.
  - assert (nx2 = nx) as -> by flia. rewrite (proj2 (Z.ltb_ge _ _)) by flia.
    rewrite Hf in Hfr, F1. apply lookup_insert_None in Hfr as [Hfr Hne].
    destruct (IH nx (drop_while not_slash rr) (World (w_trees w2) (delete cur (w_fds w2)) (w_log w2)) j fds)
      as (r & w3 & E3 & Hw3 & L3 & O3); [done| |done|done|].
    { cbn [w_fds]. rewrite F2, F1, delete_insert_ne, delete_insert_eq by done. by rewrite delete_id. }
    exists r, w3. split; [exact E3|]. split_and!; [done|cbn [w_log] in L3; congruence|].
    destruct O3 as [O3|(k & ? & ? & ? & Hk)]; [by left|right]. exists k. split_and!; [done|done|done|].
    intros (cs & -> & Hcs) Vi. destruct cs as [|c cs]; [by rewrite <-Es in Hrr|]. apply Forall_cons in Hcs as [Hc1 Hcs].
    pose proof Hc1 as (N1 & _ & _ & N2).
    assert (Er : rr = c ++ render cs).
    { rewrite <-Es. unfold skip_slashes.
      change (render (c :: cs)) with (SLASH :: c ++ render cs).
      destruct c as [|c1 c]; [done|]. apply Forall_cons in N2 as [N2 _].
      unfold not_slash in N2. apply negb_true_iff in N2.
      cbn [drop_while app]. change (is_slash SLASH) with true. cbv iota. by rewrite N2. }
    assert (Ht : take_while not_slash (render cs) = [] /\ drop_while not_slash (render cs) = render cs)
      by (by destruct cs).
    destruct Ht as [Ht1 Ht2].
    assert (Ec : comp = c) by (unfold comp; rewrite Er, take_while_app, Ht1, app_nil_r; done).
    apply Hk; [exists cs; rewrite Er, drop_while_app, Ht2 by done; done|].
    apply Hj. left. rewrite Ec. split_and!; [done|by apply normal_one_comp|].
    exists i. split; [rewrite Hf; apply lookup_insert_eq|done].
Qed.

(** A part of a path that ends at a component boundary is some of its
    components. *)
Lemma render_boundary st : Forall slash_free st -> forall s r,
  render st = s ++ r -> (r = [] \/ exists r', r = SLASH :: r') ->
  exists k, s = render (take k st) /\ r = render (drop k st).
Proof.
  induction 1 as [|c st Hc _ IH]; intros s r H Hr.
  { symmetry in H. apply app_eq_nil in H as [-> ->]. by exists 0%nat. }
  change (render (c :: st)) with (SLASH :: c ++ render st) in H.
  destruct s as [|x s]; [exists 0%nat; split; [done|by symmetry]|]. cbn [app] in H. injection H as <- H.
  assert (Hl : (length c <= length s)%nat).
  { destruct (Nat.le_gt_cases (length c) (length s)) as [|Hlt]; [done|exfalso].
    apply (f_equal (drop (length s))) in H. rewrite drop_app_le, drop_app_length in H by flia.
    destruct (drop (length s) c) as [|y cc] eqn:Ed; [apply (f_equal length) in Ed; rewrite length_drop in Ed; simpl in Ed; flia|].
    destruct Hr as [->|[r' ->]]; [done|]. injection H as -> _.
    assert (Hs : not_slash SLASH = true); [|by rewrite not_slash_SLASH in Hs].
    eapply Forall_forall in Hc; [exact Hc|]. rewrite <-(take_drop (length s) c), Ed.
    apply elem_of_app. right. left. }
  assert (Es : s = c ++ drop (length c) s).
  { rewrite <-(take_drop (length c) s) at 1. f_equal. apply (f_equal (take (length c))) in H.
    by rewrite take_app_length, take_app_le in H by flia. }
  rewrite Es, <-app_assoc in H. apply app_inv_head in H.
  destruct (IH _ _ H Hr) as (k & H1 & H2). exists (S k). cbn [take drop].
  change (render (c :: take k st)) with (SLASH :: c ++ render (take k st)). rewrite <-H1, <-Es. done.
Qed.

(** A directory of the view: below a prefix, by plain names. *)
Definition inside_dir (dir : cstr) : Prop :=
  exists pc cs', dir = render (pc ++ cs') /\ Forall normal_comp (pc ++ cs') /\ pc <> [] /\
    host_prefix (render pc) /\ (length dir < CNG_PATH_MAX - 1)%nat /\ (forall q, dir <> q ++ cs " (deleted)").

Lemma inside_prefix dir : inside_dir dir ->
  let s := prefix_of G view dir CNG_PATH_MAX in
  host_prefix s /\ s <> [] /\ exists cs', Forall normal_comp cs' /\ drop (length s) dir = render cs'.
Proof.
  intros (pc & cs' & -> & Hn & Hp & Hh & _).
  assert (Hi : is_prefix_of (render (pc ++ cs')) (render pc)).
  { unfold is_prefix_of, pin_under. apply under_spec. exists (render cs'). rewrite render_app.
    split; [done|]. destruct cs' as [|c cs']; [by left|right].
    by exists (c ++ render cs'). }
  assert (Hne : render pc <> []) by (intros E; by apply render_nil_inv in E).
  destruct (prefix_of_spec _ _ Hh Hne Hi) as (H1 & H2 & H3). cbv zeta.
  set (s := prefix_of _ _ _ _) in *. clearbody s. split_and!; [done|done|].
  unfold is_prefix_of, pin_under in H2. apply under_spec in H2 as (r & Er & Hr).
  destruct (render_boundary (pc ++ cs') (normal_slash_free _ Hn) s r Er Hr) as (k & _ & E2).
  exists (drop k (pc ++ cs')). split; [by apply Forall_drop|]. rewrite Er, drop_app_length. done.
Qed.

(** An agreeing name says where the directory is. *)
Lemma named_inside t i dir : view_ok t -> inside_dir dir -> k_path K t i = Some dir -> V i.
Proof.
  intros Ht (pc & cs' & -> & Hn & Hp & Hh & _ & Hd) Hk.
  destruct (ko_path HK t i _ Hk) as [(cs2 & E & Hn2 & Hw)|(q & E)]; [|by apply Hd in E].
  rewrite render_app in E.
  destruct (render_boundary cs2 (normal_slash_free _ Hn2) (render pc) (render cs') (eq_sym E)) as (k & E1 & _).
  { destruct cs' as [|c cs']; [by left|right]. by exists (c ++ render cs'). }
  rewrite <-(take_drop k cs2), dir_walk_app in Hw.
  destruct (dir_walk t root (take k cs2)) as [j|] eqn:Ej; [|done]. cbn [mbind option_bind] in Hw.
  apply (walk_inside t (drop k cs2) Ht j i); [|done].
  apply (vo_at t Ht (take k cs2)); [by rewrite <-E1|done].
Qed.

Lemma opened_weaken fds r w (P Q : Z -> Prop) : (forall i, P i -> Q i) -> opened fds r w P -> opened fds r w Q.
Proof. intros H [?|(i & ? & ? & ? & ?)]; [by left|right; exists i; auto]. Qed.

Lemma walk_dir_spec dir w : ok w -> exists r w',
  walk_dir G view K dir w = (r, w') /\ ok w' /\ w_log w' = w_log w /\
  opened (w_fds w) r w' (fun i => inside_dir dir -> V i).
Proof.
  intros Hw. unfold walk_dir. set (pfx := prefix_of G view dir CNG_PATH_MAX).
  set (start := if (length pfx =? 0)%nat then [SLASH] else pfx). unfold mthen.
  destruct (open_path_spec AT_FDCWD start true false w Hw) as (cur & w1 & -> & Hw1 & L1 & O1).
  destruct O1 as [[Hn F1]|(i & Hn & Hfr & F1 & Hi)].
  { rewrite (proj2 (Z.ltb_lt _ _)) by flia. eexists _, _. split; [done|]. split_and!; [done|done|by left]. }
  rewrite (proj2 (Z.ltb_ge _ _)) by flia.
  destruct (walk_comps_spec (S (length dir)) cur (drop (length pfx) dir) w1 i (w_fds w) Hw1 F1 Hfr Hn)
    as (r & w2 & E2 & Hw2 & L2 & O2).
  exists r, w2. split; [exact E2|]. split_and!; [done|congruence|].
  eapply opened_weaken; [|exact O2]. cbv beta. intros j Hj Hin.
  destruct (inside_prefix dir Hin) as (H1 & H2 & cs' & H3 & H4). cbv zeta in *. fold pfx in H1, H2, H4.
  apply Hj; [eauto|]. apply Hi. right. split; [done|]. subst start.
  rewrite (proj2 (Nat.eqb_neq _ _)) by (by destruct pfx). done.
Qed.

(** *** Pins *)

(** A path that is split into a directory and a name. *)
Definition pinnable (path : cstr) : Prop :=
  char_is path 0 SLASH = true /\ (length path <> 1)%nat /\ under_proc path = false /\
  dev_node_itself G path = false /\ is_Some (split_path path).

(** What a pin holds: a directory of its own on top of [fds], or nothing. *)
Definition pin_spec (fds : gmap Z Z) (path : cstr) (r : Z) (p : cng_pin) (w : world) : Prop :=
  p_leaf p = -1 /\
  ((p_own p = false /\ w_fds w = fds /\ (pinnable path -> r < 0)) \/
   (r = 0 /\ p_own p = true /\ p_pinned p = true /\
    exists name dir want, split_path path = Some (name, dir, want) /\ p_name p = name /\
      p_want_dir p = want /\ fd_ok (p_dfd p) /\
      opened fds (p_dfd p) w (fun i => inside_dir dir -> V i))).

Lemma spec_bare fds path r p w :
  p_leaf p = -1 -> p_own p = false -> w_fds w = fds -> (pinnable path -> r < 0) -> pin_spec fds path r p w.
Proof. intros. split; [done|]. left. auto. Qed.

Lemma pin_at_spec dirfd path w : ok w -> exists r p w',
  cng_pin_at G view K dirfd path w = ((r, p), w') /\ ok w' /\ w_log w' = w_log w /\
  pin_spec (w_fds w) path r p w'.
Proof.
  intros Hw. unfold cng_pin_at, ret.
  destruct (length path =? 0)%nat eqn:E0.
  { eexists _, _, _. split; [done|]. split_and!; [done|done|]. apply spec_bare; try done.
    intros (H & _). apply Nat.eqb_eq in E0. by destruct path. }
  destruct (char_is path 0 SLASH) eqn:E1; cbn [negb].
  2: { eexists _, _, _. split; [done|]. split_and!; [done|done|]. apply spec_bare; try done.
       intros (H & _). congruence. }
  destruct ((length path =? 1)%nat || under_proc path || dev_node_itself G path) eqn:E2.
  { eexists _, _, _. split; [done|]. split_and!; [done|done|]. apply spec_bare; try done.
    intros (_ & H2 & H3 & H4 & _). rewrite H3, H4, !orb_false_r in E2. by apply Nat.eqb_eq in E2. }
  destruct (split_path path) as [[[name dir] want]|] eqn:E3.
  2: { eexists _, _, _. split; [done|]. split_and!; [done|done|]. apply spec_bare; try done.
       intros (_ & _ & _ & _ & [x Hx]). congruence. }
  destruct (CNG_PATH_MAX <? _)%nat.
  { eexists _, _, _. split; [done|]. split_and!; [done|done|]. apply spec_bare; try done. }
  unfold mthen at 1. destruct (open_path_spec AT_FDCWD dir true false w Hw) as (fd & w1 & -> & Hw1 & L1 & O1).
  destruct O1 as [[Hn F1]|(i & Hn & Hfr & F1 & _)].
  { rewrite (proj2 (Z.ltb_lt _ _)) by done. eexists _, _, _. split; [done|].
    split_and!; [done|done|]. apply spec_bare; try done. }
  rewrite (proj2 (Z.ltb_ge _ _)) by flia. unfold mthen.
  destruct (tick_ok w1 Hw1) as (t & w2 & -> & Ht & Hw2 & F2 & L2).
  unfold fd_inode. rewrite F2, F1, lookup_insert_eq. cbn [mbind option_bind].
  destruct (_ && _) eqn:Ea.
  - rewrite (proj2 (Z.ltb_ge _ _)) by flia. eexists _, _, _. split; [done|].
    split_and!; [done|congruence|]. split; [done|]. right. split_and!; try done.
    exists name, dir, want. split_and!; try done. right. exists i. split_and!; try done; [by rewrite F2, F1|].
    intros Hin. apply andb_true_iff in Ea as [Ea _]. apply bool_decide_eq_true in Ea.
    destruct (k_path K t i) as [r|] eqn:Ek; [|done]. cbn [mbind option_bind] in Ea. injection Ea as Ea.
    apply (named_inside t i dir Ht Hin). destruct Hin as (_ & _ & _ & _ & _ & _ & Hlen & _).
    rewrite Ek. f_equal. rewrite <-Ea in Hlen |- *. rewrite length_take in Hlen.
    symmetry. apply take_ge. unfold CNG_PATH_MAX in Hlen. flia.
  - unfold sys_close. set (w3 := World _ _ _).
    assert (F3 : w_fds w3 = w_fds w).
    { cbn [w_fds w3]. rewrite F2, F1, delete_insert_eq. by apply delete_id. }
    destruct (walk_dir_spec dir w3) as (r & w4 & -> & Hw4 & L4 & O4); [done|]. rewrite F3 in O4.
    cbn [w_log w3] in L4.
    destruct (Z.ltb_spec r 0) as [Hr|Hr].
    + eexists _, _, _. split; [done|]. split_and!; [done|congruence|]. apply spec_bare; try done.
      by destruct O4 as [[_ ?]|(? & ? & _)]; [|flia].
    + eexists _, _, _. split; [done|]. split_and!; [done|congruence|]. split; [done|]. right.
      destruct O4 as [[? _]|(j & Hj & O4)]; [flia|].
      split_and!; try done. exists name, dir, want. split_and!; try done. right. by exists j.
Qed.

(** The link of a descriptor names it. *)
Lemma link_fd_link fd : fd_ok fd -> link_fd (fd_link fd 32) = Some fd.
Proof.
  intros Hfd. pose proof (dec_chars fd ltac:(flia)) as Hd.
  pose proof (dec_nonempty fd ltac:(flia)) as Hne.
  pose proof (digits_short lower_digits 10 10 fd ltac:(lia)) as Hl.
  change (8 ^ Z.of_nat 11) with 8589934592 in Hl. specialize (Hl ltac:(flia)). fold (dec fd) in Hl.
  unfold link_fd, fd_link. rewrite take_ge by (rewrite length_app; change (length PROC_FD) with 14%nat; flia).
  rewrite drop_app_length. replace (strneq _ _ _) with true.
  2: { symmetry. apply strneq_prefix. by exists (dec fd). }
  cbn [negb]. rewrite (proj2 (Nat.eqb_neq _ _)) by (by destruct (dec fd)).
  replace (forallb is_dig (dec fd)) with true.
  2: { symmetry. apply forallb_forall. intros x Hx. eapply Forall_forall in Hd; [exact Hd|].
       by apply list_elem_of_In. }
  cbn [negb orb]. f_equal. rewrite <-(app_nil_r (dec fd)).
  apply (read_dec_dec id (2 ^ 64)); [done|flia|flia|]. intros c r H. done.
Qed.

(** What a pin holds open on top of [fds]: its directory [i], its leaf [j]. *)
Definition holding (fds : gmap Z Z) (p : cng_pin) (w : world) (P Q : Z -> Prop) : Prop :=
  exists F, ((p_own p = false /\ F = fds) \/
             (p_own p = true /\ opened fds (p_dfd p) (World [] F []) P /\ fd_ok (p_dfd p))) /\
    ((p_leaf p = -1 /\ w_fds w = F) \/ (opened F (p_leaf p) w Q /\ fd_ok (p_leaf p))).

Lemma unpin_spec fds p w P Q : ok w -> holding fds p w P Q -> exists w',
  cng_unpin p w = (tt, w') /\ ok w' /\ w_log w' = w_log w /\ w_fds w' = fds.
Proof.
  intros Hw (F & HF & HL). unfold cng_unpin, mthen.
  assert (H1 : exists w1, (if 0 <=? p_leaf p then sys_close (p_leaf p) else ret tt) w = (tt, w1) /\
                 ok w1 /\ w_log w1 = w_log w /\ w_fds w1 = F).
  { destruct HL as [[-> Hf]|[[[? _]|(j & Hj & Hn & Hf & _)] H0]]; [|flia|].
    - exists w. by split_and!.
    - rewrite (proj2 (Z.leb_le _ _)) by flia. unfold sys_close. eexists. split; [done|].
      split_and!; [done|done|]. cbn [w_fds]. rewrite Hf, delete_insert_eq. by apply delete_id. }
  destruct H1 as (w1 & -> & Hw1 & L1 & F1).
  destruct HF as [[-> ->]|(-> & [[? _]|(i & Hi & Hn & Hf & _)] & H0)]; [|flia|].
  - exists w1. by split_and!.
  - rewrite (proj2 (Z.leb_le _ _)) by flia. cbn [andb]. unfold sys_close. eexists. split; [done|].
    split_and!; [done|done|]. cbn [w_fds] in *. rewrite F1, Hf, delete_insert_eq. by apply delete_id.
Qed.

(** *** Names *)

(** The host path of something in the view, with a slash after it if [want]. *)
Definition inside_path (want : bool) (path : cstr) : Prop :=
  exists dir c, path = dir ++ SLASH :: c ++ (if want then [SLASH] else []) /\
    normal_comp c /\ inside_dir dir /\ under_proc path = false /\ dev_node_itself G path = false.

Lemma normal_last c : normal_comp c -> exists x r, reverse c = x :: r /\ is_slash x = false.
Proof.
  intros (Hne & _ & _ & Hs). destruct (reverse c) as [|x r] eqn:E.
  { apply (f_equal length) in E. rewrite length_reverse in E. by destruct c. }
  exists x, r. split; [done|]. eapply Forall_forall in Hs.
  - apply negb_true_iff in Hs. exact Hs.
  - apply elem_of_reverse. rewrite E. left.
Qed.

Lemma strip_normal s c (want : bool) : normal_comp c ->
  strip_slashes (s ++ c ++ (if want then [SLASH] else [])) = s ++ c.
Proof.
  intros Hc. destruct (normal_last c Hc) as (x & r & Er & Hx). unfold strip_slashes.
  rewrite !reverse_app, Er.
  assert (E : drop_while is_slash ((reverse (if want then [SLASH] else []) ++ x :: r) ++ reverse s)
              = (x :: r) ++ reverse s).
  { destruct want; cbn [reverse rev_append app drop_while]; [change (is_slash SLASH) with true; cbv iota|];
      by rewrite Hx. }
  rewrite E, <-Er, reverse_app, !reverse_involutive. done.
Qed.

Lemma last_comp dir c : slash_free c ->
  reverse (take_while not_slash (reverse (dir ++ SLASH :: c))) = c.
Proof.
  intros Hc. rewrite reverse_app, reverse_cons, <-app_assoc, take_while_app by (by apply Forall_reverse).
  cbn [app take_while]. rewrite not_slash_SLASH, app_nil_r. apply reverse_involutive.
Qed.

Lemma inside_nonempty dir : inside_dir dir -> (2 <= length dir)%nat /\ char_is dir 0 SLASH = true.
Proof.
  intros (pc & cs' & -> & Hn & Hp & _). destruct pc as [|c pc]; [done|].
  cbn [app] in *. apply Forall_cons in Hn as [(Hc & _) _].
  change (render (c :: pc ++ cs')) with (SLASH :: c ++ render (pc ++ cs')).
  split; [|done]. destruct c; [done|]. simpl. lia.
Qed.

Lemma split_inside want path : inside_path want path -> pinnable path /\
  exists dir c, split_path path = Some (c ++ (if want then [SLASH] else []), dir, want) /\
    inside_dir dir /\ normal_comp c.
Proof.
  intros (dir & c & -> & Hc & Hd & Hu & Hv). destruct (inside_nonempty dir Hd) as [Hl Hs].
  set (path := dir ++ _) in *. set (sl := if want then [SLASH] else []) in *.
  assert (Hb : strip_slashes path = dir ++ SLASH :: c).
  { pose proof (strip_normal (dir ++ [SLASH]) c want Hc) as H. fold sl in H.
    rewrite <-!app_assoc in H. exact H. }
  assert (Hp : length path = (length (dir ++ SLASH :: c) + length sl)%nat).
  { unfold path. rewrite !length_app. simpl. rewrite length_app. lia. }
  assert (E : split_path path = Some (c ++ sl, dir, want)).
  { unfold split_path. rewrite Hb. pose proof Hc as (Hne & _ & _ & Hsf).
    destruct (dir ++ SLASH :: c) as [|x y] eqn:Ed; [by destruct dir|]. rewrite <-Ed, last_comp by done.
    assert (Hw : negb (length (dir ++ SLASH :: c) =? length path)%nat = want).
    { rewrite Hp, Ed. unfold sl. destruct want; cbn [length].
      - apply negb_true_iff, Nat.eqb_neq. lia.
      - apply negb_false_iff, Nat.eqb_eq. lia. }
    rewrite Hw. fold sl. f_equal. f_equal. f_equal.
    rewrite (length_app dir), length_cons.
    replace (length dir + S (length c) - length c)%nat with (S (length dir)) by lia.
    rewrite (proj2 (Nat.ltb_lt _ _)) by lia. rewrite Nat.sub_succ, Nat.sub_0_r.
    unfold path. by rewrite take_app_length. }
  split; [|by exists dir, c].
  split_and!; [|rewrite Hp, length_app; simpl; lia|done|done|by rewrite E].
  unfold char_is, path in *. apply bool_decide_eq_true in Hs. apply bool_decide_eq_true.
  rewrite lookup_app_l by lia. done.
Qed.
End Props.
