(* ===== verification/PinCalls.v ===== *)
(** * Pinned paths: the calls

    Each call on a host path is made on a directory of the view with one name
    that is not followed, or through the descriptor of a file of the view; and
    it leaves the descriptors as it found them. *)

From Stdlib Require Import ZArith Ascii String Lia.
From S2P Require Import Prelude Path PathCanon PathFacts PathProps Fmt FmtProps ProcStat Resolve L2sName Pin PinProps.
From stdpp Require Import base numbers strings gmap list.

Open Scope Z_scope.
Open Scope pin_scope.

Section Calls.
Context (G : genv) (view : option cng_fs) (K : kern) (root : Z) (V : Z -> Prop).
Context (HK : kern_ok K root).
Context (Hview : forall fs, view = Some fs -> fs_wf fs).
Context (Hdev : Forall (fun nd : cstr * cstr => (length (snd nd) < CNG_PATH_MAX)%nat) (cng_dev_nodes G)).

Abbreviation okw := (ok G view K root V).
Abbreviation in_path := (inside_path G view).

Lemma fd_mode_spec fd w : okw w -> exists m w', fd_mode fd w = (m, w') /\ okw w' /\
  w_fds w' = w_fds w /\ w_log w' = w_log w.
Proof.
  intros Hw. unfold fd_mode, sys_fstat, mthen.
  destruct (tick_ok _ _ _ _ _ w Hw) as (t & w1 & -> & _ & Hw1 & F1 & L1).
  unfold fd_inode, ret. eexists _, _. split; [done|]. by split_and!.
Qed.

(** The name [cng_pin_leaf] opens. *)
Definition leaf_name (p : cng_pin) : cstr :=
  match strip_slashes (p_name p) with [] => take 1 (p_name p) | s => s end.

Lemma pin_leaf_spec p need w : okw w -> exists r p' w',
  cng_pin_leaf K p need w = ((r, p'), w') /\ okw w' /\ w_log w' = w_log w /\
  ((r < 0 /\ p' = p /\ w_fds w' = w_fds w) \/
   (r = 0 /\ p_own p' = p_own p /\ p_dfd p' = p_dfd p /\ fd_ok (p_leaf p') /\
    p_link p' = fd_link (p_leaf p') 32 /\
    opened (w_fds w) (p_leaf p') w'
      (fun j => one_comp (leaf_name p) = true -> (exists d, w_fds w !! p_dfd p = Some d /\ V d) -> V j))).
Proof.
  intros Hw. unfold cng_pin_leaf, ret. case_if; [eexists _, _, _; split; [done|]; split_and!; [done|done|by left]|].
  case_if; [eexists _, _, _; split; [done|]; split_and!; [done|done|by left]|]. fold (leaf_name p). unfold mthen at 1.
  destruct (open_path_spec G view K root V HK (p_dfd p) (leaf_name p) false true w Hw)
    as (fd & w1 & -> & Hw1 & L1 & O1).
  destruct O1 as [[Hn F1]|(i & Hn & Hfr & F1 & Hi)].
  { rewrite (proj2 (Z.ltb_lt _ _)) by done. eexists _, _, _. split; [done|]. split_and!; auto. }
  rewrite (proj2 (Z.ltb_ge _ _)) by flia. unfold mthen.
  destruct (fd_mode_spec fd w1 Hw1) as (m & w2 & -> & Hw2 & F2 & L2).
  assert (Hc : forall e, e < 0 -> exists r p' w', (e, p, World (w_trees w2) (delete fd (w_fds w2)) (w_log w2)) = (r, p', w') /\
    okw w' /\ w_log w' = w_log w /\ r < 0 /\ p' = p /\ w_fds w' = w_fds w).
  { intros e He. eexists _, _, _. split; [done|]. split_and!; try done; [cbn [w_log]; congruence|].
    cbn [w_fds]. rewrite F2, F1, delete_insert_eq. by apply delete_id. }
  unfold sys_close. case_if; [destruct (Hc (- ELOOP)) as (r & p' & w' & [= <- <- <-] & ? & ? & ?);
    [done|eexists _, _, _; split; [done|]; split_and!; [done|done|by left]]|].
  case_if; [destruct (Hc (- ENOTDIR)) as (r & p' & w' & [= <- <- <-] & ? & ? & ?);
    [done|eexists _, _, _; split; [done|]; split_and!; [done|done|by left]]|].
  eexists _, _, _. split; [done|]. split_and!; [done|congruence|]. right.
  cbn [p_own p_dfd p_leaf p_link]. split_and!; try done. right. exists i.
  split_and!; [done|done|congruence|]. intros Hone (d & Hd & Vd). apply Hi. left. eauto.
Qed.

(** *** Safe places *)

Definition safe (pl : place) : Prop :=
  match pl with
  | AtDir d name nofollow => V d /\ nofollow = true /\ one_comp name = true
  | AtInode i => V i
  | AtPath _ | AtNone => False
  end.

Definition safe_call (x : op * place) : Prop :=
  safe (snd x) /\ match fst x with OpRename _ to => safe to | _ => True end.

(** What a call leaves behind: the descriptors as they were, and calls on safe
    places only, where [S] holds of its paths. *)
Definition leaves (fds : gmap Z Z) (log : list (op * place)) (S : Prop) (x : Z * world) : Prop :=
  okw (snd x) /\ w_fds (snd x) = fds /\
  exists new, w_log (snd x) = log ++ new /\ (S -> Forall safe_call new).

Lemma sys_at_spec o dfd name nf w : okw w -> exists r w',
  sys_at K o dfd name nf w = (r, w') /\ okw w' /\ w_fds w' = w_fds w /\
  w_log w' = w_log w ++ [(o, place_of (w_fds w) dfd name nf)].
Proof.
  intros Hw. unfold sys_at, call_at, mthen.
  destruct (tick_ok _ _ _ _ _ w Hw) as (t & w1 & -> & _ & Hw1 & F1 & L1).
  eexists _, _. split; [done|]. split_and!; [done|done|]. cbn [w_log]. by rewrite L1.
Qed.

Lemma link_fd_plain c : one_comp c = true -> link_fd c = None /\ char_is c 0 SLASH = false.
Proof.
  intros H. unfold one_comp in H. bprop. destruct H as [[[H1 H2] _] _].
  destruct c as [|x c]; [done|]. cbn [forallb] in H2. apply andb_true_iff in H2 as [H2 _].
  assert (Hx : x <> SLASH) by (intros ->; by rewrite not_slash_SLASH in H2).
  split.
  - unfold link_fd. replace (strneq _ _ _) with false; [done|]. symmetry.
    apply bool_decide_eq_false. cbn. intros [= ? _]. done.
  - unfold char_is. apply bool_decide_eq_false. cbn. congruence.
Qed.

Lemma place_dir fds dfd c d : one_comp c = true -> fds !! dfd = Some d ->
  place_of fds dfd c true = AtDir d c true.
Proof. intros H Hd. unfold place_of. destruct (link_fd_plain c H) as [-> ->]. by rewrite Hd. Qed.

Lemma place_link fds fd i : fd_ok fd -> fds !! fd = Some i ->
  forall dfd nf, place_of fds dfd (fd_link fd 32) nf = AtInode i.
Proof. intros H Hi dfd nf. unfold place_of. by rewrite link_fd_link, Hi. Qed.

(** *** The calls *)

Abbreviation any := (fun _ : Z => True).

(** What a pinned path of the view is held by. *)
Definition pinned_in (path : cstr) (p : cng_pin) (w : world) : Prop :=
  forall want, in_path want path -> exists c d,
    p_name p = c ++ (if want then [SLASH] else []) /\ normal_comp c /\ p_want_dir p = want /\
    p_pinned p = true /\ w_fds w !! p_dfd p = Some d /\ V d.

Lemma pin_at_use dirfd path w : okw w -> exists r p w1,
  cng_pin_at G view K dirfd path w = ((r, p), w1) /\ okw w1 /\ w_log w1 = w_log w /\
  p_leaf p = -1 /\ holding (w_fds w) p w1 any any /\ (r = 0 -> pinned_in path p w1).
Proof.
  intros Hw. destruct (pin_at_spec G view K root V HK Hview Hdev dirfd path w Hw)
    as (r & p & w1 & E & Hw1 & L1 & Hl & Hs).
  exists r, p, w1. split_and!; try done.
  - destruct Hs as [(Ho & Hf & _)|(_ & Ho & _ & name & dir & want & _ & _ & _ & Hd & Hop)].
    + exists (w_fds w). split; [by left|]. left. by rewrite Hf.
    + exists (w_fds w1). split; [|by left]. right. split_and!; [done| |done].
      destruct Hop as [[? ?]|(i & ? & ? & ? & _)]; [by left|right; by exists i].
  - intros -> want Hin. destruct (split_inside G view want path Hin) as (Hp & dir' & c & Es & Hd' & Hc).
    destruct Hs as [(_ & _ & Hneg)|(_ & _ & Hpin & name & dir & want' & Es' & Hname & Hwant & Hd & Hop)];
      [specialize (Hneg Hp); lia|].
    rewrite Es in Es'. injection Es' as <- <- <-. destruct Hop as [[? _]|(i & _ & _ & Hf & Hi)]; [flia|].
    exists c, i. split_and!; try done; [rewrite Hf; apply lookup_insert_eq|by apply Hi].
Qed.

Lemma finish fds log (S : Prop) p r w new :
  okw w -> holding fds p w any any -> w_log w = log ++ new -> (S -> Forall safe_call new) ->
  leaves fds log S ((cng_unpin p ;;; ret r) w).
Proof.
  intros Hw Hh Hl Hn. unfold mthen.
  destruct (unpin_spec G view K root V fds p w any any Hw Hh) as (w' & -> & Hw' & L' & F').
  split_and!; [done|done|]. exists new. cbn [snd ret]. by rewrite L'.
Qed.

(** A call made on the pinned pair. *)
Lemma call_pair fds log (S : Prop) o p w want path :
  okw w -> holding fds p w any any -> p_leaf p = -1 -> w_log w = log ->
  (match o with OpRename _ _ => False | _ => True end) ->
  (S -> want = false /\ in_path want path /\ pinned_in path p w) ->
  leaves fds log S ((r <- sys_at K o (p_dfd p) (p_name p) true ;; cng_unpin p ;;; ret r) w).
Proof.
  intros Hw (F & HF & HL) Hl Hlog Ho Hin. unfold mthen at 1.
  destruct (sys_at_spec o (p_dfd p) (p_name p) true w Hw) as (r & w1 & -> & Hw1 & F1 & L1).
  eapply finish; [done| |by rewrite L1, Hlog|].
  - exists F. split; [done|]. left. split; [done|]. rewrite F1. by destruct HL as [[_ ?]|[_ ?]]; [|flia].
  - intros HS. destruct (Hin HS) as (-> & Hip & Hpin). destruct (Hpin false Hip) as (c & d & Hn & Hc & _ & _ & Hd & Vd).
    rewrite app_nil_r in Hn. pose proof (normal_one_comp c Hc).
    rewrite Hn, (place_dir _ _ _ d) by done. constructor; [|constructor]. split; [done|]. by destruct o.
Qed.

Lemma pin_plain_spec host o w :
  (match o with OpRename _ _ => False | _ => True end) -> okw w ->
  leaves (w_fds w) (w_log w) (in_path false host) (pin_plain G view K host o w).
Proof.
  intros Ho Hw. unfold pin_plain. unfold mthen at 1.
  destruct (pin_at_use AT_FDCWD host w Hw) as (r & p & w1 & -> & Hw1 & L1 & Hl & Hh & Hp).
  destruct (Z.eqb_spec r 0) as [->|Hr].
  - apply (call_pair _ _ _ _ _ _ false host); try done. intros Hin. split_and!; [done|done|by apply Hp].
  - unfold mthen at 1, ret at 1. apply finish with (new := []); [done|done|by rewrite app_nil_r|constructor].
Qed.

Lemma leaf_use fds p need w : okw w -> holding fds p w any any -> p_leaf p = -1 -> exists r p' w2,
  cng_pin_leaf K p need w = ((r, p'), w2) /\ okw w2 /\ w_log w2 = w_log w /\ r <= 0 /\
  holding fds p' w2 any any /\
  (r = 0 -> fd_ok (p_leaf p') /\ p_link p' = fd_link (p_leaf p') 32 /\
    exists j, w_fds w2 !! p_leaf p' = Some j /\
      (forall want path, in_path want path -> pinned_in path p w -> V j)).
Proof.
  intros Hw (F & HF & HL) Hl.
  assert (Hf : w_fds w = F) by (by destruct HL as [[_ ?]|[_ ?]]; [|flia]).
  destruct (pin_leaf_spec p need w Hw) as (r & p' & w2 & E & Hw2 & L2 & Hc).
  exists r, p', w2. split_and!; try done.
  - destruct Hc as [(? & _)|(? & _)]; lia.
  - destruct Hc as [(_ & -> & F2)|(_ & Ho & Hd & Hfd & _ & Hop)]; exists F.
    + split; [done|]. left. split; [done|congruence].
    + rewrite Ho, Hd. split; [done|]. right. split; [|done]. rewrite Hf in Hop.
      destruct Hop as [?|(i & ? & ? & ? & _)]; [by left|right; by exists i].
  - intros ->. destruct Hc as [(? & _)|(_ & _ & _ & Hfd & Hlk & Hop)]; [lia|]. split_and!; [done|done|].
    destruct Hop as [[? _]|(j & _ & _ & F2 & Hj)]; [flia|]. exists j.
    split; [rewrite F2; apply lookup_insert_eq|]. intros want path Hin Hp.
    destruct (Hp want Hin) as (c & d & Hn & Hcn & _ & _ & Hd & Vd). apply Hj; [|by eauto].
    unfold leaf_name. rewrite Hn. pose proof (strip_normal [] c want Hcn) as Hs. cbn [app] in Hs.
    rewrite Hs. pose proof Hcn as (Hne & _). destruct c; [done|]. by apply normal_one_comp.
Qed.

(** A call made through the leaf's link. *)
Lemma call_link fds log (S : Prop) o p w path p0 w0 j nf :
  okw w -> holding fds p w any any -> w_log w = log -> fd_ok (p_leaf p) ->
  p_link p = fd_link (p_leaf p) 32 -> w_fds w !! p_leaf p = Some j ->
  (forall want path, in_path want path -> pinned_in path p0 w0 -> V j) ->
  (match o with OpRename _ _ => False | _ => True end) ->
  (S -> in_path true path /\ pinned_in path p0 w0) ->
  leaves fds log S ((r <- sys_at K o AT_FDCWD (p_link p) nf ;; cng_unpin p ;;; ret r) w).
Proof.
  intros Hw (F & HF & HL) Hlog Hfd Hlk Hj HV Ho Hin. unfold mthen at 1.
  destruct (sys_at_spec o AT_FDCWD (p_link p) nf w Hw) as (r & w1 & -> & Hw1 & F1 & L1).
  eapply finish; [done| |by rewrite L1, Hlog|].
  - exists F. split; [done|]. destruct HL as [[? ?]|[Hop ?]]; [flia|]. right. split; [|done].
    unfold opened. rewrite F1. exact Hop.
  - intros HS. destruct (Hin HS) as [Hip Hpin]. rewrite Hlk, (place_link _ _ j) by done.
    constructor; [|constructor]. split; [by apply (HV true path)|]. by destruct o.
Qed.

Lemma pin_open_spec host flags mode w want : okw w ->
  leaves (w_fds w) (w_log w) (in_path want host /\ (want = true -> Z.land flags O_CREAT = 0))
    (cng_pin_open G view K host flags mode w).
Proof.
  intros Hw. unfold cng_pin_open. unfold mthen at 1.
  destruct (pin_at_use AT_FDCWD host w Hw) as (r & p & w1 & -> & Hw1 & L1 & Hl & Hh & Hp).
  destruct (Z.eqb_spec r 0) as [->|Hr]; cbn [negb].
  2: { unfold mthen at 1, ret at 1. apply finish with (new := []); [done|done|by rewrite app_nil_r|constructor]. }
  specialize (Hp eq_refl).
  destruct (p_pinned p) eqn:Epin; cbn [negb].
  - destruct (p_want_dir p && (Z.land flags O_CREAT =? 0)) eqn:Ew.
    + apply andb_true_iff in Ew as [Ew _]. unfold mthen at 1 2.
      destruct (leaf_use _ p true w1 Hw1 Hh Hl) as (r & p' & w2 & -> & Hw2 & L2 & _ & Hh2 & H2).
      destruct (Z.eqb_spec r 0) as [->|Hr].
      * destruct (H2 eq_refl) as (Hfd & Hlk & j & Hj & HV).
        pose proof (call_link _ (w_log w) (in_path want host /\ (want = true -> Z.land flags O_CREAT = 0))
          (OpOpen (Z.land flags (Z.lnot O_NOFOLLOW)) mode) p' w2 host p w1 j false Hw2 Hh2
          ltac:(congruence) Hfd Hlk Hj HV I) as C.
        unfold mthen at 1 in C. unfold mthen at 1. destruct (sys_at K _ AT_FDCWD (p_link p') false w2) as [r' w3].
        apply C. intros [Hin _]. destruct (Hp want Hin) as (c & d & _ & _ & Hwd & _).
        rewrite Ew in Hwd. subst want. done.
      * apply finish with (new := []); [done|done|by rewrite app_nil_r, L2|constructor].
    + pose proof (call_pair _ (w_log w) (in_path want host /\ (want = true -> Z.land flags O_CREAT = 0))
        (OpOpen (Z.lor flags O_NOFOLLOW) mode) p w1 want host Hw1 Hh Hl L1 I) as C.
      unfold mthen at 1 in C. unfold mthen at 1 2. destruct (sys_at K _ (p_dfd p) (p_name p) true w1) as [r' w3].
      apply C. intros [Hin Hcr]. split_and!; [|done|done].
      destruct (Hp want Hin) as (c & d & _ & _ & Hwd & _). rewrite Hwd in Ew.
      destruct want; [|done]. by rewrite (Hcr eq_refl) in Ew.
  - unfold mthen at 1 2. destruct (sys_at_spec (OpOpen flags mode) AT_FDCWD (p_name p)
      (negb (Z.land flags O_NOFOLLOW =? 0)) w1 Hw1) as (r & w2 & -> & Hw2 & F2 & L2).
    eapply finish; [done| |by rewrite L2, L1|].
    + destruct Hh as (F & HF & HL). exists F. split; [done|]. left.
      split; [done|]. rewrite F2. by destruct HL as [[_ ?]|[_ ?]]; [|flia].
    + intros [Hin _]. destruct (Hp want Hin) as (c & d & _ & _ & _ & Hpin & _). congruence.
Qed.

Lemma nofollow_set a : nofollow_of (Z.lor a AT_SYMLINK_NOFOLLOW) = true.
Proof.
  unfold nofollow_of. replace (Z.land _ _) with AT_SYMLINK_NOFOLLOW; [done|].
  apply Z.bits_inj'. intros n _. rewrite Z.land_spec, Z.lor_spec.
  by destruct (Z.testbit a n), (Z.testbit AT_SYMLINK_NOFOLLOW n).
Qed.

Lemma stat_call host atflags (mk : Z -> op) w want :
  (forall a, match mk a with OpRename _ _ => False | _ => True end) -> okw w ->
  leaves (w_fds w) (w_log w) (in_path want host)
    ((x <- stat_form G view K host atflags ;;
      let '(r, p, (atflags, dfd, name)) := x in
      r <- (if r =? 0 then sys_at K (mk atflags) dfd name (nofollow_of atflags) else ret r) ;;
      cng_unpin p ;;; ret r) w).
Proof.
  intros Hmk Hw. unfold stat_form. unfold mthen at 1 2.
  destruct (pin_at_use AT_FDCWD host w Hw) as (r & p & w1 & -> & Hw1 & L1 & Hl & Hh & Hp).
  destruct (Z.eqb_spec r 0) as [->|Hr]; cbn [negb].
  2: { unfold ret at 1. rewrite (proj2 (Z.eqb_neq _ _)) by done. unfold mthen at 1, ret at 1.
       apply finish with (new := []); [done|done|by rewrite app_nil_r|constructor]. }
  specialize (Hp eq_refl).
  destruct (p_pinned p) eqn:Epin; cbn [negb].
  - destruct (p_want_dir p) eqn:Ew.
    + unfold mthen at 1. destruct (leaf_use _ p true w1 Hw1 Hh Hl) as (r & p' & w2 & -> & Hw2 & L2 & _ & Hh2 & H2).
      destruct (Z.eqb_spec r 0) as [->|Hr]; cbn [negb]; unfold ret at 1.
      * rewrite Z.eqb_refl. destruct (H2 eq_refl) as (Hfd & Hlk & j & Hj & HV).
        apply (call_link _ _ _ _ _ _ host p w1 j); try done; [congruence|apply Hmk|].
        intros Hin. destruct (Hp want Hin) as (c & d & _ & _ & Hwd & _).
        rewrite Ew in Hwd. by subst want.
      * rewrite (proj2 (Z.eqb_neq _ _)) by done. unfold mthen at 1, ret at 1.
        apply finish with (new := []); [done|done|by rewrite app_nil_r, L2|constructor].
    + unfold ret at 1. rewrite Z.eqb_refl, nofollow_set.
      apply (call_pair _ _ _ _ _ _ want host); try done; [apply Hmk|]. intros Hin. split_and!; [|done|done].
      destruct (Hp want Hin) as (c & d & _ & _ & Hwd & _). congruence.
  - unfold ret at 1. rewrite Z.eqb_refl. unfold mthen at 1.
    destruct (sys_at_spec (mk atflags) (p_dfd p) (p_name p) (nofollow_of atflags) w1 Hw1)
      as (r & w2 & -> & Hw2 & F2 & L2).
    eapply finish; [done| |by rewrite L2, L1|].
    + destruct Hh as (F & HF & HL). exists F. split; [done|]. left.
      split; [done|]. rewrite F2. by destruct HL as [[_ ?]|[_ ?]]; [|flia].
    + intros Hin. destruct (Hp want Hin) as (c & d & _ & _ & _ & Hpin & _). congruence.
Qed.

(** A pin keeps what it holds while another is opened and closed. *)
Lemma holding_frame fds p w w' :
  holding fds p w any any -> w_fds w' = w_fds w -> holding fds p w' any any.
Proof.
  intros (F & HF & HL) E. exists F. split; [done|]. unfold opened in *. by rewrite E.
Qed.

Lemma holding_keeps fds p w fd d :
  holding fds p w any any -> fds !! fd = Some d -> w_fds w !! fd = Some d.
Proof.
  assert (Op : forall F r w' (P : Z -> Prop), opened F r w' P -> F !! fd = Some d -> w_fds w' !! fd = Some d).
  { intros F r w' P [[_ ->]|(i & _ & Hn & -> & _)] Hd; [done|]. rewrite lookup_insert_ne; [done|congruence]. }
  intros (F & HF & HL) Hd.
  assert (HFd : F !! fd = Some d) by (destruct HF as [[_ ->]|(_ & HF & _)]; [done|by apply Op in HF]).
  destruct HL as [[_ ->]|[HL _]]; [done|by apply Op in HL].
Qed.

Lemma pin_rename_spec from to flags w : okw w ->
  leaves (w_fds w) (w_log w) (in_path false from /\ in_path false to)
    (cng_pin_rename G view K from to flags w).
Proof.
  intros Hw. unfold cng_pin_rename. unfold mthen at 1.
  destruct (pin_at_use AT_FDCWD from w Hw) as (r & a & w1 & -> & Hw1 & L1 & Hl & Hh & Hp).
  destruct (Z.eqb_spec r 0) as [->|Hr].
  2: { unfold mthen at 1, ret at 1. apply finish with (new := []); [done|done|by rewrite app_nil_r|constructor]. }
  unfold mthen at 1 2.
  destruct (pin_at_use AT_FDCWD to w1 Hw1) as (r & b & w2 & -> & Hw2 & L2 & Hl2 & Hh2 & Hp2).
  destruct (Z.eqb_spec r 0) as [->|Hr].
  - unfold mthen at 1. set (to_place := place_of (w_fds w2) (p_dfd b) (p_name b) true).
    destruct (sys_at_spec (OpRename flags to_place) (p_dfd a) (p_name a) true w2 Hw2)
      as (r & w3 & -> & Hw3 & F3 & L3).
    unfold mthen at 1. destruct (unpin_spec G view K root V (w_fds w1) b w3 any any Hw3
      (holding_frame _ _ w2 w3 Hh2 F3)) as (w4 & -> & Hw4 & L4 & F4). unfold ret at 1.
    eapply finish; [done|by apply (holding_frame _ _ w1)|by rewrite L4, L3, L2, L1|].
    intros [Hf Ht]. destruct (Hp eq_refl false Hf) as (c & d & Hn & Hc & _ & _ & Hd & Vd).
    destruct (Hp2 eq_refl false Ht) as (c2 & d2 & Hn2 & Hc2 & _ & _ & Hd2 & Vd2).
    rewrite app_nil_r in Hn, Hn2. pose proof (normal_one_comp c Hc). pose proof (normal_one_comp c2 Hc2).
    pose proof (holding_keeps _ _ _ _ _ Hh2 Hd). constructor; [|constructor]. subst to_place.
    rewrite Hn, Hn2, (place_dir (w_fds w2) (p_dfd a) c d), (place_dir (w_fds w2) (p_dfd b) c2 d2) by done. cbn. by split_and!.
  - unfold mthen at 1, ret at 1. unfold mthen at 1.
    destruct (unpin_spec G view K root V (w_fds w1) b w2 any any Hw2 Hh2) as (w4 & -> & Hw4 & L4 & F4).
    unfold ret at 1. apply finish with (new := []);
      [done|by apply (holding_frame _ _ w1)|by rewrite app_nil_r, L4, L2|constructor].
Qed.
End Calls.

(** ** Any call *)

Inductive hcall :=
  | COpen (host : cstr) (flags mode : Z)
  | CStat (host : cstr) (atflags : Z)
  | CStatx (host : cstr) (atflags mask : Z)
  | CReadlink (host : cstr)
  | CSymlink (target host : cstr)
  | CRename (from to : cstr) (flags : Z)
  | CUnlink (host : cstr) (flags : Z)
  | CMkdir (host : cstr) (mode : Z).

Definition pin_call (G : genv) (view : option cng_fs) (K : kern) (blocked : bool) (c : hcall) : M Z :=
  match c with
  | COpen host flags mode => cng_pin_open G view K host flags mode
  | CStat host atflags => cng_pin_fstatat G view K host atflags
  | CStatx host atflags mask => cng_pin_statx G view K blocked host atflags mask
  | CReadlink host => cng_pin_readlink G view K host
  | CSymlink target host => cng_pin_symlink G view K target host
  | CRename from to flags => cng_pin_rename G view K from to flags
  | CUnlink host flags => cng_pin_unlink G view K host flags
  | CMkdir host mode => cng_pin_mkdir G view K host mode
  end.

(** The paths of a call are of the view; an open without O_CREAT and a stat may
    have a slash after theirs. *)
Definition call_in (G : genv) (view : option cng_fs) (c : hcall) : Prop :=
  match c with
  | COpen host flags _ =>
      exists want : bool, inside_path G view want host /\ (want = true -> Z.land flags O_CREAT = 0)
  | CStat host _ | CStatx host _ _ => exists want : bool, inside_path G view want host
  | CReadlink host | CSymlink _ host | CUnlink host _ | CMkdir host _ => inside_path G view false host
  | CRename from to _ => inside_path G view false from /\ inside_path G view false to
  end.

(** C29: A pinned call stays in the view, whatever the guest does meanwhile.  The
    guest may change its files before any system call of the monitor, in every
    way that does not put a directory of the host's into its view.  Then a call
    on a host path of the view is made against a directory of the view, with one
    name that is not followed, or through the descriptor of a file of the view;
    and every call, on any path and with any errors of the kernel's, leaves the
    descriptors open that were open, and no other. *)
Theorem pinned_calls_stay_in_view (G : genv) (view : option cng_fs) (K : kern) (root : Z)
    (V : Z -> Prop) (blocked : bool) (c : hcall) (w : world)
    (HK : kern_ok K root) (Hview : forall fs, view = Some fs -> fs_wf fs)
    (Hdev : Forall (fun nd : cstr * cstr => (length (snd nd) < CNG_PATH_MAX)%nat) (cng_dev_nodes G))
    (Hok : ok G view K root V w) :
  exists r w' new, pin_call G view K blocked c w = (r, w') /\
    w_fds w' = w_fds w /\ w_log w' = w_log w ++ new /\
    (call_in G view c -> Forall (safe_call V) new).
Proof.
  assert (L : forall S m, leaves G view K root V (w_fds w) (w_log w) S m -> (call_in G view c -> S) ->
    exists r w' new, m = (r, w') /\ w_fds w' = w_fds w /\ w_log w' = w_log w ++ new /\
      (call_in G view c -> Forall (safe_call V) new)).
  { intros S [r w'] (_ & Hf & new & Hl & Hs) Hi. exists r, w', new. split_and!; auto. }
  assert (Any : forall (P : bool -> Prop) m,
    (forall want, leaves G view K root V (w_fds w) (w_log w) (P want) m) ->
    (call_in G view c -> exists want, P want) ->
    exists r w' new, m = (r, w') /\ w_fds w' = w_fds w /\ w_log w' = w_log w ++ new /\
      (call_in G view c -> Forall (safe_call V) new)).
  { intros P [r w'] H Hi. destruct (H true) as (_ & Hf & new & Hl & Hs).
    exists r, w', new. split_and!; auto. intros Hc. destruct (Hi Hc) as [[] Hw]; [by apply Hs|].
    destruct (H false) as (_ & _ & new' & Hl' & Hs'). rewrite Hl in Hl'. apply app_inv_head in Hl' as ->. auto. }
  destruct c as [host flags mode|host atflags|host atflags msk|host|target host|from to flags|host flags|host mode];
    cbn [pin_call].
  - eapply Any; [intros want; by eapply pin_open_spec|intros Hc; exact Hc].
  - eapply Any; [intros want; by apply (stat_call G view K root V HK Hview Hdev host atflags OpStat w want)|intros Hc; exact Hc].
  - unfold cng_pin_statx. destruct blocked.
    + exists (- ENOSYS), w, []. rewrite app_nil_r. by split_and!.
    + eapply Any; [intros want; by apply (stat_call G view K root V HK Hview Hdev host atflags (fun a => OpStatx a msk) w want)|intros Hc; exact Hc].
  - eapply L; [by eapply pin_plain_spec|intros Hc; exact Hc].
  - eapply L; [by eapply pin_plain_spec|intros Hc; exact Hc].
  - eapply L; [by eapply pin_rename_spec|intros Hc; exact Hc].
  - eapply L; [by eapply pin_plain_spec|intros Hc; exact Hc].
  - eapply L; [by eapply pin_plain_spec|intros Hc; exact Hc].
Qed.

(** *** A guest that swaps a directory for a link *)

(** The path walked with its links, for at most [fuel] components. *)
Fixpoint follow (fuel : nat) (t : tree) (d : Z) (segs : list cstr) : Z + Z :=
  match fuel with
  | O => inl (- ELOOP)
  | S fuel =>
      match segs with
      | [] => inr d
      | c :: segs =>
          if (length c =? 0)%nat then follow fuel t d segs
          else
            match ents_of t d with
            | None => inl (- ENOTDIR)
            | Some ents =>
                match ents !! c with
                | None => inl (- ENOENT)
                | Some i =>
                    match i_body <$> t !! i with
                    | Some (BLink text) =>
                        follow fuel t (if char_is text 0 SLASH then 1 else d) (split_slash text ++ segs)
                    | _ => follow fuel t i segs
                    end
                end
            end
      end
  end.

Definition known_dirs : list (list cstr) :=
  [[cs "etc"]; [cs "data"]; [cs "data"; cs "rootfs"]; [cs "data"; cs "rootfs"; cs "d"]].

Definition demo_kern : kern := {|
  k_walk := fun t d p => follow 40 t (if char_is p 0 SLASH then 1 else d) (split_slash p);
  k_deny := fun _ _ _ => 0;
  k_path := fun t i =>
    render <$> (snd <$> list_find (fun l => dir_walk t 1 l = Some i) known_dirs);
  k_newfd := fun _ fds => snd <$> list_find (fun fd => fds !! fd = None) [3; 4; 5; 6];
  k_call := fun _ _ _ => 0;
  k_uid := 1000 |}.

Definition dnode (e : gmap cstr Z) : inode := Inode 493 0 (BDir e).
Definition fnode : inode := Inode 420 0 (BOther S_IFREG).

(** /data/rootfs/d is the directory 11, or a link to the host's /etc. *)
Definition demo_tree (d : Z) : tree :=
  <[1 := dnode (<[cs "data" := 2]> (<[cs "etc" := 3]> ∅))]>
  (<[2 := dnode (<[cs "rootfs" := 10]> ∅)]> (<[3 := dnode (<[cs "passwd" := 4]> ∅)]> (<[4 := fnode]>
  (<[10 := dnode (<[cs "d" := d]> ∅)]> (<[11 := dnode (<[cs "f" := 12]> ∅)]> (<[12 := fnode]>
  (<[13 := Inode 511 0 (BLink (cs "/etc"))]> ∅))))))).

Definition guest_inode (i : Z) : Prop := 10 <= i.

Definition demo_prefixes : list cstr :=
  f_rootfs fs0 :: (b_host <$> f_binds fs0) ++ (snd <$> cng_dev_nodes genv0).

Lemma demo_prefix s : host_prefix genv0 (Some fs0) s -> s ∈ demo_prefixes.
Proof.
  unfold demo_prefixes. intros [(fs & [= <-] & [->|H])|(_ & H & _)]; [left|right..];
    apply elem_of_app; auto.
Qed.

Definition closed_tree (t : tree) : bool :=
  bool_decide (map_Forall (fun d n =>
    (d <? 10) || match i_body n with
                 | BDir e => bool_decide (map_Forall (fun _ i => 10 <= i) e)
                 | _ => true
                 end = true) t).

Lemma closed_tree_spec t d ents c i : closed_tree t = true ->
  guest_inode d -> ents_of t d = Some ents -> ents !! c = Some i -> guest_inode i.
Proof.
  unfold guest_inode, ents_of. intros H Hd He Hi. apply bool_decide_eq_true in H.
  destruct (t !! d) as [n|] eqn:En; [|done]. cbn [mbind option_bind] in He.
  specialize (H d n En). cbv beta in H. rewrite (proj2 (Z.ltb_ge d 10)) in H by lia. cbn [orb] in H.
  destruct (i_body n); try done. injection He as ->. apply bool_decide_eq_true in H. by apply (H c).
Qed.

Lemma closed_walk t l : closed_tree t = true -> forall d i,
  guest_inode d -> dir_walk t d l = Some i -> guest_inode i.
Proof.
  intros Ht. induction l as [|c l IH]; intros d i Hd H; cbn [dir_walk] in H; [by injection H as <-|].
  destruct (ents_of t d) as [ents|] eqn:Ee; [|done]. cbn [mbind option_bind] in H.
  destruct (ents !! c) as [j|] eqn:Ej; [|done]. cbn [mbind option_bind] in H.
  apply (IH j); [|done]. by apply (closed_tree_spec t d ents c).
Qed.

Lemma demo_ents d :
  ents_of (demo_tree d) 1 = Some (<[cs "data" := 2]> (<[cs "etc" := 3]> ∅)) /\
  ents_of (demo_tree d) 2 = Some (<[cs "rootfs" := 10]> ∅) /\
  ents_of (demo_tree d) 3 = Some (<[cs "passwd" := 4]> ∅) /\
  ents_of (demo_tree d) 4 = None.
Proof. split_and!; by vm_compute. Qed.

(** A walk that does not get to the view passes none of its prefixes. *)
Lemma outside_walk (t : tree) l i : closed_tree t = true ->
  ents_of t 1 = Some (<[cs "data" := 2]> (<[cs "etc" := 3]> ∅)) ->
  ents_of t 2 = Some (<[cs "rootfs" := 10]> ∅) -> ents_of t 3 = Some (<[cs "passwd" := 4]> ∅) ->
  ents_of t 4 = None -> dir_walk t 1 l = Some i ->
  guest_inode i \/ l ∈ [[]; [cs "data"]; [cs "etc"]; [cs "etc"; cs "passwd"]].
Proof.
  generalize (cs "data") (cs "etc") (cs "rootfs") (cs "passwd"). intros da et ro pa Ht D1 D2 D3 D4 H.
  destruct l as [|c l]; [right; left|]. cbn [dir_walk] in H. rewrite D1 in H.
  cbn [mbind option_bind] in H. rewrite !lookup_insert in H. case_decide as E1; [subst c|].
  - cbn [mbind option_bind] in H. destruct l as [|c l]; [right; right; left|]. cbn [dir_walk] in H.
    rewrite D2 in H. cbn [mbind option_bind] in H. rewrite lookup_insert in H.
    case_decide; [|done]. cbn [mbind option_bind] in H. left. by apply (closed_walk t l Ht 10).
  - case_decide as E2; [subst c|done]. cbn [mbind option_bind] in H.
    destruct l as [|c l]; [right; do 2 right; left|]. cbn [dir_walk] in H.
    rewrite D3 in H. cbn [mbind option_bind] in H. rewrite lookup_insert in H.
    case_decide; [subst c|done]. cbn [mbind option_bind] in H.
    destruct l as [|c l]; [right; do 3 right; left|]. cbn [dir_walk] in H. by rewrite D4 in H.
Qed.

Lemma demo_outside d l i : closed_tree (demo_tree d) = true -> dir_walk (demo_tree d) 1 l = Some i ->
  guest_inode i \/ l ∈ [[]; [cs "data"]; [cs "etc"]; [cs "etc"; cs "passwd"]].
Proof. intros Ht. destruct (demo_ents d) as (D1 & D2 & D3 & D4). by apply outside_walk. Qed.

Definition leads_in (t : tree) (s : cstr) : bool :=
  char_is s 0 SLASH && match follow 40 t 1 (split_slash s) with inr j => 10 <=? j | inl _ => true end.

Lemma demo_checks d : d = 11 \/ d = 13 ->
  closed_tree (demo_tree d) = true /\ forallb (leads_in (demo_tree d)) demo_prefixes = true.
Proof. intros [->| ->]; split; vm_compute; reflexivity. Qed.

Lemma demo_no_prefix :
  forallb (fun l => negb (bool_decide (render l ∈ demo_prefixes)))
    [[]; [cs "data"]; [cs "etc"]; [cs "etc"; cs "passwd"]] = true.
Proof. vm_compute. reflexivity. Qed.

Lemma demo_walk t d s : char_is s 0 SLASH = true ->
  k_walk demo_kern t d s = follow 40 t 1 (split_slash s).
Proof. intros H. unfold demo_kern, k_walk. by rewrite H. Qed.

Lemma checked_view_ok (t : tree) : closed_tree t = true -> forallb (leads_in t) demo_prefixes = true ->
  (forall l i, dir_walk t 1 l = Some i ->
     guest_inode i \/ l ∈ [[]; [cs "data"]; [cs "etc"]; [cs "etc"; cs "passwd"]]) ->
  view_ok genv0 (Some fs0) demo_kern 1 guest_inode t.
Proof.
  intros Ht Hp Ho. rewrite forallb_forall in Hp. split.
  - intros d' ents c i. by apply closed_tree_spec.
  - intros s d' i Hs Hk. apply demo_prefix, list_elem_of_In, Hp in Hs.
    apply andb_true_iff in Hs as [H1 H2]. rewrite demo_walk in Hk by done.
    rewrite Hk in H2. unfold guest_inode. by apply Z.leb_le.
  - intros l i Hs Hw. destruct (Ho l i Hw) as [|Hl]; [done|exfalso].
    apply demo_prefix in Hs. pose proof demo_no_prefix as Hn. rewrite forallb_forall in Hn.
    apply list_elem_of_In, Hn, negb_true_iff, bool_decide_eq_false in Hl. by apply Hl.
Qed.

Lemma demo_view_ok d : d = 11 \/ d = 13 -> view_ok genv0 (Some fs0) demo_kern 1 guest_inode (demo_tree d).
Proof.
  intros Hd. destruct (demo_checks d Hd) as [Ht Hp].
  apply checked_view_ok; [exact Ht|exact Hp|]. intros l i. apply demo_outside. exact Ht.
Qed.

Lemma demo_kern_ok : kern_ok demo_kern 1.
Proof.
  split.
  - intros t fds fd H. cbn [k_newfd demo_kern] in H. apply fmap_Some in H as ([k fd'] & H & ->).
    apply list_find_Some in H as (H1 & H2 & _). cbn [snd]. split; [|done].
    apply list_elem_of_lookup_2 in H1. unfold fd_ok.
    repeat (apply elem_of_cons in H1 as [->|H1]; [lia|]). by apply elem_of_nil in H1.
  - intros t i p H. left. cbn [k_path demo_kern] in H. apply fmap_Some in H as (l & H & ->).
    apply fmap_Some in H as ([k l'] & H & ->). apply list_find_Some in H as (H1 & H2 & _).
    exists l'. cbn [snd]. split_and!; [done| |done]. apply list_elem_of_lookup_2 in H1.
    unfold known_dirs in H1.
    repeat (apply elem_of_cons in H1 as [->|H1]; [repeat constructor; try discriminate|]). by apply elem_of_nil in H1.
Qed.

(** The link is met by the open of the directory, and by the walk after it. *)
Definition demo_world (trees : list tree) : world :=
  World trees (<[AT_FDCWD := 10]> ∅) [].

Lemma swapped_open_refused :
  pin_call genv0 (Some fs0) demo_kern false (COpen (cs "/data/rootfs/d/f") 0 0)
    (demo_world [demo_tree 13]) = (- ELOOP, demo_world [demo_tree 13]).
Proof. vm_compute. reflexivity. Qed.

Lemma quiet_open_made :
  pin_call genv0 (Some fs0) demo_kern false (COpen (cs "/data/rootfs/d/f") 0 0)
    (demo_world [demo_tree 11]) =
  (0, World [demo_tree 11] (<[AT_FDCWD := 10]> ∅) [(OpOpen 32768 0, AtDir 11 (cs "f") true)]).
Proof. vm_compute. reflexivity. Qed.

Lemma pinned_calls_stay_in_view_witness : exists r w' new,
  pin_call genv0 (Some fs0) demo_kern false (CUnlink (cs "/data/rootfs/d/f") 0)
    (demo_world [demo_tree 11; demo_tree 13; demo_tree 11]) = (r, w') /\
  w_fds w' = <[AT_FDCWD := 10]> ∅ /\ w_log w' = new /\ Forall (safe_call guest_inode) new.
Proof.
  destruct (pinned_calls_stay_in_view genv0 (Some fs0) demo_kern 1 guest_inode false
              (CUnlink (cs "/data/rootfs/d/f") 0) (demo_world [demo_tree 11; demo_tree 13; demo_tree 11]))
    as (r & w' & new & H1 & H2 & H3 & H4).
  - exact demo_kern_ok.
  - intros fs [= <-]. exact fs0_wf.
  - apply (bool_decide_unpack _). by vm_compute.
  - split; [done|]. repeat constructor; apply demo_view_ok; auto.
  - exists r, w', new. split_and!; [exact H1|exact H2|exact H3|]. apply H4. cbn [call_in].
    exists (cs "/data/rootfs/d"), (cs "f"). split_and!; [done| | |by vm_compute|by vm_compute].
    + repeat constructor; discriminate.
    + exists [cs "data"; cs "rootfs"], [cs "d"]. split_and!; [done| |done| |vm_compute; lia|].
      * repeat constructor; discriminate.
      * left. exists fs0. split; [done|by left].
      * intros q Hq. apply (f_equal reverse) in Hq. rewrite reverse_app in Hq. vm_compute in Hq. discriminate Hq.
Defined.
