(* ===== verification/Dac.v ===== *)
(** * Fake root's bypass of file modes, lent (src/src/monitor/pin.c, dispatch.c)

    A call the host refuses to a fake root is made again with the owner bits it
    lacked lent to the inodes on its way, one at a time, and given back
    afterwards.  The files and the descriptors are those of Pin.v; a change of a
    mode stays, in every tree to come.  The call itself (dispatch_1) and the
    translation of its names are arguments.  Of the lock under which lends take
    turns there is the descriptor, opened and closed; waiting for it, and the
    signal mask, are not modelled. *)

From Stdlib Require Import ZArith Ascii String Lia.
From S2P Require Import Prelude Path PathCanon PathFacts Unistd Fmt ProcStat Resolve L2sName Pin.
From stdpp Require Import base numbers strings gmap list.

Open Scope Z_scope.
Open Scope pin_scope.

Definition DAC_ENTRY := 192.    (* 0300 *)
Definition DAC_LENDS : nat := 16.
Definition R_OWN := 256.        (* 0400 *)
Definition W_OWN := 128.        (* 0200 *)
Definition X_OWN := 64.         (* 0100 *)

Record cng_dac_need := DacNeed { n_parent : Z; n_parent_new : Z; n_leaf : Z; n_leaf_dir : bool }.

Definition no_need : cng_dac_need := DacNeed 0 0 0 false.

Section Dac.
Context (G : genv) (view : option cng_fs) (K : kern).

(** The mode and the missing bits of what [fd] holds, if it is ours to lend. *)
Definition dac_short (fd want : Z) (dir_only : bool) : M (option (Z * Z)) :=
  if want =? 0 then ret None
  else
    s <- sys_fstat fd ;;
    ret (match s with
         | None => None
         | Some (m, uid) =>
             let t := Z.land m S_IFMT in
             if negb (t =? S_IFDIR) && (dir_only || negb (t =? S_IFREG)) then None
             else if negb (uid =? k_uid K) then None
             else
               let l := Z.land (Z.land want (Z.lnot m)) 448 in   (* 0700 *)
               if l =? 0 then None else Some (Z.land m 4095, l)
         end).

(** A descriptor, its mode and the bits it lacks. *)
Abbreviation found := (option (Z * Z * Z)).

Definition at_last (r : cstr) : bool := forallb is_slash r.

Definition none_short (cur : Z) : M found := sys_close cur ;;; ret None.

Fixpoint dac_walk (fuel : nat) (need : cng_dac_need) (cur : Z) (rest : cstr) : M found :=
  match fuel with
  | O => none_short cur
  | S fuel =>
      match skip_slashes rest with
      | [] =>
          s <- dac_short cur (n_leaf need) (n_leaf_dir need) ;;
          match s with
          | Some (m, l) => ret (Some (cur, m, l))
          | None => none_short cur
          end
      | r =>
          let comp := take_while not_slash r in
          let rest := drop_while not_slash r in
          let last := at_last rest in
          if (256 <=? length comp)%nat then none_short cur
          else
            nx <- open_path K cur comp (negb last) true ;;
            if nx =? - EACCES then
              s <- dac_short cur X_OWN true ;;
              match s with
              | Some (m, l) => ret (Some (cur, m, l))
              | None => none_short cur
              end
            else if negb last then
              if nx <? 0 then none_short cur
              else sys_close cur ;;; dac_walk fuel need nx rest
            else if (nx <? 0) && negb (nx =? - ENOENT) then none_short cur
            else
              s <- dac_short cur (if nx <? 0 then n_parent_new need else n_parent need) true ;;
              match s with
              | Some (m, l) => (if 0 <=? nx then sys_close nx else ret tt) ;;; ret (Some (cur, m, l))
              | None =>
                  if 0 <=? nx then
                    s <- dac_short nx (n_leaf need) (n_leaf_dir need) ;;
                    match s with
                    | Some (m, l) => sys_close cur ;;; ret (Some (nx, m, l))
                    | None => sys_close nx ;;; none_short cur
                    end
                  else none_short cur
              end
      end
  end.

(** fcntl F_DUPFD_CLOEXEC. *)
Definition dup_fd (fd : Z) : M Z :=
  t <- tick ;;
  i <- fd_inode fd ;;
  match i with
  | Some i => new_fd K t i
  | None => ret (- EBADF)
  end.

Definition cng_pin_dac_find (dirfd : Z) (host : cstr) (need : cng_dac_need) : M found :=
  if char_is host 0 SLASH then
    if under_proc host then ret None
    else
      let pfx := prefix_of G view host CNG_PATH_MAX in
      cur <- open_path K AT_FDCWD (if (length pfx =? 0)%nat then [SLASH] else pfx) true false ;;
      if cur <? 0 then ret None else dac_walk (S (length host)) need cur (drop (length pfx) host)
  else if dirfd <? 0 then ret None
  else
    cur <- dup_fd dirfd ;;
    if cur <? 0 then ret None else dac_walk (S (length host)) need cur host.

(** fchmodat through a descriptor's link. *)
Definition set_perm (i m : Z) (t : tree) : tree :=
  alter (fun n => Inode m (i_uid n) (i_body n)) i t.

Definition chmod_fd (fd m : Z) : M Z := fun w =>
  let pl := place_of (w_fds w) AT_FDCWD (fd_link fd 32) false in
  let '(r, w) := call_at K (OpChmod m) pl w in
  (r, match pl with
      | AtInode i => if r =? 0 then World (set_perm i m <$> w_trees w) (w_fds w) (w_log w) else w
      | _ => w
      end).

Definition cng_pin_dac_lend (fd lent : Z) : M Z :=
  r <- chmod_fd fd lent ;;
  (if r =? 0 then ret tt else sys_close fd) ;;; ret r.

Definition cng_pin_dac_restore (fd orig lent : Z) : M unit :=
  m <- fd_mode fd ;;
  (if Z.land m 4095 =? lent then chmod_fd fd orig ;;; ret tt else ret tt) ;;;
  sys_close fd.

(** *** The names of a call *)

(** A name: the descriptor it is against, which argument points at it, whether
    its last component is followed, and what it needs. *)
Record dac_arg := DacArg { v_dirfd : Z; v_path : nat; v_deref : bool; v_need : cng_dac_need }.

Definition entry_need : cng_dac_need := DacNeed DAC_ENTRY DAC_ENTRY 0 false.
Definition bit (a m : Z) : bool := negb (Z.land a m =? 0).

(** [a]: the arguments; [how]: the flags of openat2's struct, where it can be
    read; [l2s]: cng_g_l2s. *)
Definition dac_args (l2s : bool) (nr : Z) (a : nat -> Z) (how : option Z) : list dac_arg :=
  let one d p f := [DacArg d p f no_need] in
  let isin l := existsb (Z.eqb nr) l in
  if isin [__NR_openat; __NR_openat2] then
    match (if nr =? __NR_openat2 then how else Some (a 2%nat)) with
    | None => []
    | Some fl =>
        let deref := negb (bit fl O_NOFOLLOW) && negb (Z.land fl 192 =? 192) in  (* O_CREAT|O_EXCL *)
        let need :=
          if Z.land fl 4210688 =? 4210688                    (* O_TMPFILE *)
          then DacNeed 0 0 DAC_ENTRY true
          else if negb (bit fl 2097152) then                 (* O_PATH *)
            let acc := Z.land fl 3 in
            let leaf := if acc =? 0 then R_OWN else if acc =? 1 then W_OWN else 384 in
            DacNeed 0 (if bit fl O_CREAT then DAC_ENTRY else 0)
                    (if bit fl 512 then Z.lor leaf W_OWN else leaf) false   (* O_TRUNC *)
          else no_need in
        [DacArg (a 0%nat) 1 deref need]
    end
  else if isin [__NR_mkdirat; __NR_mknodat; __NR_unlinkat] then [DacArg (a 0%nat) 1 false entry_need]
  else if isin [__NR_symlinkat] then [DacArg (a 1%nat) 2 false entry_need]
  else if isin [__NR_renameat; __NR_renameat2] then
    [DacArg (a 0%nat) 1 false (DacNeed DAC_ENTRY DAC_ENTRY W_OWN true);
     DacArg (a 2%nat) 3 false
       (if (nr =? __NR_renameat2) && bit (u32 (a 4%nat)) 2          (* RENAME_EXCHANGE *)
        then DacNeed DAC_ENTRY DAC_ENTRY W_OWN true else entry_need)]
  else if isin [__NR_linkat] then
    [DacArg (a 0%nat) 1 (bit (s32 (a 4%nat)) 1024)                   (* AT_SYMLINK_FOLLOW *)
            (if l2s then DacNeed DAC_ENTRY 0 0 false else no_need);
     DacArg (a 2%nat) 3 false entry_need]
  else if isin [__NR_truncate] then [DacArg AT_FDCWD 0 true (DacNeed 0 0 W_OWN false)]
  else if isin [__NR_chdir; __NR_chroot] then [DacArg AT_FDCWD 0 true (DacNeed 0 0 X_OWN true)]
  else if isin [__NR_newfstatat; __NR_faccessat2; __NR_fchmodat2; __NR_utimensat] then
    one (a 0%nat) 1%nat (negb (bit (s32 (a 3%nat)) AT_SYMLINK_NOFOLLOW))
  else if isin [__NR_statx; __NR_setxattrat; __NR_getxattrat; __NR_listxattrat; __NR_removexattrat] then
    one (a 0%nat) 1%nat (negb (bit (s32 (a 2%nat)) AT_SYMLINK_NOFOLLOW))
  else if isin [__NR_fchownat; __NR_file_getattr; __NR_file_setattr] then
    one (a 0%nat) 1%nat (negb (bit (s32 (a 4%nat)) AT_SYMLINK_NOFOLLOW))
  else if isin [__NR_faccessat; __NR_fchmodat] then one (a 0%nat) 1%nat true
  else if isin [__NR_readlinkat] then one (a 0%nat) 1%nat false
  else if isin [__NR_name_to_handle_at] then one (a 0%nat) 1%nat (bit (s32 (a 4%nat)) 1024)
  else if isin [__NR_inotify_add_watch] then one AT_FDCWD 1%nat (negb (bit (u32 (a 2%nat)) 33554432)) (* IN_DONT_FOLLOW *)
  else if isin [__NR_statfs; __NR_getxattr; __NR_listxattr; __NR_setxattr; __NR_removexattr] then
    one AT_FDCWD 0%nat true
  else if isin [__NR_lgetxattr; __NR_llistxattr; __NR_lsetxattr; __NR_lremovexattr] then
    one AT_FDCWD 0%nat false
  else [].

Definition dac_faked (nr : Z) : bool :=
  existsb (Z.eqb nr) [__NR_fchmodat; __NR_fchmodat2; __NR_fchownat; __NR_fchown; __NR_fchmod; __NR_utimensat].

(** *** The bypass *)

(** The host path of a name, [None] where it has none; the name an argument
    points at; and the call made again. *)
Context (xlate : Z -> cstr -> bool -> option cstr) (path : nat -> option cstr) (redo : M Z).

Fixpoint dac_next (vs : list dac_arg) : M found :=
  match vs with
  | [] => ret None
  | v :: vs =>
      match path (v_path v) with
      | None | Some [] => dac_next vs
      | Some s =>
          match xlate (v_dirfd v) s (v_deref v) with
          | None => dac_next vs
          | Some p =>
              f <- cng_pin_dac_find (s32 (v_dirfd v)) p (v_need v) ;;
              match f with
              | None => dac_next vs
              | Some x => ret (Some x)
              end
          end
      end
  end.

(** The inodes lent, the last first. *)
Fixpoint lend_loop (n : nat) (vs : list dac_arg) (led : list (Z * Z * Z)) (r : Z)
    : M (list (Z * Z * Z) * Z) :=
  match n with
  | O => ret (led, r)
  | S n =>
      f <- dac_next vs ;;
      match f with
      | None => ret (led, r)
      | Some (fd, mode, lack) =>
          let lent := Z.lor mode lack in
          e <- cng_pin_dac_lend fd lent ;;
          if negb (e =? 0) then ret (led, r)
          else
            r <- redo ;;
            let led := (fd, mode, lent) :: led in
            if negb (r =? - EACCES) then ret (led, r) else lend_loop n vs led r
      end
  end.

Fixpoint restore_all (led : list (Z * Z * Z)) : M unit :=
  match led with
  | [] => ret tt
  | (fd, orig, lent) :: led => cng_pin_dac_restore fd orig lent ;;; restore_all led
  end.

(** [copied]: the names could be copied from the guest; [rootfs]: the root the
    lock is taken on. *)
Definition dac_bypass (l2s : bool) (nr : Z) (a : nat -> Z) (how : option Z) (copied : bool)
    (rootfs : cstr) : M Z :=
  let vs := dac_args l2s nr a how in
  r <- (if (length vs =? 0)%nat || negb copied then ret (- EACCES)
        else
          lk <- (if (length rootfs <? CNG_PATH_MAX)%nat
                 then open_path K AT_FDCWD (if (length rootfs =? 0)%nat then [SLASH] else rootfs) true false
                 else ret (-1)) ;;
          x <- lend_loop DAC_LENDS vs [] (- EACCES) ;;
          let '(led, r) := x in
          restore_all led ;;;
          (if 0 <=? lk then sys_close lk else ret tt) ;;; ret r) ;;
  ret (if (r =? - EACCES) && dac_faked nr then 0 else r).

Definition cng_dispatch (fake_root : bool) (l2s : bool) (nr : Z) (a : nat -> Z) (how : option Z)
    (copied : bool) (rootfs : cstr) : M Z :=
  r <- redo ;;
  if (r =? - EACCES) && fake_root then dac_bypass l2s nr a how copied rootfs else ret r.
End Dac.
