(* ===== verification/DacProps.v ===== *)
(** * Lent modes are given back

    Whatever becomes of the other files meanwhile, an inode whose mode nobody
    else changes has, after a call that lent it, the mode it had before; and the
    descriptors opened on the way are closed. *)

From Stdlib Require Import ZArith Ascii String Lia.
From S2P Require Import Prelude Path PathCanon PathFacts Unistd Fmt ProcStat Resolve L2sName Pin PinProps PathProps PinCalls Dac.
From stdpp Require Import base numbers strings gmap list.

Open Scope Z_scope.
Open Scope pin_scope.

(** A mode with its permissions replaced. *)
Definition chmoded (m x : Z) : Z := Z.lor (Z.land m S_IFMT) (Z.land x 4095).

Lemma masks_apart x : Z.land (Z.land x S_IFMT) 4095 = 0.
Proof. rewrite <-Z.land_assoc. apply Z.land_0_r. Qed.

Lemma perms_of_chmoded m x : Z.land (chmoded m x) 4095 = Z.land x 4095.
Proof.
  unfold chmoded. rewrite Z.land_lor_distr_l, masks_apart, <-Z.land_assoc. done.
Qed.

Lemma chmoded_chmoded m x y : chmoded (chmoded m x) y = chmoded m y.
Proof.
  unfold chmoded. f_equal. rewrite Z.land_lor_distr_l, <-!Z.land_assoc.
  change (Z.land 4095 S_IFMT) with 0. change (Z.land S_IFMT S_IFMT) with S_IFMT. by rewrite Z.land_0_r, Z.lor_0_r.
Qed.

Lemma mode_of_set n x : mode_of (Inode x (i_uid n) (i_body n)) = chmoded (mode_of n) x.
Proof.
  unfold mode_of, chmoded. cbn [i_perm i_body]. f_equal. rewrite Z.land_lor_distr_l, <-(Z.land_assoc _ 4095 _).
  change (Z.land 4095 S_IFMT) with 0. rewrite Z.land_0_r, Z.lor_0_r.
  destruct (i_body n); [done|done|]. by rewrite <-Z.land_assoc.
Qed.

Lemma chmoded_same n : chmoded (mode_of n) (Z.land (mode_of n) 4095) = mode_of n.
Proof.
  rewrite <-mode_of_set. unfold mode_of. cbn [i_perm i_body]. f_equal.
  rewrite Z.land_lor_distr_l. set (p := i_perm n). clearbody p.
  assert (Hp : Z.land (Z.land (Z.land p 4095) 4095) 4095 = Z.land p 4095) by (by rewrite <-!Z.land_assoc).
  rewrite Z.land_lor_distr_l, Hp.
  destruct (i_body n); [done|done|]. by rewrite masks_apart, Z.land_0_l.
Qed.

(** What is lent is a permission. *)
Lemma lent_perms m l : Z.land l 448 = l ->
  Z.land (Z.lor (Z.land m 4095) l) 4095 = Z.lor (Z.land m 4095) l.
Proof.
  intros Hl. rewrite Z.land_lor_distr_l, <-Z.land_assoc. f_equal. rewrite <-Hl, <-Z.land_assoc. done.
Qed.

Lemma set_perm_ne (t : tree) i j m : j <> i -> set_perm j m t !! i = t !! i.
Proof. intros H. unfold set_perm. by apply lookup_alter_ne. Qed.

Lemma set_perm_eq (t : tree) i m n : t !! i = Some n -> set_perm i m t !! i = Some (Inode m (i_uid n) (i_body n)).
Proof. intros H. unfold set_perm, tree in *. by rewrite lookup_alter_eq, H. Qed.

Section Restore.
Context (G : genv) (view : option cng_fs) (K : kern).
Context (Hfd : forall t fds fd, k_newfd K t fds = Some fd -> fd_ok fd /\ fds !! fd = None).
Context (Hchmod : forall t j n x, t !! j = Some n -> i_uid n = k_uid K -> k_call K t (OpChmod x) (AtInode j) = 0).
Context (i u : Z).

(** In every tree to come the inode is there, with this mode and this owner. *)
Definition has (m : Z) (w : world) : Prop :=
  w_trees w <> [] /\ Forall (fun t : tree => exists n, t !! i = Some n /\ mode_of n = m /\ i_uid n = u) (w_trees w).

Lemma has_tick m w : has m w -> exists t w', tick w = (t, w') /\ has m w' /\ w_fds w' = w_fds w /\
  exists n, t !! i = Some n /\ mode_of n = m /\ i_uid n = u.
Proof.
  intros [Hn Hf]. unfold tick. destruct (w_trees w) as [|t [|t' ts]] eqn:E; [done|..].
  - exists t, w. inv Hf. split_and!; try done. split; rewrite E; [done|by constructor].
  - inv Hf. eexists _, _. split_and!; try done.
Qed.

Lemma has_same m w : has m w -> chmoded m (Z.land m 4095) = m.
Proof.
  intros [Hn Hf]. destruct (w_trees w) as [|t ts]; [done|]. inv Hf. destruct H1 as (n & _ & <- & _).
  apply chmoded_same.
Qed.

Abbreviation any := (fun _ : Z => True).

Lemma has_open m dfd path dir nf w : has m w ->
  exists r w', open_path K dfd path dir nf w = (r, w') /\ has m w' /\ opened (w_fds w) r w' any.
Proof.
  intros Hw. unfold open_path, mthen. destruct (has_tick m w Hw) as (t & w1 & -> & Hw1 & F1 & _).
  unfold fd_inode, ret. destruct (w_fds w1 !! dfd) as [d|].
  2: { eexists _, _. split; [done|]. split; [done|]. left. done. }
  destruct (if nf && one_comp path then _ else _) as [e|j].
  { eexists _, _. split; [done|]. split; [done|]. left. split; [|done].
    destruct (Z.ltb_spec e 0); unfold EACCES; lia. }
  unfold new_fd. destruct (k_newfd K t (w_fds w1)) as [fd|] eqn:En.
  2: { eexists _, _. split; [done|]. split; [done|]. by left. }
  destruct (Hfd _ _ _ En) as [N1 N2]. eexists _, _. split; [done|]. rewrite F1 in *. split; [done|].
  right. by exists j.
Qed.

(** What is short of a file that is held. *)
Definition lacks (m j mo l : Z) : Prop := j = i -> mo = Z.land m 4095 /\ u = k_uid K /\ Z.land l 448 = l.

Lemma has_short m fd want dir j w : has m w -> w_fds w !! fd = Some j ->
  exists s w', dac_short K fd want dir w = (s, w') /\ has m w' /\ w_fds w' = w_fds w /\
    forall mo l, s = Some (mo, l) -> lacks m j mo l.
Proof.
  intros Hw Hj. unfold dac_short. case_if; [eexists _, _; split; [done|]; by split_and!|].
  unfold sys_fstat, mthen. destruct (has_tick m w Hw) as (t & w1 & -> & Hw1 & F1 & n & Hn & Hm & Hu).
  unfold fd_inode, ret. rewrite F1, Hj. cbn [mbind option_bind].
  eexists _, _. split; [done|]. split_and!; [done|done|]. intros mo l Hs ->.
  rewrite Hn in Hs. cbn [mbind option_bind] in Hs. case_if_in Hs; [done|].
  destruct (Z.eqb_spec (i_uid n) (k_uid K)) as [E|]; cbn [negb] in Hs; [|done].
  case_if_in Hs; [done|]. injection Hs as <- <-. rewrite Hm. split_and!; [done|congruence|].
  rewrite <-Z.land_assoc. done.
Qed.

(** A search ended: nothing is open but what it found. *)
Definition searched (m : Z) (fds : gmap Z Z) (x : option (Z * Z * Z)) (w : world) : Prop :=
  has m w /\
  match x with
  | None => w_fds w = fds
  | Some (fd, mo, l) => exists j, fd_ok fd /\ fds !! fd = None /\ w_fds w = <[fd := j]> fds /\ lacks m j mo l
  end.

Lemma searched_giveup m fds cur c w : has m w -> w_fds w = <[cur := c]> fds -> fds !! cur = None ->
  exists x w', none_short cur w = (x, w') /\ searched m fds x w'.
Proof.
  intros Hw Hf Hc. unfold none_short, mthen, sys_close, ret. eexists _, _. split; [done|]. split; [done|].
  cbn [w_fds]. rewrite Hf, delete_insert_eq. by apply delete_id.
Qed.

(** Asked of the directory at hand, and let go of if it has nothing to lend. *)
Lemma searched_ask m fds cur c w want dir : has m w -> w_fds w = <[cur := c]> fds -> fds !! cur = None -> fd_ok cur ->
  exists x w', (s <- dac_short K cur want dir ;;
                match s with Some (m, l) => ret (Some (cur, m, l)) | None => none_short cur end) w = (x, w') /\
    searched m fds x w'.
Proof.
  intros Hw Hf Hc Ho. unfold mthen.
  destruct (has_short m cur want dir c w Hw) as (s & w1 & -> & Hw1 & F1 & Hs); [by rewrite Hf, lookup_insert_eq|].
  destruct s as [[mo l]|]; [|by apply searched_giveup with c; [..|rewrite F1|]].
  eexists _, _. split; [done|]. split; [done|]. exists c. rewrite F1. split_and!; auto.
Qed.

Lemma closed_under (fds : gmap Z Z) cur c nx j w :
  w_fds w = <[nx := j]> (<[cur := c]> fds) -> fds !! cur = None -> nx <> cur ->
  delete cur (w_fds w) = <[nx := j]> fds.
Proof. intros -> Hc Hn. rewrite delete_insert_ne, delete_insert_eq by done. by rewrite delete_id. Qed.

(** The last component is there: its directory is asked, then itself. *)
Lemma searched_leaf m fds cur c nx j w (pw lw : Z) (ld : bool) :
  has m w -> w_fds w = <[nx := j]> (<[cur := c]> fds) -> fds !! cur = None -> fds !! nx = None -> nx <> cur ->
  fd_ok cur -> fd_ok nx ->
  exists x w',
    (s <- dac_short K cur pw true ;;
     match s with
     | Some (m, l) => (if 0 <=? nx then sys_close nx else ret tt) ;;; ret (Some (cur, m, l))
     | None =>
         if 0 <=? nx then
           s <- dac_short K nx lw ld ;;
           match s with
           | Some (m, l) => sys_close cur ;;; ret (Some (nx, m, l))
           | None => sys_close nx ;;; none_short cur
           end
         else none_short cur
     end) w = (x, w') /\ searched m fds x w'.
Proof.
  intros Hw Hf Hc Hx Hne Ho Hox. rewrite (proj2 (Z.leb_le _ _)) by flia. unfold mthen at 1.
  destruct (has_short m cur pw true c w Hw) as (s & w1 & -> & Hw1 & F1 & Hs).
  { by rewrite Hf, lookup_insert_ne, lookup_insert_eq. }
  assert (Hd : delete nx (<[nx := j]> (<[cur := c]> fds)) = <[cur := c]> fds).
  { rewrite delete_insert_eq. apply delete_id. by rewrite lookup_insert_ne. }
  destruct s as [[mo l]|].
  { unfold mthen, sys_close, ret. eexists _, _. split; [done|]. split; [done|]. exists c. cbn [w_fds].
    rewrite F1, Hf, Hd. split_and!; auto. }
  unfold mthen at 1.
  destruct (has_short m nx lw ld j w1 Hw1) as (s & w2 & -> & Hw2 & F2 & Hs2).
  { by rewrite F1, Hf, lookup_insert_eq. }
  destruct s as [[mo l]|].
  { unfold mthen, sys_close, ret. eexists _, _. split; [done|]. split; [done|]. exists j. cbn [w_fds].
    rewrite (closed_under fds cur c nx j) by (done || congruence). split_and!; auto. }
  unfold mthen, sys_close. apply (searched_giveup m fds cur c); [done| |done].
  cbn [w_fds]. by rewrite F2, F1, Hf, Hd.
Qed.

Lemma dac_walk_searched m need fuel : forall cur rest c fds w,
  has m w -> w_fds w = <[cur := c]> fds -> fds !! cur = None -> fd_ok cur ->
  exists x w', dac_walk K fuel need cur rest w = (x, w') /\ searched m fds x w'.
Proof.
  induction fuel as [|fuel IH]; intros cur rest c fds w Hw Hf Hc Ho; cbn [dac_walk];
    [by apply searched_giveup with c|].
  destruct (skip_slashes rest) as [|c0 r0]; [by apply searched_ask with c|].
  set (rr := c0 :: r0). case_if; [by apply searched_giveup with c|]. unfold mthen at 1.
  destruct (has_open m cur (take_while not_slash rr) (negb (at_last (drop_while not_slash rr))) true w Hw)
    as (nx & w1 & -> & Hw1 & O1). rewrite Hf in O1.
  assert (Hneg : nx < 0 -> w_fds w1 = <[cur := c]> fds) by (destruct O1 as [[? ?]|(? & ? & _)]; [done|flia]).
  case_if; [apply searched_ask with c; [done|apply Hneg|done|done];
            match goal with H : (nx =? _) = true |- _ => apply Z.eqb_eq in H; unfold EACCES in H; lia end|].
  destruct O1 as [[Hn F1]|(j & Hn & Hx & F1 & _)].
  - rewrite (proj2 (Z.ltb_lt nx 0)), (proj2 (Z.leb_gt 0 nx)) by done. cbn [andb].
    case_if; [by apply searched_giveup with c|]. case_if; [by apply searched_giveup with c|].
    by apply searched_ask with c.
  - rewrite (proj2 (Z.ltb_ge nx 0)) by flia. cbn [andb]. apply lookup_insert_None in Hx as [Hx Hne].
    case_if; [|by apply searched_leaf with c j].
    unfold mthen, sys_close. apply (IH nx _ j); [done|cbn [w_fds]; by apply closed_under with c|done|done].
Qed.

Lemma dac_find_searched m dirfd host need w : has m w ->
  exists x w', cng_pin_dac_find G view K dirfd host need w = (x, w') /\ searched m (w_fds w) x w'.
Proof.
  intros Hw. assert (Hno : forall w', has m w' -> w_fds w' = w_fds w -> searched m (w_fds w) None w') by (by split).
  unfold cng_pin_dac_find. case_if; (case_if; [by eexists _, _; split; [done|apply Hno]|]); cbv zeta; unfold mthen.
  - destruct (has_open m AT_FDCWD (if (length (prefix_of G view host CNG_PATH_MAX) =? 0)%nat then [SLASH]
      else prefix_of G view host CNG_PATH_MAX) true false w Hw) as (cur & w1 & -> & Hw1 & O1).
    destruct O1 as [[Hn F1]|(c & Hn & Hx & F1 & _)].
    + rewrite (proj2 (Z.ltb_lt _ _)) by done. eexists _, _. split; [done|]. by apply Hno.
    + rewrite (proj2 (Z.ltb_ge _ _)) by flia. by apply dac_walk_searched with c.
  - unfold dup_fd, mthen. destruct (has_tick m w Hw) as (t & w1 & -> & Hw1 & F1 & _).
    unfold fd_inode, ret. destruct (w_fds w1 !! dirfd) as [c|].
    2: { eexists _, _. split; [done|]. by apply Hno. }
    unfold new_fd. destruct (k_newfd K t (w_fds w1)) as [fd|] eqn:En.
    2: { eexists _, _. split; [done|]. by apply Hno. }
    destruct (Hfd _ _ _ En) as [N1 N2]. rewrite (proj2 (Z.ltb_ge _ _)) by flia.
    apply dac_walk_searched with c; [done|cbn [w_fds]; by rewrite F1|by rewrite <-F1|done].
Qed.

Lemma has_chmod m fd x j w : has m w -> w_fds w !! fd = Some j -> fd_ok fd ->
  exists r w', chmod_fd K fd x w = (r, w') /\ w_fds w' = w_fds w /\
    (j <> i -> has m w') /\ (j = i -> u = k_uid K -> r = 0 /\ has (chmoded m x) w').
Proof.
  intros Hw Hj Ho. unfold chmod_fd, place_of. rewrite link_fd_link, Hj by done.
  unfold call_at, mthen. destruct (has_tick m w Hw) as (t & w1 & -> & Hw1 & F1 & n & Hn & Hm & Hu).
  eexists _, _. split; [done|]. split; [case_if; done|]. destruct Hw1 as [N1 A1]. split.
  - intros Hne. case_if; [|done]. split; cbn [w_trees]; [by destruct (w_trees w1)|].
    apply Forall_fmap. eapply Forall_impl; [exact A1|]. intros t' (n' & E' & H').
    exists n'. split; [|done]. unfold compose. by rewrite set_perm_ne.
  - intros -> Huid. rewrite (Hchmod t i n x Hn) by congruence. split; [done|].
    cbv iota. split; cbn [w_trees]; [by destruct (w_trees w1)|].
    apply Forall_fmap. eapply Forall_impl; [exact A1|]. intros t' (n' & E' & <- & Hu').
    exists (Inode x (i_uid n') (i_body n')). unfold compose. rewrite (set_perm_eq _ _ _ _ E').
    split_and!; [done|by rewrite mode_of_set|done].
Qed.

(** *** The lends outstanding *)

(** Giving [led] back takes the descriptors [fds] to [fds0], and the inode's mode
    [m] to [m0]. *)
Inductive owed (fds0 : gmap Z Z) (m0 : Z) : list (Z * Z * Z) -> gmap Z Z -> Z -> Prop :=
  | owed_nil : owed fds0 m0 [] fds0 m0
  | owed_cons fd o l led (fds : gmap Z Z) j m m1 :
      fd_ok fd -> fds !! fd = Some j ->
      (j = i -> u = k_uid K /\ Z.land m 4095 = l /\ m1 = chmoded m o) -> (j <> i -> m1 = m) ->
      owed fds0 m0 led (delete fd fds) m1 ->
      owed fds0 m0 ((fd, o, l) :: led) fds m.

Lemma owed_inv fds0 m0 fd o l led fds m : owed fds0 m0 ((fd, o, l) :: led) fds m ->
  exists j m1, fd_ok fd /\ fds !! fd = Some j /\
    (j = i -> u = k_uid K /\ Z.land m 4095 = l /\ m1 = chmoded m o) /\ (j <> i -> m1 = m) /\
    owed fds0 m0 led (delete fd fds) m1.
Proof. inversion 1; subst. by eexists _, _. Qed.

Lemma restore_owed fds0 m0 led : forall fds m w,
  owed fds0 m0 led fds m -> has m w -> w_fds w = fds ->
  exists w', restore_all K led w = (tt, w') /\ has m0 w' /\ w_fds w' = fds0.
Proof.
  induction led as [|[[fd o] l] led IH]; intros fds m w Ho Hw Hf.
  { inversion Ho; subst. by exists w. }
  apply owed_inv in Ho as (j & m1 & Hok & Hj & Hi & Hni & Ho).
  cbn [restore_all]. unfold cng_pin_dac_restore, mthen at 1 2, fd_mode at 1, sys_fstat, mthen.
  destruct (has_tick m w Hw) as (t & w1 & -> & Hw1 & F1 & n & Hn & Hm & _).
  unfold fd_inode, ret. rewrite F1, Hf, Hj. cbn [mbind option_bind].
  destruct (has_chmod m fd o j w1 Hw1) as (r & w2 & E2 & F2 & C1 & C2); [by rewrite F1, Hf|done|].
  destruct (decide (j = i)) as [->|Hne].
  - destruct (Hi eq_refl) as (Hu & Hl & ->). rewrite Hn. cbn [mbind option_bind].
    rewrite Hm, Hl, Z.eqb_refl, E2. destruct (C2 eq_refl Hu) as [_ Hw2].
    unfold sys_close. eapply IH; [eassumption|done|]. cbn [w_fds]. congruence.
  - rewrite (Hni Hne) in *. unfold sys_close. case_if.
    + rewrite E2. eapply IH; [eassumption|by apply C1|]. cbn [w_fds]. congruence.
    + eapply IH; [eassumption|done|]. cbn [w_fds]. congruence.
Qed.

(** A lend comes on top of those outstanding. *)
Lemma owed_lend fds0 m0 led (fds : gmap Z Z) m fd j mo l w :
  owed fds0 m0 led fds m -> has m w -> fd_ok fd -> fds !! fd = None -> lacks m j mo l ->
  owed fds0 m0 ((fd, mo, Z.lor mo l) :: led) (<[fd := j]> fds)
       (if decide (j = i) then chmoded m (Z.lor mo l) else m).
Proof.
  intros Ho Hw Hok Hx Hl. apply owed_cons with j m; [done|by rewrite lookup_insert_eq|..].
  - intros Hj. destruct (Hl Hj) as (-> & Hu & Hb). rewrite decide_True by done. split_and!; [done|..].
    + by rewrite perms_of_chmoded, lent_perms.
    + by rewrite chmoded_chmoded, (has_same m w).
  - intros Hj. by rewrite decide_False.
  - by rewrite delete_insert_eq, delete_id.
Qed.

(** A descriptor the call opened stays. *)
Lemma owed_open fds0 m0 led fds m fd j :
  owed fds0 m0 led fds m -> fds !! fd = None ->
  owed (<[fd := j]> fds0) m0 led (<[fd := j]> fds) m /\ fds0 !! fd = None.
Proof.
  induction 1 as [|fd1 o l led fds j1 m m1 Hok Hj Hi Hni _ IH]; intros Hx; [by split; [constructor|]|].
  assert (Hne : fd1 <> fd) by congruence.
  destruct IH as [IH1 IH2]; [by rewrite lookup_delete_ne|]. split; [|done].
  apply owed_cons with j1 m1; [done|by rewrite lookup_insert_ne|done|done|].
  by rewrite delete_insert_ne.
Qed.

(** The call itself: it leaves the inode's mode alone, and opens at most the
    descriptor it answers. *)
Context (xlate : Z -> cstr -> bool -> option cstr) (path : nat -> option cstr) (redo : M Z).

Definition calls (fds : gmap Z Z) (r : Z) (fds' : gmap Z Z) : Prop :=
  fds' = fds \/ exists j, 0 <= r /\ fds !! r = None /\ fds' = <[r := j]> fds.

Context (Hredo : forall w r w', redo w = (r, w') ->
  (forall m, has m w -> has m w') /\ calls (w_fds w) r (w_fds w')).

Lemma dac_next_searched m vs : forall w, has m w ->
  exists x w', dac_next G view K xlate path vs w = (x, w') /\ searched m (w_fds w) x w'.
Proof.
  induction vs as [|v vs IH]; intros w Hw; cbn [dac_next]; [by eexists _, _; split; [done|]|].
  destruct (path (v_path v)) as [[|c0 s]|]; [by apply IH| |by apply IH].
  destruct (xlate _ _ _) as [p|]; [|by apply IH]. unfold mthen.
  destruct (dac_find_searched m (s32 (v_dirfd v)) p (v_need v) w Hw) as (x & w1 & -> & Hw1 & H1).
  destruct x as [x|]; [by eexists _, _; split; [done|]|].
  destruct (IH w1 Hw1) as (x & w2 & -> & H2). rewrite H1 in H2. by eexists _, _; split; [done|].
Qed.

Lemma lend_has m fd lent j w : has m w -> w_fds w !! fd = Some j -> fd_ok fd ->
  (j = i -> u = k_uid K) ->
  exists e w', cng_pin_dac_lend K fd lent w = (e, w') /\
    ((e = 0 /\ w_fds w' = w_fds w /\ has (if decide (j = i) then chmoded m lent else m) w') \/
     (e <> 0 /\ w_fds w' = delete fd (w_fds w) /\ has m w')).
Proof.
  intros Hw Hj Ho Hu. unfold cng_pin_dac_lend, mthen.
  destruct (has_chmod m fd lent j w Hw Hj Ho) as (r & w1 & -> & F1 & C1 & C2).
  assert (Hi : j = i -> r = 0) by (intros E; by apply C2; auto).
  destruct (Z.eqb_spec r 0) as [->|Hr]; unfold ret, sys_close.
  - eexists _, _. split; [done|]. left. split_and!; [done|done|].
    destruct (decide (j = i)) as [E|E]; [by apply C2; auto|by apply C1].
  - eexists _, _. split; [done|]. right. split_and!; [done|cbn [w_fds]; by rewrite F1|].
    apply C1. intros E. by apply Hr, Hi.
Qed.

(** The calls made with what is lent. *)
Lemma lend_loop_owed fds0 m0 vs n : forall led r m w,
  has m w -> owed fds0 m0 led (w_fds w) m -> r = - EACCES ->
  exists led' r' w' m' fds', lend_loop G view K xlate path redo n vs led r w = ((led', r'), w') /\
    has m' w' /\ owed fds' m0 led' (w_fds w') m' /\ calls fds0 r' fds'.
Proof.
  induction n as [|n IH]; intros led r m w Hw Ho ->; cbn [lend_loop].
  { exists led, (- EACCES), w, m, fds0. split_and!; [done|done|done|by left]. }
  unfold mthen at 1.
  destruct (dac_next_searched m vs w Hw) as (x & w1 & -> & Hw1 & H1).
  destruct x as [[[fd mo] l]|].
  2: { exists led, (- EACCES), w1, m, fds0. rewrite H1. split_and!; [done|done|done|by left]. }
  destruct H1 as (j & Hok & Hx & F1 & Hl). cbv zeta. unfold mthen at 1.
  destruct (lend_has m fd (Z.lor mo l) j w1 Hw1) as (e & w2 & -> & E2);
    [by rewrite F1, lookup_insert_eq|done|intros E; by apply Hl|].
  destruct E2 as [(-> & F2 & Hw2)|(He & F2 & Hw2)].
  2: { rewrite (proj2 (Z.eqb_neq _ _)) by done. cbn [negb].
       exists led, (- EACCES), w2, m, fds0. split_and!; [done|done| |by left].
       by rewrite F2, F1, delete_insert_eq, delete_id. }
  pose proof (owed_lend fds0 m0 led (w_fds w) m fd j mo l w Ho Hw Hok Hx Hl) as Ho2.
  rewrite <-F1, <-F2 in Ho2. set (m2 := if decide (j = i) then _ else _) in *. clearbody m2.
  rewrite Z.eqb_refl. cbn [negb]. unfold mthen at 1. destruct (redo w2) as [r w3] eqn:Er.
  destruct (Hredo _ _ _ Er) as [R1 R2]. specialize (R1 m2 Hw2).
  assert (Hend : exists led' r' w' m' fds', ((fd, mo, Z.lor mo l) :: led, r, w3) = (led', r', w') /\
    has m' w' /\ owed fds' m0 led' (w_fds w') m' /\ calls fds0 r' fds').
  { destruct R2 as [R2|(k & Hr & Rx & R2)].
    - eexists _, _, _, _, fds0. split; [done|]. rewrite R2. split_and!; [done|done|by left].
    - destruct (owed_open _ _ _ _ _ r k Ho2 Rx) as [Ho3 Hx3].
      eexists _, _, _, _, (<[r := k]> fds0). split; [done|]. rewrite R2. split_and!; [done|done|].
      right. by exists k. }
  destruct (Z.eqb_spec r (- EACCES)) as [->|Hr]; cbn [negb]; [|exact Hend].
  apply IH with m2; [done| |done]. destruct R2 as [R2|(k & Hr & _)]; [by rewrite R2|unfold EACCES in Hr; lia].
Qed.

Lemma calls_refused fds fds' : calls fds (- EACCES) fds' -> fds' = fds.
Proof. intros [->|(j & Hr & _)]; [done|unfold EACCES in Hr; lia]. Qed.

(** The descriptor of the lock comes and goes. *)
Lemma calls_close (fds : gmap Z Z) lk c r fds' :
  fds !! lk = None -> calls (<[lk := c]> fds) r fds' -> calls fds r (delete lk fds').
Proof.
  intros Hx [->|(j & Hr & Rx & ->)].
  - left. by rewrite delete_insert_eq, delete_id.
  - apply lookup_insert_None in Rx as [Rx Hne]. right. exists j. split_and!; [done|done|].
    by rewrite delete_insert_ne, delete_insert_eq, delete_id.
Qed.

Lemma lent_and_restored m vs w : has m w ->
  exists r w', (x <- lend_loop G view K xlate path redo DAC_LENDS vs [] (- EACCES) ;;
                let '(led, r) := x in restore_all K led ;;; ret r) w = (r, w') /\
    has m w' /\ calls (w_fds w) r (w_fds w').
Proof.
  intros Hw. unfold mthen at 1.
  destruct (lend_loop_owed (w_fds w) m vs DAC_LENDS [] (- EACCES) m w Hw) as (led & r & w1 & m1 & fds1 & -> & Hw1 & Ho & Hc);
    [constructor|done|].
  unfold mthen. destruct (restore_owed _ _ _ _ _ w1 Ho Hw1 eq_refl) as (w2 & -> & Hw2 & F2).
  exists r, w2. rewrite F2. by split_and!.
Qed.

Lemma bypass_restores m l2s nr a how copied rootfs w : has m w ->
  exists r w', dac_bypass G view K xlate path redo l2s nr a how copied rootfs w = (r, w') /\
    has m w' /\ calls (w_fds w) r (w_fds w').
Proof.
  intros Hw. unfold dac_bypass. cbv zeta. set (vs := dac_args l2s nr a how).
  match goal with |- exists r w', mthen ?body _ w = _ /\ _ =>
    assert (Hb : exists r w', body w = (r, w') /\ has m w' /\ calls (w_fds w) r (w_fds w')) end.
  { case_if; [by eexists _, _; split; [done|]; split; [|left]|]. unfold mthen at 1.
    assert (Hlk : exists lk w1, (if (length rootfs <? CNG_PATH_MAX)%nat
                 then open_path K AT_FDCWD (if (length rootfs =? 0)%nat then [SLASH] else rootfs) true false
                 else ret (-1)) w = (lk, w1) /\ has m w1 /\ opened (w_fds w) lk w1 any).
    { case_if; [by apply has_open|]. eexists _, _. split; [done|]. split; [done|]. left. by split. }
    destruct Hlk as (lk & w1 & -> & Hw1 & O1).
    destruct (lent_and_restored m vs w1 Hw1) as (r & w2 & E2 & Hw2 & C2).
    unfold mthen in *. destruct (lend_loop _ _ _ _ _ _ _ _ _ _ w1) as [[led r1] w3].
    destruct (restore_all K led w3) as [[] w4]. injection E2 as -> ->. exists r.
    destruct O1 as [[Hn F1]|(c & Hn & Hx & F1 & _)]; rewrite F1 in C2.
    - rewrite (proj2 (Z.leb_gt 0 lk)) by done. by eexists _.
    - rewrite (proj2 (Z.leb_le 0 lk)) by flia. eexists _. split; [done|]. split; [done|].
      cbn [w_fds]. by apply calls_close with c. }
  destruct Hb as (r & w1 & E1 & Hw1 & C1). unfold mthen at 1. rewrite E1. eexists _, _. split; [done|].
  split; [done|]. destruct (Z.eqb_spec r (- EACCES)) as [->|]; cbn [andb]; [|done].
  left. by apply calls_refused.
Qed.

Lemma dispatch_restores m fake_root l2s nr a how copied rootfs w : has m w ->
  exists r w', cng_dispatch G view K xlate path redo fake_root l2s nr a how copied rootfs w = (r, w') /\
    has m w' /\ calls (w_fds w) r (w_fds w').
Proof.
  intros Hw. unfold cng_dispatch, mthen. destruct (redo w) as [r w1] eqn:Er.
  destruct (Hredo _ _ _ Er) as [R1 R2]. case_if; [|by exists r, w1; split_and!; auto].
  match goal with H : _ && _ = true |- _ => apply andb_true_iff in H as [H _]; apply Z.eqb_eq in H as -> end.
  apply calls_refused in R2. rewrite <-R2. by apply bypass_restores; auto.
Qed.
End Restore.


(** *** A directory with no mode at all *)

(** A lookup in a directory takes search permission, of its owner. *)
Definition lend_kern : kern := {|
  k_walk := k_walk demo_kern;
  k_deny := fun t d _ => match t !! d with
                         | Some n => if bit (i_perm n) X_OWN then 0 else - EACCES
                         | None => - ENOENT
                         end;
  k_path := k_path demo_kern;
  k_newfd := k_newfd demo_kern;
  k_call := k_call demo_kern;
  k_uid := 0 |}.

(** /data/rootfs/d has mode [m]. *)
Definition lend_tree (m : Z) : tree := <[11 := Inode m 0 (BDir (<[cs "f" := 12]> ∅))]> (demo_tree 11).

(** mkdir in that directory, and another's chmod of it meanwhile. *)
Definition mkdir_d : M Z := fun w =>
  (match w_trees w with
   | t :: _ => match t !! 11 with
               | Some n => if Z.land (i_perm n) DAC_ENTRY =? DAC_ENTRY then 0 else - EACCES
               | None => - ENOENT
               end
   | [] => - ENOENT
   end, w).

Definition chmod_d (m : Z) : M Z := fun w =>
  let '(r, w) := mkdir_d w in
  if r =? 0 then (r, World (set_perm 11 m <$> w_trees w) (w_fds w) (w_log w ++ [(OpChmod m, AtInode 11)]))
  else (r, w).

Definition lend_path : cstr := cs "/data/rootfs/d/n".
Definition lend_dispatch (call : M Z) : M Z :=
  cng_dispatch genv0 (Some fs0) lend_kern (fun _ p _ => Some p)
    (fun k => if (k =? 1)%nat then Some lend_path else None)
    call true false __NR_mkdirat (fun _ => AT_FDCWD) None true (cs "/data/rootfs").

(** Search is lent, then write, to the one directory; both are given back. *)
Lemma lent_mkdir_made :
  lend_dispatch mkdir_d (demo_world [lend_tree 0]) =
  (0, World [lend_tree 0] (<[AT_FDCWD := 10]> ∅)
        [(OpChmod 64, AtInode 11); (OpChmod 192, AtInode 11); (OpChmod 64, AtInode 11); (OpChmod 0, AtInode 11)]).
Proof. vm_compute. reflexivity. Qed.

(** A chmod of another's, made while the mode is lent and to the very mode that
    is lent, is taken for the lend and undone; to any other, it stays. *)
Lemma chmod_to_lent_mode_undone :
  lend_dispatch (chmod_d 192) (demo_world [lend_tree 64]) =
  (0, World [lend_tree 64] (<[AT_FDCWD := 10]> ∅)
        [(OpChmod 192, AtInode 11); (OpChmod 192, AtInode 11); (OpChmod 64, AtInode 11)]) /\
  w_trees (snd (lend_dispatch (chmod_d 448) (demo_world [lend_tree 64]))) = [lend_tree 448].
Proof. vm_compute. auto. Qed.

