(* ===== verification/Sun.v ===== *)
(** * Socket addresses (src/src/monitor/unixsock.c)

    A pathname socket is named to the kernel through a pinned directory, an
    abstract one with a tag of the rootfs before its name; what the kernel
    reports is mapped back.  The files and the descriptors are those of Pin.v.
    The table of bound names is a list that grows by a page at a time.  Not
    modelled: other threads claiming entries meanwhile, and the parsing of the
    records of /proc/self/fd, whose descriptors are taken as a map. *)

From Stdlib Require Import ZArith Ascii String Lia.
From S2P Require Import Prelude Path PathCanon PathFacts Fmt ProcStat Resolve L2sName Pin.
From stdpp Require Import base numbers strings gmap list.

Open Scope Z_scope.

Definition SUN_PATH_MAX := 108.
Definition SUN_HDR := 2.
Definition ABS_TAG_LEN := 20.
Definition ABS_DIG_LEN := ABS_TAG_LEN + 16.
Definition SUN_SWEEP_MAX : nat := 256.

Definition byte_val (c : ascii) : Z := Z.of_N (N_of_ascii c).

(** ** The tag *)

Definition cng_broker_hash (p : cstr) : Z :=
  foldl (fun h c => u64 (Z.lxor h (byte_val c) * 1099511628211)) 1469598103934665603 p.

Definition cng_broker_key_hash (s : cstr) : Z := cng_broker_hash s.

Definition hex_digit (v : Z) : ascii := default NUL (cs "0123456789abcdef" !! Z.to_nat v).

Definition hex16 (h : Z) : cstr :=
  (fun i => hex_digit (Z.land (Z.shiftr h ((15 - Z.of_nat i) * 4)) 15)) <$> seq 0 16.

Definition CTL_A : ascii := "001"%char.

(** The root [view] has, the host's where it has none. *)
Definition tag_root (view : option cng_fs) : cstr :=
  match view with
  | Some fs => if (length (f_rootfs fs) =? 0)%nat then [SLASH] else fst (strlcpy (f_rootfs fs) CNG_PATH_MAX)
  | None => [SLASH]
  end.

Definition abs_tag_kind (view : option cng_fs) (kind : ascii) : cstr :=
  CTL_A :: "c"%char :: "n"%char :: kind :: hex16 (cng_broker_key_hash (tag_root view)).

Definition abs_tag (view : option cng_fs) : cstr := abs_tag_kind view "g"%char.

Definition abs_digest (view : option cng_fs) (name : cstr) : cstr :=
  abs_tag_kind view "H"%char ++ hex16 (cng_broker_hash name).

(** ** The record of bound names *)

Record sun_fb := SunFb {
  fb_state : Z;               (* 0 free, 1 being written, 2 published *)
  fb_pfd : Z;
  fb_id : option Z;           (* the file behind [fb_pfd] *)
  fb_ino : Z;
  fb_stored : cstr;
  fb_guest : cstr }.

Definition fb_zero : sun_fb := SunFb 0 0 None 0 [] [].

Record sst := Sst {
  s_w : world;
  s_tab : list sun_fb;
  s_asks : nat;               (* pages asked for *)
  s_socks : gmap Z Z          (* the open sockets and their inodes *) }.

Definition SM (A : Type) : Type := sst -> A * sst.
Definition sret {A} (a : A) : SM A := fun s => (a, s).
Definition sbind {A B} (m : SM A) (k : A -> SM B) : SM B := fun s => let '(a, s) := m s in k a s.

Declare Scope sun_scope.
Notation "x <-- m ;; k" := (sbind m (fun x => k)) (at level 65, m at next level, right associativity) : sun_scope.
Notation "m ;;;; k" := (sbind m (fun _ => k)) (at level 65, right associativity) : sun_scope.
Open Scope sun_scope.

(** A step on the files. *)
Definition up {A} (m : M A) : SM A := fun s =>
  let '(a, w) := m (s_w s) in (a, Sst w (s_tab s) (s_asks s) (s_socks s)).

(** What is asked of the host besides its files: whether a page for the table
    can be had, how many entries it holds, whether /proc/self/fd can be read, the
    pid, and where a descriptor's link in /proc leads. *)
Record senv := SEnv {
  e_page : nat -> bool;
  e_per : nat;
  e_fds : bool;
  e_pid : Z;
  e_readlink : cstr -> option cstr;
  e_share : bool              (* cng_g_share_abstract *) }.

Definition sock_ino (fd : Z) : SM Z := fun s =>
  (if fd <? 0 then 0
   else match s_socks s !! fd with
        | Some i => i
        | None => default 0 (w_fds (s_w s) !! fd)
        end, s).

Definition cng_fdid_of (fd : Z) : M (option Z) := fun w =>
  (if fd <? 0 then None else w_fds w !! fd, w).

Definition cng_fd_is (fd : Z) (id : option Z) : M bool := fun w =>
  let '(cur, w) := cng_fdid_of fd w in (bool_decide (is_Some cur /\ cur = id), w).

(** One entry of the sweep. *)
Definition sweep_one (live : list Z) (e : sun_fb) : M sun_fb := fun w =>
  if negb (fb_state e =? 2) || (fb_pfd e <? 0) then (e, w)
  else if existsb (Z.eqb (fb_ino e)) live then (e, w)
  else
    let '(ours, w) := cng_fd_is (fb_pfd e) (fb_id e) w in
    let w := if ours then snd (sys_close (fb_pfd e) w) else w in
    (SunFb 0 (-1) (fb_id e) (fb_ino e) [] (fb_guest e), w).

Fixpoint sweep_all (live : list Z) (tab : list sun_fb) (w : world) : list sun_fb * world :=
  match tab with
  | [] => ([], w)
  | e :: tab =>
      let '(e, w) := sweep_one live e w in
      let '(tab, w) := sweep_all live tab w in
      (e :: tab, w)
  end.

Section Sun.
Context (G : genv) (R : renv) (view : option cng_fs) (K : kern) (E : senv).

Definition sun_fb_sweep : SM unit := fun s =>
  if negb (existsb (fun e => (fb_state e =? 2) && (0 <=? fb_pfd e)) (s_tab s)) then (tt, s)
  else if negb (e_fds E) then (tt, s)
  else
    let live := (map_to_list (s_socks s)).*2 in
    if (SUN_SWEEP_MAX <? length live)%nat then (tt, s)
    else
      let '(tab, w) := sweep_all live (s_tab s) (s_w s) in
      (tt, Sst w tab (s_asks s) (s_socks s)).

(** The first entry that is free, on a new page if there is none. *)
Definition free_entry : SM (option nat) := fun s =>
  match list_find (fun e => fb_state e = 0) (s_tab s) with
  | Some (i, _) => (Some i, s)
  | None =>
      if e_page E (s_asks s) && (0 <? e_per E)%nat
      then (Some (length (s_tab s)),
            Sst (s_w s) (s_tab s ++ replicate (e_per E) fb_zero) (S (s_asks s)) (s_socks s))
      else (None, Sst (s_w s) (s_tab s) (S (s_asks s)) (s_socks s))
  end.

Definition close_pfd (pfd : Z) : SM unit := if 0 <=? pfd then up (sys_close pfd) else sret tt.

Definition put_entry (i : nat) (e : sun_fb) : SM unit := fun s =>
  (tt, Sst (s_w s) (<[i := e]> (s_tab s)) (s_asks s) (s_socks s)).

Definition sun_fb_note (fd : Z) (stored guest : cstr) (pfd : Z) : SM unit :=
  if (length stored =? 0)%nat || (SUN_PATH_MAX <? Z.of_nat (length stored))
     || (SUN_PATH_MAX <? Z.of_nat (length guest))
  then close_pfd pfd
  else
    sun_fb_sweep ;;;;
    ino <-- sock_ino fd ;;
    i <-- free_entry ;;
    match i with
    | None => close_pfd pfd
    | Some i =>
        id <-- up (cng_fdid_of pfd) ;;
        pfd <-- (if (0 <=? pfd) && bool_decide (id = None)
                 then up (sys_close pfd) ;;;; sret (-1) else sret pfd) ;;
        put_entry i (SunFb 2 pfd id ino stored guest)
    end.

Fixpoint fb_scan (ino : Z) (stored : cstr) (tab : list sun_fb) (by_str : option sun_fb) : option sun_fb :=
  match tab with
  | [] => by_str
  | e :: tab =>
      if negb (fb_state e =? 2) || negb (bool_decide (fb_stored e = stored))
      then fb_scan ino stored tab by_str
      else if negb (ino =? 0) && (fb_ino e =? ino) then Some e
      else fb_scan ino stored tab (Some e)
  end.

(** [None] for -1. *)
Definition sun_fb_lookup (ino : Z) (stored : cstr) : SM (option cstr) := fun s =>
  (fb_guest <$> fb_scan ino stored (s_tab s) None, s).

(** The length of the "/proc/<pid>/fd/<n>" before a name. *)
Definition sun_pin_form (p : cstr) : option nat :=
  if negb (strneq p (cs "/proc/") 6) then None
  else
    let p1 := drop 6 p in
    let d1 := take_while is_dig p1 in
    let p2 := drop_while is_dig p1 in
    if (length d1 =? 0)%nat || negb (strneq p2 (cs "/fd/") 4) then None
    else
      let p3 := drop 4 p2 in
      let d2 := take_while is_dig p3 in
      let p4 := drop_while is_dig p3 in
      if (length d2 =? 0)%nat then None
      else
        match p4 with
        | c :: name =>
            if negb (is_slash c) || (length name =? 0)%nat || existsb is_slash name then None
            else Some (6 + length d1 + 4 + length d2)%nat
        | [] => None
        end.

(** ** Addresses *)

Record cng_sun_xlate := SunXlate {
  x_buf : cstr;               (* its first [x_len] bytes *)
  x_len : Z;
  x_dirfd : Z;
  x_applied : bool;
  x_bind_fd : Z;
  x_guest : cstr }.

Definition AF_UNIX : cstr := [CTL_A; NUL].
Definition not_nul (c : ascii) : bool := negb (bool_decide (c = NUL)).
Definition c_str (l : cstr) : cstr := take_while not_nul l.

(** [addr]: what a copy of [alen] bytes from the address would give, where it can
    be read; the outer [None] is a null pointer. *)
Definition cng_sun_needed (addr : option (option cstr)) (alen : Z) : bool :=
  match addr with
  | None => false
  | Some m =>
      if (alen <? SUN_HDR + 1) || (126 <? alen) then false
      else match m with Some b => bool_decide (take 2 b = AF_UNIX) | None => false end
  end.

(** The host path of a socket's name, or an error. *)
Definition sun_host (guest : cstr) (follow : bool) : Z + cstr :=
  match view with
  | None => inl (- ENAMETOOLONG)
  | Some fs =>
      let by_translation :=
        match translate_mnt_1 G fs guest CNG_PATH_MAX with
        | Some (h, _) => inr h
        | None => inl (- ENAMETOOLONG)
        end in
      match cng_resolve G R fs follow guest CNG_PATH_MAX with
      | Some (WOut h) => inr h
      | Some (WErr e _) => if e =? - EACCES then inl (- EACCES) else by_translation
      | None => by_translation
      end
  end.

Definition x_none (alen : Z) : cng_sun_xlate := SunXlate [] alen (-1) false (-1) [].

Definition sun_abstract (fd : Z) (gp : cstr) (alen : Z) (follow : bool) : SM (Z * cng_sun_xlate) :=
  let plen := alen - SUN_HDR in
  if e_share E then sret (0, x_none alen)
  else if plen + ABS_TAG_LEN <=? SUN_PATH_MAX then
    sret (1, SunXlate (AF_UNIX ++ NUL :: abs_tag view ++ drop 1 gp) (alen + ABS_TAG_LEN) (-1) true (-1) [])
  else
    let stored := NUL :: abs_digest view (drop 1 gp) in
    (if follow then sret tt else sun_fb_note fd stored gp (-1)) ;;;;
    sret (1, SunXlate (AF_UNIX ++ stored) (SUN_HDR + 1 + ABS_DIG_LEN) (-1) true (-1) []).

Definition path_addr (s : cstr) (dirfd bind_fd : Z) (guest : cstr) : cng_sun_xlate :=
  SunXlate (AF_UNIX ++ s ++ [NUL]) (SUN_HDR + Z.of_nat (length s) + 1) dirfd true bind_fd guest.

Definition bind_spelling (dfd : Z) (name : cstr) : cstr :=
  cs "/proc/" ++ dec (e_pid E) ++ cs "/fd/" ++ dec dfd ++ SLASH :: name.

Definition sun_pathname (fd : Z) (gp : cstr) (alen : Z) (follow : bool) : SM (Z * cng_sun_xlate) :=
  let guest := c_str (take 108 gp) in
  match sun_host guest follow with
  | inl e => sret (e, x_none alen)
  | inr host =>
      ep <-- up (cng_pin_at G view K AT_FDCWD host) ;;
      let '(e, pin) := ep in
      if negb (e =? 0) then up (cng_unpin pin) ;;;; sret (e, x_none alen)
      else if negb (p_pinned pin) then
        up (cng_unpin pin) ;;;;
        if SUN_PATH_MAX <? Z.of_nat (length host) + 1 then sret (- ENAMETOOLONG, x_none alen)
        else sret (1, path_addr host (-1) (-1) [])
      else if negb follow then
        let s := bind_spelling (p_dfd pin) (p_name pin) in
        if SUN_PATH_MAX <=? Z.of_nat (length s) then up (cng_unpin pin) ;;;; sret (- ENAMETOOLONG, x_none alen)
        else
          up (cng_unpin (CngPin (p_dfd pin) false (p_pinned pin) (p_want_dir pin) (p_leaf pin) (p_name pin) (p_link pin))) ;;;;
          sret (1, path_addr s (p_dfd pin) fd guest)
      else
        ep <-- up (cng_pin_leaf K pin false) ;;
        let '(e, pin) := ep in
        if negb (e =? 0) then up (cng_unpin pin) ;;;; sret (e, x_none alen)
        else
          up (cng_unpin (CngPin (p_dfd pin) (p_own pin) (p_pinned pin) (p_want_dir pin) (-1) (p_name pin) (p_link pin))) ;;;;
          sret (1, path_addr (p_link pin) (p_leaf pin) (-1) [])
  end.

Definition cng_sun_in (fd : Z) (addr : option (option cstr)) (alen : Z) (follow : bool)
    : SM (Z * cng_sun_xlate) :=
  match addr with
  | None => sret (0, x_none alen)
  | Some m =>
      if (alen <? SUN_HDR + 1) || (SUN_HDR + SUN_PATH_MAX <? alen) then sret (0, x_none alen)
      else
        match m with
        | None => sret (0, x_none alen)
        | Some b =>
            if negb (bool_decide (take 2 b = AF_UNIX)) then sret (0, x_none alen)
            else
              let gp := drop 2 b in
              if char_is gp 0 NUL then sun_abstract fd gp alen follow else sun_pathname fd gp alen follow
        end
  end.

Definition cng_sun_done (x : cng_sun_xlate) (r : Z) : SM unit :=
  if x_dirfd x <? 0 then sret tt
  else if (0 <=? x_bind_fd x) && (r =? 0) then
    sun_fb_note (x_bind_fd x) (take (Z.to_nat (x_len x - SUN_HDR - 1)) (drop 2 (x_buf x))) (x_guest x) (x_dirfd x)
  else up (sys_close (x_dirfd x)).

(** Bytes written over a buffer at an offset. *)
Definition put_at (buf : cstr) (off : nat) (s : cstr) : cstr :=
  take off buf ++ s ++ drop (off + length s) buf.

Definition out_abstract (fd : Z) (buf : cstr) (alen : Z) : SM (cstr * Z) :=
  let p := drop 2 buf in
  let plen := alen - SUN_HDR in
  if e_share E || (plen <? 1 + ABS_TAG_LEN) then sret (buf, alen)
  else if bool_decide (take 20 (drop 1 p) = abs_tag view) then
    sret (put_at buf 3 (take (Z.to_nat (plen - 1 - ABS_TAG_LEN)) (drop 21 p)), alen - ABS_TAG_LEN)
  else if (plen =? 1 + ABS_DIG_LEN) && bool_decide (take 20 (drop 1 p) = abs_tag_kind view "H"%char) then
    ino <-- sock_ino fd ;;
    g <-- sun_fb_lookup ino (take (Z.to_nat plen) p) ;;
    match g with
    | Some g => if (0 <? length g)%nat then sret (put_at buf 2 g, SUN_HDR + Z.of_nat (length g)) else sret (buf, alen)
    | None => sret (buf, alen)
    end
  else sret (buf, alen).

(** The guest's name of a spelling no record is held of. *)
Definition resolve_spelling (hostp : cstr) (link : nat) : option cstr :=
  hdir ← e_readlink E (take link hostp);
  let hdir := take (CNG_PATH_MAX - 1) hdir in
  if (length hdir =? 0)%nat || negb (char_is hdir 0 SLASH) then None
  else
    gdir ← (fs ← view; host_dir_guest G fs hdir CNG_PATH_MAX);
    let gdir := if streq gdir [SLASH] then [] else gdir in
    let name := drop (link + 1) hostp in
    if (CNG_PATH_MAX <? length gdir + 1 + length name + 1)%nat then None
    else Some (gdir ++ SLASH :: name).

Definition out_pathname (fd : Z) (buf : cstr) (alen : Z) : SM (cstr * Z) :=
  let plen := alen - SUN_HDR in
  let hostp := c_str (take (Z.to_nat (Z.min plen SUN_PATH_MAX)) (drop 2 buf)) in
  g <-- (match sun_pin_form hostp with
         | Some link =>
             ino <-- sock_ino fd ;;
             g <-- sun_fb_lookup ino hostp ;;
             sret (match g with Some g => Some (c_str g) | None => resolve_spelling hostp link end)
         | None => sret (fs ← view; untranslate_1 fs hostp CNG_PATH_MAX)
         end) ;;
  match g with
  | None => sret (buf, alen)
  | Some guest =>
      if SUN_PATH_MAX <? Z.of_nat (length guest) + 1 then sret (buf, alen)
      else sret (put_at buf 2 (guest ++ [NUL]), SUN_HDR + Z.of_nat (length guest) + 1)
  end.

Definition cng_sun_out (fd : Z) (addr : option cstr) (alen : Z) : SM (option cstr * Z) :=
  match addr with
  | None => sret (None, alen)
  | Some buf =>
      if (alen <? SUN_HDR + 1) || negb (bool_decide (take 2 buf = AF_UNIX)) then sret (addr, alen)
      else
        r <-- (if char_is (drop 2 buf) 0 NUL then out_abstract fd buf alen else out_pathname fd buf alen) ;;
        sret (Some (fst r), snd r)
  end.
End Sun.
