(* ===== verification/SunProps.v ===== *)
(** * Socket addresses: contained on the way in, read back on the way out

    Every address of a unix socket the guest names is replaced by one of the
    view or refused, the descriptors it takes are given back or kept by a
    record, and what a socket was bound as is what is read of it. *)

From Stdlib Require Import ZArith Ascii String Lia.
From S2P Require Import Prelude Path PathCanon PathFacts PathProps Fmt FmtProps ProcStat Resolve L2sName Pin PinProps PinCalls Sun.
From stdpp Require Import base numbers strings gmap list.

Open Scope Z_scope.
Open Scope pin_scope.
Open Scope sun_scope.

Abbreviation fds_of s := (w_fds (s_w s)).

(** ** Descriptors *)

(** A record that holds [fd], and the file it holds. *)
Definition recorded (tab : list sun_fb) (fd : Z) (i : option Z) : Prop :=
  exists e, e ∈ tab /\ fb_state e = 2 /\ fb_pfd e = fd /\ fb_id e = i.

(** A descriptor is as it was, or was one of a record's and is closed. *)
Definition swept (tab : list sun_fb) (fds fds' : gmap Z Z) : Prop :=
  forall fd, fds' !! fd = fds !! fd \/ (fds' !! fd = None /\ recorded tab fd (fds !! fd)).

Lemma swept_refl tab fds : swept tab fds fds.
Proof. intros fd. by left. Qed.

Lemma swept_mono tab tab' fds fds' : (forall e, e ∈ tab -> e ∈ tab') -> swept tab fds fds' -> swept tab' fds fds'.
Proof.
  intros Hm Hs fd. destruct (Hs fd) as [?|(? & e & He & ?)]; [by left|right]. split; [done|]. exists e. auto.
Qed.

Lemma swept_trans tab fds1 fds2 fds3 : swept tab fds1 fds2 -> swept tab fds2 fds3 -> swept tab fds1 fds3.
Proof.
  intros H1 H2 fd. destruct (H2 fd) as [E2|[E2 R2]].
  - rewrite E2. apply H1.
  - destruct (H1 fd) as [E1|[E1 R1]]; right; [by rewrite <-E1|done].
Qed.

Lemma sweep_one_spec live e w : exists e' w', sweep_one live e w = (e', w') /\
  w_trees w' = w_trees w /\ w_log w' = w_log w /\ swept [e] (w_fds w) (w_fds w') /\
  (e' = e \/ fb_state e' = 0).
Proof.
  unfold sweep_one. case_if; [by exists e, w; split_and!; auto using swept_refl|].
  match goal with H : _ || _ = false |- _ => apply orb_false_iff in H as [Hs Hp] end.
  apply negb_false_iff, Z.eqb_eq in Hs. apply Z.ltb_ge in Hp.
  case_if; [by exists e, w; split_and!; auto using swept_refl|].
  unfold cng_fd_is, cng_fdid_of. rewrite (proj2 (Z.ltb_ge _ _)) by done.
  eexists _, _. split; [done|]. case_bool_decide as Hb; cbn [snd sys_close w_trees w_log w_fds].
  - split_and!; auto. intros fd. destruct (decide (fd = fb_pfd e)) as [->|Hn].
    + right. rewrite lookup_delete_eq. split; [done|]. exists e. rewrite (proj2 Hb).
      split_and!; try done. apply list_elem_of_here.
    + left. by rewrite lookup_delete_ne.
  - split_and!; auto using swept_refl.
Qed.

Lemma sweep_all_spec live tab : forall w, exists tab' w', sweep_all live tab w = (tab', w') /\
  w_trees w' = w_trees w /\ w_log w' = w_log w /\ swept tab (w_fds w) (w_fds w') /\
  (forall e, e ∈ tab' -> e ∈ tab \/ fb_state e = 0).
Proof.
  induction tab as [|e tab IH]; intros w; cbn [sweep_all].
  { exists [], w. split_and!; auto using swept_refl. }
  destruct (sweep_one_spec live e w) as (e' & w1 & -> & T1 & L1 & S1 & E1).
  destruct (IH w1) as (tab' & w2 & -> & T2 & L2 & S2 & E2).
  eexists _, _. split; [done|]. split_and!; [congruence|congruence| |].
  - eapply swept_trans.
    + eapply swept_mono; [|exact S1]. intros x Hx. apply list_elem_of_singleton in Hx as ->. apply list_elem_of_here.
    + eapply swept_mono; [|exact S2]. intros x Hx. by apply list_elem_of_further.
  - intros x Hx. apply elem_of_cons in Hx as [->|Hx].
    + destruct E1 as [->|?]; [left; apply list_elem_of_here|by right].
    + destruct (E2 x Hx) as [?|?]; [left; by apply list_elem_of_further|by right].
Qed.

Section Table.
Context (E : senv).

(** A step on the table: sweeping, claiming. *)
Definition tab_step (s s' : sst) : Prop :=
  w_trees (s_w s') = w_trees (s_w s) /\ w_log (s_w s') = w_log (s_w s) /\ s_socks s' = s_socks s /\
  swept (s_tab s) (fds_of s) (fds_of s').

Lemma sweep_spec s : exists s', sun_fb_sweep E s = (tt, s') /\ tab_step s s' /\
  (forall e, e ∈ s_tab s' -> e ∈ s_tab s \/ fb_state e = 0).
Proof.
  assert (Hs : tab_step s s) by (split_and!; auto using swept_refl).
  unfold sun_fb_sweep. case_if; [by exists s; auto|]. case_if; [by exists s; auto|].
  case_if; [by exists s; auto|].
  destruct (sweep_all_spec (map_to_list (s_socks s)).*2 (s_tab s) (s_w s)) as (tab & w & -> & T & L & S & He).
  eexists. split; [done|]. split; [by split_and!|done].
Qed.

(** A claimed entry is free, and the others are as they were, or free. *)
Lemma free_entry_spec s : exists r s', free_entry E s = (r, s') /\
  s_w s' = s_w s /\ s_socks s' = s_socks s /\
  (forall e, e ∈ s_tab s' -> e ∈ s_tab s \/ fb_state e = 0) /\
  (forall i, r = Some i -> exists e, s_tab s' !! i = Some e /\ fb_state e = 0) /\
  ((forall n, e_page E n = true) -> (0 < e_per E)%nat -> is_Some r).
Proof.
  unfold free_entry. destruct (list_find _ (s_tab s)) as [[i e]|] eqn:Ef.
  - eexists _, _. split; [done|]. split_and!; auto. intros j [= <-].
    apply list_find_Some in Ef as (H1 & H2 & _). eauto.
  - destruct (e_page E (s_asks s) && (0 <? e_per E)%nat) eqn:Ep.
    + eexists _, _. split; [done|]. cbn [s_w s_socks s_tab]. split_and!; auto.
      * intros e He. apply elem_of_app in He as [He|He]; [by left|right].
        apply elem_of_replicate in He as [-> _]. done.
      * intros j [= <-]. exists fb_zero. split; [|done].
        rewrite lookup_app_r, Nat.sub_diag by done. apply lookup_replicate_2.
        apply andb_true_iff in Ep as [_ Ep]. by apply Nat.ltb_lt in Ep.
    + eexists _, _. split; [done|]. split_and!; auto; [done|]. intros Hp Hn.
      rewrite Hp, (proj2 (Nat.ltb_lt _ _)) in Ep by done. done.
Qed.

(** What becomes of the descriptors when a name is recorded: [pfd] is closed, or
    held by its record. *)
Definition kept (pfd : Z) (s s' : sst) : Prop :=
  w_trees (s_w s') = w_trees (s_w s) /\ w_log (s_w s') = w_log (s_w s) /\ s_socks s' = s_socks s /\
  (forall fd, fd <> pfd \/ pfd < 0 -> fds_of s' !! fd = fds_of s !! fd \/
     (fds_of s' !! fd = None /\ recorded (s_tab s) fd (fds_of s !! fd))) /\
  (0 <= pfd -> fds_of s' !! pfd = None \/
     (fds_of s' !! pfd = fds_of s !! pfd /\ recorded (s_tab s') pfd (fds_of s !! pfd))).

Lemma kept_close pfd s s1 : tab_step s s1 -> exists s', close_pfd pfd s1 = (tt, s') /\ kept pfd s s'.
Proof.
  intros (T & L & So & Sw). unfold close_pfd. destruct (Z.leb_spec 0 pfd) as [Hp|Hp].
  - unfold up, sys_close. eexists. split; [done|]. cbn [s_w s_socks w_trees w_log w_fds s_tab].
    split_and!; auto; cbn [s_w w_fds].
    + intros fd Hfd. rewrite lookup_delete_ne by lia. apply Sw.
    + intros _. left. apply lookup_delete_eq.
  - exists s1. split; [done|]. split_and!; auto; lia.
Qed.

(** What is recorded of a bound name, among the older records. *)
Definition noted (s s' : sst) (ino : Z) (stored guest : cstr) : Prop :=
  exists i e, s_tab s' !! i = Some e /\ fb_state e = 2 /\ fb_ino e = ino /\
    fb_stored e = stored /\ fb_guest e = guest /\
    forall j e', j <> i -> s_tab s' !! j = Some e' -> fb_state e' = 2 -> e' ∈ s_tab s.

Lemma note_spec fd stored guest pfd s : exists s',
  sun_fb_note E fd stored guest pfd s = (tt, s') /\ kept pfd s s' /\
  ((forall n, e_page E n = true) -> (0 < e_per E)%nat ->
   (0 < length stored)%nat -> Z.of_nat (length stored) <= SUN_PATH_MAX ->
   Z.of_nat (length guest) <= SUN_PATH_MAX -> 0 <= fd -> forall ino, s_socks s !! fd = Some ino ->
   noted s s' ino stored guest).
Proof.
  assert (H0 : tab_step s s) by (split_and!; auto using swept_refl).
  unfold sun_fb_note.
  destruct ((length stored =? 0)%nat || (SUN_PATH_MAX <? Z.of_nat (length stored))
     || (SUN_PATH_MAX <? Z.of_nat (length guest))) eqn:El.
  { destruct (kept_close pfd s s H0) as (s' & -> & Hk). exists s'. split_and!; auto. intros _ _ H1 H2 H3.
    exfalso. rewrite (proj2 (Nat.eqb_neq _ _)), (proj2 (Z.ltb_ge _ _)), (proj2 (Z.ltb_ge _ _)) in El by lia. done. }
  unfold sbind. destruct (sweep_spec s) as (s1 & -> & (T1 & L1 & So1 & Sw1) & He1). unfold sock_ino.
  set (ino := if fd <? 0 then 0 else _).
  assert (Hino : 0 <= fd -> forall i, s_socks s !! fd = Some i -> ino = i).
  { intros Hfd i Hi. unfold ino. by rewrite (proj2 (Z.ltb_ge _ _)), So1, Hi by done. }
  clearbody ino.
  destruct (free_entry_spec s1) as (r & s2 & -> & W2 & So2 & He2 & Hr & Hs).
  assert (H2 : tab_step s s2) by (unfold tab_step; rewrite W2, So2; by split_and!).
  destruct r as [i|].
  2: { destruct (kept_close pfd s s2 H2) as (s' & -> & Hk). exists s'. split_and!; auto.
       intros Hp Hn. destruct (Hs Hp Hn) as [? [=]]. }
  destruct (Hr i eq_refl) as (e0 & Hi & He0).
  assert (Hnoted : forall s' id pf, s_tab s' = <[i := SunFb 2 pf id ino stored guest]> (s_tab s2) ->
    0 <= fd -> forall n, s_socks s !! fd = Some n -> noted s s' n stored guest).
  { intros s' id pf Ht Hfd n Hn. exists i, (SunFb 2 pf id ino stored guest). rewrite Ht. split_and!; [|done|by apply Hino|done|done|].
    - apply list_lookup_insert_eq. by apply lookup_lt_Some in Hi.
    - intros j e' Hj Hl Hst. rewrite list_lookup_insert_ne in Hl by done.
      apply list_elem_of_lookup_2 in Hl. destruct (He2 _ Hl) as [Hl1|]; [|lia].
      destruct (He1 _ Hl1) as [|]; [done|lia]. }
  assert (Hrec : forall tab id pf, tab = <[i := SunFb 2 pf id ino stored guest]> (s_tab s2) -> recorded tab pf id).
  { intros tab id pf Ht. exists (SunFb 2 pf id ino stored guest). split_and!; auto. rewrite Ht.
    apply list_elem_of_lookup_2 with i. apply list_lookup_insert_eq. by apply lookup_lt_Some in Hi. }
  destruct H2 as (T2 & L2 & So2' & Sw2).
  unfold up at 1, cng_fdid_of. destruct (Z.leb_spec 0 pfd) as [Hp|Hp]; cbn [andb].
  - rewrite (proj2 (Z.ltb_ge _ _)) by done. case_bool_decide as Hid.
    + unfold up, sys_close, sret, put_entry. eexists. split; [done|]. split.
      * unfold kept. cbn [s_w s_tab s_socks w_trees w_log w_fds]. split_and!; auto.
        -- intros fd' Hfd'. rewrite lookup_delete_ne by lia. apply Sw2.
        -- intros _. left. apply lookup_delete_eq.
      * intros _ _ _ _ _. by eapply Hnoted.
    + unfold sret, put_entry. eexists. split; [done|]. split.
      * unfold kept. cbn [s_w s_tab s_socks w_trees w_log w_fds]. split_and!; auto.
        intros _. destruct (Sw2 pfd) as [Eq|[Eq _]]; [|by left].
        right. split; [done|]. rewrite <-Eq. by eapply Hrec.
      * intros _ _ _ _ _. by eapply Hnoted.
  - rewrite (proj2 (Z.ltb_lt _ _)) by done. unfold sret, put_entry. eexists. split; [done|]. split.
    + unfold kept. cbn [s_w s_tab s_socks w_trees w_log w_fds]. split_and!; auto; lia.
    + intros _ _ _ _ _. by eapply Hnoted.
Qed.
End Table.

(** ** What is handed to the kernel *)

(** A pin that holds nothing of its own is against the caller's directory. *)
Lemma pin_at_bare G view K dirfd path w r p w' :
  cng_pin_at G view K dirfd path w = ((r, p), w') -> r <= 0 /\ (p_own p = false -> p_dfd p = dirfd).
Proof.
  unfold cng_pin_at, ret, mthen. intros H.
  repeat (case_match; simplify_eq; cbn [p_own p_dfd]; try (by split)).
  all: bprop; split; try done; unfold ENAMETOOLONG; try lia.
Qed.

Section In.
Context (G : genv) (R : renv) (view : option cng_fs) (K : kern) (root : Z) (V : Z -> Prop) (E : senv).
Context (HK : kern_ok K root).
Context (Hview : forall fs, view = Some fs -> fs_wf fs).
Context (Hdev : Forall (fun nd : cstr * cstr => (length (snd nd) < CNG_PATH_MAX)%nat) (cng_dev_nodes G)).

Abbreviation okw := (ok G view K root V).
Abbreviation in_path := (inside_path G view).
Abbreviation any := (fun _ : Z => True).

(** The directory let go of, the leaf kept. *)
Lemma unpin_dir fds p w : okw w -> holding fds p w any any -> fd_ok (p_leaf p) ->
  exists w', cng_unpin (CngPin (p_dfd p) (p_own p) (p_pinned p) (p_want_dir p) (-1) (p_name p) (p_link p)) w = (tt, w') /\
    okw w' /\ opened fds (p_leaf p) w' any /\ w_fds w' !! p_leaf p = w_fds w !! p_leaf p.
Proof.
  intros Hw (F & HF & HL) Hl. unfold cng_unpin, mthen, ret. cbn [p_leaf p_own p_dfd]. change (0 <=? -1) with false. cbv iota.
  destruct HL as [[? _]|[[[? _]|(j & _ & Hx & Fw & _)] _]]; [flia|flia|].
  destruct HF as [[-> ->]|(-> & [[? _]|(i & _ & Hd & HF & _)] & Ho)]; [|flia|].
  - exists w. split_and!; try done. right. by exists j.
  - cbn [w_fds] in HF. subst F. apply lookup_insert_None in Hx as [Hx Hne].
    rewrite (proj2 (Z.leb_le _ _)) by flia. cbn [andb]. unfold sys_close. eexists. split; [done|].
    cbn [w_fds]. assert (Hd' : delete (p_dfd p) (w_fds w) = <[p_leaf p := j]> fds).
    { rewrite Fw, delete_insert_ne, delete_insert_eq by done. by rewrite delete_id. }
    split_and!; [done| |by rewrite lookup_delete_ne]. right. exists j. by rewrite <-Hd'.
Qed.

(** Where the address of [x] leads: through a descriptor on a file of the view,
    or to one name in a directory of the view. *)
Definition addr_in (host : cstr) (follow : bool) (x : cng_sun_xlate) (fds : gmap Z Z) : Prop :=
  forall want, in_path want host ->
    exists i, fd_ok (x_dirfd x) /\ fds !! x_dirfd x = Some i /\ V i /\
    if follow then x_buf x = AF_UNIX ++ fd_link (x_dirfd x) 32 ++ [NUL]
    else exists c, normal_comp c /\
      x_buf x = AF_UNIX ++ bind_spelling E (x_dirfd x) (c ++ (if want then [SLASH] else [])) ++ [NUL].

(** The states a translation goes through: the files move on, the rest stays. *)
Definition same_table (s s' : sst) : Prop :=
  s_tab s' = s_tab s /\ s_asks s' = s_asks s /\ s_socks s' = s_socks s.

Lemma sun_host_error guest follow e : sun_host G R view guest follow = inl e -> e < 0.
Proof.
  unfold sun_host, ENAMETOOLONG, EACCES. intros H. repeat case_match; simplify_eq; lia.
Qed.

(** A refused address leaves everything as it was. *)
Lemma unpin_refused fds p (e alen : Z) (s : sst) : okw (s_w s) -> holding fds p (s_w s) any any ->
  exists s', (up (cng_unpin p) ;;;; sret (e, x_none alen)) s = ((e, x_none alen), s') /\
    okw (s_w s') /\ same_table s s' /\ fds_of s' = fds.
Proof.
  intros Hw Hh. unfold sbind, up, sret.
  destruct (unpin_spec G view K root V fds p (s_w s) any any Hw Hh) as (w' & -> & Hw' & _ & F').
  eexists. split; [done|]. by split_and!.
Qed.

Definition in_spec (guest : cstr) (follow : bool) (s : sst) (r : Z) (x : cng_sun_xlate) (s' : sst) : Prop :=
  okw (s_w s') /\ same_table s s' /\ opened (fds_of s) (x_dirfd x) (s_w s') any /\
  (r < 0 \/ r = 1 /\ forall host, sun_host G R view guest follow = inr host -> addr_in host follow x (fds_of s')).

Lemma refused_spec guest follow s (e alen : Z) s' : e < 0 -> okw (s_w s') -> same_table s s' -> fds_of s' = fds_of s ->
  in_spec guest follow s e (x_none alen) s'.
Proof. intros He Hw Ht Hf. split_and!; [done|done|by left|by left]. Qed.

Lemma sun_pathname_spec fd gp alen follow s : okw (s_w s) ->
  exists r x s', sun_pathname G R view K E fd gp alen follow s = ((r, x), s') /\
    in_spec (c_str (take 108 gp)) follow s r x s'.
Proof.
  intros Hw. unfold sun_pathname. set (guest := c_str _). cbv zeta.
  destruct (sun_host G R view guest follow) as [e|host] eqn:Eh.
  { eexists _, _, _. split; [done|]. apply refused_spec; try done. by apply sun_host_error in Eh. }
  unfold sbind at 1, up at 1.
  destruct (pin_at_use G view K root V HK Hview Hdev AT_FDCWD host (s_w s) Hw)
    as (r & p & w1 & Ep & Hw1 & L1 & Hl & Hh & Hp). rewrite Ep.
  destruct (pin_at_bare _ _ _ _ _ _ _ _ _ Ep) as [Hr Hbare]. set (s1 := Sst w1 _ _ _).
  assert (H1 : same_table s s1) by done.
  assert (Hrefuse : forall p (e : Z) w (s2 := Sst w (s_tab s) (s_asks s) (s_socks s)), okw w -> holding (fds_of s) p w any any -> e < 0 ->
    exists r x s', (up (cng_unpin p) ;;;; sret (e, x_none alen)) s2 = ((r, x), s') /\ in_spec guest follow s r x s').
  { intros q e w s2 Hq Hhq He. destruct (unpin_refused _ q e alen s2 Hq Hhq) as (s' & -> & Hw' & Ht & Hf).
    eexists _, _, _. split; [done|]. by apply refused_spec. }
  destruct (Z.eqb_spec r 0) as [->|Hr0]; cbn [negb]; [|apply Hrefuse; [done|done|lia]]. specialize (Hp eq_refl).
  destruct (p_pinned p) eqn:Epin; cbn [negb].
  2: { unfold sbind, up. cbn [s_w s1].
       destruct (unpin_spec G view K root V _ p w1 any any Hw1 Hh) as (w2 & -> & Hw2 & _ & F2).
       unfold sret. case_if; eexists _, _, _; (split; [done|]); [by apply refused_spec|].
       split_and!; [done|done|by left|]. right. split; [done|]. intros h Hh' want Hin.
       rewrite Eh in Hh'. injection Hh' as <-. destruct (Hp want Hin) as (c & d & _ & _ & _ & Hpin & _). congruence. }
  destruct follow; cbn [negb].
  - unfold sbind at 1, up at 1. cbn [s_w s_tab s_asks s_socks s1].
    destruct (leaf_use G view K root V HK (fds_of s) p false w1 Hw1 Hh Hl)
      as (r & p2 & w2 & -> & Hw2 & L2 & Hr2 & Hh2 & H2).
    destruct (Z.eqb_spec r 0) as [->|Hr0]; cbn [negb]; [|apply Hrefuse; [done|done|lia]].
    destruct (H2 eq_refl) as (Hfd & Hlk & j & Hj & HV). unfold sbind, up. cbn [s_w].
    destruct (unpin_dir (fds_of s) p2 w2 Hw2 Hh2 Hfd) as (w3 & -> & Hw3 & Ho3 & Hj3).
    eexists _, _, _. split; [done|]. split_and!; [done|done|done|]. right. split; [done|].
    intros h Hh' want Hin. rewrite Eh in Hh'. injection Hh' as <-. exists j. cbn [x_dirfd x_buf path_addr].
    rewrite Hlk. split_and!; [done|by rewrite <-Hj|by apply (HV want host)|done].
  - case_if; [apply Hrefuse; [done|done|done]|].
    unfold sbind, up, cng_unpin, mthen, ret. cbn [p_leaf p_own p_dfd]. rewrite Hl. change (0 <=? -1) with false. cbn [andb].
    eexists _, _, _. split; [done|]. cbn [s_w s1].
    assert (Ho : opened (fds_of s) (p_dfd p) w1 any).
    { destruct Hh as (F & HF & HL). destruct HL as [[_ <-]|[_ ?]]; [|flia].
      destruct HF as [[Ho HF]|(_ & HF & _)]; [|done]. left. rewrite (Hbare Ho). done. }
    split_and!; [done|done|done|]. right. split; [done|].
    intros h Hh' want Hin. rewrite Eh in Hh'. injection Hh' as <-.
    destruct (Hp want Hin) as (c & d & Hn & Hc & _ & _ & Hd & Vd). exists d. cbn [x_dirfd x_buf path_addr fds_of].
    assert (fd_ok (p_dfd p)) as Hok.
    { destruct (split_inside G view want host Hin) as (Hpin & _).
      destruct (pin_at_spec G view K root V HK Hview Hdev AT_FDCWD host (s_w s) Hw) as (r' & p' & w' & Ep' & _ & _ & _ & Hs).
      rewrite Ep in Ep'. injection Ep' as <- <- <-.
      destruct Hs as [(_ & _ & Hneg)|(_ & _ & _ & ? & ? & ? & _ & _ & _ & ? & _)]; [by specialize (Hneg Hpin)|done]. }
    split_and!; [done|done|done|]. exists c. by rewrite Hn.
Qed.
End In.

(** Every descriptor is as it was, or a record's that was closed, or a new
    record's. *)
Definition accounted (s s' : sst) : Prop :=
  forall fd, fds_of s' !! fd = fds_of s !! fd \/
    (fds_of s' !! fd = None /\ recorded (s_tab s) fd (fds_of s !! fd)) \/
    (fds_of s !! fd = None /\ recorded (s_tab s') fd (fds_of s' !! fd)).

Lemma accounted_kept s s' : kept (-1) s s' -> accounted s s'.
Proof. intros (_ & _ & _ & H & _) fd. destruct (H fd) as [?|?]; [right; lia|by left|right; by left]. Qed.

Lemma done_accounted E x ans s s1 :
  s_tab s1 = s_tab s -> opened (fds_of s) (x_dirfd x) (s_w s1) (fun _ => True) ->
  exists s2, cng_sun_done E x ans s1 = (tt, s2) /\ accounted s s2.
Proof.
  intros Ht [[Hn Hf]|(i & Ho & Hx & Hf & _)]; unfold cng_sun_done.
  { rewrite (proj2 (Z.ltb_lt _ _)) by done. exists s1. split; [done|]. intros fd. left. by rewrite Hf. }
  rewrite (proj2 (Z.ltb_ge _ _)) by flia.
  assert (Hfd : forall fd, fd <> x_dirfd x -> fds_of s1 !! fd = fds_of s !! fd).
  { intros fd Hne. by rewrite Hf, lookup_insert_ne. }
  case_if.
  - edestruct note_spec as (s2 & E2 & (_ & _ & _ & Hoth & Hown) & _). rewrite E2. exists s2. split; [done|].
    intros fd. destruct (decide (fd = x_dirfd x)) as [->|Hne].
    + destruct Hown as [Hc|[Hc Hr]]; [flia|left; by rewrite Hc, Hx|]. right. right. by rewrite Hc.
    + rewrite <-(Hfd fd Hne). destruct (Hoth fd) as [?|[? Hr]]; [by left|by left|]. right. left. by rewrite <-Ht.
  - unfold up, sys_close. eexists. split; [done|]. intros fd. left. cbn [s_w w_fds].
    destruct (decide (fd = x_dirfd x)) as [->|Hne]; [by rewrite lookup_delete_eq, Hx|].
    by rewrite lookup_delete_ne, Hfd.
Qed.


(** *** A bind in the view of [demo_tree] *)

Definition quiet_env : renv :=
  REnv 1 None (fun _ => None) (fun _ => None) (fun _ => inl (-2)) (fun _ => inl (-2)) false
    (fun _ => None) (fun _ => None).

Definition demo_senv : senv := SEnv (fun _ => true) 8 true 77 (fun _ => None) false.

(** Socket 9, inode 500, and a table. *)
Definition demo_sst (trees : list tree) (tab : list sun_fb) : sst :=
  Sst (demo_world trees) tab 0 (<[9 := 500]> ∅).

Definition demo_addr (path : cstr) : cstr := AF_UNIX ++ path.


(** * Socket addresses: what was bound is what is read *)

Open Scope sun_scope.

(** ** Strings *)

Lemma length_hex16 h : length (hex16 h) = 16%nat.
Proof. done. Qed.

Lemma length_tag view k : length (abs_tag_kind view k) = 20%nat.
Proof. done. Qed.

Lemma tag_front view k l :
  take 20 (abs_tag_kind view k ++ l) = abs_tag_kind view k /\ drop 20 (abs_tag_kind view k ++ l) = l.
Proof. split; [by apply take_app_length'|by apply drop_app_length']. Qed.

Lemma c_str_nul s r : Forall (fun c => not_nul c = true) s -> c_str (s ++ NUL :: r) = s.
Proof. intros H. unfold c_str. rewrite take_while_app by done. cbn. by rewrite app_nil_r. Qed.

Lemma c_str_id s : Forall (fun c => not_nul c = true) s -> c_str s = s.
Proof. intros H. unfold c_str. rewrite <-(app_nil_r s) at 1. rewrite take_while_app by done. by rewrite app_nil_r. Qed.

Lemma put_at_length buf off s : (off + length s <= length buf)%nat -> length (put_at buf off s) = length buf.
Proof. intros H. unfold put_at. rewrite !length_app, length_take, length_drop. lia. Qed.

Lemma put_at_take buf off s : (off <= length buf)%nat -> take (off + length s) (put_at buf off s) = take off buf ++ s.
Proof.
  intros H. unfold put_at. rewrite app_assoc. rewrite take_app_le.
  - rewrite take_ge; [done|]. rewrite length_app, length_take. lia.
  - rewrite length_app, length_take. lia.
Qed.

Lemma put_at_front buf s n : (2 <= length buf)%nat -> take 2 buf = AF_UNIX -> n = Z.of_nat (2 + length s) ->
  take (Z.to_nat n) (put_at buf 2 s) = AF_UNIX ++ s.
Proof. intros H H2 ->. rewrite Nat2Z.id, put_at_take, H2 by done. done. Qed.

(** The spelling a bind is given is recognised. *)
Lemma take_while_digits n r : 0 <= n < 2 ^ 64 -> (forall c r', r = c :: r' -> is_dig c = false) ->
  take_while is_dig (dec n ++ r) = dec n /\ drop_while is_dig (dec n ++ r) = r.
Proof.
  intros Hn Hr. pose proof (dec_chars n ltac:(lia)) as Hd.
  rewrite take_while_app, drop_while_app by done. destruct r as [|c r]; [by rewrite app_nil_r|].
  cbn [take_while drop_while]. rewrite (Hr c r eq_refl). by rewrite app_nil_r.
Qed.

Lemma pin_form_spelling E d c : 0 <= e_pid E < 2 ^ 31 -> fd_ok d -> c <> [] -> existsb is_slash c = false ->
  is_Some (sun_pin_form (bind_spelling E d c)).
Proof.
  intros Hp Hd Hc Hs. unfold sun_pin_form, bind_spelling.
  replace (strneq (cs "/proc/" ++ _) (cs "/proc/") 6) with true.
  2: { symmetry. change 6%nat with (length (cs "/proc/")). apply strneq_prefix. by eexists. }
  cbn [negb]. change (drop 6 (cs "/proc/" ++ ?x)) with x. cbv zeta.
  destruct (take_while_digits (e_pid E) (cs "/fd/" ++ dec d ++ SLASH :: c)) as [-> ->]; [lia|intros ? ? [= <- _]; done|].
  rewrite (proj2 (Nat.eqb_neq _ _)) by (pose proof (dec_nonempty (e_pid E) ltac:(lia)); by destruct (dec _)).
  replace (strneq (cs "/fd/" ++ _) (cs "/fd/") 4) with true.
  2: { symmetry. change 4%nat with (length (cs "/fd/")). apply strneq_prefix. by eexists. }
  cbn [negb orb]. change (drop 4 (cs "/fd/" ++ ?x)) with x.
  destruct (take_while_digits d (SLASH :: c)) as [-> ->]; [flia|intros ? ? [= <- _]; done|].
  rewrite (proj2 (Nat.eqb_neq _ _)) by (pose proof (dec_nonempty d ltac:(flia)); by destruct (dec _)).
  change (is_slash SLASH) with true. cbn [negb orb].
  rewrite (proj2 (Nat.eqb_neq _ _)), Hs by (by destruct c). cbn [orb]. eauto.
Qed.

Lemma not_nul_dig c : is_dig c = true -> not_nul c = true.
Proof. intros H. unfold not_nul. rewrite bool_decide_eq_false_2; [done|]. intros ->. done. Qed.

Lemma spelling_no_nul E d c : 0 <= e_pid E -> fd_ok d -> Forall (fun c => not_nul c = true) c ->
  Forall (fun c => not_nul c = true) (bind_spelling E d c).
Proof.
  intros Hp Hd Hc. unfold bind_spelling.
  assert (Hn : forall n, 0 <= n -> Forall (fun c => not_nul c = true) (dec n)).
  { intros n Hn. eapply Forall_impl; [by apply dec_chars|]. apply not_nul_dig. }
  apply Forall_app. split; [by repeat constructor|]. apply Forall_app. split; [by apply Hn|].
  apply Forall_app. split; [by repeat constructor|]. apply Forall_app. split; [apply Hn; flia|by constructor].
Qed.

(** ** The record *)

Lemma fb_scan_found ino stored e : forall tab i acc, ino <> 0 ->
  tab !! i = Some e -> fb_state e = 2 -> fb_stored e = stored -> fb_ino e = ino ->
  (forall j e', j <> i -> tab !! j = Some e' -> fb_state e' = 2 -> fb_ino e' <> ino) ->
  fb_scan ino stored tab acc = Some e.
Proof.
  induction tab as [|e0 tab IH]; intros i acc H0 Hi H1 H2 H3 Hoth; [done|]. cbn [fb_scan].
  rewrite (proj2 (Z.eqb_neq ino 0)) by done. cbn [negb andb].
  destruct i as [|i].
  - injection Hi as ->. rewrite H1, H2, H3. rewrite bool_decide_eq_true_2 by done. cbn [negb orb Z.eqb].
    by rewrite !Z.eqb_refl.
  - assert (IH' : forall acc, fb_scan ino stored tab acc = Some e).
    { intros acc'. apply (IH i); try done. intros j e' Hj Hl Hst. apply (Hoth (S j) e'); [lia|done|done]. }
    destruct (negb (fb_state e0 =? 2) || _) eqn:Es; [done|].
    apply orb_false_iff in Es as [Es _]. apply negb_false_iff, Z.eqb_eq in Es.
    rewrite (proj2 (Z.eqb_neq (fb_ino e0) ino)); [done|]. by apply (Hoth 0%nat).
Qed.

Section Round.
Context (E : senv).
Context (Hpage : forall n, e_page E n = true) (Hper : (0 < e_per E)%nat).

(** A name recorded for a new socket is the one looked up for it. *)
Lemma noted_found fd ino stored guest pfd s :
  (0 < length stored)%nat -> Z.of_nat (length stored) <= SUN_PATH_MAX -> Z.of_nat (length guest) <= SUN_PATH_MAX ->
  0 <= fd -> s_socks s !! fd = Some ino -> ino <> 0 ->
  (forall e, e ∈ s_tab s -> fb_state e = 2 -> fb_ino e <> ino) ->
  exists s', sun_fb_note E fd stored guest pfd s = (tt, s') /\
    sock_ino fd s' = (ino, s') /\ sun_fb_lookup ino stored s' = (Some guest, s').
Proof.
  intros H1 H2 H3 Hfd Hs Hi Hnew.
  destruct (note_spec E fd stored guest pfd s) as (s' & E1 & (_ & _ & So & _) & Hn).
  specialize (Hn Hpage Hper H1 H2 H3 Hfd ino Hs). exists s'. split_and!; [done|..].
  - unfold sock_ino. by rewrite (proj2 (Z.ltb_ge _ _)), So, Hs by done.
  - destruct Hn as (i & e & N1 & N2 & N3 & N4 & N5 & N6). unfold sun_fb_lookup.
    rewrite (fb_scan_found ino stored e (s_tab s') i None); try done; [by rewrite <-N5|].
    intros j e' Hj Hl Hst. apply Hnew; [by apply (N6 j)|done].
Qed.

End Round.

Section Read.
Context (E : senv) (G : genv) (view : option cng_fs) (Hshare : e_share E = false).

(** What a guest reads back: [b], by its length, in a buffer of the same size. *)
Definition reads_back (fd : Z) (x : cng_sun_xlate) (s : sst) (b : cstr) : Prop :=
  forall buf, (110 <= length buf)%nat -> take (Z.to_nat (x_len x)) buf = x_buf x ->
  exists buf', cng_sun_out G view E fd (Some buf) (x_len x) s = ((Some buf', Z.of_nat (length b)), s) /\
    length buf' = length buf /\ take (length b) buf' = b.

(** A buffer that holds an address. *)
Lemma buffer_of (buf p : cstr) n : n = Z.of_nat (2 + length p) -> take (Z.to_nat n) buf = AF_UNIX ++ p ->
  (2 + length p <= length buf)%nat /\ exists r, buf = AF_UNIX ++ p ++ r.
Proof.
  intros -> Ht. rewrite Nat2Z.id in Ht.
  assert (Hlen : length (take (2 + length p) buf) = (2 + length p)%nat) by (rewrite Ht, length_app; done).
  rewrite length_take in Hlen. split; [lia|]. exists (drop (2 + length p) buf).
  rewrite app_assoc, <-Ht, take_drop. done.
Qed.

Lemma tagged_reads_back fd g1 s :
  (length g1 <= 87)%nat ->
  reads_back fd (SunXlate (AF_UNIX ++ NUL :: abs_tag view ++ g1) (Z.of_nat (3 + length g1) + ABS_TAG_LEN) (-1) true (-1) []) s
    (AF_UNIX ++ NUL :: g1).
Proof.
  intros Hg buf Hbuf Ht. cbn [x_len x_buf] in Ht.
  apply buffer_of in Ht as [Hlen [r ->]].
  2: { cbn [length]. rewrite length_app. unfold abs_tag. rewrite length_tag. unfold ABS_TAG_LEN. lia. }
  cbn [x_len]. unfold cng_sun_out. rewrite (proj2 (Z.ltb_ge _ _)) by (unfold SUN_HDR, ABS_TAG_LEN; lia).
  change (take 2 (AF_UNIX ++ ?l)) with AF_UNIX. rewrite bool_decide_eq_true_2 by done. cbn [negb orb].
  change (drop 2 (AF_UNIX ++ ?l)) with l. cbn [app]. change (char_is (NUL :: ?l) 0 NUL) with true. cbv iota.
  unfold sbind, out_abstract. rewrite Hshare, (proj2 (Z.ltb_ge _ _)) by (unfold SUN_HDR, ABS_TAG_LEN; lia). cbn [orb].
  change (drop 2 (AF_UNIX ++ ?l)) with l. change (drop 1 (NUL :: ?l)) with l. rewrite <-app_assoc.
  unfold abs_tag. destruct (tag_front view "g"%char (g1 ++ r)) as [Ht1 Ht2]. rewrite Ht1, bool_decide_eq_true_2 by done.
  change (drop 21 (NUL :: ?l)) with (drop 20 l). rewrite Ht2.
  replace (Z.to_nat (Z.of_nat (3 + length g1) + ABS_TAG_LEN - SUN_HDR - 1 - ABS_TAG_LEN)) with (length g1)
    by (unfold SUN_HDR; lia).
  rewrite take_app_length. unfold sret. cbn [fst snd].
  set (buf := AF_UNIX ++ NUL :: abs_tag_kind view "g"%char ++ g1 ++ r).
  assert (Hb3 : (3 + length g1 <= length buf)%nat).
  { unfold buf. rewrite length_app. cbn [length]. rewrite !length_app. change (length AF_UNIX) with 2%nat.
    change (length (abs_tag_kind view "g"%char)) with 20%nat. lia. }
  exists (put_at buf 3 g1). replace (Z.of_nat (3 + length g1) + ABS_TAG_LEN - ABS_TAG_LEN)
    with (Z.of_nat (3 + length g1)) by lia.
  change (length (AF_UNIX ++ NUL :: g1)) with (3 + length g1)%nat. split_and!; [done|by apply put_at_length|].
  rewrite put_at_take by lia. done.
Qed.

Lemma digest_reads_back fd ino g1 s' :
  sock_ino fd s' = (ino, s') -> sun_fb_lookup ino (NUL :: abs_digest view g1) s' = (Some (NUL :: g1), s') ->
  (length g1 <= 107)%nat ->
  reads_back fd (SunXlate (AF_UNIX ++ NUL :: abs_digest view g1) (SUN_HDR + 1 + ABS_DIG_LEN) (-1) true (-1) []) s'
    (AF_UNIX ++ NUL :: g1).
Proof.
  intros Hi Hf Hg buf Hbuf Ht. cbn [x_len x_buf] in *. unfold reads_back. cbn [x_len x_buf].
  apply buffer_of in Ht as [Hlen [r ->]]; [|done]. set (st := NUL :: abs_digest view g1) in *.
  unfold cng_sun_out. change (SUN_HDR + 1 + ABS_DIG_LEN <? SUN_HDR + 1) with false.
  change (take 2 (AF_UNIX ++ ?l)) with AF_UNIX. rewrite bool_decide_eq_true_2 by done. cbn [negb orb].
  change (drop 2 (AF_UNIX ++ ?l)) with l. change (char_is (st ++ r) 0 NUL) with true. cbv iota.
  unfold out_abstract, sbind. rewrite Hshare. change (SUN_HDR + 1 + ABS_DIG_LEN - SUN_HDR) with 37.
  change (37 <? 1 + ABS_TAG_LEN) with false. cbn [orb]. change (drop 2 (AF_UNIX ++ ?l)) with l.
  assert (Hd : take 20 (drop 1 (st ++ r)) = abs_tag_kind view "H"%char).
  { unfold st, abs_digest. change (drop 1 ((NUL :: ?l) ++ r)) with (l ++ r). rewrite <-app_assoc. apply tag_front. }
  rewrite Hd. rewrite bool_decide_eq_false_2 by done. change (37 =? 1 + ABS_DIG_LEN) with true.
  rewrite bool_decide_eq_true_2 by done. cbn [andb]. rewrite Hi.
  assert (Hst : take (Z.to_nat 37) (st ++ r) = st) by (by apply take_app_length'). rewrite Hst, Hf.
  change (0 <? length (NUL :: g1))%nat with true. unfold sret. cbn [fst snd].
  exists (put_at (AF_UNIX ++ st ++ r) 2 (NUL :: g1)). change (length (AF_UNIX ++ NUL :: g1)) with (2 + length (NUL :: g1))%nat.
  split_and!; [f_equal; f_equal; unfold SUN_HDR; lia| |rewrite put_at_take by lia; done].
  apply put_at_length. cbn [length]. lia.
Qed.

(** A name in the view, spelled through its directory. *)
Lemma spelled_reads_back fd ino d c guest s' :
  0 <= e_pid E < 2 ^ 31 -> fd_ok d -> c <> [] -> existsb is_slash c = false ->
  Forall (fun c => not_nul c = true) c -> Forall (fun c => not_nul c = true) guest ->
  (length guest <= 107)%nat -> Z.of_nat (length (bind_spelling E d c)) < SUN_PATH_MAX ->
  sock_ino fd s' = (ino, s') -> sun_fb_lookup ino (bind_spelling E d c) s' = (Some guest, s') ->
  reads_back fd (path_addr (bind_spelling E d c) d fd guest) s' (AF_UNIX ++ guest ++ [NUL]).
Proof.
  intros Hp Hd Hc Hs Hn Hng Hl Hsp Hi Hf buf Hbuf Ht. cbn [x_len x_buf path_addr] in *.
  set (st := bind_spelling E d c) in *.
  apply buffer_of in Ht as [Hlen [r ->]]; [|rewrite length_app; cbn [length]; unfold SUN_HDR; lia].
  rewrite <-app_assoc. cbn [app].
  assert (Hst : st <> [] /\ char_is (st ++ NUL :: r) 0 NUL = false) by done. destruct Hst as [Hst0 Hst1].
  unfold cng_sun_out. rewrite (proj2 (Z.ltb_ge _ _)) by (destruct st; [done|cbn [length]; lia]).
  change (take 2 (AF_UNIX ++ ?l)) with AF_UNIX. rewrite bool_decide_eq_true_2 by done. cbn [negb orb].
  change (drop 2 (AF_UNIX ++ ?l)) with l. rewrite Hst1. unfold sbind at 1, out_pathname.
  change (drop 2 (AF_UNIX ++ ?l)) with l.
  replace (Z.to_nat (Z.min (SUN_HDR + Z.of_nat (length st) + 1 - SUN_HDR) SUN_PATH_MAX)) with (length (st ++ [NUL]))
    by (rewrite length_app; cbn [length]; lia).
  replace (st ++ NUL :: r) with ((st ++ [NUL]) ++ r) by (by rewrite <-app_assoc). rewrite take_app_length.
  rewrite c_str_nul by (apply spelling_no_nul; [lia|done|done]).
  destruct (pin_form_spelling E d c Hp Hd Hc Hs) as [n En]. fold st in En. rewrite En.
  unfold sbind. rewrite Hi, Hf. unfold sret. rewrite c_str_id by done.
  rewrite (proj2 (Z.ltb_ge _ _)) by (unfold SUN_PATH_MAX; lia). cbn [fst snd].
  set (buf := AF_UNIX ++ _). exists (put_at buf 2 (guest ++ [NUL])).
  change (length (AF_UNIX ++ guest ++ [NUL])) with (2 + length (guest ++ [NUL]))%nat.
  split_and!.
  - f_equal. f_equal. rewrite length_app. cbn [length]. unfold SUN_HDR. lia.
  - apply put_at_length. rewrite length_app. cbn [length]. unfold buf in *.
    rewrite <-app_assoc in Hbuf |- *. cbn [app] in *. lia.
  - rewrite put_at_take; [done|]. unfold buf. rewrite length_app. cbn. lia.
Qed.
End Read.

(** ** A bind in the view *)

Lemma Forall_take_while {A} (P : A -> Prop) (f : A -> bool) l : Forall P l -> Forall P (take_while f l).
Proof. induction 1 as [|x l Hx _ IH]; cbn [take_while]; [done|]. destruct (f x); by constructor. Qed.

Lemma Forall_drop_while {A} (P : A -> Prop) (f : A -> bool) l : Forall P l -> Forall P (drop_while f l).
Proof. induction 1 as [|x l Hx Hl IH]; cbn [drop_while]; [done|]. destruct (f x); [done|by constructor]. Qed.

Lemma split_path_Forall (P : ascii -> Prop) path name dir want :
  split_path path = Some (name, dir, want) -> P SLASH -> Forall P path -> Forall P name.
Proof.
  intros H HS Hp. unfold split_path, strip_slashes in H. set (body := reverse (drop_while is_slash (reverse path))) in *.
  assert (Hb : Forall P body) by (by apply Forall_reverse, Forall_drop_while, Forall_reverse).
  clearbody body. destruct body as [|x body]; [done|]. injection H as <- _ _. apply Forall_app. split.
  - by apply Forall_reverse, Forall_take_while, Forall_reverse.
  - case_if; repeat constructor; done.
Qed.

Section Bound.
Context (G : genv) (R : renv) (view : option cng_fs) (K : kern) (root : Z) (E : senv).
Context (HK : kern_ok K root).
Context (Hview : forall fs, view = Some fs -> fs_wf fs).
Context (Hdev : Forall (fun nd : cstr * cstr => (length (snd nd) < CNG_PATH_MAX)%nat) (cng_dev_nodes G)).

Abbreviation any := (fun _ : Z => True).

Lemma ok_any w : w_trees w <> [] -> ok G view K root any w.
Proof. intros H. split; [done|]. apply Forall_forall. done. Qed.

Lemma bound_form fd gp alen s host x s1 :
  w_trees (s_w s) <> [] -> sun_host G R view (c_str (take 108 gp)) false = inr host ->
  inside_path G view false host -> Forall (fun c => not_nul c = true) host ->
  sun_pathname G R view K E fd gp alen false s = ((1, x), s1) ->
  exists d c, x = path_addr (bind_spelling E d c) d fd (c_str (take 108 gp)) /\ fd_ok d /\ normal_comp c /\
    Forall (fun c => not_nul c = true) c /\ Z.of_nat (length (bind_spelling E d c)) < SUN_PATH_MAX /\
    s_tab s1 = s_tab s /\ s_socks s1 = s_socks s.
Proof.
  intros Hw Hh Hin Hnul. unfold sun_pathname. rewrite Hh. unfold sbind at 1, up at 1.
  destruct (pin_at_spec G view K root any HK Hview Hdev AT_FDCWD host (s_w s) (ok_any _ Hw))
    as (r & p & w1 & Ep & _ & _ & Hl & Hs). rewrite Ep.
  destruct (split_inside G view false host Hin) as (Hp & dir & c & Es & _ & Hc). rewrite app_nil_r in Es.
  destruct Hs as [(_ & _ & Hneg)|(-> & _ & Hpin & name & dir' & want & Es' & Hname & _ & Hd & _)].
  { specialize (Hneg Hp). rewrite (proj2 (Z.eqb_neq _ _)) by lia. cbn [negb]. unfold sbind, up, sret.
    intros H. repeat case_match; simplify_eq; lia. }
  rewrite Es in Es'. injection Es' as <- <- <-. cbn [negb Z.eqb]. rewrite Hpin, Hname. cbn [negb].
  case_if; [unfold sbind, up, sret; intros H; repeat case_match; simplify_eq|].
  unfold sbind, up, cng_unpin, mthen, ret, sret. cbn [p_leaf p_own p_dfd]. rewrite Hl.
  change (0 <=? -1) with false. cbn [andb]. intros [= <- <-]. exists (p_dfd p), c.
  split_and!; try done; [by eapply split_path_Forall|lia].
Qed.
End Bound.

(** The address a guest expects to read of what it bound: an abstract name byte
    for byte, a path with its terminator. *)
Definition bound_as (b : cstr) : cstr :=
  if char_is (drop 2 b) 0 NUL then b else AF_UNIX ++ c_str (take 108 (drop 2 b)) ++ [NUL].


(** *** A bind and its readback *)

Lemma demo_inside : inside_path genv0 (Some fs0) false (cs "/data/rootfs/d/s").
Proof.
  exists (cs "/data/rootfs/d"), (cs "s"). split_and!; [done| | |by vm_compute|by vm_compute].
  - repeat constructor; discriminate.
  - exists [cs "data"; cs "rootfs"], [cs "d"]. split_and!; [done| |done| |vm_compute; lia|].
    + repeat constructor; discriminate.
    + left. exists fs0. split; [done|by left].
    + intros q Hq. apply (f_equal reverse) in Hq. rewrite reverse_app in Hq. vm_compute in Hq. discriminate Hq.
Qed.

(** The translation, and what is left when the bind was made. *)
Definition demo_in (path : cstr) (tab : list sun_fb) : Z * cng_sun_xlate * sst :=
  cng_sun_in genv0 quiet_env (Some fs0) demo_kern demo_senv 9 (Some (Some (demo_addr path)))
    (Z.of_nat (length (demo_addr path))) false (demo_sst [demo_tree 11] tab).

Definition demo_bound (path : cstr) (tab : list sun_fb) : sst :=
  let '(_, x, s) := demo_in path tab in snd (cng_sun_done demo_senv x 0 s).

Definition demo_read (path : cstr) (tab : list sun_fb) : option cstr * Z :=
  let '(_, x, _) := demo_in path tab in
  fst (cng_sun_out genv0 (Some fs0) demo_senv 9 (Some (x_buf x ++ replicate 100 NUL)) (x_len x) (demo_bound path tab)).


(** A path of 108 bytes is a legal name, and is bound; what is read of it is the
    monitor's own spelling. *)
Definition full_path : cstr := cs "/d" ++ concat (replicate 52 (cs "/.")) ++ cs "/s".

Lemma full_path_not_read_back :
  length full_path = 108%nat /\
  (fst (fst (demo_in full_path [])), (c_str ∘ drop 2) <$> fst (demo_read full_path [])) =
  (1, Some (cs "/proc/77/fd/3/s")).
Proof. vm_compute. auto. Qed.

(** A record of a socket that is closed, whose descriptor the guest has closed
    too; its number is given to the directory of the next bind, the same one, and
    the sweep takes it for the old record's. *)
Definition stale_fb : sun_fb := SunFb 2 3 (Some 11) 400 (cs "/proc/77/fd/3/t") (cs "/d/t").

Lemma reused_number_swept :
  let s := demo_bound (cs "/d/s") [stale_fb] in
  (x_dirfd (snd (fst (demo_in (cs "/d/s") [stale_fb]))), w_fds (s_w s) !! 3, fb_pfd <$> s_tab s !! 0%nat) =
  (3, None, Some (-1)).
Proof. vm_compute. reflexivity. Qed.

(** Of two records with one spelling a reader without the socket is given the one
    in the later slot, which need not be the one made later. *)
Lemma older_record_wins :
  let old := SunFb 2 (-1) None 499 (cs "/proc/77/fd/3/s") (cs "/other/s") in
  fst (sun_fb_lookup 0 (cs "/proc/77/fd/3/s") (demo_bound (cs "/d/s") [fb_zero; old])) = Some (cs "/other/s").
Proof. vm_compute. reflexivity. Qed.
