(* ===== verification/Netlink.v ===== *)
(** * Emulated netlink sockets, the serving side (src/src/monitor/netlink.c)

    A guest's requests are relayed to the host's kernel or answered from what is
    known of the interfaces.  Messages are lists of bytes; a reply being built is
    the bytes written so far, its offset their number.  The host is a record of
    its answers: the datagrams a relay socket gives, and what the interface
    ioctls say.  What is pushed to a guest is the list of records sent, whether
    or not its queue had room.  Not modelled: the guest's side of the sockets
    (the slots, the receive calls, the interface ioctls made on them). *)

From Stdlib Require Import ZArith Lia.
From S2P Require Import Prelude Rt.
From stdpp Require Import base numbers list.

Open Scope Z_scope.

Abbreviation bytes := (list Z).

Definition NLMSG_ERROR := 2.
Definition NLMSG_DONE := 3.
Definition NLM_F_REQUEST := 1.
Definition NLM_F_MULTI := 2.
Definition NLM_F_ACK := 4.
Definition NLM_F_CAPPED := 0x100.
Definition NLM_F_DUMP := 0x300.
Definition RTM_NEWLINK := 16.
Definition RTM_GETLINK := 18.
Definition RTM_NEWADDR := 20.
Definition RTM_GETADDR := 22.
Definition RTM_GETROUTE := 26.
Definition IFLA_ADDRESS := 1.
Definition IFLA_BROADCAST := 2.
Definition IFLA_IFNAME := 3.
Definition IFLA_MTU := 4.
Definition IFLA_TXQLEN := 13.
Definition IFLA_OPERSTATE := 16.
Definition IFA_ADDRESS := 1.
Definition IFA_LOCAL := 2.
Definition IFA_LABEL := 3.
Definition IFF_UP := 1.
Definition IFF_LOOPBACK := 8.
Definition IFF_RUNNING := 0x40.
Definition IFF_LOWER_UP := 0x10000.
Definition ARPHRD_ETHER := 1.
Definition ARPHRD_LOOPBACK := 772.
Definition AF_INET := 2.
Definition AF_INET6 := 10.
Definition NL_REPLY_MAX := 8192.
Definition NL_RELAY_MAX := 256.
Definition IFNAMSIZ : nat := 16.
Definition ENODEV := 19.
Definition EACCES := 13.
Definition EINVAL := 22.
Definition ENOENT := 2.
Definition ENOBUFS := 105.

(** ** Fields *)

Definition fld (b : bytes) (off n : nat) : Z := le64 (take n (drop off b)).
Definition len (b : bytes) : Z := Z.of_nat (length b).
Definition zeros (n : nat) : bytes := replicate n 0.
Definition overwrite (b : bytes) (off : nat) (v : bytes) : bytes :=
  take off b ++ v ++ drop (off + length v) b.

(** (n + 3) & ~3. *)
Definition align4 (n : Z) : Z := Z.land (n + 3) (Z.lnot 3).

Definition h_len (b : bytes) : Z := fld b 0 4.
Definition h_type (b : bytes) : Z := fld b 4 2.
Definition h_flags (b : bytes) : Z := fld b 6 2.
Definition h_seq (b : bytes) : Z := fld b 8 4.
Definition h_pid (b : bytes) : Z := fld b 12 4.

Definition nlmsghdr (l type flags seq pid : Z) : bytes :=
  bytes_of 4 l ++ bytes_of 2 type ++ bytes_of 2 flags ++ bytes_of 4 seq ++ bytes_of 4 pid.

(** ** Messages *)

Definition put_done (seq pid : Z) : bytes := nlmsghdr 20 NLMSG_DONE NLM_F_MULTI seq pid ++ bytes_of 4 0.

(** The rest of a buffer with the port of its messages replaced, and whether a
    terminator is among them. *)
Fixpoint fix_pid_loop (fuel : nat) (rest : bytes) (pid : Z) : bytes * bool :=
  match fuel with
  | O => (rest, false)
  | S fuel =>
      if len rest <? 16 then (rest, false)
      else if (h_len rest <? 16) || (len rest <? h_len rest) then (rest, false)
      else
        let rest' := overwrite rest 12 (bytes_of 4 pid) in
        let step := Z.to_nat (align4 (h_len rest)) in
        let '(more, done) := fix_pid_loop fuel (drop step rest') pid in
        (take step rest' ++ more, (h_type rest =? NLMSG_DONE) || done)
  end.

Definition fix_pid (buf : bytes) (pid : Z) : bytes * bool := fix_pid_loop (length buf) buf pid.

(** What is sent to the host for a request; [None] where it is too big or too
    short to be sent on. *)
Definition relay_form (req : bytes) (rlen : Z) (is_dump : bool) : option bytes :=
  if is_dump then
    Some (nlmsghdr 20 (h_type req) (h_flags req) (h_seq req) 0
          ++ [if 16 <? rlen then default 0 (req !! 16%nat) else 0; 0; 0; 0])
  else if (rlen <? 16) || (NL_RELAY_MAX <? rlen) then None
  else
    let out := take (Z.to_nat rlen) req in
    Some (overwrite (overwrite out 0 (bytes_of 4 rlen)) 12 (bytes_of 4 0)).

Definition put_attr (buf : bytes) (max type : Z) (data : bytes) : bytes :=
  let space := align4 (4 + len data) in
  if max <? len buf + space then buf
  else buf ++ bytes_of 2 (4 + len data) ++ bytes_of 2 type ++ data ++ zeros (Z.to_nat (space - 4 - len data)).

Record ifinfo := IfInfo {
  i_index : Z;
  i_flags : Z;
  i_mtu : Z;
  i_hwtype : Z;
  i_hwaddr : bytes;           (* hwlen bytes *)
  i_name : bytes              (* up to its terminator *) }.

Definition shown_flags (fl : Z) : Z := Z.lor fl (if Z.land fl IFF_RUNNING =? 0 then 0 else IFF_LOWER_UP).

(** The header of a message, written when its length is known. *)
Definition close_msg (buf : bytes) (start : nat) (type flags seq pid : Z) : bytes :=
  overwrite buf start (nlmsghdr (len buf - Z.of_nat start) type flags seq pid).

Definition put_link (buf : bytes) (max seq pid nlflags : Z) (fi : ifinfo) : bytes :=
  let start := length buf in
  if max <? Z.of_nat start + 32 then buf
  else
    let b := buf ++ zeros 16 ++
             [0; 0] ++ bytes_of 2 (i_hwtype fi) ++ bytes_of 4 (i_index fi)
             ++ bytes_of 4 (shown_flags (i_flags fi)) ++ zeros 4 in
    let b := put_attr b max IFLA_IFNAME (i_name fi ++ [0]) in
    let b := put_attr b max IFLA_MTU (bytes_of 4 (i_mtu fi)) in
    let b := put_attr b max IFLA_TXQLEN (bytes_of 4 1000) in
    let b := put_attr b max IFLA_OPERSTATE [if Z.land (i_flags fi) IFF_UP =? 0 then 2 else 6] in
    let b :=
      if (length (i_hwaddr fi) =? 0)%nat then b
      else
        let brd := replicate (length (i_hwaddr fi)) (if i_hwtype fi =? ARPHRD_LOOPBACK then 0 else 255) in
        put_attr (put_attr b max IFLA_ADDRESS (i_hwaddr fi)) max IFLA_BROADCAST brd in
    close_msg b start RTM_NEWLINK nlflags seq pid.

Definition lo_addr (v6 : bool) : bytes := if v6 then zeros 15 ++ [1] else [127; 0; 0; 1].

Definition put_lo_addr (buf : bytes) (max seq pid : Z) (v6 : bool) (nlflags : Z) : bytes :=
  let start := length buf in
  if max <? Z.of_nat start + 24 then buf
  else
    let b := buf ++ zeros 16 ++
             [if v6 then AF_INET6 else AF_INET; if v6 then 128 else 8; 128; 254] ++ bytes_of 4 1 in
    let b := put_attr b max IFA_ADDRESS (lo_addr v6) in
    let b := put_attr b max IFA_LOCAL (lo_addr v6) in
    let b := if v6 then b else put_attr b max IFA_LABEL [108; 111; 0] in    (* "lo" *)
    close_msg b start RTM_NEWADDR nlflags seq pid.

Definition put_error (buf : bytes) (max seq pid error : Z) : bytes :=
  if max <? len buf + 36 then buf
  else buf ++ nlmsghdr 36 NLMSG_ERROR 0 seq pid ++ bytes_of 4 error ++ zeros 16.

Definition put_ack (buf : bytes) (max seq pid : Z) (req : bytes) : bytes :=
  if max <? len buf + 36 then buf
  else buf ++ nlmsghdr 36 NLMSG_ERROR NLM_F_CAPPED seq pid ++ bytes_of 4 0 ++ take 16 req.

Definition cap_ack (buf : bytes) : bytes :=
  if (20 <=? len buf) && (h_type buf =? NLMSG_ERROR) && (fld buf 16 4 =? 0)
  then overwrite buf 6 (bytes_of 2 (Z.lor (h_flags buf) NLM_F_CAPPED)) else buf.

Definition is_error (buf : bytes) : bool := (16 <=? len buf) && (h_type buf =? NLMSG_ERROR).

(** ** The interfaces *)

(** An interface, its first IPv4 address and the length of its prefix. *)
Abbreviation ifent := (Z * Z * Z)%type.

(** The attributes of an address message, from offset [q] on. *)
Fixpoint addr_attrs (fuel : nat) (m : bytes) (q : Z) (e : ifent) : ifent :=
  match fuel with
  | O => e
  | S fuel =>
      let mlen := h_len m in
      if mlen <? q + 4 then e
      else
        let al := fld m (Z.to_nat q) 2 in
        let at_ := fld m (Z.to_nat q + 2) 2 in
        if (al <? 4) || (mlen <? q + al) then e
        else
          let '(ix, v4, pl) := e in
          let e := if ((at_ =? IFA_LOCAL) || (at_ =? IFA_ADDRESS)) && (8 <=? al) && (v4 =? 0)
                   then (ix, fld m (Z.to_nat q + 4) 4, fld m 17 1) else e in
          addr_attrs fuel m (q + align4 al) e
  end.

(** The address of an interface that has none yet, where it is wanted. *)
Definition addr_fill (v4 : bool) (m : bytes) (e : ifent) : ifent :=
  if v4 && (snd (fst e) =? 0) && (fld m 16 1 =? AF_INET) then addr_attrs (length m) m 24 e else e.

(** One address message. *)
Definition addr_msg (v4 : bool) (cap : nat) (es : list ifent) (m : bytes) : list ifent :=
  if (h_type m =? RTM_NEWADDR) && (24 <=? h_len m) then
    let ifi := s32 (fld m 20 4) in
    if existsb (fun e => fst (fst e) =? ifi) es
    then (fun e => if fst (fst e) =? ifi then addr_fill v4 m e else e) <$> es
    else if (length es <? cap)%nat then es ++ [addr_fill v4 m (ifi, 0, 0)] else es
  else es.

Fixpoint addr_walk (fuel : nat) (v4 : bool) (cap : nat) (es : list ifent) (rest : bytes) : list ifent * bool :=
  match fuel with
  | O => (es, false)
  | S fuel =>
      if len rest <? 16 then (es, false)
      else
        let mlen := h_len rest in
        if (mlen <? 16) || (len rest <? mlen) then (es, false)
        else if (h_type rest =? NLMSG_DONE) || (h_type rest =? NLMSG_ERROR) then (es, true)
        else addr_walk fuel v4 cap (addr_msg v4 cap es (take (Z.to_nat mlen) rest)) (drop (Z.to_nat (align4 mlen)) rest)
  end.

Fixpoint addr_rounds (rounds : nat) (v4 : bool) (cap : nat) (es : list ifent) (max : Z) (dgrams : list bytes) : list ifent :=
  match rounds, dgrams with
  | S rounds, d :: dgrams =>
      let d := take (Z.to_nat max) d in
      if (length d =? 0)%nat then es
      else
        let '(es, done) := addr_walk (length d) v4 cap es d in
        if done then es else addr_rounds rounds v4 cap es max dgrams
  | _, _ => es
  end.

(** What the ioctls say of an interface. *)
Record ifquery := IfQuery {
  q_name : bytes;             (* SIOCGIFNAME: 16 bytes *)
  q_flags : option Z;
  q_mtu : option Z;
  q_hw : option (Z * bytes)   (* the type and six bytes *) }.

(** The host, for one request. *)
Record nlhost := NlHost {
  n_relay : bool;             (* a relay socket can be had *)
  n_send : bytes -> Z;        (* the answer to a request sent on *)
  n_recv : list bytes;        (* the datagrams that follow; none left: an error *)
  n_enum : option (list bytes); (* the same for the address dump: None, not sent *)
  n_ioctl : bool;             (* a socket for the ioctls *)
  n_if : Z -> option ifquery }.

Definition addr_dump_indices (v4 : bool) (cap : nat) (max : Z) (no_relay : bool) (H : nlhost) : list ifent :=
  if no_relay then []
  else match n_enum H with
       | None => []
       | Some ds => addr_rounds 64 v4 cap [] max ds
       end.

Definition not_zero (b : Z) : bool := negb (b =? 0).

Definition gather_ifinfo (H : nlhost) (index : Z) : option ifinfo :=
  if negb (n_ioctl H) then None
  else
    q ← n_if H index;
    let fl := match q_flags q with Some f => u16 f | None => 0 end in
    let lo := negb (Z.land fl IFF_LOOPBACK =? 0) in
    let mtu := match q_mtu q with Some m => u32 m | None => if lo then 65536 else 1500 end in
    let '(ht, ha) := match q_hw q with
                     | Some (t, a) => (u16 t, take 6 a)
                     | None => (if lo then ARPHRD_LOOPBACK else ARPHRD_ETHER, [])
                     end in
    Some (IfInfo index fl mtu ht ha (take_while not_zero (take (IFNAMSIZ - 1) (q_name q)))).

(** The index and the name a single get asks for. *)
Fixpoint target_attrs (fuel : nat) (req : bytes) (rlen p : Z) (name : bytes) : bytes :=
  match fuel with
  | O => name
  | S fuel =>
      if rlen <? p + 4 then name
      else
        let alen := fld req (Z.to_nat p) 2 in
        let atype := fld req (Z.to_nat p + 2) 2 in
        if (alen <? 4) || (rlen <? p + alen) then name
        else
          let name := if atype =? IFLA_IFNAME
                      then take_while not_zero (take (Z.to_nat (Z.min (alen - 4) 15)) (drop (Z.to_nat p + 4) req))
                      else name in
          target_attrs fuel req rlen (p + align4 alen) name
  end.

Definition link_target (req : bytes) (rlen : Z) : Z * bytes :=
  if rlen <? 32 then (0, [])
  else (s32 (fld req 20 4), target_attrs (length req) req rlen 32 []).

Definition wanted (dump : bool) (want_index : Z) (want : bytes) (fi : ifinfo) : bool :=
  dump ||
  (if (0 <? length want)%nat then bool_decide (want = i_name fi)
   else negb ((0 <? want_index) && negb (i_index fi =? want_index))).

(** The reply so far and the messages built. *)
Fixpoint links_loop (out : bytes) (max seq pid : Z) (dump : bool) (want_index : Z) (want : bytes)
    (H : nlhost) (idx : list Z) (built : nat) : bytes * nat :=
  match idx with
  | [] => (out, built)
  | ix :: idx =>
      match gather_ifinfo H ix with
      | None => links_loop out max seq pid dump want_index want H idx built
      | Some fi =>
          if negb (wanted dump want_index want fi)
          then links_loop out max seq pid dump want_index want H idx built
          else
            let out := put_link out max seq pid (if dump then NLM_F_MULTI else 0) fi in
            if dump then links_loop out max seq pid dump want_index want H idx (S built) else (out, S built)
      end
  end.

Definition lo_info : ifinfo :=
  IfInfo 1 (Z.lor IFF_UP (Z.lor IFF_LOOPBACK IFF_RUNNING)) 65536 ARPHRD_LOOPBACK (zeros 6) [108; 111].

Definition synth_links (max : Z) (req : bytes) (rlen seq pid : Z) (dump no_relay : bool) (H : nlhost) : bytes :=
  let '(want_index, want) := if dump then (0, []) else link_target req rlen in
  let idx := (fst ∘ fst) <$> addr_dump_indices false 32 max no_relay H in
  let '(out, built) := links_loop [] max seq pid dump want_index want H idx 0 in
  if (0 <? built)%nat then out
  else if dump then put_link [] max seq pid NLM_F_MULTI lo_info
  else if (if (0 <? length want)%nat then bool_decide (want = i_name lo_info)
           else (want_index =? 0) || (want_index =? 1))
  then put_link [] max seq pid 0 lo_info
  else put_error [] max seq pid (- ENODEV).

Definition synth_addrs (max : Z) (req : bytes) (rlen seq pid : Z) (dump : bool) : bytes :=
  let family := if 16 <? rlen then default 0 (req !! 16%nat) else 0 in
  let fl := if dump then NLM_F_MULTI else 0 in
  let out := if (family =? 0) || (family =? AF_INET) then put_lo_addr [] max seq pid false fl else [] in
  if (family =? 0) || (family =? AF_INET6) then put_lo_addr out max seq pid true fl else out.

(** ** Serving *)

Record nl_peer := NlPeer {
  np_used : bool;
  np_id : Z;
  np_fd : Z;
  np_port : Z;
  np_flags : Z;
  np_served : Z;
  np_relayed : Z;
  np_synthesized : Z }.

Definition count (p : nl_peer) (s r y : Z) : nl_peer :=
  NlPeer (np_used p) (np_id p) (np_fd p) (np_port p) (np_flags p)
    (u32 (np_served p + s)) (u32 (np_relayed p + r)) (u32 (np_synthesized p + y)).

(** The record sent, if it is not empty. *)
Definition push (b : bytes) : list bytes := if 0 <? len b then [b] else [].

Fixpoint push_msgs (fuel : nat) (b : bytes) : list bytes :=
  match fuel with
  | O => []
  | S fuel =>
      if len b <? 16 then []
      else
        let step := align4 (h_len b) in
        if (step <? 16) || (len b <? step) then []
        else push (take (Z.to_nat (h_len b)) b) ++ push_msgs fuel (drop (Z.to_nat step) b)
  end.

(** The datagram a receive gives; [None] for an error or nothing. *)
Definition recv (ds : list bytes) : option (bytes * list bytes) :=
  match ds with
  | d :: ds => let d := take (Z.to_nat NL_REPLY_MAX) d in if (length d =? 0)%nat then None else Some (d, ds)
  | [] => None
  end.

(** A dump relayed: the records, and whether its terminator was among them. *)
Fixpoint pump_dump (rounds : nat) (port : Z) (ds : list bytes) : list bytes * bool :=
  match rounds with
  | O => ([], false)
  | S rounds =>
      match recv ds with
      | None => ([], false)
      | Some (d, ds) =>
          let '(d, done) := fix_pid d port in
          if done then (push d, true)
          else let '(out, done) := pump_dump rounds port ds in (push d ++ out, done)
      end
  end.

Definition pump (port : Z) (req : bytes) (is_dump : bool) (ds : list bytes) : list bytes :=
  let seq := h_seq req in
  if is_dump then
    let '(out, done) := pump_dump 256 port ds in
    if done then out else out ++ push (put_done seq port)
  else
    match recv ds with
    | None => push (put_error [] NL_REPLY_MAX seq port 0)
    | Some (d, ds) =>
        let '(d, _) := fix_pid d port in
        push d ++
        (if negb (Z.land (h_flags req) NLM_F_ACK =? 0) && negb (is_error d) then
           push (match recv ds with
                 | Some (a, _) => cap_ack (fst (fix_pid a port))
                 | None => put_ack [] NL_REPLY_MAX seq port req
                 end)
         else [])
    end.

Definition NO_RELAY := 1.
Definition DENY_GETLINK := 2.

Definition is_get (type : Z) : bool := (type =? RTM_GETLINK) || (type =? RTM_GETADDR) || (type =? RTM_GETROUTE).

(** The answer the host gives to a get being sent on: negative where it is
    refused, or was not sent. *)
Definition relay_answer (p : nl_peer) (H : nlhost) (req : bytes) (rl : Z) (is_dump : bool) : Z :=
  if negb (n_relay H) || negb (Z.land (np_flags p) NO_RELAY =? 0) then -1
  else if negb (Z.land (np_flags p) DENY_GETLINK =? 0) && (h_type req =? RTM_GETLINK) then - EACCES
  else match relay_form req rl is_dump with
       | Some out => n_send H out
       | None => - EINVAL
       end.

(** The reply made up for a get the host does not answer. *)
Definition synthesize (p : nl_peer) (H : nlhost) (req : bytes) (rl : Z) (is_dump : bool) : bytes :=
  let type := h_type req in
  let seq := h_seq req in
  let pid := np_port p in
  let no_relay := negb (Z.land (np_flags p) NO_RELAY =? 0) in
  let out :=
    if type =? RTM_GETLINK then synth_links (NL_REPLY_MAX - 24) req rl seq pid is_dump no_relay H
    else if type =? RTM_GETADDR then synth_addrs (NL_REPLY_MAX - 24) req rl seq pid is_dump
    else [] in
  let out := if is_dump then out ++ put_done seq pid else out in
  if (0 <? len out) && negb is_dump && negb (Z.land (h_flags req) NLM_F_ACK =? 0) && negb (is_error out)
  then put_ack out NL_REPLY_MAX seq pid req else out.

Definition process_request (p : nl_peer) (H : nlhost) (req : bytes) : nl_peer * list bytes :=
  if len req <? 16 then (p, [])
  else
    let seq := h_seq req in
    let pid := np_port p in
    let is_dump := Z.land (h_flags req) NLM_F_DUMP =? NLM_F_DUMP in
    let rl := if h_len req <? len req then h_len req else len req in
    let p := count p 1 0 0 in
    let last :=
      if is_dump then push (put_done seq pid) else push (put_ack [] NL_REPLY_MAX seq pid req) in
    if is_get (h_type req) then
      if 0 <=? relay_answer p H req rl is_dump
      then (count p 0 1 0, pump pid req is_dump (n_recv H))
      else
        let out := synthesize p H req rl is_dump in
        if 0 <? len out then (count p 0 0 1, push_msgs (length out) out) else (p, last)
    else (p, last).

(** The requests queued on an end, each with the host it meets: what is sent, what
    is left, and whether the bound was reached first.  Past a shutdown of the
    guest's end the queue is as many empty records as are read. *)
Fixpoint peer_drain (p : nl_peer) (max : nat) (queue : list (bytes * nlhost)) :
    nl_peer * list bytes * list (bytes * nlhost) * bool :=
  match max, queue with
  | O, _ => (p, [], queue, true)
  | S max, [] => (p, [], [], false)
  | S max, (req, H) :: queue =>
      let req := take 256 req in
      let '(p, out) := if (length req =? 0)%nat then (p, []) else process_request p H req in
      let '(p, out', queue, more) := peer_drain p max queue in
      (p, out ++ out', queue, more)
  end.
