(* ===== verification/NetlinkProps.v ===== *)
(** * Netlink replies: read back, terminated, addressed

    A synthesized dump is one record a message, in order, and a client that
    parses them finds what the host said of each interface; every request is
    answered, and a dump's terminator is its last record. *)

From Stdlib Require Import ZArith Lia.
From S2P Require Import Prelude Rt Netlink.
From stdpp Require Import base numbers list.

Open Scope Z_scope.

(** ** Fields *)

Lemma length_bytes_of n : forall z, length (bytes_of n z) = n.
Proof. induction n as [|n IH]; intros z; cbn [bytes_of length]; [done|by rewrite IH]. Qed.

Lemma le64_bytes_of n : forall z, le64 (bytes_of n z) = z mod 256 ^ Z.of_nat n.
Proof.
  induction n as [|n IH]; intros z; cbn [bytes_of]; [by rewrite Z.mod_1_r|].
  change (le64 (z mod 256 :: bytes_of n (z / 256))) with (z mod 256 + 256 * le64 (bytes_of n (z / 256))).
  rewrite IH, Nat2Z.inj_succ, Z.pow_succ_r by lia. rewrite Z.rem_mul_r by (try apply Z.pow_nonzero; lia). lia.
Qed.

Lemma fld_app a v b n : length v = n -> fld (a ++ v ++ b) (length a) n = le64 v.
Proof. intros <-. unfold fld. by rewrite drop_app_length, take_app_length. Qed.

Lemma fld_is b (a : bytes) n z c off : b = a ++ bytes_of n z ++ c -> length a = off ->
  0 <= z < 256 ^ Z.of_nat n -> fld b off n = z.
Proof.
  intros -> <- Hz. rewrite fld_app by apply length_bytes_of. rewrite le64_bytes_of. by apply Z.mod_small.
Qed.

Lemma fld_skip a b off n : fld (a ++ b) (length a + off) n = fld b off n.
Proof. unfold fld. by rewrite drop_app_add. Qed.

Lemma len_app a b : len (a ++ b) = len a + len b.
Proof. unfold len. rewrite length_app. lia. Qed.

Lemma len_bytes_of n z : len (bytes_of n z) = Z.of_nat n.
Proof. unfold len. by rewrite length_bytes_of. Qed.

Lemma len_zeros n : len (zeros n) = Z.of_nat n.
Proof. unfold len, zeros. by rewrite length_replicate. Qed.

(** The header of a message and what follows it. *)
Lemma hdr_fields l ty fl seq pid r :
  0 <= l < 2 ^ 32 -> 0 <= ty < 2 ^ 16 -> 0 <= fl < 2 ^ 16 -> 0 <= seq < 2 ^ 32 -> 0 <= pid < 2 ^ 32 ->
  let b := nlmsghdr l ty fl seq pid ++ r in
  h_len b = l /\ h_type b = ty /\ h_flags b = fl /\ h_seq b = seq /\ h_pid b = pid /\ drop 16 b = r.
Proof.
  intros Hl Ht Hf Hs Hp b.
  unfold h_len, h_type, h_flags, h_seq, h_pid. split_and!.
  - by apply (fld_is b [] 4 l (bytes_of 2 ty ++ bytes_of 2 fl ++ bytes_of 4 seq ++ bytes_of 4 pid ++ r)).
  - by apply (fld_is b (bytes_of 4 l) 2 ty (bytes_of 2 fl ++ bytes_of 4 seq ++ bytes_of 4 pid ++ r)).
  - by apply (fld_is b (bytes_of 4 l ++ bytes_of 2 ty) 2 fl (bytes_of 4 seq ++ bytes_of 4 pid ++ r)).
  - by apply (fld_is b (bytes_of 4 l ++ bytes_of 2 ty ++ bytes_of 2 fl) 4 seq (bytes_of 4 pid ++ r)).
  - by apply (fld_is b (bytes_of 4 l ++ bytes_of 2 ty ++ bytes_of 2 fl ++ bytes_of 4 seq) 4 pid r).
  - done.
Qed.

Lemma align4_spec n : 0 <= n -> n <= align4 n < n + 4 /\ align4 n mod 4 = 0.
Proof.
  intros Hn. unfold align4. change (Z.lnot 3) with (-4).
  assert (E : Z.land (n + 3) (-4) = (n + 3) / 4 * 4).
  { change (-4) with (Z.lnot (Z.ones 2)). rewrite <-Z.ldiff_land, Z.ldiff_ones_r by lia.
    rewrite Z.shiftl_mul_pow2, Z.shiftr_div_pow2 by lia. done. }
  rewrite E. split; [|apply Z.mod_mul; lia]. pose proof (Z.div_mod (n + 3) 4 ltac:(lia)).
  pose proof (Z.mod_pos_bound (n + 3) 4 ltac:(lia)). lia.
Qed.

Lemma align4_id n : 0 <= n -> n mod 4 = 0 -> align4 n = n.
Proof.
  intros Hn Hm. destruct (align4_spec n Hn) as [H1 H2].
  pose proof (Z.div_mod n 4 ltac:(lia)). pose proof (Z.div_mod (align4 n) 4 ltac:(lia)). lia.
Qed.

(** ** Attributes *)

Definition attr (a : Z * bytes) : bytes :=
  bytes_of 2 (4 + len (snd a)) ++ bytes_of 2 (fst a) ++ snd a ++ zeros (Z.to_nat (align4 (4 + len (snd a)) - 4 - len (snd a))).

Lemma len_nonneg b : 0 <= len b.
Proof. unfold len. lia. Qed.

Lemma len_attr a : len (attr a) = align4 (4 + len (snd a)).
Proof.
  unfold attr. rewrite !len_app, !len_bytes_of, len_zeros.
  pose proof (len_nonneg (snd a)). destruct (align4_spec (4 + len (snd a)) ltac:(lia)). lia.
Qed.

Lemma put_attr_fits buf max t d : len buf + len (attr (t, d)) <= max -> put_attr buf max t d = buf ++ attr (t, d).
Proof. rewrite len_attr. intros H. unfold put_attr. cbn [snd] in H. rewrite (proj2 (Z.ltb_ge _ _)) by lia. done. Qed.

(** A client's walk over them. *)
Fixpoint parse_attrs (fuel : nat) (b : bytes) : list (Z * bytes) :=
  match fuel with
  | O => []
  | S fuel =>
      if len b <? 4 then []
      else
        let al := fld b 0 2 in
        if (al <? 4) || (len b <? al) then []
        else (fld b 2 2, take (Z.to_nat (al - 4)) (drop 4 b)) :: parse_attrs fuel (drop (Z.to_nat (align4 al)) b)
  end.

Definition attr_ok (a : Z * bytes) : Prop := 0 <= fst a < 2 ^ 16 /\ 4 + len (snd a) < 2 ^ 16.

Lemma parse_attrs_concat l : forall fuel, Forall attr_ok l -> (length l <= fuel)%nat ->
  parse_attrs fuel (concat (attr <$> l)) = l.
Proof.
  induction l as [|[t d] l IH]; intros fuel Hl Hf; [by destruct fuel|].
  apply Forall_cons in Hl as [[Ht Hd] Hl]. cbn [fst snd] in Ht, Hd. destruct fuel as [|fuel]; [cbn [length] in Hf; lia|].
  cbn [fmap list_fmap concat parse_attrs]. fold (fmap attr l). set (rest := concat (attr <$> l)).
  pose proof (len_nonneg d) as Hd0. pose proof (len_attr (t, d)) as Hla. cbn [snd] in Hla.
  destruct (align4_spec (4 + len d) ltac:(lia)) as [Ha _]. pose proof (len_nonneg rest).
  rewrite (proj2 (Z.ltb_ge _ _)) by (rewrite len_app; lia). cbv zeta.
  assert (E1 : fld (attr (t, d) ++ rest) 0 2 = 4 + len d).
  { eapply (fld_is _ []); [unfold attr; cbn [fst snd]; by rewrite <-!app_assoc|done|cbn; lia]. }
  assert (E2 : fld (attr (t, d) ++ rest) 2 2 = t).
  { eapply (fld_is _ (bytes_of 2 (4 + len d))); [unfold attr; cbn [fst snd]; by rewrite <-!app_assoc|done|cbn; lia]. }
  rewrite E1, E2, (proj2 (Z.ltb_ge _ _)), (proj2 (Z.ltb_ge _ _)) by (try rewrite len_app; lia). cbn [orb].
  f_equal; [f_equal|].
  - unfold attr. cbn [fst snd]. rewrite <-!app_assoc.
    change (drop 4 (bytes_of 2 ?x ++ bytes_of 2 ?y ++ ?r)) with r.
    replace (Z.to_nat (4 + len d - 4)) with (length d) by (unfold len; lia). apply take_app_length.
  - replace (Z.to_nat (align4 (4 + len d))) with (length (attr (t, d))) by (unfold len in *; lia).
    rewrite drop_app_length. apply IH; [done|]. cbn [length] in Hf. lia.
Qed.

Lemma put_attrs_fit max l : forall buf, len buf + len (concat (attr <$> l)) <= max ->
  foldl (fun b a => put_attr b max (fst a) (snd a)) buf l = buf ++ concat (attr <$> l).
Proof.
  induction l as [|[t d] l IH]; intros buf H; cbn [foldl fmap list_fmap concat fst snd]; [by rewrite app_nil_r|].
  fold (fmap attr l) in *. cbn [fmap list_fmap concat] in H. fold (fmap attr l) in H. rewrite len_app in H.
  pose proof (len_nonneg (concat (attr <$> l))).
  rewrite put_attr_fits, IH by (try rewrite len_app; lia). by rewrite app_assoc.
Qed.

(** ** Link messages *)

Definition link_attrs (fi : ifinfo) : list (Z * bytes) :=
  [(IFLA_IFNAME, i_name fi ++ [0]); (IFLA_MTU, bytes_of 4 (i_mtu fi)); (IFLA_TXQLEN, bytes_of 4 1000);
   (IFLA_OPERSTATE, [if Z.land (i_flags fi) IFF_UP =? 0 then 2 else 6])]
  ++ if (length (i_hwaddr fi) =? 0)%nat then []
     else [(IFLA_ADDRESS, i_hwaddr fi);
           (IFLA_BROADCAST, replicate (length (i_hwaddr fi)) (if i_hwtype fi =? ARPHRD_LOOPBACK then 0 else 255))].

Definition link_head (fi : ifinfo) : bytes :=
  [0; 0] ++ bytes_of 2 (i_hwtype fi) ++ bytes_of 4 (i_index fi) ++ bytes_of 4 (shown_flags (i_flags fi)) ++ zeros 4.

Definition link_body (fi : ifinfo) : bytes := link_head fi ++ concat (attr <$> link_attrs fi).

(** A message of its own: header and body. *)
Definition message (type flags seq pid : Z) (body : bytes) : bytes :=
  nlmsghdr (16 + len body) type flags seq pid ++ body.

Lemma len_hdr l t f s p : len (nlmsghdr l t f s p) = 16.
Proof. done. Qed.

Lemma len_message t f s p body : len (message t f s p body) = 16 + len body.
Proof. unfold message. by rewrite len_app, len_hdr. Qed.

Lemma close_msg_spec buf body t f s p :
  close_msg (buf ++ zeros 16 ++ body) (length buf) t f s p = buf ++ message t f s p body.
Proof.
  unfold close_msg, message, overwrite. rewrite take_app_length.
  replace (len (buf ++ zeros 16 ++ body) - Z.of_nat (length buf)) with (16 + len body)
    by (rewrite !len_app, len_zeros; unfold len; lia).
  change (length (nlmsghdr _ _ _ _ _)) with 16%nat. rewrite drop_app_add. done.
Qed.

Lemma put_link_fits buf max seq pid fl fi :
  len buf + len (message RTM_NEWLINK fl seq pid (link_body fi)) <= max ->
  put_link buf max seq pid fl fi = buf ++ message RTM_NEWLINK fl seq pid (link_body fi).
Proof.
  intros H. rewrite len_message in H. unfold link_body in H. rewrite len_app in H.
  change (len (link_head fi)) with 16 in H. pose proof (len_nonneg (concat (attr <$> link_attrs fi))) as H0.
  unfold put_link. fold (len buf). rewrite (proj2 (Z.ltb_ge _ _)) by lia. cbv zeta.
  change ([0; 0] ++ bytes_of 2 (i_hwtype fi) ++ _) with (link_head fi). set (b0 := buf ++ zeros 16 ++ link_head fi).
  assert (Hb0 : len b0 = len buf + 32) by (unfold b0; rewrite !len_app; done).
  replace (if (length (i_hwaddr fi) =? 0)%nat then _ else _)
    with (foldl (fun b a => put_attr b max (fst a) (snd a)) b0 (link_attrs fi)).
  2: { unfold link_attrs. rewrite foldl_app. cbn [foldl fst snd]. destruct (length (i_hwaddr fi) =? 0)%nat; done. }
  rewrite put_attrs_fit by lia. unfold b0. rewrite <-!app_assoc.
  change (link_head fi ++ concat (attr <$> link_attrs fi)) with (link_body fi). apply close_msg_spec.
Qed.

(** What a host says of an interface. *)
Record info_ok (fi : ifinfo) : Prop := InfoOk {
  io_name : (length (i_name fi) <= 15)%nat;
  io_hw : (length (i_hwaddr fi) <= 6)%nat;
  io_type : 0 <= i_hwtype fi < 2 ^ 16;
  io_index : - 2 ^ 31 <= i_index fi < 2 ^ 31;
  io_flags : 0 <= i_flags fi < 2 ^ 16 }.

Lemma align4_le n k : 0 <= n <= k -> k mod 4 = 0 -> align4 n <= k.
Proof.
  intros Hn Hk. destruct (align4_spec n ltac:(lia)) as [H1 H2].
  pose proof (Z.div_mod k 4 ltac:(lia)). pose proof (Z.div_mod (align4 n) 4 ltac:(lia)). lia.
Qed.

Lemma link_msg_len fl seq pid fi : info_ok fi -> len (message RTM_NEWLINK fl seq pid (link_body fi)) <= 100 /\
  len (message RTM_NEWLINK fl seq pid (link_body fi)) mod 4 = 0.
Proof.
  intros Hi. pose proof (io_name fi Hi) as H1. pose proof (io_hw fi Hi) as H2.
  rewrite len_message. unfold link_body. rewrite len_app. change (len (link_head fi)) with 16.
  assert (Ha : forall l, len (concat (attr <$> l)) mod 4 = 0).
  { induction l as [|a l IH]; cbn [fmap list_fmap concat]; [done|]. fold (fmap attr l).
    rewrite len_app, len_attr. pose proof (len_nonneg (snd a)).
    destruct (align4_spec (4 + len (snd a)) ltac:(lia)) as [_ Hm].
    rewrite Z.add_mod, Hm, IH by lia. done. }
  specialize (Ha (link_attrs fi)). split; [|rewrite Z.add_mod, (Z.add_mod 16), Ha by lia; done].
  assert (Hn : align4 (4 + len (i_name fi ++ [0])) <= 20).
  { apply align4_le; [|done]. rewrite len_app. unfold len. cbn [length]. lia. }
  unfold link_attrs in *. destruct (length (i_hwaddr fi) =? 0)%nat; cbn [app fmap list_fmap concat] in *;
    rewrite !len_app, !len_attr; cbn [snd]; rewrite ?len_bytes_of.
  - change (align4 (4 + Z.of_nat 4)) with 8. change (align4 (4 + len [_])) with 8. change (len []) with 0. lia.
  - change (align4 (4 + Z.of_nat 4)) with 8. change (align4 (4 + len [_])) with 8. change (len []) with 0.
    assert (Hw : align4 (4 + len (i_hwaddr fi)) <= 12) by (apply align4_le; [unfold len; lia|done]).
    assert (Hb : len (replicate (length (i_hwaddr fi)) (if i_hwtype fi =? ARPHRD_LOOPBACK then 0 else 255)) = len (i_hwaddr fi))
      by (unfold len; by rewrite length_replicate). rewrite Hb. lia.
Qed.

(** A client's reading of a link message: the index, the type, the flags and the
    attributes. *)
Definition decode_link (b : bytes) : Z * Z * Z * list (Z * bytes) :=
  (s32 (fld b 20 4), fld b 18 2, fld b 24 4, parse_attrs (length b) (drop 32 b)).

Lemma shown_flags_range fl : 0 <= fl < 2 ^ 16 -> 0 <= shown_flags fl < 2 ^ 32.
Proof.
  intros Hf. unfold shown_flags. split.
  - apply Z.lor_nonneg. split; [lia|]. case_if; done.
  - case_if; [rewrite Z.lor_0_r; lia|]. apply Z.log2_lt_cancel. rewrite Z.log2_lor by (unfold IFF_LOWER_UP; lia).
    change (Z.log2 (2 ^ 32)) with 32. change (Z.log2 IFF_LOWER_UP) with 16.
    destruct (decide (fl = 0)) as [->|]; [done|]. pose proof (Z.log2_lt_pow2 fl 16 ltac:(lia)). lia.
Qed.

Lemma link_attrs_ok fi : info_ok fi -> Forall attr_ok (link_attrs fi).
Proof.
  intros [H1 H2 _ _ _]. unfold link_attrs, attr_ok.
  assert (Hr : forall c : Z, len (replicate (length (i_hwaddr fi)) c) = len (i_hwaddr fi))
    by (intros c; unfold len; by rewrite length_replicate).
  apply Forall_app. split.
  - repeat (apply Forall_cons; split; [cbn [fst snd]; rewrite ?len_bytes_of, ?len_app; unfold len; cbn [length]; by split; [|lia]|]).
    constructor.
  - case_if; [constructor|].
    repeat (apply Forall_cons; split; [cbn [fst snd]; rewrite ?Hr; unfold len; by split; [|lia]|]). constructor.
Qed.

Lemma decode_link_msg fl seq pid fi : info_ok fi ->
  decode_link (message RTM_NEWLINK fl seq pid (link_body fi)) =
  (i_index fi, i_hwtype fi, shown_flags (i_flags fi), link_attrs fi).
Proof.
  intros Hi. unfold decode_link, message, link_body, link_head.
  set (h := nlmsghdr _ _ _ _ _). set (at_ := concat (attr <$> link_attrs fi)).
  assert (E : forall r, (h ++ (([0; 0] ++ bytes_of 2 (i_hwtype fi) ++ bytes_of 4 (i_index fi)
      ++ bytes_of 4 (shown_flags (i_flags fi)) ++ zeros 4) ++ r)) =
    (h ++ [0; 0]) ++ bytes_of 2 (i_hwtype fi) ++ bytes_of 4 (i_index fi) ++ bytes_of 4 (shown_flags (i_flags fi)) ++ zeros 4 ++ r).
  { intros r. by rewrite <-!app_assoc. }
  rewrite E. set (b := (h ++ [0; 0]) ++ _). f_equal; [f_equal; [f_equal|]|].
  - replace (fld b 20 4) with (u32 (i_index fi)).
    + pose proof (io_index fi Hi). transitivity (s32 (i_index fi)).
      * unfold wraps, wrapu. by rewrite Zplus_mod_idemp_l.
      * by apply wraps_small.
    + symmetry. unfold b. rewrite (app_assoc (h ++ [0; 0])).
      change 20%nat with (length ((h ++ [0; 0]) ++ bytes_of 2 (i_hwtype fi))). rewrite fld_app by done. apply le64_bytes_of.
  - eapply (fld_is b (h ++ [0; 0])); [done|done|]. apply (io_type fi Hi).
  - eapply (fld_is b ((h ++ [0; 0]) ++ bytes_of 2 (i_hwtype fi) ++ bytes_of 4 (i_index fi)));
      [unfold b; by rewrite <-!app_assoc|done|]. apply shown_flags_range, (io_flags fi Hi).
  - change (drop 32 b) with at_. apply parse_attrs_concat; [by apply link_attrs_ok|].
    assert (length (link_attrs fi) <= 6)%nat by (unfold link_attrs; rewrite length_app; destruct (_ =? 0)%nat; cbn [length]; lia).
    unfold b. rewrite !length_app. change (length h) with 16%nat. lia.
Qed.

(** ** A buffer of messages, pushed one record apiece *)

Definition msg_ok (m : bytes) : Prop := h_len m = len m /\ 16 <= len m /\ len m mod 4 = 0.

Lemma h_len_app m r : msg_ok m -> h_len (m ++ r) = h_len m.
Proof.
  intros (_ & H & _). unfold h_len, fld. rewrite !drop_0. f_equal. apply take_app_le. unfold len in H. lia.
Qed.

Lemma push_msgs_concat l : forall fuel, Forall msg_ok l -> (length l <= fuel)%nat -> push_msgs fuel (concat l) = l.
Proof.
  induction l as [|m l IH]; intros fuel Hl Hf; [by destruct fuel|].
  apply Forall_cons in Hl as [Hm Hl]. destruct fuel as [|fuel]; [cbn [length] in Hf; lia|].
  cbn [concat push_msgs]. rewrite h_len_app by done. pose proof (len_nonneg (concat l)). destruct Hm as (H1 & H2 & H3).
  rewrite (proj2 (Z.ltb_ge _ _)) by (rewrite len_app; lia). rewrite H1, align4_id by lia.
  rewrite (proj2 (Z.ltb_ge _ _)), (proj2 (Z.ltb_ge _ _)) by (try rewrite len_app; lia). cbn [orb].
  replace (Z.to_nat (len m)) with (length m) by (unfold len; lia). rewrite take_app_length, drop_app_length.
  unfold push. rewrite (proj2 (Z.ltb_lt _ _)) by lia. cbn [app]. f_equal. apply IH; [done|]. cbn [length] in Hf. lia.
Qed.

(** A reply of whole messages is sent a record each. *)
Lemma push_msgs_all l : Forall msg_ok l -> push_msgs (length (concat l)) (concat l) = l.
Proof.
  intros Hl. apply push_msgs_concat; [done|]. induction Hl as [|m l (_ & Hm & _) _ IH]; [done|].
  cbn [concat length]. rewrite length_app. unfold len in Hm. lia.
Qed.

Lemma message_ok t f s p body : 0 <= t < 2 ^ 16 -> 0 <= f < 2 ^ 16 -> 0 <= s < 2 ^ 32 -> 0 <= p < 2 ^ 32 ->
  16 + len body < 2 ^ 32 -> len body mod 4 = 0 ->
  msg_ok (message t f s p body) /\ h_type (message t f s p body) = t /\ h_flags (message t f s p body) = f /\
  h_seq (message t f s p body) = s /\ h_pid (message t f s p body) = p.
Proof.
  intros Ht Hf Hs Hp Hl Hm. pose proof (len_nonneg body). unfold msg_ok. rewrite len_message.
  destruct (hdr_fields (16 + len body) t f s p body) as (E1 & E2 & E3 & E4 & E5 & _); try lia.
  split_and!; try done; try lia. rewrite Z.add_mod, Hm by lia. done.
Qed.

(** ** The interfaces of a dump *)

Definition ents_ok (cap : nat) (es : list (Z * Z * Z)) : Prop :=
  (length es <= cap)%nat /\ Forall (fun e => - 2 ^ 31 <= fst (fst e) < 2 ^ 31) es.

Lemma s32_range x : - 2 ^ 31 <= s32 x < 2 ^ 31.
Proof. unfold wraps. pose proof (Z.mod_pos_bound (x + 2 ^ (32 - 1)) (2 ^ 32) ltac:(lia)). lia. Qed.

Lemma addr_attrs_index m fuel : forall q e, fst (fst (addr_attrs fuel m q e)) = fst (fst e).
Proof.
  induction fuel as [|fuel IH]; intros q [[ix v4] pl]; [done|]. cbn [addr_attrs].
  case_if; [done|]. case_if; [done|]. rewrite IH. by case_if.
Qed.

Lemma addr_msg_ok v4 cap es m : ents_ok cap es -> ents_ok cap (addr_msg v4 cap es m).
Proof.
  intros [Hl Hi]. unfold addr_msg. case_if; [|done]. set (ifi := s32 _).
  assert (Hfill : forall e, fst (fst (addr_fill v4 m e)) = fst (fst e)).
  { intros e. unfold addr_fill. case_if; [apply addr_attrs_index|done]. }
  case_if.
  - split; [by rewrite length_fmap|]. apply Forall_fmap. eapply Forall_impl; [exact Hi|].
    intros e He. unfold compose. case_if; [by rewrite Hfill|done].
  - case_if; [|done]. split; [rewrite length_app; cbn [length]; bprop; lia|].
    apply Forall_app. split; [done|]. apply Forall_singleton. rewrite Hfill. cbn [fst]. apply s32_range.
Qed.

Lemma addr_walk_ok v4 cap fuel : forall es rest, ents_ok cap es -> ents_ok cap (fst (addr_walk fuel v4 cap es rest)).
Proof.
  induction fuel as [|fuel IH]; intros es rest H; [done|]. cbn [addr_walk].
  case_if; [done|]. case_if; [done|]. case_if; [done|]. by apply IH, addr_msg_ok.
Qed.

Lemma addr_rounds_ok v4 cap max rounds : forall es ds, ents_ok cap es -> ents_ok cap (addr_rounds rounds v4 cap es max ds).
Proof.
  induction rounds as [|rounds IH]; intros es [|d ds] H; try done. cbn [addr_rounds]. case_if; [done|].
  pose proof (addr_walk_ok v4 cap (length (take (Z.to_nat max) d)) es (take (Z.to_nat max) d) H) as H1.
  destruct (addr_walk _ _ _ _ _) as [es' done]. case_if; [done|by apply IH].
Qed.

Lemma addr_dump_ok v4 cap max nr H : ents_ok cap (addr_dump_indices v4 cap max nr H).
Proof.
  unfold addr_dump_indices. assert (H0 : ents_ok cap []) by (split; [cbn; lia|constructor]).
  case_if; [done|]. destruct (n_enum H); [by apply addr_rounds_ok|done].
Qed.

Lemma gather_ok H ix fi : - 2 ^ 31 <= ix < 2 ^ 31 -> gather_ifinfo H ix = Some fi -> info_ok fi.
Proof.
  intros Hx. unfold gather_ifinfo. case_if; [done|]. destruct (n_if H ix) as [q|]; [|done]. cbn [mbind option_bind].
  set (fl := match q_flags q with Some _ => _ | None => _ end).
  assert (Hfl : 0 <= fl < 2 ^ 16) by (unfold fl; destruct (q_flags q); [by apply wrapu_range|done]). clearbody fl.
  set (hw := match q_hw q with Some _ => _ | None => _ end).
  assert (Hhw : 0 <= fst hw < 2 ^ 16 /\ (length (snd hw) <= 6)%nat).
  { unfold hw. destruct (q_hw q) as [[t a]|]; cbn [fst snd]; [split; [by apply wrapu_range|rewrite length_take; lia]|].
    case_if; (split; [done|cbn [length]; lia]). }
  clearbody hw. destruct hw as [ht ha]. intros [= <-]. destruct Hhw. split; cbn [i_name i_hwaddr i_hwtype i_index i_flags]; try done.
  pose proof (take_drop_while not_zero (take (IFNAMSIZ - 1) (q_name q))) as Ht. apply (f_equal length) in Ht.
  rewrite length_app, length_take in Ht. unfold IFNAMSIZ in *. cbn [Nat.sub] in *. lia.
Qed.

Lemma lo_info_ok : info_ok lo_info.
Proof. split; (done || (cbn; lia)). Qed.

(** The interfaces shown, loopback alone where none can be. *)
Definition shown_ifs (no_relay : bool) (H : nlhost) : list ifinfo :=
  match omap (gather_ifinfo H) ((fst ∘ fst) <$> addr_dump_indices false 32 (NL_REPLY_MAX - 24) no_relay H) with
  | [] => [lo_info]
  | l => l
  end.

Lemma links_loop_dump H seq pid max wi w idx : forall out built,
  Forall (fun ix => - 2 ^ 31 <= ix < 2 ^ 31) idx -> len out + 100 * Z.of_nat (length idx) <= max ->
  let l := omap (gather_ifinfo H) idx in
  links_loop out max seq pid true wi w H idx built =
  (out ++ concat ((fun fi => message RTM_NEWLINK NLM_F_MULTI seq pid (link_body fi)) <$> l), (built + length l)%nat) /\
  Forall info_ok l.
Proof.
  induction idx as [|ix idx IH]; intros out built Hx Hl; cbn [links_loop omap list_omap].
  { cbn. by rewrite app_nil_r, Nat.add_0_r. }
  apply Forall_cons in Hx as [Hx1 Hx]. cbn [length] in Hl.
  destruct (gather_ifinfo H ix) as [fi|] eqn:Eg; [|apply IH; [done|lia]].
  pose proof (gather_ok H ix fi Hx1 Eg) as Hi. cbn [wanted orb negb].
  destruct (link_msg_len NLM_F_MULTI seq pid fi Hi) as [Hm _]. rewrite put_link_fits by lia.
  set (m := message _ _ _ _ _) in *. destruct (IH (out ++ m) (S built) Hx) as [-> Hok]; [rewrite len_app; lia|].
  cbn [fmap list_fmap concat length]. split; [|by constructor]. rewrite <-app_assoc. f_equal. lia.
Qed.

Lemma synth_links_dump H req rl seq pid no_relay :
  synth_links (NL_REPLY_MAX - 24) req rl seq pid true no_relay H =
  concat ((fun fi => message RTM_NEWLINK NLM_F_MULTI seq pid (link_body fi)) <$> shown_ifs no_relay H) /\
  Forall info_ok (shown_ifs no_relay H) /\ shown_ifs no_relay H <> [].
Proof.
  unfold synth_links, shown_ifs. destruct (addr_dump_ok false 32 (NL_REPLY_MAX - 24) no_relay H) as [Hl Hi].
  set (es := addr_dump_indices _ _ _ _ _) in *.
  destruct (links_loop_dump H seq pid (NL_REPLY_MAX - 24) 0 [] ((fst ∘ fst) <$> es) [] 0) as [-> Hok].
  { by apply Forall_fmap. }
  { rewrite length_fmap. change (len []) with 0. unfold NL_REPLY_MAX. lia. }
  destruct (omap _ _) as [|fi l] eqn:El; cbn [length fmap list_fmap].
  - cbn [Nat.ltb Nat.leb Nat.add]. destruct (link_msg_len NLM_F_MULTI seq pid lo_info lo_info_ok) as [Hm _].
    rewrite put_link_fits by (unfold NL_REPLY_MAX; change (len []) with 0; lia). split_and!; [|repeat constructor; apply lo_info_ok|done].
    cbn [concat]. by rewrite app_nil_r.
  - cbn [Nat.add Nat.ltb Nat.leb app]. by split_and!.
Qed.

(** ** What a guest reads *)

Abbreviation octets := (Forall (fun b => 0 <= b < 256)).

Lemma le64_range l : octets l -> 0 <= le64 l < 256 ^ Z.of_nat (length l).
Proof.
  induction 1 as [|b l Hb _ IH]; [done|]. change (le64 (b :: l)) with (b + 256 * le64 l).
  cbn [length]. rewrite Nat2Z.inj_succ, Z.pow_succ_r by lia. lia.
Qed.

Lemma fld_range b off n : octets b -> 0 <= fld b off n < 256 ^ Z.of_nat n.
Proof.
  intros Hb. unfold fld. pose proof (le64_range (take n (drop off b)) ltac:(by apply Forall_take, Forall_drop)) as H.
  split; [lia|]. eapply Z.lt_le_trans; [apply H|]. apply Z.pow_le_mono_r; [lia|]. rewrite length_take. lia.
Qed.

Lemma min_if a b : (if a <? b then a else b) = Z.min a b.
Proof. destruct (Z.ltb_spec a b); lia. Qed.

Lemma put_done_message seq pid : put_done seq pid = message NLMSG_DONE NLM_F_MULTI seq pid (bytes_of 4 0).
Proof. done. Qed.

(** A record that is one whole message. *)
Definition record_of (type flags seq pid : Z) (m : bytes) : Prop :=
  msg_ok m /\ h_type m = type /\ h_flags m = flags /\ h_seq m = seq /\ h_pid m = pid.

Lemma link_record seq pid fi : info_ok fi -> 0 <= seq < 2 ^ 32 -> 0 <= pid < 2 ^ 32 ->
  record_of RTM_NEWLINK NLM_F_MULTI seq pid (message RTM_NEWLINK NLM_F_MULTI seq pid (link_body fi)).
Proof.
  intros Hi Hs Hp. destruct (link_msg_len NLM_F_MULTI seq pid fi Hi) as [H1 H2]. rewrite len_message in H1, H2.
  apply message_ok; try done; [lia|].
  pose proof (Z.div_mod (16 + len (link_body fi)) 4 ltac:(lia)) as Hd. rewrite H2 in Hd.
  replace (len (link_body fi)) with (((16 + len (link_body fi)) / 4 - 4) * 4) by lia. apply Z.mod_mul. lia.
Qed.

Lemma done_record seq pid : 0 <= seq < 2 ^ 32 -> 0 <= pid < 2 ^ 32 ->
  record_of NLMSG_DONE NLM_F_MULTI seq pid (put_done seq pid).
Proof. intros Hs Hp. rewrite put_done_message. by apply message_ok. Qed.


(** ** Every request is answered *)

(** The types and the ports of the whole messages of a record, as a client finds
    them. *)
Fixpoint walk (fuel : nat) (b : bytes) : list (Z * Z) :=
  match fuel with
  | O => []
  | S fuel =>
      if len b <? 16 then []
      else if (h_len b <? 16) || (len b <? h_len b) then []
      else (h_type b, h_pid b) :: walk fuel (drop (Z.to_nat (align4 (h_len b))) b)
  end.

Definition addressed (port : Z) (r : bytes) : Prop := Forall (fun m => snd m = port) (walk (length r) r).
Definition ends (r : bytes) : bool := existsb (fun m => fst m =? NLMSG_DONE) (walk (length r) r).

Lemma fld_prefix b c k off n : (off + n <= k)%nat -> (k <= length b)%nat -> fld (take k b ++ c) off n = fld b off n.
Proof.
  intros H1 H2. unfold fld. f_equal.
  rewrite <-(take_drop k b) at 2. rewrite !drop_app_le by (rewrite length_take; lia).
  rewrite !take_app_le by (rewrite length_drop, length_take; lia). done.
Qed.

Lemma len_overwrite b off v : (off + length v <= length b)%nat -> len (overwrite b off v) = len b.
Proof. intros H. unfold overwrite. rewrite !len_app. unfold len. rewrite length_take, length_drop. lia. Qed.

Lemma fix_pid_len pid fuel : forall rest, len (fst (fix_pid_loop fuel rest pid)) = len rest.
Proof.
  induction fuel as [|fuel IH]; intros rest; [done|]. cbn [fix_pid_loop]. case_if; [done|]. case_if; [done|].
  set (rest' := overwrite _ _ _). set (step := Z.to_nat _).
  specialize (IH (drop step rest')). destruct (fix_pid_loop fuel (drop step rest') pid) as [more done].
  cbn [fst] in *. rewrite len_app, IH, <-len_app, take_drop. apply len_overwrite.
  bprop. unfold len in *. cbn [length bytes_of]. lia.
Qed.

Lemma fix_pid_walk pid fuel : 0 <= pid < 2 ^ 32 -> forall rest,
  walk fuel (fst (fix_pid_loop fuel rest pid)) = (fun m => (fst m, pid)) <$> walk fuel rest /\
  snd (fix_pid_loop fuel rest pid) = existsb (fun m => fst m =? NLMSG_DONE) (walk fuel rest).
Proof.
  intros Hp. induction fuel as [|fuel IH]; intros rest; [done|].
  pose proof (fix_pid_len pid (S fuel) rest) as Hlen. cbn [fix_pid_loop walk] in *.
  destruct (Z.ltb_spec (len rest) 16) as [H16|H16]; [cbn [fst snd]; by rewrite (proj2 (Z.ltb_lt _ _)) by done|].
  destruct (orb _ _) eqn:Eo; [cbn [fst snd]; by rewrite (proj2 (Z.ltb_ge _ _)), Eo by done|].
  apply orb_false_iff in Eo as [E1 E2]. apply Z.ltb_ge in E1, E2.
  destruct (align4_spec (h_len rest) ltac:(lia)) as [Ha _].
  set (rest' := overwrite rest 12 (bytes_of 4 pid)) in *. set (step := Z.to_nat (align4 (h_len rest))) in *.
  assert (Hr' : len rest' = len rest) by (apply len_overwrite; cbn; unfold len in *; lia).
  destruct (IH (drop step rest')) as [W D]. pose proof (fix_pid_len pid fuel (drop step rest')) as Hm.
  destruct (fix_pid_loop fuel (drop step rest') pid) as [more done]. cbn [fst snd] in *.
  assert (Hstep : (16 <= step)%nat) by (unfold step; lia).
  assert (F16 : forall off n, (off + n <= 16)%nat -> fld (take step rest' ++ more) off n = fld rest' off n).
  { intros off n Hn. destruct (Nat.le_gt_cases step (length rest')) as [Hs|Hs].
    - apply fld_prefix; lia.
    - rewrite (take_ge rest' step) by lia. rewrite <-(take_ge rest' (length rest')) at 1 by lia.
      apply fld_prefix; unfold len in *; lia. }
  assert (F12 : forall off n, (off + n <= 12)%nat -> fld rest' off n = fld rest off n).
  { intros off n Hn. apply fld_prefix; unfold len in *; lia. }
  assert (El : h_len (take step rest' ++ more) = h_len rest) by (unfold h_len; rewrite F16, F12 by lia; done).
  assert (Et : h_type (take step rest' ++ more) = h_type rest) by (unfold h_type; rewrite F16, F12 by lia; done).
  assert (Ep : h_pid (take step rest' ++ more) = pid).
  { unfold h_pid. rewrite F16 by lia. eapply (fld_is _ (take 12 rest)); [reflexivity|rewrite length_take; unfold len in *; lia|done]. }
  assert (Ed : drop step (take step rest' ++ more) = more).
  { destruct (Nat.le_gt_cases step (length rest')) as [Hs|Hs].
    - rewrite drop_app_ge, length_take, Nat.min_l, Nat.sub_diag by (try rewrite length_take; lia). done.
    - assert (more = []) as ->.
      { rewrite drop_ge in Hm by lia. destruct more; [done|]. unfold len in Hm. cbn in Hm. lia. }
      rewrite app_nil_r, take_ge by lia. apply drop_ge. lia. }
  assert (Edr : drop step rest' = drop step rest).
  { unfold rest', overwrite. rewrite app_assoc, drop_app_ge by (rewrite length_app, length_take; cbn [length bytes_of]; lia).
    rewrite length_app, length_take, Nat.min_l by (unfold len in *; lia). cbn [length bytes_of].
    rewrite drop_drop. f_equal. lia. }
  rewrite (proj2 (Z.ltb_ge _ _)) by lia. rewrite El, Et, Ep.
  rewrite (proj2 (Z.ltb_ge (h_len rest) 16)), (proj2 (Z.ltb_ge _ (h_len rest))) by lia. cbn [orb].
  fold step. rewrite Ed, W, Edr. cbn [fmap list_fmap existsb fst]. split; [done|]. by rewrite D, Edr.
Qed.

Lemma existsb_fst (pid : Z) (l : list (Z * Z)) :
  existsb (fun m => fst m =? NLMSG_DONE) ((fun m => (fst m, pid)) <$> l) = existsb (fun m => fst m =? NLMSG_DONE) l.
Proof. induction l as [|m l IH]; [done|]. cbn [fmap list_fmap existsb fst]. by rewrite <-IH. Qed.

Lemma fixed_pid b port : 0 <= port < 2 ^ 32 ->
  addressed port (fst (fix_pid b port)) /\ ends (fst (fix_pid b port)) = snd (fix_pid b port) /\
  len (fst (fix_pid b port)) = len b.
Proof.
  intros Hp. unfold fix_pid, addressed, ends. pose proof (fix_pid_len port (length b) b) as Hl.
  destruct (fix_pid_walk port (length b) Hp b) as [W D].
  assert (El : length (fst (fix_pid_loop (length b) b port)) = length b) by (unfold len in Hl; lia).
  rewrite El, W, D. split_and!; [|apply existsb_fst|done].
  apply Forall_fmap. apply Forall_forall. done.
Qed.

Lemma cap_ack_walk b fuel : walk fuel (cap_ack b) = walk fuel b /\ len (cap_ack b) = len b.
Proof.
  unfold cap_ack. case_if; [|done]. bprop. set (b' := overwrite b 6 _).
  assert (Hl : len b' = len b) by (apply len_overwrite; cbn [length bytes_of]; unfold len in *; lia).
  split; [|done]. destruct fuel as [|fuel]; [done|]. cbn [walk]. rewrite Hl.
  destruct (Z.ltb_spec (len b) 16); [done|].
  assert (F : forall off n, (off + n <= 6)%nat -> fld b' off n = fld b off n) by (intros off n Hn; apply fld_prefix; unfold len in *; lia).
  assert (Es : forall k, (8 <= k)%nat -> drop k b' = drop k b).
  { intros k Hk. unfold b', overwrite. rewrite app_assoc, drop_app_ge by (rewrite length_app, length_take; cbn [length bytes_of]; lia).
    rewrite length_app, length_take, Nat.min_l by (unfold len in *; lia). cbn [length bytes_of].
    rewrite drop_drop. f_equal. lia. }
  assert (El : h_len b' = h_len b) by (apply F; lia). assert (Et : h_type b' = h_type b) by (apply F; lia).
  assert (Ep : h_pid b' = h_pid b) by (unfold h_pid, fld; by rewrite Es by lia).
  rewrite El, Et, Ep. destruct (Z.ltb_spec (h_len b) 16); [done|]. cbn [orb].
  destruct (Z.ltb_spec (len b) (h_len b)); [done|].
  destruct (align4_spec (h_len b) ltac:(lia)). rewrite Es by lia. done.
Qed.

Lemma walk_nil fuel : walk fuel [] = [].
Proof. by destruct fuel. Qed.

Lemma record_walk t f s p m : record_of t f s p m -> walk (length m) m = [(t, p)].
Proof.
  intros ((H1 & H2 & H3) & Ht & _ & _ & Hp). destruct (length m) as [|fuel] eqn:El; [unfold len in H2; lia|].
  cbn [walk]. rewrite (proj2 (Z.ltb_ge _ _)) by lia. rewrite H1, (proj2 (Z.ltb_ge _ _)), (proj2 (Z.ltb_ge _ _)) by lia.
  cbn [orb]. rewrite align4_id, Ht, Hp by lia. f_equal. rewrite drop_ge by (unfold len in *; lia). apply walk_nil.
Qed.

Lemma record_addressed t f s p m : record_of t f s p m -> addressed p m /\ ends m = (t =? NLMSG_DONE) /\ push m = [m].
Proof.
  intros H. unfold addressed, ends. rewrite (record_walk t f s p m H). split_and!; [by repeat constructor|cbn; apply orb_false_r|].
  unfold push. destruct H as ((_ & H2 & _) & _). by rewrite (proj2 (Z.ltb_lt _ _)) by lia.
Qed.

(** What is sent for a request: something, to the socket's port; and a dump's
    terminator is in its last record and in no other. *)
Definition answered (port : Z) (dump : bool) (out : list bytes) : Prop :=
  out <> [] /\ Forall (addressed port) out /\
  (dump = true -> exists init r, out = init ++ [r] /\ ends r = true /\ Forall (fun r => ends r = false) init).

Lemma answered_done port seq init : 0 <= port < 2 ^ 32 -> 0 <= seq < 2 ^ 32 ->
  Forall (fun r => addressed port r /\ ends r = false) init ->
  answered port true (init ++ push (put_done seq port)).
Proof.
  intros Hp Hs Hi. destruct (record_addressed _ _ _ _ _ (done_record seq port Hs Hp)) as (H1 & H2 & H3). rewrite H3.
  apply Forall_and in Hi as [Ha He]. split_and!.
  - by destruct init.
  - apply Forall_app. split; [done|by apply Forall_singleton].
  - intros _. by exists init, (put_done seq port).
Qed.

Lemma recv_long ds d ds' : recv ds = Some (d, ds') -> 0 < len d.
Proof.
  unfold recv. destruct ds as [|d0 ds]; [done|]. case_if; [done|]. intros [= <- _]. bprop. unfold len. lia.
Qed.

Lemma push_long b : 0 < len b -> push b = [b].
Proof. intros H. unfold push. by rewrite (proj2 (Z.ltb_lt _ _)) by done. Qed.

Lemma pump_dump_spec port rounds : 0 <= port < 2 ^ 32 -> forall ds,
  let '(out, done) := pump_dump rounds port ds in
  if done then exists init r, out = init ++ [r] /\ addressed port r /\ ends r = true /\
                 Forall (fun r => addressed port r /\ ends r = false) init
  else Forall (fun r => addressed port r /\ ends r = false) out.
Proof.
  intros Hp. induction rounds as [|rounds IH]; intros ds; cbn [pump_dump]; [constructor|].
  destruct (recv ds) as [[d ds']|] eqn:Er; [|constructor]. apply recv_long in Er.
  destruct (fixed_pid d port Hp) as (Ha & He & Hl). destruct (fix_pid d port) as [d' dn]. cbn [fst snd] in *.
  rewrite push_long by lia. destruct dn; [by exists [], d'|].
  specialize (IH ds'). destruct (pump_dump rounds port ds') as [out dn]. destruct dn; cbn [app].
  - destruct IH as (init & r & -> & H1 & H2 & H3). exists (d' :: init), r. split_and!; try done. by constructor.
  - by constructor.
Qed.

Lemma ack_message seq port req : 16 <= len req ->
  put_ack [] NL_REPLY_MAX seq port req = message NLMSG_ERROR NLM_F_CAPPED seq port (bytes_of 4 0 ++ take 16 req).
Proof.
  intros H. unfold put_ack, message. change (NL_REPLY_MAX <? len [] + 36) with false. cbn [app].
  do 2 f_equal. rewrite len_app, len_bytes_of. unfold len. rewrite length_take. unfold len in H. lia.
Qed.

Lemma ack_record seq port req : 16 <= len req -> 0 <= port < 2 ^ 32 -> 0 <= seq < 2 ^ 32 ->
  record_of NLMSG_ERROR NLM_F_CAPPED seq port (put_ack [] NL_REPLY_MAX seq port req).
Proof.
  intros Hr Hp Hs. rewrite ack_message by done.
  assert (Hl : len (bytes_of 4 0 ++ take 16 req) = 20) by (rewrite len_app, len_bytes_of; unfold len in *; rewrite length_take; lia).
  apply message_ok; try done; rewrite Hl; done.
Qed.

Lemma answered_one port t f s m : t <> NLMSG_DONE -> record_of t f s port m -> answered port false (push m).
Proof.
  intros Ht Hm. destruct (record_addressed _ _ _ _ _ Hm) as (H1 & H2 & ->). split_and!; [done|by apply Forall_singleton|done].
Qed.

Lemma pump_answered port req dump ds : 16 <= len req -> octets req -> 0 <= port < 2 ^ 32 ->
  answered port dump (pump port req dump ds).
Proof.
  intros Hlen Hreq Hp. pose proof (fld_range req 8 4 Hreq) as Hs. fold (h_seq req) in Hs. change (256 ^ Z.of_nat 4) with (2 ^ 32) in Hs.
  unfold pump. destruct dump.
  - pose proof (pump_dump_spec port 256 Hp ds) as H. destruct (pump_dump 256 port ds) as [out dn]. destruct dn.
    + destruct H as (init & r & -> & H1 & H2 & H3). apply Forall_and in H3 as [H3 H4]. split_and!.
      * by destruct init.
      * apply Forall_app. split; [done|by apply Forall_singleton].
      * intros _. by exists init, r.
    + by apply answered_done.
  - destruct (recv ds) as [[d ds']|] eqn:Er.
    2: { apply answered_one with NLMSG_ERROR 0 (h_seq req); [done|].
         change (put_error [] NL_REPLY_MAX (h_seq req) port 0) with (message NLMSG_ERROR 0 (h_seq req) port (bytes_of 4 0 ++ zeros 16)).
         by apply message_ok. }
    apply recv_long in Er. destruct (fixed_pid d port Hp) as (Ha & He & Hl). destruct (fix_pid d port) as [d' dn].
    cbn [fst snd] in *. rewrite push_long by lia. split_and!; [done| |done]. constructor; [done|].
    case_if; [|constructor]. destruct (recv ds') as [[a ds2]|] eqn:Er2.
    + apply recv_long in Er2. destruct (fixed_pid a port Hp) as (Ha2 & _ & Hl2).
      set (a' := fst (fix_pid a port)) in *. destruct (cap_ack_walk a' (length a')) as [Hw Hl3].
      rewrite push_long by lia. apply Forall_singleton. unfold addressed in *.
      replace (length (cap_ack a')) with (length a') by (unfold len in Hl3; lia). by rewrite Hw.
    + destruct (record_addressed _ _ _ _ _ (ack_record (h_seq req) port req Hlen Hp Hs)) as (H1 & _ & ->). by apply Forall_singleton.
Qed.

(** ** Made-up replies *)

Definition lo_attrs (v6 : bool) : list (Z * bytes) :=
  [(IFA_ADDRESS, lo_addr v6); (IFA_LOCAL, lo_addr v6)] ++ if v6 then [] else [(IFA_LABEL, [108; 111; 0])].

Definition lo_body (v6 : bool) : bytes :=
  ([if v6 then AF_INET6 else AF_INET; if v6 then 128 else 8; 128; 254] ++ bytes_of 4 1) ++ concat (attr <$> lo_attrs v6).

Lemma put_lo_addr_fits buf max seq pid v6 fl : len buf + 64 <= max ->
  put_lo_addr buf max seq pid v6 fl = buf ++ message RTM_NEWADDR fl seq pid (lo_body v6).
Proof.
  intros H. unfold put_lo_addr. fold (len buf). rewrite (proj2 (Z.ltb_ge _ _)) by lia. cbv zeta.
  set (head := [if v6 then AF_INET6 else AF_INET; _; _; _] ++ bytes_of 4 1). set (b0 := buf ++ zeros 16 ++ head).
  assert (Hb0 : len b0 = len buf + 24) by (unfold b0, head; rewrite !len_app; done).
  assert (Ha : len (concat (attr <$> lo_attrs v6)) <= 40) by (destruct v6; done).
  replace (if v6 then put_attr (put_attr b0 max IFA_ADDRESS (lo_addr v6)) max IFA_LOCAL (lo_addr v6) else _)
    with (foldl (fun b a => put_attr b max (fst a) (snd a)) b0 (lo_attrs v6)) by (by destruct v6).
  rewrite put_attrs_fit by lia. unfold b0. rewrite <-!app_assoc.
  change (head ++ concat (attr <$> lo_attrs v6)) with (lo_body v6). apply close_msg_spec.
Qed.

(** Messages that end nothing, each of its own. *)
Definition batch (port : Z) (l : list bytes) : Prop :=
  Forall (fun m => exists t f s, t <> NLMSG_DONE /\ record_of t f s port m) l.

Lemma lo_record seq port v6 fl : 0 <= port < 2 ^ 32 -> 0 <= seq < 2 ^ 32 -> fl = 0 \/ fl = NLM_F_MULTI ->
  exists t f s, t <> NLMSG_DONE /\ record_of t f s port (message RTM_NEWADDR fl seq port (lo_body v6)).
Proof.
  intros Hp Hs Hf. exists RTM_NEWADDR, fl, seq. split; [done|].
  apply message_ok; try done; [unfold NLM_F_MULTI in Hf; lia| |]; by destruct v6.
Qed.

Lemma synth_addrs_batch req rl seq port dump : 0 <= port < 2 ^ 32 -> 0 <= seq < 2 ^ 32 ->
  exists l, synth_addrs (NL_REPLY_MAX - 24) req rl seq port dump = concat l /\ batch port l /\ len (concat l) <= 200.
Proof.
  intros Hp Hs. unfold synth_addrs. set (fl := if dump then NLM_F_MULTI else 0).
  assert (Hf : fl = 0 \/ fl = NLM_F_MULTI) by (unfold fl; destruct dump; auto).
  set (family := if 16 <? rl then _ else _). clearbody family fl.
  pose proof (lo_record seq port false fl Hp Hs Hf) as R4. pose proof (lo_record seq port true fl Hp Hs Hf) as R6.
  assert (L4 : len (message RTM_NEWADDR fl seq port (lo_body false)) = 48) by (by rewrite len_message).
  assert (L6 : len (message RTM_NEWADDR fl seq port (lo_body true)) = 64) by (by rewrite len_message).
  set (m4 := message RTM_NEWADDR fl seq port (lo_body false)) in *. set (m6 := message RTM_NEWADDR fl seq port (lo_body true)) in *.
  assert (P4 : put_lo_addr [] (NL_REPLY_MAX - 24) seq port false fl = m4) by (by rewrite put_lo_addr_fits).
  assert (P6 : forall b, len b <= 48 -> put_lo_addr b (NL_REPLY_MAX - 24) seq port true fl = b ++ m6)
    by (intros b Hb; apply put_lo_addr_fits; unfold NL_REPLY_MAX; lia).
  clearbody m4 m6. case_if; case_if; rewrite ?P4, ?P6 by (try rewrite L4; done).
  - exists [m4; m6]. cbn [concat]. rewrite app_nil_r, len_app. split_and!; [done|unfold batch; rewrite !Forall_cons; split_and!; by try apply Forall_nil|lia].
  - exists [m6]. cbn [concat]. rewrite app_nil_r. split_and!; [done|unfold batch; rewrite !Forall_cons; split_and!; by try apply Forall_nil|lia].
  - exists [m4]. cbn [concat]. rewrite app_nil_r. split_and!; [done|unfold batch; rewrite !Forall_cons; split_and!; by try apply Forall_nil|lia].
  - exists []. split_and!; [done|constructor|done].
Qed.

Lemma link_single seq port fi : info_ok fi -> 0 <= port < 2 ^ 32 -> 0 <= seq < 2 ^ 32 ->
  exists m, put_link [] (NL_REPLY_MAX - 24) seq port 0 fi = concat [m] /\ batch port [m] /\ len (concat [m]) <= 200.
Proof.
  intros Hi Hp Hs. destruct (link_msg_len 0 seq port fi Hi) as [H1 H2].
  exists (message RTM_NEWLINK 0 seq port (link_body fi)).
  rewrite put_link_fits by (change (len []) with 0; unfold NL_REPLY_MAX; lia). cbn [concat app]. rewrite app_nil_r.
  split_and!; [done| |lia]. apply Forall_singleton. exists RTM_NEWLINK, 0, seq. split; [done|].
  rewrite len_message in H1, H2. apply message_ok; try done; [lia|].
  pose proof (Z.div_mod (16 + len (link_body fi)) 4 ltac:(lia)) as Hd. rewrite H2 in Hd.
  replace (len (link_body fi)) with (((16 + len (link_body fi)) / 4 - 4) * 4) by lia. apply Z.mod_mul. lia.
Qed.

Lemma links_loop_single H seq port wi w idx : Forall (fun ix => - 2 ^ 31 <= ix < 2 ^ 31) idx ->
  let '(out, built) := links_loop [] (NL_REPLY_MAX - 24) seq port false wi w H idx 0 in
  built = 0%nat \/ exists fi, info_ok fi /\ out = put_link [] (NL_REPLY_MAX - 24) seq port 0 fi.
Proof.
  induction 1 as [|ix idx Hx _ IH]; cbn [links_loop]; [by left|].
  destruct (gather_ifinfo H ix) as [fi|] eqn:Eg; [|done]. case_if; [done|].
  right. exists fi. split; [by apply (gather_ok H ix)|done].
Qed.

Lemma synth_links_single H req rl seq port no_relay : 0 <= port < 2 ^ 32 -> 0 <= seq < 2 ^ 32 ->
  exists l, synth_links (NL_REPLY_MAX - 24) req rl seq port false no_relay H = concat l /\ batch port l /\ len (concat l) <= 200.
Proof.
  intros Hp Hs. unfold synth_links. destruct (link_target req rl) as [wi w].
  destruct (addr_dump_ok false 32 (NL_REPLY_MAX - 24) no_relay H) as [_ Hi].
  pose proof (links_loop_single H seq port wi w ((fst ∘ fst) <$> addr_dump_indices false 32 (NL_REPLY_MAX - 24) no_relay H)
                ltac:(by apply Forall_fmap)) as Hl.
  destruct (links_loop _ _ _ _ _ _ _ _ _ _) as [out built].
  assert (Hsingle : forall fi, info_ok fi -> exists l, put_link [] (NL_REPLY_MAX - 24) seq port 0 fi = concat l /\ batch port l /\ len (concat l) <= 200).
  { intros fi Hfi. destruct (link_single seq port fi Hfi Hp Hs) as (m & Hm). eauto. }
  destruct (Nat.ltb_spec 0 built).
  - destruct Hl as [->|(fi & Hfi & ->)]; [lia|]. by apply Hsingle.
  - set (lo := if (0 <? length w)%nat then _ else _). destruct lo; [apply Hsingle, lo_info_ok|].
    exists [message NLMSG_ERROR 0 seq port (bytes_of 4 (- ENODEV) ++ zeros 16)]. cbn [concat]. rewrite app_nil_r.
    split_and!; [done| |by rewrite len_message]. apply Forall_singleton. exists NLMSG_ERROR, 0, seq. split; [done|].
    by apply message_ok.
Qed.

Lemma batch_answered port l : batch port l -> Forall (fun m => addressed port m /\ ends m = false) l.
Proof.
  intros Hb. eapply Forall_impl; [exact Hb|]. intros m (t & f & s & Ht & Hm).
  destruct (record_addressed _ _ _ _ _ Hm) as (H1 & H2 & _). split; [done|]. rewrite H2. by apply Z.eqb_neq.
Qed.

Lemma batch_ok port l : batch port l -> Forall msg_ok l.
Proof. intros Hb. eapply Forall_impl; [exact Hb|]. intros m (t & f & s & _ & Hm). apply Hm. Qed.


Lemma put_ack_fits buf seq port req : len buf + 36 <= NL_REPLY_MAX ->
  put_ack buf NL_REPLY_MAX seq port req = buf ++ put_ack [] NL_REPLY_MAX seq port req.
Proof. intros H. unfold put_ack. by rewrite (proj2 (Z.ltb_ge _ _)) by lia. Qed.

Lemma synthesize_batch p H req rl dump :
  16 <= len req -> octets req -> 0 <= np_port p < 2 ^ 32 -> exists l, batch (np_port p) l /\
  synthesize p H req rl dump = concat (l ++ if dump then [put_done (h_seq req) (np_port p)] else []).
Proof.
  intros Hlen Hreq Hp. pose proof (fld_range req 8 4 Hreq) as Hs. fold (h_seq req) in Hs. change (256 ^ Z.of_nat 4) with (2 ^ 32) in Hs.
  unfold synthesize. set (out := if h_type req =? RTM_GETLINK then _ else _).
  assert (Ho : exists l, out = concat l /\ batch (np_port p) l /\ (dump = false -> len (concat l) <= 200)).
  { unfold out. case_if; [|case_if].
    - destruct dump.
      + destruct (synth_links_dump H req rl (h_seq req) (np_port p) (negb (Z.land (np_flags p) NO_RELAY =? 0))) as (-> & Hok & _).
        eexists. split; [done|]. split; [|done]. apply Forall_fmap. eapply Forall_impl; [exact Hok|].
        intros fi Hi. exists RTM_NEWLINK, NLM_F_MULTI, (h_seq req). split; [done|]. by apply link_record.
      + edestruct synth_links_single as (l & -> & ? & ?); [exact Hp|exact Hs|]. by exists l.
    - edestruct synth_addrs_batch as (l & -> & ? & ?); [exact Hp|exact Hs|]. by exists l.
    - exists []. split_and!; [done|constructor|done]. }
  destruct Ho as (l & -> & Hb & Hl). destruct dump.
  - cbn [negb]. rewrite andb_false_r. cbn [andb]. exists l. split; [done|]. rewrite concat_app. cbn [concat]. by rewrite app_nil_r.
  - case_if; [|exists l; by rewrite app_nil_r]. specialize (Hl eq_refl).
    rewrite put_ack_fits by (unfold NL_REPLY_MAX; lia).
    exists (l ++ [put_ack [] NL_REPLY_MAX (h_seq req) (np_port p) req]). split.
    + apply Forall_app. split; [done|]. apply Forall_singleton. exists NLMSG_ERROR, NLM_F_CAPPED, (h_seq req).
      split; [done|]. by apply ack_record.
    + rewrite app_nil_r, concat_app. cbn [concat]. by rewrite app_nil_r.
Qed.

(** Every request on an emulated netlink socket is answered, and a dump always
    ends.  Whatever the request and whatever the host does, refusing it, answering
    nothing or stopping half way, at least one record is sent; every whole message
    in what is sent carries the port of the guest's socket; and of the answer to a
    dump the last record holds the terminator and no other does. *)
Lemma requests_answered (p : nl_peer) (H : nlhost) (req : bytes)
    (Hlen : 16 <= len req) (Hreq : octets req) (Hport : 0 <= np_port p < 2 ^ 32) :
  answered (np_port p) (Z.land (h_flags req) NLM_F_DUMP =? NLM_F_DUMP) (snd (process_request p H req)).
Proof.
  pose proof (fld_range req 8 4 Hreq) as Hs. fold (h_seq req) in Hs. change (256 ^ Z.of_nat 4) with (2 ^ 32) in Hs.
  unfold process_request. rewrite (proj2 (Z.ltb_ge _ _)) by lia. cbv zeta. set (dump := Z.land _ _ =? _). set (rl := if _ <? _ then _ else _).
  change (relay_answer (count p 1 0 0)) with (relay_answer p).
  change (synthesize (count p 1 0 0)) with (synthesize p).
  assert (Hlast : answered (np_port p) dump (if dump then push (put_done (h_seq req) (np_port p))
     else push (put_ack [] NL_REPLY_MAX (h_seq req) (np_port p) req))).
  { destruct dump; [by apply (answered_done _ _ [])|].
    apply answered_one with NLMSG_ERROR NLM_F_CAPPED (h_seq req); [done|]. by apply ack_record. }
  case_if; [|done]. case_if; [by apply pump_answered|].
  destruct (synthesize_batch p H req rl dump Hlen Hreq Hport) as (l & Hb & ->).
  case_if; [|done]. cbn [snd]. rewrite push_msgs_all.
  2: { apply Forall_app. split; [by eapply batch_ok|]. destruct dump; [|constructor].
       apply Forall_singleton. by apply done_record. }
  pose proof (batch_answered _ l Hb) as Ha. destruct dump.
  - destruct (record_addressed _ _ _ _ _ (done_record (h_seq req) (np_port p) Hs Hport)) as (_ & _ & Hpush).
    rewrite <-Hpush. by apply answered_done.
  - rewrite app_nil_r in *. apply Forall_and in Ha as [Ha _]. split_and!; [|done|done]. intros ->. done.
Qed.

(** *** A host that lists its addresses and refuses its links *)

Definition eth_query : ifquery :=
  IfQuery ([101; 116; 104; 48] ++ zeros 12) (Some 4163) (Some 1500) (Some (1, [2; 0; 0; 170; 187; 204])).

Definition eth_addr : bytes := message RTM_NEWADDR NLM_F_MULTI 1 0 ([2; 24; 128; 0] ++ bytes_of 4 2).

Definition demo_host (recv : list bytes) : nlhost :=
  NlHost true (fun _ => if (0 <? length recv)%nat then 20 else - 13) recv
    (Some [eth_addr ++ eth_addr; put_done 1 0]) true (fun ix => if ix =? 2 then Some eth_query else None).

Definition demo_peer : nl_peer := NlPeer true 1 5 4242 0 0 0 0.
Definition demo_req : bytes := nlmsghdr 20 RTM_GETLINK 0x301 7 0 ++ zeros 4.

Lemma demo_link_dump :
  decode_link <$> take 1 (snd (process_request demo_peer (demo_host []) demo_req)) =
    [(2, 1, 69699, [(3, [101; 116; 104; 48; 0]); (4, bytes_of 4 1500); (13, bytes_of 4 1000); (16, [6]);
                    (1, [2; 0; 0; 170; 187; 204]); (2, replicate 6 255)])] /\
  drop 1 (snd (process_request demo_peer (demo_host []) demo_req)) = [put_done 7 4242].
Proof. vm_compute. auto. Qed.


(** A host that answers the dump with half of it and nothing more. *)
