(* ===== verification/NetlinkPeers.v ===== *)
(** * The daemon's table of netlink sockets (src/src/monitor/netlink.c)

    The ends the daemon holds, how they are registered, polled, served and let
    go.  A descriptor's socket is what the kernel keeps of it: the requests
    queued, with the history of those received and of the records sent.  The
    theorem is about every run of the daemon's calls. *)

From Stdlib Require Import ZArith Lia.
From S2P Require Import Prelude Rt Netlink NetlinkProps.
From stdpp Require Import base numbers list gmap.

Open Scope Z_scope.

Definition CNG_NL_SOCK_MAX : nat := 1024.
Definition BROKER_POLL_IPC : nat := 2 + 512.
Definition BROKER_POLL_MAX : nat := BROKER_POLL_IPC + CNG_NL_SOCK_MAX.
Definition CNG_POLLIN := 1.
Definition CNG_POLLERR := 0x8.
Definition CNG_POLLHUP := 0x10.
Definition CNG_POLLNVAL := 0x20.
Definition CNG_POLLRDHUP := 0x2000.

Abbreviation request := (bytes * nlhost)%type.

(** An end of a pair: what waits on it, and what went through it. *)
Record nl_sock := NlSock {
  k_queue : list request;
  k_taken : list request;
  k_sent : list bytes }.

Record nl_tab := NlTab {
  g_peer : list nl_peer;
  g_npeer : Z;
  g_next_id : Z;
  g_pollpeer : list nat;
  k_open : gmap Z nl_sock       (* the descriptors the daemon has open *) }.

Definition no_peer : nl_peer := NlPeer false 0 0 0 0 0 0 0.

Definition with_peer (s : nl_tab) (i : nat) (p : nl_peer) : nl_tab :=
  NlTab (<[i := p]> (g_peer s)) (g_npeer s) (g_next_id s) (g_pollpeer s) (k_open s).

(** [peer_drain] on the end of a peer of the table. *)
Definition drain_at (s : nl_tab) (i : nat) (max : nat) : nl_tab :=
  match g_peer s !! i with
  | None => s
  | Some p =>
      match k_open s !! np_fd p with
      | None => s
      | Some k =>
          let '(p', out, rest, _) := peer_drain p max (k_queue k) in
          let got := take (length (k_queue k) - length rest) (k_queue k) in
          NlTab (<[i := p']> (g_peer s)) (g_npeer s) (g_next_id s) (g_pollpeer s)
            (<[np_fd p := NlSock rest (k_taken k ++ got) (k_sent k ++ out)]> (k_open s))
      end
  end.

Definition peer_free (s : nl_tab) (i : nat) : nl_tab :=
  match g_peer s !! i with
  | None => s
  | Some p =>
      NlTab (<[i := no_peer]> (g_peer s)) (g_npeer s - 1) (g_next_id s) (g_pollpeer s) (delete (np_fd p) (k_open s))
  end.

Definition nl_next_id (n : Z) : Z := if 0x7fffffff <? u32 (n + 1) then 1 else u32 (n + 1).

Definition cng_nl_serve_register (s : nl_tab) (fd port flags : Z) : nl_tab * Z :=
  match list_find (fun p => np_used p = false) (g_peer s) with
  | None => (NlTab (g_peer s) (g_npeer s) (g_next_id s) (g_pollpeer s) (delete fd (k_open s)), - ENOBUFS)
  | Some (i, _) =>
      let id := nl_next_id (g_next_id s) in
      (NlTab (<[i := NlPeer true id fd (u32 port) flags 0 0 0]> (g_peer s)) (g_npeer s + 1) id (g_pollpeer s) (k_open s), id)
  end.

Definition peer_by_id (s : nl_tab) (id : Z) : option nat :=
  fst <$> list_find (fun p => np_used p = true /\ np_id p = id) (g_peer s).

(** The count returned, and the two in the reply. *)
Definition cng_nl_serve_sync (s : nl_tab) (id : Z) : nl_tab * Z * Z * Z :=
  match peer_by_id s id with
  | None => (s, - ENOENT, 0, 0)
  | Some i =>
      let s := drain_at s i 1024 in
      match g_peer s !! i with
      | None => (s, - ENOENT, 0, 0)
      | Some p =>
          (with_peer s i (NlPeer (np_used p) (np_id p) (np_fd p) (np_port p) (np_flags p) 0 0 0),
           np_served p, np_relayed p, np_synthesized p)
      end
  end.

(** The descriptors added from entry [n] of the poll array on, and the peers
    behind them. *)
Fixpoint nl_poll_loop (ps : list nl_peer) (i k n cap : nat) (pp : list nat) : list Z * list nat :=
  match ps with
  | [] => ([], pp)
  | p :: ps =>
      if (n <? cap)%nat then
        if np_used p then
          let '(fds, pp) := nl_poll_loop ps (S i) (S k) (S n) cap (<[k := i]> pp) in (np_fd p :: fds, pp)
        else nl_poll_loop ps (S i) k n cap pp
      else ([], pp)
  end.

Definition cng_nl_poll_add (s : nl_tab) (n cap : nat) : nl_tab * list Z :=
  let '(fds, pp) := nl_poll_loop (g_peer s) 0 0 n cap (g_pollpeer s) in
  (NlTab (g_peer s) (g_npeer s) (g_next_id s) pp (k_open s), fds).

Definition ev_has (ev bits : Z) : bool := negb (Z.land ev bits =? 0).

Definition poll_one (s : nl_tab) (i : nat) (fd ev : Z) : nl_tab :=
  if ev =? 0 then s
  else match g_peer s !! i with
       | None => s
       | Some p =>
           if negb (np_used p) || negb (np_fd p =? fd) then s
           else if ev_has ev (Z.lor CNG_POLLHUP (Z.lor CNG_POLLERR CNG_POLLNVAL)) then peer_free s i
           else if ev_has ev CNG_POLLRDHUP then peer_free (drain_at s i 1024) i
           else if ev_has ev CNG_POLLIN then drain_at s i 32
           else s
       end.

(** What the poll reported of the entries, the descriptor of each with it. *)
Fixpoint cng_nl_poll_ready (s : nl_tab) (k : nat) (pf : list (Z * Z)) : nl_tab :=
  match pf with
  | [] => s
  | (fd, ev) :: pf =>
      match g_pollpeer s !! k with
      | None => s
      | Some i => cng_nl_poll_ready (poll_one s i fd ev) (S k) pf
      end
  end.

Definition cng_nl_any_live (s : nl_tab) : bool := 0 <? g_npeer s.

Fixpoint free_loop (s : nl_tab) (i n : nat) : nl_tab :=
  match n with
  | O => s
  | S n =>
      match g_peer s !! i with
      | Some p => free_loop (if np_used p then peer_free s i else s) (S i) n
      | None => s
      end
  end.

Definition cng_nl_free_all (s : nl_tab) : nl_tab := free_loop s 0 CNG_NL_SOCK_MAX.

(** ** Runs *)

Definition tab0 : nl_tab := NlTab (replicate CNG_NL_SOCK_MAX no_peer) 0 0 (replicate CNG_NL_SOCK_MAX 0%nat) ∅.

(** What happens: a registration, its descriptor and what waits on it; a guest's
    send; a sync; a poll round and what the poll reports; the end. *)
Inductive nl_op :=
  | ORegister (fd port flags : Z) (queue : list request)
  | OSend (fd : Z) (r : request)
  | OSync (id : Z)
  | ORound (from : nat) (evs : list Z)
  | OFree.

Definition with_open (s : nl_tab) (o : gmap Z nl_sock) : nl_tab :=
  NlTab (g_peer s) (g_npeer s) (g_next_id s) (g_pollpeer s) o.

Definition round (s : nl_tab) (from : nat) (evs : list Z) : nl_tab :=
  let '(s, fds) := cng_nl_poll_add s from BROKER_POLL_MAX in cng_nl_poll_ready s 0 (zip fds evs).

Definition nl_step (s : nl_tab) (o : nl_op) : nl_tab :=
  match o with
  | ORegister fd port flags q =>
      fst (cng_nl_serve_register (with_open s (<[fd := NlSock q [] []]> (k_open s))) fd port flags)
  | OSend fd r => with_open s (alter (fun k => NlSock (k_queue k ++ [r]) (k_taken k) (k_sent k)) fd (k_open s))
  | OSync id => let '(s, _, _, _) := cng_nl_serve_sync s id in s
  | ORound from evs => round s from evs
  | OFree => cng_nl_free_all s
  end.

(** What a step may be: a descriptor that comes in is a new one, and what comes
    through one is bytes. *)
Definition op_ok (s : nl_tab) (o : nl_op) : Prop :=
  match o with
  | ORegister fd _ _ q => k_open s !! fd = None /\ Forall (fun r => octets (fst r)) q
  | OSend _ r => octets (fst r)
  | OSync _ | OFree => True
  | ORound from _ => (from <= BROKER_POLL_IPC)%nat
  end.

Definition registers (o : nl_op) : nat := match o with ORegister _ _ _ _ => 1 | _ => 0 end.

(** The tables reached, with the number of registrations on the way. *)
Inductive reached : nat -> nl_tab -> Prop :=
  | reached_0 : reached 0 tab0
  | reached_step n s o : reached n s -> op_ok s o -> reached (registers o + n) (nl_step s o).

(** ** Draining *)

Definition live (s : nl_tab) (i : nat) (p : nl_peer) : Prop := g_peer s !! i = Some p /\ np_used p = true.

(** What is sent for one request: nothing where it is no message. *)
Definition answers (port : Z) (r : request) (out : list bytes) : Prop :=
  let req := take 256 (fst r) in
  if len req <? 16 then out = []
  else answered port (Z.land (h_flags req) NLM_F_DUMP =? NLM_F_DUMP) out.

(** An end all of whose requests were answered in the order received. *)
Definition served (port : Z) (k : nl_sock) : Prop :=
  Forall (fun r => octets (fst r)) (k_queue k) /\
  exists groups, Forall2 (answers port) (k_taken k) groups /\ k_sent k = concat groups.

Definition same_peer (p p' : nl_peer) : Prop :=
  np_used p' = np_used p /\ np_id p' = np_id p /\ np_fd p' = np_fd p /\ np_port p' = np_port p.

Lemma process_same p H req : same_peer p (fst (process_request p H req)).
Proof. unfold process_request. repeat case_match; done. Qed.

Lemma drained port max : forall p queue p' out rest more, np_port p = port -> 0 <= port < 2 ^ 32 ->
  Forall (fun r => octets (fst r)) queue -> peer_drain p max queue = (p', out, rest, more) ->
  same_peer p p' /\
  exists groups, rest = drop max queue /\ Forall2 (answers port) (take max queue) groups /\ out = concat groups.
Proof.
  induction max as [|max IH]; intros p queue p' out rest more Hp Hr Ho.
  { destruct queue; intros [= <- <- <- <-]; (split; [done|]); by exists []. }
  destruct queue as [|[req H] queue]; [intros [= <- <- <- <-]; (split; [done|]); by exists []|].
  apply Forall_cons in Ho as [Ho Hos]. cbn [fst] in Ho. cbn [peer_drain].
  assert (Hone : forall p1 o1, (if (length (take 256 req) =? 0)%nat then (p, []) else process_request p H (take 256 req)) = (p1, o1) ->
     same_peer p p1 /\ answers port (req, H) o1).
  { intros p1 o1. unfold answers. cbn [fst]. destruct (length (take 256 req) =? 0)%nat eqn:E0.
    { apply Nat.eqb_eq in E0. intros [= <- <-]. split; [done|]. unfold len. by rewrite E0. }
    intros E. pose proof (process_same p H (take 256 req)) as Hs. rewrite E in Hs. split; [done|]. destruct (len (take 256 req) <? 16) eqn:E1.
    - unfold process_request in E. rewrite E1 in E. by injection E.
    - apply Z.ltb_ge in E1. rewrite <-Hp. change o1 with (snd (p1, o1)). rewrite <-E.
      apply requests_answered; [done|by apply Forall_take|by rewrite Hp]. }
  destruct (if (length _ =? 0)%nat then _ else _) as [p1 o1]. destruct (Hone _ _ eq_refl) as [Hs1 Ha1].
  destruct (peer_drain p1 max queue) as [[[p2 o2] r2] m2] eqn:E2. intros [= <- <- <- <-].
  destruct (IH p1 queue p2 o2 r2 m2) as [Hs2 (gs & -> & Hg & ->)]; [|done|done|done|].
  { destruct Hs1 as (_ & _ & _ & ->). done. }
  split; [unfold same_peer in *; intuition congruence|].
  exists (o1 :: gs). split; [done|]. split; [by constructor|done].
Qed.

(** ** The invariant of the table *)

Definition used_count (ps : list nl_peer) : Z := Z.of_nat (length (filter (fun p => np_used p = true) ps)).

(** Every live peer has an end of its own, open and served; no other descriptor
    is kept open; ids are handed out once; the count is right. *)
Record tab_ok (s : nl_tab) : Prop := TabOk {
  tk_len : length (g_peer s) = CNG_NL_SOCK_MAX;
  tk_poll : length (g_pollpeer s) = CNG_NL_SOCK_MAX;
  tk_live : forall i p, live s i p -> 0 < np_id p <= g_next_id s /\ 0 <= np_port p < 2 ^ 32 /\
              exists k, k_open s !! np_fd p = Some k /\ served (np_port p) k;
  tk_fd : forall i j p q, live s i p -> live s j q -> np_fd p = np_fd q -> i = j;
  tk_id : forall i j p q, live s i p -> live s j q -> np_id p = np_id q -> i = j;
  tk_open : forall fd k, k_open s !! fd = Some k -> exists i p, live s i p /\ np_fd p = fd;
  tk_count : g_npeer s = used_count (g_peer s) }.

Lemma used_insert ps i p p' : ps !! i = Some p ->
  used_count (<[i := p']> ps) = used_count ps - Z.b2z (np_used p) + Z.b2z (np_used p').
Proof.
  intros Hi. unfold used_count. pose proof (take_drop_middle ps i p Hi) as Hs.
  rewrite insert_take_drop by (by eapply lookup_lt_Some). rewrite <-Hs at 3.
  rewrite !filter_app, !filter_cons, !length_app. repeat case_decide; cbn [length];
    destruct (np_used p), (np_used p'); cbn [Z.b2z]; try done; lia.
Qed.

Lemma live_insert s s' i p p' : g_peer s !! i = Some p -> g_peer s' = <[i := p']> (g_peer s) ->
  forall j q, live s' j q <-> (j = i /\ q = p' /\ np_used p' = true) \/ (j <> i /\ live s j q).
Proof.
  intros Hi Hs j q. unfold live. rewrite Hs. destruct (decide (j = i)) as [->|Hne].
  - rewrite list_lookup_insert_eq by (by eapply lookup_lt_Some).
    split; [intros [[= ->] ?]; auto|intros [(_ & -> & ?)|[? _]]; done].
  - rewrite list_lookup_insert_ne by done. split; [auto|]. intros [(? & _)|[_ ?]]; done.
Qed.

(** A peer and its end changed, the identity of neither. *)
Lemma update_ok s s' i p p' k' : tab_ok s -> live s i p -> same_peer p p' -> served (np_port p) k' ->
  s' = NlTab (<[i := p']> (g_peer s)) (g_npeer s) (g_next_id s) (g_pollpeer s) (<[np_fd p := k']> (k_open s)) ->
  tab_ok s'.
Proof.
  intros Hok [Hi Hu] (Hu' & Hid & Hfd & Hpt) Hk ->. destruct Hok as [L1 L2 Lv Fd Id Op Ct].
  pose proof (live_insert s (NlTab (<[i := p']> (g_peer s)) (g_npeer s) (g_next_id s) (g_pollpeer s) (<[np_fd p := k']> (k_open s)))
    i p p' Hi eq_refl) as Hl.
  split; cbn [g_peer g_npeer g_next_id g_pollpeer k_open]; [by rewrite length_insert|done| | | | |].
  - intros j q [(-> & -> & _)|[Hne Hq]]%Hl.
    + rewrite Hid, Hpt, Hfd. destruct (Lv i p (conj Hi Hu)) as (? & ? & _). split_and!; [lia..|].
      exists k'. by rewrite lookup_insert_eq.
    + destruct (Lv j q Hq) as (? & ? & k & Hk0 & ?). split_and!; [lia..|]. exists k. split; [|done].
      rewrite lookup_insert_ne; [done|]. intros E. apply Hne. by apply (Fd j i q p Hq (conj Hi Hu)).
  - intros j1 j2 q1 q2 [(-> & -> & _)|[Hn1 H1]]%Hl [(-> & -> & _)|[Hn2 H2]]%Hl E.
    + done.
    + rewrite Hfd in E. by apply (Fd i j2 p q2 (conj Hi Hu) H2).
    + rewrite Hfd in E. by apply (Fd j1 i q1 p H1 (conj Hi Hu)).
    + by apply (Fd j1 j2 q1 q2).
  - intros j1 j2 q1 q2 [(-> & -> & _)|[Hn1 H1]]%Hl [(-> & -> & _)|[Hn2 H2]]%Hl E.
    + done.
    + rewrite Hid in E. by apply (Id i j2 p q2 (conj Hi Hu) H2).
    + rewrite Hid in E. by apply (Id j1 i q1 p H1 (conj Hi Hu)).
    + by apply (Id j1 j2 q1 q2).
  - intros fd k. rewrite lookup_insert_Some. intros [[<- <-]|[Hne Hk0]].
    + exists i, p'. split; [apply Hl; left; split_and!; [done|done|by rewrite Hu']|done].
    + destruct (Op fd k Hk0) as (j & q & Hq & <-). exists j, q. split; [|done]. apply Hl. right. split; [|done].
      intros ->. destruct Hq as [Hq _]. congruence.
  - rewrite (used_insert _ i p p' Hi), Hu', Hu, Ct. lia.
Qed.

Lemma drain_at_spec s i p k max : tab_ok s -> live s i p -> k_open s !! np_fd p = Some k ->
  exists p' k', same_peer p p' /\ served (np_port p) k' /\
    k_queue k' = drop max (k_queue k) /\ k_taken k' = k_taken k ++ take max (k_queue k) /\
    drain_at s i max =
      NlTab (<[i := p']> (g_peer s)) (g_npeer s) (g_next_id s) (g_pollpeer s) (<[np_fd p := k']> (k_open s)).
Proof.
  intros Hok [Hi Hu] Hk. unfold drain_at. rewrite Hi, Hk.
  destruct (tk_live s Hok i p (conj Hi Hu)) as (_ & Hr & k0 & Hk0 & Ho & gs & Hg & Hs).
  assert (k0 = k) as -> by congruence.
  destruct (peer_drain p max (k_queue k)) as [[[p' out] rest] more] eqn:E.
  destruct (drained (np_port p) max _ _ _ _ _ _ eq_refl Hr Ho E) as (Hsame & gs' & -> & Hg' & ->).
  assert (Ht : take (length (k_queue k) - length (drop max (k_queue k))) (k_queue k) = take max (k_queue k)).
  { rewrite length_drop. destruct (decide (max <= length (k_queue k))%nat); [f_equal; lia|].
    rewrite !take_ge; [done|lia..]. }
  rewrite Ht.
  exists p', (NlSock (drop max (k_queue k)) (k_taken k ++ take max (k_queue k)) (k_sent k ++ concat gs')).
  split; [done|]. split; [|done].
  split; cbn [k_queue k_taken k_sent]; [by apply Forall_drop|].
  exists (gs ++ gs'). split; [by apply Forall2_app|]. by rewrite concat_app, Hs.
Qed.

Lemma drain_at_ok s i p max : tab_ok s -> live s i p -> tab_ok (drain_at s i max).
Proof.
  intros Hok Hl. destruct (tk_live s Hok i p Hl) as (_ & _ & k & Hk & _).
  destruct (drain_at_spec s i p k max Hok Hl Hk) as (p' & k' & ? & ? & _ & _ & E). by eapply update_ok.
Qed.

Lemma drain_at_live s i p max : tab_ok s -> live s i p ->
  exists p', same_peer p p' /\ live (drain_at s i max) i p'.
Proof.
  intros Hok Hl. destruct (tk_live s Hok i p Hl) as (_ & _ & k & Hk & _).
  destruct (drain_at_spec s i p k max Hok Hl Hk) as (p' & k' & Hs & ? & _ & _ & ->). exists p'. split; [done|].
  destruct Hl as [Hi Hu]. split; [|by destruct Hs as (-> & _)].
  cbn [g_peer]. apply list_lookup_insert_eq. by eapply lookup_lt_Some.
Qed.

Lemma peer_free_ok s i p : tab_ok s -> live s i p -> tab_ok (peer_free s i).
Proof.
  intros Hok [Hi Hu]. unfold peer_free. rewrite Hi. destruct Hok as [L1 L2 Lv Fd Id Op Ct].
  pose proof (live_insert s (NlTab (<[i := no_peer]> (g_peer s)) (g_npeer s - 1) (g_next_id s) (g_pollpeer s)
    (delete (np_fd p) (k_open s))) i p no_peer Hi eq_refl) as Hl.
  split; cbn [g_peer g_npeer g_next_id g_pollpeer k_open]; [by rewrite length_insert|done| | | | |].
  - intros j q [(_ & _ & [=])|[Hne Hq]]%Hl. destruct (Lv j q Hq) as (? & ? & k & Hk0 & ?). split_and!; [lia..|].
    exists k. split; [|done]. rewrite lookup_delete_ne; [done|]. intros E. apply Hne. by apply (Fd j i q p Hq (conj Hi Hu)).
  - intros j1 j2 q1 q2 [(_ & _ & [=])|[Hn1 H1]]%Hl [(_ & _ & [=])|[Hn2 H2]]%Hl. by apply Fd.
  - intros j1 j2 q1 q2 [(_ & _ & [=])|[Hn1 H1]]%Hl [(_ & _ & [=])|[Hn2 H2]]%Hl. by apply Id.
  - intros fd k [Hne Hk]%lookup_delete_Some. destruct (Op fd k Hk) as (j & q & Hq & <-). exists j, q. split; [|done].
    apply Hl. right. split; [|done]. intros ->. destruct Hq as [Hq _]. congruence.
  - rewrite (used_insert _ i p no_peer Hi), Hu, Ct. cbn [np_used no_peer Z.b2z]. lia.
Qed.

(** A state that differs in what the invariant does not read. *)
Lemma tab_ok_pp s pp : tab_ok s -> length pp = CNG_NL_SOCK_MAX ->
  tab_ok (NlTab (g_peer s) (g_npeer s) (g_next_id s) pp (k_open s)).
Proof. intros [L1 L2 Lv Fd Id Op Ct] Hp. by split. Qed.

Lemma register_ok s fd port flags q : tab_ok s -> g_next_id s < 2 ^ 31 - 1 -> 0 <= g_next_id s ->
  k_open s !! fd = None -> Forall (fun r => octets (fst r)) q ->
  let s' := nl_step s (ORegister fd port flags q) in
  tab_ok s' /\ g_next_id s <= g_next_id s' <= g_next_id s + 1.
Proof.
  intros Hok Hn Hn0 Hfd Hq. cbn [nl_step]. unfold cng_nl_serve_register. cbn [g_peer with_open].
  destruct Hok as [L1 L2 Lv Fd Id Op Ct].
  destruct (list_find _ (g_peer s)) as [[i p]|] eqn:E; cbn [fst with_open g_peer g_npeer g_next_id g_pollpeer k_open].
  2: { split; [|lia]. rewrite delete_insert_id by done. by destruct s. }
  apply list_find_Some in E as (Hi & Hu & _).
  assert (Hid : nl_next_id (g_next_id s) = g_next_id s + 1).
  { unfold nl_next_id, u32, wrapu. rewrite Z.mod_small by lia. rewrite (proj2 (Z.ltb_ge _ _)) by lia. done. }
  rewrite Hid. split; [|lia]. set (p' := NlPeer _ _ _ _ _ _ _ _).
  set (s' := NlTab _ _ _ _ _). pose proof (live_insert s s' i p p' Hi eq_refl) as Hl.
  assert (Hfresh : forall j q0, live s j q0 -> np_fd q0 <> fd).
  { intros j q0 Hq0 <-. destruct (Lv j q0 Hq0) as (_ & _ & k & Hk & _). congruence. }
  assert (Hnew : forall j q0, live s j q0 -> np_id q0 <> g_next_id s + 1).
  { intros j q0 Hq0. destruct (Lv j q0 Hq0) as (? & _). lia. }
  subst s'. split; cbn [g_peer g_npeer g_next_id g_pollpeer k_open]; [by rewrite length_insert|done| | | | |].
  - intros j q0 [(-> & -> & _)|[Hne Hq0]]%Hl.
    + cbn [np_id np_port np_fd p']. split; [lia|]. split; [apply Z.mod_pos_bound; lia|].
      exists (NlSock q [] []). split; [by rewrite lookup_insert_eq|]. split; [done|]. by exists [].
    + destruct (Lv j q0 Hq0) as (? & ? & k & Hk0 & ?). split_and!; [lia..|]. exists k. split; [|done].
      rewrite lookup_insert_ne; [done|]. intros E. by apply (Hfresh j q0 Hq0).
  - intros j1 j2 q1 q2 [(-> & -> & _)|[Hn1 H1]]%Hl [(-> & -> & _)|[Hn2 H2]]%Hl E; [done| | |by apply (Fd j1 j2 q1 q2)].
    + by destruct (Hfresh j2 q2 H2).
    + by destruct (Hfresh j1 q1 H1).
  - intros j1 j2 q1 q2 [(-> & -> & _)|[Hn1 H1]]%Hl [(-> & -> & _)|[Hn2 H2]]%Hl E; [done| | |by apply (Id j1 j2 q1 q2)].
    + by destruct (Hnew j2 q2 H2).
    + by destruct (Hnew j1 q1 H1).
  - intros f k. rewrite lookup_insert_Some. intros [[<- <-]|[Hne Hk0]].
    + exists i, p'. split; [apply Hl; by left|done].
    + destruct (Op f k Hk0) as (j & q0 & Hq0 & <-). exists j, q0. split; [|done]. apply Hl. right. split; [|done].
      intros ->. destruct Hq0 as [Hq0 Hu0]. congruence.
  - rewrite (used_insert _ i p p' Hi), Hu, Ct. cbn [np_used p' Z.b2z]. lia.
Qed.

Lemma send_ok s fd r : tab_ok s -> octets (fst r) -> tab_ok (nl_step s (OSend fd r)).
Proof.
  intros [L1 L2 Lv Fd Id Op Ct] Hr. split; try done.
  - intros i p Hl. destruct (Lv i p Hl) as (? & ? & k & Hk & Ho & gs & Hg). split; [done|]. split; [done|].
    cbn [nl_step with_open k_open]. destruct (decide (np_fd p = fd)) as [<-|Hne].
    + eexists. rewrite lookup_alter_eq, Hk. split; [done|]. split; cbn [k_queue]; [|by exists gs].
      apply Forall_app. split; [done|]. by apply Forall_singleton.
    + exists k. rewrite lookup_alter_ne by done. split; [done|]. split; [done|]. by exists gs.
  - cbn [nl_step with_open k_open]. intros f k. destruct (decide (f = fd)) as [->|Hne].
    + rewrite lookup_alter_eq. destruct (k_open s !! fd) as [k0|] eqn:E; [|done]. intros _. by apply (Op fd k0).
    + rewrite lookup_alter_ne by done. by apply Op.
Qed.

Lemma peer_by_id_spec s id i : peer_by_id s id = Some i -> exists p, live s i p /\ np_id p = id.
Proof.
  unfold peer_by_id. rewrite fmap_Some. intros ([j p] & (Hj & [Hu Hid] & _)%list_find_Some & ->). by exists p.
Qed.

Lemma peer_by_id_live s i p : tab_ok s -> live s i p -> peer_by_id s (np_id p) = Some i.
Proof.
  intros Hok Hl. unfold peer_by_id. destruct (list_find _ (g_peer s)) as [[j q]|] eqn:E.
  - apply list_find_Some in E as (Hj & [Hu Hid] & _). cbn. f_equal. by apply (tk_id s Hok j i q p).
  - apply list_find_None in E. destruct Hl as [Hi Hu]. by destruct (Forall_lookup_1 _ _ _ _ E Hi).
Qed.

(** The counters a sync clears. *)
Definition cleared (p : nl_peer) : nl_peer := NlPeer (np_used p) (np_id p) (np_fd p) (np_port p) (np_flags p) 0 0 0.

Lemma sync_spec s i p k : tab_ok s -> live s i p -> k_open s !! np_fd p = Some k ->
  exists p' k', same_peer p p' /\ served (np_port p) k' /\
    k_queue k' = drop 1024 (k_queue k) /\ k_taken k' = k_taken k ++ take 1024 (k_queue k) /\
    nl_step s (OSync (np_id p)) =
      NlTab (<[i := cleared p']> (g_peer s)) (g_npeer s) (g_next_id s) (g_pollpeer s) (<[np_fd p := k']> (k_open s)).
Proof.
  intros Hok Hl Hk. destruct (drain_at_spec s i p k 1024 Hok Hl Hk) as (p' & k' & H1 & H2 & H3 & H4 & E).
  exists p', k'. split_and!; [done..|]. cbn [nl_step]. unfold cng_nl_serve_sync.
  rewrite (peer_by_id_live s i p Hok Hl), E. cbn [g_peer].
  rewrite list_lookup_insert_eq by (destruct Hl as [Hi _]; by eapply lookup_lt_Some).
  unfold with_peer. cbn [g_peer g_npeer g_next_id g_pollpeer k_open]. by rewrite list_insert_insert_eq.
Qed.

Lemma sync_ok s id : tab_ok s -> tab_ok (nl_step s (OSync id)).
Proof.
  intros Hok. destruct (peer_by_id s id) as [i|] eqn:E.
  2: { cbn [nl_step]. unfold cng_nl_serve_sync. by rewrite E. }
  destruct (peer_by_id_spec s id i E) as (p & Hl & <-). destruct (tk_live s Hok i p Hl) as (_ & _ & k & Hk & _).
  destruct (sync_spec s i p k Hok Hl Hk) as (p' & k' & Hs & Hv & _ & _ & ->). by apply (update_ok s _ i p (cleared p') k').
Qed.

(** ** Poll rounds *)

Lemma poll_one_ok s i fd ev : tab_ok s -> tab_ok (poll_one s i fd ev).
Proof.
  intros Hok. unfold poll_one. case_if; [done|]. destruct (g_peer s !! i) as [p|] eqn:Hi; [|done].
  destruct (np_used p) eqn:Hu; [|done]. assert (Hl : live s i p) by done. cbn [negb orb].
  repeat case_if; [done|by apply (peer_free_ok s i p)| |by apply (drain_at_ok s i p)|done].
  destruct (drain_at_live s i p 1024 Hok Hl) as (p' & _ & Hl'). apply (peer_free_ok _ i p'); [|done].
  by apply (drain_at_ok s i p).
Qed.

Lemma drain_at_frame s i max : g_next_id (drain_at s i max) = g_next_id s /\ g_pollpeer (drain_at s i max) = g_pollpeer s.
Proof. unfold drain_at. repeat case_match; done. Qed.

Lemma peer_free_frame s i : g_next_id (peer_free s i) = g_next_id s /\ g_pollpeer (peer_free s i) = g_pollpeer s.
Proof. unfold peer_free. repeat case_match; done. Qed.

Lemma poll_one_frame s i fd ev : g_next_id (poll_one s i fd ev) = g_next_id s /\ g_pollpeer (poll_one s i fd ev) = g_pollpeer s.
Proof.
  unfold poll_one. pose proof (drain_at_frame s i) as Hd.
  repeat case_match; rewrite ?(proj1 (peer_free_frame _ _)), ?(proj2 (peer_free_frame _ _)); auto.
Qed.

Lemma poll_ready_ok pf : forall s k, tab_ok s ->
  tab_ok (cng_nl_poll_ready s k pf) /\ g_next_id (cng_nl_poll_ready s k pf) = g_next_id s.
Proof.
  induction pf as [|[fd ev] pf IH]; intros s k Hok; [done|]. cbn [cng_nl_poll_ready].
  destruct (g_pollpeer s !! k) as [i|]; [|done].
  destruct (IH (poll_one s i fd ev) (S k) (poll_one_ok _ _ _ _ Hok)) as [? ->].
  split; [done|]. apply poll_one_frame.
Qed.

Lemma free_loop_ok n : forall s i, tab_ok s -> tab_ok (free_loop s i n) /\ g_next_id (free_loop s i n) = g_next_id s.
Proof.
  induction n as [|n IH]; intros s i Hok; [done|]. cbn [free_loop].
  destruct (g_peer s !! i) as [p|] eqn:Hi; [|done]. destruct (np_used p) eqn:Hu; [|by apply IH].
  destruct (IH (peer_free s i) (S i)) as [? ->]; [by apply (peer_free_ok s i p)|]. split; [done|]. apply peer_free_frame.
Qed.

(** The entries of the poll array: each is a live peer's, each live peer has one,
    and no peer has two. *)
Lemma poll_add_loop_spec ps : forall i k n cap pp fds pp',
  (n + length ps <= cap)%nat -> (k + length ps <= length pp)%nat -> nl_poll_loop ps i k n cap pp = (fds, pp') ->
  length pp' = length pp /\ (forall j, (j < k)%nat -> pp' !! j = pp !! j) /\ (length fds <= length ps)%nat /\
  (forall j fd, fds !! j = Some fd -> exists m p, ps !! m = Some p /\ np_used p = true /\ np_fd p = fd /\ pp' !! (k + j)%nat = Some (i + m)%nat) /\
  (forall m p, ps !! m = Some p -> np_used p = true -> exists j, fds !! j = Some (np_fd p) /\ pp' !! (k + j)%nat = Some (i + m)%nat) /\
  (forall j1 j2, (j1 < j2 < length fds)%nat -> pp' !! (k + j1)%nat <> pp' !! (k + j2)%nat).
Proof.
  induction ps as [|p ps IH]; intros i k n cap pp fds pp' Hn Hk; cbn [nl_poll_loop length] in *.
  { intros [= <- <-]. split_and!; try done; intros; cbn [length] in *; lia. }
  rewrite (proj2 (Nat.ltb_lt _ _)) by lia. destruct (np_used p) eqn:Hu.
  - destruct (nl_poll_loop ps _ _ _ _ _) as [fds0 pp0] eqn:E. intros [= <- <-].
    destruct (IH (S i) (S k) (S n) cap (<[k := i]> pp) fds0 pp0) as (H1 & H2 & H3 & H4 & H5 & H6); [lia|by rewrite length_insert; lia|done|].
    rewrite length_insert in H1.
    assert (H0 : pp0 !! k = Some i) by (rewrite H2 by lia; apply list_lookup_insert_eq; lia).
    split_and!; [done| |cbn [length]; lia| | |].
    + intros j Hj. rewrite H2 by lia. apply list_lookup_insert_ne. lia.
    + intros [|j] fd; cbn; [intros [= <-]; exists 0%nat, p; rewrite !Nat.add_0_r; done|].
      intros Hj. destruct (H4 j fd Hj) as (m & q & ? & ? & ? & Hp). exists (S m), q. rewrite <-!Nat.add_succ_comm. done.
    + intros [|m] q; cbn; [intros [= <-] _; exists 0%nat; rewrite !Nat.add_0_r; done|].
      intros Hm Hq. destruct (H5 m q Hm Hq) as (j & ? & Hp). exists (S j). rewrite <-!Nat.add_succ_comm. done.
    + intros [|j1] [|j2] Hj; cbn [length] in Hj; [lia| |lia|].
      * rewrite Nat.add_0_r, H0. destruct (lookup_lt_is_Some_2 fds0 j2) as [fd Hfd]; [lia|].
        destruct (H4 j2 fd Hfd) as (m & _ & _ & _ & _ & Hp). rewrite <-Nat.add_succ_comm, Hp. intros [= ?]. lia.
      * rewrite <-!Nat.add_succ_comm. apply H6. lia.
  - intros E. destruct (IH (S i) k n cap pp fds pp') as (H1 & H2 & H3 & H4 & H5 & H6); [lia..|done|].
    split_and!; [done|done|lia| | |done].
    + intros j fd Hj. destruct (H4 j fd Hj) as (m & q & ? & ? & ? & Hp). exists (S m), q. rewrite <-Nat.add_succ_comm. done.
    + intros [|m] q; cbn; [intros [= <-] ?; congruence|].
      intros Hm Hq. destruct (H5 m q Hm Hq) as (j & ? & Hp). exists j. rewrite <-Nat.add_succ_comm. done.
Qed.

Lemma poll_add_spec s from s' fds : tab_ok s -> (from <= BROKER_POLL_IPC)%nat ->
  cng_nl_poll_add s from BROKER_POLL_MAX = (s', fds) ->
  tab_ok s' /\ g_peer s' = g_peer s /\ k_open s' = k_open s /\ g_next_id s' = g_next_id s /\
  (forall j fd, fds !! j = Some fd -> exists i p, live s i p /\ np_fd p = fd /\ g_pollpeer s' !! j = Some i) /\
  (forall i p, live s i p -> exists j, fds !! j = Some (np_fd p) /\ g_pollpeer s' !! j = Some i) /\
  (forall j1 j2, (j1 < j2 < length fds)%nat -> g_pollpeer s' !! j1 <> g_pollpeer s' !! j2).
Proof.
  intros Hok Hf. unfold cng_nl_poll_add. pose proof (tk_len s Hok) as L1. pose proof (tk_poll s Hok) as L2.
  destruct (nl_poll_loop _ _ _ _ _ _) as [fds0 pp'] eqn:E. intros [= <- <-].
  destruct (poll_add_loop_spec (g_peer s) 0 0 from BROKER_POLL_MAX (g_pollpeer s) fds0 pp') as (H1 & _ & _ & H4 & H5 & H6);
    [rewrite L1; unfold BROKER_POLL_MAX; lia|lia|done|].
  split; [by apply tab_ok_pp; rewrite ?H1|]. cbn [g_peer k_open g_next_id g_pollpeer]. split_and!; [done..| | |done].
  - intros j fd Hj. destruct (H4 j fd Hj) as (m & p & ? & ? & ? & ?). by exists m, p.
  - intros i p [Hi Hu]. by apply H5.
Qed.

(** What a peer and its end are, in two tables. *)
Definition unmoved (p : nl_peer) (i : nat) (s s' : nl_tab) : Prop :=
  live s' i p /\ k_open s' !! np_fd p = k_open s !! np_fd p.

Lemma drain_other s i p j q max : tab_ok s -> live s i p -> live s j q -> j <> i -> unmoved p i s (drain_at s j max).
Proof.
  intros Hok Hi Hj Hne. destruct (tk_live s Hok j q Hj) as (_ & _ & k & Hk & _).
  destruct (drain_at_spec s j q k max Hok Hj Hk) as (q' & k' & _ & _ & _ & _ & ->).
  split; [split; cbn [g_peer]; [|apply Hi]; rewrite list_lookup_insert_ne by done; apply Hi|].
  cbn [k_open]. rewrite lookup_insert_ne; [done|]. intros E. apply Hne. by apply (tk_fd s Hok j i q p).
Qed.

Lemma free_other s i p j q : tab_ok s -> live s i p -> live s j q -> j <> i -> unmoved p i s (peer_free s j).
Proof.
  intros Hok Hi Hj Hne. unfold peer_free. destruct (Hj) as [-> Hu].
  split; [split; cbn [g_peer]; [|apply Hi]; rewrite list_lookup_insert_ne by done; apply Hi|].
  cbn [k_open]. rewrite lookup_delete_ne; [done|]. intros E. apply Hne. by apply (tk_fd s Hok j i q p).
Qed.

Lemma poll_one_other s i p j fd ev : tab_ok s -> live s i p -> j <> i -> unmoved p i s (poll_one s j fd ev).
Proof.
  intros Hok Hl Hne. unfold poll_one. case_if; [done|]. destruct (g_peer s !! j) as [q|] eqn:Hj; [|done].
  destruct (np_used q) eqn:Hu; [|done]. assert (Hq : live s j q) by done. cbn [negb orb].
  repeat case_if; [done|by apply (free_other s i p j q)| |by apply (drain_other s i p j q)|done].
  destruct (drain_other s i p j q 1024 Hok Hl Hq Hne) as [Hl1 Hk1].
  destruct (drain_at_live s j q 1024 Hok Hq) as (q' & _ & Hq').
  destruct (free_other _ i p j q' (drain_at_ok s j q 1024 Hok Hq) Hl1 Hq' Hne) as [Hl2 Hk2]. split; [done|]. by rewrite Hk2.
Qed.

Lemma poll_ready_other pf : forall s k i p, tab_ok s -> live s i p ->
  (forall j, (j < length pf)%nat -> g_pollpeer s !! (k + j)%nat <> Some i) -> unmoved p i s (cng_nl_poll_ready s k pf).
Proof.
  induction pf as [|[fd ev] pf IH]; intros s k i p Hok Hl Hp; [done|]. cbn [cng_nl_poll_ready length] in *.
  destruct (g_pollpeer s !! k) as [j|] eqn:Ej; [|done].
  assert (Hne : j <> i) by (intros ->; apply (Hp 0%nat); [lia|by rewrite Nat.add_0_r]).
  destruct (poll_one_other s i p j fd ev Hok Hl Hne) as [Hl1 Hk1].
  destruct (IH (poll_one s j fd ev) (S k) i p (poll_one_ok _ _ _ _ Hok) Hl1) as [Hl2 Hk2].
  - intros j' Hj'. rewrite (proj2 (poll_one_frame _ _ _ _)), Nat.add_succ_comm. apply Hp. lia.
  - split; [done|]. by rewrite Hk2.
Qed.

(** An end that is readable has what waited longest taken and answered. *)
Lemma poll_ready_at pf : forall s k i p x j, tab_ok s -> live s i p -> k_open s !! np_fd p = Some x ->
  pf !! j = Some (np_fd p, CNG_POLLIN) -> g_pollpeer s !! (k + j)%nat = Some i ->
  (forall j', (j' < length pf)%nat -> j' <> j -> is_Some (g_pollpeer s !! (k + j')%nat) /\ g_pollpeer s !! (k + j')%nat <> Some i) ->
  exists x', k_open (cng_nl_poll_ready s k pf) !! np_fd p = Some x' /\
    k_queue x' = drop 32 (k_queue x) /\ k_taken x' = k_taken x ++ take 32 (k_queue x).
Proof.
  induction pf as [|[fd ev] pf IH]; intros s k i p x j Hok Hl Hx Hj Hi Hp; [done|]. cbn [cng_nl_poll_ready length] in *.
  destruct j as [|j]; cbn in Hj.
  - injection Hj as -> ->. rewrite Nat.add_0_r in Hi. rewrite Hi.
    assert (E1 : poll_one s i (np_fd p) CNG_POLLIN = drain_at s i 32).
    { unfold poll_one. destruct Hl as [-> ->]. by rewrite Z.eqb_refl. }
    rewrite E1. destruct (drain_at_spec s i p x 32 Hok Hl Hx) as (p' & x' & Hs & _ & Hq & Ht & Ed).
    destruct (poll_ready_other pf (drain_at s i 32) (S k) i p') as [_ Hk2].
    + by apply (drain_at_ok s i p).
    + destruct (drain_at_live s i p 32 Hok Hl) as (p1 & _ & Hl1). rewrite Ed in Hl1 |- *. destruct Hl as [Hi0 Hu0].
      split; [|destruct Hs as (-> & _); done]. cbn [g_peer]. apply list_lookup_insert_eq. by eapply lookup_lt_Some.
    + intros j' Hj'. rewrite (proj2 (drain_at_frame _ _ _)), Nat.add_succ_comm. apply Hp; lia.
    + exists x'. destruct Hs as (_ & _ & Hfd & _). rewrite Hfd in Hk2. rewrite Hk2, Ed. cbn [k_open].
      by rewrite lookup_insert_eq.
  - destruct (Hp 0%nat) as [[i0 E0] Hn0]; [lia..|]. rewrite Nat.add_0_r in E0, Hn0. rewrite E0.
    destruct (poll_one_other s i p i0 fd ev Hok Hl) as [Hl1 Hk1]; [congruence|].
    destruct (IH (poll_one s i0 fd ev) (S k) i p x j) as (x' & ? & ? & ?); [by apply poll_one_ok|done|by rewrite Hk1|done| | |by exists x'].
    + by rewrite (proj2 (poll_one_frame _ _ _ _)), Nat.add_succ_comm.
    + intros j' Hj' Hne. rewrite (proj2 (poll_one_frame _ _ _ _)), Nat.add_succ_comm. apply Hp; lia.
Qed.

Lemma round_ok s from evs : tab_ok s -> (from <= BROKER_POLL_IPC)%nat ->
  tab_ok (round s from evs) /\ g_next_id (round s from evs) = g_next_id s.
Proof.
  intros Hok Hf. unfold round. destruct (cng_nl_poll_add _ _ _) as [s' fds] eqn:E.
  destruct (poll_add_spec s from s' fds Hok Hf E) as (Hok' & _ & _ & <- & _). by apply poll_ready_ok.
Qed.

(** The poll entry of a live peer, and a round in which it is reported readable. *)
Lemma round_serves s from i p k : tab_ok s -> (from <= BROKER_POLL_IPC)%nat -> live s i p -> k_open s !! np_fd p = Some k ->
  exists j, snd (cng_nl_poll_add s from BROKER_POLL_MAX) !! j = Some (np_fd p) /\
    forall evs, evs !! j = Some CNG_POLLIN ->
    exists k', k_open (round s from evs) !! np_fd p = Some k' /\
      k_queue k' = drop 32 (k_queue k) /\ k_taken k' = k_taken k ++ take 32 (k_queue k).
Proof.
  intros Hok Hf Hl Hk. unfold round. destruct (cng_nl_poll_add _ _ _) as [s' fds] eqn:E.
  destruct (poll_add_spec s from s' fds Hok Hf E) as (Hok' & Hg & Ho & _ & H4 & H5 & H6).
  destruct (H5 i p Hl) as (j & Hj & Hpj). exists j. split; [done|]. intros evs Hev.
  apply (poll_ready_at _ s' 0 i p k j Hok'); [by unfold live; rewrite Hg|by rewrite Ho| |done|].
  - apply lookup_zip_with_Some. by eexists _, _.
  - intros j' Hj' Hne. rewrite length_zip_with in Hj'. rewrite Nat.add_0_l, <-Hpj.
    destruct (lookup_lt_is_Some_2 fds j') as [fd Hfd]; [lia|]. destruct (H4 j' fd Hfd) as (i' & _ & _ & _ & Hi').
    split; [by rewrite Hi'|]. apply lookup_lt_Some in Hj. destruct (decide (j' < j)%nat); [apply H6; lia|].
    intros Heq. symmetry in Heq. revert Heq. apply H6. lia.
Qed.

(** ** Every run *)

Lemma tab0_ok : tab_ok tab0.
Proof.
  assert (Hnone : forall i p, ~ live tab0 i p).
  { intros i p [Hi Hu]. cbn [tab0 g_peer] in Hi. apply lookup_replicate in Hi as [-> _]. done. }
  split; [apply length_replicate|apply length_replicate|..]; try (intros i; intros; exfalso; by eapply (Hnone i)).
  - intros fd k. cbn [tab0 k_open]. by rewrite lookup_empty.
  - by vm_compute.
Qed.

Lemma reached_ok n s : reached n s -> Z.of_nat n < 2 ^ 31 -> tab_ok s /\ 0 <= g_next_id s <= Z.of_nat n.
Proof.
  induction 1 as [|n s o Hr IH Ho]; intros Hn; [split; [apply tab0_ok|done]|].
  destruct IH as [Hok Hid]; [lia|]. destruct o as [fd port flags q|fd r|id|from evs|]; cbn [registers op_ok] in *.
  - destruct Ho as [Hfd Hq]. destruct (register_ok s fd port flags q) as [? ?]; [done|lia|lia|done|done|]. split; [done|lia].
  - split; [by apply send_ok|done].
  - split; [by apply sync_ok|]. cbn [nl_step]. unfold cng_nl_serve_sync. destruct (peer_by_id s id) as [i|]; [|done].
    destruct (g_peer (drain_at s i 1024) !! i); cbn [with_peer g_next_id]; by rewrite (proj1 (drain_at_frame _ _ _)).
  - destruct (round_ok s from evs Hok Ho) as [? E]. split; [done|]. cbn [nl_step]. by rewrite E.
  - destruct (free_loop_ok CNG_NL_SOCK_MAX s 0 Hok) as [? E]. split; [done|]. cbn [nl_step]. unfold cng_nl_free_all. by rewrite E.
Qed.


(** *** One socket, one request *)

Definition demo_tab : nl_tab := nl_step tab0 (ORegister 5 4242 0 [(demo_req, demo_host [eth_addr])]).


(** ** Where the ids run out *)

(** One socket kept, ids handed out up to [m]. *)
Definition kept (m : Z) : nl_tab :=
  NlTab (NlPeer true 1 5 4242 0 0 0 0 :: replicate 1023 no_peer) 1 m (0%nat :: 1%nat :: replicate 1022 0%nat)
    {[ 5 := NlSock [] [] [] ]}.

Definition hup_second : nl_op := ORound 2 [0; CNG_POLLHUP].

Lemma kept_turn m : nl_step (nl_step (kept m) (ORegister 6 1 0 [])) hup_second = kept (nl_next_id m).
Proof. lazy -[nl_next_id]. reflexivity. Qed.

Lemma kept_reached k : Z.of_nat k + 2 < 2 ^ 31 -> reached (2 + k) (kept (Z.of_nat k + 2)).
Proof.
  induction k as [|k IH]; intros Hk.
  - assert (E : kept (Z.of_nat 0 + 2) = nl_step (nl_step (nl_step tab0 (ORegister 5 4242 0 [])) (ORegister 6 1 0 [])) hup_second)
      by (vm_compute; reflexivity).
    rewrite E. apply (reached_step 2 _ hup_second); [|cbn; unfold BROKER_POLL_IPC; lia].
    apply (reached_step 1 _ (ORegister 6 1 0 [])); [|split; [done|constructor]].
    apply (reached_step 0 _ (ORegister 5 4242 0 [])); [constructor|]. split; [done|constructor].
  - assert (E : nl_next_id (Z.of_nat k + 2) = Z.of_nat (S k) + 2).
    { unfold nl_next_id, u32, wrapu. rewrite Z.mod_small by lia. rewrite (proj2 (Z.ltb_ge _ _)) by lia. lia. }
    rewrite <-E, <-kept_turn. apply (reached_step (2 + S k) _ hup_second); [|cbn; unfold BROKER_POLL_IPC; lia].
    apply (reached_step (2 + k) _ (ORegister 6 1 0 [])); [apply IH; lia|]. split; [done|constructor].
Qed.

(** The ids are handed out anew after 2^31 - 1 of them, whether or not the socket
    that has one is still there: the second socket's syncs are then the first's. *)
Lemma wrapped_id_meets_twin : exists n s i j p q, reached n s /\ live s i p /\ live s j q /\ i <> j /\
  np_id p = np_id q /\ peer_by_id s (np_id q) = Some i.
Proof.
  pose proof (kept_reached (Z.to_nat (2 ^ 31 - 3))) as Hr. rewrite Z2Nat.id in Hr by lia.
  replace (2 ^ 31 - 3 + 2) with (2 ^ 31 - 1) in Hr by lia. specialize (Hr ltac:(lia)).
  remember (2 + Z.to_nat (2 ^ 31 - 3))%nat as n eqn:E. clear E.
  exists (1 + n)%nat, (nl_step (kept (2 ^ 31 - 1)) (ORegister 6 7 0 [])), 0%nat, 1%nat,
    (NlPeer true 1 5 4242 0 0 0 0), (NlPeer true 1 6 7 0 0 0 0).
  split; [|by vm_compute].
  apply (reached_step n _ (ORegister 6 7 0 [])); [done|]. split; [done|constructor].
Qed.
